(* ===== verification/_CoqProject ===== *)
-Q . S2P
Prelude.v
Qstr.v
HList.v
HashTab.v
Children.v
Lru.v
Seqcount.v
World.v
Walk.v
Ops.v
Reclaim.v
Namespace.v
TreeOps.v
Paths.v
Inv.v
Parts.v
WalkSpec.v
OpsSpec.v
RenameSpec.v
Lifecycle.v
Moves.v
ReadSpec.v
Api.v
ShrinkSpec.v
LruCheck.v
Scene.v
Engine.v
History.v
Findings.v
BlChain.v
BlLists.v
BlRecs.v
BlLru.v
BlLruSpec.v
BlWorld.v
BlWalk.v
BlOps.v
BlMove.v
BlReclaim.v
BlInv.v
BlReads.v
BlWalkSpec.v
BlLocks.v
BlRep.v
BlSect.v
BlOpsSpec.v
BlTxn.v
BlMoveSpec.v
BlRename.v
BlExchange.v
BlLife.v
BlReadSpec.v
BlShrinkSpec.v
BlDeadlock.v
BlEngine.v
BlHistory.v
Qspinlock.v
QspinInv.v
QspinSpec.v
QspinSafe.v
Mount.v
MountRep.v
MountSet.v
MountSpec.v
MountClimb.v
MountOps.v
MountChains.v
MountCarry.v
MountSwap.v
MountRemove.v
MountFind.v
MountCheck.v
MountEngine.v
MountHistory.v
MountInline.v
MountInlineRep.v
MountInlineOps.v
MountInlineMove.v
MountInlineRead.v
MountInlineEngine.v
