(* ===== verification/Prelude.v ===== *)
(** * The dentry caches of experiments/dcache

    The program is a userspace dentry cache: a tree of named entries (dentries) with
    an index from (parent, name) to the entry, built several times over behind one
    API (src/experiments/dcache/dcache.h) so that designs can be compared.  This
    development models two of the engines, the LRU they share, the shard lock under
    it and the mount table of one, and proves that both engines implement one abstract
    name space.

    ** Parts of the program and where they are

    - Names and paths (dcache.h: qstr, dc_path, dc_path_parse): Qstr.
    - Sequence counter, ticket lock, seqlock (seqcount.h): Seqcount.
    - Queued spinlock of the LRU shards (dcache_qspinlock.h): Qspinlock (the code and
      the machine that interleaves it), QspinInv (program points and invariant),
      QspinSpec (each access keeps it), QspinSafe (theorems).
    - The seqlock engine (dcache_seqlock.c), the kernel's design:
        HList, HashTab (hash chains under bucket bit locks), Children (child lists),
        Lru (per-node LRU lists and membership words), World (struct dentry and
        struct dcache, allocator, RCU, directory rwsems), Walk (lookups, listing,
        reverse walk, census), Ops (add, instantiate, delete, unlink, rename,
        exchange), Reclaim (shrinker, dc_create, dc_destroy).
    - The bucket-lock engine (dcache_bucketlock.c), whose renames stack a shell on
      the entry in one transaction and fold it one grace period later:
        BlChain (marked hlists under head bit locks and the records of their
        transactions), BlLru (dcache_lru.h, dcache_lru_shrink.h), BlWorld (dentries,
        lock order, commit, RCU callbacks), BlWalk, BlOps, BlMove (stacking, folding,
        exchange), BlReclaim (shrinker, life of the cache).
    - The mount table of that engine (dcache_mount.h, built with -DDC_MOUNT_COUNT): how
      many mountpoints are at or below a dentry, kept for those that have any in
      objects hashed by dentry; a rename carries the counts in its own commit: Mount
      (all of it, and the parts of rename, exchange, delete and unlink that the build
      adds).  Its state holds the engine's, whose code runs on that part of it.
    - The other arm of that table (dcache_mount_inline.h, -DDC_MOUNT_INLINE): the count
      is a field of the dentry, changed under one lock, raised above the new parent
      before a move commits and lowered above the old one after: MountInline (the same
      functions under the same names with [inl_] before them).

    Each of these files translates the C code function by function under its own
    names.  A C pointer is its address, 0 is NULL; a struct is kept as field groups,
    one map from addresses to each group.  Code runs in the state and fault monad of
    this file: a load through a dangling pointer, a lock that would never be granted
    and a failed assertion are faults, so a theorem that a run returns also says it
    does none of these.  A [goto] out of a section is the value the section returns.

    ** The specification and how the engines meet it

    Namespace: a name space is a finite map from dentries to parent, name, id, type
    and state that forms a tree; every call of the API is a function on it giving the
    answer and the next name space.  TreeOps: those functions keep it a well-formed
    tree.  Paths and Moves: what they mean for paths.

    Api: [Engine] is the interface of an engine, the state, the calls, the relation
    [eng_holds] between a state and the name space it holds, and the promise that a
    permitted call returns with an answer and a name space the specification allows.
    What follows for histories of calls is proved there once.

    The seqlock engine discharges it through Inv (the invariant), Parts (its parts
    under primitive actions), WalkSpec, OpsSpec, RenameSpec, ReadSpec, ShrinkSpec,
    Lifecycle, LruCheck; Engine has its theorems operation by operation, on the
    concrete cache of Scene, and History the instance.  The bucket-lock engine does so
    through BlLists, BlRecs, BlLruSpec (lists, records, words), BlInv (the invariant,
    with shells and deferred folds), BlReads, BlWalkSpec, BlReadSpec, BlLocks, BlRep,
    BlSect (inside of an operation), BlOpsSpec, BlTxn, BlMoveSpec, BlRename,
    BlExchange, BlShrinkSpec, BlLife; BlEngine has its theorems and BlHistory the
    instance.  BlDeadlock: threads that lock heads in the order of [bl_lock_n].

    The mount table: MountSpec has what it promises ([mquiet]: each count is the number
    of mountpoints at or below its dentry, an object and the flag exactly where that
    number is not zero), the paths both arms follow and the counts of a name space after
    a move, MountRep how a state represents counts, pins and flags, MountSet the set
    of an operation (buckets, second look, commit, letting go), MountClimb a set while it
    is built, MountOps mount, unmount and count, MountChains the set of a move or an
    exchange, MountCarry and MountSwap those themselves, MountRemove the removals (the
    engine's own, step by step, but for the test of the flags), MountFind the search,
    MountCheck the audit; MountEngine has the theorems, MountHistory the grace period
    and the end of the table and the theorems of whole histories.

    The inline arm: MountInlineRep has its invariant and the climb that adds to counts,
    MountInlineOps ([iquiet], the state between operations) mount, unmount and count,
    MountInlineMove the moves, MountInlineRead the audit and the search.
    MountInlineEngine has [MountArm], the interface of an arm with its laws, the two
    instances, a client that is proved against the interface alone, and the theorems.

    ** What the theorems show

    - Refinement: any history of permitted calls (well-formed paths, renames only into
      directories, the reverse walk only of live dentries; with the table also no
      dc_delete above a mountpoint) on a fresh cache returns without a fault, answers as the specification does, and keeps the invariant; operation by
      operation, on every branch, errors included (Engine, BlEngine).
    - Meaning: renames carry subtrees, exchanges swap them, lookups report what the
      path leads to, listings and the census are exact, the reverse walk and the
      lookup are inverse, delete and instantiate are inverse, the shrinker evicts
      childless entries only and ends, a grace period does exactly the frees and folds
      that were queued and shows nowhere in the name space, dc_destroy frees every dentry
      once.
    - Mounts: mount, unmount, count and find answer as specified and leave the table
      exact; a move or an exchange leaves it exact for the name space after it, and so
      do removals, which a mountpoint refuses; the audit, which counts again, agrees.
      The two arms give the same answers to every sequence of calls while memory lasts
      and no dentry is deeper than a search climbs; the moves of the
      inline arm are exact too, and no count is short between their two halves.
    - Concurrency of the locks: the queued spinlock excludes, loses no wakeup and
      keeps to its widths under every interleaving; head locking does not deadlock.
    - Findings: where the code does less than it means to, as theorems and as runs.

    ** Loops and bounds

    A loop that follows a list runs with fuel one more than the number of dentries
    (a list of the invariant has no more nodes); a retry loop of the bucket-lock
    engine has RETRY_ROUNDS (2^24) rounds, of which a run alone uses at most two;
    climbs have the source's bounds (DC_PATH_MAX, DC_LOOP_MAX, DC_MNT_CLIMB_MAX), the
    climb of the inline arm, which may turn back once, twice the number of dentries; mount
    and unmount the source's DC_MNT_TRIES_MAX attempts.  The theorems say that
    the code returns, so the fuel is proved enough.  Machine words wrap where the C
    types do (hash, sequence counters, tickets, lock word, node counter, counts and their sum).

    ** Parameters

    - [Memalign]: the allocator, with [MemalignOk] (a block is fresh, aligned, not
      NULL); it may return NULL at any time.
    - [Layout]: the addresses of list heads, with [LayoutOk] (distinct).
    - [SwTxn]: the commit of a single-writer transaction of liburcu-txn, with
      [SwTxnOk] (a transaction whose slots hold the noted values commits as one step
      or reports want of memory).
    - [HereMem] of the inline arm: does the block of one more mountpoint fit.
    - [Calloc], [Realloc], [MntTxn] of the mount table: blocks of count objects, the
      growth of the arrays of a set, the commit of a set of counts; and the mover of
      [mnt_carry], [mnt_swap], [inl_carry] and [inl_swap], the engine's part of a rename or an exchange, of which
      [mover_ok] asks that it is that in the name space or changes nothing (the
      witnesses run the engine's own [dc_rename] and [dc_rename_exchange]).
    Each has a concrete instance on which the witnesses run.

    ** Not modelled

    Names have DC_NAME_MAX 32 in both engines; the Makefile's build of the bucket-lock
    engine (-DDC_MARK_GEN) has 40 unless it is given the 32 of the other.
    The engines are modelled one call at a time; of the interleavings only those of
    the locks are.  Memory orderings are not modelled (accesses are sequentially
    consistent).  Left out: the transactional engine (dcache_txn.c), whose
    transactions abort and retry against other writers; the removals in the build
    of the inline arm (those of the other arm are modelled) and the subtree scan, hold-off, linger and counter
    builds of dcache_bucketlock.c, compiled only under their own flags;
    the MCAS deque arm of dcache_lru.h, compiled out by default; krwsem, a port of
    the kernel's rwsem, taken as a reader/writer lock; rseq and getcpu (the current
    node is a field of the world); benchmarks, stress tests and reproducers; and
    everything outside experiments/dcache (list, hash and trie benchmarks, and the
    vendored perfbook). *)

(** ** Shared vocabulary: the fault and state monad the C code is translated into,
    its weakest-precondition calculus, machine words and tagged pointers, and the
    generic lemmas on lists and maps. *)

From stdpp Require Export gmap list functions fin_maps.
From Stdlib Require Export ZArith Lia.

#[export] Set Default Goal Selector "!".

Declare Scope dc_scope.
Delimit Scope dc_scope with dc.
Open Scope Z_scope.
Open Scope dc_scope.

(** Prove a closed decidable fact by computing its decision. *)
Ltac by_decide := apply (bool_decide_unpack _); vm_compute; exact I.

(** ** Machine words *)

Definition w32 (z : Z) : Z := z mod 2 ^ 32.
Definition w64 (z : Z) : Z := z mod 2 ^ 64.

(** ** The fault and state monad

    A C function is a state transformer that either returns or faults.  A
    fault is a behaviour the code must never show: a dereference of NULL or of
    memory that is not allocated, a lock that the caller waits for and nobody
    will release, a loop that does not end, an [abort()]. *)

Inductive fault :=
  | BadPtr        (* NULL or dangling pointer, or an index out of range *)
  | Deadlock      (* waits for a lock that is held *)
  | NoFuel        (* a loop that did not end within its bound *)
  | Aborted.      (* an explicit abort, or an unbalanced unlock *)

Inductive res (A : Type) :=
  | Ok (a : A)
  | Err (f : fault).
Arguments Ok {A} a.
Arguments Err {A} f.

Definition ST (S A : Type) : Type := S → res (A * S).

Definition st_ret {S A} (a : A) : ST S A := λ s, Ok (a, s).
Definition st_bind {S A B} (m : ST S A) (f : A → ST S B) : ST S B :=
  λ s, match m s with
       | Ok (a, s') => f a s'
       | Err e => Err e
       end.
Definition st_fault {S A} (e : fault) : ST S A := λ _, Err e.
Definition st_get {S} : ST S S := λ s, Ok (s, s).
Definition st_gets {S A} (f : S → A) : ST S A := λ s, Ok (f s, s).
Definition st_put {S} (s : S) : ST S unit := λ _, Ok (tt, s).
Definition st_mod {S} (f : S → S) : ST S unit := λ s, Ok (tt, f s).

(** Run a component's code on the part of a larger state it works on. *)
Definition st_zoom {S T A} (get : S → T) (set : T → S → S) (m : ST T A) : ST S A :=
  λ s, match m (get s) with
       | Ok (a, t) => Ok (a, set t s)
       | Err e => Err e
       end.

Notation "'let!' x ':=' m 'in' k" := (st_bind m (λ x, k))
  (at level 10, x name, m at level 100, k at level 200) : dc_scope.
Notation "m ';;;' k" := (st_bind m (λ _, k))
  (at level 100, k at level 200, right associativity) : dc_scope.

(** A load through a map of cells: an absent cell is a dangling pointer. *)
Definition st_lookup {S V} (sel : S → gmap Z V) (a : Z) : ST S V :=
  λ s, match sel s !! a with
       | Some v => Ok (v, s)
       | None => Err BadPtr
       end.

(** [when c m] is [if (c) m;]. *)
Definition when {S} (c : bool) (m : ST S unit) : ST S unit :=
  if c then m else st_ret tt.

(** A loop of at most [p] rounds, left as soon as a round gives its result:
    the bound is in binary, so that a bound of 2^24 costs nothing to write. *)
Fixpoint iter_upto {S A B} (p : positive) (body : A → ST S (A + B)) (a : A)
  : ST S (A + B) :=
  match p with
  | xH => body a
  | xO q => st_bind (iter_upto q body a) (λ r,
              match r with inl a' => iter_upto q body a' | inr b => st_ret (inr b) end)
  | xI q => st_bind (body a) (λ r,
              match r with
              | inl a1 => st_bind (iter_upto q body a1) (λ r1,
                  match r1 with inl a2 => iter_upto q body a2 | inr b => st_ret (inr b) end)
              | inr b => st_ret (inr b)
              end)
  end.

(** ** Total weakest preconditions

    [wp m Q s]: started in [s], [m] returns (it does not fault) and its result
    and final state satisfy [Q]. *)

Definition wp {S A} (m : ST S A) (Q : A → S → Prop) (s : S) : Prop :=
  match m s with
  | Ok (a, s') => Q a s'
  | Err _ => False
  end.

Create HintDb dcwp.

Section wp_rules.
Context {S : Type}.
Implicit Types s : S.

Lemma wp_ret {A} (a : A) Q s : Q a s → wp (st_ret a) Q s.
Proof. done. Qed.

Lemma wp_bind {A B} (m : ST S A) (f : A → ST S B) Q s :
  wp m (λ a s', wp (f a) Q s') s → wp (st_bind m f) Q s.
Proof. unfold wp, st_bind. by destruct (m s) as [[a s']|]. Qed.

(** The first commands of a program taken together. *)
Lemma wp_assoc {A B C} (m : ST S A) (f : A → ST S B) (g : B → ST S C) Q s :
  wp (st_bind m f) (λ b s', wp (g b) Q s') s → wp (st_bind m (λ a, st_bind (f a) g)) Q s.
Proof.
  unfold wp, st_bind. destruct (m s) as [[a s'] |]; [| done]. by destruct (f a s') as [[b s''] |].
Qed.

Lemma wp_mono {A} (m : ST S A) (P Q : A → S → Prop) s :
  wp m P s → (∀ a s', P a s' → Q a s') → wp m Q s.
Proof. unfold wp. destruct (m s) as [[a s']|]; eauto. Qed.

Lemma wp_conj {A} (m : ST S A) (P Q : A → S → Prop) s :
  wp m P s → wp m Q s → wp m (λ a s', P a s' ∧ Q a s') s.
Proof. unfold wp. destruct (m s) as [[a s']|]; eauto. Qed.

Lemma wp_inv {A} (m : ST S A) Q s :
  wp m Q s → ∃ a s', m s = Ok (a, s') ∧ Q a s'.
Proof. unfold wp. destruct (m s) as [[a s']|]; [eauto | done]. Qed.

Lemma wp_run {A} (m : ST S A) Q s a s' :
  m s = Ok (a, s') → Q a s' → wp m Q s.
Proof. unfold wp. by intros ->. Qed.

Lemma wp_gets {A} (f : S → A) (Q : A → S → Prop) s : Q (f s) s → wp (st_gets f) Q s.
Proof. done. Qed.

Lemma wp_get (Q : S → S → Prop) s : Q s s → wp st_get Q s.
Proof. done. Qed.

Lemma wp_mod (f : S → S) (Q : unit → S → Prop) s : Q tt (f s) → wp (st_mod f) Q s.
Proof. done. Qed.

Lemma wp_lookup {V} (sel : S → gmap Z V) a v (Q : V → S → Prop) s :
  sel s !! a = Some v → Q v s → wp (st_lookup sel a) Q s.
Proof. unfold wp, st_lookup. by intros ->. Qed.

Lemma wp_when (c : bool) (m : ST S unit) (Q : unit → S → Prop) s :
  (c = true → wp m Q s) → (c = false → Q tt s) → wp (when c m) Q s.
Proof. destruct c; [intros H _; by apply H | intros _ H; by apply H]. Qed.

Lemma wp_zoom {T A} (get : S → T) (set : T → S → S) (m : ST T A) Q s :
  wp m (λ a t, Q a (set t s)) (get s) → wp (st_zoom get set m) Q s.
Proof. unfold wp, st_zoom. by destruct (m (get s)) as [[a t]|]. Qed.

(** A bounded loop whose first round already gives the result. *)
Lemma wp_iter_first {A B} p (body : A → ST S (A + B)) a (Q : A + B → S → Prop) s :
  wp (body a) (λ r s', ∃ b, r = inr b ∧ Q (inr b) s') s →
  wp (iter_upto p body a) Q s.
Proof.
  intros H. enough (wp (iter_upto p body a) (λ r s', ∃ b, r = inr b ∧ Q (inr b) s') s).
  { eapply wp_mono; [done |]. by intros ?? (b & -> & ?). }
  induction p as [p IH | p IH |]; simpl; [| | done].
  - apply wp_bind. eapply wp_mono; [exact H |]. intros ?? (b & -> & HQ).
    apply wp_ret. eauto.
  - apply wp_bind. eapply wp_mono; [exact IH |]. intros ?? (b & -> & HQ).
    apply wp_ret. eauto.
Qed.

(** A bounded loop that gives its result after at most [n] rounds more than one. *)
Fixpoint rounds {A B} (body : A → ST S (A + B)) (Q : B → S → Prop) (n : nat) (a : A) (s : S) : Prop :=
  wp (body a) (λ r s',
    match r with
    | inr b => Q b s'
    | inl a' => match n with O => False | Datatypes.S n' => rounds body Q n' a' s' end
    end) s.

Lemma wp_iter_rounds {A B} p (body : A → ST S (A + B)) Q : ∀ n a s,
  rounds body Q n a s →
  wp (iter_upto p body a) (λ r s',
    match r with
    | inr b => Q b s'
    | inl a' => (Pos.to_nat p ≤ n)%nat ∧ rounds body Q (n - Pos.to_nat p) a' s'
    end) s.
Proof.
  assert (∀ n a s, rounds body Q n a s → wp (body a) (λ r s',
    match r with inr b => Q b s' | inl a' => (1 ≤ n)%nat ∧ rounds body Q (n - 1) a' s' end) s) as Hone.
  { intros [| n] a s H; (eapply wp_mono; [exact H |]); intros [a' | b] s' H'; [done | done | | done].
    simpl. rewrite Nat.sub_0_r. split; [lia | done]. }
  induction p as [p IH | p IH |]; intros n a s H; simpl; [| | by apply Hone].
  - apply wp_bind. eapply wp_mono; [by apply Hone |]. intros [a1 | b] s1 H1; [| by apply wp_ret].
    destruct H1 as [L1 H1]. apply wp_bind. eapply wp_mono; [by apply IH |].
    intros [a2 | b] s2 H2; [| by apply wp_ret]. destruct H2 as [L2 H2].
    eapply wp_mono; [by apply IH |]. intros [a3 | b] s3 H3; [| done]. destruct H3 as [L3 H3].
    split; [lia |]. by replace (n - Pos.to_nat p~1)%nat with (n - 1 - Pos.to_nat p - Pos.to_nat p)%nat by lia.
  - apply wp_bind. eapply wp_mono; [by apply IH |]. intros [a1 | b] s1 H1; [| by apply wp_ret].
    destruct H1 as [L1 H1]. eapply wp_mono; [by apply IH |].
    intros [a2 | b] s2 H2; [| done]. destruct H2 as [L2 H2].
    split; [lia |]. by replace (n - Pos.to_nat p~0)%nat with (n - Pos.to_nat p - Pos.to_nat p)%nat by lia.
Qed.

(** A bounded loop whose body never gives a result. *)
Lemma wp_iter_never {A B} (body : A → ST S (A + B)) (Inv : A → S → Prop) p : ∀ a s,
  (∀ a s, Inv a s → wp (body a) (λ r s', ∃ a', r = inl a' ∧ Inv a' s') s) → Inv a s →
  wp (iter_upto p body a) (λ r s', ∃ a', r = inl a' ∧ Inv a' s') s.
Proof.
  induction p as [p IH | p IH |]; intros a s Hb Ha; simpl; [| | by apply Hb].
  - apply wp_bind. eapply wp_mono; [by apply Hb |]. intros r s1 (a1 & -> & H1).
    apply wp_bind. eapply wp_mono; [by apply IH |]. intros r s2 (a2 & -> & H2). by apply IH.
  - apply wp_bind. eapply wp_mono; [by apply IH |]. intros r s1 (a1 & -> & H1). by apply IH.
Qed.
End wp_rules.

Arguments iter_upto : simpl never.

(** Symbolic execution: take the next command of the program apart.  A load is
    discharged by the lookup fact in the context. *)
Ltac wp_step :=
  match goal with
  | |- wp (st_bind _ _) _ _ => apply wp_bind
  | |- wp (st_ret _) _ _ => apply wp_ret
  | |- wp (st_gets _) _ _ => apply wp_gets
  | |- wp st_get _ _ => apply wp_get
  | |- wp (st_mod _) _ _ => apply wp_mod
  | |- wp (st_lookup _ _) _ _ => eapply wp_lookup; [by eauto |]
  | |- wp (st_zoom _ _ _) _ _ => apply wp_zoom
  end.
Ltac wp_steps := repeat (wp_step; cbn beta iota).
(** Use a specification already proved for the next command. *)
Tactic Notation "wp_use" uconstr(L) := eapply wp_mono; [eapply L | cbn beta].

(** ** Tagged pointers

    A dentry is 64-byte aligned, so the low six bits of its address are free
    and the code keeps flags there. *)

Definition aligned (a : Z) : Prop := 0 ≤ a ∧ a mod 64 = 0.

#[export] Instance aligned_dec a : Decision (aligned a).
Proof. unfold aligned. apply _. Defined.

Lemma aligned_0 : aligned 0.
Proof. done. Qed.

Lemma land_3_mod z : Z.land z 3 = z mod 4.
Proof. change 3 with (Z.ones 2). by rewrite Z.land_ones. Qed.

Lemma land_1_mod z : Z.land z 1 = z mod 2.
Proof. change 1 with (Z.ones 1). by rewrite Z.land_ones. Qed.

Lemma land_2_mod z : Z.land z 2 = (z / 2) mod 2 * 2.
Proof.
  change 2 with (Z.land 3 2) at 1. rewrite Z.land_assoc, land_3_mod.
  assert (z mod 4 = 0 ∨ z mod 4 = 1 ∨ z mod 4 = 2 ∨ z mod 4 = 3) as Hc
    by (pose proof (Z.mod_pos_bound z 4); lia).
  assert ((z / 2) mod 2 = z mod 4 / 2) as -> by (Z.to_euclidean_division_equations; lia).
  by destruct Hc as [E | [E | [E | E]]]; rewrite E.
Qed.

Lemma land_lnot_3 z : Z.land z (Z.lnot 3) = z - z mod 4.
Proof.
  rewrite <- Z.ldiff_land. change 3 with (Z.ones 2).
  rewrite Z.ldiff_ones_r by lia. rewrite Z.shiftl_mul_pow2, Z.shiftr_div_pow2 by lia.
  pose proof (Z.div_mod z 4). change (2 ^ 2) with 4. lia.
Qed.

Lemma land_lnot_1 z : Z.land z (Z.lnot 1) = z - z mod 2.
Proof.
  rewrite <- Z.ldiff_land. change 1 with (Z.ones 1) at 1.
  rewrite Z.ldiff_ones_r by lia. rewrite Z.shiftl_mul_pow2, Z.shiftr_div_pow2 by lia.
  pose proof (Z.div_mod z 2). change (2 ^ 1) with 2. lia.
Qed.

Lemma land_lnot_2 z : Z.land z (Z.lnot 2) = z - (z / 2) mod 2 * 2.
Proof.
  rewrite <- land_2_mod. rewrite <- Z.ldiff_land.
  pose proof (Z.lor_ldiff_and z 2) as E.
  assert (Z.land (Z.ldiff z 2) (Z.land z 2) = 0) as D.
  { apply Z.bits_inj'; intros n Hn. rewrite Z.land_spec, Z.ldiff_spec, Z.land_spec, Z.bits_0.
    by destruct (Z.testbit z n), (Z.testbit 2 n). }
  rewrite <- Z.lxor_lor in E by done. rewrite <- Z.add_nocarry_lxor in E by done. lia.
Qed.

Lemma aligned_land_0 a t : aligned a → 0 ≤ t < 64 → Z.land a t = 0.
Proof.
  intros [Ha Hm] Ht. apply Z.bits_inj'; intros n Hn. rewrite Z.land_spec, Z.bits_0.
  destruct (decide (n < 6)).
  - rewrite andb_comm. apply andb_false_intro2.
    apply (f_equal (λ z, Z.testbit z n)) in Hm.
    change 64 with (2 ^ 6) in Hm. rewrite <- Z.land_ones in Hm by lia.
    rewrite Z.land_spec, Z.ones_spec_low, andb_true_r, Z.bits_0 in Hm by lia. done.
  - apply andb_false_intro2. rewrite <- (Z.mod_small t (2 ^ 6)) by lia.
    rewrite <- Z.land_ones by lia. rewrite Z.land_spec, Z.ones_spec_high by lia.
    apply andb_false_r.
Qed.

Lemma aligned_lor a t : aligned a → 0 ≤ t < 64 → Z.lor a t = a + t.
Proof.
  intros Ha Ht. pose proof (aligned_land_0 a t Ha Ht).
  rewrite <- Z.lxor_lor by done. by rewrite <- Z.add_nocarry_lxor.
Qed.

(** A word is a pointer [p] with a tag [t] in its low bits. *)
Definition tagged (p t w : Z) : Prop := aligned p ∧ 0 ≤ t < 4 ∧ w = p + t.

Lemma aligned_mod4 p t : aligned p → 0 ≤ t < 4 → (p + t) mod 4 = t.
Proof. intros [? ?] ?. Z.to_euclidean_division_equations. lia. Qed.

Lemma aligned_mod2 p t : aligned p → (p + t) mod 2 = t mod 2.
Proof. intros [? ?]. Z.to_euclidean_division_equations. lia. Qed.

Lemma tagged_ptr p t w : tagged p t w → Z.land w (Z.lnot 3) = p.
Proof. intros (? & ? & ->). rewrite land_lnot_3, aligned_mod4 by done. lia. Qed.

Lemma tagged_tag p t w : tagged p t w → Z.land w 3 = t.
Proof. intros (? & ? & ->). by rewrite land_3_mod, aligned_mod4. Qed.

Lemma tagged_bit0 p t w : tagged p t w → Z.land w 1 = t mod 2.
Proof. intros (? & ? & ->). by rewrite land_1_mod, aligned_mod2. Qed.

Lemma tagged_bit1 p t w : tagged p t w → Z.land w 2 = t / 2 * 2.
Proof.
  intros ([??] & ? & ->). rewrite land_2_mod. Z.to_euclidean_division_equations. lia.
Qed.

(** The low bits of a tagged word, whichever tag bits [m] are asked for, and the
    word with them cleared. *)
Lemma aligned_land p t m : aligned p → 0 ≤ t < 64 → 0 ≤ m < 64 → Z.land (p + t) m = Z.land t m.
Proof.
  intros Hp Ht Hm. rewrite <- aligned_lor, Z.land_lor_distr_l by done.
  by rewrite aligned_land_0, Z.lor_0_l.
Qed.

Lemma aligned_clear p t m :
  aligned p → 0 ≤ t < 64 → 0 ≤ m < 64 → Z.land (p + t) (Z.lnot m) = p + (t - Z.land t m).
Proof.
  intros Hp Ht Hm. pose proof (Z.lor_ldiff_and (p + t) m) as E.
  rewrite Z.ldiff_land in E. assert (Z.land (Z.land (p + t) (Z.lnot m)) (Z.land (p + t) m) = 0) as D.
  { apply Z.bits_inj'; intros n Hn. rewrite !Z.land_spec, Z.lnot_spec, Z.bits_0 by lia.
    by destruct (Z.testbit (p + t) n), (Z.testbit m n). }
  rewrite <- Z.lxor_lor, <- Z.add_nocarry_lxor, (aligned_land p t m) in E by done. lia.
Qed.
