(* ===== verification/Qstr.v ===== *)
(** Component names and paths: [struct qstr], [struct dc_path] and the pure
    helpers of experiments/dcache/dcache.h.

    A C string is the list of its bytes, the terminating NUL left out; a
    [char name[DC_NAME_MAX]] array is the list of all its bytes, so that what a
    copy leaves behind the terminator is there too. *)

From S2P Require Import Prelude.

(** The width of the seqlock engine.  The Makefile builds the bucket-lock engine with
    -DDC_MARK_GEN, which makes it 40, or 32 under -DDC_NAME_MAX=32, the control of matched
    width; both engines are modelled at 32. *)
Definition DC_NAME_MAX : nat := 32.
Definition DC_PATH_MAX : nat := 24.

Record qstr := Qstr {
  q_hash : Z;
  q_len : Z;
  q_name : list Z;
}.

#[export] Instance qstr_eq_dec : EqDecision qstr.
Proof. solve_decision. Defined.

Record dc_path := DcPath {
  ndepth : nat;
  comp : list qstr;
}.

Definition FNV_BASIS : Z := 2166136261.
Definition FNV_PRIME : Z := 16777619.

(** One step of FNV-1a: [h ^= byte; h *= 16777619u]. *)
Definition fnv_step (h c : Z) : Z := w32 (Z.lxor h c * FNV_PRIME).

(** The loop of [dc_qstr_init]: stops at the NUL or after [room] bytes. *)
Fixpoint fnv_loop (room : nat) (name : list Z) (h : Z) (i : nat) : Z * nat :=
  match room, name with
  | S room', c :: name' =>
      if c =? 0 then (h, i) else fnv_loop room' name' (fnv_step h c) (S i)
  | _, _ => (h, i)
  end.

Definition dc_qstr_init (q : qstr) (name : list Z) : qstr :=
  let '(h, i) := fnv_loop (DC_NAME_MAX - 1) name FNV_BASIS 0 in
  {| q_hash := h;
     q_len := Z.of_nat i;
     q_name := take i name ++ 0 :: drop (S i) (q_name q) |}.

(** The bytes that count: the first [len] of the array. *)
Definition qname (q : qstr) : list Z := take (Z.to_nat (q_len q)) (q_name q).

Definition dc_qstr_eq (a b : qstr) : bool :=
  (q_hash a =? q_hash b) && (q_len a =? q_len b)
  && bool_decide (qname a = take (Z.to_nat (q_len a)) (q_name b)).

Definition dc_path_reset (p : dc_path) : dc_path :=
  {| ndepth := 0; comp := comp p |}.

(** Component [i] of the array; outside the array there is none. *)
Definition path_comp (p : dc_path) (i : nat) : option qstr := comp p !! i.

Definition dc_path_push (p : dc_path) (name : list Z) : Z * dc_path :=
  if (DC_PATH_MAX <=? ndepth p)%nat then (-1, p)
  else (0, {| ndepth := S (ndepth p);
              comp := alter (λ q, dc_qstr_init q name) (ndepth p) (comp p) |}).

Definition SLASH : Z := 47.

(** The loop of [dc_path_parse] with its local buffer: [buf] holds the [n]
    bytes of the component being read. *)
Fixpoint parse_loop (path buf : list Z) (p : dc_path) : Z * dc_path :=
  match path with
  | [] => (* c == '\0' *)
      match buf with
      | [] => (0, p)
      | _ => dc_path_push p buf
      end
  | c :: path' =>
      if (c =? SLASH) || (c =? 0) then
        match buf with
        | [] => if c =? 0 then (0, p) else parse_loop path' [] p
        | _ =>
            let '(r, p') := dc_path_push p buf in
            if negb (r =? 0) then (-1, p')
            else if c =? 0 then (0, p') else parse_loop path' [] p'
        end
      else if (DC_NAME_MAX - 1 <=? length buf)%nat then (-1, p)
      else parse_loop path' (buf ++ [c]) p
  end.

Definition dc_path_parse (p : dc_path) (path : list Z) : Z * dc_path :=
  parse_loop path [] (dc_path_reset p).

(** The names a path stands for. *)
Definition pnames (p : dc_path) : list (list Z) := qname <$> take (ndepth p) (comp p).

(** ** Well-formed names *)

Definition fnv (name : list Z) : Z := foldl fnv_step FNV_BASIS name.

(** What [dc_qstr_init] establishes and every copy of a qstr keeps. *)
Record qstr_wf (q : qstr) : Prop := {
  qw_len : 0 ≤ q_len q < Z.of_nat DC_NAME_MAX;
  qw_size : length (q_name q) = DC_NAME_MAX;
  qw_hash : q_hash q = fnv (qname q);
}.

Record path_wf (p : dc_path) : Prop := {
  pw_size : length (comp p) = DC_PATH_MAX;
  pw_depth : (ndepth p ≤ DC_PATH_MAX)%nat;
  pw_comp : ∀ i q, (i < ndepth p)%nat → comp p !! i = Some q → qstr_wf q;
}.

(** A C string: no NUL inside. *)
Definition cstring (s : list Z) : Prop := 0 ∉ s.

#[export] Instance cstring_dec s : Decision (cstring s).
Proof. unfold cstring. apply _. Defined.

Lemma fnv_loop_spec room name h i :
  cstring name →
  fnv_loop room name h i = (foldl fnv_step h (take room name), i + (length name `min` room))%nat.
Proof.
  revert name h i. induction room as [| room IH]; intros name h i Hs; simpl.
  { f_equal. lia. }
  destruct name as [| c name]; simpl; [f_equal; lia |].
  unfold cstring in Hs. apply not_elem_of_cons in Hs as [Hc Hs].
  destruct (Z.eqb_spec c 0); [congruence |].
  rewrite IH by done. f_equal; lia.
Qed.

Lemma fnv_step_range h c : 0 ≤ fnv_step h c < 2 ^ 32.
Proof. apply Z.mod_pos_bound. lia. Qed.

Lemma fnv_range name : 0 ≤ fnv name < 2 ^ 32.
Proof.
  unfold fnv. destruct name as [| c name] using rev_ind; [done |].
  rewrite foldl_app. simpl. apply fnv_step_range.
Qed.

Lemma qname_init q name :
  cstring name → length (q_name q) = DC_NAME_MAX →
  qname (dc_qstr_init q name) = take (DC_NAME_MAX - 1) name.
Proof.
  intros Hs Hq. unfold dc_qstr_init. rewrite fnv_loop_spec by done.
  unfold qname. cbn [q_len q_name]. rewrite Nat2Z.id, Nat.add_0_l.
  rewrite take_app_le by (rewrite length_take; lia).
  rewrite take_take.
  destruct (le_lt_dec (length name) (DC_NAME_MAX - 1)).
  - rewrite !take_ge by lia. done.
  - f_equal. lia.
Qed.

Lemma dc_qstr_init_wf q name :
  cstring name → length (q_name q) = DC_NAME_MAX → qstr_wf (dc_qstr_init q name).
Proof.
  intros Hs Hq. pose proof (qname_init q name Hs Hq) as Hn.
  split.
  - unfold dc_qstr_init. rewrite fnv_loop_spec by done. simpl. unfold DC_NAME_MAX in *. lia.
  - unfold dc_qstr_init. rewrite fnv_loop_spec by done. cbn [q_name].
    rewrite length_app, length_take. cbn [length]. rewrite length_drop, Hq.
    unfold DC_NAME_MAX. lia.
  - rewrite Hn. unfold dc_qstr_init. by rewrite fnv_loop_spec.
Qed.

(** On well-formed names the three-way test of [dc_qstr_eq] (hash, length,
    bytes) decides equality of the names. *)
Lemma dc_qstr_eq_spec a b :
  qstr_wf a → qstr_wf b → dc_qstr_eq a b = true ↔ qname a = qname b.
Proof.
  intros Ha Hb. unfold dc_qstr_eq. rewrite !andb_true_iff, !Z.eqb_eq, bool_decide_eq_true.
  assert (∀ q, qstr_wf q → Z.of_nat (length (qname q)) = q_len q) as Hl.
  { intros q Hq. unfold qname. rewrite length_take, (qw_size q Hq).
    pose proof (qw_len q Hq). lia. }
  split.
  - intros [[_ E] H]. unfold qname in *. by rewrite <- E.
  - intros E. split_and!.
    + by rewrite (qw_hash a Ha), (qw_hash b Hb), E.
    + by rewrite <- !Hl, E.
    + rewrite E. unfold qname. f_equal. f_equal. by rewrite <- !Hl, E by done.
Qed.

Lemma qstr_wf_hash_eq a b :
  qstr_wf a → qstr_wf b → qname a = qname b → q_hash a = q_hash b.
Proof. intros Ha Hb E. by rewrite (qw_hash a Ha), (qw_hash b Hb), E. Qed.

(** [dc_qstr_eq] is coarser than equality of the structs (it ignores what is
    behind the terminator), and on well-formed names it is an equivalence. *)
Definition qstr_equiv (a b : qstr) : Prop := qname a = qname b.

#[export] Instance qstr_equiv_equivalence : Equivalence qstr_equiv.
Proof. unfold qstr_equiv. split; red; congruence. Qed.

#[export] Instance qname_proper : Proper (qstr_equiv ==> eq) qname.
Proof. by intros a b. Qed.

(** ** Paths *)

Lemma path_comp_wf p i q :
  path_wf p → (i < ndepth p)%nat → comp p !! i = Some q → qstr_wf q.
Proof. intros Hp. apply (pw_comp p Hp). Qed.

Lemma path_comp_is_Some p i :
  path_wf p → (i < ndepth p)%nat → ∃ q, comp p !! i = Some q ∧ qstr_wf q.
Proof.
  intros Hp Hi. destruct (lookup_lt_is_Some_2 (comp p) i) as [q Hq].
  { rewrite (pw_size p Hp). pose proof (pw_depth p Hp). lia. }
  eauto using path_comp_wf.
Qed.

Lemma length_pnames p : path_wf p → length (pnames p) = ndepth p.
Proof.
  intros Hp. unfold pnames. rewrite length_fmap, length_take, (pw_size p Hp).
  pose proof (pw_depth p Hp). lia.
Qed.

Lemma pnames_lookup p i q :
  (i < ndepth p)%nat → comp p !! i = Some q → pnames p !! i = Some (qname q).
Proof. intros Hi Hq. unfold pnames. by rewrite list_lookup_fmap, lookup_take_lt, Hq. Qed.

(** A [struct dc_path] the helpers may write to: both arrays have their size. *)
Record path_store (p : dc_path) : Prop := {
  ps_wf : path_wf p;
  ps_names : ∀ i q, comp p !! i = Some q → length (q_name q) = DC_NAME_MAX;
}.

Lemma path_reset_store p :
  length (comp p) = DC_PATH_MAX →
  (∀ i q, comp p !! i = Some q → length (q_name q) = DC_NAME_MAX) →
  path_store (dc_path_reset p).
Proof.
  intros Hl Hn. split; [split |]; simpl; try done; [lia |]. intros ?? Hi. lia.
Qed.

Lemma dc_path_push_ok p name :
  path_store p → cstring name → (ndepth p < DC_PATH_MAX)%nat →
  ∃ p', dc_path_push p name = (0, p') ∧ path_store p' ∧ ndepth p' = S (ndepth p) ∧
        pnames p' = pnames p ++ [take (DC_NAME_MAX - 1) name].
Proof.
  intros [Hw Hn] Hs Hd. unfold dc_path_push.
  destruct (Nat.leb_spec DC_PATH_MAX (ndepth p)); [lia |].
  destruct (lookup_lt_is_Some_2 (comp p) (ndepth p)) as [q Hq].
  { by rewrite (pw_size p Hw). }
  eexists. split; [done |]. split_and!; [| done |].
  - split; [split |]; simpl.
    + by rewrite length_alter, (pw_size p Hw).
    + lia.
    + intros i q' Hi. destruct (decide (i = ndepth p)) as [-> |].
      * rewrite list_lookup_alter_eq, Hq. intros [= <-]. eauto using dc_qstr_init_wf.
      * rewrite list_lookup_alter_ne by done. apply (pw_comp p Hw). lia.
    + intros i q'. destruct (decide (i = ndepth p)) as [-> |].
      * rewrite list_lookup_alter_eq, Hq. intros [= <-].
        apply (qw_size _ (dc_qstr_init_wf q name Hs (Hn _ _ Hq))).
      * rewrite list_lookup_alter_ne by done. apply Hn.
  - unfold pnames. cbn [ndepth comp].
    erewrite take_S_r by (by rewrite list_lookup_alter_eq, Hq).
    rewrite take_alter, decide_False by lia. rewrite fmap_app. cbn [fmap list_fmap].
    rewrite qname_init; [done | done | by eapply Hn].
Qed.

Lemma dc_path_push_full p name :
  (DC_PATH_MAX ≤ ndepth p)%nat → dc_path_push p name = (-1, p).
Proof. intros H. unfold dc_path_push. destruct (Nat.leb_spec DC_PATH_MAX (ndepth p)); [done | lia]. Qed.

(** *** The reference reading of a path string *)

(** Cut at the slashes; [cur] is the piece being read. *)
Fixpoint split_slash (cur path : list Z) : list (list Z) :=
  match path with
  | [] => [cur]
  | c :: path' =>
      if c =? SLASH then cur :: split_slash [] path' else split_slash (cur ++ [c]) path'
  end.

Definition is_component (s : list Z) : Prop := s ≠ [].
#[export] Instance is_component_dec s : Decision (is_component s).
Proof. unfold is_component. apply _. Defined.

(** The components of a path string: the non-empty pieces between slashes. *)
Definition components (path : list Z) : list (list Z) := filter is_component (split_slash [] path).

Definition fits (s : list Z) : Prop := (length s < DC_NAME_MAX)%nat.
#[export] Instance fits_dec s : Decision (fits s).
Proof. unfold fits. apply _. Defined.

Definition path_fits (cs : list (list Z)) : Prop :=
  (length cs ≤ DC_PATH_MAX)%nat ∧ Forall fits cs.
#[export] Instance path_fits_dec cs : Decision (path_fits cs).
Proof. unfold path_fits. apply _. Defined.

(** Reading on from the middle of a component: what is left of the path either
    fits, and its components are appended, or the loop reports -1. *)
Lemma parse_loop_spec path buf p :
  cstring path → cstring buf → fits buf → path_store p →
  let cs := filter is_component (split_slash buf path) in
  ((ndepth p + length cs ≤ DC_PATH_MAX)%nat ∧ Forall fits cs →
     ∃ p', parse_loop path buf p = (0, p') ∧ path_store p' ∧ pnames p' = pnames p ++ cs) ∧
  (¬ ((ndepth p + length cs ≤ DC_PATH_MAX)%nat ∧ Forall fits cs) →
     fst (parse_loop path buf p) = -1).
Proof.
  assert (∀ b, fits b → take (DC_NAME_MAX - 1) b = b) as Htake.
  { intros b Hb. apply take_ge. unfold fits in Hb. lia. }
  revert buf p. induction path as [| c path IH]; intros buf p Hs Hb Hf Hp; cbn zeta.
  - simpl. destruct buf as [| b buf].
    + rewrite filter_cons_False by (intros []; done). simpl. split.
      * intros _. exists p. by rewrite app_nil_r.
      * intros H. exfalso. apply H. pose proof (pw_depth p (ps_wf p Hp)).
        split; [lia | constructor].
    + rewrite filter_cons_True by done. cbn [filter list_filter length]. split.
      * intros [Hd _]. destruct (dc_path_push_ok p (b :: buf)) as (p' & E & ? & _ & Hn);
          [done | done | simpl in Hd; lia |].
        exists p'. by rewrite E, Hn, Htake.
      * intros H. rewrite dc_path_push_full; [done |].
        destruct (le_lt_dec DC_PATH_MAX (ndepth p)); [done |].
        exfalso. apply H. split; [simpl; lia | by apply Forall_singleton].
  - unfold cstring in Hs. apply not_elem_of_cons in Hs as [Hc Hs].
    cbn [parse_loop split_slash]. rewrite (proj2 (Z.eqb_neq c 0)) by congruence.
    rewrite orb_false_r. destruct (Z.eqb_spec c SLASH) as [-> | Hsl].
    + destruct buf as [| b buf].
      * rewrite filter_cons_False by (intros []; done). by apply IH.
      * rewrite filter_cons_True by done. cbn [length].
        destruct (le_lt_dec DC_PATH_MAX (ndepth p)).
        { rewrite dc_path_push_full by done. split; [intros [? _]; lia | done]. }
        destruct (dc_path_push_ok p (b :: buf)) as (p' & E & Hp' & Hd & Hn); [done.. |].
        rewrite E. cbn [negb Z.eqb]. rewrite Htake in Hn by done.
        destruct (IH [] p') as [IH1 IH2];
          [done | by apply not_elem_of_nil | unfold fits, DC_NAME_MAX; simpl; lia | done |].
        rewrite Hd in IH1, IH2. split.
        -- intros [H1 H2]. apply Forall_cons in H2 as [_ H2].
           destruct IH1 as (p'' & E' & ? & Hn'); [split; [lia | done] |].
           exists p''. split_and!; [done | done |]. by rewrite Hn', Hn, <- app_assoc.
        -- intros H. apply IH2. intros [H1 H2]. apply H. split; [lia |]. by constructor.
    + destruct (Nat.leb_spec (DC_NAME_MAX - 1) (length buf)) as [Hl | Hl].
      * split; [| done]. intros [_ H]. exfalso.
        assert (∀ path b, (DC_NAME_MAX ≤ length b)%nat →
                  ¬ Forall fits (filter is_component (split_slash b path))) as Hbig.
        { clear. intros path. induction path as [| c path IH]; intros b Hb; simpl.
          - rewrite filter_cons_True by (intros ->; simpl in Hb; unfold DC_NAME_MAX in Hb; lia).
            intros HF. apply Forall_cons in HF as [HF _]. unfold fits in HF. lia.
          - destruct (c =? SLASH); [| apply IH; rewrite length_app; lia].
            rewrite filter_cons_True by (intros ->; simpl in Hb; unfold DC_NAME_MAX in Hb; lia).
            intros HF. apply Forall_cons in HF as [HF _]. unfold fits in HF. lia. }
        apply (Hbig path (buf ++ [c])); [| done]. rewrite length_app. simpl. lia.
      * apply IH; [done | | | done].
        -- unfold cstring. rewrite elem_of_app, list_elem_of_singleton. intros [? | ?]; done.
        -- unfold fits. rewrite length_app. simpl. lia.
Qed.

(** The inverse of parsing: each component behind a slash. *)
Definition path_print (cs : list (list Z)) : list Z := cs ≫= (λ s, SLASH :: s).

Definition valid_component (s : list Z) : Prop :=
  s ≠ [] ∧ (SLASH ∉ s) ∧ cstring s ∧ fits s.

Lemma split_slash_nosep cur s rest :
  SLASH ∉ s → split_slash cur (s ++ SLASH :: rest) = (cur ++ s) :: split_slash [] rest.
Proof.
  revert cur. induction s as [| c s IH]; intros cur Hs; simpl.
  { by rewrite app_nil_r. }
  apply not_elem_of_cons in Hs as [Hc Hs].
  rewrite (proj2 (Z.eqb_neq c SLASH)) by congruence. rewrite IH by done.
  by rewrite <- app_assoc.
Qed.

Lemma split_slash_last cur s : SLASH ∉ s → split_slash cur s = [cur ++ s].
Proof.
  revert cur. induction s as [| c s IH]; intros cur Hs; simpl.
  { by rewrite app_nil_r. }
  apply not_elem_of_cons in Hs as [Hc Hs].
  rewrite (proj2 (Z.eqb_neq c SLASH)) by congruence. rewrite IH by done.
  by rewrite <- app_assoc.
Qed.

Lemma components_print cs : Forall valid_component cs → components (path_print cs) = cs.
Proof.
  unfold components. intros H.
  enough (∀ pre, is_component pre ∨ pre = [] → SLASH ∉ pre →
    filter is_component (split_slash [] (pre ++ path_print cs)) =
      filter is_component [pre] ++ cs) as E.
  { apply (E []); [by right | by apply not_elem_of_nil]. }
  induction H as [| s cs (Hne & Hsl & _) _ IH]; intros pre Hpre Hp; simpl.
  - rewrite app_nil_r, split_slash_last by done. simpl. by rewrite app_nil_r.
  - rewrite split_slash_nosep by done. simpl.
    rewrite filter_cons. fold (path_print cs). rewrite IH by auto.
    rewrite (filter_cons_True is_component s []) by done.
    rewrite (filter_cons is_component pre []). by case_decide.
Qed.

(** ** Properties *)

(** The empty path array the witnesses parse into. *)
Definition path0 : dc_path :=
  {| ndepth := 0; comp := replicate DC_PATH_MAX (Qstr 0 0 (replicate DC_NAME_MAX 0)) |}.

Lemma path0_sizes :
  length (comp path0) = DC_PATH_MAX ∧
  (∀ i q, comp path0 !! i = Some q → length (q_name q) = DC_NAME_MAX).
Proof.
  split; [done |]. intros i q [-> _]%lookup_replicate. done.
Qed.

(** C16: parsing a path string is total and agrees with the reference reading:
    when the non-empty pieces between slashes number at most DC_PATH_MAX and
    each is shorter than DC_NAME_MAX the call returns 0 and the path holds
    exactly those components, each with its right hash; otherwise it returns
    -1. *)
Theorem dc_path_parse_correct p path :
  length (comp p) = DC_PATH_MAX →
  (∀ i q, comp p !! i = Some q → length (q_name q) = DC_NAME_MAX) →
  cstring path →
  if decide (path_fits (components path))
  then ∃ p', dc_path_parse p path = (0, p') ∧ path_wf p' ∧ pnames p' = components path
  else fst (dc_path_parse p path) = -1.
Proof.
  intros Hl Hn Hs. unfold dc_path_parse.
  destruct (parse_loop_spec path [] (dc_path_reset p)) as [H1 H2];
    [done | by apply not_elem_of_nil | unfold fits, DC_NAME_MAX; simpl; lia
     | by apply path_reset_store |].
  unfold components. case_decide as Hd.
  - destruct H1 as (p' & E & Hp' & Hn'); [exact Hd |]. exists p'.
    split_and!; [done | apply Hp' | exact Hn'].
  - apply H2. intros H. by apply Hd.
Qed.

Lemma dc_path_parse_correct_witness :
  ∃ p', dc_path_parse path0 [47; 97; 47; 47; 98; 99] = (0, p') ∧
        path_wf p' ∧ pnames p' = [[97]; [98; 99]].
Proof.
  destruct path0_sizes as [H1 H2].
  assert (cstring [47; 97; 47; 47; 98; 99]) as H3 by by_decide.
  exact (dc_path_parse_correct path0 [47; 97; 47; 47; 98; 99] H1 H2 H3).
Defined.

(** C18: printing and parsing round trip: a list of at most DC_PATH_MAX valid
    component names (not empty, no slash, no NUL, shorter than DC_NAME_MAX),
    printed with a slash before each, is parsed back to the same names. *)
Theorem dc_path_parse_print p cs :
  length (comp p) = DC_PATH_MAX →
  (∀ i q, comp p !! i = Some q → length (q_name q) = DC_NAME_MAX) →
  Forall valid_component cs → (length cs ≤ DC_PATH_MAX)%nat →
  ∃ p', dc_path_parse p (path_print cs) = (0, p') ∧ pnames p' = cs.
Proof.
  intros Hl Hn Hv Hd.
  assert (cstring (path_print cs)) as Hs.
  { unfold cstring, path_print. intros (s & Hin & Hs)%list_elem_of_bind.
    rewrite Forall_forall in Hv. destruct (Hv s Hs) as (_ & _ & Hc & _).
    apply elem_of_cons in Hin as [? | ?]; [done | by apply Hc]. }
  destruct (parse_loop_spec (path_print cs) [] (dc_path_reset p)) as [H1 _];
    [done | by apply not_elem_of_nil | unfold fits, DC_NAME_MAX; simpl; lia
     | by apply path_reset_store |].
  fold (components (path_print cs)) in H1. rewrite components_print in H1 by done.
  destruct H1 as (p' & E & _ & Hn').
  { split; [by simpl |]. eapply Forall_impl; [exact Hv |]. by intros s (_ & _ & _ & ?). }
  by exists p'.
Qed.

Lemma dc_path_parse_print_witness :
  ∃ p', dc_path_parse path0 (path_print [[97]; [98; 99]]) = (0, p') ∧
        pnames p' = [[97]; [98; 99]].
Proof.
  destruct path0_sizes as [H1 H2].
  apply (dc_path_parse_print path0 [[97]; [98; 99]] H1 H2).
  - repeat constructor; try done; try by_decide; unfold fits; simpl; lia.
  - simpl. unfold DC_PATH_MAX. lia.
Defined.

(** C17: [dc_qstr_init] gives every C string a well-formed qstr: hash the FNV-1a of the
    stored bytes, length below DC_NAME_MAX.  It stores the first DC_NAME_MAX - 1 bytes
    and cuts off the rest of a longer name (the header says such names are rejected).  On
    two such names the three-way comparison [dc_qstr_eq] is true exactly when the stored
    bytes are the same, so two long names that differ only behind the cut are equal. *)
Theorem dc_qstr_eq_correct q1 q2 s1 s2 :
  length (q_name q1) = DC_NAME_MAX → length (q_name q2) = DC_NAME_MAX →
  cstring s1 → cstring s2 →
  qstr_wf (dc_qstr_init q1 s1) ∧ qname (dc_qstr_init q1 s1) = take (DC_NAME_MAX - 1) s1 ∧
  dc_qstr_eq (dc_qstr_init q1 s1) (dc_qstr_init q2 s2)
  = bool_decide (take (DC_NAME_MAX - 1) s1 = take (DC_NAME_MAX - 1) s2).
Proof.
  intros H1 H2 Hs1 Hs2. split_and!; [by apply dc_qstr_init_wf | by apply qname_init |]. apply Bool.eq_true_iff_eq.
  by rewrite dc_qstr_eq_spec, !qname_init, bool_decide_eq_true by eauto using dc_qstr_init_wf.
Qed.

Lemma dc_qstr_eq_correct_witness :
  qstr_wf (dc_qstr_init (Qstr 0 0 (replicate DC_NAME_MAX 0)) [97; 98]) ∧
  dc_qstr_eq (dc_qstr_init (Qstr 0 0 (replicate DC_NAME_MAX 0)) [97; 98])
             (dc_qstr_init (Qstr 0 0 (replicate DC_NAME_MAX 7)) [97; 98]) = true.
Proof.
  destruct (dc_qstr_eq_correct (Qstr 0 0 (replicate DC_NAME_MAX 0)) (Qstr 0 0 (replicate DC_NAME_MAX 7)) [97; 98] [97; 98])
    as (Hw & _ & E); [done | done | by_decide | by_decide |].
  split; [exact Hw |]. rewrite E. by vm_compute.
Defined.
