(* ===== verification/HList.v ===== *)
(** Singly linked lists with a back link to the slot that names each node: the
    kernel's hlist.  The hash chains ([struct dc_hnode]) and the child lists
    ([d_sib]/[d_sib_pprev]) of dcache_seqlock.c are two of them; the segment
    predicate and its insertion and deletion lemmas are shared here, over the
    interface [HNode]. *)

From S2P Require Import Prelude.

(** What a node of such a list offers: a forward link and a back link to a
    slot, independently settable; [hn_slot d] is the slot that is node [d]'s own
    forward link. *)
Class HNode (N Sl : Type) := {
  hn_nx : N → Z;
  hn_pp : N → Sl;
  hn_set_nx : Z → N → N;
  hn_set_pp : Sl → N → N;
  hn_slot : Z → Sl;
  hn_nx_set_nx : ∀ z n, hn_nx (hn_set_nx z n) = z;
  hn_nx_set_pp : ∀ s n, hn_nx (hn_set_pp s n) = hn_nx n;
  hn_pp_set_nx : ∀ z n, hn_pp (hn_set_nx z n) = hn_pp n;
  hn_pp_set_pp : ∀ s n, hn_pp (hn_set_pp s n) = s;
  hn_slot_inj : ∀ a b, hn_slot a = hn_slot b → a = b;
}.

Section hseg.
Context {N Sl : Type} `{!HNode N Sl}.
Implicit Types nd : gmap Z N.

(** [hseg nd s p l]: the list that slot [s], holding pointer [p], heads runs
    through the nodes [l], each with its back link right, and ends in NULL. *)
Fixpoint hseg nd (s : Sl) (p : Z) (l : list Z) : Prop :=
  match l with
  | [] => p = 0
  | d :: l' => p = d ∧ d ≠ 0 ∧
      ∃ n, nd !! d = Some n ∧ hn_pp n = s ∧ hseg nd (hn_slot d) (hn_nx n) l'
  end.

(** The two links of a node, as far as it is there. *)
Definition links nd (d : Z) : option (Z * Sl) := (λ n, (hn_nx n, hn_pp n)) <$> nd !! d.

Lemma links_Some nd d n : nd !! d = Some n → links nd d = Some (hn_nx n, hn_pp n).
Proof. unfold links. by intros ->. Qed.

Lemma hseg_frame nd nd' s p l :
  (∀ d, d ∈ l → links nd' d = links nd d) → hseg nd s p l → hseg nd' s p l.
Proof.
  revert s p. induction l as [| d l IH]; intros s p Hf; simpl; [done |].
  intros (-> & Hd & n & Hn & Hp & Hr). split_and!; [done | done |].
  specialize (Hf d ltac:(left)) as Hl. rewrite (links_Some _ _ _ Hn) in Hl.
  unfold links in Hl. destruct (nd' !! d) as [n' |] eqn:Hn'; [| done].
  simplify_eq/=. exists n'. split_and!; [done | congruence |].
  match goal with E : hn_nx n' = _ |- _ => rewrite E end.
  apply IH; [| done]. intros x Hx. apply Hf. by right.
Qed.

Lemma hseg_dom nd s p l d : hseg nd s p l → d ∈ l → is_Some (nd !! d).
Proof.
  revert s p. induction l as [| x l IH]; intros s p; simpl.
  { by intros _ ?%not_elem_of_nil. }
  intros (-> & Hd & n & Hn & Hp & Hr) [-> | ?]%elem_of_cons; eauto.
Qed.

Lemma hseg_nonzero nd s p l : hseg nd s p l → 0 ∉ l.
Proof.
  revert s p. induction l as [| x l IH]; intros s p; simpl.
  { intros _. apply not_elem_of_nil. }
  intros (-> & Hd & n & Hn & Hp & Hr) [? | ?]%elem_of_cons; [congruence |].
  by eapply IH.
Qed.

Lemma hseg_null nd s l : hseg nd s 0 l → l = [].
Proof. destruct l as [| d l]; [done |]. intros (? & ? & _). congruence. Qed.

Lemma hseg_head nd s p l : hseg nd s p l → p ≠ 0 → ∃ l', l = p :: l'.
Proof. destruct l as [| d l]; simpl; [done |]. intros (-> & _) _. eauto. Qed.

(** The list a pointer heads is determined by memory. *)
Lemma hseg_fun nd s s' p l l' : hseg nd s p l → hseg nd s' p l' → l = l'.
Proof.
  revert s s' p l'. induction l as [| d l IH]; intros s s' p l'; simpl.
  - intros ->. by destruct l' as [| ? ?]; [| intros (? & ? & _)].
  - intros (-> & Hd & n & Hn & Hp & Hr). destruct l' as [| d' l']; simpl; [done |].
    intros (<- & _ & n' & Hn' & _ & Hr'). simplify_eq. f_equal. eauto.
Qed.

(** Links of a node somewhere in the middle: its back link is the slot before
    it. *)
Definition prev_slot (s : Sl) (l : list Z) : Sl :=
  match last l with Some x => hn_slot x | None => s end.

Lemma prev_slot_cons s a l : prev_slot s (a :: l) = prev_slot (hn_slot a) l.
Proof. unfold prev_slot. rewrite last_cons. by destruct (last l). Qed.

Lemma hseg_app nd s p l1 d l2 :
  hseg nd s p (l1 ++ d :: l2) →
  ∃ n, nd !! d = Some n ∧ hn_pp n = prev_slot s l1 ∧ hseg nd (hn_slot d) (hn_nx n) l2.
Proof.
  revert s p. induction l1 as [| a l1 IH]; intros s p; simpl.
  - intros (-> & Hd & n & Hn & Hp & Hr). eauto.
  - intros (-> & Hd & n & Hn & Hp & Hr). rewrite prev_slot_cons. eauto.
Qed.

Lemma hseg_app' nd s p l1 d l2 :
  hseg nd s p (l1 ++ d :: l2) →
  ∃ n, nd !! d = Some n ∧ hseg nd (hn_slot d) (hn_nx n) l2.
Proof. intros (n & ? & _ & ?)%hseg_app. eauto. Qed.

(** Another list behind node [q]: what is before [q] stays. *)
Lemma hseg_retail nd nd' s p l1 q t t' m m' :
  hseg nd s p (l1 ++ q :: t) → nd !! q = Some m →
  (∀ x, x ∈ l1 → links nd' x = links nd x) →
  nd' !! q = Some m' → hn_pp m' = hn_pp m → hseg nd' (hn_slot q) (hn_nx m') t' →
  hseg nd' s p (l1 ++ q :: t').
Proof.
  intros Hs Hm Hf Hm' Hpp Hr. revert s p Hs. induction l1 as [| a l1 IH]; intros s p.
  - intros (-> & Hq & n & Hn & Hp & _). simplify_eq. simpl. split_and!; [done | done |].
    exists m'. split_and!; [done | congruence | done].
  - intros (-> & Ha & n & Hn & Hp & Hs). simpl. split_and!; [done | done |].
    specialize (Hf a ltac:(left)) as Hl. rewrite (links_Some _ _ _ Hn) in Hl.
    unfold links in Hl. destruct (nd' !! a) as [n' |] eqn:Hn'; [| done]. simplify_eq/=.
    exists n'. split_and!; [done | congruence |].
    match goal with E : hn_nx n' = _ |- _ => rewrite E end.
    apply IH; [| done]. intros x Hx. apply Hf. by right.
Qed.

(** A list that ends has no node twice. *)
Lemma hseg_nodup nd s p l : hseg nd s p l → NoDup l.
Proof.
  revert s p. induction l as [| d l IH]; intros s p; [constructor |].
  intros (-> & Hd & n & Hn & Hp & Hr). constructor; [| by eapply IH].
  intros (l1 & l2 & ->)%list_elem_of_split.
  destruct (hseg_app' nd (hn_slot d) (hn_nx n) l1 d l2 Hr) as (n' & Hn' & Hr').
  simplify_eq. pose proof (hseg_fun _ _ _ _ _ _ Hr Hr') as E.
  apply (f_equal length) in E. rewrite length_app in E. simpl in E. lia.
Qed.

(** ... and is no longer than memory is large: the number of steps that always
    suffices to walk it. *)
Lemma hseg_length nd s p l : hseg nd s p l → (length l ≤ size nd)%nat.
Proof.
  intros Hs. rewrite <- (size_list_to_set (C := gset Z)) by (by eapply hseg_nodup).
  rewrite <- (size_dom (D := gset Z) nd). apply subseteq_size.
  intros d Hd%elem_of_list_to_set. apply elem_of_dom. by eapply hseg_dom.
Qed.

(** *** Insertion at the head *)

(** [d] already points to the old first node [p] and back to the slot [s]; what
    is left is the old first node's back link. *)
Lemma hseg_add nd s p l d n :
  hseg nd s p l → d ∉ l → d ≠ 0 → nd !! d = Some n →
  hn_nx n = p → hn_pp n = s →
  hseg (if p =? 0 then nd else alter (hn_set_pp (hn_slot d)) p nd) s d (d :: l).
Proof.
  intros Hs Hd H0 Hn Hnx Hpp. destruct (Z.eqb_spec p 0) as [-> | Hp].
  { apply hseg_null in Hs as Hl. subst l. simpl. eauto 10. }
  destruct (hseg_head _ _ _ _ Hs Hp) as [l' ->].
  pose proof (hseg_nodup _ _ _ _ Hs) as [Hpl _]%NoDup_cons.
  apply not_elem_of_cons in Hd as [Hdp Hd].
  destruct Hs as (_ & _ & m & Hm & Hmp & Hr).
  split_and!; [done | done |]. exists n.
  rewrite lookup_alter_ne by congruence. split_and!; [done | done |].
  rewrite Hnx. split_and!; [done | done |]. exists (hn_set_pp (hn_slot d) m).
  rewrite lookup_alter_eq, Hm, hn_nx_set_pp, hn_pp_set_pp. split_and!; [done | done |].
  eapply hseg_frame; [| exact Hr]. intros x Hx. unfold links.
  rewrite lookup_alter_ne; [done |]. by intros ->.
Qed.

(** *** Insertion at the tail *)

(** [d] already ends the list (its forward link is NULL) and points back to the
    last slot; what is left is the old last node's forward link. *)
Lemma hseg_snoc nd s p l d n :
  hseg nd s p l → d ∉ l → d ≠ 0 → nd !! d = Some n →
  hn_nx n = 0 → hn_pp n = prev_slot s l →
  hseg (match last l with Some t => alter (hn_set_nx d) t nd | None => nd end)
       s (match l with [] => d | _ => p end) (l ++ [d]).
Proof.
  intros Hs Hd H0 Hn Hnx Hpp. destruct l as [| t l _] using rev_ind.
  { simpl. unfold prev_slot in Hpp. simpl in Hpp. eauto 10. }
  rewrite last_snoc. rewrite <- app_assoc. simpl.
  replace (match l ++ [t] with [] => d | _ => p end) with p by (by destruct l).
  pose proof (hseg_nodup _ _ _ _ Hs) as (_ & Hdis & _)%NoDup_app.
  rewrite elem_of_app, list_elem_of_singleton in Hd.
  destruct (hseg_app _ _ _ _ _ _ Hs) as (m & Hm & _ & _).
  eapply (hseg_retail nd _ s p l t [] [d] m (hn_set_nx d m)); try done.
  - intros x Hx. unfold links. rewrite lookup_alter_ne; [done |]. intros <-.
    apply (Hdis t Hx). by left.
  - by rewrite lookup_alter_eq, Hm.
  - by rewrite hn_pp_set_nx.
  - rewrite hn_nx_set_nx. simpl. split_and!; [done | done |]. exists n.
    unfold prev_slot in Hpp. rewrite last_snoc in Hpp.
    rewrite lookup_alter_ne by (intros ->; tauto). done.
Qed.

(** *** Deletion *)

(** What unlinking a node with links [(next, slot)] does to the nodes: the slot
    before it, when that is a node's forward link, takes its forward link, and
    the node behind it takes its back link. *)
Definition splice_slot (slot_of : Sl → option Z) (slot : Sl) (next : Z) nd :=
  match slot_of slot with
  | Some q => alter (hn_set_nx next) q nd
  | None => nd
  end.
Definition splice_next (slot : Sl) (next : Z) nd :=
  if next =? 0 then nd else alter (hn_set_pp slot) next nd.

Section del.
Context (slot_of : Sl → option Z) (slot_of_slot : ∀ d, d ≠ 0 → slot_of (hn_slot d) = Some d).

(** The list behind the removed node, headed by another slot. *)
Lemma hseg_splice_next nd s' s next l :
  hseg nd s' next l → hseg (splice_next s next nd) s next l.
Proof.
  intros Hr. pose proof (hseg_nodup _ _ _ _ Hr) as Hnd. unfold splice_next.
  destruct (Z.eqb_spec next 0) as [-> | E].
  { by rewrite (hseg_null _ _ _ Hr). }
  destruct (hseg_head _ _ _ _ Hr E) as [l' ->].
  apply NoDup_cons in Hnd as [Hin _].
  destruct Hr as (_ & _ & m & Hm & Hmp & Hr).
  split_and!; [done | done |]. exists (hn_set_pp s m).
  rewrite lookup_alter_eq, Hm, hn_nx_set_pp, hn_pp_set_pp. split_and!; [done | done |].
  eapply hseg_frame; [| exact Hr]. intros x Hx. unfold links.
  rewrite lookup_alter_ne; [done |]. by intros <-.
Qed.

Lemma links_splice_next nd s next x :
  x ≠ next → links (splice_next s next nd) x = links nd x.
Proof.
  intros Hx. unfold splice_next, links. destruct (next =? 0); [done |].
  by rewrite lookup_alter_ne by congruence.
Qed.

Lemma hseg_del nd s p l1 d l2 n :
  hseg nd s p (l1 ++ d :: l2) → nd !! d = Some n → slot_of s = None →
  hseg (splice_next (hn_pp n) (hn_nx n) (splice_slot slot_of (hn_pp n) (hn_nx n) nd))
       s (if l1 is [] then hn_nx n else p) (l1 ++ l2).
Proof.
  intros Hs Hn Hout. pose proof (hseg_nodup _ _ _ _ Hs) as Hnd.
  destruct (hseg_app nd s p l1 d l2 Hs) as (n' & Hn' & Hpp & Hr). simplify_eq.
  rewrite Hpp. unfold splice_slot, prev_slot.
  destruct l1 as [| q l1 _] using rev_ind; simpl.
  { rewrite Hout. by eapply hseg_splice_next. }
  rewrite <- !app_assoc in *. simpl in *.
  rewrite last_snoc, slot_of_slot
    by (intros ->; apply (hseg_nonzero _ _ _ _ Hs); rewrite elem_of_app; right; left).
  apply NoDup_app in Hnd as (_ & Hdisj & [Hq [Hd _]%NoDup_cons]%NoDup_cons).
  apply not_elem_of_cons in Hq as [Hqd Hq].
  assert (hn_nx n ≠ 0 → hn_nx n ∈ l2) as Hin.
  { intros H0. destruct (hseg_head _ _ _ _ Hr H0) as [l' ->]. by left. }
  assert (∀ x, x ∉ l2 → x ≠ 0 → x ≠ hn_nx n) as Hne.
  { intros x Hx Hx0 ->. auto. }
  pose proof (hseg_nonzero _ _ _ _ Hs) as H0.
  rewrite elem_of_app, !elem_of_cons in H0.
  destruct (hseg_app nd s p l1 q (d :: l2) Hs) as (m & Hm & Hmp & Hmr).
  replace (match l1 ++ [q] with [] => hn_nx n | _ => p end) with p by (by destruct l1).
  eapply (hseg_retail nd _ s p l1 q (d :: l2) l2 m (hn_set_nx (hn_nx n) m)); try done.
  - intros x Hx. rewrite links_splice_next.
    + unfold links. rewrite lookup_alter_ne; [done |]. intros <-.
      apply (Hdisj q Hx). by left.
    + apply Hne; [| intros ->; tauto]. intros Hx2. apply (Hdisj x Hx). do 2 right. done.
  - assert (q ≠ hn_nx n) by (apply Hne; [done | intros ->; tauto]).
    unfold splice_next. destruct (hn_nx n =? 0).
    + by rewrite lookup_alter_eq, Hm.
    + by rewrite lookup_alter_ne, lookup_alter_eq, Hm by congruence.
  - by rewrite hn_pp_set_nx.
  - rewrite hn_nx_set_nx. eapply hseg_splice_next. eapply hseg_frame; [| exact Hr].
    intros x Hx. unfold links. rewrite lookup_alter_ne; [done |]. by intros <-.
Qed.
End del.
End hseg.
