(* ===== verification/HashTab.v ===== *)
(** The dentry hash table of dcache_seqlock.c: buckets whose head word carries a
    bit lock ([hlist_bl]), chains of [struct dc_hnode].

    A [struct dc_hnode] is embedded in a dentry and a pointer to it is the
    address of that dentry ([hnode_dentry] is a constant offset); the slot a
    back link names is the head word of a bucket or the forward link of a node. *)

From S2P Require Import Prelude HList.

Inductive hslot :=
  | HSlotNull
  | HSlotBucket (i : nat)
  | HSlotNext (d : Z).

#[export] Instance hslot_eq_dec : EqDecision hslot.
Proof. solve_decision. Defined.

Record dc_hnode := Hnode {
  h_next : Z;
  h_pprev : hslot;
}.

Record htab := Htab {
  ht_first : list Z;            (* dc->buckets[i].first: chain head | lock bit *)
  ht_node : gmap Z dc_hnode;    (* d_hash of each allocated dentry *)
}.

Definition DC_BL_LOCK : Z := 1.

(** ** Operations *)

Definition head_load (i : nat) : ST htab Z := λ h,
  match ht_first h !! i with Some v => Ok (v, h) | None => Err BadPtr end.

Definition head_store (i : nat) (v : Z) : ST htab unit := λ h,
  match ht_first h !! i with
  | Some _ => Ok (tt, {| ht_first := <[i := v]> (ht_first h); ht_node := ht_node h |})
  | None => Err BadPtr
  end.

Definition node_store (d : Z) (f : dc_hnode → dc_hnode) : ST htab unit := λ h,
  match ht_node h !! d with
  | Some _ => Ok (tt, {| ht_first := ht_first h; ht_node := alter f d (ht_node h) |})
  | None => Err BadPtr
  end.

Definition set_next (z : Z) (n : dc_hnode) : dc_hnode := {| h_next := z; h_pprev := h_pprev n |}.
Definition set_pprev (s : hslot) (n : dc_hnode) : dc_hnode := {| h_next := h_next n; h_pprev := s |}.

(** [*pprev], read and written through the slot. *)
Definition slot_load (s : hslot) : ST htab Z :=
  match s with
  | HSlotNull => st_fault BadPtr
  | HSlotBucket i => head_load i
  | HSlotNext d => let! n := st_lookup ht_node d in st_ret (h_next n)
  end.

Definition slot_store (s : hslot) (v : Z) : ST htab unit :=
  match s with
  | HSlotNull => st_fault BadPtr
  | HSlotBucket i => head_store i v
  | HSlotNext d => node_store d (set_next v)
  end.

Definition bl_first (i : nat) : ST htab Z :=
  let! v := head_load i in
  st_ret (Z.land v (Z.lnot DC_BL_LOCK)).

Definition bl_first_rcu (i : nat) : ST htab Z :=
  let! v := head_load i in
  st_ret (Z.land v (Z.lnot DC_BL_LOCK)).

Definition bl_set_first_rcu (i : nat) (n : Z) : ST htab unit :=
  head_store i (Z.lor n DC_BL_LOCK).

(** With nobody else running, a lock bit that is already set never clears. *)
Definition bl_lock (i : nat) : ST htab unit :=
  let! v := head_load i in
  head_store i (Z.lor v DC_BL_LOCK) ;;;
  if negb (Z.land v DC_BL_LOCK =? 0) then st_fault Deadlock else st_ret tt.

Definition bl_unlock (i : nat) : ST htab unit :=
  let! v := head_load i in
  head_store i (Z.land v (Z.lnot DC_BL_LOCK)).

Definition hlist_add_head_rcu (i : nat) (n : Z) : ST htab unit :=
  let! first := bl_first i in
  node_store n (set_next first) ;;;
  node_store n (set_pprev (HSlotBucket i)) ;;;
  when (negb (first =? 0)) (node_store first (set_pprev (HSlotNext n))) ;;;
  bl_set_first_rcu i n.

Definition hlist_del_rcu (n : Z) : ST htab unit :=
  let! nd := st_lookup ht_node n in
  let next := h_next nd in
  let pprev := h_pprev nd in
  let! v := slot_load pprev in
  let bit := Z.land v DC_BL_LOCK in
  slot_store pprev (Z.lor next bit) ;;;
  when (negb (next =? 0)) (node_store next (set_pprev pprev)).

(** Lock two buckets in the order of their addresses, once when they coincide. *)
Definition bl_lock2 (x y : nat) : ST htab unit :=
  if decide (x = y) then bl_lock x
  else if (x <? y)%nat then bl_lock x ;;; bl_lock y
  else bl_lock y ;;; bl_lock x.

Definition bl_unlock2 (x y : nat) : ST htab unit :=
  bl_unlock x ;;;
  if decide (x = y) then st_ret tt else bl_unlock y.

(** ** Representation *)

#[export] Program Instance hnode_HNode : HNode dc_hnode hslot := {|
  hn_nx := h_next; hn_pp := h_pprev; hn_set_nx := set_next; hn_set_pp := set_pprev;
  hn_slot := HSlotNext |}.
Solve Obligations with (simpl; congruence || done).

Definition slot_of (s : hslot) : option Z :=
  match s with HSlotNext d => Some d | _ => None end.

(** The lock bits of the buckets. *)
Definition bits (h : htab) : list Z := (λ v, v mod 2) <$> ht_first h.

(** Bucket [i] chains exactly the nodes [C i]. *)
Record hrep (h : htab) (C : nat → list Z) : Prop := {
  hr_seg : ∀ i v, ht_first h !! i = Some v →
    hseg (ht_node h) (HSlotBucket i) (Z.land v (Z.lnot DC_BL_LOCK)) (C i);
  hr_out : ∀ i, (length (ht_first h) ≤ i)%nat → C i = [];
  hr_disj : ∀ i j d, d ∈ C i → d ∈ C j → i = j;
  hr_align : ∀ i d, d ∈ C i → aligned d;
}.

Lemma bits_lookup h i v : ht_first h !! i = Some v → bits h !! i = Some (v mod 2).
Proof. intros Hv. unfold bits. by rewrite list_lookup_fmap, Hv. Qed.

Lemma bits_lookup_inv h i b :
  bits h !! i = Some b → ∃ v, ht_first h !! i = Some v ∧ v mod 2 = b.
Proof. unfold bits. rewrite list_lookup_fmap. intros (v & ? & ->)%fmap_Some. eauto. Qed.

Lemma bits_insert h i v nd :
  bits {| ht_first := <[i:=v]> (ht_first h); ht_node := nd |} = <[i := v mod 2]> (bits h).
Proof. unfold bits. simpl. by rewrite list_fmap_insert. Qed.

Lemma length_bits h : length (bits h) = length (ht_first h).
Proof. apply length_fmap. Qed.

Lemma head_ptr_or v : Z.land (Z.lor v 1) (Z.lnot 1) = Z.land v (Z.lnot 1).
Proof.
  apply Z.bits_inj'; intros n Hn.
  rewrite !Z.land_spec, Z.lor_spec, Z.lnot_spec by lia.
  by destruct (Z.testbit v n), (Z.testbit 1 n).
Qed.

Lemma head_ptr_idem v : Z.land (Z.land v (Z.lnot 1)) (Z.lnot 1) = Z.land v (Z.lnot 1).
Proof. by rewrite <- Z.land_assoc, Z.land_diag. Qed.

Lemma lor_1_mod2 v : Z.lor v 1 mod 2 = 1.
Proof.
  rewrite <- land_1_mod. apply Z.bits_inj'; intros n Hn. rewrite Z.land_spec, Z.lor_spec.
  by destruct (Z.testbit v n), (Z.testbit 1 n).
Qed.

Lemma head_store_rep h C i v v' :
  hrep h C → ht_first h !! i = Some v →
  Z.land v' (Z.lnot 1) = Z.land v (Z.lnot 1) →
  hrep {| ht_first := <[i := v']> (ht_first h); ht_node := ht_node h |} C.
Proof.
  intros [Hs Ho Hd Ha] Hv E. split; simpl; [| by rewrite length_insert | done | done].
  intros j w. destruct (decide (i = j)) as [<- |].
  - rewrite list_lookup_insert_eq by (by eapply lookup_lt_Some). intros [= <-].
    unfold DC_BL_LOCK. rewrite E. by apply Hs.
  - rewrite list_lookup_insert_ne by done. apply Hs.
Qed.

(** ** Specifications *)

Lemma wp_bl_lock h C i :
  hrep h C → bits h !! i = Some 0 →
  wp (bl_lock i) (λ _ h', hrep h' C ∧ bits h' = <[i := 1]> (bits h) ∧
                          ht_node h' = ht_node h) h.
Proof.
  intros Hr (v & Hv & Hb)%bits_lookup_inv. unfold bl_lock.
  apply wp_bind. eapply wp_run; [by unfold head_load; rewrite Hv |].
  apply wp_bind. eapply wp_run; [by unfold head_store; rewrite Hv |].
  unfold DC_BL_LOCK. rewrite land_1_mod, Hb. apply wp_ret.
  split_and!; [| by rewrite bits_insert, lor_1_mod2 | done].
  eapply head_store_rep; eauto using head_ptr_or.
Qed.

Lemma wp_bl_unlock h C i b :
  hrep h C → bits h !! i = Some b →
  wp (bl_unlock i) (λ _ h', hrep h' C ∧ bits h' = <[i := 0]> (bits h) ∧
                            ht_node h' = ht_node h) h.
Proof.
  intros Hr (v & Hv & Hb)%bits_lookup_inv. unfold bl_unlock.
  apply wp_bind. eapply wp_run; [by unfold head_load; rewrite Hv |].
  eapply wp_run; [by unfold head_store; rewrite Hv |].
  split_and!; [| | done].
  - eapply head_store_rep; eauto using head_ptr_idem.
  - rewrite bits_insert. f_equal. unfold DC_BL_LOCK.
    rewrite land_lnot_1. Z.to_euclidean_division_equations. lia.
Qed.

Lemma wp_bl_first_rcu h i v :
  ht_first h !! i = Some v →
  wp (bl_first_rcu i) (λ p h', h' = h ∧ p = Z.land v (Z.lnot DC_BL_LOCK)) h.
Proof.
  intros Hv. unfold bl_first_rcu. apply wp_bind.
  eapply wp_run; [by unfold head_load; rewrite Hv |]. by apply wp_ret.
Qed.

Lemma head_word_split v : v = Z.land v (Z.lnot 1) + v mod 2.
Proof. rewrite land_lnot_1. lia. Qed.

(** The lock bit survives the publication of an aligned pointer. *)
Lemma publish_word p b : aligned p → 0 ≤ b < 2 → Z.land (Z.lor p b) (Z.lnot 1) = p ∧ Z.lor p b mod 2 = b.
Proof.
  intros Hp Hb. rewrite aligned_lor by (done || lia).
  rewrite land_lnot_1, aligned_mod2 by done. rewrite (Z.mod_small b 2) by lia. lia.
Qed.

Lemma hrep_head_aligned h C i v :
  hrep h C → ht_first h !! i = Some v → aligned (Z.land v (Z.lnot DC_BL_LOCK)).
Proof.
  intros Hr Hv. pose proof (hr_seg h C Hr i v Hv) as Hs.
  destruct (C i) as [| d l] eqn:E; simpl in Hs; [rewrite Hs; apply aligned_0 |].
  destruct Hs as (-> & _). eapply (hr_align h C Hr i). rewrite E. by left.
Qed.

Lemma links_alter_ne {N Sl} `{!HNode N Sl} (nd : gmap Z N) f d x :
  d ≠ x → links (alter f d nd) x = links nd x.
Proof. intros. unfold links. by rewrite lookup_alter_ne. Qed.

(** Insertion at the head of a locked bucket: the new node is the first of the
    chain, every other chain and every lock bit is as before. *)
Lemma wp_hlist_add_head_rcu h C i d :
  hrep h C → bits h !! i = Some 1 → (∀ j, d ∉ C j) →
  is_Some (ht_node h !! d) → aligned d → d ≠ 0 →
  wp (hlist_add_head_rcu i d) (λ _ h',
    hrep h' (<[i := d :: C i]> C) ∧ bits h' = bits h ∧
    dom (ht_node h') = dom (ht_node h)) h.
Proof.
  intros Hr (v & Hv & Hb)%bits_lookup_inv Hfresh [n Hn] Hal H0.
  pose proof (hr_seg h C Hr i v Hv) as Hs. set (first := Z.land v (Z.lnot DC_BL_LOCK)) in *.
  unfold hlist_add_head_rcu, bl_first. wp_step. wp_step.
  eapply wp_run; [by unfold head_load; rewrite Hv |]. wp_step. fold first.
  wp_step. eapply wp_run; [by unfold node_store; rewrite Hn |].
  wp_step. eapply wp_run; [by unfold node_store; simpl; rewrite lookup_alter_eq, Hn |].
  set (nd1 := alter (set_pprev _) d (alter (set_next _) d (ht_node h))).
  set (n1 := {| h_next := first; h_pprev := HSlotBucket i |}).
  assert (nd1 !! d = Some n1) as Hn1.
  { unfold nd1. by rewrite !lookup_alter_eq, Hn. }
  assert (∀ x, x ≠ d → nd1 !! x = ht_node h !! x) as Hnd1.
  { intros x Hx. unfold nd1. by rewrite !lookup_alter_ne by congruence. }
  assert (∀ j w, ht_first h !! j = Some w →
    hseg nd1 (HSlotBucket j) (Z.land w (Z.lnot DC_BL_LOCK)) (C j)) as Hseg1.
  { intros j w Hw. eapply hseg_frame; [| by apply (hr_seg h C Hr)].
    intros x Hx. unfold links. rewrite Hnd1; [done |]. intros ->. by eapply Hfresh. }
  set (nd2 := if first =? 0 then nd1 else alter (set_pprev (HSlotNext d)) first nd1).
  apply wp_bind. apply wp_run with tt {| ht_first := ht_first h; ht_node := nd2 |}.
  { unfold when, nd2. destruct (Z.eqb_spec first 0) as [E | E]; simpl; [done |].
    destruct (hseg_head _ _ _ _ (Hseg1 i v Hv) E) as [l El].
    destruct (hseg_dom _ _ _ _ first (Hseg1 i v Hv)) as [m Hm].
    { rewrite El. by left. }
    unfold node_store. simpl. by rewrite Hm. }
  unfold bl_set_first_rcu. eapply wp_run; [by unfold head_store; simpl; rewrite Hv |].
  destruct (publish_word d 1 Hal ltac:(lia)) as [Hp1 Hp2].
  assert (hseg nd2 (HSlotBucket i) d (d :: C i)) as Hnew.
  { pose proof (hseg_add nd1 (HSlotBucket i) first (C i) d n1 (Hseg1 i v Hv)
      (Hfresh i) H0 Hn1 eq_refl eq_refl) as Ha. exact Ha. }
  split_and!.
  - split; simpl.
    + intros j w. destruct (decide (i = j)) as [<- |].
      * rewrite list_lookup_insert_eq by (by eapply lookup_lt_Some). intros [= <-].
        unfold DC_BL_LOCK in *. by rewrite fn_lookup_insert, Hp1.
      * rewrite list_lookup_insert_ne, fn_lookup_insert_ne by done. intros Hw.
        eapply hseg_frame; [| by eapply Hseg1]. intros x Hx. unfold nd2.
        destruct (Z.eqb_spec first 0) as [| E]; [done |].
        apply links_alter_ne. intros <-.
        destruct (hseg_head _ _ _ _ (Hseg1 i v Hv) E) as [l El].
        assert (i = j); [| done]. eapply (hr_disj h C Hr); [| exact Hx].
        rewrite El. by left.
    + intros j. rewrite length_insert. intros Hj. rewrite fn_lookup_insert_ne.
      * by apply (hr_out h C Hr).
      * intros <-. apply lookup_lt_Some in Hv. lia.
    + intros j k x. destruct (decide (i = j)) as [<- |], (decide (i = k)) as [<- |];
        rewrite ?fn_lookup_insert, ?fn_lookup_insert_ne, ?elem_of_cons by done.
      * done.
      * intros [-> | ?] Hk; [by apply Hfresh in Hk | by eapply (hr_disj h C Hr)].
      * intros Hk [-> | ?]; [by apply Hfresh in Hk | by eapply (hr_disj h C Hr)].
      * apply (hr_disj h C Hr).
    + intros j x. destruct (decide (i = j)) as [<- |];
        rewrite ?fn_lookup_insert, ?fn_lookup_insert_ne, ?elem_of_cons by done.
      * intros [-> | ?]; [done | by eapply (hr_align h C Hr)].
      * apply (hr_align h C Hr).
  - rewrite bits_insert. simpl. unfold DC_BL_LOCK. rewrite Hp2.
    rewrite list_insert_id; [done |]. rewrite <- Hb. by apply bits_lookup.
  - simpl. unfold nd2, nd1. destruct (first =? 0); by rewrite !dom_alter_L.
Qed.

(** The chain a node is in is found through its back link: the slot is the
    bucket's head word or the forward link of the node before. *)
Lemma hrep_slot_load h C i v l1 d l2 n :
  hrep h C → ht_first h !! i = Some v → C i = l1 ++ d :: l2 → ht_node h !! d = Some n →
  ∃ w, slot_load (h_pprev n) h = Ok (w, h) ∧ Z.land w (Z.lnot 1) = d ∧
       w mod 2 = match l1 with [] => v mod 2 | _ => 0 end.
Proof.
  intros Hr Hv HC Hn. pose proof (hr_seg h C Hr i v Hv) as Hs. rewrite HC in Hs.
  destruct (hseg_app _ _ _ _ _ _ Hs) as (n' & Hn' & Hpp & _). simplify_eq. simpl in Hpp.
  destruct l1 as [| q l1 _] using rev_ind.
  { rewrite Hpp. unfold prev_slot. simpl. exists v. unfold head_load. rewrite Hv.
    split_and!; [done | | done]. by destruct Hs as (? & _). }
  rewrite Hpp. unfold prev_slot. rewrite last_snoc. rewrite <- app_assoc in Hs. simpl in Hs.
  destruct (hseg_app _ _ _ _ _ _ Hs) as (m & Hm & _ & Hr').
  destruct Hr' as (E & _). simpl in E. exists d.
  assert (aligned d) as Had.
  { eapply (hr_align h C Hr i). rewrite HC. rewrite elem_of_app. right. by left. }
  assert (d mod 2 = 0) as Hd2.
  { destruct Had. Z.to_euclidean_division_equations. lia. }
  split_and!.
  - unfold slot_load, hn_slot. simpl. unfold st_bind, st_lookup. rewrite Hm. simpl. by rewrite E.
  - rewrite land_lnot_1, Hd2. lia.
  - by destruct (l1 ++ [q]) eqn:?; [destruct l1 |].
Qed.

(** The state after the deletion of a node that [l1] precedes in bucket [i]. *)
Definition del_heads (h : htab) (i : nat) (l1 : list Z) (word : Z) : list Z :=
  match l1 with [] => <[i := word]> (ht_first h) | _ => ht_first h end.
Definition del_nodes (h : htab) (n : dc_hnode) : gmap Z dc_hnode :=
  splice_next (h_pprev n) (h_next n) (splice_slot slot_of (h_pprev n) (h_next n) (ht_node h)).

(** Only nodes of the same chain are written. *)
Lemma del_nodes_frame h C i v l1 d l2 n x :
  hrep h C → ht_first h !! i = Some v → C i = l1 ++ d :: l2 → ht_node h !! d = Some n →
  x ∉ C i → links (del_nodes h n) x = links (ht_node h) x.
Proof.
  intros Hr Hv HC Hn Hx. pose proof (hr_seg h C Hr i v Hv) as Hs. rewrite HC in Hs, Hx.
  destruct (hseg_app _ _ _ _ _ _ Hs) as (n' & Hn' & Hpp & Hrest). simplify_eq. simpl in Hpp.
  unfold del_nodes. transitivity (links (splice_slot slot_of (h_pprev n) (h_next n) (ht_node h)) x).
  - unfold splice_next. destruct (Z.eqb_spec (h_next n) 0) as [| E]; [done |].
    apply links_alter_ne. intros <-. apply Hx.
    destruct (hseg_head _ _ _ _ Hrest E) as [l' ->]. rewrite elem_of_app. right. right. by left.
  - rewrite Hpp. unfold splice_slot, prev_slot. destruct (last l1) as [q |] eqn:Hq; [| done].
    simpl. apply links_alter_ne. intros <-. apply Hx. rewrite elem_of_app. left.
    apply last_Some in Hq as [l' ->]. rewrite elem_of_app. right. by left.
Qed.

Lemma hrep_del h C i v l1 d l2 n b :
  hrep h C → ht_first h !! i = Some v → C i = l1 ++ d :: l2 → ht_node h !! d = Some n →
  aligned (h_next n) → 0 ≤ b < 2 →
  hrep {| ht_first := del_heads h i l1 (Z.lor (h_next n) b); ht_node := del_nodes h n |}
       (<[i := l1 ++ l2]> C).
Proof.
  intros Hr Hv HC Hn Hal Hb. pose proof (hr_seg h C Hr i v Hv) as Hs. rewrite HC in Hs.
  assert (∀ x, x ∈ l1 ++ l2 → x ∈ C i) as Hsub.
  { intros x. rewrite HC, !elem_of_app, elem_of_cons. tauto. }
  split; simpl.
  - intros j w. destruct (decide (i = j)) as [<- |].
    + rewrite fn_lookup_insert. intros Hw.
      pose proof (hseg_del slot_of (λ _ _, eq_refl) _ _ _ _ _ _ _ Hs Hn eq_refl) as Hdel.
      unfold del_heads in Hw. destruct l1 as [| q l1]; simpl in *.
      * rewrite list_lookup_insert_eq in Hw by (by eapply lookup_lt_Some). injection Hw as <-.
        unfold DC_BL_LOCK. by rewrite (proj1 (publish_word _ _ Hal Hb)).
      * simplify_eq. exact Hdel.
    + rewrite fn_lookup_insert_ne by done. intros Hw.
      eapply hseg_frame; [| apply (hr_seg h C Hr)].
      * intros x Hx. eapply del_nodes_frame; eauto. intros Hi.
        by pose proof (hr_disj h C Hr _ _ _ Hi Hx).
      * unfold del_heads in Hw. destruct l1; [by rewrite list_lookup_insert_ne in Hw | done].
  - intros j Hj. assert (length (ht_first h) ≤ j)%nat as Hj'.
    { unfold del_heads in Hj. destruct l1; [by rewrite length_insert in Hj | done]. }
    rewrite fn_lookup_insert_ne; [by apply (hr_out h C Hr) |].
    intros <-. apply lookup_lt_Some in Hv. lia.
  - intros j k x. destruct (decide (i = j)) as [<- |], (decide (i = k)) as [<- |];
      rewrite ?fn_lookup_insert, ?fn_lookup_insert_ne by done; [done | | |];
      intros; eapply (hr_disj h C Hr); eauto.
  - intros j x. destruct (decide (i = j)) as [<- |];
      rewrite ?fn_lookup_insert, ?fn_lookup_insert_ne by done;
      intros; eapply (hr_align h C Hr); eauto.
Qed.

(** Deletion, wherever in its chain the node is: the chain loses exactly that
    node, the head word keeps its lock bit. *)
Lemma wp_hlist_del_rcu h C i d :
  hrep h C → d ∈ C i →
  wp (hlist_del_rcu d) (λ _ h', ∃ C',
    hrep h' C' ∧ (∀ j x, x ∈ C' j ↔ x ∈ C j ∧ x ≠ d) ∧ bits h' = bits h ∧
    dom (ht_node h') = dom (ht_node h)) h.
Proof.
  intros Hr Hd.
  destruct (ht_first h !! i) as [v |] eqn:Hv.
  2:{ rewrite (hr_out h C Hr i) in Hd by (by apply lookup_ge_None).
      by apply not_elem_of_nil in Hd. }
  apply list_elem_of_split in Hd as (l1 & l2 & HC).
  pose proof (hr_seg h C Hr i v Hv) as Hs. rewrite HC in Hs.
  destruct (hseg_app _ _ _ _ _ _ Hs) as (n & Hn & Hpp & Hrest). simpl in Hpp.
  destruct (hrep_slot_load h C i v l1 d l2 n Hr Hv HC Hn) as (w & Hw & _ & Hwb).
  unfold hlist_del_rcu. wp_step. eapply wp_lookup; [done |]. cbn zeta.
  wp_step. eapply wp_run; [exact Hw |]. unfold DC_BL_LOCK. rewrite land_1_mod.
  assert (h_next n ≠ 0 → h_next n ∈ l2) as Hnext.
  { intros H0. destruct (hseg_head _ _ _ _ Hrest H0) as [l' ->]. by left. }
  assert (aligned (h_next n)) as Hnal.
  { destruct (decide (h_next n = 0)) as [-> |]; [apply aligned_0 |].
    apply (hr_align h C Hr i). rewrite HC. apply elem_of_app. right. right. auto. }
  set (nd1 := splice_slot slot_of (h_pprev n) (h_next n) (ht_node h)).
  set (heads := del_heads h i l1 (Z.lor (h_next n) (w mod 2))).
  wp_step. apply wp_run with tt {| ht_first := heads; ht_node := nd1 |}.
  { unfold heads, del_heads, nd1. rewrite Hpp. unfold prev_slot, splice_slot.
    destruct l1 as [| q l1 _] using rev_ind; simpl; [by unfold head_store; rewrite Hv |].
    rewrite last_snoc. simpl. rewrite <- app_assoc in Hs. simpl in Hs.
    destruct (hseg_app _ _ _ _ _ _ Hs) as (m & Hm & _).
    destruct (l1 ++ [q]) eqn:E; [by destruct l1 |]. unfold node_store. rewrite Hm.
    rewrite Hwb, Z.lor_0_r. done. }
  apply wp_run with tt {| ht_first := heads; ht_node := del_nodes h n |}.
  { unfold when, del_nodes, splice_next. destruct (Z.eqb_spec (h_next n) 0) as [E | E]; simpl; [done |].
    assert (is_Some (nd1 !! h_next n)) as [m Hm].
    { unfold nd1, splice_slot. pose proof (hseg_dom _ _ _ _ _ Hrest (Hnext E)) as Hd.
      destruct (slot_of _); [| done]. by rewrite lookup_alter_is_Some. }
    unfold node_store. simpl. by rewrite Hm. }
  pose proof (hseg_nodup _ _ _ _ Hs) as (_ & Hdis & [Hd2 _]%NoDup_cons)%NoDup_app.
  exists (<[i := l1 ++ l2]> C). split_and!.
  - eapply hrep_del; eauto using Z.mod_pos_bound with lia.
  - intros j x. destruct (decide (i = j)) as [<- |];
      rewrite ?fn_lookup_insert, ?fn_lookup_insert_ne by done.
    + rewrite HC, !elem_of_app, elem_of_cons. split; [| tauto].
      intros [Hx | Hx]; split; try tauto; intros ->; [by apply (Hdis d Hx); left | done].
    + split; [| tauto]. intros Hx. split; [done |]. intros ->.
      assert (i = j); [| done]. eapply (hr_disj h C Hr _ _ d); [| exact Hx].
      rewrite HC, elem_of_app. right. by left.
  - unfold bits, heads, del_heads. simpl. destruct l1; [| done].
    rewrite list_fmap_insert. apply list_insert_id. rewrite list_lookup_fmap, Hv. simpl.
    rewrite (proj2 (publish_word _ (w mod 2) Hnal ltac:(apply Z.mod_pos_bound; lia))).
    by rewrite Hwb.
  - simpl. unfold del_nodes, splice_next, splice_slot.
    destruct (h_next n =? 0), (slot_of (h_pprev n)); by rewrite ?dom_alter_L.
Qed.

(** The loop bound of a chain walk: longer than any chain. *)
Lemma hrep_chain_length h C i : hrep h C → (length (C i) ≤ size (ht_node h))%nat.
Proof.
  intros Hr. destruct (ht_first h !! i) as [v |] eqn:Hv.
  - eapply hseg_length. by apply (hr_seg h C Hr).
  - rewrite (hr_out h C Hr) by (by apply lookup_ge_None). simpl. lia.
Qed.

(** Allocation and release of nodes that are in no chain. *)
Lemma hrep_links h C nd' :
  hrep h C → (∀ i d, d ∈ C i → links nd' d = links (ht_node h) d) →
  hrep {| ht_first := ht_first h; ht_node := nd' |} C.
Proof.
  intros [Hs Ho Hd Ha] Hf. split; simpl; [| done..].
  intros i v Hv. eapply hseg_frame; [| by apply Hs]. intros x Hx. by eapply Hf.
Qed.

Lemma hrep_alloc h C d n :
  hrep h C → ht_node h !! d = None →
  hrep {| ht_first := ht_first h; ht_node := <[d := n]> (ht_node h) |} C.
Proof.
  intros Hr Hd. apply hrep_links; [done |]. intros i x Hx. unfold links.
  rewrite lookup_insert_ne; [done |]. intros <-.
  destruct (ht_first h !! i) as [v |] eqn:Hv.
  - destruct (hseg_dom _ _ _ _ d (hr_seg h C Hr i v Hv) Hx) as [? ?]. congruence.
  - rewrite (hr_out h C Hr) in Hx by (by apply lookup_ge_None). by apply not_elem_of_nil in Hx.
Qed.

Lemma hrep_free h C d :
  hrep h C → (∀ i, d ∉ C i) →
  hrep {| ht_first := ht_first h; ht_node := delete d (ht_node h) |} C.
Proof.
  intros Hr Hd. apply hrep_links; [done |]. intros i x Hx. unfold links.
  rewrite lookup_delete_ne; [done |]. intros <-. by eapply Hd.
Qed.
