(* ===== verification/Children.v ===== *)
(** The child lists of dcache_seqlock.c: [d_children] heads the list of a
    directory's children, linked through [d_sib] with the back link
    [d_sib_pprev] to the slot that names each node. *)

From S2P Require Import Prelude HList.

Inductive sslot :=
  | SSlotNull
  | SSlotChildren (p : Z)       (* &p->d_children *)
  | SSlotSib (d : Z).           (* &d->d_sib *)

#[export] Instance sslot_eq_dec : EqDecision sslot.
Proof. solve_decision. Defined.

Record dc_kid := Kid {
  d_children : Z;
  d_sib : Z;
  d_sib_pprev : sslot;
}.

Definition kid0 : dc_kid := {| d_children := 0; d_sib := 0; d_sib_pprev := SSlotNull |}.

Definition set_children (z : Z) (k : dc_kid) : dc_kid :=
  {| d_children := z; d_sib := d_sib k; d_sib_pprev := d_sib_pprev k |}.
Definition set_sib (z : Z) (k : dc_kid) : dc_kid :=
  {| d_children := d_children k; d_sib := z; d_sib_pprev := d_sib_pprev k |}.
Definition set_sib_pprev (s : sslot) (k : dc_kid) : dc_kid :=
  {| d_children := d_children k; d_sib := d_sib k; d_sib_pprev := s |}.

(** ** Operations *)

Definition kid_load (d : Z) : ST (gmap Z dc_kid) dc_kid := st_lookup id d.

Definition kid_store (d : Z) (f : dc_kid → dc_kid) : ST (gmap Z dc_kid) unit := λ m,
  match m !! d with
  | Some _ => Ok (tt, alter f d m)
  | None => Err BadPtr
  end.

Definition sib_slot_store (s : sslot) (v : Z) : ST (gmap Z dc_kid) unit :=
  match s with
  | SSlotNull => st_fault BadPtr
  | SSlotChildren p => kid_store p (set_children v)
  | SSlotSib d => kid_store d (set_sib v)
  end.

Definition children_add (parent child : Z) : ST (gmap Z dc_kid) unit :=
  let! kp := kid_load parent in
  let first := d_children kp in
  kid_store child (set_sib first) ;;;
  kid_store child (set_sib_pprev (SSlotChildren parent)) ;;;
  when (negb (first =? 0)) (kid_store first (set_sib_pprev (SSlotSib child))) ;;;
  kid_store parent (set_children child).

Definition children_remove (parent child : Z) : ST (gmap Z dc_kid) unit :=
  let! k := kid_load child in
  sib_slot_store (d_sib_pprev k) (d_sib k) ;;;
  when (negb (d_sib k =? 0)) (kid_store (d_sib k) (set_sib_pprev (d_sib_pprev k))) ;;;
  kid_store child (set_sib 0) ;;;
  kid_store child (set_sib_pprev SSlotNull).

(** ** Representation *)

#[export] Program Instance kid_HNode : HNode dc_kid sslot := {|
  hn_nx := d_sib; hn_pp := d_sib_pprev; hn_set_nx := set_sib; hn_set_pp := set_sib_pprev;
  hn_slot := SSlotSib |}.
Solve Obligations with (simpl; congruence || done).

Definition sib_of (s : sslot) : option Z :=
  match s with SSlotSib d => Some d | _ => None end.

(** Directory [p]'s list runs exactly through [K p]. *)
Record krep (m : gmap Z dc_kid) (K : Z → list Z) : Prop := {
  kr_seg : ∀ p k, m !! p = Some k → hseg m (SSlotChildren p) (d_children k) (K p);
  kr_out : ∀ p, m !! p = None → K p = [];
  kr_disj : ∀ p q d, d ∈ K p → d ∈ K q → p = q;
}.

Lemma krep_dom m K p d : krep m K → d ∈ K p → is_Some (m !! d) ∧ is_Some (m !! p) ∧ d ≠ 0.
Proof.
  intros Hr Hd. destruct (m !! p) as [k |] eqn:Hp.
  - pose proof (kr_seg m K Hr p k Hp) as Hs. split_and!; [by eapply hseg_dom | done |].
    intros ->. by eapply hseg_nonzero.
  - rewrite (kr_out m K Hr p Hp) in Hd. by apply not_elem_of_nil in Hd.
Qed.

Lemma krep_nodup m K p : krep m K → NoDup (K p).
Proof.
  intros Hr. destruct (m !! p) as [k |] eqn:Hp.
  - eapply hseg_nodup. by apply (kr_seg m K Hr p k).
  - rewrite (kr_out m K Hr p Hp). constructor.
Qed.

(** Emptiness test of a directory: [d->d_children != NULL]. *)
Lemma krep_empty m K p k : krep m K → m !! p = Some k → d_children k = 0 ↔ K p = [].
Proof.
  intros Hr Hp. pose proof (kr_seg m K Hr p k Hp) as Hs. split.
  - intros E. rewrite E in Hs. by apply hseg_null in Hs.
  - intros E. by rewrite E in Hs.
Qed.

Lemma kid_store_ok m d k f :
  m !! d = Some k → kid_store d f m = Ok (tt, alter f d m).
Proof. unfold kid_store. by intros ->. Qed.

(** A store into [d_children] moves no link. *)
Lemma links_set_children (m : gmap Z dc_kid) p v x :
  links (alter (set_children v) p m) x = links m x.
Proof.
  unfold links. destruct (decide (p = x)) as [<- |].
  - rewrite lookup_alter_eq. by destruct (m !! p).
  - by rewrite lookup_alter_ne.
Qed.

Lemma lookup_alter_children (m : gmap Z dc_kid) p q v k :
  alter (set_children v) p m !! q = Some k →
  ∃ k0, m !! q = Some k0 ∧ d_children k = if decide (p = q) then v else d_children k0.
Proof.
  rewrite lookup_alter. case_decide as E; [| eauto].
  intros (k0 & Hk & ->)%fmap_Some. subst. eauto.
Qed.

(** The lists after a change of links that leaves all but [p]'s list alone. *)
Lemma krep_update m m' K p l :
  krep m K →
  (∀ x, m' !! x = None ↔ m !! x = None) →
  (∀ q k', m' !! q = Some k' → q ≠ p → ∃ k, m !! q = Some k ∧ d_children k' = d_children k) →
  (∀ q x, q ≠ p → x ∈ K q → links m' x = links m x) →
  (∀ k', m' !! p = Some k' → hseg m' (SSlotChildren p) (d_children k') l) →
  is_Some (m !! p) →
  (∀ q x, q ≠ p → x ∈ l → x ∉ K q) →
  krep m' (<[p := l]> K).
Proof.
  intros Hr Hdom Hch Hl Hp [k0 Hk0] Hdis. split.
  - intros q k' Hq. destruct (decide (p = q)) as [<- | Hne].
    + rewrite fn_lookup_insert. by apply Hp.
    + rewrite fn_lookup_insert_ne by done. destruct (Hch q k' Hq) as (k & Hk & ->); [done |].
      eapply hseg_frame; [| by apply (kr_seg m K Hr)]. intros x Hx. by eapply Hl.
  - intros q Hq. rewrite fn_lookup_insert_ne by (intros <-; apply Hdom in Hq; congruence).
    apply (kr_out m K Hr). by apply Hdom.
  - intros a b x. destruct (decide (p = a)) as [<- |], (decide (p = b)) as [<- |];
      rewrite ?fn_lookup_insert, ?fn_lookup_insert_ne by done; [done | | |].
    + intros Hx Hb. by apply Hdis in Hb.
    + intros Ha Hx. by apply Hdis in Ha.
    + apply (kr_disj m K Hr).
Qed.

Lemma alter_None_iff {V} (m : gmap Z V) f d x : alter f d m !! x = None ↔ m !! x = None.
Proof. apply lookup_alter_None. Qed.

(** ** Specifications *)

(** The links after [child] has been put in front of [p]'s list. *)
Definition add_links (m : gmap Z dc_kid) (p child first : Z) : gmap Z dc_kid :=
  let m1 := alter (set_sib_pprev (SSlotChildren p)) child (alter (set_sib first) child m) in
  let m2 := if first =? 0 then m1 else alter (set_sib_pprev (SSlotSib child)) first m1 in
  alter (set_children child) p m2.

Lemma krep_add m K p child kp :
  krep m K → m !! p = Some kp → is_Some (m !! child) → child ≠ 0 → (∀ q, child ∉ K q) →
  krep (add_links m p child (d_children kp)) (<[p := child :: K p]> K).
Proof.
  intros Hr Hp [kc Hc] H0 Hfresh. unfold add_links. set (first := d_children kp).
  set (m1 := alter _ child _). set (m2 := if first =? 0 then m1 else _).
  pose proof (kr_seg m K Hr p kp Hp) as Hs. fold first in Hs.
  assert (∀ x, x ≠ child → m1 !! x = m !! x) as Hm1.
  { intros x Hx. unfold m1. by rewrite !lookup_alter_ne by congruence. }
  assert (m1 !! child = Some (set_sib_pprev (SSlotChildren p) (set_sib first kc))) as Hm1c.
  { unfold m1. by rewrite !lookup_alter_eq, Hc. }
  assert (first ≠ 0 → first ∈ K p) as Hfirst.
  { intros E. destruct (hseg_head _ _ _ _ Hs E) as [l' ->]. by left. }
  assert (hseg m1 (SSlotChildren p) first (K p)) as Hs1.
  { eapply hseg_frame; [| exact Hs]. intros x Hx. unfold links.
    rewrite Hm1; [done |]. intros ->. by eapply Hfresh. }
  assert (∀ q, (if first =? 0 then m1 else alter (set_sib_pprev (SSlotSib child)) first m1) !! q
               = None ↔ m !! q = None) as Hnone.
  { intros q. destruct (first =? 0); unfold m1; by rewrite ?alter_None_iff. }
  apply (krep_update m _ K p); [done | | | | | by eexists |].
  - intros x. rewrite alter_None_iff. apply Hnone.
  - intros q k' (k0 & Hk0 & Hk')%lookup_alter_children Hq.
    rewrite decide_False in Hk' by congruence. rewrite Hk'.
    unfold m2, m1 in Hk0. revert Hk0. destruct (first =? 0);
      rewrite !lookup_alter; repeat case_decide; subst;
      repeat (intros (? & Hx & ->)%fmap_Some; revert Hx); eauto;
      destruct (m !! _) eqn:E; simpl; intros; simplify_eq/=; eauto.
  - intros q x Hq Hx. rewrite links_set_children. unfold m2.
    assert (x ≠ child) by (intros ->; by eapply Hfresh).
    transitivity (links m1 x); [| unfold links; by rewrite Hm1].
    destruct (Z.eqb_spec first 0) as [| E]; [done |]. unfold links.
    rewrite lookup_alter_ne; [done |]. intros <-. apply Hq.
    eapply (kr_disj m K Hr); eauto.
  - intros k' (k0 & Hk0 & Hk')%lookup_alter_children. rewrite decide_True in Hk' by done.
    rewrite Hk'. eapply hseg_frame; [intros; apply links_set_children |].
    pose proof (hseg_add m1 (SSlotChildren p) first (K p) child _ Hs1 (Hfresh p) H0 Hm1c
      eq_refl eq_refl) as Ha. exact Ha.
  - intros q x Hq [-> | Hx]%elem_of_cons; [apply Hfresh |]. intros Hx'.
    apply Hq. eapply (kr_disj m K Hr); eauto.
Qed.

Lemma wp_children_add m K p child :
  krep m K → is_Some (m !! p) → is_Some (m !! child) → child ≠ 0 → (∀ q, child ∉ K q) →
  wp (children_add p child) (λ _ m', krep m' (<[p := child :: K p]> K) ∧ dom m' = dom m) m.
Proof.
  intros Hr [kp Hp] [kc Hc] H0 Hfresh.
  pose proof (krep_add m K p child kp Hr Hp ltac:(eauto) H0 Hfresh) as Hadd.
  pose proof (kr_seg m K Hr p kp Hp) as Hs.
  unfold children_add, kid_load. wp_step. eapply wp_lookup; [done |]. cbn zeta.
  set (first := d_children kp) in *.
  wp_step. eapply wp_run; [by eapply kid_store_ok |].
  wp_step. eapply wp_run; [by eapply kid_store_ok; rewrite lookup_alter_eq, Hc |].
  set (m1 := alter _ child _).
  wp_step. apply wp_run with tt
    (if first =? 0 then m1 else alter (set_sib_pprev (SSlotSib child)) first m1).
  { unfold when. destruct (Z.eqb_spec first 0) as [E | E]; simpl; [done |].
    destruct (hseg_head _ _ _ _ Hs E) as [l' El].
    destruct (hseg_dom _ _ _ _ first Hs) as [kf Hf]; [rewrite El; by left |].
    assert (is_Some (m1 !! first)) as [k Hk].
    { unfold m1. by rewrite !lookup_alter_is_Some. }
    by eapply kid_store_ok. }
  set (m2 := if first =? 0 then m1 else _).
  assert (is_Some (m2 !! p)) as [k Hk].
  { unfold m2, m1. destruct (first =? 0); by rewrite ?lookup_alter_is_Some. }
  eapply wp_run; [by eapply kid_store_ok |]. split; [exact Hadd |].
  unfold m2, m1. destruct (first =? 0); by rewrite ?dom_alter_L.
Qed.

(** The links after [child], with fields [k], has left [p]'s list. *)
Definition remove_links (m : gmap Z dc_kid) (child : Z) (k : dc_kid) : gmap Z dc_kid :=
  let m1 := match d_sib_pprev k with
            | SSlotChildren p => alter (set_children (d_sib k)) p m
            | SSlotSib q => alter (set_sib (d_sib k)) q m
            | SSlotNull => m
            end in
  splice_next (d_sib_pprev k) (d_sib k) m1.

Lemma links_remove m child k x :
  links (remove_links m child k) x
  = links (splice_next (d_sib_pprev k) (d_sib k)
             (splice_slot sib_of (d_sib_pprev k) (d_sib k) m)) x.
Proof.
  unfold remove_links, splice_slot, splice_next. destruct (d_sib_pprev k) as [| p | q]; simpl; try done.
  destruct (d_sib k =? 0); [apply links_set_children |].
  unfold links. rewrite !lookup_alter. repeat case_decide; subst; try done;
    by destruct (m !! _).
Qed.

Lemma remove_None m child k x : remove_links m child k !! x = None ↔ m !! x = None.
Proof.
  unfold remove_links, splice_next. destruct (d_sib_pprev k), (d_sib k =? 0);
    by rewrite ?alter_None_iff.
Qed.

(** Only the head pointer of the list the child was first of changes. *)
Lemma remove_children m child k q k' :
  remove_links m child k !! q = Some k' →
  ∃ k0, m !! q = Some k0 ∧
    d_children k' = if decide (d_sib_pprev k = SSlotChildren q) then d_sib k else d_children k0.
Proof.
  assert (∀ s z m1 k1, splice_next s z m1 !! q = Some k1 →
    ∃ k0, m1 !! q = Some k0 ∧ d_children k1 = d_children k0) as Hsp.
  { intros s z m1 k1. unfold splice_next. destruct (z =? 0); [eauto |].
    rewrite lookup_alter. case_decide; [| eauto]. subst. intros (k0 & ? & ->)%fmap_Some. eauto. }
  unfold remove_links. intros (k1 & Hk1 & ->)%Hsp.
  destruct (d_sib_pprev k) as [| p | d].
  - exists k1. by rewrite decide_False.
  - apply lookup_alter_children in Hk1 as (k0 & ? & ->). exists k0. split; [done |].
    repeat case_decide; congruence.
  - rewrite lookup_alter in Hk1. case_decide; [| exists k1; by rewrite decide_False].
    subst. apply fmap_Some in Hk1 as (k0 & ? & ->). exists k0. by rewrite decide_False.
Qed.

Lemma krep_remove m K p child k l1 l2 :
  krep m K → m !! child = Some k → K p = l1 ++ child :: l2 → child ∉ l1 ++ l2 →
  krep (alter (set_sib_pprev SSlotNull) child (alter (set_sib 0) child (remove_links m child k)))
       (<[p := l1 ++ l2]> K).
Proof.
  intros Hr Hk HK Hcl. destruct (krep_dom m K p child Hr) as (_ & [kp Hp] & H0).
  { rewrite HK, elem_of_app. right. by left. }
  pose proof (kr_seg m K Hr p kp Hp) as Hs. rewrite HK in Hs.
  destruct (hseg_app _ _ _ _ _ _ Hs) as (k0 & Hk0 & Hpp & Hrest). simplify_eq. simpl in Hpp.
  set (m1 := remove_links m child k).
  assert (∀ x, x ≠ child → links (alter (set_sib_pprev SSlotNull) child
                             (alter (set_sib 0) child m1)) x = links m1 x) as Hl.
  { intros x Hx. unfold links. by rewrite !lookup_alter_ne by congruence. }
  assert (∀ q k', alter (set_sib_pprev SSlotNull) child (alter (set_sib 0) child m1) !! q = Some k' →
    ∃ k1, m1 !! q = Some k1 ∧ d_children k' = d_children k1) as Hch.
  { intros q k'. destruct (decide (child = q)) as [<- |].
    - rewrite !lookup_alter_eq. destruct (m1 !! child); intros; simplify_eq/=; eauto.
    - rewrite !lookup_alter_ne by done. eauto. }
  apply (krep_update m _ K p); [done | | | | | by eexists |].
  - intros x. rewrite !alter_None_iff. apply remove_None.
  - intros q k' (k1 & Hk1 & ->)%Hch Hq. apply remove_children in Hk1 as (k2 & ? & ->).
    exists k2. split; [done |]. rewrite decide_False; [done |]. rewrite Hpp.
    unfold prev_slot. by destruct (last l1); [| intros [= ->]].
  - intros q x Hq Hx. assert (x ∉ K p) as Hxp.
    { intros Hx'. apply Hq. eapply (kr_disj m K Hr); eauto. }
    rewrite HK, elem_of_app, elem_of_cons in Hxp.
    rewrite Hl by (intros ->; tauto). unfold m1. rewrite links_remove.
    rewrite links_splice_next.
    + unfold splice_slot. rewrite Hpp. unfold prev_slot. destruct (last l1) as [y |] eqn:Hy; [| done].
      simpl. unfold links. rewrite lookup_alter_ne; [done |]. intros <-.
      apply last_Some in Hy as [l' ->]. rewrite elem_of_app, list_elem_of_singleton in Hxp. tauto.
    + intros ->. destruct (hseg_head _ _ _ _ Hrest) as [l' E].
      { intros E0. simpl in E0. rewrite E0 in Hx.
        destruct (krep_dom m K q 0 Hr Hx) as (_ & _ & ?). done. }
      rewrite E, elem_of_cons in Hxp. tauto.
  - intros k' (k1 & Hk1 & ->)%Hch. apply remove_children in Hk1 as (k2 & Hk2 & ->). simplify_eq.
    eapply hseg_frame.
    { intros x Hx. rewrite Hl by (by intros ->). apply links_remove. }
    pose proof (hseg_del sib_of (λ _ _, eq_refl) _ _ _ _ _ _ _ Hs Hk eq_refl) as Hdel.
    replace (if decide (d_sib_pprev k = SSlotChildren p) then d_sib k else d_children kp)
      with (match l1 with [] => d_sib k | _ => d_children kp end); [exact Hdel |].
    rewrite Hpp. unfold prev_slot. destruct l1 as [| a l1 _] using rev_ind; simpl.
    { by rewrite decide_True. }
    rewrite last_snoc. repeat case_decide; by destruct l1.
  - intros q x Hq Hx Hx'. apply Hq. eapply (kr_disj m K Hr); eauto.
    rewrite HK. rewrite elem_of_app in Hx |- *. rewrite elem_of_cons. tauto.
Qed.

Lemma wp_children_remove m K p q child :
  krep m K → child ∈ K p →
  wp (children_remove q child) (λ _ m', ∃ K',
    krep m' K' ∧ (∀ a x, x ∈ K' a ↔ x ∈ K a ∧ x ≠ child) ∧ dom m' = dom m) m.
Proof.
  intros Hr Hin. destruct (krep_dom m K p child Hr Hin) as ([k Hk] & [kp Hp] & H0).
  apply list_elem_of_split in Hin as (l1 & l2 & HK).
  pose proof (krep_nodup m K p Hr) as Hnd. rewrite HK in Hnd.
  assert (child ∉ l1 ++ l2) as Hcl.
  { apply NoDup_app in Hnd as (_ & Hdis & [? _]%NoDup_cons).
    rewrite elem_of_app. intros [Hx |]; [| done]. by apply (Hdis child Hx); left. }
  pose proof (krep_remove m K p child k l1 l2 Hr Hk HK Hcl) as Hrem.
  pose proof (kr_seg m K Hr p kp Hp) as Hs. rewrite HK in Hs.
  destruct (hseg_app _ _ _ _ _ _ Hs) as (k0 & Hk0 & Hpp & Hrest). simplify_eq. simpl in Hpp.
  unfold children_remove, kid_load. wp_step. eapply wp_lookup; [done |].
  set (m1 := match d_sib_pprev k with
             | SSlotChildren p => alter (set_children (d_sib k)) p m
             | SSlotSib q => alter (set_sib (d_sib k)) q m
             | SSlotNull => m end).
  wp_step. apply wp_run with tt m1.
  { unfold m1. rewrite Hpp. unfold prev_slot.
    destruct l1 as [| a l1 _] using rev_ind; simpl; [by eapply kid_store_ok |].
    rewrite last_snoc. simpl. rewrite <- app_assoc in Hs. simpl in Hs.
    destruct (hseg_app _ _ _ _ _ _ Hs) as (ka & Hka & _). by eapply kid_store_ok. }
  wp_step. apply wp_run with tt (remove_links m child k).
  { unfold when, remove_links, splice_next. fold m1.
    destruct (Z.eqb_spec (d_sib k) 0) as [E | E]; simpl; [done |].
    destruct (hseg_head _ _ _ _ Hrest E) as [l' El].
    destruct (hseg_dom _ _ _ _ (d_sib k) Hrest) as [ks Hks]; [rewrite El; by left |].
    assert (is_Some (m1 !! d_sib k)) as [? ?].
    { unfold m1. destruct (d_sib_pprev k); by rewrite ?lookup_alter_is_Some. }
    by eapply kid_store_ok. }
  assert (is_Some (remove_links m child k !! child)) as [k2 Hk2].
  { apply not_eq_None_Some. rewrite remove_None. by rewrite Hk. }
  wp_step. eapply wp_run; [by eapply kid_store_ok |].
  eapply wp_run; [by eapply kid_store_ok; rewrite lookup_alter_eq, Hk2 |].
  exists (<[p := l1 ++ l2]> K). split_and!; [done | |].
  - intros a x. destruct (decide (p = a)) as [<- |];
      rewrite ?fn_lookup_insert, ?fn_lookup_insert_ne by done.
    + rewrite HK. rewrite !elem_of_app in *. rewrite elem_of_cons. split; [| tauto].
      intros Hx. split; [tauto |]. intros ->. tauto.
    + split; [| tauto]. intros Hx. split; [done |]. intros ->. destruct (decide (p = a)); [done |].
      assert (p = a); [| done]. eapply (kr_disj m K Hr); [| exact Hx].
      rewrite HK, elem_of_app. right. by left.
  - rewrite !dom_alter_L. apply set_eq. intros x. rewrite !elem_of_dom, <- !not_eq_None_Some.
    by rewrite remove_None.
Qed.

(** Allocation and release of a node with no children in no list. *)
Lemma krep_alloc m K d :
  krep m K → m !! d = None → krep (<[d := kid0]> m) K.
Proof.
  intros Hr Hd. assert (∀ p x, x ∈ K p → x ≠ d) as Hne.
  { intros p x Hx ->. destruct (krep_dom m K p d Hr Hx) as ([? ?] & _). congruence. }
  split; [| | apply (kr_disj m K Hr)].
  - intros p k. destruct (decide (d = p)) as [<- |].
    + rewrite lookup_insert_eq. intros [= <-]. by rewrite (kr_out m K Hr).
    + rewrite lookup_insert_ne by done. intros Hp.
      eapply hseg_frame; [| by apply (kr_seg m K Hr)]. intros x Hx. unfold links.
      rewrite lookup_insert_ne; [done |]. intros <-. by eapply Hne.
  - intros p. rewrite lookup_insert_None. intros [? _]. by apply (kr_out m K Hr).
Qed.

Lemma krep_free m K d :
  krep m K → (∀ p, d ∉ K p) → K d = [] → krep (delete d m) K.
Proof.
  intros Hr Hd HK. split; [| | apply (kr_disj m K Hr)].
  - intros p k. rewrite lookup_delete_Some. intros [Hne Hp].
    eapply hseg_frame; [| by apply (kr_seg m K Hr)]. intros x Hx. unfold links.
    rewrite lookup_delete_ne; [done |]. intros <-. by eapply Hd.
  - intros p. destruct (decide (d = p)) as [<- |]; [done |].
    rewrite lookup_delete_ne by done. apply (kr_out m K Hr).
Qed.
