(* ===== verification/Lru.v ===== *)
(** The per-node LRU lists of dcache_seqlock.c ([struct list_lru]): one doubly
    linked list per NUMA node under that shard's lock, and in every dentry the
    membership word [d_lru.shard] that says which list it is on, or that it is
    off, isolated by the shrinker, or dead. *)

From S2P Require Import Prelude HList.

Definition DC_LRU_NODES : nat := 64.

Record dc_lru := LruNode {
  l_prev : Z;
  l_next : Z;
  l_shard : Z;
  l_referenced : bool;
}.

Record dc_lru_one := LruOne {
  lo_lock : Z;                  (* struct dc_qspinlock: the 32-bit lock word *)
  lo_head : Z;
  lo_tail : Z;
  lo_nr_items : Z;
}.

Record lru_state := LruState {
  ls_one : list dc_lru_one;     (* dc->s_dentry_lru[] *)
  ls_node : gmap Z dc_lru;      (* d_lru of each allocated dentry *)
}.

Definition DC_SEQ_LRU_OFF : Z := 0.
Definition DC_SEQ_LRU_ON (nid : nat) : Z := Z.of_nat nid + 1.
Definition DC_SEQ_LRU_SHRINK : Z := 4294967294.
Definition DC_SEQ_LRU_DEAD : Z := 4294967295.
Definition DC_SEQ_LRU_IS_ON (st : Z) : bool :=
  negb (st =? DC_SEQ_LRU_OFF) && (st <=? Z.of_nat DC_LRU_NODES).

Definition lnode0 : dc_lru :=
  {| l_prev := 0; l_next := 0; l_shard := DC_SEQ_LRU_OFF; l_referenced := false |}.
Definition lone0 : dc_lru_one :=
  {| lo_lock := 0; lo_head := 0; lo_tail := 0; lo_nr_items := 0 |}.

Definition set_lprev (z : Z) (n : dc_lru) : dc_lru :=
  {| l_prev := z; l_next := l_next n; l_shard := l_shard n; l_referenced := l_referenced n |}.
Definition set_lnext (z : Z) (n : dc_lru) : dc_lru :=
  {| l_prev := l_prev n; l_next := z; l_shard := l_shard n; l_referenced := l_referenced n |}.
Definition set_lshard (z : Z) (n : dc_lru) : dc_lru :=
  {| l_prev := l_prev n; l_next := l_next n; l_shard := z; l_referenced := l_referenced n |}.
Definition set_lref (b : bool) (n : dc_lru) : dc_lru :=
  {| l_prev := l_prev n; l_next := l_next n; l_shard := l_shard n; l_referenced := b |}.

Definition set_lo_lock (z : Z) (o : dc_lru_one) : dc_lru_one :=
  {| lo_lock := z; lo_head := lo_head o; lo_tail := lo_tail o; lo_nr_items := lo_nr_items o |}.
Definition set_lo_head (z : Z) (o : dc_lru_one) : dc_lru_one :=
  {| lo_lock := lo_lock o; lo_head := z; lo_tail := lo_tail o; lo_nr_items := lo_nr_items o |}.
Definition set_lo_tail (z : Z) (o : dc_lru_one) : dc_lru_one :=
  {| lo_lock := lo_lock o; lo_head := lo_head o; lo_tail := z; lo_nr_items := lo_nr_items o |}.
Definition set_lo_nr (z : Z) (o : dc_lru_one) : dc_lru_one :=
  {| lo_lock := lo_lock o; lo_head := lo_head o; lo_tail := lo_tail o; lo_nr_items := z |}.

(** ** Operations *)

Definition one_load (i : nat) : ST lru_state dc_lru_one := λ s,
  match ls_one s !! i with Some o => Ok (o, s) | None => Err BadPtr end.

Definition one_store (i : nat) (f : dc_lru_one → dc_lru_one) : ST lru_state unit := λ s,
  match ls_one s !! i with
  | Some _ => Ok (tt, {| ls_one := alter f i (ls_one s); ls_node := ls_node s |})
  | None => Err BadPtr
  end.

Definition lnode_store (d : Z) (f : dc_lru → dc_lru) : ST lru_state unit := λ s,
  match ls_node s !! d with
  | Some _ => Ok (tt, {| ls_one := ls_one s; ls_node := alter f d (ls_node s) |})
  | None => Err BadPtr
  end.

(** The shard lock, with nobody else running: the fast path of the queued
    spinlock (cmpxchg 0 to DC_Q_LOCKED_VAL); a word that is not 0 sends the
    caller to the slow path, where it waits for an owner that cannot run. *)
Definition lru_lock (i : nat) : ST lru_state unit :=
  let! o := one_load i in
  if lo_lock o =? 0 then one_store i (set_lo_lock 1) else st_fault Deadlock.

(** The release clears the locked byte of the word. *)
Definition lru_unlock (i : nat) : ST lru_state unit :=
  one_store i (λ o, set_lo_lock (Z.land (lo_lock o) (Z.lnot 255)) o).

(** [lru_nid]: the node [nid] that [dc_current_node] reports, folded into the
    array. *)
Definition lru_nid (nid : nat) : nat :=
  if (nid <? DC_LRU_NODES)%nat then nid else Nat.modulo nid DC_LRU_NODES.

Definition lru_link_tail_locked (i : nat) (d : Z) : ST lru_state unit :=
  let! o := one_load i in
  lnode_store d (set_lprev (lo_tail o)) ;;;
  lnode_store d (set_lnext 0) ;;;
  (if negb (lo_tail o =? 0) then lnode_store (lo_tail o) (set_lnext d)
   else one_store i (set_lo_head d)) ;;;
  one_store i (set_lo_tail d) ;;;
  one_store i (λ o, set_lo_nr (w64 (lo_nr_items o + 1)) o).

Definition lru_add_new (cur_node : nat) (d : Z) : ST lru_state unit :=
  let nid := lru_nid cur_node in
  lru_lock nid ;;;
  lru_link_tail_locked nid d ;;;
  lnode_store d (set_lshard (DC_SEQ_LRU_ON nid)) ;;;
  lru_unlock nid.

(** [uatomic_cmpxchg(&d->d_lru.shard, old, new)]: the value before. *)
Definition shard_cmpxchg (d old new : Z) : ST lru_state Z :=
  let! n := st_lookup ls_node d in
  when (l_shard n =? old) (lnode_store d (set_lshard new)) ;;;
  st_ret (l_shard n).

Definition lru_add_claim (cur_node : nat) (d : Z) : ST lru_state unit :=
  let nid := lru_nid cur_node in
  lru_lock nid ;;;
  let! was := shard_cmpxchg d DC_SEQ_LRU_OFF (DC_SEQ_LRU_ON nid) in
  when (was =? DC_SEQ_LRU_OFF) (lru_link_tail_locked nid d) ;;;
  lru_unlock nid.

Definition lru_del_locked (i : nat) (d newst : Z) : ST lru_state unit :=
  let! n := st_lookup ls_node d in
  (if negb (l_prev n =? 0) then lnode_store (l_prev n) (set_lnext (l_next n))
   else one_store i (set_lo_head (l_next n))) ;;;
  (if negb (l_next n =? 0) then lnode_store (l_next n) (set_lprev (l_prev n))
   else one_store i (set_lo_tail (l_prev n))) ;;;
  lnode_store d (set_lnext 0) ;;;
  lnode_store d (set_lprev 0) ;;;
  lnode_store d (set_lshard newst) ;;;
  one_store i (λ o, set_lo_nr (w64 (lo_nr_items o - 1)) o).

(** One round of [lru_del]'s retry loop: [inr tt] returns, [inl tt] goes again. *)
Definition lru_del_round (d : Z) (_ : unit) : ST lru_state (unit + unit) :=
  let! n := st_lookup ls_node d in
  let st := l_shard n in
  if st =? DC_SEQ_LRU_DEAD then st_ret (inr tt)
  else if negb (DC_SEQ_LRU_IS_ON st) then
    let! was := shard_cmpxchg d st DC_SEQ_LRU_DEAD in
    st_ret (if was =? st then inr tt else inl tt)
  else
    let i := Z.to_nat (st - 1) in
    lru_lock i ;;;
    let! n' := st_lookup ls_node d in
    if negb (l_shard n' =? st) then
      lru_unlock i ;;; st_ret (inl tt)
    else
      lru_del_locked i d DC_SEQ_LRU_DEAD ;;;
      lru_unlock i ;;;
      st_ret (inr tt).

(** The loop is unbounded in C; a round that is not raced ends it. *)
Definition LRU_DEL_ROUNDS : positive := 1024.

Definition lru_del (d : Z) : ST lru_state unit :=
  let! r := iter_upto LRU_DEL_ROUNDS (lru_del_round d) tt in
  match r with inr _ => st_ret tt | inl _ => st_fault NoFuel end.

Definition lru_retain (cur_node : nat) (d : Z) : ST lru_state unit :=
  let! n := st_lookup ls_node d in
  let st := l_shard n in
  if DC_SEQ_LRU_IS_ON st then
    when (negb (l_referenced n)) (lnode_store d (set_lref true))
  else when (st =? DC_SEQ_LRU_OFF) (lru_add_claim cur_node d).

(** The sum over all shards, in an [unsigned long]. *)
Definition dc_lru_count (s : lru_state) : Z :=
  foldl (λ n o, w64 (n + lo_nr_items o)) 0 (ls_one s).

(** ** Representation *)

#[export] Program Instance lru_HNode : HNode dc_lru Z := {|
  hn_nx := l_next; hn_pp := l_prev; hn_set_nx := set_lnext; hn_set_pp := set_lprev;
  hn_slot := λ d, d |}.
Solve Obligations with (simpl; congruence || done).

Definition lslot_of (z : Z) : option Z := if z =? 0 then None else Some z.

Lemma lslot_of_slot d : d ≠ 0 → lslot_of (hn_slot (N := dc_lru) d) = Some d.
Proof. intros H. unfold lslot_of. simpl. by destruct (Z.eqb_spec d 0). Qed.

Definition last_or_null (l : list Z) : Z := default 0 (last l).

(** Shard [o] lists exactly [l], from the oldest to the newest. *)
Definition onerep (nd : gmap Z dc_lru) (o : dc_lru_one) (l : list Z) : Prop :=
  hseg nd 0 (lo_head o) l ∧ lo_tail o = last_or_null l ∧ lo_nr_items o = w64 (Z.of_nat (length l)).

(** The lists alone: shard [i] lists [L i], no dentry is on two lists. *)
Record llists (s : lru_state) (L : nat → list Z) : Prop := {
  ll_size : length (ls_one s) = DC_LRU_NODES;
  ll_one : ∀ i o, ls_one s !! i = Some o → onerep (ls_node s) o (L i);
  ll_out : ∀ i, (DC_LRU_NODES ≤ i)%nat → L i = [];
  ll_disj : ∀ i j d, d ∈ L i → d ∈ L j → i = j;
}.

(** The lock words of the shards, the membership words and the referenced bits
    of the dentries. *)
Definition locks (s : lru_state) : list Z := lo_lock <$> ls_one s.
Definition words (s : lru_state) : gmap Z Z := l_shard <$> ls_node s.
Definition refs (s : lru_state) : gmap Z bool := l_referenced <$> ls_node s.

(** The lists and the words agree: a dentry is on list [i] exactly when its word
    says ON(i). *)
Definition lrep (s : lru_state) (L : nat → list Z) : Prop :=
  llists s L ∧
  ∀ i d, d ∈ L i ↔ words s !! d = Some (DC_SEQ_LRU_ON i) ∧ (i < DC_LRU_NODES)%nat.

Definition all_unlocked (s : lru_state) : Prop := locks s = replicate DC_LRU_NODES 0.

Lemma words_lookup s d n : ls_node s !! d = Some n → words s !! d = Some (l_shard n).
Proof. intros H. unfold words. by rewrite lookup_fmap, H. Qed.

Lemma words_node s s' : ls_node s' = ls_node s → words s' = words s.
Proof. unfold words. by intros ->. Qed.

Lemma words_lookup_inv s d w : words s !! d = Some w → ∃ n, ls_node s !! d = Some n ∧ l_shard n = w.
Proof. unfold words. rewrite lookup_fmap. intros (n & ? & ->)%fmap_Some. eauto. Qed.

Lemma locks_lookup s i o : ls_one s !! i = Some o → locks s !! i = Some (lo_lock o).
Proof. intros H. unfold locks. by rewrite list_lookup_fmap, H. Qed.

Lemma unlocked_lookup s i o : all_unlocked s → ls_one s !! i = Some o → lo_lock o = 0.
Proof.
  intros Hu Ho. apply locks_lookup in Ho. rewrite Hu in Ho.
  by apply lookup_replicate in Ho as [? _].
Qed.

Lemma llists_lookup s L i :
  llists s L → (i < DC_LRU_NODES)%nat → ∃ o, ls_one s !! i = Some o ∧ onerep (ls_node s) o (L i).
Proof.
  intros Hl Hi. destruct (lookup_lt_is_Some_2 (ls_one s) i) as [o Ho].
  { by rewrite (ll_size s L Hl). }
  exists o. split; [done |]. by apply (ll_one s L Hl).
Qed.

Lemma llists_dom s L i d : llists s L → d ∈ L i → is_Some (ls_node s !! d) ∧ (i < DC_LRU_NODES)%nat ∧ d ≠ 0.
Proof.
  intros Hl Hd. destruct (le_lt_dec DC_LRU_NODES i).
  { rewrite (ll_out s L Hl) in Hd by done. by apply not_elem_of_nil in Hd. }
  destruct (llists_lookup s L i Hl) as (o & Ho & Hs & _); [done |].
  split_and!; [by eapply hseg_dom | done |]. intros ->. by eapply hseg_nonzero.
Qed.

(** Stores to a field other than the links. *)
Lemma links_lru_alter (nd : gmap Z dc_lru) f d x :
  (∀ n, l_next (f n) = l_next n ∧ l_prev (f n) = l_prev n) →
  links (alter f d nd) x = links nd x.
Proof.
  intros Hf. unfold links. rewrite lookup_alter. case_decide; [| done]. subst.
  destruct (nd !! x) as [n |]; [| done]. simpl. by destruct (Hf n) as [-> ->].
Qed.

Lemma words_set_shard s l d w n :
  ls_node s !! d = Some n →
  words {| ls_one := l; ls_node := alter (set_lshard w) d (ls_node s) |} = <[d := w]> (words s).
Proof.
  intros Hn. unfold words. simpl. apply map_eq. intros x.
  rewrite lookup_fmap, lookup_alter, lookup_insert. repeat case_decide; simplify_eq.
  - by rewrite Hn.
  - by rewrite lookup_fmap.
Qed.

Lemma words_alter (nd : gmap Z dc_lru) f d :
  (∀ n, l_shard (f n) = l_shard n) → l_shard <$> alter f d nd = l_shard <$> nd.
Proof.
  intros Hf. apply map_eq. intros x. rewrite !lookup_fmap, lookup_alter.
  case_decide; [| done]. subst. destruct (nd !! x); [| done]. simpl. by rewrite Hf.
Qed.

Lemma refs_alter (nd : gmap Z dc_lru) f d :
  (∀ n, l_referenced (f n) = l_referenced n) → l_referenced <$> alter f d nd = l_referenced <$> nd.
Proof.
  intros Hf. apply map_eq. intros x. rewrite !lookup_fmap, lookup_alter.
  case_decide; [| done]. subst. destruct (nd !! x); [| done]. simpl. by rewrite Hf.
Qed.

Lemma locks_alter (l : list dc_lru_one) f i :
  (∀ o, lo_lock (f o) = lo_lock o) → lo_lock <$> alter f i l = lo_lock <$> l.
Proof.
  intros Hf. apply list_eq. intros j. rewrite !list_lookup_fmap, list_lookup_alter.
  case_decide; [| done]. subst. destruct (l !! j); [| done]. simpl. by rewrite Hf.
Qed.

(** The lists seen through another state with the same links and heads. *)
Lemma llists_ext s s' L :
  llists s L → length (ls_one s') = length (ls_one s) →
  (∀ i o', ls_one s' !! i = Some o' → ∃ o, ls_one s !! i = Some o ∧
     lo_head o' = lo_head o ∧ lo_tail o' = lo_tail o ∧ lo_nr_items o' = lo_nr_items o) →
  (∀ i d, d ∈ L i → links (ls_node s') d = links (ls_node s) d) →
  llists s' L.
Proof.
  intros [Hs Ho Hout Hd] Hlen Hone Hlk. split; [congruence | | done | done].
  intros i o' Ho'. destruct (Hone i o' Ho') as (o & E & H1 & H2 & H3).
  destruct (Ho i o E) as (Hseg & Ht & Hn). unfold onerep. rewrite H1, H2, H3.
  split_and!; [| done | done]. eapply hseg_frame; [| exact Hseg]. intros x Hx. by eapply Hlk.
Qed.

(** One list replaced, the others alone. *)
Lemma llists_update s s' L i l o' :
  llists s L → ls_one s' !! i = Some o' → onerep (ls_node s') o' l →
  length (ls_one s') = length (ls_one s) →
  (∀ j, j ≠ i → ls_one s' !! j = ls_one s !! j) →
  (∀ j d, j ≠ i → d ∈ L j → links (ls_node s') d = links (ls_node s) d) →
  (∀ j d, j ≠ i → d ∈ l → d ∉ L j) →
  llists s' (<[i := l]> L).
Proof.
  intros Hl Ho' Hrep Hlen Hj Hlk Hdis. split.
  - rewrite Hlen. apply (ll_size s L Hl).
  - intros j o Hjo. destruct (decide (i = j)) as [<- |].
    + rewrite fn_lookup_insert. by simplify_eq.
    + rewrite fn_lookup_insert_ne by done. rewrite Hj in Hjo by done.
      destruct (ll_one s L Hl j o Hjo) as (Hseg & ? & ?). split_and!; [| done | done].
      eapply hseg_frame; [| exact Hseg]. intros x Hx. by eapply Hlk.
  - intros j Hge. rewrite fn_lookup_insert_ne; [by apply (ll_out s L Hl) |].
    intros <-. apply lookup_lt_Some in Ho'. rewrite Hlen, (ll_size s L Hl) in Ho'. lia.
  - intros j k x. destruct (decide (i = j)) as [<- |], (decide (i = k)) as [<- |];
      rewrite ?fn_lookup_insert, ?fn_lookup_insert_ne by done; [done | | |].
    + intros H1 H2. by apply Hdis in H2.
    + intros H1 H2. by apply Hdis in H1.
    + apply (ll_disj s L Hl).
Qed.

(** ** Specifications *)

Lemma lnode_store_ok s d n f :
  ls_node s !! d = Some n →
  lnode_store d f s = Ok (tt, {| ls_one := ls_one s; ls_node := alter f d (ls_node s) |}).
Proof. unfold lnode_store. by intros ->. Qed.

Lemma one_store_ok s i o f :
  ls_one s !! i = Some o →
  one_store i f s = Ok (tt, {| ls_one := alter f i (ls_one s); ls_node := ls_node s |}).
Proof. unfold one_store. by intros ->. Qed.

Lemma w64_succ n : w64 (w64 n + 1) = w64 (n + 1).
Proof. unfold w64. by rewrite Zplus_mod_idemp_l. Qed.
Lemma w64_pred n : w64 (w64 n - 1) = w64 (n - 1).
Proof. unfold w64. by rewrite Zminus_mod_idemp_l. Qed.

(** The state [lru_link_tail_locked] ends in. *)
Definition link_tail_nodes (nd : gmap Z dc_lru) (d tail : Z) : gmap Z dc_lru :=
  let nd1 := alter (set_lnext 0) d (alter (set_lprev tail) d nd) in
  if tail =? 0 then nd1 else alter (set_lnext d) tail nd1.
Definition link_tail_one (d : Z) (o : dc_lru_one) : dc_lru_one :=
  {| lo_lock := lo_lock o; lo_head := if lo_tail o =? 0 then d else lo_head o;
     lo_tail := d; lo_nr_items := w64 (lo_nr_items o + 1) |}.

Lemma onerep_link_tail nd o l d :
  onerep nd o l → d ∉ l → d ≠ 0 → is_Some (nd !! d) →
  onerep (link_tail_nodes nd d (lo_tail o)) (link_tail_one d o) (l ++ [d]).
Proof.
  intros (Hs & Ht & Hn) Hd H0 [n Hnd]. unfold link_tail_nodes.
  set (nd1 := alter (set_lnext 0) d (alter (set_lprev (lo_tail o)) d nd)).
  assert (hseg nd1 0 (lo_head o) l) as Hs1.
  { eapply hseg_frame; [| exact Hs]. intros x Hx. unfold links, nd1.
    by rewrite !lookup_alter_ne by (intros <-; done). }
  assert (nd1 !! d = Some (set_lnext 0 (set_lprev (lo_tail o) n))) as Hn1.
  { unfold nd1. by rewrite !lookup_alter_eq, Hnd. }
  assert (prev_slot 0 l = lo_tail o) as Hps.
  { rewrite Ht. unfold prev_slot, last_or_null. by destruct (last l). }
  pose proof (hseg_snoc nd1 0 (lo_head o) l d _ Hs1 Hd H0 Hn1 eq_refl (eq_sym Hps)) as Hsn.
  pose proof (hseg_nonzero _ _ _ _ Hs) as Hnz.
  assert (lo_tail o = 0 ↔ l = []) as Ht0.
  { rewrite Ht. unfold last_or_null. destruct l as [| t l _] using rev_ind; [done |].
    rewrite last_snoc. simpl. split; [intros -> | by destruct l].
    exfalso. apply Hnz. rewrite elem_of_app. right. by left. }
  unfold link_tail_one. split_and!; simpl.
  - destruct (Z.eqb_spec (lo_tail o) 0) as [E | E].
    + apply Ht0 in E as ->. done.
    + destruct (decide (l = [])) as [-> | Hne]; [by destruct E; apply Ht0 |]. clear Ht0.
      destruct l as [| t l _] using rev_ind; [done |]. clear Hne.
      rewrite last_snoc in Hsn. rewrite Ht in *. unfold last_or_null in *.
      rewrite last_snoc in *. simpl in *. by destruct (l ++ [t]) eqn:?; [destruct l |].
  - unfold last_or_null. by rewrite last_snoc.
  - rewrite Hn, w64_succ, length_app. simpl. f_equal. lia.
Qed.

Lemma wp_lru_link_tail_locked s L i d :
  llists s L → (i < DC_LRU_NODES)%nat → (∀ j, d ∉ L j) → d ≠ 0 → is_Some (ls_node s !! d) →
  wp (lru_link_tail_locked i d) (λ _ s',
    llists s' (<[i := L i ++ [d]]> L) ∧ words s' = words s ∧ refs s' = refs s ∧
    locks s' = locks s) s.
Proof.
  intros Hl Hi Hfresh H0 [n Hn]. destruct (llists_lookup s L i Hl Hi) as (o & Ho & Hone).
  pose proof (onerep_link_tail _ _ _ d Hone (Hfresh i) H0 ltac:(eauto)) as Hnew.
  assert (lo_tail o ≠ 0 → lo_tail o ∈ L i) as Htin.
  { destruct Hone as (_ & -> & _). unfold last_or_null. destruct (last (L i)) eqn:E; [| done].
    intros _. apply last_Some in E as [l' ->]. rewrite elem_of_app. right. by left. }
  set (s1 := {| ls_one := alter (link_tail_one d) i (ls_one s);
                ls_node := link_tail_nodes (ls_node s) d (lo_tail o) |}).
  apply wp_run with tt s1.
  { unfold lru_link_tail_locked, st_bind, one_load. rewrite Ho.
    rewrite (lnode_store_ok s d n) by done.
    erewrite lnode_store_ok by (simpl; by rewrite lookup_alter_eq, Hn). simpl.
    assert (ls_one s !! i = Some o) as Ho1 by done.
    destruct (Z.eqb_spec (lo_tail o) 0) as [E | E]; simpl.
    - erewrite one_store_ok by done. simpl.
      erewrite one_store_ok by (simpl; by rewrite list_lookup_alter_eq, Ho). simpl.
      erewrite one_store_ok by (simpl; by rewrite !list_lookup_alter_eq, Ho). simpl.
      unfold s1, link_tail_nodes. rewrite E. simpl. do 3 f_equal.
      rewrite !list_alter_alter_eq. apply list_alter_ext; [| done].
      intros o' Ho'. simplify_eq. unfold link_tail_one, compose. by rewrite E.
    - destruct (llists_dom s L i _ Hl (Htin E)) as ([nt Hnt] & _ & _).
      assert (lo_tail o ≠ d) as Hne by (intros <-; by apply (Hfresh i), Htin).
      erewrite lnode_store_ok by (simpl; rewrite !lookup_alter_ne by congruence; done). simpl.
      erewrite one_store_ok by done. simpl.
      erewrite one_store_ok by (simpl; by rewrite list_lookup_alter_eq, Ho). simpl.
      unfold s1, link_tail_nodes. rewrite (proj2 (Z.eqb_neq (lo_tail o) 0)) by done.
      do 3 f_equal. rewrite !list_alter_alter_eq. apply list_alter_ext; [| done].
      intros o' Ho'. simplify_eq. unfold link_tail_one, compose.
      by rewrite (proj2 (Z.eqb_neq (lo_tail o) 0)). }
  split_and!.
  - eapply (llists_update s s1 L i _ (link_tail_one d o)); try done.
    + unfold s1. simpl. by rewrite list_lookup_alter_eq, Ho.
    + unfold s1. simpl. apply length_alter.
    + intros j Hj. unfold s1. simpl. by rewrite list_lookup_alter_ne.
    + intros j x Hj Hx. unfold s1. simpl. unfold link_tail_nodes, links.
      assert (x ≠ d) by (intros ->; by eapply Hfresh).
      assert (lo_tail o = 0 ∨ lo_tail o ≠ x) as [E | E].
      { destruct (decide (lo_tail o = x)) as [<- |]; [| tauto]. left.
        destruct (decide (lo_tail o = 0)); [done |]. exfalso. apply Hj.
        eapply (ll_disj s L Hl); eauto. }
      * rewrite E. simpl. by rewrite !lookup_alter_ne by congruence.
      * destruct (lo_tail o =? 0); by rewrite !lookup_alter_ne by congruence.
    + intros j x Hj. rewrite elem_of_app, list_elem_of_singleton.
      intros [Hx | ->]; [| apply Hfresh]. intros Hx'. apply Hj. eapply (ll_disj s L Hl); eauto.
  - unfold words, s1, link_tail_nodes. simpl.
    destruct (lo_tail o =? 0); by rewrite ?words_alter.
  - unfold refs, s1, link_tail_nodes. simpl.
    destruct (lo_tail o =? 0); by rewrite ?refs_alter.
  - unfold locks, s1. simpl. by rewrite locks_alter.
Qed.

(** The state [lru_del_locked] ends in. *)
Definition del_spliced (nd : gmap Z dc_lru) (n : dc_lru) : gmap Z dc_lru :=
  splice_next (l_prev n) (l_next n) (splice_slot lslot_of (l_prev n) (l_next n) nd).
Definition del_node_done (newst : Z) (m : dc_lru) : dc_lru :=
  {| l_prev := 0; l_next := 0; l_shard := newst; l_referenced := l_referenced m |}.
Definition del_one (n : dc_lru) (o : dc_lru_one) : dc_lru_one :=
  {| lo_lock := lo_lock o; lo_head := if l_prev n =? 0 then l_next n else lo_head o;
     lo_tail := if l_next n =? 0 then l_prev n else lo_tail o;
     lo_nr_items := w64 (lo_nr_items o - 1) |}.

Lemma onerep_prev nd o l1 d l2 n :
  onerep nd o (l1 ++ d :: l2) → nd !! d = Some n →
  (l_prev n = 0 ↔ l1 = []) ∧ l_prev n = last_or_null l1 ∧
  (l_next n = 0 ↔ l2 = []) ∧ (l_next n ≠ 0 → l_next n ∈ l2) ∧ (l_prev n ≠ 0 → l_prev n ∈ l1).
Proof.
  intros (Hs & _) Hn. destruct (hseg_app _ _ _ _ _ _ Hs) as (n' & Hn' & Hpp & Hr).
  simplify_eq. simpl in *. pose proof (hseg_nonzero _ _ _ _ Hs) as Hnz.
  rewrite elem_of_app, elem_of_cons in Hnz.
  assert (l_prev n = last_or_null l1) as Hp.
  { rewrite Hpp. unfold prev_slot, last_or_null. by destruct (last l1). }
  split_and!; try done.
  - rewrite Hp. unfold last_or_null. destruct l1 as [| t l1 _] using rev_ind; [done |].
    rewrite last_snoc. simpl. split; [intros -> | by destruct l1].
    exfalso. apply Hnz. left. rewrite elem_of_app. right. by left.
  - split.
    + intros E. rewrite E in Hr. by apply hseg_null in Hr.
    + intros ->. done.
  - intros E. destruct (hseg_head _ _ _ _ Hr E) as [l' ->]. by left.
  - rewrite Hp. unfold last_or_null. destruct (last l1) eqn:E; [| done].
    intros _. apply last_Some in E as [l' ->]. rewrite elem_of_app. right. by left.
Qed.

Lemma onerep_del nd o l1 d l2 n newst :
  onerep nd o (l1 ++ d :: l2) → nd !! d = Some n →
  onerep (alter (del_node_done newst) d (del_spliced nd n)) (del_one n o) (l1 ++ l2).
Proof.
  intros Hone Hn. destruct (onerep_prev _ _ _ _ _ _ Hone Hn) as (Hp0 & Hp & Hn0 & Hnin & Hpin).
  destruct Hone as (Hs & Ht & Hnr).
  pose proof (hseg_nodup _ _ _ _ Hs) as (_ & Hdis & [Hd2 _]%NoDup_cons)%NoDup_app.
  pose proof (hseg_del lslot_of lslot_of_slot _ _ _ _ _ _ _ Hs Hn eq_refl) as Hdel.
  split_and!; simpl.
  - eapply hseg_frame with (del_spliced nd n).
    { intros x Hx. unfold links. rewrite lookup_alter_ne; [done |]. intros <-.
      rewrite elem_of_app in Hx. destruct Hx as [Hx |]; [| done]. by apply (Hdis d Hx); left. }
    replace (if l_prev n =? 0 then l_next n else lo_head o)
      with (match l1 with [] => l_next n | _ => lo_head o end); [exact Hdel |].
    destruct (Z.eqb_spec (l_prev n) 0) as [E | E].
    + by apply Hp0 in E as ->.
    + destruct l1; [by destruct E; apply Hp0 | done].
  - rewrite Ht. unfold last_or_null in *. rewrite !last_app, last_cons.
    destruct (Z.eqb_spec (l_next n) 0) as [E | E].
    + apply Hn0 in E as ->. simpl. rewrite Hp. by destruct (last l1).
    + destruct l2 as [| y l2]; [by destruct E; apply Hn0 |]. rewrite last_cons.
      by destruct (last l2).
  - rewrite Hnr, w64_pred, !length_app. simpl. f_equal. lia.
Qed.

Lemma words_del nd n d newst :
  is_Some (nd !! d) →
  l_shard <$> alter (del_node_done newst) d (del_spliced nd n) = <[d := newst]> (l_shard <$> nd).
Proof.
  intros [m Hm]. assert (l_shard <$> del_spliced nd n = l_shard <$> nd) as E.
  { unfold del_spliced, splice_next, splice_slot.
    destruct (l_next n =? 0), (lslot_of (l_prev n)); by rewrite ?words_alter. }
  rewrite <- E. apply map_eq. intros x. destruct (decide (d = x)) as [<- | Hne].
  - rewrite lookup_insert_eq, lookup_fmap, lookup_alter_eq.
    apply (f_equal (λ g, g !! d)) in E. rewrite !lookup_fmap, Hm in E.
    by destruct (del_spliced nd n !! d).
  - by rewrite lookup_insert_ne, !lookup_fmap, lookup_alter_ne.
Qed.

Lemma refs_del nd n d newst :
  l_referenced <$> alter (del_node_done newst) d (del_spliced nd n) = l_referenced <$> nd.
Proof.
  rewrite refs_alter by done. unfold del_spliced, splice_next, splice_slot.
  destruct (l_next n =? 0), (lslot_of (l_prev n)); by rewrite ?refs_alter.
Qed.

Lemma lru_del_locked_run s L i d newst o n :
  llists s L → ls_one s !! i = Some o → d ∈ L i → ls_node s !! d = Some n →
  lru_del_locked i d newst s =
    Ok (tt, {| ls_one := alter (del_one n) i (ls_one s);
               ls_node := alter (del_node_done newst) d (del_spliced (ls_node s) n) |}).
Proof.
  intros Hl Ho Hd Hn. pose proof (ll_one s L Hl i o Ho) as Hone.
  pose proof Hd as (l1 & l2 & HL)%list_elem_of_split. rewrite HL in Hone.
  destruct (onerep_prev _ _ _ _ _ _ Hone Hn) as (Hp0 & Hp & Hn0 & Hnin & Hpin).
  assert (∀ x, x ∈ l1 ∨ x ∈ l2 → is_Some (ls_node s !! x)) as Hdom.
  { intros x Hx. apply (llists_dom s L i x Hl). rewrite HL, elem_of_app, elem_of_cons. tauto. }
  set (nd1 := splice_slot lslot_of (l_prev n) (l_next n) (ls_node s)).
  assert (∀ x, is_Some (ls_node s !! x) → is_Some (nd1 !! x)) as Hd1.
  { intros x Hx. unfold nd1, splice_slot. destruct (lslot_of _); by rewrite ?lookup_alter_is_Some. }
  assert (∀ x, is_Some (ls_node s !! x) → is_Some (del_spliced (ls_node s) n !! x)) as Hd2.
  { intros x Hx. unfold del_spliced, splice_next. fold nd1.
    destruct (l_next n =? 0); rewrite ?lookup_alter_is_Some; by apply Hd1. }
  unfold lru_del_locked, st_bind, st_lookup. rewrite Hn.
  set (o1 := if l_prev n =? 0 then alter (set_lo_head (l_next n)) i (ls_one s) else ls_one s).
  assert ((if negb (l_prev n =? 0) then lnode_store (l_prev n) (set_lnext (l_next n))
           else one_store i (set_lo_head (l_next n))) s
          = Ok (tt, {| ls_one := o1; ls_node := nd1 |})) as ->.
  { unfold o1, nd1, splice_slot, lslot_of. destruct (Z.eqb_spec (l_prev n) 0) as [E | E]; simpl.
    - by erewrite one_store_ok.
    - destruct (Hdom (l_prev n)) as [? ?]; [left; auto |]. by erewrite lnode_store_ok. }
  assert (is_Some (o1 !! i)) as [o1i Ho1].
  { unfold o1. destruct (l_prev n =? 0); rewrite ?list_lookup_alter_eq, Ho; eauto. }
  set (o2 := if l_next n =? 0 then alter (set_lo_tail (l_prev n)) i o1 else o1).
  assert ((if negb (l_next n =? 0) then lnode_store (l_next n) (set_lprev (l_prev n))
           else one_store i (set_lo_tail (l_prev n))) {| ls_one := o1; ls_node := nd1 |}
          = Ok (tt, {| ls_one := o2; ls_node := del_spliced (ls_node s) n |})) as ->.
  { unfold o2, del_spliced, splice_next. fold nd1.
    destruct (Z.eqb_spec (l_next n) 0) as [E | E]; simpl.
    - by erewrite one_store_ok.
    - destruct (Hd1 (l_next n)) as [? ?]; [apply Hdom; auto |]. by erewrite lnode_store_ok. }
  destruct (Hd2 d) as [m Hm]; [by eexists |].
  erewrite lnode_store_ok by done. simpl.
  erewrite lnode_store_ok by (simpl; by rewrite lookup_alter_eq, Hm). simpl.
  erewrite lnode_store_ok by (simpl; by rewrite !lookup_alter_eq, Hm). simpl.
  assert (is_Some (o2 !! i)) as [o2i Ho2].
  { unfold o2. destruct (l_next n =? 0); rewrite ?list_lookup_alter_eq, Ho1; eauto. }
  erewrite one_store_ok by done. do 3 f_equal; simpl.
  - unfold o2, o1. destruct (l_next n =? 0) eqn:E1, (l_prev n =? 0) eqn:E2;
      rewrite ?list_alter_alter_eq; apply list_alter_ext; try done;
      intros x _; unfold compose, del_one; by rewrite ?E1, ?E2.
  - rewrite !alter_alter_eq. apply alter_ext. intros x _. done.
Qed.

Lemma wp_lru_del_locked s L i d newst :
  llists s L → d ∈ L i →
  wp (lru_del_locked i d newst) (λ _ s', ∃ L',
    llists s' L' ∧ (∀ j x, x ∈ L' j ↔ x ∈ L j ∧ x ≠ d) ∧
    words s' = <[d := newst]> (words s) ∧ refs s' = refs s ∧ locks s' = locks s) s.
Proof.
  intros Hl Hd. destruct (llists_dom s L i d Hl Hd) as ([n Hn] & Hi & _).
  destruct (llists_lookup s L i Hl Hi) as (o & Ho & Hone).
  eapply wp_run; [by eapply lru_del_locked_run |].
  apply list_elem_of_split in Hd as (l1 & l2 & HL).
  rewrite HL in Hone. pose proof (onerep_del _ _ _ _ _ _ newst Hone Hn) as Hnew.
  destruct (onerep_prev _ _ _ _ _ _ Hone Hn) as (_ & _ & _ & Hnin & Hpin).
  pose proof (hseg_nodup _ _ _ _ (proj1 Hone)) as (_ & Hdis & [Hd2 _]%NoDup_cons)%NoDup_app.
  assert (∀ x, x ∈ l1 ∨ x = d ∨ x ∈ l2 ↔ x ∈ L i) as HLi.
  { intros x. by rewrite HL, elem_of_app, elem_of_cons. }
  assert (∀ j x, j ≠ i → x ∈ L j → (x ∉ l1) ∧ x ≠ d ∧ (x ∉ l2)) as Hother.
  { intros j x Hj Hx. assert (x ∉ L i) as Hxi; [| rewrite <- HLi in Hxi; tauto].
    intros Hxi. apply Hj. eapply (ll_disj s L Hl); eauto. }
  exists (<[i := l1 ++ l2]> L). split_and!.
  - eapply (llists_update s _ L i _ (del_one n o)); simpl; try done.
    + by rewrite list_lookup_alter_eq, Ho.
    + apply length_alter.
    + intros j Hj. by rewrite list_lookup_alter_ne.
    + intros j x Hj Hx. destruct (Hother j x Hj Hx) as (H1 & H2 & H3).
      destruct (llists_dom s L j x Hl Hx) as (_ & _ & H0).
      unfold links. rewrite lookup_alter_ne by congruence. fold (links (del_spliced (ls_node s) n) x).
      unfold del_spliced. rewrite links_splice_next.
      * unfold splice_slot, lslot_of. destruct (Z.eqb_spec (l_prev n) 0) as [| E]; [done |].
        unfold links. rewrite lookup_alter_ne; [done |]. intros <-. auto.
      * intros ->. apply H3, Hnin. done.
    + intros j x Hj Hx Hx'. apply Hj. eapply (ll_disj s L Hl); [exact Hx' |].
      apply HLi. rewrite elem_of_app in Hx. tauto.
  - intros j x. destruct (decide (i = j)) as [<- |];
      rewrite ?fn_lookup_insert, ?fn_lookup_insert_ne by done.
    + rewrite <- HLi, elem_of_app. split; [| tauto]. intros Hx. split; [tauto |].
      intros ->. destruct Hx as [Hx |]; [| done]. by apply (Hdis d Hx); left.
    + split; [| tauto]. intros Hx. split; [done |]. apply (Hother j x); [done | done].
  - unfold words. simpl. apply words_del. by eexists.
  - apply refs_del.
  - unfold locks. simpl. by rewrite locks_alter.
Qed.

(** Taking and releasing a shard lock changes nothing but its word. *)
Lemma llists_lock s L i f :
  llists s L →
  (∀ o, lo_head (f o) = lo_head o ∧ lo_tail (f o) = lo_tail o ∧ lo_nr_items (f o) = lo_nr_items o) →
  llists {| ls_one := alter f i (ls_one s); ls_node := ls_node s |} L.
Proof.
  intros Hl Hf. eapply llists_ext; [exact Hl | simpl; apply length_alter | | done].
  simpl. intros j o'. rewrite list_lookup_alter. case_decide; [| eauto 10]. subst.
  intros (o & Ho & ->)%fmap_Some. exists o. destruct (Hf o) as (? & ? & ?). done.
Qed.

Lemma wp_lru_lock s L i :
  llists s L → all_unlocked s → (i < DC_LRU_NODES)%nat →
  wp (lru_lock i) (λ _ s', llists s' L ∧ ls_node s' = ls_node s ∧
    locks s' = <[i := 1]> (locks s)) s.
Proof.
  intros Hl Hu Hi. destruct (llists_lookup s L i Hl Hi) as (o & Ho & _).
  unfold lru_lock. wp_step. eapply wp_run; [by unfold one_load; rewrite Ho |].
  rewrite (unlocked_lookup s i o Hu Ho). simpl. eapply wp_run; [by eapply one_store_ok |].
  split_and!; [by apply llists_lock | done |]. unfold locks. simpl.
  apply list_eq. intros j. rewrite list_lookup_fmap, list_lookup_alter.
  case_decide as Hj; subst.
  - rewrite list_lookup_insert_eq by (rewrite length_fmap; by eapply lookup_lt_Some).
    by rewrite Ho.
  - by rewrite list_lookup_insert_ne, list_lookup_fmap.
Qed.

Lemma wp_lru_unlock s L i :
  llists s L → locks s = <[i := 1]> (replicate DC_LRU_NODES 0) → (i < DC_LRU_NODES)%nat →
  wp (lru_unlock i) (λ _ s', llists s' L ∧ ls_node s' = ls_node s ∧ all_unlocked s') s.
Proof.
  intros Hl Hu Hi. destruct (llists_lookup s L i Hl Hi) as (o & Ho & _).
  assert (lo_lock o = 1) as H1.
  { apply locks_lookup in Ho. rewrite Hu, list_lookup_insert_eq in Ho by (by rewrite length_replicate).
    by injection Ho. }
  unfold lru_unlock. eapply wp_run; [by eapply one_store_ok |].
  split_and!; [by apply llists_lock | done |]. unfold all_unlocked, locks in *. cbn [ls_one].
  apply list_eq. intros j. apply (f_equal (λ l, l !! j)) in Hu.
  rewrite list_lookup_fmap in Hu |- *. rewrite list_lookup_alter.
  case_decide as Hj; subst.
  - rewrite Ho. symmetry. transitivity (Some 0); [by apply lookup_replicate_2 |].
    cbv [fmap option_fmap option_map set_lo_lock lo_lock] in *. by rewrite H1.
  - by rewrite list_lookup_insert_ne in Hu.
Qed.

Lemma lru_nid_lt n : (lru_nid n < DC_LRU_NODES)%nat.
Proof.
  unfold lru_nid. destruct (Nat.ltb_spec n DC_LRU_NODES); [done |].
  apply Nat.mod_upper_bound. done.
Qed.

Lemma on_inj i j : DC_SEQ_LRU_ON i = DC_SEQ_LRU_ON j → i = j.
Proof. unfold DC_SEQ_LRU_ON. lia. Qed.

Lemma is_on_spec i : (i < DC_LRU_NODES)%nat → DC_SEQ_LRU_IS_ON (DC_SEQ_LRU_ON i) = true.
Proof.
  unfold DC_SEQ_LRU_IS_ON, DC_SEQ_LRU_ON, DC_SEQ_LRU_OFF. intros Hi.
  apply andb_true_iff. split; [| apply Z.leb_le; lia]. apply negb_true_iff, Z.eqb_neq. lia.
Qed.

Lemma is_on_inv w : 0 ≤ w → DC_SEQ_LRU_IS_ON w = true → ∃ i, w = DC_SEQ_LRU_ON i ∧ (i < DC_LRU_NODES)%nat.
Proof.
  unfold DC_SEQ_LRU_IS_ON, DC_SEQ_LRU_ON, DC_SEQ_LRU_OFF. intros H0 [H1 H2]%andb_true_iff.
  apply negb_true_iff, Z.eqb_neq in H1. apply Z.leb_le in H2.
  exists (Z.to_nat (w - 1)). lia.
Qed.

(** A dentry whose word does not say ON is on no list. *)
Lemma lrep_off s L d w :
  lrep s L → words s !! d = Some w → (∀ i, (i < DC_LRU_NODES)%nat → w ≠ DC_SEQ_LRU_ON i) →
  ∀ j, d ∉ L j.
Proof. intros [_ Hw] Hd Hoff j [E Hj]%Hw. rewrite Hd in E. injection E as E. by eapply Hoff. Qed.

(** Linking [d] on list [i] keeps lists and words in agreement when its word
    becomes ON(i). *)
Lemma lrep_linked s s' L i d w :
  lrep s L → (i < DC_LRU_NODES)%nat → words s !! d = Some w → (∀ j, d ∉ L j) →
  llists s' (<[i := L i ++ [d]]> L) → words s' = <[d := DC_SEQ_LRU_ON i]> (words s) →
  lrep s' (<[i := L i ++ [d]]> L).
Proof.
  intros [Hl Hw] Hi Hd Hfresh Hl' Hw'. split; [done |]. intros j x. rewrite Hw'.
  destruct (decide (d = x)) as [<- | Hx].
  - rewrite lookup_insert_eq. destruct (decide (i = j)) as [<- |].
    + rewrite fn_lookup_insert, elem_of_app, list_elem_of_singleton. tauto.
    + rewrite fn_lookup_insert_ne by done. split; [intros H; by apply Hfresh in H |].
      intros [[= E] _]. exfalso. by apply on_inj in E.
  - rewrite lookup_insert_ne by done. rewrite <- Hw. destruct (decide (i = j)) as [<- |].
    + rewrite fn_lookup_insert, elem_of_app, list_elem_of_singleton.
      split; [intros [? | ?]; [done | congruence] | tauto].
    + by rewrite fn_lookup_insert_ne.
Qed.

(** Unlinking [d] keeps them in agreement when its word stops saying ON. *)
Lemma lrep_unlinked s s' L L' d newst :
  lrep s L → llists s' L' → (∀ j x, x ∈ L' j ↔ x ∈ L j ∧ x ≠ d) →
  words s' = <[d := newst]> (words s) →
  (∀ i, (i < DC_LRU_NODES)%nat → newst ≠ DC_SEQ_LRU_ON i) →
  lrep s' L'.
Proof.
  intros [Hl Hw] Hl' Hmem Hw' Hoff. split; [done |]. intros j x. rewrite Hmem, Hw, Hw'.
  destruct (decide (d = x)) as [<- | Hx].
  - rewrite lookup_insert_eq. split; [tauto |]. intros [[= E] Hj]. by destruct (Hoff j Hj).
  - rewrite lookup_insert_ne by done. split; [tauto | intros ?; by split].
Qed.

Definition lru_ok (s : lru_state) : Prop := ∃ L, lrep s L.

(** [lru_add_new]: a dentry that is on no list is put at the tail of the caller's
    node's list, and its word says so. *)
Lemma wp_lru_add_new s cur d w :
  lru_ok s → all_unlocked s → words s !! d = Some w →
  (∀ i, (i < DC_LRU_NODES)%nat → w ≠ DC_SEQ_LRU_ON i) → d ≠ 0 →
  wp (lru_add_new cur d) (λ _ s',
    lru_ok s' ∧ all_unlocked s' ∧ words s' = <[d := DC_SEQ_LRU_ON (lru_nid cur)]> (words s)) s.
Proof.
  intros [L HL] Hu Hd Hoff H0. pose proof (lrep_off s L d w HL Hd Hoff) as Hfresh.
  pose proof (lru_nid_lt cur) as Hi. set (i := lru_nid cur) in *.
  unfold lru_add_new. fold i. cbn zeta. wp_step.
  wp_use wp_lru_lock; [apply HL | done | done |]. intros _ s1 (Hl1 & Hn1 & Hk1).
  wp_step. wp_use wp_lru_link_tail_locked; [done | done | exact Hfresh | done | |].
  { apply words_lookup_inv in Hd as (n & ? & _). exists n. congruence. }
  intros _ s2 (Hl2 & Hw2 & _ & Hk2). rewrite (words_node s s1) in Hw2 by done.
  destruct (words_lookup_inv s2 d w) as (n & Hn & _); [congruence |].
  wp_step. eapply wp_run; [by eapply lnode_store_ok |].
  set (s3 := {| ls_one := ls_one s2; ls_node := alter _ d (ls_node s2) |}).
  assert (llists s3 (<[i := L i ++ [d]]> L)) as Hl3.
  { eapply llists_ext; [eassumption | done | simpl; eauto | ]. simpl. intros. by apply links_lru_alter. }
  assert (words s3 = <[d := DC_SEQ_LRU_ON i]> (words s)) as Hw3.
  { rewrite <- Hw2. by eapply words_set_shard. }
  wp_use wp_lru_unlock; [exact Hl3 | | done |].
  { change (locks s2 = <[i:=1]> (replicate DC_LRU_NODES 0)). by rewrite Hk2, Hk1, Hu. }
  intros _ s4 (Hl4 & Hn4 & Hu4). assert (words s4 = words s3) as Hw4 by (by apply words_node).
  split_and!; [| done | congruence]. eexists. eapply (lrep_linked s s4 L i d w); eauto. congruence.
Qed.

(** [lru_retain]: a listed dentry is only marked referenced; one that is off is
    linked again; an isolated or dead one is left alone. *)
Lemma wp_lru_retain s cur d w :
  lru_ok s → all_unlocked s → words s !! d = Some w → 0 ≤ w → d ≠ 0 →
  wp (lru_retain cur d) (λ _ s',
    lru_ok s' ∧ all_unlocked s' ∧
    words s' = if w =? DC_SEQ_LRU_OFF then <[d := DC_SEQ_LRU_ON (lru_nid cur)]> (words s)
               else words s) s.
Proof.
  intros [L HL] Hu Hd Hw0 H0. destruct (words_lookup_inv s d w Hd) as (n & Hn & Hs).
  unfold lru_retain. wp_step. eapply wp_lookup; [done |]. cbn zeta. rewrite Hs.
  destruct (DC_SEQ_LRU_IS_ON w) eqn:Hon.
  - destruct (Z.eqb_spec w DC_SEQ_LRU_OFF) as [-> |]; [done |].
    apply wp_when; intros _; [| by split_and!; [eexists | |]].
    eapply wp_run; [by eapply lnode_store_ok |].
    assert (words {| ls_one := ls_one s; ls_node := alter (set_lref true) d (ls_node s) |}
            = words s) as E by (by apply words_alter).
    split_and!; [| done | done]. exists L. split.
    + eapply llists_ext; [apply HL | done | simpl; eauto |]. simpl. intros. by apply links_lru_alter.
    + rewrite E. apply HL.
  - apply wp_when; intros E; [apply Z.eqb_eq in E as -> | rewrite E; by split_and!; [eexists | |]].
    rewrite Z.eqb_refl. pose proof (lru_nid_lt cur) as Hi.
    assert (∀ j, d ∉ L j) as Hfresh.
    { eapply lrep_off; eauto. unfold DC_SEQ_LRU_OFF, DC_SEQ_LRU_ON. lia. }
    unfold lru_add_claim, shard_cmpxchg. cbn zeta. set (i := lru_nid cur) in *.
    wp_step. wp_use wp_lru_lock; [apply HL | done | done |]. intros _ s1 (Hl1 & Hn1 & Hk1).
    assert (ls_node s1 !! d = Some n) as Hd1 by congruence.
    wp_step. wp_step. eapply wp_lookup; [done |]. rewrite Hs, Z.eqb_refl. wp_step.
    unfold when at 1. eapply wp_run; [by eapply lnode_store_ok |]. wp_step. rewrite Z.eqb_refl.
    set (s2 := {| ls_one := ls_one s1; ls_node := alter _ d (ls_node s1) |}).
    assert (words s2 = <[d := DC_SEQ_LRU_ON i]> (words s)) as Hw2.
    { rewrite <- (words_node s s1) by done. by eapply words_set_shard. }
    wp_step. unfold when. wp_use (wp_lru_link_tail_locked s2 L i d); [| done | done | done | |].
    + eapply llists_ext; [exact Hl1 | done | simpl; eauto |]. simpl. intros. by apply links_lru_alter.
    + unfold s2. simpl. rewrite lookup_alter_is_Some. by eexists.
    + intros _ s3 (Hl3 & Hw3 & _ & Hk3). wp_use wp_lru_unlock; [exact Hl3 | | done |].
      { rewrite Hk3. change (locks s1 = <[i:=1]> (replicate DC_LRU_NODES 0)). by rewrite Hk1, Hu. }
      intros _ s4 (Hl4 & Hn4 & Hu4).
      assert (words s4 = words s3) as Hw4 by (by apply words_node).
      split_and!; [| done | congruence]. eexists.
      eapply (lrep_linked s s4 L i d); eauto. congruence.
Qed.

(** [lru_del]: whatever its state, a dentry being killed ends DEAD, on no list,
    in one round of the loop. *)
Lemma wp_lru_del s d w :
  lru_ok s → all_unlocked s → words s !! d = Some w → 0 ≤ w →
  wp (lru_del d) (λ _ s',
    lru_ok s' ∧ all_unlocked s' ∧ words s' = <[d := DC_SEQ_LRU_DEAD]> (words s)) s.
Proof.
  intros [L HL] Hu Hd Hw0. destruct (words_lookup_inv s d w Hd) as (n & Hn & Hs).
  assert (∀ i, (i < DC_LRU_NODES)%nat → DC_SEQ_LRU_DEAD ≠ DC_SEQ_LRU_ON i) as Hdead.
  { unfold DC_SEQ_LRU_DEAD, DC_SEQ_LRU_ON, DC_LRU_NODES. lia. }
  unfold lru_del. wp_step. apply wp_iter_first. unfold lru_del_round. wp_step.
  eapply wp_lookup; [done |]. cbn zeta. rewrite Hs.
  destruct (Z.eqb_spec w DC_SEQ_LRU_DEAD) as [-> | Hnd].
  { wp_step. exists tt. split; [done |]. wp_step. split_and!; [by eexists | done |].
    symmetry. by apply insert_id. }
  destruct (DC_SEQ_LRU_IS_ON w) eqn:Hon; simpl.
  - destruct (is_on_inv w Hw0 Hon) as (i & -> & Hi).
    replace (Z.to_nat (DC_SEQ_LRU_ON i - 1)) with i by (unfold DC_SEQ_LRU_ON; lia).
    assert (d ∈ L i) as HdL by (by apply HL).
    wp_step. wp_use wp_lru_lock; [apply HL | done | done |]. intros _ s1 (Hl1 & Hn1 & Hk1).
    wp_step. eapply wp_lookup; [by rewrite Hn1 |]. rewrite Hs, Z.eqb_refl. simpl.
    wp_step. wp_use wp_lru_del_locked; [exact Hl1 | exact HdL |].
    intros _ s2 (L' & Hl2 & HL' & Hw2 & _ & Hk2). wp_step.
    wp_use wp_lru_unlock; [exact Hl2 | | done |].
    { by rewrite Hk2, Hk1, Hu. }
    intros _ s3 (Hl3 & Hn3 & Hu3). wp_step. exists tt. split; [done |]. wp_step.
    assert (words s3 = <[d := DC_SEQ_LRU_DEAD]> (words s)) as Hw3.
    { rewrite (words_node s2 s3), Hw2, (words_node s s1) by done. done. }
    split_and!; [| done | done]. exists L'. by eapply (lrep_unlinked s s3).
  - unfold shard_cmpxchg. wp_step. wp_step. eapply wp_lookup; [done |]. rewrite Hs, Z.eqb_refl.
    wp_step. unfold when. eapply wp_run; [by eapply lnode_store_ok |]. wp_step. wp_step.
    rewrite Z.eqb_refl. exists tt. split; [done |]. wp_step.
    set (s2 := {| ls_one := ls_one s; ls_node := alter _ d (ls_node s) |}).
    assert (words s2 = <[d := DC_SEQ_LRU_DEAD]> (words s)) as Hw2 by (by eapply words_set_shard).
    split_and!; [| done | done]. exists L. eapply (lrep_unlinked s s2 L L d); eauto.
    + eapply llists_ext; [apply HL | done | simpl; eauto |]. simpl. intros. by apply links_lru_alter.
    + intros j x. split; [| tauto]. intros Hx. split; [done |]. intros ->.
      destruct HL as [_ HL]. apply HL in Hx as [E Hj].
      rewrite Hd in E. injection E as E. by rewrite E, is_on_spec in Hon.
Qed.

(** Allocation (a zeroed node is off) and release of a node that is on no list. *)
Lemma lru_ok_alloc s d :
  lru_ok s → ls_node s !! d = None →
  lru_ok {| ls_one := ls_one s; ls_node := <[d := lnode0]> (ls_node s) |}.
Proof.
  intros [L [Hl Hw]] Hd. exists L. split.
  - eapply llists_ext; [exact Hl | done | simpl; eauto |]. simpl. intros i x Hx. unfold links.
    rewrite lookup_insert_ne; [done |]. intros <-.
    destruct (llists_dom s L i d Hl Hx) as ([? ?] & _). congruence.
  - intros i x. rewrite Hw. unfold words. cbn [ls_node]. rewrite fmap_insert.
    destruct (decide (d = x)) as [<- |]; [| by rewrite lookup_insert_ne].
    rewrite lookup_insert_eq, lookup_fmap, Hd. unfold DC_SEQ_LRU_ON, lnode0, DC_SEQ_LRU_OFF.
    simpl. split; intros [[= ?] ?]; lia.
Qed.

Lemma lru_ok_free s d w :
  lru_ok s → words s !! d = Some w → (∀ i, (i < DC_LRU_NODES)%nat → w ≠ DC_SEQ_LRU_ON i) →
  lru_ok {| ls_one := ls_one s; ls_node := delete d (ls_node s) |}.
Proof.
  intros [L HL] Hd Hoff. pose proof (lrep_off s L d w HL Hd Hoff) as Hfresh.
  destruct HL as [Hl Hw]. exists L. split.
  - eapply llists_ext; [exact Hl | done | simpl; eauto |]. simpl. intros i x Hx. unfold links.
    rewrite lookup_delete_ne; [done |]. intros <-. by eapply Hfresh.
  - intros i x. rewrite Hw. unfold words. cbn [ls_node]. rewrite fmap_delete.
    destruct (decide (d = x)) as [<- |]; [| by rewrite lookup_delete_ne].
    rewrite lookup_delete_eq. unfold words in Hd. rewrite Hd.
    split; [intros [[= E] Hi] | by intros [? _]]. by destruct (Hoff i Hi).
Qed.
