(* ===== verification/Seqcount.v ===== *)
(** seqcount.h: the sequence counter, the FIFO ticket lock and the seqlock made
    of the two, as operations on one counter, lock or seqlock that runs alone.
    A reader that would spin on an odd counter, and a locker that would wait
    for a ticket nobody serves, fault with [Deadlock]. *)

From S2P Require Import Prelude.

(** ** seqcount_t: one unsigned long *)

Definition seqcount_init : Z := 0.

Definition read_seqcount_begin : ST Z Z := λ s,
  if Z.land s 1 =? 0 then Ok (s, s) else Err Deadlock.

Definition read_seqcount_retry (start : Z) : ST Z bool := λ s,
  Ok (negb (s =? start), s).

Definition raw_seqcount_begin : ST Z Z := λ s, Ok (Z.land s (Z.lnot 1), s).

Definition write_seqcount_begin : ST Z unit := st_mod (λ s, w64 (s + 1)).
Definition write_seqcount_end : ST Z unit := st_mod (λ s, w64 (s + 1)).

(** ** dc_ticketlock_t *)

Record dc_ticketlock_t := Ticket { t_next : Z; t_owner : Z }.

Definition ticket_lock_init : dc_ticketlock_t := {| t_next := 0; t_owner := 0 |}.

Definition ticket_lock : ST dc_ticketlock_t unit := λ l,
  let me := t_next l in
  if t_owner l =? me
  then Ok (tt, {| t_next := w32 (t_next l + 1); t_owner := t_owner l |})
  else Err Deadlock.

Definition ticket_unlock : ST dc_ticketlock_t unit :=
  st_mod (λ l, {| t_next := t_next l; t_owner := w32 (t_owner l + 1) |}).

(** ** seqlock_t *)

Record seqlock_t := Seqlock { sl_seq : Z; sl_lock : dc_ticketlock_t }.

Definition on_seq {A} : ST Z A → ST seqlock_t A :=
  st_zoom sl_seq (λ q s, {| sl_seq := q; sl_lock := sl_lock s |}).
Definition on_ticket {A} : ST dc_ticketlock_t A → ST seqlock_t A :=
  st_zoom sl_lock (λ l s, {| sl_seq := sl_seq s; sl_lock := l |}).

Definition seqlock_init : seqlock_t :=
  {| sl_seq := seqcount_init; sl_lock := ticket_lock_init |}.

Definition read_seqbegin : ST seqlock_t Z := on_seq read_seqcount_begin.
Definition read_seqretry (start : Z) : ST seqlock_t bool := on_seq (read_seqcount_retry start).

Definition write_seqlock : ST seqlock_t unit :=
  on_ticket ticket_lock ;;; on_seq write_seqcount_begin.
Definition write_sequnlock : ST seqlock_t unit :=
  on_seq write_seqcount_end ;;; on_ticket ticket_unlock.

Definition read_seqlock_excl : ST seqlock_t unit := on_ticket ticket_lock.
Definition read_sequnlock_excl : ST seqlock_t unit := on_ticket ticket_unlock.

(** [*seq] is passed in and handed back. *)
Definition read_seqbegin_or_lock (seq : Z) : ST seqlock_t Z :=
  if Z.land seq 1 =? 0 then read_seqbegin
  else read_seqlock_excl ;;; st_ret seq.

Definition need_seqretry (seq : Z) : ST seqlock_t bool :=
  if Z.land seq 1 =? 0 then read_seqretry seq else st_ret false.

Definition done_seqretry (seq : Z) : ST seqlock_t unit :=
  when (negb (Z.land seq 1 =? 0)) read_sequnlock_excl.

(** ** The quiet state: no write section open, nobody holds the lock *)

(** A counter between write sections: an even machine word. *)
Definition seq_even (s : Z) : Prop := s mod 2 = 0 ∧ 0 ≤ s < 2 ^ 64.

#[export] Instance seq_even_dec s : Decision (seq_even s).
Proof. unfold seq_even. apply _. Defined.

(** The counter after one whole write section. *)
Definition bump (s : Z) : Z := w64 (w64 (s + 1) + 1).

Record sl_quiet (sl : seqlock_t) : Prop := {
  slq_even : seq_even (sl_seq sl);
  slq_free : t_owner (sl_lock sl) = t_next (sl_lock sl);
}.

Lemma seq_even_0 : seq_even 0.
Proof. done. Qed.

Lemma bump_even s : seq_even s → seq_even (bump s).
Proof.
  unfold seq_even, bump, w64. intros [H1 H2]. split; [| apply Z.mod_pos_bound; lia].
  Z.to_euclidean_division_equations. lia.
Qed.

(** A reader that sampled the counter before the section sees it changed. *)
Lemma bump_ne s : seq_even s → bump s ≠ s.
Proof.
  unfold seq_even, bump, w64. intros [_ ?] E. Z.to_euclidean_division_equations. lia.
Qed.

(** Inside the section the counter is odd, so no even sample equals it. *)
Lemma open_odd s : seq_even s → w64 (s + 1) mod 2 = 1.
Proof. unfold seq_even, w64. intros [? ?]. Z.to_euclidean_division_equations. lia. Qed.

Lemma sl_quiet_init : sl_quiet seqlock_init.
Proof. by split. Qed.

Lemma wp_read_seqcount_begin s : seq_even s → wp read_seqcount_begin (λ r s', r = s ∧ s' = s) s.
Proof. intros [H _]. unfold wp, read_seqcount_begin. by rewrite land_1_mod, H. Qed.

Lemma wp_raw_seqcount_begin s : seq_even s → wp raw_seqcount_begin (λ r s', r = s ∧ s' = s) s.
Proof. intros [H _]. unfold wp, raw_seqcount_begin. rewrite land_lnot_1. split; [lia | done]. Qed.

Lemma wp_read_seqcount_retry s : wp (read_seqcount_retry s) (λ r s', r = false ∧ s' = s) s.
Proof. unfold wp, read_seqcount_retry. by rewrite Z.eqb_refl. Qed.

Lemma wp_read_seqbegin sl : sl_quiet sl → wp read_seqbegin (λ r sl', r = sl_seq sl ∧ sl' = sl) sl.
Proof.
  intros Hq. unfold read_seqbegin, on_seq. wp_step. wp_use wp_read_seqcount_begin; [apply Hq |].
  intros ? ? [-> ->]. by destruct sl.
Qed.

Lemma wp_read_seqretry sl : wp (read_seqretry (sl_seq sl)) (λ r sl', r = false ∧ sl' = sl) sl.
Proof.
  unfold read_seqretry, on_seq. wp_step. wp_use wp_read_seqcount_retry.
  intros ? ? [-> ->]. by destruct sl.
Qed.

(** A whole write section: the lock is taken and given back, and the counter
    has moved on by two. *)
Definition sl_written (sl : seqlock_t) : seqlock_t :=
  {| sl_seq := w64 (sl_seq sl + 1);
     sl_lock := {| t_next := w32 (t_next (sl_lock sl) + 1); t_owner := t_owner (sl_lock sl) |} |}.

Lemma wp_write_seqlock sl : sl_quiet sl → wp write_seqlock (λ _ sl', sl' = sl_written sl) sl.
Proof.
  intros [_ Hf]. unfold wp, write_seqlock, on_ticket, on_seq, st_bind, st_zoom, ticket_lock.
  by rewrite (proj2 (Z.eqb_eq _ _) Hf).
Qed.

Lemma wp_write_sequnlock sl :
  sl_quiet sl →
  wp write_sequnlock (λ _ sl', sl_quiet sl' ∧ sl_seq sl' = bump (sl_seq sl)) (sl_written sl).
Proof.
  intros [He Hf]. unfold wp, write_sequnlock, on_ticket, on_seq. simpl.
  split; [| done]. split; simpl; [by apply (bump_even (sl_seq sl)) | by rewrite Hf].
Qed.

(** The lockless pass of the "lockless first, locked retry" reader. *)
Lemma wp_read_seqbegin_or_lock_0 sl :
  sl_quiet sl → wp (read_seqbegin_or_lock 0) (λ r sl', r = sl_seq sl ∧ sl' = sl) sl.
Proof. apply wp_read_seqbegin. Qed.

Lemma wp_need_seqretry sl :
  sl_quiet sl → wp (need_seqretry (sl_seq sl)) (λ r sl', r = false ∧ sl' = sl) sl.
Proof.
  intros [[He _] _]. unfold need_seqretry. rewrite land_1_mod, He. apply wp_read_seqretry.
Qed.

Lemma wp_done_seqretry sl :
  sl_quiet sl → wp (done_seqretry (sl_seq sl)) (λ _ sl', sl' = sl) sl.
Proof. intros [[He _] _]. unfold done_seqretry. by rewrite land_1_mod, He. Qed.
