(* ===== verification/World.v ===== *)
(** The state of one seqlock-engine dentry cache (dcache_seqlock.c) and the
    primitive actions on it: the fields of [struct dentry] and [struct dcache],
    the allocator, RCU read sections and deferred frees, directory rwsems.

    A [struct dentry] is kept as its field groups, one map from addresses to
    each group; the six maps always have the same domain, the allocated
    dentries. *)

From S2P Require Import Prelude Qstr HList HashTab Children Lru Seqcount.

(** errno.h *)
Definition ENOENT : Z := 2.
Definition ENOMEM : Z := 12.
Definition EEXIST : Z := 17.
Definition ENOTDIR : Z := 20.
Definition EISDIR : Z := 21.
Definition EINVAL : Z := 22.
Definition ENAMETOOLONG : Z := 36.
Definition ENOTEMPTY : Z := 39.

(** The identity fields of [struct dentry]. *)
Record core := Core {
  d_name : qstr;
  d_parent : Z;                 (* parent address | unhashed and negative tags *)
  d_id : Z;
  d_isdir : bool;
}.

Record world := World {
  w_mask : Z;                   (* dc->mask *)
  w_root : Z;                   (* dc->root *)
  w_node : nat;                 (* the NUMA node this thread runs on *)
  w_core : gmap Z core;
  w_seq : gmap Z Z;             (* d_seq *)
  w_lock : gmap Z Z;            (* d_lock: -1 a writer, n >= 0 readers *)
  w_hash : htab;                (* dc->buckets and every d_hash *)
  w_kids : gmap Z dc_kid;       (* d_children, d_sib, d_sib_pprev *)
  w_lru : lru_state;            (* dc->s_dentry_lru and every d_lru *)
  w_rename : seqlock_t;         (* dc->rename_lock *)
  w_mutex : bool;               (* dc->vfs_rename_mutex is held *)
  w_rcu : list Z;               (* call_rcu'd, not yet freed *)
  w_nest : nat;                 (* depth of rcu_read_lock *)
  w_retries : Z;                (* walk_retries_tls *)
}.

Definition set_core x w := World (w_mask w) (w_root w) (w_node w) x (w_seq w) (w_lock w)
  (w_hash w) (w_kids w) (w_lru w) (w_rename w) (w_mutex w) (w_rcu w) (w_nest w) (w_retries w).
Definition set_seq x w := World (w_mask w) (w_root w) (w_node w) (w_core w) x (w_lock w)
  (w_hash w) (w_kids w) (w_lru w) (w_rename w) (w_mutex w) (w_rcu w) (w_nest w) (w_retries w).
Definition set_lock x w := World (w_mask w) (w_root w) (w_node w) (w_core w) (w_seq w) x
  (w_hash w) (w_kids w) (w_lru w) (w_rename w) (w_mutex w) (w_rcu w) (w_nest w) (w_retries w).
Definition set_hash x w := World (w_mask w) (w_root w) (w_node w) (w_core w) (w_seq w) (w_lock w)
  x (w_kids w) (w_lru w) (w_rename w) (w_mutex w) (w_rcu w) (w_nest w) (w_retries w).
Definition set_kids x w := World (w_mask w) (w_root w) (w_node w) (w_core w) (w_seq w) (w_lock w)
  (w_hash w) x (w_lru w) (w_rename w) (w_mutex w) (w_rcu w) (w_nest w) (w_retries w).
Definition set_lru x w := World (w_mask w) (w_root w) (w_node w) (w_core w) (w_seq w) (w_lock w)
  (w_hash w) (w_kids w) x (w_rename w) (w_mutex w) (w_rcu w) (w_nest w) (w_retries w).
Definition set_rename x w := World (w_mask w) (w_root w) (w_node w) (w_core w) (w_seq w) (w_lock w)
  (w_hash w) (w_kids w) (w_lru w) x (w_mutex w) (w_rcu w) (w_nest w) (w_retries w).
Definition set_mutex x w := World (w_mask w) (w_root w) (w_node w) (w_core w) (w_seq w) (w_lock w)
  (w_hash w) (w_kids w) (w_lru w) (w_rename w) x (w_rcu w) (w_nest w) (w_retries w).
Definition set_rcu x w := World (w_mask w) (w_root w) (w_node w) (w_core w) (w_seq w) (w_lock w)
  (w_hash w) (w_kids w) (w_lru w) (w_rename w) (w_mutex w) x (w_nest w) (w_retries w).
Definition set_nest x w := World (w_mask w) (w_root w) (w_node w) (w_core w) (w_seq w) (w_lock w)
  (w_hash w) (w_kids w) (w_lru w) (w_rename w) (w_mutex w) (w_rcu w) x (w_retries w).
Definition set_retries x w := World (w_mask w) (w_root w) (w_node w) (w_core w) (w_seq w) (w_lock w)
  (w_hash w) (w_kids w) (w_lru w) (w_rename w) (w_mutex w) (w_rcu w) (w_nest w) x.

(** Compute the projections of an updated world. *)
Ltac wsimpl :=
  cbn [w_mask w_root w_node w_core w_seq w_lock w_hash w_kids w_lru w_rename w_mutex w_rcu
       w_nest w_retries set_core set_seq set_lock set_hash set_kids set_lru set_rename set_mutex
       set_rcu set_nest set_retries].
Lemma set_kids_kids m m' w : set_kids m (set_kids m' w) = set_kids m w.
Proof. reflexivity. Qed.

Tactic Notation "wsimpl" "in" "*" :=
  cbn [w_mask w_root w_node w_core w_seq w_lock w_hash w_kids w_lru w_rename w_mutex w_rcu
       w_nest w_retries set_core set_seq set_lock set_hash set_kids set_lru set_rename set_mutex
       set_rcu set_nest set_retries] in *.

Abbreviation M := (ST world).

Definition on_hash {A} : ST htab A → M A := st_zoom w_hash set_hash.
Definition on_kids {A} : ST (gmap Z dc_kid) A → M A := st_zoom w_kids set_kids.
Definition on_lru {A} : ST lru_state A → M A := st_zoom w_lru set_lru.
Definition on_rename {A} : ST seqlock_t A → M A := st_zoom w_rename set_rename.

(** Run code on the cell at address [a] of a map. *)
Definition st_cell {V A} (a : Z) (m : ST V A) : ST (gmap Z V) A := λ s,
  match s !! a with
  | Some v => match m v with Ok (r, v') => Ok (r, <[a := v']> s) | Err e => Err e end
  | None => Err BadPtr
  end.

(** [&d->d_seq] *)
Definition on_d_seq {A} (d : Z) (m : ST Z A) : M A := st_zoom w_seq set_seq (st_cell d m).

(** ** Tags in the low bits of d_parent *)

Definition DC_TAG_UNHASHED : Z := 1.
Definition DC_TAG_NEG : Z := 2.
Definition DC_TAG_MASK : Z := 3.

Definition dparent_of (c : core) : Z := Z.land (d_parent c) (Z.lnot DC_TAG_MASK).
Definition d_is_unhashed (c : core) : bool := negb (Z.land (d_parent c) DC_TAG_UNHASHED =? 0).
Definition d_is_positive (c : core) : bool := Z.land (d_parent c) DC_TAG_NEG =? 0.

Definition core_at (d : Z) : M core := st_lookup w_core d.

Definition core_store (d : Z) (f : core → core) : M unit := λ w,
  match w_core w !! d with
  | Some c => Ok (tt, set_core (<[d := f c]> (w_core w)) w)
  | None => Err BadPtr
  end.

Definition set_d_parent (z : Z) (c : core) : core :=
  {| d_name := d_name c; d_parent := z; d_id := d_id c; d_isdir := d_isdir c |}.
Definition set_d_name (q : qstr) (c : core) : core :=
  {| d_name := q; d_parent := d_parent c; d_id := d_id c; d_isdir := d_isdir c |}.
Definition set_d_id (z : Z) (c : core) : core :=
  {| d_name := d_name c; d_parent := d_parent c; d_id := z; d_isdir := d_isdir c |}.

(** DC_SET_UNHASHED *)
Definition DC_SET_UNHASHED (d : Z) : M unit :=
  core_store d (λ c, set_d_parent (Z.lor (d_parent c) DC_TAG_UNHASHED) c).

(** DC_FAST_ID: in the default layout a dentry's identity is its address. *)
Definition DC_FAST_ID (d : Z) : Z := d.

(** ** Hashing *)

Definition HASH_MUL1 : Z := 0x9e3779b97f4a7c15.
Definition HASH_MUL2 : Z := 0xff51afd7ed558ccd.

(** The index of the bucket of [(parent, name_hash)]. *)
Definition bucket_index (mask parent name_hash : Z) : Z :=
  let h := w64 (name_hash * HASH_MUL1) in
  let h := Z.lxor h (Z.shiftr parent 6) in
  let h := w64 (h * HASH_MUL2) in
  Z.land (Z.shiftr h 32) mask.

Definition bucket_no (mask parent name_hash : Z) : nat :=
  Z.to_nat (bucket_index mask parent name_hash).

Definition bucket_of (parent name_hash : Z) : M nat :=
  st_gets (λ w, bucket_no (w_mask w) parent name_hash).

(** ** RCU *)

Definition rcu_read_lock : M unit := st_mod (λ w, set_nest (S (w_nest w)) w).
Definition rcu_read_unlock : M unit := λ w,
  match w_nest w with
  | O => Err Aborted
  | S n => Ok (tt, set_nest n w)
  end.

Definition call_rcu (d : Z) : M unit := st_mod (λ w, set_rcu (w_rcu w ++ [d]) w).

(** [free(d)]: all the cells of the dentry go. *)
Definition dentry_free (d : Z) : M unit := λ w,
  match w_core w !! d with
  | None => Err BadPtr
  | Some _ => Ok (tt,
      set_core (delete d (w_core w)) (set_seq (delete d (w_seq w)) (set_lock (delete d (w_lock w))
      (set_hash {| ht_first := ht_first (w_hash w); ht_node := delete d (ht_node (w_hash w)) |}
      (set_kids (delete d (w_kids w))
      (set_lru {| ls_one := ls_one (w_lru w); ls_node := delete d (ls_node (w_lru w)) |} w))))))
  end.

(** [dentry_free_cb]: the rwsem's [dir_lock_destroy] does nothing, then [free]. *)
Definition dentry_free_cb (d : Z) : M unit := dentry_free d.

Fixpoint st_iter {S A} (f : A → ST S unit) (l : list A) : ST S unit :=
  match l with
  | [] => st_ret tt
  | a :: l' => f a ;;; st_iter f l'
  end.

(** A grace period: the callbacks queued so far run.  It cannot end while a read
    section is open. *)
Definition rcu_barrier : M unit :=
  let! w := st_get in
  if decide (w_nest w = 0)%nat then
    st_mod (set_rcu []) ;;; st_iter dentry_free_cb (w_rcu w)
  else st_fault Deadlock.

(** ** Directory rwsems *)

Definition on_d_lock {A} (d : Z) (m : ST Z A) : M A := st_zoom w_lock set_lock (st_cell d m).

Definition rw_wlock : ST Z unit := λ l, if l =? 0 then Ok (tt, -1) else Err Deadlock.
Definition rw_wunlock : ST Z unit := λ l, if l =? -1 then Ok (tt, 0) else Err Aborted.
Definition rw_rlock : ST Z unit := λ l, if 0 <=? l then Ok (tt, l + 1) else Err Deadlock.
Definition rw_runlock : ST Z unit := λ l, if 0 <? l then Ok (tt, l - 1) else Err Aborted.

Definition dir_wlock (d : Z) : M unit := on_d_lock d rw_wlock.
Definition dir_wunlock (d : Z) : M unit := on_d_lock d rw_wunlock.
Definition dir_rlock (d : Z) : M unit := on_d_lock d rw_rlock.
Definition dir_runlock (d : Z) : M unit := on_d_lock d rw_runlock.

Definition dirs_wlock2 (a b : Z) : M unit :=
  if a =? b then dir_wlock a
  else if a <? b then dir_wlock a ;;; dir_wlock b
  else dir_wlock b ;;; dir_wlock a.

Definition dirs_wunlock2 (a b : Z) : M unit :=
  dir_wunlock a ;;;
  when (negb (a =? b)) (dir_wunlock b).

(** [pthread_mutex_lock(&dc->vfs_rename_mutex)] and its unlock. *)
Definition mutex_lock : M unit := λ w,
  if w_mutex w then Err Deadlock else Ok (tt, set_mutex true w).
Definition mutex_unlock : M unit := λ w,
  if w_mutex w then Ok (tt, set_mutex false w) else Err Aborted.

(** ** Allocation

    [posix_memalign(&d, 64, sizeof ( *d))], given the addresses in use. *)
Class Memalign := posix_memalign : gset Z → option Z.

(** What POSIX promises of it: a block that is not in use, not NULL, aligned,
    and in the address space. *)
Class MemalignOk (A : Memalign) := {
  memalign_fresh : ∀ live d, posix_memalign live = Some d → d ∉ live;
  memalign_aligned : ∀ live d, posix_memalign live = Some d → aligned d;
  memalign_range : ∀ live d, posix_memalign live = Some d → 0 < d < 2 ^ 64;
}.

Definition hnode0 : dc_hnode := {| h_next := 0; h_pprev := HSlotNull |}.

(** The dentry's cells after [memset] and the stores of [dentry_alloc]. *)
Definition alloc_core (d : Z) (c : core) (w : world) : world :=
  set_core (<[d := c]> (w_core w)) (set_seq (<[d := seqcount_init]> (w_seq w))
  (set_lock (<[d := 0]> (w_lock w))
  (set_hash {| ht_first := ht_first (w_hash w); ht_node := <[d := hnode0]> (ht_node (w_hash w)) |}
  (set_kids (<[d := kid0]> (w_kids w))
  (set_lru {| ls_one := ls_one (w_lru w); ls_node := <[d := lnode0]> (ls_node (w_lru w)) |} w))))).

(** The new dentry, or 0 (NULL). *)
Definition dentry_alloc `{Memalign} (name : qstr) (parent id : Z) (isdir positive : bool) : M Z :=
  let! w := st_get in
  match posix_memalign (dom (w_core w)) with
  | None => st_ret 0
  | Some d =>
      st_mod (alloc_core d
        {| d_name := name;
           d_parent := if positive then parent else Z.lor parent DC_TAG_NEG;
           d_id := id; d_isdir := isdir |}) ;;;
      st_ret d
  end.

(** ** An allocator that meets the promise *)

(** The first aligned address above every block in use. *)
Definition top_alloc : Memalign := λ live,
  let d := 64 * (set_fold Z.max 0 live / 64 + 1) in
  if d <? 2 ^ 64 then Some d else None.

Lemma set_fold_max (live : gset Z) : 0 ≤ set_fold Z.max 0 live ∧ ∀ x, x ∈ live → x ≤ set_fold Z.max 0 live.
Proof.
  apply (set_fold_ind_L (λ r X, 0 ≤ r ∧ ∀ x, x ∈ X → x ≤ r)).
  { split; [done | set_solver]. }
  intros x X r Hx [H0 H]. split; [lia |].
  intros y [->%elem_of_singleton | Hy]%elem_of_union; [lia |]. specialize (H y Hy). lia.
Qed.

#[export] Instance top_alloc_ok : MemalignOk top_alloc.
Proof.
  split; intros live d; unfold posix_memalign, top_alloc;
    destruct (set_fold_max live) as [H0 H]; case_match eqn:E; try done; intros [= <-].
  - intros Hd%H. Z.to_euclidean_division_equations. lia.
  - split; [Z.to_euclidean_division_equations; lia |]. rewrite Z.mul_comm. by apply Z_mod_mult.
  - apply Z.ltb_lt in E. Z.to_euclidean_division_equations. lia.
Qed.
