(* ===== verification/Walk.v ===== *)
(** The read side of dcache_seqlock.c: the lockless hash scans, the RCU path walk
    and its callers ([dc_lookup], [resolve_dentry_rcu], [dc_lookup_dentry]), the
    snapshot arm, directory listing, the reverse walk and the census. *)

From S2P Require Import Prelude Qstr HList HashTab Children Lru Seqcount World.

(** [&p->comp[i]] *)
Definition comp_at (p : dc_path) (i : nat) : M qstr :=
  match path_comp p i with Some q => st_ret q | None => st_fault BadPtr end.

(** A scan of a hash chain, [for (n = first; n; n = n->next)], left by the first
    node for which the body gives a result. *)
Fixpoint chain_scan {A} (fuel : nat) (n : Z) (body : Z → M (option A)) : M (option A) :=
  match fuel with
  | O => st_fault NoFuel
  | S fuel' =>
      if n =? 0 then st_ret None
      else
        let! r := body n in
        match r with
        | Some a => st_ret (Some a)
        | None =>
            let! h := on_hash (st_lookup ht_node n) in
            chain_scan fuel' (h_next h) body
        end
  end.

(** A chain that is not circular passes every node once, so this many steps
    reach its end. *)
Definition chain_fuel (w : world) : nat := S (size (ht_node (w_hash w))).

(** The body of [__d_lookup_rcu]'s loop: the dentry and the d_seq sampled before
    the compare. *)
Definition d_match_rcu (parent : Z) (name : qstr) (d : Z) : M (option (Z * Z)) :=
  let! c := core_at d in
  if negb (q_hash (d_name c) =? q_hash name) then st_ret None
  else
    let! seq := on_d_seq d raw_seqcount_begin in
    let! c := core_at d in
    let pw := d_parent c in
    if negb (Z.land pw (Z.lnot DC_TAG_MASK) =? parent) then st_ret None
    else if negb (Z.land pw DC_TAG_UNHASHED =? 0) then st_ret None
    else if negb (q_len (d_name c) =? q_len name)
            || negb (bool_decide (take (Z.to_nat (q_len name)) (q_name (d_name c))
                                  = take (Z.to_nat (q_len name)) (q_name name)))
    then st_ret None
    else st_ret (Some (d, seq)).

Definition __d_lookup_rcu (parent : Z) (name : qstr) : M (option (Z * Z)) :=
  let! b := bucket_of parent (q_hash name) in
  let! first := on_hash (bl_first_rcu b) in
  let! fuel := st_gets chain_fuel in
  let! r := chain_scan fuel first (d_match_rcu parent name) in
  st_ret r.

(** How often a lockless retry loop that C leaves unbounded may go round. *)
Definition RETRY_ROUNDS : positive := 16777216.

(** One round of [d_lookup_rcu]'s do-while. *)
Definition d_lookup_round (parent : Z) (name : qstr) (_ : unit)
  : M (unit + option (Z * Z)) :=
  let! r_seq := on_rename read_seqbegin in
  let! d := __d_lookup_rcu parent name in
  match d with
  | Some _ => st_ret (inr d)
  | None =>
      let! again := on_rename (read_seqretry r_seq) in
      st_ret (if again then inl tt else inr None)
  end.

Definition d_lookup_rcu (parent : Z) (name : qstr) : M (option (Z * Z)) :=
  let! r := iter_upto RETRY_ROUNDS (d_lookup_round parent name) tt in
  match r with inr d => st_ret d | inl _ => st_fault NoFuel end.

Inductive dc_result := DC_POSITIVE | DC_NEGATIVE | DC_ABSENT.

#[export] Instance dc_result_eq_dec : EqDecision dc_result.
Proof. solve_decision. Defined.

(** The outcome of a walk and, when it is done, [*dp], [*resp] and [*idp] (which
    a miss leaves unwritten). *)
Inductive walk_ret :=
  | WALK_DONE (dp : Z) (res : dc_result) (id : option Z)
  | WALK_RESTART.

(** The loop of [path_walk_rcu] from component [i] on, [k] components to go. *)
Fixpoint walk_loop (p : dc_path) (writer : bool) (k i : nat) (cur seq : Z) (res : dc_result)
  : M walk_ret :=
  match k with
  | O =>
      let id := DC_FAST_ID cur in
      let! moved := on_d_seq cur (read_seqcount_retry seq) in
      if moved : bool then st_ret WALK_RESTART
      else st_ret (WALK_DONE cur res (Some id))
  | S k' =>
      let! name := comp_at p i in
      let! r := __d_lookup_rcu cur name in
      let! moved := on_d_seq cur (read_seqcount_retry seq) in
      if moved : bool then st_ret WALK_RESTART
      else
        let! r := match r with Some _ => st_ret r | None => d_lookup_rcu cur name end in
        match r with
        | None => st_ret (WALK_DONE 0 DC_ABSENT None)
        | Some (d, next_seq) =>
            let! c := core_at d in
            let res := if d_is_positive c then DC_POSITIVE else DC_NEGATIVE in
            let! moved := on_d_seq d (read_seqcount_retry next_seq) in
            if moved : bool then st_ret WALK_RESTART
            else
              let! nid := st_gets w_node in
              when writer (on_lru (lru_retain nid d)) ;;;
              walk_loop p writer k' (S i) d next_seq res
        end
  end.

Definition path_walk_rcu (p : dc_path) (depth : nat) (writer : bool) : M walk_ret :=
  let! cur := st_gets w_root in
  on_rename read_seqbegin ;;;
  let! seq := on_d_seq cur read_seqcount_begin in
  walk_loop p writer depth 0 cur seq DC_POSITIVE.

Definition walk_retry_count : M unit := st_mod (λ w, set_retries (w64 (w_retries w + 1)) w).

(** [dc_lookup]: the result and [*out_id] when it was written. *)
Definition lookup_round (p : dc_path) (_ : unit) : M (unit + (Z * dc_result * option Z)) :=
  rcu_read_lock ;;;
  let! r := path_walk_rcu p (ndepth p) false in
  rcu_read_unlock ;;;
  match r with
  | WALK_DONE d res id => st_ret (inr (d, res, id))
  | WALK_RESTART => walk_retry_count ;;; st_ret (inl tt)
  end.

Definition dc_lookup (p : dc_path) : M (dc_result * option Z) :=
  let! r := iter_upto RETRY_ROUNDS (lookup_round p) tt in
  match r with
  | inr (_, res, id) => st_ret (res, if decide (res = DC_POSITIVE) then id else None)
  | inl _ => st_fault NoFuel
  end.

(** [resolve_dentry_rcu]: the dentry, 0 when it is absent (or after 2^24
    restarts, the livelock guard). *)
Definition resolve_round (p : dc_path) (depth : nat) (_ : unit) : M (unit + Z) :=
  let! r := path_walk_rcu p depth true in
  match r with
  | WALK_DONE d _ _ => st_ret (inr d)
  | WALK_RESTART => st_ret (inl tt)
  end.

Definition resolve_dentry_rcu (p : dc_path) (depth : nat) : M Z :=
  let! r := iter_upto RETRY_ROUNDS (resolve_round p depth) tt in
  match r with inr d => st_ret d | inl _ => st_ret 0 end.

Definition lookup_dentry_round (p : dc_path) (_ : unit) : M (unit + (Z * dc_result)) :=
  rcu_read_lock ;;;
  let! r := path_walk_rcu p (ndepth p) false in
  rcu_read_unlock ;;;
  match r with
  | WALK_DONE d res _ => st_ret (inr (d, res))
  | WALK_RESTART => st_ret (inl tt)
  end.

Definition dc_lookup_dentry (p : dc_path) : M Z :=
  let! r := iter_upto RETRY_ROUNDS (lookup_dentry_round p) tt in
  match r with
  | inr (d, res) => st_ret (if decide (res = DC_POSITIVE) then d else 0)
  | inl _ => st_fault NoFuel
  end.

(** ** The snapshot arm (DC_SEQ_SNAPSHOT) *)

(** One walk of [path_walk_snapshot]; [None] is [goto dseq_fail]. *)
Fixpoint snapshot_loop (p : dc_path) (k i : nat) (cur cseq : Z) (res : dc_result) (id : Z)
  : M (option (dc_result * Z)) :=
  match k with
  | O =>
      let! moved := on_d_seq cur (read_seqcount_retry cseq) in
      st_ret (if moved : bool then None else Some (res, id))
  | S k' =>
      let! name := comp_at p i in
      let! r := __d_lookup_rcu cur name in
      let! moved := on_d_seq cur (read_seqcount_retry cseq) in
      if moved : bool then st_ret None
      else match r with
           | None => st_ret (Some (DC_ABSENT, id))
           | Some (d, dseq) =>
               let! c := core_at d in
               let res := if d_is_positive c then DC_POSITIVE else DC_NEGATIVE in
               let id := DC_FAST_ID d in
               let! moved := on_d_seq d (read_seqcount_retry dseq) in
               if moved : bool then st_ret None
               else snapshot_loop p k' (S i) d dseq res id
           end
  end.

Definition snapshot_walk (p : dc_path) : M (option (dc_result * Z)) :=
  let! cur := st_gets w_root in
  let! cseq := on_d_seq cur read_seqcount_begin in
  snapshot_loop p (ndepth p) 0 cur cseq DC_POSITIVE (DC_FAST_ID cur).

(** The two labels a pass starts from: [SnapRestart seq] is [restart:], which
    samples rename_lock or takes it, [SnapRewalk seq] is [rewalk:]. *)
Inductive snap_label := SnapRestart (seq : Z) | SnapRewalk (seq : Z).

Definition snapshot_round (p : dc_path) (l : snap_label) : M (snap_label + (dc_result * Z)) :=
  let! seq := match l with
              | SnapRestart seq => on_rename (read_seqbegin_or_lock seq)
              | SnapRewalk seq => st_ret seq
              end in
  let! r := snapshot_walk p in
  match r with
  | None => (* dseq_fail *)
      walk_retry_count ;;;
      if negb (Z.land seq 1 =? 0) then st_ret (inl (SnapRewalk seq))
      else
        let! moved := on_rename (read_seqretry seq) in
        st_ret (inl (SnapRestart (if moved : bool then 1 else seq)))
  | Some a =>
      let! retry := on_rename (need_seqretry seq) in
      if retry : bool then walk_retry_count ;;; st_ret (inl (SnapRestart 1))
      else
        on_rename (done_seqretry seq) ;;;
        st_ret (inr a)
  end.

Definition path_walk_snapshot (p : dc_path) : M (dc_result * Z) :=
  rcu_read_lock ;;;
  let! r := iter_upto RETRY_ROUNDS (snapshot_round p) (SnapRestart 0) in
  match r with
  | inr a => rcu_read_unlock ;;; st_ret a
  | inl _ => st_fault NoFuel
  end.

(** [dc_lookup] as the snapshot arm compiles it. *)
Definition dc_lookup_snapshot (p : dc_path) : M (dc_result * option Z) :=
  let! a := path_walk_snapshot p in
  st_ret (fst a, if decide (fst a = DC_POSITIVE) then Some (snd a) else None).

(** ** Writer-side exact lookup and the loop guard *)

Definition child_match (parent : Z) (name : qstr) (d : Z) : M (option Z) :=
  let! c := core_at d in
  st_ret (if (dparent_of c =? parent) && negb (d_is_unhashed c) && dc_qstr_eq (d_name c) name
          then Some d else None).

(** The child, or 0. *)
Definition __child_lookup (parent : Z) (name : qstr) : M Z :=
  let! b := bucket_of parent (q_hash name) in
  let! first := on_hash (bl_first_rcu b) in
  let! fuel := st_gets chain_fuel in
  let! r := chain_scan fuel first (child_match parent name) in
  st_ret (default 0 r).

Fixpoint is_subdir_loop (fuel : nat) (cur b : Z) : M bool :=
  match fuel with
  | O => st_fault NoFuel
  | S fuel' =>
      if cur =? b then st_ret true
      else
        let! c := core_at cur in
        if cur =? dparent_of c then st_ret false
        else is_subdir_loop fuel' (dparent_of c) b
  end.

Definition is_subdir (a b : Z) : M bool :=
  let! fuel := st_gets (λ w, S (size (w_core w))) in
  is_subdir_loop fuel a b.

(** ** Listing and census *)

Definition kid_at (d : Z) : M dc_kid := on_kids (st_lookup id d).

(** [for (c = first; c; c = c->d_sib)] *)
Fixpoint sib_loop {X} (fuel : nat) (c : Z) (body : Z → X → M X) (x : X) : M X :=
  match fuel with
  | O => st_fault NoFuel
  | S fuel' =>
      if c =? 0 then st_ret x
      else
        let! x' := body c x in
        let! k := kid_at c in
        sib_loop fuel' (d_sib k) body x'
  end.

Definition sib_fuel (w : world) : nat := S (size (w_kids w)).

(** [dc_readdir] with the callback [fn] (NULL is [None]) folding over its
    argument: the count, or the error, and the argument after the calls. *)
Definition dc_readdir {X} (path : dc_path) (fn : option (Z → qstr → X → X)) (arg : X)
  : M (Z * X) :=
  rcu_read_lock ;;;
  let! dir := resolve_dentry_rcu path (ndepth path) in
  if dir =? 0 then rcu_read_unlock ;;; st_ret (- ENOENT, arg)
  else
    dir_rlock dir ;;;
    let! k := kid_at dir in
    let! fuel := st_gets sib_fuel in
    let! r := sib_loop fuel (d_children k) (λ c x,
      let! cc := core_at c in
      let arg := match fn with Some f => f (d_id cc) (d_name cc) (snd x) | None => snd x end in
      st_ret (fst x + 1, arg)) (0, arg) in
    dir_runlock dir ;;;
    rcu_read_unlock ;;;
    st_ret r.

(** [walk_rec]: [path] is one buffer, extended in place and cut back. *)
Fixpoint walk_rec {X} (fuel : nat) (fn : Z → dc_path → X → X) (d : Z) (path : dc_path) (arg : X)
  : M (dc_path * X) :=
  match fuel with
  | O => st_fault NoFuel
  | S fuel' =>
      let! c := core_at d in
      let arg := if ((0 <? ndepth path)%nat || negb (dparent_of c =? d)) && d_is_positive c
                 then fn (d_id c) path arg else arg in
      let! k := kid_at d in
      let! sf := st_gets sib_fuel in
      sib_loop sf (d_children k) (λ c x,
        let '(path, arg) := x in
        if (DC_PATH_MAX <=? ndepth path)%nat then st_ret (path, arg)
        else
          let! cc := core_at c in
          let path := {| ndepth := S (ndepth path);
                         comp := <[ndepth path := d_name cc]> (comp path) |} in
          let! x := walk_rec fuel' fn c path arg in
          let '(path, arg) := x in
          st_ret ({| ndepth := ndepth path - 1; comp := comp path |}, arg)) (path, arg)
  end.

(** The recursion is as deep as the path buffer. *)
Definition dc_walk {X} (fn : Z → dc_path → X → X) (path0 : dc_path) (arg : X) : M X :=
  let! root := st_gets w_root in
  let! r := walk_rec (S DC_PATH_MAX) fn root (dc_path_reset path0) arg in
  st_ret (snd r).

(** ** Reverse walk *)

(** The name copy into one slot of [out->comp]: the length clamped, the bytes
    behind the terminator left as they were. *)
Definition path_copy_name (src dst : qstr) : qstr :=
  let len := if Z.of_nat DC_NAME_MAX - 1 <? q_len src then Z.of_nat DC_NAME_MAX - 1
             else q_len src in
  {| q_hash := q_hash src; q_len := len;
     q_name := take (Z.to_nat len) (q_name src) ++ 0 :: drop (S (Z.to_nat len)) (q_name dst) |}.

(** The climb, [n] components already copied: the error code, the count and the
    component array. *)
Fixpoint climb (fuel : nat) (cur : Z) (n : nat) (out : list qstr) : M (Z * nat * list qstr) :=
  match fuel with
  | O => st_fault NoFuel
  | S fuel' =>
      let! c := core_at cur in
      let parent := Z.land (d_parent c) (Z.lnot DC_TAG_MASK) in
      if parent =? cur then st_ret (0, n, out)
      else if decide (n = DC_PATH_MAX) then st_ret (- ENAMETOOLONG, n, out)
      else climb fuel' parent (S n) (alter (path_copy_name (d_name c)) (DC_PATH_MAX - 1 - n)%nat out)
  end.

Definition dentry_path_round (d : Z) (x : Z * list qstr)
  : M ((Z * list qstr) + (Z * nat * list qstr)) :=
  let '(seq, out) := x in
  let! seq := on_rename (read_seqbegin_or_lock seq) in
  let! r := climb (S DC_PATH_MAX) d 0 out in
  let! retry := on_rename (need_seqretry seq) in
  if retry : bool then walk_retry_count ;;; st_ret (inl (1, snd r))
  else on_rename (done_seqretry seq) ;;; st_ret (inr r).

(** [memmove(&out->comp[0], &out->comp[DC_PATH_MAX - n], n * sizeof ...)] *)
Definition comp_memmove (n : nat) (out : list qstr) : list qstr :=
  take n (drop (DC_PATH_MAX - n) out) ++ drop n out.

(** A first lockless pass and at most one locked one. *)
Definition dc_dentry_path (d : Z) (out : dc_path) : M (Z * dc_path) :=
  rcu_read_lock ;;;
  let! r := iter_upto 2 (dentry_path_round d) (0, comp out) in
  match r with
  | inl _ => st_fault NoFuel
  | inr (ret, n, cs) =>
      rcu_read_unlock ;;;
      if negb (ret =? 0) then st_ret (ret, {| ndepth := ndepth out; comp := cs |})
      else st_ret (0, {| ndepth := n; comp := comp_memmove n cs |})
  end.
