(* ===== verification/Ops.v ===== *)
(** The mutators of dcache_seqlock.c: add, instantiate, delete, unlink, rename,
    exchange.  A [goto] out of a critical section is the value that section
    returns; what follows the label runs on every path, as in the source. *)

From S2P Require Import Prelude Qstr HList HashTab Children Lru Seqcount World Walk.

Section alloc.
  Context `{Memalign}.

Definition dc_add_typed_state (path : dc_path) (id : Z) (isdir positive : bool) : M Z :=
  if decide (ndepth path = 0)%nat then st_ret (- EEXIST)
  else
    rcu_read_lock ;;;
    let! parent := resolve_dentry_rcu path (ndepth path - 1) in
    if parent =? 0 then rcu_read_unlock ;;; st_ret (- ENOENT)
    else
      let! pc := core_at parent in
      if negb (d_isdir pc) then rcu_read_unlock ;;; st_ret (- ENOTDIR)
      else
        let! name := comp_at path (ndepth path - 1) in
        let! b := bucket_of parent (q_hash name) in
        dir_wlock parent ;;;
        on_hash (bl_lock b) ;;;
        let! ret :=
          (let! pc := core_at parent in
           if negb (d_is_positive pc) || d_is_unhashed pc then st_ret (- ENOENT)
           else
             let! e := __child_lookup parent name in
             if negb (e =? 0) then st_ret (- EEXIST)
             else
               let! d := dentry_alloc name parent id isdir positive in
               if d =? 0 then st_ret (- ENOMEM)
               else
                 let! nid := st_gets w_node in
                 on_lru (lru_add_new nid d) ;;;
                 on_hash (hlist_add_head_rcu b d) ;;;
                 on_kids (children_add parent d) ;;;
                 st_ret 0) in
        on_hash (bl_unlock b) ;;;
        dir_wunlock parent ;;;
        rcu_read_unlock ;;;
        st_ret ret.

Definition dc_add (path : dc_path) (id : Z) : M Z := dc_add_typed_state path id true true.
Definition dc_add_file (path : dc_path) (id : Z) : M Z := dc_add_typed_state path id false true.
Definition dc_add_negative (path : dc_path) : M Z := dc_add_typed_state path 0 false false.

End alloc.

Definition dc_instantiate (path : dc_path) (id : Z) : M Z :=
  if decide (ndepth path = 0)%nat then st_ret (- EEXIST)
  else
    rcu_read_lock ;;;
    let! parent := resolve_dentry_rcu path (ndepth path - 1) in
    if parent =? 0 then rcu_read_unlock ;;; st_ret (- ENOENT)
    else
      let! name := comp_at path (ndepth path - 1) in
      let! b := bucket_of parent (q_hash name) in
      dir_wlock parent ;;;
      on_hash (bl_lock b) ;;;
      let! ret :=
        (let! d := __child_lookup parent name in
         if d =? 0 then st_ret (- ENOENT)
         else
           let! c := core_at d in
           if d_is_positive c then st_ret (- EEXIST)
           else
             on_d_seq d write_seqcount_begin ;;;
             core_store d (λ c, set_d_parent (Z.land (d_parent c) (Z.lnot DC_TAG_NEG)) c) ;;;
             core_store d (set_d_id id) ;;;
             on_d_seq d write_seqcount_end ;;;
             st_ret 0) in
      on_hash (bl_unlock b) ;;;
      dir_wunlock parent ;;;
      rcu_read_unlock ;;;
      st_ret ret.

(** One round of [dc_delete]'s loop: peek at the victim for its type, lock, find
    it again; [inl] when a directory turned out to be another node. *)
Definition delete_round (path : dc_path) (parent : Z) (name : qstr) (b : nat) (_ : unit)
  : M (unit + (Z * bool * Z)) :=
  let! peek := resolve_dentry_rcu path (ndepth path) in
  let! isdir := (if peek =? 0 then st_ret false
                 else let! c := core_at peek in st_ret (d_isdir c)) in
  (if isdir : bool then dirs_wlock2 parent peek else dir_wlock parent) ;;;
  on_hash (bl_lock b) ;;;
  let! d := __child_lookup parent name in
  if isdir && negb (d =? peek) then
    on_hash (bl_unlock b) ;;;
    dirs_wunlock2 parent peek ;;;
    st_ret (inl tt)
  else st_ret (inr (peek, isdir, d)).

Definition dc_delete (path : dc_path) : M Z :=
  if decide (ndepth path = 0)%nat then st_ret (- EISDIR)
  else
    rcu_read_lock ;;;
    let! parent := resolve_dentry_rcu path (ndepth path - 1) in
    if parent =? 0 then rcu_read_unlock ;;; st_ret (- ENOENT)
    else
      let! name := comp_at path (ndepth path - 1) in
      let! b := bucket_of parent (q_hash name) in
      let! r := iter_upto RETRY_ROUNDS (delete_round path parent name b) tt in
      match r with
      | inl _ => st_fault NoFuel
      | inr (peek, isdir, d) =>
          let! ret :=
            (if d =? 0 then st_ret (- ENOENT)
             else
               let! c := core_at d in
               if negb (d_is_positive c) then st_ret (- ENOENT)
               else
                 let! k := kid_at d in
                 if d_isdir c && negb (d_children k =? 0) then st_ret (- ENOTEMPTY)
                 else
                   on_d_seq d write_seqcount_begin ;;;
                   core_store d (λ c, set_d_parent (Z.lor (d_parent c) DC_TAG_NEG) c) ;;;
                   on_d_seq d write_seqcount_end ;;;
                   st_ret 0) in
          on_hash (bl_unlock b) ;;;
          (if isdir : bool then dirs_wunlock2 parent peek else dir_wunlock parent) ;;;
          rcu_read_unlock ;;;
          st_ret ret
      end.

(** One round of [dc_unlink]'s loop: find the victim, lock, re-verify.  [None]
    is the early return with the name absent. *)
Definition unlink_round (path : dc_path) (_ : unit) : M (unit + option (Z * Z * bool)) :=
  let! victim := resolve_dentry_rcu path (ndepth path) in
  if victim =? 0 then st_ret (inr None)
  else
    let! c := core_at victim in
    let parent := dparent_of c in
    let isdir := d_isdir c in
    (if isdir then dirs_wlock2 parent victim else dir_wlock parent) ;;;
    let! c := core_at victim in
    if negb (d_is_unhashed c) && (dparent_of c =? parent) then
      st_ret (inr (Some (victim, parent, isdir)))
    else
      (if isdir then dirs_wunlock2 parent victim else dir_wunlock parent) ;;;
      st_ret (inl tt).

(** The unhash of a dentry under its d_seq: what a kill does first. *)
Definition d_unhash (d : Z) : M unit :=
  on_d_seq d write_seqcount_begin ;;;
  DC_SET_UNHASHED d ;;;
  on_hash (hlist_del_rcu d) ;;;
  on_d_seq d write_seqcount_end.

Definition dc_unlink (path : dc_path) : M Z :=
  if decide (ndepth path = 0)%nat then st_ret (- EINVAL)
  else
    rcu_read_lock ;;;
    let! r := iter_upto RETRY_ROUNDS (unlink_round path) tt in
    match r with
    | inl _ => st_fault NoFuel
    | inr None => rcu_read_unlock ;;; st_ret (- ENOENT)
    | inr (Some (victim, parent, isdir)) =>
        let! c := core_at victim in
        let! b := bucket_of parent (q_hash (d_name c)) in
        on_hash (bl_lock b) ;;;
        let! ret :=
          (let! k := kid_at victim in
           if negb (d_children k =? 0) then st_ret (- ENOTEMPTY)
           else
             d_unhash victim ;;;
             on_kids (children_remove parent victim) ;;;
             on_lru (lru_del victim) ;;;
             call_rcu victim ;;;
             st_ret 0) in
        on_hash (bl_unlock b) ;;;
        (if isdir : bool then dirs_wunlock2 parent victim else dir_wunlock parent) ;;;
        rcu_read_unlock ;;;
        st_ret ret
    end.

(** The store of a new parent that keeps the dentry's own tags. *)
Definition set_parent_keep_tags (parent : Z) (c : core) : core :=
  set_d_parent (Z.lor parent (Z.land (d_parent c) DC_TAG_MASK)) c.

(** The negative dentry that holds the destination leaves the hash and its
    parent's list, inside its own d_seq section. *)
Definition drop_target (new_parent target : Z) : M unit :=
  on_d_seq target write_seqcount_begin ;;;
  DC_SET_UNHASHED target ;;;
  on_hash (hlist_del_rcu target) ;;;
  on_kids (children_remove new_parent target) ;;;
  on_d_seq target write_seqcount_end.

(** The victim leaves bucket and list, takes its new name and parent, and enters
    bucket [nb] and the new list, inside its d_seq section. *)
Definition relocate (victim old_parent new_parent : Z) (new_name : qstr) (nb : nat) : M unit :=
  on_d_seq victim write_seqcount_begin ;;;
  on_hash (hlist_del_rcu victim) ;;;
  when (negb (old_parent =? new_parent)) (on_kids (children_remove old_parent victim)) ;;;
  core_store victim (set_d_name new_name) ;;;
  core_store victim (set_parent_keep_tags new_parent) ;;;
  on_hash (hlist_add_head_rcu nb victim) ;;;
  when (negb (old_parent =? new_parent)) (on_kids (children_add new_parent victim)) ;;;
  on_d_seq victim write_seqcount_end.

Definition __d_move (victim new_parent : Z) (new_name : qstr) (target : Z) : M unit :=
  let! vc := core_at victim in
  let old_parent := dparent_of vc in
  let! ob := bucket_of old_parent (q_hash (d_name vc)) in
  let! nb := bucket_of new_parent (q_hash new_name) in
  on_hash (bl_lock2 ob nb) ;;;
  (when (negb (target =? 0)) (drop_target new_parent target) ;;;
   relocate victim old_parent new_parent new_name nb) ;;;
  on_hash (bl_unlock2 ob nb).

(** The part of [dc_rename] under the directory locks: the code and the negative
    dentry the move dropped (0: none). *)
Definition rename_locked (victim to_parent : Z) (to_name : qstr) (cross : bool) : M (Z * Z) :=
  let! tpc := core_at to_parent in
  if cross && negb (d_is_positive tpc) then st_ret (- ENOENT, 0)
  else
    let! target := __child_lookup to_parent to_name in
    let! occupied :=
      (if target =? 0 then st_ret false
       else
         let! tc := core_at target in
         st_ret ((target =? victim) || d_is_positive tc)) in
    if occupied : bool then st_ret (- EEXIST, 0)
    else
      on_rename write_seqlock ;;;
      __d_move victim to_parent to_name target ;;;
      on_rename write_sequnlock ;;;
      st_ret (0, target).

(** From the resolve of the source to the label [out]. *)
Definition rename_body (from to : dc_path) : M (Z * Z) :=
  let! victim := resolve_dentry_rcu from (ndepth from) in
  if victim =? 0 then st_ret (- ENOENT, 0)
  else
    let! to_parent := resolve_dentry_rcu to (ndepth to - 1) in
    if to_parent =? 0 then st_ret (- ENOENT, 0)
    else
      let! vc := core_at victim in
      let from_parent := dparent_of vc in
      let cross := negb (from_parent =? to_parent) in
      when cross mutex_lock ;;;
      let! to_name := comp_at to (ndepth to - 1) in
      let! r :=
        (let! tpc := core_at to_parent in
         if negb (d_is_positive tpc) then st_ret (- ENOENT, 0)
         else
           let! loop := (if cross then is_subdir to_parent victim else st_ret false) in
           if loop : bool then st_ret (- EINVAL, 0)
           else
             dirs_wlock2 from_parent to_parent ;;;
             let! r := rename_locked victim to_parent to_name cross in
             dirs_wunlock2 from_parent to_parent ;;;
             st_ret r) in
      when cross mutex_unlock ;;;
      st_ret r.

Definition dc_rename (from to : dc_path) : M Z :=
  if decide (ndepth from = 0 ∨ ndepth to = 0)%nat then st_ret (- EINVAL)
  else
    rcu_read_lock ;;;
    let! r := rename_body from to in
    let '(ret, target) := r in
    rcu_read_unlock ;;;
    when (negb (target =? 0)) (on_lru (lru_del target) ;;; call_rcu target) ;;;
    st_ret ret.

(** Both leave their chains and lists, trade names and parents, and enter the
    other's, inside the two d_seq sections. *)
Definition swap_places (da db pa pb : Z) (na nb : qstr) (ba bb : nat) : M unit :=
  on_d_seq da write_seqcount_begin ;;;
  on_d_seq db write_seqcount_begin ;;;
  on_hash (hlist_del_rcu da) ;;;
  on_hash (hlist_del_rcu db) ;;;
  when (negb (pa =? pb))
    (on_kids (children_remove pa da) ;;; on_kids (children_remove pb db)) ;;;
  core_store da (set_d_name nb) ;;;
  core_store db (set_d_name na) ;;;
  core_store da (set_parent_keep_tags pb) ;;;
  core_store db (set_parent_keep_tags pa) ;;;
  on_hash (hlist_add_head_rcu bb da) ;;;
  on_hash (hlist_add_head_rcu ba db) ;;;
  when (negb (pa =? pb))
    (on_kids (children_add pb da) ;;; on_kids (children_add pa db)) ;;;
  on_d_seq db write_seqcount_end ;;;
  on_d_seq da write_seqcount_end.

(** From the copies of the two names to [dirs_wunlock2]. *)
Definition d_exchange (da db pa pb : Z) : M unit :=
  let! ca := core_at da in
  let! cb := core_at db in
  let na := d_name ca in
  let nb := d_name cb in
  let! ba := bucket_of pa (q_hash na) in
  let! bb := bucket_of pb (q_hash nb) in
  dirs_wlock2 pa pb ;;;
  on_rename write_seqlock ;;;
  (on_hash (bl_lock2 ba bb) ;;;
   swap_places da db pa pb na nb ba bb ;;;
   on_hash (bl_unlock2 ba bb)) ;;;
  on_rename write_sequnlock ;;;
  dirs_wunlock2 pa pb.

Definition dc_rename_exchange (a b : dc_path) : M Z :=
  if decide (ndepth a = 0 ∨ ndepth b = 0)%nat then st_ret (- EINVAL)
  else
    rcu_read_lock ;;;
    let! ret :=
      (let! da := resolve_dentry_rcu a (ndepth a) in
       let! db := resolve_dentry_rcu b (ndepth b) in
       if (da =? 0) || (db =? 0) then st_ret (- ENOENT)
       else if da =? db then st_ret 0
       else
         let! ca := core_at da in
         let! cb := core_at db in
         let pa := dparent_of ca in
         let pb := dparent_of cb in
         let cross := negb (pa =? pb) in
         when cross mutex_lock ;;;
         let! loop :=
           (if cross then
              let! l := is_subdir pb da in
              if l : bool then st_ret true else is_subdir pa db
            else st_ret false) in
         let! ret := (if loop : bool then st_ret (- EINVAL)
                      else d_exchange da db pa pb ;;; st_ret 0) in
         when cross mutex_unlock ;;;
         st_ret ret) in
    rcu_read_unlock ;;;
    st_ret ret.
