(* ===== verification/Reclaim.v ===== *)
(** The shrinker and the lifecycle of dcache_seqlock.c: the LRU isolate and kill
    passes, [dc_shrink]; [dc_create], [free_subtree] and [dc_destroy]. *)

From S2P Require Import Prelude Qstr HList HashTab Children Lru Seqcount World Walk Ops.

Definition DC_SHRINK_BATCH : nat := 16.

(** 0 when the dentry was killed, -1 when it was put back. *)
Definition lru_kill (d : Z) : M Z :=
  rcu_read_lock ;;;
  let! c := core_at d in
  let parent := dparent_of c in
  if (parent =? 0) || (parent =? d) then
    on_lru (shard_cmpxchg d DC_SEQ_LRU_SHRINK DC_SEQ_LRU_OFF) ;;;
    rcu_read_unlock ;;;
    st_ret (-1)
  else
    let! b := bucket_of parent (q_hash (d_name c)) in
    dir_wlock parent ;;;
    on_hash (bl_lock b) ;;;
    let! c := core_at d in
    let! k := kid_at d in
    let! ret :=
      (if (dparent_of c =? parent) && negb (d_is_unhashed c) && (d_children k =? 0) then
         d_unhash d ;;;
         on_kids (children_remove parent d) ;;;
         on_lru (lnode_store d (set_lshard DC_SEQ_LRU_DEAD)) ;;;
         call_rcu d ;;;
         st_ret 0
       else st_ret (-1)) in
    on_hash (bl_unlock b) ;;;
    dir_wunlock parent ;;;
    when (negb (ret =? 0))
      (on_lru (shard_cmpxchg d DC_SEQ_LRU_SHRINK DC_SEQ_LRU_OFF) ;;; st_ret tt) ;;;
    rcu_read_unlock ;;;
    st_ret ret.

(** The isolate loop on shard [i], its lock held; [left] is what remains of the
    budget.  The batch, in the order isolated. *)
Fixpoint isolate_loop (i : nat) (nr freed : Z) (left : nat) (batch : list Z) : M (list Z) :=
  if (length batch <? DC_SHRINK_BATCH)%nat && (freed + Z.of_nat (length batch) <? nr) then
    match left with
    | O => st_ret batch
    | S left' =>
        let! o := on_lru (one_load i) in
        let d := lo_head o in
        if d =? 0 then st_ret batch
        else
          let! n := on_lru (st_lookup ls_node d) in
          if l_referenced n then
            on_lru (lnode_store d (set_lref false) ;;;
                    lru_del_locked i d (DC_SEQ_LRU_ON i) ;;;
                    lru_link_tail_locked i d) ;;;
            isolate_loop i nr freed left' batch
          else
            let! k := kid_at d in
            if negb (d_children k =? 0) then
              on_lru (lru_del_locked i d DC_SEQ_LRU_OFF) ;;;
              isolate_loop i nr freed left' batch
            else
              on_lru (lru_del_locked i d DC_SEQ_LRU_SHRINK) ;;;
              isolate_loop i nr freed left' (batch ++ [d])
    end
  else st_ret batch.

(** The kill pass over a batch. *)
Fixpoint kill_loop (batch : list Z) (freed : Z) : M Z :=
  match batch with
  | [] => st_ret freed
  | d :: batch' =>
      let! r := lru_kill d in
      kill_loop batch' (if r =? 0 then freed + 1 else freed)
  end.

(** The do-while of [lru_shrink_nodes] on shard [i]. *)
Fixpoint shrink_shard (fuel : nat) (i : nat) (nr freed : Z) : M Z :=
  match fuel with
  | O => st_fault NoFuel
  | S fuel' =>
      let! o := on_lru (one_load i) in
      let budget := lo_nr_items o in
      on_lru (lru_lock i) ;;;
      let! batch := isolate_loop i nr freed (Z.to_nat budget) [] in
      on_lru (lru_unlock i) ;;;
      let! freed := kill_loop batch freed in
      if decide (length batch = DC_SHRINK_BATCH) then
        if freed <? nr then shrink_shard fuel' i nr freed else st_ret freed
      else st_ret freed
  end.

(** The outer loop over the shards [i], ..., [i + k - 1]. *)
Fixpoint shrink_shards (k i : nat) (nr freed : Z) : M Z :=
  match k with
  | O => st_ret freed
  | S k' =>
      if freed <? nr then
        let! fuel := st_gets (λ w, S (size (w_core w))) in
        let! freed := shrink_shard fuel i nr freed in
        shrink_shards k' (S i) nr freed
      else st_ret freed
  end.

Definition lru_shrink_nodes (nr : Z) (lo hi : nat) : M Z := shrink_shards (hi - lo) lo nr 0.

Definition dc_shrink (nr : Z) : M Z :=
  if nr <=? 0 then st_ret 0 else lru_shrink_nodes nr 0 DC_LRU_NODES.

Definition dc_shrink_local (nr : Z) : M Z :=
  let! cur := st_gets w_node in
  let nid := lru_nid cur in
  if nr <=? 0 then st_ret 0 else lru_shrink_nodes nr nid (S nid).

(** ** The audit of the LRU, [dc_lru_check]: the number of faults it found (what it
    prints is left out) *)

(** The walk of one list: at most [nr_items + 1] steps.  The dentries walked, the
    last of them, the faults. *)
Fixpoint lru_check_list (left i : nat) (d prev n bad : Z) : M (Z * Z * Z) :=
  match left with
  | O => st_ret (n, prev, bad)
  | S left' =>
      if d =? 0 then st_ret (n, prev, bad)
      else
        let! nd := on_lru (st_lookup ls_node d) in
        let! why :=
          (if negb (l_shard nd =? DC_SEQ_LRU_ON i) then st_ret true
           else
             let! c := core_at d in
             st_ret (d_is_unhashed c || negb (l_prev nd =? prev))) in
        lru_check_list left' i (l_next nd) d (n + 1) (if why : bool then bad + 1 else bad)
  end.

Definition lru_check_shard (i : nat) (bad : Z) : M Z :=
  let! o := on_lru (one_load i) in
  let want := lo_nr_items o in
  let! r := lru_check_list (S (Z.to_nat want)) i (lo_head o) 0 0 bad in
  let '(n, prev, bad) := r in
  st_ret (if negb (n =? want) || negb (lo_tail o =? prev) then bad + 1 else bad).

Fixpoint lru_check_shards (k i : nat) (bad : Z) : M Z :=
  match k with
  | O => st_ret bad
  | S k' => let! bad := lru_check_shard i bad in lru_check_shards k' (S i) bad
  end.

Definition dc_lru_check : M Z := lru_check_shards DC_LRU_NODES 0 0.

(** ** Lifecycle *)

(** [while (n < nbuckets) n <<= 1;] on 32-bit unsigned words. *)
Fixpoint round_up (fuel : nat) (n nbuckets : Z) : res Z :=
  match fuel with
  | O => Err NoFuel
  | S fuel' => if n <? nbuckets then round_up fuel' (w32 (Z.shiftl n 1)) nbuckets else Ok n
  end.

(** A dcache without any dentry: what [memset], [calloc] and the initialisers
    leave. *)
Definition dcache0 (node : nat) (n : Z) : world :=
  {| w_mask := n - 1; w_root := 0; w_node := node;
     w_core := ∅; w_seq := ∅; w_lock := ∅;
     w_hash := {| ht_first := replicate (Z.to_nat n) 0; ht_node := ∅ |};
     w_kids := ∅;
     w_lru := {| ls_one := replicate DC_LRU_NODES lone0; ls_node := ∅ |};
     w_rename := seqlock_init; w_mutex := false; w_rcu := []; w_nest := 0; w_retries := 0 |}.

Definition set_root (x : Z) (w : world) : world :=
  World (w_mask w) x (w_node w) (w_core w) (w_seq w) (w_lock w) (w_hash w) (w_kids w) (w_lru w)
    (w_rename w) (w_mutex w) (w_rcu w) (w_nest w) (w_retries w).

Definition qstr_zero : qstr := {| q_hash := 0; q_len := 0; q_name := replicate DC_NAME_MAX 0 |}.

(** [rootname] is uninitialised stack memory before [dc_qstr_init]. *)
Definition rootname (stack : qstr) : qstr := dc_qstr_init stack [].

(** The rounding loop doubles at most 31 times before the word overflows to 0. *)
Definition ROUND_FUEL : nat := 33.

Section create.
  Context `{Memalign}.

(** [dc_create]; [dc_mem] and [tab_mem] say whether the allocations of the
    [struct dcache] and of the bucket array succeed.  [Ok None] is NULL. *)
Definition dc_create (dc_mem tab_mem : bool) (node : nat) (stack : qstr) (nbuckets : Z)
  : res (option world) :=
  if negb dc_mem then Ok None
  else
    match round_up ROUND_FUEL 1 nbuckets with
    | Err e => Err e
    | Ok n =>
        if negb tab_mem then Ok None
        else
          match dentry_alloc (rootname stack) 0 0 true true (dcache0 node n) with
          | Err e => Err e
          | Ok (root, w) =>
              match core_store root (set_d_parent root) (set_root root w) with
              | Err e => Err e
              | Ok (_, w) => Ok (Some w)
              end
          end
    end.

End create.

(** The loop of [free_subtree]: the sibling is read before the child is freed. *)
Fixpoint free_loop (free : Z → M unit) (fuel : nat) (c : Z) : M unit :=
  match fuel with
  | O => st_fault NoFuel
  | S fuel' =>
      if c =? 0 then st_ret tt
      else
        let! kc := kid_at c in
        free c ;;;
        free_loop free fuel' (d_sib kc)
  end.

Fixpoint free_subtree (fuel : nat) (d : Z) : M unit :=
  match fuel with
  | O => st_fault NoFuel
  | S fuel' =>
      let! k := kid_at d in
      let! sf := st_gets sib_fuel in
      free_loop (free_subtree fuel') sf (d_children k) ;;;
      dentry_free d
  end.

(** [dc_destroy]: what is left allocated afterwards is what was leaked. *)
Definition dc_destroy : M unit :=
  rcu_barrier ;;;
  let! root := st_gets w_root in
  let! fuel := st_gets (λ w, S (size (w_core w))) in
  free_subtree fuel root.
