(* ===== verification/Namespace.v ===== *)
(** The abstract specification: a name space is a finite map from dentries to
    their parent, name, identity, type and state, forming a tree below a root.
    Every operation of the cache is specified as a function on it that gives the
    return code and the new name space. *)

From S2P Require Import Prelude Qstr World.

Record node := Node {
  n_parent : Z;
  n_name : list Z;
  n_id : Z;
  n_dir : bool;
  n_pos : bool;
}.

Abbreviation nspace := (gmap Z node).

#[export] Instance node_eq_dec : EqDecision node.
Proof. solve_decision. Defined.

(** ** Children and walks *)

Definition is_child (r : Z) (N : nspace) (p : Z) (nm : list Z) (d : Z) : Prop :=
  d ≠ r ∧ ∃ n, N !! d = Some n ∧ n_parent n = p ∧ n_name n = nm.

(** All children of a directory, in no particular order. *)
Definition kids (r : Z) (N : nspace) (p : Z) : list Z :=
  fst <$> filter (λ x, x.1 ≠ r ∧ n_parent x.2 = p) (map_to_list N).

Definition child (r : Z) (N : nspace) (p : Z) (nm : list Z) : option Z :=
  fst <$> head (filter (λ x, x.1 ≠ r ∧ n_parent x.2 = p ∧ n_name x.2 = nm) (map_to_list N)).

(** The dentry that the names lead to from [cur]. *)
Fixpoint nwalk (r : Z) (N : nspace) (cur : Z) (names : list (list Z)) : option Z :=
  match names with
  | [] => Some cur
  | nm :: rest => d ← child r N cur nm; nwalk r N d rest
  end.

(** [upto r N d l]: [l] is the way up from [d] to the root, both included. *)
Inductive upto (r : Z) (N : nspace) : Z → list Z → Prop :=
  | upto_root : upto r N r [r]
  | upto_step d n l :
      N !! d = Some n → d ≠ r → upto r N (n_parent n) l → upto r N d (d :: l).

(** Well-formed name spaces: rooted, names unique among siblings, no cycles and
    no orphans. *)
Record tree (r : Z) (N : nspace) : Prop := {
  t_root : ∃ n, N !! r = Some n ∧ n_parent n = r ∧ n_dir n = true ∧ n_pos n = true;
  t_unique : ∀ p nm d1 d2, is_child r N p nm d1 → is_child r N p nm d2 → d1 = d2;
  t_up : ∀ d, is_Some (N !! d) → ∃ l, upto r N d l;
}.

(** Only directories that exist have children. *)
Definition typed (r : Z) (N : nspace) : Prop :=
  ∀ d n pn, d ≠ r → N !! d = Some n → N !! n_parent n = Some pn →
    n_dir pn = true ∧ n_pos pn = true.

(** [a] is [b] or below it: climb from [a]. *)
Fixpoint below (fuel : nat) (r : Z) (N : nspace) (a b : Z) : bool :=
  (a =? b) ||
  match fuel, N !! a with
  | S fuel', Some n => negb (a =? r) && below fuel' r N (n_parent n) b
  | _, _ => false
  end.

Definition subdir (r : Z) (N : nspace) (a b : Z) : bool := below (size N) r N a b.

Fixpoint split_last {A} (l : list A) : option (list A * A) :=
  match l with
  | [] => None
  | a :: l' => match split_last l' with None => Some ([], a) | Some (i, z) => Some (a :: i, z) end
  end.

(** ** The operations *)

Definition spec_add (r : Z) (fresh : option Z) (names : list (list Z)) (id : Z)
    (isdir pos : bool) (N : nspace) : Z * nspace :=
  match split_last names with
  | None => (- EEXIST, N)
  | Some (dirn, nm) =>
      match nwalk r N r dirn with
      | None => (- ENOENT, N)
      | Some p =>
          match N !! p with
          | None => (- ENOENT, N)
          | Some pn =>
              if negb (n_dir pn) then (- ENOTDIR, N)
              else if negb (n_pos pn) then (- ENOENT, N)
              else match child r N p nm, fresh with
                   | Some _, _ => (- EEXIST, N)
                   | None, None => (- ENOMEM, N)
                   | None, Some d =>
                       (0, <[d := Node p nm id isdir pos]> N)
                   end
          end
      end
  end.

Definition spec_instantiate (r : Z) (names : list (list Z)) (id : Z) (N : nspace) : Z * nspace :=
  match names with
  | [] => (- EEXIST, N)
  | _ =>
      match d ← nwalk r N r names; n ← N !! d; Some (d, n) with
      | None => (- ENOENT, N)
      | Some (d, n) =>
          if n_pos n then (- EEXIST, N)
          else (0, <[d := Node (n_parent n) (n_name n) id (n_dir n) true]> N)
      end
  end.

Definition spec_delete (r : Z) (names : list (list Z)) (N : nspace) : Z * nspace :=
  match names with
  | [] => (- EISDIR, N)
  | _ =>
      match d ← nwalk r N r names; n ← N !! d; Some (d, n) with
      | None => (- ENOENT, N)
      | Some (d, n) =>
          if negb (n_pos n) then (- ENOENT, N)
          else if n_dir n && negb (bool_decide (kids r N d = [])) then (- ENOTEMPTY, N)
          else (0, <[d := Node (n_parent n) (n_name n) (n_id n) (n_dir n) false]> N)
      end
  end.

Definition spec_unlink (r : Z) (names : list (list Z)) (N : nspace) : Z * nspace :=
  match names with
  | [] => (- EINVAL, N)
  | _ =>
      match nwalk r N r names with
      | None => (- ENOENT, N)
      | Some d =>
          if negb (bool_decide (kids r N d = [])) then (- ENOTEMPTY, N)
          else (0, delete d N)
      end
  end.

(** The dentry [v] as it is after a move to [(p, nm)]. *)
Definition moved (n : node) (p : Z) (nm : list Z) : node :=
  Node p nm (n_id n) (n_dir n) (n_pos n).

Definition spec_rename (r : Z) (from to : list (list Z)) (N : nspace) : Z * nspace :=
  match from, split_last to with
  | [], _ | _, None => (- EINVAL, N)
  | _, Some (tdir, tnm) =>
      match v ← nwalk r N r from; vn ← N !! v; tp ← nwalk r N r tdir; tpn ← N !! tp;
            Some (v, vn, tp, tpn) with
      | None => (- ENOENT, N)
      | Some (v, vn, tp, tpn) =>
          if negb (n_pos tpn) then (- ENOENT, N)
          else if negb (n_parent vn =? tp) && subdir r N tp v then (- EINVAL, N)
          else match t ← child r N tp tnm; tn ← N !! t; Some (t, tn) with
               | None => (0, <[v := moved vn tp tnm]> N)
               | Some (t, tn) =>
                   if (t =? v) || n_pos tn then (- EEXIST, N)
                   else (0, <[v := moved vn tp tnm]> (delete t N))
               end
      end
  end.

Definition spec_exchange (r : Z) (a b : list (list Z)) (N : nspace) : Z * nspace :=
  match a, b with
  | [], _ | _, [] => (- EINVAL, N)
  | _, _ =>
      match da ← nwalk r N r a; an ← N !! da; db ← nwalk r N r b; bn ← N !! db;
            Some (da, an, db, bn) with
      | None => (- ENOENT, N)
      | Some (da, an, db, bn) =>
          if da =? db then (0, N)
          else if negb (n_parent an =? n_parent bn)
                  && (subdir r N (n_parent bn) da || subdir r N (n_parent an) db)
          then (- EINVAL, N)
          else (0, <[da := moved an (n_parent bn) (n_name bn)]>
                   (<[db := moved bn (n_parent an) (n_name an)]> N))
      end
  end.

(** The destination directory is a directory: what [dc_add] checks and
    [dc_rename] leaves to its callers. *)
Definition dest_is_dir (r : Z) (N : nspace) (to : list (list Z)) : Prop :=
  ∀ tdir nm tp tpn, split_last to = Some (tdir, nm) → nwalk r N r tdir = Some tp →
    N !! tp = Some tpn → n_dir tpn = true.

(** A destination directory, checked by evaluation. *)
Definition dest_dirb (r : Z) (N : nspace) (to : list (list Z)) : bool :=
  match split_last to with
  | Some (tdir, _) =>
      match tp ← nwalk r N r tdir; N !! tp with Some tpn => n_dir tpn | None => true end
  | None => true
  end.

Lemma dest_dirb_ok r N to : dest_dirb r N to = true → dest_is_dir r N to.
Proof. unfold dest_dirb. intros H tdir nm tp tpn E1 E2 E3. rewrite E1, E2 in H. simpl in H. by rewrite E3 in H. Qed.

(** ** Lemmas *)

Lemma split_last_app {A} (l : list A) x : split_last (l ++ [x]) = Some (l, x).
Proof. induction l as [| a l IH]; simpl; [done |]. by rewrite IH. Qed.

Lemma elem_of_kids r N p d :
  d ∈ kids r N p ↔ d ≠ r ∧ ∃ n, N !! d = Some n ∧ n_parent n = p.
Proof.
  unfold kids. rewrite list_elem_of_fmap. split.
  - intros ([d' n] & -> & [[??] ?%elem_of_map_to_list]%list_elem_of_filter). simpl in *. eauto.
  - intros (? & n & ? & ?). exists (d, n). split; [done |]. apply list_elem_of_filter.
    by rewrite elem_of_map_to_list.
Qed.

Lemma kids_nodup r N p : NoDup (kids r N p).
Proof.
  unfold kids. apply NoDup_fmap_fst; [| apply NoDup_filter, NoDup_map_to_list].
  intros x y1 y2 [_ H1%elem_of_map_to_list]%list_elem_of_filter [_ H2%elem_of_map_to_list]%list_elem_of_filter.
  congruence.
Qed.

Lemma kids_nil r N p :
  kids r N p = [] ↔ ∀ d n, d ≠ r → N !! d = Some n → n_parent n ≠ p.
Proof.
  split.
  - intros E d n Hd Hn Hp. assert (d ∈ kids r N p) as H by (apply elem_of_kids; eauto).
    rewrite E in H. by apply not_elem_of_nil in H.
  - intros H. destruct (kids r N p) as [| d l] eqn:E; [done |].
    assert (d ∈ kids r N p) as (? & n & ? & ?)%elem_of_kids by (rewrite E; by left).
    exfalso. by eapply H.
Qed.

Lemma child_Some_1 r N p nm d : child r N p nm = Some d → is_child r N p nm d.
Proof.
  unfold child. intros ([d' n] & Hh & ->)%fmap_Some. simpl.
  destruct (filter _ _) as [| y l] eqn:E; [done |]. simpl in Hh. simplify_eq.
  assert ((d', n) ∈ filter (λ x : Z * node, x.1 ≠ r ∧ n_parent x.2 = p ∧ n_name x.2 = nm) (map_to_list N))
    as H by (rewrite E; by left).
  apply list_elem_of_filter in H as [(? & ? & ?) ?%elem_of_map_to_list]. split; [done | eauto].
Qed.

Lemma child_None_1 r N p nm d : child r N p nm = None → ¬ is_child r N p nm d.
Proof.
  unfold child. intros Hh%fmap_None (Hd & n & Hn & Hp & Hnm).
  assert ((d, n) ∈ filter (λ x : Z * node, x.1 ≠ r ∧ n_parent x.2 = p ∧ n_name x.2 = nm) (map_to_list N)) as H.
  { apply list_elem_of_filter. by rewrite elem_of_map_to_list. }
  destruct (filter _ _); [by apply not_elem_of_nil in H | done].
Qed.

Section tree.
Context (r : Z).
Implicit Types N : nspace.

Lemma child_Some N p nm d : tree r N → child r N p nm = Some d ↔ is_child r N p nm d.
Proof.
  intros Ht. split; [apply child_Some_1 |]. intros Hc.
  destruct (child r N p nm) as [d' |] eqn:E.
  - f_equal. eapply (t_unique r N Ht); [by apply child_Some_1 | done].
  - by destruct (child_None_1 _ _ _ _ _ E Hc).
Qed.

Lemma child_None N p nm : child r N p nm = None ↔ ∀ d, ¬ is_child r N p nm d.
Proof.
  split; [intros E d; by apply child_None_1 |]. intros H.
  destruct (child r N p nm) as [d |] eqn:E; [| done]. by destruct (H d (child_Some_1 _ _ _ _ _ E)).
Qed.

Lemma nwalk_app N cur l1 l2 : nwalk r N cur (l1 ++ l2) = d ← nwalk r N cur l1; nwalk r N d l2.
Proof.
  revert cur. induction l1 as [| nm l1 IH]; intros cur; simpl; [done |].
  destruct (child r N cur nm) as [d |]; simpl; [apply IH | done].
Qed.

Lemma nwalk_snoc N cur l nm : nwalk r N cur (l ++ [nm]) = p ← nwalk r N cur l; child r N p nm.
Proof.
  rewrite nwalk_app. destruct (nwalk r N cur l) as [p |]; simpl; [| done].
  by destruct (child r N p nm).
Qed.

Lemma nwalk_dom N cur l d :
  is_Some (N !! cur) → nwalk r N cur l = Some d → is_Some (N !! d).
Proof.
  revert cur. induction l as [| nm l IH]; intros cur Hc; simpl; [by intros [= ->] |].
  destruct (child r N cur nm) as [d' |] eqn:E; simpl; [| done].
  apply child_Some_1 in E as (_ & n & ? & _). intros. eapply IH; [| done]. by eexists.
Qed.

(** A path of at least one component never ends at the root. *)
Lemma nwalk_not_root N l d : l ≠ [] → nwalk r N r l = Some d → d ≠ r.
Proof.
  destruct l as [| x l] using rev_ind; [done |]. intros _. rewrite nwalk_snoc.
  destruct (nwalk r N r l); simpl; [| done]. intros E%child_Some_1. by destruct E.
Qed.

(** *** The way up *)

Lemma upto_det N d l1 l2 : upto r N d l1 → upto r N d l2 → l1 = l2.
Proof.
  intros H. revert l2. induction H as [| d n l Hn Hd H IH]; intros l2 H2.
  - by inversion H2.
  - inversion H2; simplify_eq. f_equal. by apply IH.
Qed.

Lemma upto_head N d l : upto r N d l → ∃ l', l = d :: l'.
Proof. destruct 1; eauto. Qed.

Lemma upto_suffix N d l x : upto r N d l → x ∈ l → ∃ l', upto r N x l' ∧ l' `suffix_of` l.
Proof.
  induction 1 as [| d n l Hn Hd H IH]; intros Hx.
  - apply list_elem_of_singleton in Hx as ->. exists [r]. split; [constructor | done].
  - apply elem_of_cons in Hx as [-> | Hx].
    + exists (d :: l). split; [by econstructor | done].
    + destruct (IH Hx) as (l' & ? & ?). exists l'. split; [done |]. by apply suffix_cons_r.
Qed.

Lemma upto_nodup N d l : upto r N d l → NoDup l.
Proof.
  induction 1 as [| d n l Hn Hd H IH]; [apply NoDup_singleton |].
  apply NoDup_cons. split; [| done]. intros Hx.
  destruct (upto_suffix _ _ _ _ H Hx) as (l' & Hl' & Hs%suffix_length).
  assert (l' = d :: l) as -> by (eapply upto_det; [done | by econstructor]). simpl in Hs. lia.
Qed.

Lemma upto_dom N d l x : is_Some (N !! r) → upto r N d l → x ∈ l → is_Some (N !! x).
Proof.
  intros Hr. induction 1 as [| d n l Hn Hd H IH]; intros Hx.
  - by apply list_elem_of_singleton in Hx as ->.
  - apply elem_of_cons in Hx as [-> | Hx]; [by eexists | by apply IH].
Qed.

Lemma upto_length N d l : is_Some (N !! r) → upto r N d l → (length l ≤ size N)%nat.
Proof.
  intros Hr Hu. rewrite <- size_dom. rewrite <- (size_list_to_set (C := gset Z) l).
  - apply subseteq_size. intros x Hx%elem_of_list_to_set. apply elem_of_dom. by eapply upto_dom.
  - by eapply upto_nodup.
Qed.

Lemma tree_parent N d n : tree r N → N !! d = Some n → is_Some (N !! n_parent n).
Proof.
  intros Ht Hd. destruct (t_root r N Ht) as (rn & Hr & Hp & _).
  destruct (decide (d = r)) as [-> | Hne].
  { rewrite Hr in Hd. injection Hd as <-. rewrite Hp. by eexists. }
  destruct (t_up r N Ht d) as [l Hl]; [by eexists |].
  destruct Hl as [| d n' l Hn' _ Hl]; [done |]. rewrite Hd in Hn'. injection Hn' as <-.
  destruct (upto_head _ _ _ Hl) as [l' ->]. eapply upto_dom; [by eexists | exact Hl | by left].
Qed.

(** The parent's way up does not pass the dentry again. *)
Lemma upto_parent_avoid N d n l :
  N !! d = Some n → d ≠ r → upto r N (n_parent n) l → d ∉ l.
Proof.
  intros Hn Hd Hl. assert (upto r N d (d :: l)) as H by (by econstructor).
  apply upto_nodup in H. by apply NoDup_cons in H as [? _].
Qed.

Lemma parent_ne N d n : tree r N → N !! d = Some n → d ≠ r → n_parent n ≠ d.
Proof.
  intros Ht Hn Hd E. destruct (t_up r N Ht (n_parent n)) as [l Hl].
  { by eapply tree_parent. }
  pose proof (upto_parent_avoid N d n l Hn Hd Hl) as Hx.
  destruct (upto_head _ _ _ Hl) as [l' ->]. apply Hx. rewrite E. by left.
Qed.

(** [below] with enough fuel: [b] is on the way up from [a]. *)
Lemma below_spec N a b l fuel :
  upto r N a l → (length l ≤ S fuel)%nat → below fuel r N a b = bool_decide (b ∈ l).
Proof.
  intros H. revert fuel. induction H as [| d n l Hn Hd H IH]; intros fuel Hf.
  - assert (below fuel r N r b = (r =? b)) as ->.
    { destruct fuel as [| fuel]; simpl; [by rewrite orb_false_r |].
      rewrite Z.eqb_refl. simpl. destruct (N !! r); by rewrite orb_false_r. }
    destruct (Z.eqb_spec r b) as [-> |]; symmetry.
    + apply bool_decide_eq_true. by left.
    + apply bool_decide_eq_false. by intros ->%list_elem_of_singleton.
  - destruct (upto_head _ _ _ H) as [l' El]. destruct fuel as [| fuel]; [subst; simpl in Hf; lia |].
    simpl in *. rewrite Hn. destruct (Z.eqb_spec d r); [done |]. simpl.
    rewrite IH by lia. destruct (Z.eqb_spec d b) as [-> |]; simpl; symmetry.
    + apply bool_decide_eq_true. by left.
    + apply bool_decide_ext. rewrite elem_of_cons. split; [by intros [-> | ?] | by right].
Qed.

Lemma subdir_spec N a b l :
  tree r N → upto r N a l → subdir r N a b = bool_decide (b ∈ l).
Proof.
  intros Ht Hl. apply below_spec; [done |].
  destruct (t_root r N Ht) as (rn & Hr & _).
  pose proof (upto_length N a l ltac:(by eexists) Hl). lia.
Qed.

(** *** How the operations act on the tree *)

Lemma upto_frame N N' d l :
  (∀ x, x ∈ l → x ≠ r → n_parent <$> N' !! x = n_parent <$> N !! x) →
  upto r N d l → upto r N' d l.
Proof.
  intros Hf. induction 1 as [| d n l Hn Hd H IH]; [constructor |].
  specialize (Hf d ltac:(left) Hd) as Hp. rewrite Hn in Hp. simpl in Hp.
  destruct (N' !! d) as [n' |] eqn:Hn'; [| done]. injection Hp as Hp.
  econstructor; [done | done |]. rewrite Hp. apply IH. intros x Hx. apply Hf. by right.
Qed.

(** A change of some dentries' parents keeps every way up, when the new
    parents' ways up avoid the changed dentries. *)
Lemma upto_reparent N N' (X : gset Z) :
  (∀ x, x ∉ X → x ≠ r → is_Some (N' !! x) → n_parent <$> N' !! x = n_parent <$> N !! x) →
  (∀ x, x ∈ X → is_Some (N' !! x) →
     ∃ n l, N' !! x = Some n ∧ upto r N (n_parent n) l ∧
       ∀ y, y ∈ l → (y ∉ X) ∧ (y ≠ r → is_Some (N' !! y))) →
  (∀ d n, N' !! d = Some n → d ∉ X → d ≠ r → is_Some (N' !! n_parent n) ∨ n_parent n = r) →
  r ∉ X →
  ∀ d l, upto r N d l → is_Some (N' !! d) ∨ d = r → ∃ l', upto r N' d l'.
Proof.
  intros Hsame Hnew Hclosed HrX d l H. induction H as [| d n l Hn Hd H IH]; intros Hd'.
  { eexists. constructor. }
  destruct Hd' as [Hd' |]; [| done].
  destruct (decide (d ∈ X)) as [HX | HX].
  - destruct (Hnew d HX Hd') as (n' & l' & Hn' & Hl' & Hav). exists (d :: l').
    econstructor; [done | set_solver |]. eapply upto_frame; [| done].
    intros x Hx Hxr. destruct (Hav x Hx) as [? ?]. by apply Hsame; [| | auto].
  - pose proof (Hsame d HX Hd Hd') as Hp. rewrite Hn in Hp. simpl in Hp.
    destruct (N' !! d) as [n' |] eqn:Hn'; [| done]. injection Hp as Hp.
    destruct IH as [l' Hl'].
    { rewrite <- Hp. by eapply Hclosed. }
    exists (d :: l'). econstructor; [done | done |]. by rewrite Hp.
Qed.
End tree.

(** ** Paths and the names they stand for *)

Lemma pnames_last p q :
  path_wf p → ndepth p ≠ 0%nat → pnames p !! (ndepth p - 1)%nat = Some (qname q) →
  pnames p = take (ndepth p - 1) (pnames p) ++ [qname q].
Proof.
  intros Hp H0 Hq. rewrite <- (take_drop (ndepth p - 1) (pnames p)) at 1. f_equal.
  rewrite (drop_S _ _ _ Hq), drop_ge; [done |]. rewrite length_pnames by done. lia.
Qed.

Lemma pnames_nonempty p : path_wf p → ndepth p ≠ 0%nat → pnames p ≠ [].
Proof. intros Hp H0 E. pose proof (length_pnames p Hp) as H. rewrite E in H. done. Qed.

(** The last component is looked up under what the others lead to. *)
Lemma pnames_walk r N p q :
  path_wf p → ndepth p ≠ 0%nat → pnames p !! (ndepth p - 1)%nat = Some (qname q) →
  nwalk r N r (pnames p) = d ← nwalk r N r (take (ndepth p - 1) (pnames p)); child r N d (qname q).
Proof. intros. rewrite (pnames_last p q) at 1 by done. apply nwalk_snoc. Qed.

Lemma path_split path :
  path_wf path → ndepth path ≠ 0%nat →
  ∃ q, comp path !! (ndepth path - 1)%nat = Some q ∧ qstr_wf q ∧
    (∀ r N, nwalk r N r (pnames path) =
              d ← nwalk r N r (take (ndepth path - 1) (pnames path)); child r N d (qname q)) ∧
    split_last (pnames path) = Some (take (ndepth path - 1) (pnames path), qname q).
Proof.
  intros Hp H0. destruct (path_comp_is_Some path (ndepth path - 1) Hp ltac:(lia)) as (q & Hcq & Hq).
  pose proof (pnames_lookup path (ndepth path - 1) q ltac:(lia) Hcq) as Hlast.
  exists q. split_and!; [done | done | |].
  - intros. by apply pnames_walk.
  - rewrite (pnames_last path q) at 1 by done. apply split_last_app.
Qed.
