(* ===== verification/TreeOps.v ===== *)
(** Every operation of the specification keeps the name space a well-formed,
    well-typed tree. *)

From S2P Require Import Prelude World Namespace.

Section tree_ops.
Context (r : Z).
Implicit Types N : nspace.

(** What [tree] and [typed] depend on for a dentry that keeps its place. *)
Definition place (n : node) : Z * list Z := (n_parent n, n_name n).

Lemma is_child_place N N' p nm d :
  place <$> N' !! d = place <$> N !! d → is_child r N' p nm d ↔ is_child r N p nm d.
Proof.
  intros E. unfold is_child, place in *.
  destruct (N !! d) as [n |], (N' !! d) as [n' |]; simpl in E; try done.
  injection E as E1 E2. split; intros (? & x & [= <-] & <- & <-); eauto.
Qed.

Lemma place_parent N N' d :
  place <$> N' !! d = place <$> N !! d → n_parent <$> N' !! d = n_parent <$> N !! d.
Proof.
  destruct (N !! d), (N' !! d); simpl; try done. unfold place. by intros [= -> _].
Qed.

(** Names and parents unchanged: still a tree. *)
Lemma tree_place N N' n' :
  tree r N → (∀ d, place <$> N' !! d = place <$> N !! d) →
  N' !! r = Some n' → n_dir n' = true → n_pos n' = true → tree r N'.
Proof.
  intros Ht E Hr Hd Hp. destruct (t_root r N Ht) as (rn & Hrn & Hrp & _).
  assert (∀ d, is_Some (N' !! d) → is_Some (N !! d)) as Hdom.
  { intros d [x Hx]. specialize (E d). rewrite Hx in E. by destruct (N !! d). }
  split.
  - exists n'. split_and!; try done. specialize (E r). rewrite Hr, Hrn in E. simpl in E.
    unfold place in E. injection E as -> _. done.
  - intros p nm d1 d2. rewrite !(is_child_place N N') by done. apply (t_unique r N Ht).
  - intros d Hd'. destruct (t_up r N Ht d (Hdom d Hd')) as [l Hl]. exists l.
    eapply upto_frame; [| done]. intros x _ _. by apply place_parent.
Qed.

Lemma tree_set_attrs N d n id dir pos :
  tree r N → N !! d = Some n → d ≠ r →
  tree r (<[d := Node (n_parent n) (n_name n) id dir pos]> N).
Proof.
  intros Ht Hn Hd. destruct (t_root r N Ht) as (rn & Hr & _ & ? & ?).
  apply (tree_place N _ rn); [done | | by rewrite lookup_insert_ne | done | done].
  intros x. destruct (decide (x = d)) as [-> |]; [by rewrite lookup_insert_eq, Hn |].
  by rewrite lookup_insert_ne.
Qed.

Lemma tree_add N d p pn nm id dir pos :
  tree r N → N !! d = None → N !! p = Some pn → child r N p nm = None →
  tree r (<[d := Node p nm id dir pos]> N).
Proof.
  intros Ht Hd Hp Hc. destruct (t_root r N Ht) as (rn & Hr & Hrp & Hrd & Hrs).
  assert (d ≠ r) as Hdr by congruence.
  assert (∀ x q m, x ≠ d → is_child r (<[d := Node p nm id dir pos]> N) q m x → is_child r N q m x) as Hold.
  { intros x q m Hx (? & n & Hn & ?). rewrite lookup_insert_ne in Hn by done. split; eauto. }
  split.
  - exists rn. rewrite lookup_insert_ne by done. done.
  - intros q m d1 d2 H1 H2. rewrite child_None in Hc.
    destruct (decide (d1 = d)) as [-> | E1], (decide (d2 = d)) as [-> | E2]; try done.
    + destruct H1 as (_ & ? & E & <- & <-). rewrite lookup_insert_eq in E. injection E as <-.
      by destruct (Hc d2 (Hold _ _ _ E2 H2)).
    + destruct H2 as (_ & ? & E & <- & <-). rewrite lookup_insert_eq in E. injection E as <-.
      by destruct (Hc d1 (Hold _ _ _ E1 H1)).
    + eapply (t_unique r N Ht); eauto.
  - assert (∀ x l, upto r N x l → upto r (<[d := Node p nm id dir pos]> N) x l) as Hup.
    { intros x l Hl. eapply upto_frame; [| done]. intros y Hy _. rewrite lookup_insert_ne; [done |].
      intros <-. destruct (upto_dom r N x l d); [by eexists | done | done | congruence]. }
    intros x Hx. destruct (decide (x = d)) as [-> |].
    + destruct (t_up r N Ht p) as [l Hl]; [by eexists |]. exists (d :: l).
      econstructor; [apply lookup_insert_eq | done | by apply Hup].
    + rewrite lookup_insert_ne in Hx by done. destruct (t_up r N Ht x Hx) as [l Hl]. eauto.
Qed.

Lemma is_child_delete N t p nm d : is_child r (delete t N) p nm d → is_child r N p nm d ∧ d ≠ t.
Proof.
  intros (? & n & [? ?]%lookup_delete_Some & ?). split; [| done]. split; eauto.
Qed.

Lemma tree_remove N d :
  tree r N → d ≠ r → kids r N d = [] → tree r (delete d N).
Proof.
  intros Ht Hd Hk. rewrite kids_nil in Hk. destruct (t_root r N Ht) as (rn & Hr & Hrp & Hrd & Hrs).
  split.
  - exists rn. by rewrite lookup_delete_ne.
  - intros p nm d1 d2 [H1 _]%is_child_delete [H2 _]%is_child_delete. by eapply (t_unique r N Ht).
  - intros x [n [Hx Hn]%lookup_delete_Some]. destruct (t_up r N Ht x) as [l Hl]; [by eexists |].
    exists l. eapply upto_frame; [| exact Hl]. intros y Hy Hyr. rewrite lookup_delete_ne; [done |].
    intros <-. clear Hyr n Hn. induction Hl as [| x m l Hm Hxr Hl IH].
    { by apply list_elem_of_singleton in Hy. }
    apply elem_of_cons in Hy as [-> | Hy]; [done |].
    destruct (upto_head _ _ _ _ Hl) as [l' ->].
    destruct (decide (n_parent m = d)) as [E | Hne]; [by destruct (Hk x m Hxr Hm) |].
    by apply IH.
Qed.

Lemma tree_move N v vn p pn nm l :
  tree r N → N !! v = Some vn → v ≠ r → N !! p = Some pn → upto r N p l →
  child r N p nm = None → n_parent vn = p ∨ v ∉ l →
  tree r (<[v := moved vn p nm]> N).
Proof.
  intros Ht Hv Hvr Hp Hl Hc Hloop. destruct (t_root r N Ht) as (rn & Hr & Hrp & Hrd & Hrs).
  set (N' := <[v := moved vn p nm]> N).
  assert (∀ x q m, x ≠ v → is_child r N' q m x → is_child r N q m x) as Hold.
  { intros x q m Hx (? & n & Hn & ?). unfold N' in Hn. rewrite lookup_insert_ne in Hn by done.
    split; eauto. }
  assert (v ∉ l) as Hav.
  { destruct Hloop as [<- |]; [| done]. by eapply upto_parent_avoid. }
  split.
  - exists rn. unfold N'. by rewrite lookup_insert_ne.
  - intros q m d1 d2 H1 H2. rewrite child_None in Hc.
    destruct (decide (d1 = v)) as [-> | E1], (decide (d2 = v)) as [-> | E2]; try done.
    + destruct H1 as (_ & ? & E & <- & <-). unfold N' in E. rewrite lookup_insert_eq in E.
      injection E as <-. by destruct (Hc d2 (Hold _ _ _ E2 H2)).
    + destruct H2 as (_ & ? & E & <- & <-). unfold N' in E. rewrite lookup_insert_eq in E.
      injection E as <-. by destruct (Hc d1 (Hold _ _ _ E1 H1)).
    + eapply (t_unique r N Ht); eauto.
  - assert (∀ x, is_Some (N' !! x) ↔ is_Some (N !! x)) as Hdom.
    { intros x. unfold N'. destruct (decide (v = x)) as [<- |].
      - rewrite lookup_insert_eq, Hv. split; by eexists.
      - by rewrite lookup_insert_ne. }
    intros x Hx. destruct (t_up r N Ht x) as [lx Hlx]; [by apply Hdom |].
    eapply (upto_reparent r N N' {[v]}); [| | | set_solver | exact Hlx | by left].
    + intros y Hy _ _. unfold N'. rewrite lookup_insert_ne by set_solver. done.
    + intros y ->%elem_of_singleton _. exists (moved vn p nm), l.
      split_and!; [apply lookup_insert_eq | done |]. intros y Hy. split; [set_solver |].
      intros _. apply Hdom. eapply upto_dom; [by eexists | exact Hl | done].
    + intros y n Hy Hyv _. left. apply Hdom. unfold N' in Hy. rewrite lookup_insert_ne in Hy by set_solver.
      by eapply tree_parent.
Qed.

Lemma tree_exchange N da db an bn la lb :
  tree r N → N !! da = Some an → N !! db = Some bn → da ≠ db → da ≠ r → db ≠ r →
  upto r N (n_parent an) la → upto r N (n_parent bn) lb →
  n_parent an = n_parent bn ∨ ((da ∉ lb) ∧ db ∉ la) →
  tree r (<[da := moved an (n_parent bn) (n_name bn)]>
           (<[db := moved bn (n_parent an) (n_name an)]> N)).
Proof.
  intros Ht Ha Hb Hab Har Hbr Hla Hlb Hloop.
  destruct (t_root r N Ht) as (rn & Hr & Hrp & Hrd & Hrs).
  set (N' := <[da := _]> (<[db := _]> N)).
  assert (∀ x, x ≠ da → x ≠ db → N' !! x = N !! x) as Hsame.
  { intros x ? ?. unfold N'. by rewrite !lookup_insert_ne. }
  assert (N' !! da = Some (moved an (n_parent bn) (n_name bn))) as Ha' by apply lookup_insert_eq.
  assert (N' !! db = Some (moved bn (n_parent an) (n_name an))) as Hb'.
  { unfold N'. rewrite lookup_insert_ne by done. apply lookup_insert_eq. }
  assert (da ∉ la) as Haa by (by apply (upto_parent_avoid r N da an)).
  assert (db ∉ lb) as Hbb by (by apply (upto_parent_avoid r N db bn)).
  assert ((da ∉ lb) ∧ db ∉ la) as [Halb Hbla].
  { destruct Hloop as [E |]; [| done]. rewrite E in Hla.
    pose proof (upto_det r N _ _ _ Hla Hlb). by subst la. }
  (* positions: swapping two dentries permutes the occupied positions *)
  set (sw := λ x, if decide (x = da) then db else if decide (x = db) then da else x).
  assert (∀ q m x, is_child r N' q m x → is_child r N q m (sw x)) as Hsw.
  { intros q m x (Hx & n & Hn & <- & <-). unfold sw.
    destruct (decide (x = da)) as [-> | ]; [| destruct (decide (x = db)) as [-> |]].
    - rewrite Ha' in Hn. injection Hn as <-. split; [done |]. by exists bn.
    - rewrite Hb' in Hn. injection Hn as <-. split; [done |]. by exists an.
    - rewrite Hsame in Hn by done. split; eauto. }
  split.
  - exists rn. by rewrite Hsame by congruence.
  - intros q m d1 d2 H1%Hsw H2%Hsw. pose proof (t_unique r N Ht _ _ _ _ H1 H2) as E.
    unfold sw in E. repeat case_decide; congruence.
  - assert (∀ x, is_Some (N' !! x) ↔ is_Some (N !! x)) as Hdom.
    { intros x. destruct (decide (x = da)) as [-> |]; [by rewrite Ha', Ha |].
      destruct (decide (x = db)) as [-> |]; [by rewrite Hb', Hb |]. by rewrite Hsame. }
    assert (∀ l p, upto r N p l → ∀ y, y ∈ l → is_Some (N' !! y)) as Hl.
    { intros l p Hl y Hy. apply Hdom. eapply upto_dom; [by eexists | exact Hl | done]. }
    intros x Hx. destruct (t_up r N Ht x) as [lx Hlx]; [by apply Hdom |].
    eapply (upto_reparent r N N' {[da; db]}); [| | | set_solver | exact Hlx | by left].
    + intros y Hy _ _. by rewrite Hsame by set_solver.
    + intros y [->%elem_of_singleton | ->%elem_of_singleton]%elem_of_union _.
      * exists (moved an (n_parent bn) (n_name bn)), lb. split_and!; [done | done |].
        intros y Hy. split; [set_solver | eauto].
      * exists (moved bn (n_parent an) (n_name an)), la. split_and!; [done | done |].
        intros y Hy. split; [set_solver | eauto].
    + intros y n Hy Hyv _. left. apply Hdom. rewrite Hsame in Hy by set_solver.
      by eapply tree_parent.
Qed.

Lemma upto_weaken (N N' : nspace) d l : N ⊆ N' → upto r N d l → upto r N' d l.
Proof.
  intros Hs. induction 1 as [| d n l Hn Hd H IH]; [constructor |].
  econstructor; [by eapply lookup_weaken | done | done].
Qed.

(** *** Types *)

Lemma typed_kids N d n :
  typed r N → N !! d = Some n → n_dir n = false ∨ n_pos n = false → kids r N d = [].
Proof.
  intros Hty Hn Hf. apply kids_nil. intros x m Hx Hm E. rewrite <- E in Hn.
  destruct (Hty x m n Hx Hm Hn) as [? ?]. destruct Hf; congruence.
Qed.

Lemma typed_set_attrs N d n id dir pos :
  typed r N → N !! d = Some n → (dir = true ∧ pos = true) ∨ kids r N d = [] →
  typed r (<[d := Node (n_parent n) (n_name n) id dir pos]> N).
Proof.
  intros Hty Hn Hc x m pm Hx Hm Hpm.
  assert (∃ m0, N !! x = Some m0 ∧ n_parent m0 = n_parent m) as (m0 & Hm0 & Ep).
  { destruct (decide (d = x)) as [<- |].
    - rewrite lookup_insert_eq in Hm. injection Hm as <-. eauto.
    - rewrite lookup_insert_ne in Hm by done. eauto. }
  destruct (decide (d = n_parent m)) as [E | E].
  - rewrite <- E, lookup_insert_eq in Hpm. injection Hpm as <-. simpl.
    destruct Hc as [? | Hk]; [done |]. rewrite kids_nil in Hk. exfalso.
    apply (Hk x m0); congruence.
  - rewrite lookup_insert_ne in Hpm by done. rewrite <- Ep in Hpm. by eapply Hty.
Qed.

Lemma typed_add N d p pn nm id dir pos :
  tree r N → typed r N → N !! d = None → N !! p = Some pn → n_dir pn = true → n_pos pn = true →
  typed r (<[d := Node p nm id dir pos]> N).
Proof.
  intros Ht Hty Hd Hp Hdir Hpos x m pm Hx Hm Hpm.
  destruct (decide (d = n_parent m)) as [E | E].
  - exfalso. destruct (decide (d = x)) as [<- |].
    + rewrite lookup_insert_eq in Hm. injection Hm as <-. simpl in E. congruence.
    + rewrite lookup_insert_ne in Hm by done.
      destruct (tree_parent r N x m Ht Hm) as [? ?]. congruence.
  - rewrite lookup_insert_ne in Hpm by done. destruct (decide (d = x)) as [<- |].
    + rewrite lookup_insert_eq in Hm. injection Hm as <-. simpl in *. by simplify_eq.
    + rewrite lookup_insert_ne in Hm by done. by eapply Hty.
Qed.

Lemma typed_remove N d : typed r N → typed r (delete d N).
Proof.
  intros Hty x m pm Hx [_ Hm]%lookup_delete_Some [_ Hpm]%lookup_delete_Some. by eapply Hty.
Qed.

(** A new parent that is an existing directory keeps the typing. *)
Lemma typed_move N v vn p pn nm :
  typed r N → N !! v = Some vn → N !! p = Some pn → n_dir pn = true → n_pos pn = true →
  typed r (<[v := moved vn p nm]> N).
Proof.
  intros Hty Hv Hp Hdir Hpos x m pm Hx Hm Hpm.
  assert (∀ q qn, <[v := moved vn p nm]> N !! q = Some qn →
    ∃ qn', N !! q = Some qn' ∧ n_dir qn' = n_dir qn ∧ n_pos qn' = n_pos qn) as Hq.
  { intros q qn Hqn. destruct (decide (v = q)) as [<- |].
    - rewrite lookup_insert_eq in Hqn. injection Hqn as <-. eauto.
    - rewrite lookup_insert_ne in Hqn by done. eauto. }
  destruct (Hq _ _ Hpm) as (qn & Hqn & <- & <-). destruct (decide (v = x)) as [<- |].
  - rewrite lookup_insert_eq in Hm. injection Hm as <-. simpl in Hqn. by simplify_eq.
  - rewrite lookup_insert_ne in Hm by done. by eapply Hty.
Qed.
End tree_ops.
