(* ===== verification/Paths.v ===== *)
(** Paths in a name space: the names that lead to a dentry, and how they relate to
    the walk down and the way up. *)

From S2P Require Import Prelude Qstr World Walk Namespace TreeOps.

Definition name_of (N : nspace) (d : Z) : list Z :=
  match N !! d with Some n => n_name n | None => [] end.

(** The names from the root to [d], by climbing. *)
Fixpoint npath_up (fuel : nat) (r : Z) (N : nspace) (d : Z) : list (list Z) :=
  match fuel with
  | O => []
  | S fuel' =>
      if d =? r then []
      else match N !! d with
           | None => []
           | Some n => npath_up fuel' r N (n_parent n) ++ [n_name n]
           end
  end.

Definition npath (r : Z) (N : nspace) (d : Z) : list (list Z) := npath_up (size N) r N d.

Section paths.
  Context (r : Z) (N : nspace).

Lemma name_of_Some d n : N !! d = Some n → name_of N d = n_name n.
Proof. unfold name_of. by intros ->. Qed.

(** The names along the way up, root first, the root itself left out. *)
Definition chain_names (l : list Z) : list (list Z) := reverse (name_of N <$> filter (λ x, x ≠ r) l).

Lemma npath_up_spec d l : ∀ fuel,
  upto r N d l → (length l ≤ fuel)%nat → npath_up fuel r N d = chain_names l.
Proof.
  intros fuel H. revert fuel. induction H as [| d n l Hn Hd H IH]; intros fuel Hf;
    (destruct fuel as [| fuel]; [simpl in Hf; lia |]); cbn [npath_up].
  - rewrite Z.eqb_refl. unfold chain_names. rewrite filter_cons_False by (by intros ?). done.
  - destruct (Z.eqb_spec d r); [done |]. rewrite Hn, (IH fuel) by (simpl in Hf; lia).
    unfold chain_names. rewrite filter_cons_True by done. rewrite fmap_cons, reverse_cons.
    by rewrite (name_of_Some d n).
Qed.

Context (Ht : tree r N).

Lemma npath_spec d l : upto r N d l → npath r N d = chain_names l.
Proof.
  intros Hl. apply npath_up_spec; [done |]. destruct (t_root r N Ht) as (rn & Hr & _).
  eapply upto_length; [by eexists | done].
Qed.

Lemma npath_root : npath r N r = [].
Proof.
  rewrite (npath_spec r [r]) by constructor. unfold chain_names.
  rewrite filter_cons_False by (by intros ?). done.
Qed.

Lemma npath_step d n : N !! d = Some n → d ≠ r → npath r N d = npath r N (n_parent n) ++ [n_name n].
Proof.
  intros Hn Hd. destruct (t_up r N Ht d) as [l Hl]; [by eexists |].
  rewrite (npath_spec d l Hl). destruct Hl as [| d n' l Hn' _ Hl]; [done |].
  rewrite Hn in Hn'. injection Hn' as <-. rewrite (npath_spec _ l Hl). unfold chain_names.
  rewrite filter_cons_True by done. rewrite fmap_cons, reverse_cons. by rewrite (name_of_Some d n).
Qed.

(** The names of a dentry lead to it. *)
Lemma nwalk_npath d : is_Some (N !! d) → nwalk r N r (npath r N d) = Some d.
Proof.
  intros Hd. destruct (t_up r N Ht d Hd) as [l Hl]. induction Hl as [| d n l Hn Hdr Hl IH].
  { by rewrite npath_root. }
  rewrite (npath_step d n) by done. rewrite nwalk_snoc, IH by (by eapply tree_parent). simpl.
  apply child_Some; [done |]. split; [done |]. eauto.
Qed.

(** And only they do: a path is the name of one dentry. *)
Lemma npath_nwalk names d : nwalk r N r names = Some d → npath r N d = names.
Proof.
  revert d. induction names as [| nm names IH] using rev_ind; intros d.
  { intros [= <-]. apply npath_root. }
  rewrite nwalk_snoc. destruct (nwalk r N r names) as [p |] eqn:E; simpl; [| done].
  intros (Hd & n & Hn & Hp & Hnm)%child_Some_1. rewrite (npath_step d n) by done.
  by rewrite Hp, Hnm, (IH p).
Qed.

Lemma npath_length d l : upto r N d l → length l = S (length (npath r N d)).
Proof.
  induction 1 as [| d n l Hn Hdr Hl IH]; [by rewrite npath_root |].
  rewrite (npath_step d n), length_app by done. simpl. lia.
Qed.

End paths.

(** ** What lookups and the census report *)

(** The state a lookup reports for a dentry. *)
Definition state_of (N : nspace) (d : Z) : dc_result :=
  match N !! d with
  | Some n => if n_pos n then DC_POSITIVE else DC_NEGATIVE
  | None => DC_ABSENT
  end.

(** [dc_lookup]'s result, and [*out_id] when it is written. *)
Definition lookup_result (N : nspace) (o : option Z) : dc_result * option Z :=
  match o with
  | Some d => (state_of N d, if decide (state_of N d = DC_POSITIVE) then Some d else None)
  | None => (DC_ABSENT, None)
  end.

(** The dentries the census reports: the objects, down to the depth a path can
    hold. *)
Definition counted (r : Z) (N : nspace) (x : Z) : Prop :=
  x ≠ r ∧ (length (npath r N x) ≤ DC_PATH_MAX)%nat ∧ ∃ n, N !! x = Some n ∧ n_pos n = true.

(** One call of its callback. *)
Definition census_call {X} (r : Z) (N : nspace) (f : Z → list (list Z) → X → X) (a : X) (x : Z) : X :=
  match N !! x with Some n => f (n_id n) (npath r N x) a | None => a end.
