(* ===== verification/Inv.v ===== *)
(** The invariant of the seqlock engine between operations, and how each of its
    parts (hash chains, child lists, LRU, deferred frees, locks, counters) follows
    a change of the name space. *)

From S2P Require Import Prelude Qstr HList HashTab Children Lru Seqcount World Namespace.

(** ** The name space a world holds *)

Definition view (c : core) : node :=
  {| n_parent := dparent_of c; n_name := qname (d_name c); n_id := d_id c;
     n_dir := d_isdir c; n_pos := d_is_positive c |}.

Definition view_hashed (c : core) : option node :=
  if d_is_unhashed c then None else Some (view c).

Definition ns_of (cores : gmap Z core) : nspace := omap view_hashed cores.

Definition ns (w : world) : nspace := ns_of (w_core w).

(** ** The parts *)

(** A name as [dc_qstr_init] makes it, a parent word that is an aligned pointer
    with two tag bits. *)
Definition core_ok (c : core) : Prop :=
  qstr_wf (d_name c) ∧ tagged (dparent_of c) (Z.land (d_parent c) DC_TAG_MASK) (d_parent c).

Definition cores_ok (cores : gmap Z core) : Prop :=
  ∀ d c, cores !! d = Some c → core_ok c ∧ aligned d ∧ d ≠ 0.

Definition seqs_ok (D : gset Z) (seqs : gmap Z Z) : Prop :=
  dom seqs = D ∧ ∀ d s, seqs !! d = Some s → seq_even s.

(** The bucket a dentry belongs to. *)
Definition bucket_for (mask : Z) (n : node) : nat :=
  bucket_no mask (n_parent n) (fnv (n_name n)).

(** Every chain holds exactly the hashed dentries of its bucket. *)
Record hash_ok (mask r : Z) (D : gset Z) (N : nspace) (h : htab) : Prop := {
  ho_dom : dom (ht_node h) = D;
  ho_len : length (ht_first h) = Z.to_nat (mask + 1);
  ho_rep : ∃ C, hrep h C ∧
    ∀ i d, d ∈ C i ↔ d ≠ r ∧ ∃ n, N !! d = Some n ∧ bucket_for mask n = i;
}.

(** Every child list holds exactly the dentries of its directory. *)
Record kids_ok (r : Z) (D : gset Z) (N : nspace) (m : gmap Z dc_kid) : Prop := {
  ko_dom : dom m = D;
  ko_rep : ∃ K, krep m K ∧ ∀ p d, d ∈ K p ↔ d ≠ r ∧ ∃ n, N !! d = Some n ∧ n_parent n = p;
}.

(** The dentries the shrinker may have isolated and not yet killed or put back;
    none between operations. *)
Class Isolated := isolated : gset Z.

Section lru_inv.
  Context {ISO : Isolated}.

(** The membership word: a live dentry is off the LRU, on a list or isolated, a
    killed one is dead, and the root is never on a list. *)
Definition word_ok (r : Z) (N : nspace) (d w : Z) : Prop :=
  match N !! d with
  | Some _ =>
      if decide (d ∈ isolated) then w = DC_SEQ_LRU_SHRINK ∧ d ≠ r
      else w = DC_SEQ_LRU_OFF ∨ d ≠ r ∧ ∃ i, (i < DC_LRU_NODES)%nat ∧ w = DC_SEQ_LRU_ON i
  | None => w = DC_SEQ_LRU_DEAD
  end.

Record lru_inv (r : Z) (D : gset Z) (N : nspace) (s : lru_state) : Prop := {
  lo_ok : lru_ok s;
  lo_free : all_unlocked s;
  lo_dom : dom (words s) = D;
  lo_iso : isolated ⊆ D;
  lo_word : ∀ d w, words s !! d = Some w → word_ok r N d w;
}.

End lru_inv.

(** The dentries waiting for a grace period are the ones no longer hashed. *)
Record rcu_ok (D : gset Z) (N : nspace) (q : list Z) : Prop := {
  ro_nodup : NoDup q;
  ro_mem : ∀ d, d ∈ q ↔ d ∈ D ∧ N !! d = None;
}.

Definition locks_free (D : gset Z) (l : gmap Z Z) : Prop := l = gset_to_gmap 0 D.

Definition bits_free (mask : Z) (h : htab) : Prop :=
  bits h = replicate (Z.to_nat (mask + 1)) 0.

(** ** The invariant *)

Section inv.
  Context {ISO : Isolated}.

(** What holds of the data, whatever locks are held. *)
Record coherent (w : world) : Prop := {
  inv_mask : ∃ b, 0 ≤ b ≤ 31 ∧ w_mask w = Z.ones b;
  inv_core : cores_ok (w_core w);
  inv_seq : seqs_ok (dom (w_core w)) (w_seq w);
  inv_hash : hash_ok (w_mask w) (w_root w) (dom (w_core w)) (ns w) (w_hash w);
  inv_kids : kids_ok (w_root w) (dom (w_core w)) (ns w) (w_kids w);
  inv_lru : lru_inv (w_root w) (dom (w_core w)) (ns w) (w_lru w);
  inv_rcu : rcu_ok (dom (w_core w)) (ns w) (w_rcu w);
  inv_tree : tree (w_root w) (ns w);
  inv_typed : typed (w_root w) (ns w);
}.

(** Between operations, inside [k] read sections: every lock is free. *)
Record inv (k : nat) (w : world) : Prop := {
  inv_coh :> coherent w;
  inv_lock : locks_free (dom (w_core w)) (w_lock w);
  inv_bits : bits_free (w_mask w) (w_hash w);
  inv_rename : sl_quiet (w_rename w);
  inv_mutex : w_mutex w = false;
  inv_nest : w_nest w = k;
}.

End inv.

(** Between operations the data is coherent: used wherever a lemma asks for it. *)
#[export] Hint Extern 0 (coherent _) => eapply inv_coh; eassumption : core.

(** ** Names and tags *)

Lemma ns_lookup cores d n :
  ns_of cores !! d = Some n ↔ ∃ c, cores !! d = Some c ∧ d_is_unhashed c = false ∧ n = view c.
Proof.
  unfold ns_of. rewrite lookup_omap. destruct (cores !! d) as [c |]; simpl.
  - unfold view_hashed. destruct (d_is_unhashed c) eqn:E; split.
    + done.
    + intros (? & [= <-] & ? & _). congruence.
    + intros [= <-]. eauto.
    + by intros (? & [= <-] & _ & ->).
  - split; [done |]. by intros (? & ? & _).
Qed.

Lemma ns_lookup_core cores d c :
  cores !! d = Some c → d_is_unhashed c = false → ns_of cores !! d = Some (view c).
Proof. intros. apply ns_lookup. eauto. Qed.

Lemma ns_dom w d : is_Some (ns w !! d) → d ∈ dom (w_core w).
Proof. intros [n (c & ? & _)%ns_lookup]. apply elem_of_dom. by eexists. Qed.

Lemma ns_insert cores d c :
  ns_of (<[d := c]> cores) =
    if d_is_unhashed c then delete d (ns_of cores) else <[d := view c]> (ns_of cores).
Proof.
  unfold ns_of. apply map_eq. intros x. rewrite lookup_omap. destruct (decide (d = x)) as [<- |].
  - rewrite lookup_insert_eq. simpl. unfold view_hashed.
    destruct (d_is_unhashed c); [by rewrite lookup_delete_eq | by rewrite lookup_insert_eq].
  - rewrite lookup_insert_ne by done.
    destruct (d_is_unhashed c); [rewrite lookup_delete_ne | rewrite lookup_insert_ne]; try done;
      by rewrite lookup_omap.
Qed.

Lemma ns_delete cores d : ns_of (delete d cores) = delete d (ns_of cores).
Proof. unfold ns_of. apply omap_delete. Qed.

(** The parent word [p + t]: its tag and its pointer. *)
Lemma view_word q p t id dir :
  aligned p → 0 ≤ t < 4 →
  let c := {| d_name := q; d_parent := p + t; d_id := id; d_isdir := dir |} in
  dparent_of c = p ∧ Z.land (d_parent c) DC_TAG_MASK = t ∧
  d_is_unhashed c = negb (t mod 2 =? 0) ∧ d_is_positive c = (t / 2 =? 0).
Proof.
  intros Ha Ht c. assert (tagged p t (p + t)) as Htag by done.
  unfold dparent_of, d_is_unhashed, d_is_positive, DC_TAG_MASK, DC_TAG_UNHASHED, DC_TAG_NEG. simpl.
  rewrite (tagged_ptr p t), (tagged_tag p t), (tagged_bit0 p t), (tagged_bit1 p t) by done.
  split_and!; try done. apply eq_bool_prop_intro. rewrite !Is_true_true, !Z.eqb_eq. lia.
Qed.

(** The tag bits of a core, and the core rebuilt from them. *)
Definition tag (c : core) : Z := Z.land (d_parent c) DC_TAG_MASK.

Lemma tag_range c : 0 ≤ tag c < 4.
Proof. unfold tag, DC_TAG_MASK. rewrite land_3_mod. apply Z.mod_pos_bound. lia. Qed.

Lemma core_word c : core_ok c → d_parent c = dparent_of c + tag c ∧ aligned (dparent_of c).
Proof. intros [_ (Ha & _ & E)]. done. Qed.

Lemma unhashed_tag c : core_ok c → d_is_unhashed c = negb (tag c mod 2 =? 0).
Proof.
  intros Hc. destruct (core_word c Hc) as [E Ha]. pose proof (tag_range c) as Ht.
  destruct (view_word (d_name c) (dparent_of c) (tag c) (d_id c) (d_isdir c) Ha Ht) as (_ & _ & H & _).
  rewrite <- E in H. by destruct c.
Qed.

Lemma positive_tag c : core_ok c → d_is_positive c = (tag c / 2 =? 0).
Proof.
  intros Hc. destruct (core_word c Hc) as [E Ha]. pose proof (tag_range c) as Ht.
  destruct (view_word (d_name c) (dparent_of c) (tag c) (d_id c) (d_isdir c) Ha Ht) as (_ & _ & _ & H).
  rewrite <- E in H. by destruct c.
Qed.

(** Rewriting a parent word as pointer plus tag. *)
Lemma core_retag c p t :
  core_ok c → aligned p → 0 ≤ t < 4 →
  core_ok (set_d_parent (p + t) c) ∧
  view (set_d_parent (p + t) c) =
    Node p (qname (d_name c)) (d_id c) (d_isdir c) (t / 2 =? 0) ∧
  d_is_unhashed (set_d_parent (p + t) c) = negb (t mod 2 =? 0).
Proof.
  intros [Hq _] Ha Ht.
  destruct (view_word (d_name c) p t (d_id c) (d_isdir c) Ha Ht) as (E1 & E2 & E3 & E4).
  fold (set_d_parent (p + t) c) in *. split_and!; [| | done].
  - split; [done |]. by rewrite E1, E2.
  - unfold view. by rewrite E1, E4.
Qed.

Lemma lor_tag_range a b : 0 ≤ a < 4 → 0 ≤ b < 4 → 0 ≤ Z.lor a b < 4.
Proof.
  intros Ha Hb. assert (a = 0 ∨ a = 1 ∨ a = 2 ∨ a = 3) as Ca by lia.
  assert (b = 0 ∨ b = 1 ∨ b = 2 ∨ b = 3) as Cb by lia.
  by destruct Ca as [-> | [-> | [-> | ->]]], Cb as [-> | [-> | [-> | ->]]].
Qed.

(** A hashed core has tag 0 (positive) or 2 (negative). *)
Lemma tag_hashed c :
  core_ok c → d_is_unhashed c = false → tag c = if d_is_positive c then 0 else 2.
Proof.
  intros Hc Hu. rewrite (unhashed_tag c Hc) in Hu. rewrite (positive_tag c Hc).
  pose proof (tag_range c). apply negb_false_iff, Z.eqb_eq in Hu.
  destruct (Z.eqb_spec (tag c / 2) 0); Z.to_euclidean_division_equations; lia.
Qed.

(** [DC_SET_UNHASHED] *)
Lemma core_set_unhashed c :
  core_ok c → let c' := set_d_parent (Z.lor (d_parent c) DC_TAG_UNHASHED) c in
  core_ok c' ∧ d_is_unhashed c' = true.
Proof.
  intros Hc. destruct (core_word c Hc) as [E Ha]. pose proof (tag_range c) as Ht. simpl.
  rewrite E. rewrite <- (aligned_lor _ (tag c)) by (done || lia). rewrite <- Z.lor_assoc.
  pose proof (lor_tag_range (tag c) 1 Ht ltac:(lia)). unfold DC_TAG_UNHASHED.
  rewrite aligned_lor by (done || lia).
  destruct (core_retag c (dparent_of c) (Z.lor (tag c) 1)) as (H1 & _ & H2); [done | done | done |].
  split; [done |]. rewrite H2. rewrite lor_1_mod2. done.
Qed.

(** Setting and clearing DC_TAG_NEG on a hashed dentry. *)
Lemma core_set_neg c :
  core_ok c → d_is_unhashed c = false →
  let c' := set_d_parent (Z.lor (d_parent c) DC_TAG_NEG) c in
  core_ok c' ∧ d_is_unhashed c' = false ∧
  view c' = Node (dparent_of c) (qname (d_name c)) (d_id c) (d_isdir c) false.
Proof.
  intros Hc Hu. destruct (core_word c Hc) as [E Ha]. simpl.
  assert (Z.lor (d_parent c) DC_TAG_NEG = dparent_of c + 2) as ->.
  { rewrite E, (tag_hashed c Hc Hu), <- (aligned_lor _ (if d_is_positive c then 0 else 2))
      by (done || destruct (d_is_positive c); lia).
    rewrite <- Z.lor_assoc. rewrite <- aligned_lor by (done || lia). f_equal.
    by destruct (d_is_positive c). }
  by destruct (core_retag c (dparent_of c) 2 Hc Ha) as (? & ? & ?).
Qed.

Lemma core_clear_neg c :
  core_ok c → d_is_unhashed c = false →
  let c' := set_d_parent (Z.land (d_parent c) (Z.lnot DC_TAG_NEG)) c in
  core_ok c' ∧ d_is_unhashed c' = false ∧
  view c' = Node (dparent_of c) (qname (d_name c)) (d_id c) (d_isdir c) true.
Proof.
  intros Hc Hu. destruct (core_word c Hc) as [E Ha]. simpl.
  assert (Z.land (d_parent c) (Z.lnot DC_TAG_NEG) = dparent_of c + 0) as ->.
  { unfold DC_TAG_NEG. rewrite land_lnot_2, E, (tag_hashed c Hc Hu). destruct Ha as [? ?].
    destruct (d_is_positive c); Z.to_euclidean_division_equations; lia. }
  by destruct (core_retag c (dparent_of c) 0 Hc Ha) as (? & ? & ?).
Qed.

Lemma core_set_id c id :
  core_ok c → core_ok (set_d_id id c) ∧ d_is_unhashed (set_d_id id c) = d_is_unhashed c ∧
  view (set_d_id id c) = Node (dparent_of c) (qname (d_name c)) id (d_isdir c) (d_is_positive c).
Proof. done. Qed.

(** A new name and a new parent that keeps the tags. *)
Lemma core_move c p q :
  core_ok c → d_is_unhashed c = false → aligned p → qstr_wf q →
  let c' := set_d_parent (Z.lor p (Z.land (d_parent (set_d_name q c)) DC_TAG_MASK)) (set_d_name q c) in
  core_ok c' ∧ d_is_unhashed c' = false ∧ view c' = moved (view c) p (qname q).
Proof.
  intros Hc Hu Ha Hq. simpl. fold (tag c). pose proof (tag_range c) as Ht.
  rewrite aligned_lor by (done || lia).
  assert (core_ok (set_d_name q c)) as Hc' by (split; [done | apply Hc]).
  destruct (core_retag (set_d_name q c) p (tag c) Hc' Ha Ht) as (? & E & E').
  split_and!; [done | |].
  - by rewrite E', <- (unhashed_tag c Hc).
  - rewrite E. unfold moved. simpl. by rewrite <- (positive_tag c Hc).
Qed.
