(* ===== verification/Parts.v ===== *)
(** How the parts of the invariant follow the primitive actions: the interface
    between the list components (HashTab, Children, Lru) and the operations. *)

From S2P Require Import Prelude Qstr HList HashTab Children Lru Seqcount World Namespace.
From S2P Require Import TreeOps Inv.

(** ** Hash chains *)

Section hash.
  Context (mask r : Z) (D : gset Z).
  Implicit Types (N : nspace) (h : htab).

Lemma hash_ok_ext N N' h :
  hash_ok mask r D N h → (∀ d, place <$> N' !! d = place <$> N !! d) → hash_ok mask r D N' h.
Proof.
  intros [? ? (C & HC & Hm)] E. split; [done | done |]. exists C. split; [done |].
  intros i d. rewrite Hm. specialize (E d). unfold bucket_for, place in *.
  destruct (N !! d) as [n |], (N' !! d) as [n' |]; simpl in E; try done.
  - injection E as E1 E2. split; intros (? & x & [= <-] & <-); (split; [done |]);
      eexists; (split; [done |]); congruence.
Qed.

Lemma wp_hash_lock N h i b :
  hash_ok mask r D N h → bits h !! i = Some 0 → bits h = b →
  wp (bl_lock i) (λ _ h', hash_ok mask r D N h' ∧ bits h' = <[i := 1]> b) h.
Proof.
  intros [Hd Hl (C & HC & Hm)] Hi <-. wp_use wp_bl_lock; [done | done |].
  intros _ h' (HC' & Hb & En). split; [| done]. split; [congruence | | eauto].
  by rewrite <- !length_bits, Hb, length_insert, length_bits in *.
Qed.

Lemma wp_hash_unlock N h i x b :
  hash_ok mask r D N h → bits h !! i = Some x → bits h = b →
  wp (bl_unlock i) (λ _ h', hash_ok mask r D N h' ∧ bits h' = <[i := 0]> b) h.
Proof.
  intros [Hd Hl (C & HC & Hm)] Hi <-. wp_use wp_bl_unlock; [done | done |].
  intros _ h' (HC' & Hb & En). split; [| done]. split; [congruence | | eauto].
  by rewrite <- !length_bits, Hb, length_insert, length_bits in *.
Qed.

Lemma wp_hash_del N h d n :
  hash_ok mask r D N h → N !! d = Some n → d ≠ r →
  wp (hlist_del_rcu d) (λ _ h', hash_ok mask r D (delete d N) h' ∧ bits h' = bits h) h.
Proof.
  intros [Hd Hl (C & HC & Hm)] Hn Hr. wp_use wp_hlist_del_rcu; [done | apply Hm; eauto |].
  intros _ h' (C' & HC' & Hm' & Hb & En). split; [| done]. split; [congruence | |].
  { by rewrite <- !length_bits, Hb, length_bits in *. }
  exists C'. split; [done |]. intros i x. rewrite Hm', Hm. setoid_rewrite lookup_delete_Some.
  naive_solver.
Qed.

Lemma wp_hash_add N h i d n :
  hash_ok mask r D N h → N !! d = None → d ∈ D → d ≠ r → aligned d → d ≠ 0 →
  bits h !! i = Some 1 → bucket_for mask n = i →
  wp (hlist_add_head_rcu i d) (λ _ h', hash_ok mask r D (<[d := n]> N) h' ∧ bits h' = bits h) h.
Proof.
  intros [Hd Hl (C & HC & Hm)] Hn HD Hr Ha H0 Hi Hb.
  wp_use wp_hlist_add_head_rcu; [done | done | | | done | done |].
  - intros j (_ & x & ? & _)%Hm. congruence.
  - apply elem_of_dom. by rewrite Hd.
  - intros _ h' (HC' & Hb' & En). split; [| done]. split; [congruence | |].
    { by rewrite <- !length_bits, Hb', length_bits in *. }
    eexists. split; [done |]. intros j x. destruct (decide (i = j)) as [<- | Hij].
    + rewrite fn_lookup_insert, elem_of_cons, Hm.
      destruct (decide (d = x)) as [<- | Hx]; [rewrite lookup_insert_eq | rewrite lookup_insert_ne by done].
      * split; [| by left]. intros _. split; [done |]. by exists n.
      * split; [by intros [-> | ?] | by right].
    + rewrite fn_lookup_insert_ne by done. rewrite Hm.
      destruct (decide (d = x)) as [<- | Hx]; [rewrite lookup_insert_eq | by rewrite lookup_insert_ne].
      split; intros (_ & ? & E & ?); congruence.
Qed.

(** The chain of a bucket, as a scan finds it. *)
Lemma hash_chain N h i :
  hash_ok mask r D N h → (i < Z.to_nat (mask + 1))%nat →
  ∃ v l, ht_first h !! i = Some v ∧
    hseg (ht_node h) (HSlotBucket i) (Z.land v (Z.lnot DC_BL_LOCK)) l ∧
    (length l ≤ size (ht_node h))%nat ∧
    ∀ d, d ∈ l ↔ d ≠ r ∧ ∃ n, N !! d = Some n ∧ bucket_for mask n = i.
Proof.
  intros [Hd Hl (C & HC & Hm)] Hi. destruct (lookup_lt_is_Some_2 (ht_first h) i) as [v Hv]; [lia |].
  exists v, (C i). split_and!; [done | by apply (hr_seg h C HC) | by apply hrep_chain_length | done].
Qed.

Lemma hash_ok_alloc N h d :
  hash_ok mask r D N h → d ∉ D →
  hash_ok mask r ({[d]} ∪ D) N {| ht_first := ht_first h; ht_node := <[d := hnode0]> (ht_node h) |}.
Proof.
  intros [Hd Hl (C & HC & Hm)] HD. split; simpl; [by rewrite dom_insert_L, Hd | done |].
  exists C. split; [| done]. apply hrep_alloc; [done |]. apply not_elem_of_dom. by rewrite Hd.
Qed.

Lemma hash_ok_free N h d :
  hash_ok mask r D N h → N !! d = None →
  hash_ok mask r (D ∖ {[d]}) N {| ht_first := ht_first h; ht_node := delete d (ht_node h) |}.
Proof.
  intros [Hd Hl (C & HC & Hm)] Hn. split; simpl; [by rewrite dom_delete_L, Hd | done |].
  exists C. split; [| done]. apply hrep_free; [done |]. intros i (_ & ? & ? & _)%Hm. congruence.
Qed.

(** Both locks of a pair are taken and given back whatever their order. *)
Lemma insert_pair {A} (l : list A) x y a : <[x := a]> (<[y := a]> l) = <[y := a]> (<[x := a]> l).
Proof.
  destruct (decide (x = y)) as [-> | ]; [done |]. by apply list_insert_insert_ne.
Qed.

Lemma wp_hash_lock2 N h x y :
  hash_ok mask r D N h → bits_free mask h →
  (x < Z.to_nat (mask + 1))%nat → (y < Z.to_nat (mask + 1))%nat →
  wp (bl_lock2 x y) (λ _ h', hash_ok mask r D N h' ∧
    bits h' = <[x := 1]> (<[y := 1]> (replicate (Z.to_nat (mask + 1)) 0))) h.
Proof.
  intros Hok Hb Hx Hy. unfold bl_lock2. set (n := Z.to_nat (mask + 1)) in *.
  assert (∀ a b h', (a < n)%nat → hash_ok mask r D N h' → a ≠ b →
    bits h' = <[b := 1]> (replicate n 0) →
    wp (bl_lock a) (λ _ h'', hash_ok mask r D N h'' ∧ bits h'' = <[a := 1]> (<[b := 1]> (replicate n 0))) h') as Hsnd.
  { intros a b h' Ha Hok' Hab Hb'. wp_use wp_hash_lock; [done | | done | done].
    rewrite Hb', list_lookup_insert_ne by done. by apply lookup_replicate_2. }
  assert (∀ a h', (a < n)%nat → hash_ok mask r D N h' → bits h' = replicate n 0 →
    wp (bl_lock a) (λ _ h'', hash_ok mask r D N h'' ∧ bits h'' = <[a := 1]> (replicate n 0)) h') as Hfst.
  { intros a h' Ha Hok' Hb'. wp_use wp_hash_lock; [done | | done | done].
    rewrite Hb'. by apply lookup_replicate_2. }
  case_decide as E; [subst y | destruct (Nat.ltb_spec x y)].
  - wp_use Hfst; [done | done | done |]. intros _ h' [? Hb']. split; [done |].
    by rewrite list_insert_insert_eq.
  - wp_step. wp_use Hfst; [done | done | done |]. intros _ h' [? Hb'].
    wp_use (Hsnd y x h'); [done | done | done | done |]. intros _ h'' [? ->]. split; [done |].
    apply insert_pair.
  - wp_step. wp_use Hfst; [exact Hy | done | done |]. intros _ h' [? Hb'].
    by wp_use (Hsnd x y h').
Qed.

Lemma wp_hash_unlock2 N h x y :
  hash_ok mask r D N h →
  bits h = <[x := 1]> (<[y := 1]> (replicate (Z.to_nat (mask + 1)) 0)) →
  (x < Z.to_nat (mask + 1))%nat → (y < Z.to_nat (mask + 1))%nat →
  wp (bl_unlock2 x y) (λ _ h', hash_ok mask r D N h' ∧ bits_free mask h') h.
Proof.
  intros Hok Hb Hx Hy. unfold bl_unlock2, bits_free. set (n := Z.to_nat (mask + 1)) in *.
  assert (∀ a, (a < n)%nat → <[a := 0]> (<[a := 1]> (replicate n 0)) = replicate n 0) as Hback.
  { intros a Ha. rewrite list_insert_insert_eq. apply list_insert_id. by apply lookup_replicate_2. }
  wp_step. wp_use wp_hash_unlock; [done | | done |].
  { rewrite Hb. apply list_lookup_insert_eq. by rewrite length_insert, length_replicate. }
  intros _ h' [Hok' Hb']. case_decide as E.
  - subst y. wp_step. split; [done |]. rewrite Hb', list_insert_insert_eq, list_insert_insert_eq.
    rewrite <- (Hback x Hx) at 2. by rewrite list_insert_insert_eq.
  - rewrite list_insert_insert_eq, list_insert_insert_ne in Hb' by done.
    rewrite (list_insert_id (replicate n 0) x) in Hb' by (by apply lookup_replicate_2).
    wp_use wp_hash_unlock; [done | | done |].
    { rewrite Hb'. apply list_lookup_insert_eq. by rewrite length_replicate. }
    intros _ h'' [? Hb'']. split; [done |]. by rewrite Hb'', Hback.
Qed.

End hash.

(** ** Child lists *)

Section kids.
  Context (r : Z) (D : gset Z).
  Implicit Types (N : nspace) (m : gmap Z dc_kid).

Lemma kids_ok_ext N N' m :
  kids_ok r D N m → (∀ d, n_parent <$> N' !! d = n_parent <$> N !! d) → kids_ok r D N' m.
Proof.
  intros [? (K & HK & Hm)] E. split; [done |]. exists K. split; [done |].
  intros p d. rewrite Hm. specialize (E d).
  destruct (N !! d) as [n |], (N' !! d) as [n' |]; simpl in E; try done.
  injection E as E. split; intros (? & x & [= <-] & <-); eauto.
Qed.

Lemma wp_kids_add N m p d n :
  kids_ok r D N m → N !! d = None → d ∈ D → p ∈ D → d ≠ r → d ≠ 0 → n_parent n = p →
  wp (children_add p d) (λ _ m', kids_ok r D (<[d := n]> N) m') m.
Proof.
  intros [Hd (K & HK & Hm)] Hn HdD HpD Hr H0 Hp.
  wp_use wp_children_add; [done | | | done | |].
  1-2: apply elem_of_dom; by rewrite Hd.
  - intros q (_ & x & ? & _)%Hm. congruence.
  - intros _ m' (HK' & Ed). split; [congruence |]. eexists. split; [done |]. intros q x.
    destruct (decide (p = q)) as [<- | Hpq].
    + rewrite fn_lookup_insert, elem_of_cons, Hm.
      destruct (decide (d = x)) as [<- | Hx]; [rewrite lookup_insert_eq | rewrite lookup_insert_ne by done].
      * split; [| by left]. intros _. split; [done |]. by exists n.
      * split; [by intros [-> | ?] | by right].
    + rewrite fn_lookup_insert_ne by done. rewrite Hm.
      destruct (decide (d = x)) as [<- | Hx]; [rewrite lookup_insert_eq | by rewrite lookup_insert_ne].
      split; intros (_ & ? & E & ?); congruence.
Qed.

Lemma wp_kids_remove N m q d n :
  kids_ok r D N m → N !! d = Some n → d ≠ r →
  wp (children_remove q d) (λ _ m', kids_ok r D (delete d N) m') m.
Proof.
  intros [Hd (K & HK & Hm)] Hn Hr. wp_use wp_children_remove; [done | apply Hm; eauto |].
  intros _ m' (K' & HK' & Hm' & Ed). split; [congruence |]. exists K'. split; [done |].
  intros p x. rewrite Hm', Hm. setoid_rewrite lookup_delete_Some. naive_solver.
Qed.

(** The list of a directory, as a scan finds it. *)
Lemma kids_list N m p :
  kids_ok r D N m → p ∈ D →
  ∃ k l, m !! p = Some k ∧ hseg m (SSlotChildren p) (d_children k) l ∧ NoDup l ∧
    (length l ≤ size m)%nat ∧
    ∀ d, d ∈ l ↔ d ≠ r ∧ ∃ n, N !! d = Some n ∧ n_parent n = p.
Proof.
  intros [Hd (K & HK & Hm)] Hp. assert (is_Some (m !! p)) as [k Hk].
  { apply elem_of_dom. by rewrite Hd. }
  exists k, (K p). pose proof (kr_seg m K HK p k Hk) as Hs.
  split_and!; [done | done | by eapply krep_nodup | by eapply hseg_length | done].
Qed.

Lemma kids_empty N m p :
  kids_ok r D N m → p ∈ D →
  ∃ k, m !! p = Some k ∧ (d_children k =? 0) = bool_decide (kids r N p = []).
Proof.
  intros Hok Hp. destruct (kids_list N m p Hok Hp) as (k & l & Hk & Hs & _ & _ & Hl).
  exists k. split; [done |]. apply eq_bool_prop_intro. rewrite Is_true_true, Z.eqb_eq, bool_decide_spec.
  rewrite kids_nil. split.
  - intros E d n Hd Hn Hpn. assert (d ∈ l) as Hin by (apply Hl; eauto).
    destruct l as [| x l]; [by apply not_elem_of_nil in Hin |]. simpl in Hs. destruct Hs as (E' & ? & _).
    congruence.
  - intros H. destruct l as [| x l]; [done |]. destruct (proj1 (Hl x)) as (? & n & ? & ?); [by left |].
    exfalso. by eapply H.
Qed.

Lemma kids_ok_alloc N m d :
  kids_ok r D N m → d ∉ D → kids_ok r ({[d]} ∪ D) N (<[d := kid0]> m).
Proof.
  intros [Hd (K & HK & Hm)] HD. split; [by rewrite dom_insert_L, Hd |].
  exists K. split; [| done]. apply krep_alloc; [done |]. apply not_elem_of_dom. by rewrite Hd.
Qed.

Lemma kids_ok_free N m d :
  kids_ok r D N m → N !! d = None → kids r N d = [] → kids_ok r (D ∖ {[d]}) N (delete d m).
Proof.
  intros [Hd (K & HK & Hm)] Hn Hk. split; [by rewrite dom_delete_L, Hd |].
  exists K. split; [| done]. apply krep_free; [done | |].
  - intros p (_ & x & ? & _)%Hm. congruence.
  - destruct (K d) as [| x l] eqn:E; [done |]. exfalso.
    assert (x ∈ K d) as (? & n & ? & ?)%Hm by (rewrite E; by left).
    rewrite kids_nil in Hk. by eapply Hk.
Qed.

End kids.

(** ** LRU *)

Section lru.
  Context {ISO : Isolated} (r : Z) (D : gset Z).
  Implicit Types (N : nspace) (s : lru_state).

Lemma word_ok_ext N N' d w : (is_Some (N' !! d) ↔ is_Some (N !! d)) → word_ok r N d w → word_ok r N' d w.
Proof.
  unfold word_ok. intros E. destruct (N !! d), (N' !! d); try done.
  - by destruct (proj2 E ltac:(by eexists)).
  - by destruct (proj1 E ltac:(by eexists)).
Qed.

Lemma lru_inv_ext N N' s :
  (∀ d, is_Some (N' !! d) ↔ is_Some (N !! d)) → lru_inv r D N s → lru_inv r D N' s.
Proof.
  intros E [? ? ? ? Hw]. split; [done | done | done | done |]. intros d w Hd. eapply word_ok_ext; eauto.
Qed.

Lemma lru_word N s d : lru_inv r D N s → d ∈ D → ∃ w, words s !! d = Some w.
Proof. intros [_ _ Hd _ _] H. rewrite <- Hd in H. by apply elem_of_dom in H. Qed.

Lemma word_nonneg N d w : word_ok r N d w → 0 ≤ w.
Proof.
  unfold word_ok, DC_SEQ_LRU_OFF, DC_SEQ_LRU_DEAD, DC_SEQ_LRU_ON, DC_SEQ_LRU_SHRINK.
  destruct (N !! d); [case_decide; [intros [-> _] | intros [-> | (_ & i & _ & ->)]] | intros ->]; lia.
Qed.

(** A walk's re-arm keeps the words in order: it links a dentry that is off, and
    leaves an isolated one to the shrinker. *)
Lemma wp_lru_inv_retain N s cur d :
  lru_inv r D N s → is_Some (N !! d) → d ∈ D → d ≠ r → d ≠ 0 →
  wp (lru_retain cur d) (λ _ s', lru_inv r D N s') s.
Proof.
  intros Hi Hn HD Hr H0. destruct (lru_word N s d Hi HD) as [w Hw]. destruct Hi as [Hok Hf Hd Hiso Hwd].
  pose proof (Hwd d w Hw) as Hwok.
  wp_use wp_lru_retain; [done | done | done | by eapply word_nonneg | done |].
  intros _ s' (Hok' & Hf' & Ew). split; [done | done | | done |].
  - rewrite Ew, <- Hd. case_match; [| done]. rewrite dom_insert_L.
    assert (d ∈ dom (words s)) by (apply elem_of_dom; by eexists). set_solver.
  - intros x v. rewrite Ew. destruct (Z.eqb_spec w DC_SEQ_LRU_OFF) as [-> |]; [| apply Hwd].
    destruct (decide (d = x)) as [<- |].
    + rewrite lookup_insert_eq. intros [= <-]. destruct Hn as [n Hn]. unfold word_ok in *. rewrite Hn in *.
      case_decide; [by destruct Hwok |].
      right. split; [done |]. eexists. split; [apply lru_nid_lt | done].
    + rewrite lookup_insert_ne by done. apply Hwd.
Qed.

(** A new dentry goes on the list of the caller's node, with the name space
    entry it is about to get. *)
Lemma wp_lru_inv_add N s cur d n :
  lru_inv r D N s → d ∉ D → d ≠ r → d ≠ 0 → N !! d = None →
  wp (lru_add_new cur d) (λ _ s', lru_inv r ({[d]} ∪ D) (<[d := n]> N) s')
    {| ls_one := ls_one s; ls_node := <[d := lnode0]> (ls_node s) |}.
Proof.
  intros [Hok Hf Hd Hiso Hwd] HD Hr H0 Hn. set (s1 := LruState _ _).
  assert (words s1 = <[d := DC_SEQ_LRU_OFF]> (words s)) as Ew1.
  { unfold words, s1. simpl. by rewrite fmap_insert. }
  assert (words s !! d = None) as Hnone by (apply not_elem_of_dom; by rewrite Hd).
  wp_use wp_lru_add_new; [| done | rewrite Ew1; apply lookup_insert_eq | | done |].
  - apply lru_ok_alloc; [done |]. unfold words in Hnone. by rewrite lookup_fmap, fmap_None in Hnone.
  - unfold DC_SEQ_LRU_OFF, DC_SEQ_LRU_ON. lia.
  - intros _ s' (Hok' & Hf' & Ew). rewrite Ew1, insert_insert_eq in Ew. split; [done | done | | |].
    + by rewrite Ew, dom_insert_L, Hd.
    + set_solver.
    + intros x v. rewrite Ew. unfold word_ok. destruct (decide (d = x)) as [<- |].
      * rewrite !lookup_insert_eq. intros [= <-]. rewrite decide_False by set_solver.
        right. split; [done |]. eexists. split; [apply lru_nid_lt | done].
      * rewrite !lookup_insert_ne by done. apply Hwd.
Qed.

Lemma wp_lru_inv_del N s d n :
  lru_inv r D N s → N !! d = Some n → d ∈ D →
  wp (lru_del d) (λ _ s', lru_inv r D (delete d N) s') s.
Proof.
  intros Hi Hn HD. destruct (lru_word N s d Hi HD) as [w Hw]. destruct Hi as [Hok Hf Hd Hiso Hwd].
  wp_use wp_lru_del; [done | done | done | by eapply word_nonneg, Hwd |].
  intros _ s' (Hok' & Hf' & Ew). split; [done | done | | done |].
  - rewrite Ew, dom_insert_L, <- Hd.
    assert (d ∈ dom (words s)) by (apply elem_of_dom; by eexists). set_solver.
  - intros x v. rewrite Ew. unfold word_ok. destruct (decide (d = x)) as [<- |].
    + rewrite lookup_insert_eq, lookup_delete_eq. by intros [= <-].
    + rewrite lookup_insert_ne, lookup_delete_ne by done. apply Hwd.
Qed.

Lemma lru_inv_free N s d :
  lru_inv r D N s → N !! d = None → d ∈ D → d ∉ isolated →
  lru_inv r (D ∖ {[d]}) N {| ls_one := ls_one s; ls_node := delete d (ls_node s) |}.
Proof.
  intros Hi Hn HD Hdi. destruct (lru_word N s d Hi HD) as [w Hw]. destruct Hi as [Hok Hf Hd Hiso Hwd].
  pose proof (Hwd d w Hw) as E. unfold word_ok in E. rewrite Hn in E. subst w.
  split; [| done | | |].
  - eapply lru_ok_free; [done | done |]. unfold DC_SEQ_LRU_DEAD, DC_SEQ_LRU_ON, DC_LRU_NODES. lia.
  - unfold words. simpl. rewrite fmap_delete, dom_delete_L. fold (words s). by rewrite Hd.
  - set_solver.
  - intros x v. unfold words. simpl. rewrite fmap_delete. intros [_ ?]%lookup_delete_Some. by apply Hwd.
Qed.

End lru.

(** ** Deferred frees, counters, locks *)

Lemma rcu_ok_ext D N N' q :
  (∀ d, N' !! d = None ↔ N !! d = None) → rcu_ok D N q → rcu_ok D N' q.
Proof. intros E [? Hm]. split; [done |]. intros d. by rewrite Hm, E. Qed.

Lemma rcu_ok_alloc D N q d n :
  rcu_ok D N q → d ∉ D → rcu_ok ({[d]} ∪ D) (<[d := n]> N) q.
Proof.
  intros [? Hm] Hd. split; [done |]. intros x. rewrite Hm. destruct (decide (d = x)) as [<- |].
  - rewrite lookup_insert_eq. set_solver.
  - rewrite lookup_insert_ne by done. set_solver.
Qed.

Lemma rcu_ok_kill D N q d n :
  rcu_ok D N q → N !! d = Some n → d ∈ D → rcu_ok D (delete d N) (q ++ [d]).
Proof.
  intros [Hnd Hm] Hn HD. split.
  - apply NoDup_app. split_and!; [done | | apply NoDup_singleton].
    intros x [_ ?]%Hm ->%list_elem_of_singleton. congruence.
  - intros x. rewrite elem_of_app, list_elem_of_singleton, Hm, lookup_delete_None.
    destruct (decide (d = x)) as [<- |]; naive_solver.
Qed.

Lemma seqs_lookup D q d : seqs_ok D q → d ∈ D → ∃ s, q !! d = Some s ∧ seq_even s.
Proof. intros [<- H] [s Hs]%elem_of_dom. eauto. Qed.

Lemma seqs_bump D q d s : seqs_ok D q → q !! d = Some s → seqs_ok D (<[d := bump s]> q).
Proof.
  intros [<- H] Hs. split.
  - rewrite dom_insert_L. assert (d ∈ dom q) by (apply elem_of_dom; by eexists). set_solver.
  - intros x v. destruct (decide (d = x)) as [<- |].
    + rewrite lookup_insert_eq. intros [= <-]. apply bump_even. eauto.
    + rewrite lookup_insert_ne by done. apply H.
Qed.

Lemma seqs_alloc D q d : seqs_ok D q → seqs_ok ({[d]} ∪ D) (<[d := seqcount_init]> q).
Proof.
  intros [<- H]. split; [by rewrite dom_insert_L |]. intros x v. destruct (decide (d = x)) as [<- |].
  - rewrite lookup_insert_eq. by intros [= <-].
  - rewrite lookup_insert_ne by done. apply H.
Qed.

Lemma locks_lookup_free D l d : locks_free D l → d ∈ D → l !! d = Some 0.
Proof. intros -> H. by apply lookup_gset_to_gmap_Some. Qed.

Lemma locks_back D l d : locks_free D l → d ∈ D → <[d := 0]> (<[d := -1]> l) = l.
Proof. intros H Hd. rewrite insert_insert_eq. apply insert_id. by eapply locks_lookup_free. Qed.

Lemma locks_alloc D l d : locks_free D l → locks_free ({[d]} ∪ D) (<[d := 0]> l).
Proof. intros ->. unfold locks_free. by rewrite gset_to_gmap_union_singleton. Qed.

Lemma locks_free_delete D l d : locks_free D l → locks_free (D ∖ {[d]}) (delete d l).
Proof. intros ->. unfold locks_free. by rewrite gset_to_gmap_difference_singleton. Qed.
