(* ===== verification/WalkSpec.v ===== *)
(** The read side is correct: with nobody else running, the hash scans find
    exactly the child, the path walk leads exactly where the name space says, and
    both arms of the lookup agree. *)

From S2P Require Import Prelude Qstr HList HashTab Children Lru Seqcount World Walk.
From S2P Require Import Namespace TreeOps Paths Inv Parts.

(** ** World-level rules *)

Lemma wp_on_hash {A} (m : ST htab A) Q w :
  wp m (λ a h, Q a (set_hash h w)) (w_hash w) → wp (on_hash m) Q w.
Proof. apply wp_zoom. Qed.
Lemma wp_on_kids {A} (m : ST (gmap Z dc_kid) A) Q w :
  wp m (λ a k, Q a (set_kids k w)) (w_kids w) → wp (on_kids m) Q w.
Proof. apply wp_zoom. Qed.
Lemma wp_on_lru {A} (m : ST lru_state A) Q w :
  wp m (λ a s, Q a (set_lru s w)) (w_lru w) → wp (on_lru m) Q w.
Proof. apply wp_zoom. Qed.
Lemma wp_on_rename {A} (m : ST seqlock_t A) Q w :
  wp m (λ a s, Q a (set_rename s w)) (w_rename w) → wp (on_rename m) Q w.
Proof. apply wp_zoom. Qed.

Lemma wp_cell {V A} (m : ST V A) a v (Q : A → gmap Z V → Prop) s :
  s !! a = Some v → wp m (λ x v', Q x (<[a := v']> s)) v → wp (st_cell a m) Q s.
Proof. unfold wp, st_cell. intros ->. by destruct (m v) as [[? ?] |]. Qed.

Lemma wp_on_d_seq {A} (m : ST Z A) d s Q w :
  w_seq w !! d = Some s → wp m (λ a s', Q a (set_seq (<[d := s']> (w_seq w)) w)) s →
  wp (on_d_seq d m) Q w.
Proof. intros Hs H. apply wp_zoom. by eapply wp_cell. Qed.

Lemma wp_on_d_lock {A} (m : ST Z A) d l Q w :
  w_lock w !! d = Some l → wp m (λ a l', Q a (set_lock (<[d := l']> (w_lock w)) w)) l →
  wp (on_d_lock d m) Q w.
Proof. intros Hs H. apply wp_zoom. by eapply wp_cell. Qed.

(** Reads leave the world as it is. *)
Lemma wp_d_seq_read {A} (m : ST Z A) d s Q w :
  w_seq w !! d = Some s → wp m (λ a s', s' = s ∧ Q a w) s → wp (on_d_seq d m) Q w.
Proof.
  intros Hs H. eapply wp_on_d_seq; [done |]. eapply wp_mono; [exact H |]. intros a s' [-> HQ].
  rewrite insert_id by done. by destruct w.
Qed.

Lemma wp_rename_read {A} (m : ST seqlock_t A) Q w :
  wp m (λ a s, s = w_rename w ∧ Q a w) (w_rename w) → wp (on_rename m) Q w.
Proof.
  intros H. apply wp_on_rename. eapply wp_mono; [exact H |]. intros a s' [-> HQ]. by destruct w.
Qed.

Lemma wp_hash_read {A} (m : ST htab A) Q w :
  wp m (λ a s, s = w_hash w ∧ Q a w) (w_hash w) → wp (on_hash m) Q w.
Proof.
  intros H. apply wp_on_hash. eapply wp_mono; [exact H |]. intros a s' [-> HQ]. by destruct w.
Qed.

Lemma wp_core_at d c (Q : core → world → Prop) w :
  w_core w !! d = Some c → Q c w → wp (core_at d) Q w.
Proof. apply wp_lookup. Qed.

Lemma wp_core_store d c f (Q : unit → world → Prop) w :
  w_core w !! d = Some c → Q tt (set_core (<[d := f c]> (w_core w)) w) → wp (core_store d f) Q w.
Proof. unfold wp, core_store. by intros ->. Qed.

Lemma wp_kid_at d k (Q : dc_kid → world → Prop) w :
  w_kids w !! d = Some k → Q k w → wp (kid_at d) Q w.
Proof. intros Hk HQ. apply wp_on_kids. eapply wp_lookup; [done |]. by destruct w. Qed.

(** ** Buckets *)

Lemma bucket_lt mask p h : (∃ b, 0 ≤ b ≤ 31 ∧ mask = Z.ones b) → (bucket_no mask p h < Z.to_nat (mask + 1))%nat.
Proof.
  intros (b & Hb & ->). unfold bucket_no, bucket_index. rewrite Z.land_ones by lia.
  pose proof (Z.mod_pos_bound (w64 (Z.lxor (w64 (h * HASH_MUL1)) (p ≫ 6) * HASH_MUL2) ≫ 32) (2 ^ b)
    ltac:(lia)) as H.
  rewrite Z.ones_equiv. apply Z2Nat.inj_lt; lia.
Qed.

(** ** Chain scans *)

Fixpoint first_some {A} (g : Z → option A) (l : list Z) : option A :=
  match l with
  | [] => None
  | d :: l' => match g d with Some a => Some a | None => first_some g l' end
  end.

Lemma first_some_Some {A} (g : Z → option A) l a :
  first_some g l = Some a → ∃ d, d ∈ l ∧ g d = Some a.
Proof.
  induction l as [| d l IH]; simpl; [done |]. destruct (g d) eqn:E.
  - intros [= <-]. exists d. split; [by left | done].
  - intros (x & ? & ?)%IH. exists x. split; [by right | done].
Qed.

Lemma first_some_None {A} (g : Z → option A) l d : first_some g l = None → d ∈ l → g d = None.
Proof.
  induction l as [| x l IH]; simpl; [by intros _ ?%not_elem_of_nil |].
  destruct (g x) eqn:E; [done |]. intros H [-> | ?]%elem_of_cons; auto.
Qed.

Lemma wp_chain_scan {A} (w : world) (body : Z → M (option A)) g l sl n fuel :
  hseg (ht_node (w_hash w)) sl n l → (length l < fuel)%nat →
  (∀ d, d ∈ l → wp (body d) (λ r w', w' = w ∧ r = g d) w) →
  wp (chain_scan fuel n body) (λ r w', w' = w ∧ r = first_some g l) w.
Proof.
  revert sl n fuel. induction l as [| d l IH]; intros sl n fuel Hs Hf Hb.
  - simpl in Hs. subst n. destruct fuel; [simpl in Hf; lia |]. by apply wp_ret.
  - destruct fuel as [| fuel]; [simpl in Hf; lia |]. simpl in Hs. destruct Hs as (-> & H0 & m & Hm & _ & Hs).
    cbn [chain_scan]. destruct (Z.eqb_spec d 0); [done |]. wp_step.
    eapply wp_mono; [apply Hb; by left |]. intros a w' [-> ->]. cbn [first_some].
    destruct (g d) eqn:Hg; [by apply wp_ret |]. wp_step. apply wp_hash_read.
    eapply wp_lookup; [done |]. split; [done |]. eapply IH; [done | simpl in Hf; lia |].
    intros x Hx. apply Hb. by right.
Qed.

Section walk.
  Context {ISO : Isolated}.

(** A scan for the child of [p] named [nm] gives what the specification's
    [child] gives, when the body recognises exactly the children. *)
Lemma wp_bucket_scan {A B} w p q (body : Z → M (option A)) (g : Z → option A) (f : Z → A)
    (K : option A → M B) Q :
  coherent w → qstr_wf q → (∀ d c, w_core w !! d = Some c → d_is_unhashed c = false → d ≠ w_root w →
    wp (body d) (λ r w', w' = w ∧ r = g d) w ∧
    (g d = if bool_decide (dparent_of c = p ∧ qname (d_name c) = qname q) then Some (f d) else None)) →
  wp (K (f <$> child (w_root w) (ns w) p (qname q))) Q w →
  wp (let! b := bucket_of p (q_hash q) in
      let! first := on_hash (bl_first_rcu b) in
      let! fuel := st_gets chain_fuel in
      let! r := chain_scan fuel first body in K r) Q w.
Proof.
  intros Hi Hq Hbody HK. wp_step. unfold bucket_of. wp_step. wp_step.
  destruct (hash_chain _ _ _ _ _ (bucket_no (w_mask w) p (q_hash q)) (inv_hash w Hi)) as
    (v & l & Hv & Hs & Hl & Hmem).
  { apply bucket_lt. apply Hi. }
  apply wp_hash_read. wp_use wp_bl_first_rcu; [done |]. intros ? ? [-> ->]. split; [done |].
  wp_step. wp_step. wp_step.
  assert (∀ d, d ∈ l → ∃ c, w_core w !! d = Some c ∧ d_is_unhashed c = false ∧ d ≠ w_root w) as Hcore.
  { intros d (Hr & n & (c & ? & ? & _)%ns_lookup & _)%Hmem. eauto. }
  wp_use (wp_chain_scan w body g l); [done | unfold chain_fuel; lia | |].
  { intros d (c & Hc & Hu & Hr)%Hcore. by apply (Hbody d c). }
  intros r w' [-> ->].
  enough (first_some g l = f <$> child (w_root w) (ns w) p (qname q)) as -> by done.
  destruct (child (w_root w) (ns w) p (qname q)) as [d |] eqn:E.
  - apply child_Some in E as (Hr & n & Hn & Hp & Hnm); [| apply Hi].
    assert (d ∈ l) as Hd.
    { apply Hmem. split; [done |]. exists n. split; [done |]. unfold bucket_for.
      by rewrite Hp, Hnm, (qw_hash q Hq). }
    destruct (first_some g l) as [a |] eqn:Ef.
    + apply first_some_Some in Ef as (x & Hx & Hg). destruct (Hcore x Hx) as (c & Hc & Hu & Hxr).
      destruct (Hbody x c Hc Hu Hxr) as [_ Eg]. rewrite Hg in Eg.
      case_bool_decide as Hm; [| done]. injection Eg as ->. simpl. do 2 f_equal.
      eapply (t_unique _ _ (inv_tree w Hi) p (qname q)); [| by split; [| exists n]].
      split; [done |]. exists (view c). split; [by apply ns_lookup_core | done].
    + pose proof (first_some_None g l d Ef Hd) as Hg.
      apply ns_lookup in Hn as (c & Hc & Hu & ->). destruct (Hbody d c Hc Hu Hr) as [_ Eg].
      rewrite bool_decide_true in Eg by done. congruence.
  - rewrite child_None in E. destruct (first_some g l) as [a |] eqn:Ef; [| done]. exfalso.
    apply first_some_Some in Ef as (x & Hx & Hg). destruct (Hcore x Hx) as (c & Hc & Hu & Hxr).
    destruct (Hbody x c Hc Hu Hxr) as [_ Eg]. rewrite Hg in Eg. case_bool_decide as Hm; [| done].
    apply (E x). split; [done |]. exists (view c). split; [by apply ns_lookup_core | done].
Qed.

(** The writer-side lookup. *)
Lemma wp_child_lookup w p q :
  coherent w → qstr_wf q →
  wp (__child_lookup p q) (λ d w', w' = w ∧ d = default 0 (child (w_root w) (ns w) p (qname q))) w.
Proof.
  intros Hi Hq. unfold __child_lookup.
  apply (wp_bucket_scan w p q _
    (λ d, match w_core w !! d with
          | Some c => if bool_decide (dparent_of c = p ∧ qname (d_name c) = qname q) then Some d else None
          | None => None end) id); [done | done | |].
  2:{ wp_step. by rewrite option_fmap_id. }
  intros d c Hc Hu Hr. rewrite Hc. split; [| done]. unfold child_match. wp_step.
  eapply wp_core_at; [done |]. wp_step. split; [done |]. rewrite Hu.
  destruct (inv_core w Hi d c Hc) as [[Hqc _] _].
  pose proof (dc_qstr_eq_spec (d_name c) q Hqc Hq) as Heq.
  case_bool_decide as Hm.
  - destruct Hm as [Hp Hn]. rewrite Hp, Z.eqb_refl. simpl. by rewrite (proj2 Heq Hn).
  - case_match eqn:E; [| done]. rewrite !andb_true_iff in E. destruct E as [[E1%Z.eqb_eq _] E2%Heq]. tauto.
Qed.

(** The lockless scan: the same child, with its even sequence number. *)
Lemma wp_d_lookup w p q :
  coherent w → qstr_wf q →
  wp (__d_lookup_rcu p q) (λ r w', w' = w ∧
    r = (λ d, (d, w_seq w !!! d)) <$> child (w_root w) (ns w) p (qname q)) w.
Proof.
  intros Hi Hq. unfold __d_lookup_rcu.
  apply (wp_bucket_scan w p q _
    (λ d, match w_core w !! d with
          | Some c => if bool_decide (dparent_of c = p ∧ qname (d_name c) = qname q)
                      then Some (d, w_seq w !!! d) else None
          | None => None end) (λ d, (d, w_seq w !!! d))); [done | done | | by wp_step].
  intros d c Hc Hu Hr. rewrite Hc. split; [| done]. unfold d_match_rcu. wp_step.
  eapply wp_core_at; [done |]. destruct (inv_core w Hi d c Hc) as [[Hqc _] _].
  destruct (seqs_lookup _ _ d (inv_seq w Hi)) as (s & Hs & He); [apply elem_of_dom; by eexists |].
  rewrite lookup_total_alt, Hs. simpl.
  destruct (Z.eqb_spec (q_hash (d_name c)) (q_hash q)) as [Eh | Eh]; simpl.
  2:{ wp_step. split; [done |]. rewrite bool_decide_false; [done |]. intros [_ E].
      by destruct Eh; apply qstr_wf_hash_eq. }
  wp_step. eapply wp_d_seq_read; [done |]. wp_use wp_raw_seqcount_begin; [done |].
  intros ? ? [-> ->]. split; [done |]. wp_step. eapply wp_core_at; [done |]. fold (dparent_of c).
  destruct (Z.eqb_spec (dparent_of c) p) as [Ep | Ep]; simpl.
  2:{ wp_step. split; [done |]. rewrite bool_decide_false; [done | tauto]. }
  unfold d_is_unhashed in Hu. rewrite Hu. pose proof (dc_qstr_eq_spec (d_name c) q Hqc Hq) as Heq.
  unfold dc_qstr_eq in Heq. rewrite Eh, Z.eqb_refl in Heq. simpl in Heq.
  case_match eqn:E.
  - wp_step. split; [done |]. rewrite bool_decide_false; [done |]. intros [_ En].
    apply Heq in En as [El%Z.eqb_eq Eb]%andb_true_iff. rewrite El, Z.eqb_refl in E. simpl in E.
    apply negb_true_iff, bool_decide_eq_false in E. apply bool_decide_eq_true in Eb.
    apply E. unfold qname in Eb. by rewrite El in Eb.
  - wp_step. split; [done |]. apply orb_false_iff in E as [El%negb_false_iff%Z.eqb_eq Eb%negb_false_iff].
    rewrite bool_decide_true; [done |]. split; [done |]. apply Heq. rewrite El, Z.eqb_refl. simpl.
    apply bool_decide_eq_true. apply bool_decide_eq_true in Eb. unfold qname. by rewrite El.
Qed.

Lemma wp_d_lookup_fallback k w p q :
  inv k w → qstr_wf q →
  wp (d_lookup_rcu p q) (λ r w', w' = w ∧
    r = (λ d, (d, w_seq w !!! d)) <$> child (w_root w) (ns w) p (qname q)) w.
Proof.
  intros Hi Hq. unfold d_lookup_rcu. wp_step. apply wp_iter_first. unfold d_lookup_round. wp_step.
  apply wp_rename_read. wp_use wp_read_seqbegin; [apply Hi |]. intros ? ? [-> ->]. split; [done |].
  wp_step. wp_use wp_d_lookup; [done | done |]. intros r w' [-> ->].
  destruct (child (w_root w) (ns w) p (qname q)) as [d |] eqn:E; simpl.
  - wp_step. eexists. split; [done |]. by wp_step.
  - wp_step. apply wp_rename_read. wp_use wp_read_seqretry. intros ? ? [-> ->]. split; [done |].
    wp_step. eexists. split; [done |]. by wp_step.
Qed.

(** ** The path walk *)

Lemma inv_set_lru k w s :
  inv k w → lru_inv (w_root w) (dom (w_core w)) (ns w) s → inv k (set_lru s w).
Proof. intros [[] ? ? ? ? ?] Hs. by split. Qed.

Definition walk_result (N : nspace) (o : option Z) : walk_ret :=
  match o with
  | Some d => WALK_DONE d (state_of N d) (Some d)
  | None => WALK_DONE 0 DC_ABSENT None
  end.

Lemma inv_ne_0 w d : coherent w → is_Some (ns w !! d) → d ≠ 0.
Proof. intros Hi [n (c & Hc & _)%ns_lookup]. by destruct (inv_core w Hi d c Hc) as (_ & _ & ?). Qed.

Lemma inv_seq_read w d :
  coherent w → is_Some (ns w !! d) → w_seq w !! d = Some (w_seq w !!! d) ∧ seq_even (w_seq w !!! d).
Proof.
  intros Hi Hd. destruct (seqs_lookup _ _ d (inv_seq w Hi)) as (s & Hs & He).
  { by apply ns_dom. }
  by rewrite lookup_total_alt, Hs.
Qed.

Lemma wp_seq_stable w d (Q : bool → world → Prop) :
  coherent w → is_Some (ns w !! d) → Q false w → wp (on_d_seq d (read_seqcount_retry (w_seq w !!! d))) Q w.
Proof.
  intros Hi Hd HQ. destruct (inv_seq_read w d Hi Hd) as [Hs _]. eapply wp_d_seq_read; [exact Hs |].
  wp_use wp_read_seqcount_retry. by intros ? ? [-> ->].
Qed.

Lemma wp_comp_at (p : dc_path) i (Q : qstr → world → Prop) w :
  path_wf p → (i < ndepth p)%nat →
  (∀ q, qstr_wf q → pnames p !! i = Some (qname q) → Q q w) → wp (comp_at p i) Q w.
Proof.
  intros Hp Hi HQ. destruct (path_comp_is_Some p i Hp Hi) as (q & Hq & Hwf).
  unfold comp_at, path_comp. rewrite Hq. apply HQ; [done |]. by eapply pnames_lookup.
Qed.

Lemma set_lru_id w : set_lru (w_lru w) w = w.
Proof. by destruct w. Qed.

Lemma child_alive w p nm d :
  coherent w → child (w_root w) (ns w) p nm = Some d →
  d ≠ w_root w ∧ ∃ c, w_core w !! d = Some c ∧ d_is_unhashed c = false ∧ ns w !! d = Some (view c).
Proof.
  intros Hi (Hr & n & (c & Hc & Hu & ->)%ns_lookup & _)%child_Some_1. split; [done |].
  exists c. split_and!; [done | done | by apply ns_lookup_core].
Qed.

Lemma wp_walk_loop (p : dc_path) writer m : ∀ i k w cur,
  inv k w → path_wf p → (i + m ≤ ndepth p)%nat → is_Some (ns w !! cur) →
  wp (walk_loop p writer m i cur (w_seq w !!! cur) (state_of (ns w) cur)) (λ r w',
    (∃ s, w' = set_lru s w ∧ (writer = false → s = w_lru w)) ∧ inv k w' ∧
    r = walk_result (ns w) (nwalk (w_root w) (ns w) cur (take m (drop i (pnames p))))) w.
Proof.
  induction m as [| m IH]; intros i k w cur Hi Hp Hm Hcur; cbn [walk_loop].
  - wp_step. eapply wp_seq_stable; [done | done |]. wp_step. split_and!; [| done | done].
    exists (w_lru w). by rewrite set_lru_id.
  - wp_step. apply wp_comp_at; [done | lia |]. intros q Hq Hnm.
    rewrite (drop_S _ _ _ Hnm). cbn [take nwalk].
    wp_step. wp_use wp_d_lookup; [done | done |]. intros r w' [-> ->].
    wp_step. eapply wp_seq_stable; [done | done |].
    destruct (child (w_root w) (ns w) cur (qname q)) as [d |] eqn:E; simpl.
    + wp_step. wp_step. destruct (child_alive w cur _ d Hi E) as (Hdr & c & Hc & Hu & Hn).
      wp_step. eapply wp_core_at; [done |]. cbn zeta. wp_step.
      eapply wp_seq_stable; [done | by eexists |]. wp_step. wp_step. wp_step.
      assert ((if d_is_positive c then DC_POSITIVE else DC_NEGATIVE) = state_of (ns w) d) as ->.
      { unfold state_of. by rewrite Hn. }
      apply wp_when; intros ->.
      * apply wp_on_lru.
        wp_use (wp_lru_inv_retain (w_root w) (dom (w_core w)) (ns w)); [apply Hi | by eexists | | done | |].
        { apply ns_dom. by eexists. }
        { eapply inv_ne_0; [done | by eexists]. }
        intros _ s Hs. pose proof (inv_set_lru k w s Hi Hs) as Hi'.
        wp_use (IH (S i) k (set_lru s w)); [done | done | lia | by eexists |].
        intros r w' ((s' & -> & _) & Hi'' & ->). split_and!; [| done | done].
        by exists s'.
      * wp_use (IH (S i) k w); [done | done | lia | by eexists |]. done.
    + wp_step. wp_use wp_d_lookup_fallback; [done | done |]. intros r w' [-> ->]. rewrite E. simpl.
      wp_step. split_and!; [| done | done]. exists (w_lru w). by rewrite set_lru_id.
Qed.

Lemma inv_root w : coherent w → is_Some (ns w !! w_root w) ∧ state_of (ns w) (w_root w) = DC_POSITIVE.
Proof.
  intros Hi. destruct (t_root _ _ (inv_tree w Hi)) as (n & Hn & _ & _ & Hp).
  split; [by eexists |]. unfold state_of. by rewrite Hn, Hp.
Qed.

Lemma wp_path_walk k w (p : dc_path) depth writer :
  inv k w → path_wf p → (depth ≤ ndepth p)%nat →
  wp (path_walk_rcu p depth writer) (λ r w',
    (∃ s, w' = set_lru s w ∧ (writer = false → s = w_lru w)) ∧ inv k w' ∧
    r = walk_result (ns w) (nwalk (w_root w) (ns w) (w_root w) (take depth (pnames p)))) w.
Proof.
  intros Hi Hp Hd. destruct (inv_root w Hi) as [Hr Hst]. unfold path_walk_rcu. wp_step. wp_step.
  wp_step. apply wp_rename_read. wp_use wp_read_seqbegin; [apply Hi |]. intros ? ? [-> ->].
  split; [done |]. destruct (inv_seq_read w (w_root w) Hi Hr) as [Hs He].
  wp_step. eapply wp_d_seq_read; [exact Hs |]. wp_use wp_read_seqcount_begin; [done |].
  intros ? ? [-> ->]. split; [done |]. rewrite <- Hst.
  wp_use (wp_walk_loop p writer depth 0 k w); [done | done | lia | done |]. done.
Qed.

(** [resolve_dentry_rcu]: the dentry the name space says, or NULL; on the way the
    components are re-armed on the LRU and nothing else changes. *)
Lemma wp_resolve k w (p : dc_path) depth :
  inv k w → path_wf p → (depth ≤ ndepth p)%nat →
  wp (resolve_dentry_rcu p depth) (λ d w',
    (∃ s, w' = set_lru s w) ∧ inv k w' ∧
    d = default 0 (nwalk (w_root w) (ns w) (w_root w) (take depth (pnames p)))) w.
Proof.
  intros Hi Hp Hd. unfold resolve_dentry_rcu. wp_step. apply wp_iter_first. unfold resolve_round.
  wp_step. wp_use wp_path_walk; [done | done | done |]. intros r w' ((s & -> & _) & Hi' & ->).
  unfold walk_result. destruct (nwalk _ _ _ _); wp_step; (eexists; split; [done |]); wp_step; eauto.
Qed.

(** ** Lookups *)

Lemma inv_enter k w : inv k w → inv (S k) (set_nest (S (w_nest w)) w).
Proof. intros Hi. pose proof (inv_nest k w Hi) as E. destruct Hi as [[] ? ? ? ? ?]. split; try done. simpl. by rewrite E. Qed.

Lemma wp_rcu_unlock k w (Q : unit → world → Prop) :
  inv (S k) w → (inv k (set_nest k w) → Q tt (set_nest k w)) → wp rcu_read_unlock Q w.
Proof.
  intros Hi HQ. unfold wp, rcu_read_unlock. pose proof (inv_nest _ w Hi) as E. rewrite E.
  apply HQ. destruct Hi as [[] ? ? ? ? ?]. by split.
Qed.

Lemma set_nest_back k w : inv k w → set_nest k (set_nest (S (w_nest w)) w) = w.
Proof. intros Hi. rewrite <- (inv_nest k w Hi). by destruct w. Qed.

Lemma wp_dc_lookup k w p :
  inv k w → path_wf p →
  wp (dc_lookup p) (λ r w', w' = w ∧
    r = lookup_result (ns w) (nwalk (w_root w) (ns w) (w_root w) (pnames p))) w.
Proof.
  intros Hi Hp. unfold dc_lookup. wp_step. apply wp_iter_first. unfold lookup_round. wp_step.
  unfold rcu_read_lock. wp_step. pose proof (inv_enter k w Hi) as Hi1. wp_step.
  wp_use wp_path_walk; [done | done | done |]. intros r w' ((s & -> & Hs) & Hi' & ->).
  rewrite (Hs eq_refl), set_lru_id in *. wp_step. eapply wp_rcu_unlock; [done |]. intros _.
  rewrite set_nest_back by done. rewrite take_ge by (rewrite length_pnames by done; lia). wsimpl.
  change (ns (set_nest _ w)) with (ns w). unfold walk_result, lookup_result.
  destruct (nwalk _ _ _ _); wp_step; (eexists; split; [done |]); cbn beta iota; by wp_step.
Qed.

Lemma wp_dc_lookup_dentry k w p :
  inv k w → path_wf p →
  wp (dc_lookup_dentry p) (λ r w', w' = w ∧
    r = default 0 (snd (lookup_result (ns w) (nwalk (w_root w) (ns w) (w_root w) (pnames p))))) w.
Proof.
  intros Hi Hp. unfold dc_lookup_dentry. wp_step. apply wp_iter_first. unfold lookup_dentry_round. wp_step.
  unfold rcu_read_lock. wp_step. pose proof (inv_enter k w Hi) as Hi1. wp_step.
  wp_use wp_path_walk; [done | done | done |]. intros r w' ((s & -> & Hs) & Hi' & ->).
  rewrite (Hs eq_refl), set_lru_id in *. wp_step. eapply wp_rcu_unlock; [done |]. intros _.
  rewrite set_nest_back by done. rewrite take_ge by (rewrite length_pnames by done; lia). wsimpl.
  change (ns (set_nest _ w)) with (ns w). unfold walk_result, lookup_result.
  destruct (nwalk _ _ _ _); wp_step; (eexists; split; [done |]); cbn beta iota; wp_step; (split; [done |]); simpl; [by case_decide | done].
Qed.

(** ** The loop guard *)

Lemma wp_is_subdir_loop w b l : ∀ a fuel,
  coherent w → is_Some (ns w !! a) → upto (w_root w) (ns w) a l → (length l ≤ fuel)%nat →
  wp (is_subdir_loop fuel a b) (λ x w', w' = w ∧ x = bool_decide (b ∈ l)) w.
Proof.
  induction l as [| x l IH]; intros a fuel Hi Ha Hu Hf; [by apply upto_head in Hu as [? ?] |].
  destruct fuel as [| fuel]; [simpl in Hf; lia |]. cbn [is_subdir_loop].
  destruct Ha as [n Hn]. pose proof Hn as (c & Hc & Huh & ->)%ns_lookup.
  destruct (upto_head _ _ _ _ Hu) as [? [= -> ->]].
  destruct (Z.eqb_spec a b) as [-> | Hab].
  { wp_step. split; [done |]. symmetry. apply bool_decide_eq_true. by left. }
  wp_step. eapply wp_core_at; [done |]. inversion Hu as [E1 E2 | d' n' l' Hn' Hr Hu' E1 E2]; subst.
  - destruct (t_root _ _ (inv_tree w Hi)) as (rn & Hrn & Hrp & _).
    rewrite Hrn in Hn. injection Hn as ->. simpl in Hrp. rewrite Hrp, Z.eqb_refl. wp_step.
    split; [done |]. symmetry. apply bool_decide_eq_false. intros ->%list_elem_of_singleton. done.
  - rewrite Hn in Hn'. injection Hn' as <-. simpl in Hu'.
    pose proof (parent_ne _ _ _ _ (inv_tree w Hi) Hn Hr) as Hp. simpl in Hp.
    destruct (Z.eqb_spec a (dparent_of c)); [congruence |].
    wp_use (IH (dparent_of c) fuel); [done | | done | simpl in Hf; lia |].
    { eapply (tree_parent _ _ a (view c)); [apply Hi | done]. }
    intros ? ? [-> ->]. split; [done |]. apply bool_decide_ext. rewrite elem_of_cons.
    split; [by right |]. by intros [-> | ?].
Qed.

Lemma wp_is_subdir w a b :
  coherent w → is_Some (ns w !! a) →
  wp (is_subdir a b) (λ x w', w' = w ∧ x = subdir (w_root w) (ns w) a b) w.
Proof.
  intros Hi Ha. unfold is_subdir. wp_step. wp_step.
  destruct (t_up _ _ (inv_tree w Hi) a Ha) as [l Hl]. destruct (inv_root w Hi) as [Hr _].
  pose proof (upto_length _ _ _ _ Hr Hl) as Hlen.
  assert (size (ns w) ≤ size (w_core w))%nat as Hsz.
  { rewrite <- !size_dom. apply subseteq_size. intros d Hd%elem_of_dom. by apply ns_dom. }
  wp_use (wp_is_subdir_loop w b l); [done | done | done | lia |].
  intros ? ? [-> ->]. split; [done |]. symmetry. by apply subdir_spec; [apply Hi |].
Qed.

End walk.
