(* ===== verification/OpsSpec.v ===== *)
(** The mutators refine the specification: each returns (no fault, every lock
    released), with the code and the name space the specification gives, and keeps
    the invariant.  Every dentry whose place or state changed has a new d_seq. *)

From S2P Require Import Prelude Qstr HList HashTab Children Lru Seqcount World Walk Ops.
From S2P Require Import Namespace TreeOps Inv Parts WalkSpec.

(** A reader that sampled d_seq of a dentry before the operation notices. *)
Definition seq_moved (w w' : world) : Prop :=
  ∀ d n, ns w !! d = Some n → ns w' !! d ≠ Some n → w_seq w' !! d ≠ w_seq w !! d.

Section ops.
  Context {ISO : Isolated}.

(** What an operation promises, given the specification's answer. *)
Record op_post (k : nat) (w : world) (spec : Z * nspace) (ret : Z) (w' : world) : Prop := {
  op_inv : inv k w';
  op_ret : ret = fst spec;
  op_ns : ns w' = snd spec;
  op_root : w_root w' = w_root w;
  op_seq : seq_moved w w';
}.

(** ** Directory locks *)

Lemma wp_dir_wlock d (Q : unit → world → Prop) w :
  w_lock w !! d = Some 0 → Q tt (set_lock (<[d := -1]> (w_lock w)) w) → wp (dir_wlock d) Q w.
Proof. intros Hd HQ. by eapply wp_on_d_lock. Qed.

Lemma wp_dir_wunlock d (Q : unit → world → Prop) w :
  w_lock w !! d = Some (-1) → Q tt (set_lock (<[d := 0]> (w_lock w)) w) → wp (dir_wunlock d) Q w.
Proof. intros Hd HQ. by eapply wp_on_d_lock. Qed.

Lemma wp_dirs_wlock2 D a b (Q : unit → world → Prop) w :
  locks_free D (w_lock w) → a ∈ D → b ∈ D →
  Q tt (set_lock (<[a := -1]> (<[b := -1]> (w_lock w))) w) → wp (dirs_wlock2 a b) Q w.
Proof.
  intros Hf Ha Hb HQ. pose proof (locks_lookup_free D _ a Hf Ha). pose proof (locks_lookup_free D _ b Hf Hb).
  unfold dirs_wlock2. destruct (Z.eqb_spec a b) as [-> | Hab].
  { apply wp_dir_wlock; [done |]. by rewrite insert_insert_eq in HQ. }
  destruct (a <? b); wp_step; (apply wp_dir_wlock; [done |]).
  - apply wp_dir_wlock; wsimpl; [by rewrite lookup_insert_ne |]. by rewrite insert_insert_ne.
  - apply wp_dir_wlock; wsimpl; [by rewrite lookup_insert_ne | done].
Qed.

Lemma wp_dirs_wunlock2 D l a b (Q : unit → world → Prop) w :
  locks_free D l → a ∈ D → b ∈ D → w_lock w = <[a := -1]> (<[b := -1]> l) →
  Q tt (set_lock l w) → wp (dirs_wunlock2 a b) Q w.
Proof.
  intros Hf Ha Hb El HQ. unfold dirs_wunlock2. wp_step.
  apply wp_dir_wunlock; [by rewrite El, lookup_insert_eq |]. rewrite El, insert_insert_eq.
  destruct (Z.eqb_spec a b) as [-> | Hab]; simpl.
  - wp_step. by rewrite (locks_back D) by done.
  - apply wp_dir_wunlock; wsimpl; [rewrite lookup_insert_ne by done; by rewrite lookup_insert_eq |].
    rewrite insert_insert_ne by done. rewrite insert_insert_eq.
    rewrite (insert_id l b) by (by eapply locks_lookup_free).
    by rewrite (insert_id l a) by (by eapply locks_lookup_free).
Qed.

(** ** Critical sections

    [lock; bl_lock(b); ...; bl_unlock(b); unlock; rcu_read_unlock()]: [l] is what
    the directory locks look like inside. *)

Definition locking (l : gmap Z Z → gmap Z Z) (L : M unit) (D : gset Z) : Prop :=
  ∀ w (Q : unit → world → Prop), w_lock w = gset_to_gmap 0 D →
    Q tt (set_lock (l (gset_to_gmap 0 D)) w) → wp L Q w.

Definition unlocking (l : gmap Z Z → gmap Z Z) (U : M unit) (D : gset Z) : Prop :=
  ∀ w (Q : unit → world → Prop), w_lock w = l (gset_to_gmap 0 D) →
    Q tt (set_lock (gset_to_gmap 0 D) w) → wp U Q w.

Definition lock1 (p : Z) (l : gmap Z Z) : gmap Z Z := <[p := -1]> l.
Definition lock2 (a b : Z) (l : gmap Z Z) : gmap Z Z := <[a := -1]> (<[b := -1]> l).

Lemma locking1 p D : p ∈ D → locking (lock1 p) (dir_wlock p) D.
Proof.
  intros Hp w Q E HQ. apply wp_dir_wlock; rewrite E; [| done]. by apply lookup_gset_to_gmap_Some.
Qed.

Lemma unlocking1 p D : p ∈ D → unlocking (lock1 p) (dir_wunlock p) D.
Proof.
  intros Hp w Q E HQ. unfold lock1 in E. apply wp_dir_wunlock; rewrite E; [by rewrite lookup_insert_eq |].
  by rewrite (locks_back D).
Qed.

Lemma locking2 a b D : a ∈ D → b ∈ D → locking (lock2 a b) (dirs_wlock2 a b) D.
Proof. intros Ha Hb w Q E HQ. eapply wp_dirs_wlock2; [exact E | done | done |]. by rewrite E. Qed.

Lemma unlocking2 a b D : a ∈ D → b ∈ D → unlocking (lock2 a b) (dirs_wunlock2 a b) D.
Proof. intros Ha Hb w Q E HQ. by eapply (wp_dirs_wunlock2 D). Qed.

(** Inside: the data coherent, bucket [b] locked, the directories as [l] says. *)
Record in_section (k : nat) (b : nat) (l : gmap Z Z → gmap Z Z) (w : world) : Prop := {
  is_coh :> coherent w;
  is_bits : bits (w_hash w) = <[b := 1]> (replicate (Z.to_nat (w_mask w + 1)) 0);
  is_lock : w_lock w = l (gset_to_gmap 0 (dom (w_core w)));
  is_rename : sl_quiet (w_rename w);
  is_mutex : w_mutex w = false;
  is_nest : w_nest w = S k;
}.

#[local] Hint Extern 0 (coherent _) => eapply is_coh; eassumption : core.

Lemma bits_one n i : (i < n)%nat → <[i := 1]> (replicate n 0) !! i = Some 1.
Proof. intros H. apply list_lookup_insert_eq. by rewrite length_replicate. Qed.

Lemma coherent_set_lock w l : coherent w → coherent (set_lock l w).
Proof. intros []. by split. Qed.

Lemma coherent_set_hash w h :
  coherent w → hash_ok (w_mask w) (w_root w) (dom (w_core w)) (ns w) h → coherent (set_hash h w).
Proof. intros [] Hh. by split. Qed.

Lemma wp_enter {A} k b l L (m : M A) Q w :
  inv (S k) w → locking l L (dom (w_core w)) → (b < Z.to_nat (w_mask w + 1))%nat →
  (∀ h, let w' := set_hash h (set_lock (l (gset_to_gmap 0 (dom (w_core w)))) w) in
    in_section k b l w' → wp m Q w') →
  wp (L ;;; on_hash (bl_lock b) ;;; m) Q w.
Proof.
  intros Hi HL Hb Hm. wp_step. apply HL; [apply Hi |]. wp_step. apply wp_on_hash.
  wp_use wp_hash_lock; [apply Hi | | exact (inv_bits (S k) w Hi) |].
  { wsimpl. rewrite (inv_bits (S k) w Hi). by apply lookup_replicate_2. }
  intros _ h [Hok Hbits]. apply Hm. split; wsimpl; try done; try apply Hi.
  by apply coherent_set_hash; [apply coherent_set_lock |].
Qed.

Lemma wp_leave {A} k b l U (m : M A) Q w :
  in_section k b l w → unlocking l U (dom (w_core w)) → (b < Z.to_nat (w_mask w + 1))%nat →
  (∀ h, let w' := set_nest k (set_lock (gset_to_gmap 0 (dom (w_core w))) (set_hash h w)) in
    inv k w' → wp m Q w') →
  wp (on_hash (bl_unlock b) ;;; U ;;; rcu_read_unlock ;;; m) Q w.
Proof.
  intros Hi HU Hb Hm. wp_step. apply wp_on_hash.
  wp_use wp_hash_unlock; [apply Hi | | exact (is_bits _ _ _ _ Hi) |].
  { rewrite (is_bits _ _ _ _ Hi). by apply bits_one. }
  intros _ h [Hok Hbits]. wp_step. apply HU; [apply Hi |]. wp_step.
  eapply wp_rcu_unlock; [| intros Hi'; by apply Hm].
  split; wsimpl; try done; try apply Hi.
  - by apply coherent_set_lock, coherent_set_hash.
  - unfold bits_free. wsimpl. rewrite Hbits, list_insert_insert_eq. apply list_insert_id.
    by apply lookup_replicate_2.
Qed.

(** What the critical section of an operation promises. *)
Record sect_post (k : nat) (b : nat) (l : gmap Z Z → gmap Z Z) (w : world) (spec : Z * nspace)
    (ret : Z) (w' : world) : Prop := {
  sp_sect : in_section k b l w';
  sp_ret : ret = fst spec;
  sp_ns : ns w' = snd spec;
  sp_root : w_root w' = w_root w;
  sp_mask : w_mask w' = w_mask w;
  sp_dom : dom (w_core w) ⊆ dom (w_core w');
  sp_seq : seq_moved w w';
}.

(** A section that changes nothing. *)
Lemma sect_post_same k b l w spec ret :
  in_section k b l w → ret = fst spec → snd spec = ns w → sect_post k b l w spec ret w.
Proof. intros. split; try done. intros d n Hd Hd'. congruence. Qed.

(** The whole tail of an operation. *)
Lemma wp_tail k b l U w0 w spec ret w' :
  sect_post k b l w spec ret w' → unlocking l U (dom (w_core w')) →
  (b < Z.to_nat (w_mask w + 1))%nat → ns w = ns w0 → w_seq w = w_seq w0 → w_root w = w_root w0 →
  wp (on_hash (bl_unlock b) ;;; U ;;; rcu_read_unlock ;;; st_ret ret) (op_post k w0 spec) w'.
Proof.
  intros [Hs Hr Hn Hroot Hmask Hdom Hseq] HU Hb En Es Er. eapply wp_leave; [exact Hs | done | by rewrite Hmask |].
  intros h w'' Hi. wp_step. split; [done | done | done | by rewrite <- Er |].
  intros d n. rewrite <- En, <- Es. apply Hseq.
Qed.

(** An operation that returns early from its read section. *)
Lemma wp_early k w0 w spec ret :
  inv (S k) w → ret = fst spec → snd spec = ns w0 → ns w = ns w0 → w_root w = w_root w0 →
  wp (rcu_read_unlock ;;; st_ret ret) (op_post k w0 spec) w.
Proof.
  intros Hi Hr Hs Hn Hroot. wp_step. eapply wp_rcu_unlock; [done |]. intros Hi'. wp_step.
  split; [done | done | | done |].
  - by rewrite Hs, <- Hn.
  - intros d n Hd Hd'. rewrite <- Hn in Hd. done.
Qed.

Lemma op_post_same k w spec ret : inv k w → ret = fst spec → snd spec = ns w → op_post k w spec ret w.
Proof. intros. split; try done. intros d n Hd Hd'. congruence. Qed.

(** ** Paths *)

(** What a walk leads to is alive. *)
Lemma nwalk_alive w l d :
  coherent w → nwalk (w_root w) (ns w) (w_root w) l = Some d →
  ∃ c, w_core w !! d = Some c ∧ d_is_unhashed c = false ∧ ns w !! d = Some (view c) ∧
       d ≠ 0 ∧ d ∈ dom (w_core w) ∧ core_ok c ∧ aligned d.
Proof.
  intros Hi Hd. destruct (inv_root w Hi) as [Hr _].
  destruct (nwalk_dom _ _ _ _ _ Hr Hd) as [n Hn]. pose proof Hn as (c & Hc & Hu & ->)%ns_lookup.
  destruct (inv_core w Hi d c Hc) as (? & ? & ?).
  exists c. split_and!; try done. apply elem_of_dom. by eexists.
Qed.

(** ** dc_add *)

Section add.
  Context `{HA : Memalign} `{!MemalignOk HA}.

(** The insertion itself, in a locked bucket and directory. *)
Lemma wp_add_insert k b p q w pc id isdir pos :
  in_section k b (lock1 p) w → w_core w !! p = Some pc → d_is_unhashed pc = false →
  d_isdir pc = true → d_is_positive pc = true → qstr_wf q →
  child (w_root w) (ns w) p (qname q) = None → b = bucket_no (w_mask w) p (q_hash q) →
  wp (let! d := dentry_alloc q p id isdir pos in
      if d =? 0 then st_ret (- ENOMEM)
      else
        let! nid := st_gets w_node in
        on_lru (lru_add_new nid d) ;;;
        on_hash (hlist_add_head_rcu b d) ;;;
        on_kids (children_add p d) ;;;
        st_ret 0)
     (sect_post k b (lock1 p) w
       (match posix_memalign (dom (w_core w)) with
        | None => (- ENOMEM, ns w)
        | Some d => (0, <[d := Node p (qname q) id isdir pos]> (ns w))
        end)) w.
Proof.
  intros Hs Hp Hu Hdir Hpos Hq Hc Hb. unfold dentry_alloc. wp_step. wp_step. wp_step.
  destruct (posix_memalign (dom (w_core w))) as [d |] eqn:Ed.
  2:{ wp_step. simpl. wp_step. by apply sect_post_same. }
  pose proof (memalign_fresh _ _ Ed) as Hfresh. pose proof (memalign_aligned _ _ Ed) as Hal.
  pose proof (memalign_range _ _ Ed) as Hrng.
  assert (ns w !! d = None) as Hnone.
  { destruct (ns w !! d) eqn:E; [| done]. destruct Hfresh. apply ns_dom. by eexists. }
  assert (p ∈ dom (w_core w)) as HpD by (apply elem_of_dom; by eexists).
  destruct (inv_core w Hs p pc Hp) as (_ & Hpal & Hp0).
  pose proof (ns_lookup_core _ _ _ Hp Hu) as Hpn. fold (ns w) in Hpn.
  destruct (inv_root w Hs) as [Hroot _].
  assert (d ≠ w_root w) as Hdr by (intros ->; rewrite Hnone in Hroot; by destruct Hroot).
  wp_step. wp_step. wp_step. destruct (Z.eqb_spec d 0) as [| Hd0]; [lia |]. wp_step. wp_step.
  set (n := Node p (qname q) id isdir pos).
  set (c := Core q (if pos then p else Z.lor p DC_TAG_NEG) id isdir).
  assert (core_ok c ∧ d_is_unhashed c = false ∧ view c = n) as (Hcok & Hcu & Hcv).
  { destruct (core_retag (Core q 0 id isdir) p (if pos then 0 else 2)) as (H1 & H2 & H3).
    - split; [done |]. by split.
    - done.
    - destruct pos; lia.
    - assert (c = set_d_parent (p + (if pos then 0 else 2)) (Core q 0 id isdir)) as ->.
      { unfold c, set_d_parent, DC_TAG_NEG. simpl. f_equal. destruct pos; [lia |].
        by rewrite aligned_lor by (done || lia). }
      split_and!; [done | by rewrite H3; destruct pos |]. rewrite H2. by destruct pos. }
  assert (ns_of (<[d := c]> (w_core w)) = <[d := n]> (ns w)) as Hns.
  { rewrite ns_insert, Hcu, Hcv. done. }
  wp_step. apply wp_on_lru. unfold alloc_core. wsimpl.
  wp_use (wp_lru_inv_add (w_root w) (dom (w_core w)) (ns w) (w_lru w) (w_node w) d n);
    [apply Hs | done | done | lia | done |].
  intros _ s Hlru. wp_step. apply wp_on_hash. wsimpl.
  assert (b < Z.to_nat (w_mask w + 1))%nat as Hblt by (rewrite Hb; apply bucket_lt, Hs).
  wp_use (wp_hash_add (w_mask w) (w_root w) ({[d]} ∪ dom (w_core w)) (ns w)
            _ b d n); [by apply hash_ok_alloc; [apply Hs |] | done | set_solver | done | done | lia | | |].
  { unfold bits. simpl. fold (bits (w_hash w)). rewrite (is_bits _ _ _ _ Hs). by apply bits_one. }
  { unfold bucket_for. simpl. by rewrite Hb, (qw_hash q Hq). }
  intros _ h [Hh Hbits]. wp_step. apply wp_on_kids. wsimpl.
  wp_use (wp_kids_add (w_root w) ({[d]} ∪ dom (w_core w)) (ns w) _ p d n);
    [by apply kids_ok_alloc; [apply Hs |] | done | set_solver | set_solver | done | lia | done |].
  intros _ m Hm. wp_step.
  assert (dom (<[d := c]> (w_core w)) = {[d]} ∪ dom (w_core w)) as Hdom by apply dom_insert_L.
  split; wsimpl; try done.
  - split; wsimpl; try done; [split; unfold ns; wsimpl; rewrite ?Hdom, ?Hns | | | apply Hs..].
    + apply Hs.
    + intros x xc. destruct (decide (d = x)) as [<- |].
      * rewrite lookup_insert_eq. intros [= <-]. split_and!; [done | done | lia].
      * rewrite lookup_insert_ne by done. by apply (inv_core w Hs).
    + by apply seqs_alloc, (inv_seq w Hs).
    + done.
    + done.
    + done.
    + by apply rcu_ok_alloc; [apply Hs |].
    + eapply tree_add; [apply Hs | done | done | done].
    + eapply typed_add; [apply Hs | apply Hs | done | done | done | done].
    + rewrite Hbits. unfold bits. simpl. fold (bits (w_hash w)). apply Hs.
    + rewrite Hdom, gset_to_gmap_union_singleton. unfold lock1. rewrite (is_lock _ _ _ _ Hs). unfold lock1.
      apply insert_insert_ne. intros ->. by apply Hfresh.
  - rewrite Hdom. set_solver.
  - intros x m' Hx Hx'. exfalso. apply Hx'. unfold ns. wsimpl. rewrite Hns.
    rewrite lookup_insert_ne; [done |]. intros <-. congruence.
Qed.

Lemma wp_dc_add k w path id isdir pos :
  inv k w → path_wf path →
  wp (dc_add_typed_state path id isdir pos)
     (op_post k w (spec_add (w_root w) (posix_memalign (dom (w_core w))) (pnames path) id isdir pos (ns w))) w.
Proof.
  intros Hi Hp. unfold dc_add_typed_state. case_decide as H0.
  { wp_step. apply op_post_same; [done | |].
    all: unfold spec_add; assert (pnames path = []) as -> by (unfold pnames; by rewrite H0); done. }
  unfold rcu_read_lock. wp_step. wp_step. pose proof (inv_enter k w Hi) as Hi1.
  set (w1 := set_nest _ w) in *. wp_step. wp_use wp_resolve; [done | done | lia |].
  intros parent w2 ((s & ->) & Hi2 & ->).
  destruct (path_comp_is_Some path (ndepth path - 1) Hp ltac:(lia)) as (q & Hcq & Hq).
  pose proof (pnames_lookup path (ndepth path - 1) q ltac:(lia) Hcq) as Hlast.
  assert (split_last (pnames path) = Some (take (ndepth path - 1) (pnames path), qname q)) as Hsl.
  { rewrite (pnames_last path q) at 1 by done. apply split_last_app. }
  unfold spec_add. rewrite Hsl. change (w_root w1) with (w_root w). change (ns w1) with (ns w).
  destruct (nwalk (w_root w) (ns w) (w_root w) (take (ndepth path - 1) (pnames path))) as [p |] eqn:Ew; simpl.
  2:{ by eapply wp_early. }
  destruct (nwalk_alive (set_lru s w1) _ p ltac:(done) Ew) as (c & Hc & Hu & Hn & Hp0 & HpD & Hcok & Hpal).
  change (ns (set_lru s w1)) with (ns w) in Hn. rewrite Hn. simpl.
  destruct (Z.eqb_spec p 0); [done |]. wp_step. eapply wp_core_at; [done |].
  destruct (d_isdir c) eqn:Hdir; simpl.
  2:{ by eapply wp_early. }
  wp_step. unfold comp_at, path_comp. rewrite Hcq. wp_step. wp_step. unfold bucket_of. wp_step. wsimpl.
  set (b := bucket_no _ p (q_hash q)).
  assert (b < Z.to_nat (w_mask w + 1))%nat as Hb by apply bucket_lt, Hi.
  eapply (wp_enter k b (lock1 p)); [done | by apply locking1 | done |].
  intros h w3 Hs. wp_step.
  match goal with |- wp _ ?Q _ => enough (wp
    (let! pc := core_at p in
     if negb (d_is_positive pc) || d_is_unhashed pc then st_ret (- ENOENT)
     else let! e := __child_lookup p q in
          if negb (e =? 0) then st_ret (- EEXIST)
          else let! d := dentry_alloc q p id isdir pos in
               if d =? 0 then st_ret (- ENOMEM)
               else let! nid := st_gets w_node in
                    on_lru (lru_add_new nid d) ;;;
                    on_hash (hlist_add_head_rcu b d) ;;;
                    on_kids (children_add p d) ;;; st_ret 0)
    (sect_post k b (lock1 p) w3
       (if negb (d_is_positive c) then (- ENOENT, ns w)
        else match child (w_root w) (ns w) p (qname q), posix_memalign (dom (w_core w)) with
             | Some _, _ => (- EEXIST, ns w)
             | None, None => (- ENOMEM, ns w)
             | None, Some d => (0, <[d:=Node p (qname q) id isdir pos]> (ns w))
             end)) w3) as Hbody end.
  { eapply wp_mono; [exact Hbody |]. intros ret w4 Hpost.
    eapply (wp_tail k b (lock1 p)); [exact Hpost | apply unlocking1 | done..].
    apply (sp_dom _ _ _ _ _ _ _ Hpost). done. }
  wp_step. eapply wp_core_at; [done |]. rewrite Hu, orb_false_r.
  destruct (d_is_positive c) eqn:Hpos; simpl.
  2:{ wp_step. by apply sect_post_same. }
  wp_step. wp_use wp_child_lookup; [done | done |]. intros e w4 [-> ->].
  change (w_root w3) with (w_root w). change (ns w3) with (ns w).
  destruct (child (w_root w) (ns w) p (qname q)) as [e |] eqn:Ech; simpl.
  - destruct (child_alive w3 p _ e ltac:(done) Ech) as (_ & ec & Hec & _).
    destruct (inv_core w3 Hs e ec Hec) as (_ & _ & He0).
    destruct (Z.eqb_spec e 0); [done |]. simpl. wp_step. by apply sect_post_same.
  - by eapply (wp_add_insert k b p q w3 c).
Qed.

End add.

(** ** Changes of state in place: dc_instantiate, dc_delete *)

Lemma insert_dom_L {V} (m : gmap Z V) d v : d ∈ dom m → dom (<[d := v]> m) = dom m.
Proof. intros H. rewrite dom_insert_L. set_solver. Qed.

(** A dentry that keeps its place but changes its identity or state, under its
    sequence counter. *)
Lemma coherent_set_attrs w d c c' s :
  coherent w → w_core w !! d = Some c → d_is_unhashed c = false → d ≠ w_root w →
  w_seq w !! d = Some s → core_ok c' → d_is_unhashed c' = false →
  place (view c') = place (view c) →
  (d_isdir c' = true ∧ d_is_positive c' = true) ∨ kids (w_root w) (ns w) d = [] →
  let w' := set_core (<[d := c']> (w_core w)) (set_seq (<[d := bump s]> (w_seq w)) w) in
  coherent w' ∧ ns w' = <[d := view c']> (ns w) ∧ seq_moved w w'.
Proof.
  intros Hco Hc Hu Hr Hs Hok' Hu' Hpl Hty w'.
  pose proof (ns_lookup_core _ _ _ Hc Hu) as Hn. fold (ns w) in Hn.
  assert (d ∈ dom (w_core w)) as HD by (apply elem_of_dom; by eexists).
  destruct (inv_core w Hco d c Hc) as (_ & Hal & Hd0).
  assert (ns w' = <[d := view c']> (ns w)) as Hns.
  { unfold w', ns. wsimpl. by rewrite ns_insert, Hu'. }
  assert (dom (w_core w') = dom (w_core w)) as Hdom by (by apply insert_dom_L).
  assert (∀ x, place <$> <[d := view c']> (ns w) !! x = place <$> ns w !! x) as Hplace.
  { intros x. destruct (decide (d = x)) as [<- |]; [| by rewrite lookup_insert_ne].
    rewrite lookup_insert_eq, Hn. simpl. by rewrite Hpl. }
  assert (∀ x, is_Some (<[d := view c']> (ns w) !! x) ↔ is_Some (ns w !! x)) as Hsome.
  { intros x. specialize (Hplace x). destruct (<[d := view c']> (ns w) !! x), (ns w !! x); try done.
    all: split; by eexists. }
  split_and!; [split; rewrite ?Hdom, ?Hns; unfold w'; wsimpl | done |].
  - apply Hco.
  - intros x xc. destruct (decide (d = x)) as [<- |].
    + rewrite lookup_insert_eq. by intros [= <-].
    + rewrite lookup_insert_ne by done. by apply (inv_core w Hco).
  - eapply seqs_bump; [apply Hco | done].
  - eapply hash_ok_ext; [apply Hco | done].
  - eapply kids_ok_ext; [apply Hco |]. intros x. by apply place_parent.
  - eapply lru_inv_ext; [| apply Hco]. done.
  - eapply rcu_ok_ext; [| apply Hco]. intros x. rewrite !eq_None_not_Some. by rewrite Hsome.
  - unfold place in Hpl. simpl in Hpl. injection Hpl as E1 E2.
    assert (view c' = Node (n_parent (view c)) (n_name (view c)) (d_id c') (d_isdir c') (d_is_positive c')) as ->.
    { unfold view. simpl. by rewrite E1, E2. }
    by apply tree_set_attrs; [apply Hco | |].
  - unfold place in Hpl. simpl in Hpl. injection Hpl as E1 E2.
    assert (view c' = Node (n_parent (view c)) (n_name (view c)) (d_id c') (d_isdir c') (d_is_positive c')) as ->.
    { unfold view. simpl. by rewrite E1, E2. }
    by apply typed_set_attrs; [apply Hco | |].
  - intros x n Hx Hx'. unfold w'. wsimpl. destruct (decide (d = x)) as [<- |].
    + rewrite lookup_insert_eq, Hs. intros [= E]. revert E. apply bump_ne.
      by destruct (inv_seq w Hco) as [_ He]; eapply He.
    + exfalso. apply Hx'. by rewrite Hns, lookup_insert_ne.
Qed.

(** Sections survive such a change: only the data moved. *)
Lemma in_section_data k b l w d c' q :
  in_section k b l w → d ∈ dom (w_core w) →
  coherent (set_core (<[d := c']> (w_core w)) (set_seq q w)) →
  in_section k b l (set_core (<[d := c']> (w_core w)) (set_seq q w)).
Proof.
  intros Hs HD Hc. split; wsimpl; try done; try apply Hs. rewrite insert_dom_L by done. apply Hs.
Qed.

(** The first and the second half of a write section. *)
Lemma wp_seq_open {A} d s (m : M A) Q w :
  w_seq w !! d = Some s → wp m Q (set_seq (<[d := w64 (s + 1)]> (w_seq w)) w) →
  wp (on_d_seq d write_seqcount_begin ;;; m) Q w.
Proof. intros Hs Hm. wp_step. by eapply wp_on_d_seq. Qed.

Lemma wp_seq_close {A} d s q (m : M A) Q w :
  w_seq w = <[d := w64 (s + 1)]> q → wp m Q (set_seq (<[d := bump s]> q) w) →
  wp (on_d_seq d write_seqcount_end ;;; m) Q w.
Proof.
  intros Hs Hm. wp_step. eapply wp_on_d_seq; [rewrite Hs; apply lookup_insert_eq |].
  unfold write_seqcount_end. wp_step. by rewrite Hs, insert_insert_eq.
Qed.

Lemma wp_dc_instantiate k w path id :
  inv k w → path_wf path →
  wp (dc_instantiate path id) (op_post k w (spec_instantiate (w_root w) (pnames path) id (ns w))) w.
Proof.
  intros Hi Hp. unfold dc_instantiate. case_decide as H0.
  { wp_step. unfold spec_instantiate, pnames. rewrite H0. by apply op_post_same. }
  unfold rcu_read_lock. wp_step. wp_step. pose proof (inv_enter k w Hi) as Hi1.
  set (w1 := set_nest _ w) in *. wp_step. wp_use wp_resolve; [done | done | lia |].
  intros parent w2 ((s & ->) & Hi2 & ->).
  destruct (path_split path Hp H0) as (q & Hcq & Hq & Hwalk & _).
  pose proof (pnames_nonempty path Hp H0) as Hne.
  unfold spec_instantiate. destruct (pnames path) as [| nm0 nms] eqn:Enames; [done |].
  rewrite <- Enames in *. rewrite Hwalk. change (w_root w1) with (w_root w). change (ns w1) with (ns w).
  destruct (nwalk (w_root w) (ns w) (w_root w) (take (ndepth path - 1) (pnames path))) as [p |] eqn:Ew; simpl.
  2:{ by eapply wp_early. }
  destruct (nwalk_alive (set_lru s w1) _ p ltac:(done) Ew) as (pc & Hpc & Hpu & _ & Hp0 & HpD & _).
  destruct (Z.eqb_spec p 0); [done |].
  wp_step. unfold comp_at, path_comp. rewrite Hcq. wp_step. wp_step. unfold bucket_of. wp_step. wsimpl.
  set (b := bucket_no _ p (q_hash q)).
  assert (b < Z.to_nat (w_mask w + 1))%nat as Hb by apply bucket_lt, Hi.
  eapply (wp_enter k b (lock1 p)); [done | by apply locking1 | done |].
  intros h w3 Hs. wp_step.
  match goal with |- wp _ (λ ret w', wp _ (op_post k w ?sp) w') _ =>
    eapply (wp_mono _ (sect_post k b (lock1 p) w3 sp)) end.
  2:{ intros ret w4 Hpost. eapply (wp_tail k b (lock1 p)); [exact Hpost | apply unlocking1 | done..].
      by apply (sp_dom _ _ _ _ _ _ _ Hpost). }
  wp_step. wp_use wp_child_lookup; [done | done |]. intros e w4 [-> ->].
  change (w_root w3) with (w_root w). change (ns w3) with (ns w).
  destruct (child (w_root w) (ns w) p (qname q)) as [d |] eqn:Ech; simpl.
  2:{ wp_step. by apply sect_post_same. }
  destruct (child_alive w3 p _ d ltac:(done) Ech) as (Hdr & c & Hc & Hu & Hn).
  change (ns w3) with (ns w) in Hn. rewrite Hn. simpl.
  destruct (inv_core w3 Hs d c Hc) as (Hcok & _ & Hd0).
  destruct (Z.eqb_spec d 0); [done |]. wp_step. eapply wp_core_at; [done |].
  destruct (d_is_positive c) eqn:Hpos.
  { wp_step. by apply sect_post_same. }
  assert (d ∈ dom (w_core w3)) as HD by (apply elem_of_dom; by eexists).
  destruct (seqs_lookup _ _ d (inv_seq w3 Hs) HD) as (sq & Hsq & _).
  eapply wp_seq_open; [done |]. wp_step. eapply wp_core_store; [done |]. wp_step.
  eapply wp_core_store; [wsimpl; apply lookup_insert_eq |]. wsimpl. rewrite insert_insert_eq.
  eapply wp_seq_close; [done |]. wsimpl. wp_step.
  destruct (core_clear_neg c Hcok Hu) as (Hc1 & Hu1 & Hv1).
  set (c1 := set_d_parent _ c) in *. destruct (core_set_id c1 id Hc1) as (Hc2 & Hu2 & Hv2).
  set (c2 := set_d_id id c1) in *.
  assert (view c2 = Node (dparent_of c) (qname (d_name c)) id (d_isdir c) true) as Hv.
  { rewrite Hv2. pose proof (f_equal n_parent Hv1) as E1. pose proof (f_equal n_pos Hv1) as E2.
    simpl in E1, E2. by rewrite E1, E2. }
  destruct (coherent_set_attrs w3 d c c2 sq) as (Hco & Hns & Hmv); try done.
  - by rewrite Hv.
  - right. eapply typed_kids; [apply Hs | exact Hn |]. by right.
  - split; [exact (in_section_data k b _ w3 d c2 _ Hs HD Hco) | done | | done | done | | done].
    + rewrite <- Hv. exact Hns.
    + wsimpl. by rewrite insert_dom_L.
Qed.

(** The directory locks of a removal: the parent's, and the victim's own when it
    is a directory. *)
Definition lockv (isdir : bool) (p d : Z) : gmap Z Z → gmap Z Z :=
  if isdir then lock2 p d else lock1 p.

Lemma lockingv (isdir : bool) p d D :
  p ∈ D → (isdir = true → d ∈ D) →
  locking (lockv isdir p d) (if isdir then dirs_wlock2 p d else dir_wlock p) D.
Proof. destruct isdir; intros; [apply locking2 | apply locking1]; auto. Qed.

Lemma unlockingv (isdir : bool) p d D :
  p ∈ D → (isdir = true → d ∈ D) →
  unlocking (lockv isdir p d) (if isdir then dirs_wunlock2 p d else dir_wunlock p) D.
Proof. destruct isdir; intros; [apply unlocking2 | apply unlocking1]; auto. Qed.

(** The flip to negative, in its section. *)
Lemma wp_delete_flip k b l w d c :
  in_section k b l w → w_core w !! d = Some c → d_is_unhashed c = false → d ≠ w_root w →
  wp (if negb (d_is_positive c) then st_ret (- ENOENT)
      else
        let! k := kid_at d in
        if d_isdir c && negb (d_children k =? 0) then st_ret (- ENOTEMPTY)
        else
          on_d_seq d write_seqcount_begin ;;;
          core_store d (λ c, set_d_parent (Z.lor (d_parent c) DC_TAG_NEG) c) ;;;
          on_d_seq d write_seqcount_end ;;;
          st_ret 0)
     (sect_post k b l w
        (if negb (d_is_positive c) then (- ENOENT, ns w)
         else if d_isdir c && negb (bool_decide (kids (w_root w) (ns w) d = [])) then (- ENOTEMPTY, ns w)
         else (0, <[d := Node (dparent_of c) (qname (d_name c)) (d_id c) (d_isdir c) false]> (ns w)))) w.
Proof.
  intros Hs Hc Hu Hdr. destruct (d_is_positive c) eqn:Hpos; simpl.
  2:{ wp_step. by apply sect_post_same. }
  assert (d ∈ dom (w_core w)) as HD by (apply elem_of_dom; by eexists).
  destruct (kids_empty _ _ _ _ d (inv_kids w Hs) HD) as (kd & Hkd & Hempty).
  wp_step. eapply wp_kid_at; [done |]. rewrite Hempty.
  destruct (d_isdir c && negb (bool_decide (kids (w_root w) (ns w) d = []))) eqn:Hne.
  { wp_step. by apply sect_post_same. }
  destruct (seqs_lookup _ _ d (inv_seq w Hs) HD) as (sq & Hsq & _).
  destruct (inv_core w Hs d c Hc) as (Hcok & _ & _).
  eapply wp_seq_open; [done |]. wp_step. eapply wp_core_store; [done |].
  eapply wp_seq_close; [done |]. wsimpl. wp_step.
  destruct (core_set_neg c Hcok Hu) as (Hc1 & Hu1 & Hv1). set (c1 := set_d_parent _ c) in *.
  destruct (coherent_set_attrs w d c c1 sq) as (Hco & Hns & Hmv); try done.
  - by rewrite Hv1.
  - right. destruct (d_isdir c) eqn:Hdir; simpl in Hne.
    + apply negb_false_iff, bool_decide_eq_true in Hne. done.
    + eapply typed_kids; [apply Hs | apply (ns_lookup_core _ _ _ Hc Hu) |]. by left.
  - split; [exact (in_section_data k b _ w d c1 _ Hs HD Hco) | done | | done | done | | done].
    + rewrite <- Hv1. exact Hns.
    + wsimpl. by rewrite insert_dom_L.
Qed.

Lemma wp_dc_delete k w path :
  inv k w → path_wf path →
  wp (dc_delete path) (op_post k w (spec_delete (w_root w) (pnames path) (ns w))) w.
Proof.
  intros Hi Hp. unfold dc_delete. case_decide as H0.
  { wp_step. unfold spec_delete, pnames. rewrite H0. by apply op_post_same. }
  unfold rcu_read_lock. wp_step. wp_step. pose proof (inv_enter k w Hi) as Hi1.
  set (w1 := set_nest _ w) in *. wp_step. wp_use wp_resolve; [done | done | lia |].
  intros parent w2 ((s & ->) & Hi2 & ->).
  destruct (path_split path Hp H0) as (q & Hcq & Hq & Hwalk & _).
  pose proof (pnames_nonempty path Hp H0) as Hne.
  unfold spec_delete. destruct (pnames path) as [| nm0 nms] eqn:Enames; [done |].
  rewrite <- Enames in *. rewrite Hwalk. change (w_root w1) with (w_root w). change (ns w1) with (ns w).
  destruct (nwalk (w_root w) (ns w) (w_root w) (take (ndepth path - 1) (pnames path))) as [p |] eqn:Ew; simpl.
  2:{ by eapply wp_early. }
  destruct (nwalk_alive (set_lru s w1) _ p ltac:(done) Ew) as (pc & Hpc & Hpu & _ & Hp0 & HpD & _).
  destruct (Z.eqb_spec p 0); [done |].
  wp_step. unfold comp_at, path_comp. rewrite Hcq. wp_step. wp_step. unfold bucket_of. wp_step. wsimpl.
  set (b := bucket_no _ p (q_hash q)).
  assert (b < Z.to_nat (w_mask w + 1))%nat as Hb by apply bucket_lt, Hi.
  wp_step. apply wp_iter_first. unfold delete_round. wp_step.
  wp_use wp_resolve; [exact Hi2 | done | done |]. intros peek w3 ((s' & ->) & Hi3 & ->).
  rewrite take_ge by (rewrite length_pnames by done; lia). rewrite Hwalk.
  change (w_root (set_lru s w1)) with (w_root w). change (ns (set_lru s w1)) with (ns w).
  rewrite Ew. simpl. change (set_lru s' (set_lru s w1)) with (set_lru s' w1) in *.
  destruct (child (w_root w) (ns w) p (qname q)) as [d |] eqn:Ech; simpl.
  - destruct (child_alive (set_lru s' w1) p _ d ltac:(done) Ech) as (Hdr & c & Hc & Hu & Hn).
    change (ns (set_lru s' w1)) with (ns w) in Hn. rewrite Hn. simpl.
    destruct (inv_core _ Hi3 d c Hc) as (_ & _ & Hd0).
    assert (d ∈ dom (w_core w)) as HD by (apply elem_of_dom; by eexists).
    wp_step. destruct (Z.eqb_spec d 0); [done |]. wp_step. eapply wp_core_at; [done |]. wp_step.
    eapply (wp_enter k b (lockv (d_isdir c) p d)); [done | by apply lockingv | done |].
    intros h w4 Hs. wp_step. wp_use wp_child_lookup; [done | done |]. intros e w5 [-> ->].
    change (w_root w4) with (w_root w). change (ns w4) with (ns w). rewrite Ech. simpl.
    rewrite Z.eqb_refl, andb_false_r. wp_step. eexists. split; [done |]. cbn beta iota. wp_step.
    destruct (Z.eqb_spec d 0); [done |].
    eapply (wp_mono _ (sect_post k b (lockv (d_isdir c) p d) w4 _)).
    2:{ intros ret w5 Hpost. eapply (wp_tail k b (lockv (d_isdir c) p d)); [exact Hpost | | done..].
        apply unlockingv; intros; by apply (sp_dom _ _ _ _ _ _ _ Hpost). }
    wp_step. eapply wp_core_at; [done |]. by apply (wp_delete_flip k b _ w4).
  - wp_step. wp_step. eapply (wp_enter k b (lock1 p)); [done | by apply locking1 | done |].
    intros h w4 Hs. wp_step. wp_use wp_child_lookup; [done | done |]. intros e w5 [-> ->].
    change (w_root w4) with (w_root w). change (ns w4) with (ns w). rewrite Ech. simpl.
    wp_step. eexists. split; [done |]. cbn beta iota. wp_step. simpl. wp_step.
    eapply (wp_tail k b (lock1 p)); [apply sect_post_same; [exact Hs | |] | by apply unlocking1 | done..]; done.
Qed.

(** ** Kills: dc_unlink *)

(** The world after a dentry was unhashed, taken off its lists and queued. *)
Definition killed (d : Z) (c : core) (s : Z) (h : htab) (m : gmap Z dc_kid) (l : lru_state)
    (w : world) : world :=
  set_core (<[d := c]> (w_core w)) (set_seq (<[d := bump s]> (w_seq w)) (set_hash h (set_kids m
    (set_lru l (set_rcu (w_rcu w ++ [d]) w))))).

Lemma coherent_killed w d c c' s h m l :
  coherent w → w_core w !! d = Some c → d_is_unhashed c = false → d ≠ w_root w →
  w_seq w !! d = Some s → core_ok c' → d_is_unhashed c' = true → kids (w_root w) (ns w) d = [] →
  hash_ok (w_mask w) (w_root w) (dom (w_core w)) (delete d (ns w)) h →
  kids_ok (w_root w) (dom (w_core w)) (delete d (ns w)) m →
  lru_inv (w_root w) (dom (w_core w)) (delete d (ns w)) l →
  coherent (killed d c' s h m l w) ∧ ns (killed d c' s h m l w) = delete d (ns w) ∧
  seq_moved w (killed d c' s h m l w).
Proof.
  intros Hco Hc Hu Hr Hs Hok' Hu' Hk Hh Hm Hl.
  pose proof (ns_lookup_core _ _ _ Hc Hu) as Hn. fold (ns w) in Hn.
  assert (d ∈ dom (w_core w)) as HD by (apply elem_of_dom; by eexists).
  destruct (inv_core w Hco d c Hc) as (_ & Hal & Hd0).
  assert (ns (killed d c' s h m l w) = delete d (ns w)) as Hns.
  { unfold killed, ns. wsimpl. by rewrite ns_insert, Hu'. }
  assert (dom (w_core (killed d c' s h m l w)) = dom (w_core w)) as Hdom by (by apply insert_dom_L).
  split_and!; [split; rewrite ?Hdom, ?Hns; unfold killed; wsimpl; try done | done |].
  - apply Hco.
  - intros x xc. destruct (decide (d = x)) as [<- |].
    + rewrite lookup_insert_eq. by intros [= <-].
    + rewrite lookup_insert_ne by done. by apply (inv_core w Hco).
  - eapply seqs_bump; [apply Hco | done].
  - eapply rcu_ok_kill; [apply Hco | done | done].
  - by apply tree_remove; [apply Hco | |].
  - by apply typed_remove, Hco.
  - intros x n Hx Hx'. unfold killed. wsimpl. destruct (decide (d = x)) as [<- |].
    + rewrite lookup_insert_eq, Hs. intros [= E]. revert E. apply bump_ne.
      by destruct (inv_seq w Hco) as [_ He]; eapply He.
    + exfalso. apply Hx'. by rewrite Hns, lookup_delete_ne.
Qed.

Lemma in_section_killed k b ll w d c' s h m l :
  in_section k b ll w → d ∈ dom (w_core w) → bits h = bits (w_hash w) →
  coherent (killed d c' s h m l w) → in_section k b ll (killed d c' s h m l w).
Proof.
  intros Hs HD Hb Hc. unfold killed in *. split; wsimpl; try done; try apply Hs.
  - rewrite Hb. apply Hs.
  - rewrite insert_dom_L by done. apply Hs.
Qed.

(** [d_unhash], the removal from the child list and the LRU by [A], the deferred
    free. *)
Lemma wp_kill k b ll w d c p (A : ST lru_state unit) :
  in_section k b ll w → w_core w !! d = Some c → d_is_unhashed c = false → d ≠ w_root w →
  kids (w_root w) (ns w) d = [] →
  wp A (λ _ s', lru_inv (w_root w) (dom (w_core w)) (delete d (ns w)) s') (w_lru w) →
  wp (d_unhash d ;;; on_kids (children_remove p d) ;;; on_lru A ;;; call_rcu d ;;; st_ret 0)
     (sect_post k b ll w (0, delete d (ns w))) w.
Proof.
  intros Hs Hc Hu Hr Hk HA.
  assert (d ∈ dom (w_core w)) as HD by (apply elem_of_dom; by eexists).
  pose proof (ns_lookup_core _ _ _ Hc Hu) as Hn. fold (ns w) in Hn.
  destruct (seqs_lookup _ _ d (inv_seq w Hs) HD) as (sq & Hsq & _).
  destruct (inv_core w Hs d c Hc) as (Hcok & _ & _).
  destruct (core_set_unhashed c Hcok) as (Hc1 & Hu1).
  wp_step. unfold d_unhash. eapply wp_seq_open; [done |]. wp_step. unfold DC_SET_UNHASHED.
  eapply wp_core_store; [done |]. wp_step. apply wp_on_hash. wsimpl.
  wp_use (wp_hash_del (w_mask w) (w_root w) (dom (w_core w)) (ns w)); [apply Hs | done | done |].
  intros _ h [Hh Hb]. eapply wp_on_d_seq; [wsimpl; apply lookup_insert_eq |].
  unfold write_seqcount_end. wp_step. wp_step. apply wp_on_kids. wsimpl. rewrite insert_insert_eq.
  wp_use (wp_kids_remove (w_root w) (dom (w_core w)) (ns w)); [apply Hs | done | done |].
  intros _ m Hm. wp_step. apply wp_on_lru. wsimpl. eapply wp_mono; [exact HA |]. cbn beta. intros _ l Hl.
  wp_step. unfold call_rcu. wp_step. wp_step. wsimpl.
  set (c1 := set_d_parent _ c) in *.
  destruct (coherent_killed w d c c1 sq h m l) as (Hco & Hns & Hmv); try done.
  split; [exact (in_section_killed k b ll w d c1 sq h m l Hs HD Hb Hco) | done | exact Hns | done | done | | exact Hmv].
  wsimpl. by rewrite insert_dom_L.
Qed.

(** With the node's LRU word settled by [lru_del]. *)
Lemma wp_lru_del_kill w d n :
  coherent w → ns w !! d = Some n → d ∈ dom (w_core w) →
  wp (lru_del d) (λ _ s', lru_inv (w_root w) (dom (w_core w)) (delete d (ns w)) s') (w_lru w).
Proof. intros Hc Hn HD. eapply wp_lru_inv_del; [apply Hc | done | done]. Qed.

Lemma inv_to_section k l L w (Q : unit → world → Prop) :
  inv (S k) w → locking l L (dom (w_core w)) →
  Q tt (set_lock (l (gset_to_gmap 0 (dom (w_core w)))) w) → wp L Q w.
Proof. intros Hi HL HQ. apply HL; [apply Hi | done]. Qed.

Lemma wp_enter_bucket {A} k b l (m : M A) Q w :
  inv (S k) w → (b < Z.to_nat (w_mask w + 1))%nat →
  (∀ h, let w' := set_hash h (set_lock (l (gset_to_gmap 0 (dom (w_core w)))) w) in
    in_section k b l w' → wp m Q w') →
  wp (on_hash (bl_lock b) ;;; m) Q (set_lock (l (gset_to_gmap 0 (dom (w_core w)))) w).
Proof.
  intros Hi Hb Hm.
  pose proof (wp_enter k b l (st_mod (set_lock (l (gset_to_gmap 0 (dom (w_core w)))))) m Q w Hi) as H.
  apply H; [| done | done]. intros w0 Q0 _ HQ0. by apply wp_mod.
Qed.

Lemma wp_dc_unlink k w path :
  inv k w → path_wf path →
  wp (dc_unlink path) (op_post k w (spec_unlink (w_root w) (pnames path) (ns w))) w.
Proof.
  intros Hi Hp. unfold dc_unlink. case_decide as H0.
  { wp_step. unfold spec_unlink, pnames. rewrite H0. by apply op_post_same. }
  unfold rcu_read_lock. wp_step. wp_step. pose proof (inv_enter k w Hi) as Hi1.
  set (w1 := set_nest _ w) in *. wp_step. apply wp_iter_first. unfold unlink_round. wp_step.
  wp_use wp_resolve; [done | done | done |]. intros victim w2 ((s & ->) & Hi2 & ->).
  rewrite take_ge by (rewrite length_pnames by done; lia).
  pose proof (pnames_nonempty path Hp H0) as Hne.
  unfold spec_unlink. destruct (pnames path) as [| nm0 nms] eqn:Enames; [done |].
  rewrite <- Enames in *. change (w_root w1) with (w_root w). change (ns w1) with (ns w).
  destruct (nwalk (w_root w) (ns w) (w_root w) (pnames path)) as [d |] eqn:Ew; simpl.
  2:{ wp_step. eexists. split; [done |]. cbn beta iota. by eapply wp_early. }
  pose proof (nwalk_not_root _ _ _ _ Hne Ew) as Hdr.
  destruct (nwalk_alive (set_lru s w1) _ d ltac:(done) Ew) as (c & Hc & Hu & Hn & Hd0 & HD & Hcok & _).
  change (ns (set_lru s w1)) with (ns w) in Hn.
  destruct (Z.eqb_spec d 0); [done |]. wp_step. eapply wp_core_at; [done |]. cbn zeta.
  assert (dparent_of c ∈ dom (w_core w)) as HpD.
  { apply ns_dom. eapply (tree_parent _ _ d (view c)); [apply Hi | done]. }
  wp_step. eapply (inv_to_section k (lockv (d_isdir c) (dparent_of c) d)); [done | by apply lockingv |].
  wp_step. eapply wp_core_at; [done |]. rewrite Hu, Z.eqb_refl. simpl. wp_step.
  eexists. split; [done |]. cbn beta iota. wp_step. eapply wp_core_at; [done |].
  wp_step. unfold bucket_of. wp_step. wsimpl. set (b := bucket_no _ _ _).
  assert (b < Z.to_nat (w_mask w + 1))%nat as Hb by apply bucket_lt, Hi.
  eapply (wp_enter_bucket k b (lockv (d_isdir c) (dparent_of c) d) _ _ (set_lru s w1)); [exact Hi2 | done |].
  intros h w3 Hs. wp_step.
  eapply (wp_mono _ (sect_post k b (lockv (d_isdir c) (dparent_of c) d) w3 _)).
  2:{ intros ret w4 Hpost. eapply (wp_tail k b (lockv (d_isdir c) (dparent_of c) d)); [exact Hpost | | done..].
      apply unlockingv; intros; by apply (sp_dom _ _ _ _ _ _ _ Hpost). }
  destruct (kids_empty _ _ _ _ d (inv_kids w3 Hs) HD) as (kd & Hkd & Hempty).
  wp_step. eapply wp_kid_at; [done |]. rewrite Hempty.
  change (w_root w3) with (w_root w). change (ns w3) with (ns w).
  clear Hempty. case_bool_decide as Hk; simpl.
  - eapply (wp_kill k b _ w3); [done | done | done | done | done |].
    by eapply wp_lru_del_kill.
  - wp_step. by apply sect_post_same.
Qed.

End ops.

#[export] Hint Extern 0 (coherent _) => eapply is_coh; eassumption : core.
