(* ===== verification/RenameSpec.v ===== *)
(** Rename and exchange refine the specification.  A move runs under two
    directory locks, rename_lock and two bucket locks, and a replaced negative
    dentry is killed only after the read section, so the proof follows the parts
    of the invariant separately through the move. *)

From S2P Require Import Prelude Qstr HList HashTab Children Lru Seqcount World Walk Ops.
From S2P Require Import Namespace TreeOps Inv Parts WalkSpec OpsSpec.

(** The identity fields, counters, chains and child lists hold the name space
    [N]; the LRU and the deferred frees may lag behind. *)
Record linked (D : gset Z) (N : nspace) (w : world) : Prop := {
  lk_core : cores_ok (w_core w);
  lk_dom : dom (w_core w) = D;
  lk_ns : ns w = N;
  lk_seq : dom (w_seq w) = D;
  lk_hash : hash_ok (w_mask w) (w_root w) D N (w_hash w);
  lk_kids : kids_ok (w_root w) D N (w_kids w);
}.

(** Nothing but the identity fields, counters, chains and child lists changed. *)
Record same_rest (w w' : world) : Prop := {
  sr_mask : w_mask w' = w_mask w;
  sr_root : w_root w' = w_root w;
  sr_lock : w_lock w' = w_lock w;
  sr_lru : w_lru w' = w_lru w;
  sr_rename : w_rename w' = w_rename w;
  sr_mutex : w_mutex w' = w_mutex w;
  sr_rcu : w_rcu w' = w_rcu w;
  sr_nest : w_nest w' = w_nest w;
}.

#[export] Instance same_rest_preorder : PreOrder same_rest.
Proof. split; [by intros w |]. intros a b c [] []. split; congruence. Qed.

(** A step of a move from [w] to [w'], which holds [N'] afterwards, has run the
    write section of exactly the dentries [X] and left the bucket locks alone. *)
Record move_step (D : gset Z) (N' : nspace) (X : gset Z) (w w' : world) : Prop := {
  ms_rest : same_rest w w';
  ms_linked : linked D N' w';
  ms_bits : bits (w_hash w') = bits (w_hash w);
  ms_seq : ∀ x, w_seq w' !! x = if decide (x ∈ X) then bump <$> w_seq w !! x else w_seq w !! x;
}.

Lemma linked_seq D N w d : linked D N w → d ∈ D → ∃ s, w_seq w !! d = Some s.
Proof. intros Hl Hd. rewrite <- (lk_seq D N w Hl) in Hd. by apply elem_of_dom in Hd. Qed.

Lemma linked_core D N w d n :
  linked D N w → N !! d = Some n →
  ∃ c, w_core w !! d = Some c ∧ d_is_unhashed c = false ∧ n = view c ∧ core_ok c ∧ aligned d ∧
       d ≠ 0 ∧ d ∈ D.
Proof.
  intros Hl Hn. rewrite <- (lk_ns D N w Hl) in Hn. apply ns_lookup in Hn as (c & Hc & Hu & ->).
  destruct (lk_core D N w Hl d c Hc) as (? & ? & ?). exists c. split_and!; try done.
  rewrite <- (lk_dom D N w Hl). apply elem_of_dom. by eexists.
Qed.

Lemma cores_ok_insert cores d c :
  cores_ok cores → core_ok c → aligned d → d ≠ 0 → cores_ok (<[d := c]> cores).
Proof.
  intros Hc Hok Ha H0 x xc. destruct (decide (d = x)) as [<- |].
  - rewrite lookup_insert_eq. by intros [= <-].
  - rewrite lookup_insert_ne by done. apply Hc.
Qed.

Lemma wp_drop_target D N w t tn p :
  linked D N w → N !! t = Some tn → t ≠ w_root w →
  wp (drop_target p t) (λ _ w', move_step D (delete t N) {[t]} w w') w.
Proof.
  intros Hl Hn Hr. destruct (linked_core D N w t tn Hl Hn) as (c & Hc & Hu & -> & Hcok & Hal & H0 & HD).
  destruct (linked_seq D N w t Hl HD) as [s Hs]. destruct (core_set_unhashed c Hcok) as (Hc1 & Hu1).
  unfold drop_target. eapply wp_seq_open; [done |]. wp_step. unfold DC_SET_UNHASHED.
  eapply wp_core_store; [done |]. wp_step. apply wp_on_hash. wsimpl.
  wp_use (wp_hash_del (w_mask w) (w_root w) D N); [apply Hl | done | done |]. intros _ h [Hh Hb].
  wp_step. apply wp_on_kids. wsimpl.
  wp_use (wp_kids_remove (w_root w) D N); [apply Hl | done | done |]. intros _ m Hm.
  eapply wp_on_d_seq; [wsimpl; apply lookup_insert_eq |]. unfold write_seqcount_end. wp_step.
  wsimpl. rewrite insert_insert_eq. set (c1 := set_d_parent _ c) in *. split; wsimpl; try done.
  - split; wsimpl; try done.
    + apply cores_ok_insert; [apply Hl | done | done | done].
    + rewrite insert_dom_L; [apply Hl | apply elem_of_dom; by eexists].
    + unfold ns. wsimpl. rewrite ns_insert, Hu1. f_equal. apply Hl.
    + rewrite insert_dom_L; [apply Hl | apply elem_of_dom; by eexists].
  - intros x. case_decide as Hx.
    + apply elem_of_singleton in Hx as ->. by rewrite lookup_insert_eq, Hs.
    + rewrite lookup_insert_ne; [done |]. intros ->. by apply Hx, elem_of_singleton.
Qed.

Lemma wp_relocate D N w v vn p q nb :
  linked D N w → N !! v = Some vn → v ≠ w_root w → p ∈ D → aligned p → qstr_wf q →
  bits (w_hash w) !! nb = Some 1 → nb = bucket_no (w_mask w) p (q_hash q) →
  wp (relocate v (n_parent vn) p q nb)
     (λ _ w', move_step D (<[v := moved vn p (qname q)]> N) {[v]} w w') w.
Proof.
  intros Hl Hn Hr HpD Hpal Hq Hbit Hnb.
  destruct (linked_core D N w v vn Hl Hn) as (c & Hc & Hu & -> & Hcok & Hal & H0 & HD).
  destruct (linked_seq D N w v Hl HD) as [s Hs]. set (n' := moved (view c) p (qname q)).
  destruct (core_move c p q Hcok Hu Hpal Hq) as (Hc1 & Hu1 & Hv1). simpl.
  unfold relocate. eapply wp_seq_open; [done |]. wp_step. apply wp_on_hash. wsimpl.
  wp_use (wp_hash_del (w_mask w) (w_root w) D N); [apply Hl | done | done |]. intros _ h [Hh Hb].
  wp_step.
  match goal with |- wp _ _ ?w0 => eapply (wp_mono _ (λ _ w', ∃ m, w' = set_kids m w0 ∧
    kids_ok (w_root w) D (if dparent_of c =? p then N else delete v N) m)) end.
  { destruct (dparent_of c =? p) eqn:E; simpl.
    - wp_step. exists (w_kids w). split; [done | apply Hl].
    - apply wp_on_kids. wp_use (wp_kids_remove (w_root w) D N); [apply Hl | done | done |].
      intros _ m Hm. eauto. }
  intros _ w2 (m & -> & Hm). wp_step. eapply wp_core_store; [done |]. wp_step.
  eapply wp_core_store; [wsimpl; apply lookup_insert_eq |]. wsimpl. rewrite insert_insert_eq.
  wp_step. apply wp_on_hash. wsimpl.
  wp_use (wp_hash_add (w_mask w) (w_root w) D (delete v N) h nb v n');
    [done | apply lookup_delete_eq | done | done | done | done | by rewrite Hb | |].
  { unfold bucket_for. simpl. by rewrite Hnb, (qw_hash q Hq). }
  intros _ h' [Hh' Hb']. rewrite insert_delete_eq in Hh'. wp_step.
  match goal with |- wp _ _ ?w0 => eapply (wp_mono _ (λ _ w', ∃ m', w' = set_kids m' w0 ∧
    kids_ok (w_root w) D (<[v := n']> N) m')) end.
  { destruct (Z.eqb_spec (dparent_of c) p) as [E | E]; simpl.
    - wp_step. exists m. split; [done |]. eapply kids_ok_ext; [exact Hm |].
      intros x. destruct (decide (v = x)) as [<- |]; [| by rewrite lookup_insert_ne].
      rewrite lookup_insert_eq, Hn. simpl. by rewrite E.
    - apply wp_on_kids. wsimpl.
      wp_use (wp_kids_add (w_root w) D (delete v N) m p v n');
        [done | apply lookup_delete_eq | done | done | done | done | done |].
      intros _ m' Hm'. rewrite insert_delete_eq in Hm'. eauto. }
  intros _ w3 (m' & -> & Hm'). eapply wp_on_d_seq; [wsimpl; apply lookup_insert_eq |].
  unfold write_seqcount_end. wp_step. wsimpl. rewrite insert_insert_eq.
  unfold set_parent_keep_tags. set (c1 := set_d_parent _ _) in *.
  split; wsimpl; try done.
  - split; wsimpl; try done.
    + apply cores_ok_insert; [apply Hl | done | done | done].
    + rewrite insert_dom_L; [apply Hl | apply elem_of_dom; by eexists].
    + unfold ns. wsimpl. rewrite ns_insert, Hu1, Hv1. f_equal. apply Hl.
    + rewrite insert_dom_L; [apply Hl | apply elem_of_dom; by eexists].
  - by rewrite Hb', Hb.
  - intros x. case_decide as Hx.
    + apply elem_of_singleton in Hx as ->. by rewrite lookup_insert_eq, Hs.
    + rewrite lookup_insert_ne; [done |]. intros ->. by apply Hx, elem_of_singleton.
Qed.

Lemma move_step_trans D N1 N2 X1 X2 w w1 w2 :
  move_step D N1 X1 w w1 → move_step D N2 X2 w1 w2 → X1 ## X2 → move_step D N2 (X1 ∪ X2) w w2.
Proof.
  intros [Hr1 Hl1 Hb1 Hs1] [Hr2 Hl2 Hb2 Hs2] Hdisj. split; [by etrans | done | congruence |].
  intros x. rewrite Hs2, Hs1. repeat case_decide; set_solver.
Qed.

Lemma move_step_refl D N w : linked D N w → move_step D N ∅ w w.
Proof. intros Hl. split; [done | done | done |]. intros x. rewrite decide_False; set_solver. Qed.

Lemma linked_set_hash D N w h :
  linked D N w → hash_ok (w_mask w) (w_root w) D N h → linked D N (set_hash h w).
Proof. intros [] Hh. by split. Qed.

(** A pair of bucket locks around a move step. *)
Lemma wp_bucket_pair D N N' X w x y (m : M unit) :
  linked D N w → bits_free (w_mask w) (w_hash w) →
  (x < Z.to_nat (w_mask w + 1))%nat → (y < Z.to_nat (w_mask w + 1))%nat →
  (∀ h, linked D N (set_hash h w) → bits h !! x = Some 1 → bits h !! y = Some 1 →
     wp m (λ _ w', move_step D N' X (set_hash h w) w') (set_hash h w)) →
  wp (on_hash (bl_lock2 x y) ;;; m ;;; on_hash (bl_unlock2 x y)) (λ _ w', move_step D N' X w w') w.
Proof.
  intros Hl Hf Hx Hy Hm. wp_step. apply wp_on_hash.
  wp_use (wp_hash_lock2 (w_mask w) (w_root w) D N); [apply Hl | done | done | done |]. intros _ h [Hh Hb].
  wp_step. eapply wp_mono; [apply Hm |].
  - by apply linked_set_hash.
  - rewrite Hb. apply list_lookup_insert_eq. by rewrite length_insert, length_replicate.
  - rewrite Hb, insert_pair. apply list_lookup_insert_eq. by rewrite length_insert, length_replicate.
  - cbn beta. intros _ w' [Hr Hl' Hb' Hs]. apply wp_on_hash.
    wp_use (wp_hash_unlock2 (w_mask w) (w_root w) D N').
    + rewrite <- (sr_mask _ _ Hr), <- (sr_root _ _ Hr) at 1. apply Hl'.
    + by rewrite Hb'.
    + done.
    + done.
    + intros _ h' [Hh' Hf']. split; wsimpl.
      * destruct Hr. by split.
      * apply linked_set_hash; [done |]. by rewrite (sr_mask _ _ Hr), (sr_root _ _ Hr).
      * by rewrite Hf', Hf.
      * done.
Qed.

Section rename.
  Context {ISO : Isolated}.

Lemma coherent_linked w : coherent w → linked (dom (w_core w)) (ns w) w.
Proof. intros Hc. split; try done; apply Hc. Qed.

(** What moves: the victim, and the dropped target when there is one. *)
Definition move_set (v t : Z) : gset Z := (if t =? 0 then ∅ else {[t]}) ∪ {[v]}.

Lemma ns_0 w : coherent w → ns w !! 0 = None.
Proof.
  intros Hc. destruct (ns w !! 0) eqn:E; [| done]. by destruct (inv_ne_0 w 0 Hc ltac:(by eexists)).
Qed.

Lemma wp_d_move w v vn p q t :
  coherent w → bits_free (w_mask w) (w_hash w) →
  ns w !! v = Some vn → v ≠ w_root w → is_Some (ns w !! p) → qstr_wf q →
  t = 0 ∨ (t ≠ v ∧ t ≠ w_root w ∧ is_Some (ns w !! t)) →
  wp (__d_move v p q t) (λ _ w',
    move_step (dom (w_core w)) (<[v := moved vn p (qname q)]> (delete t (ns w))) (move_set v t) w w') w.
Proof.
  intros Hco Hf Hv Hvr Hp Hq Ht. pose proof (coherent_linked w Hco) as Hl.
  destruct (linked_core _ _ _ _ _ Hl Hv) as (vc & Hvc & Hvu & -> & _).
  destruct Hp as [pn Hpn]. destruct (linked_core _ _ _ _ _ Hl Hpn) as (pc & _ & _ & _ & _ & Hpal & _ & HpD).
  unfold __d_move. wp_step. eapply wp_core_at; [done |]. cbn zeta.
  wp_step. unfold bucket_of. wp_step. wp_step. wp_step.
  apply (wp_bucket_pair _ (ns w)); [done | done | by apply bucket_lt, Hco | by apply bucket_lt, Hco |].
  intros h Hl1 _ Hbit. wp_step. set (w1 := set_hash h w) in *.
  eapply (wp_mono _ (λ _ w', move_step (dom (w_core w)) (delete t (ns w))
                                (if t =? 0 then ∅ else {[t]}) w1 w')).
  - destruct (Z.eqb_spec t 0) as [-> | H0]; simpl.
    + wp_step. rewrite (delete_id (ns w)) by (by apply ns_0). by apply move_step_refl.
    + destruct Ht as [| (Htv & Htr & [tn Htn])]; [done |]. by eapply wp_drop_target.
  - intros _ w2 Hs1. pose proof (ms_linked _ _ _ _ _ Hs1) as Hl2. pose proof (ms_rest _ _ _ _ _ Hs1) as Hr.
    assert (delete t (ns w) !! v = Some (view vc)) as Hv2.
    { rewrite lookup_delete_ne; [done |]. destruct Ht as [-> | (? & _)]; [| done].
      intros <-. rewrite ns_0 in Hv; done. }
    wp_use (wp_relocate (dom (w_core w)) (delete t (ns w)) w2 v (view vc) p q);
      [done | done | by rewrite (sr_root _ _ Hr) | done | done | done | | |].
    + rewrite (ms_bits _ _ _ _ _ Hs1). exact Hbit.
    + by rewrite (sr_mask _ _ Hr).
    + intros _ w3 Hs2. eapply move_step_trans; [exact Hs1 | exact Hs2 |].
      destruct (Z.eqb_spec t 0); [apply disjoint_empty_l |]. destruct Ht as [| (? & _)]; [done |].
      by apply disjoint_singleton_l, not_elem_of_singleton.
Qed.

(** ** Under the directory locks *)

Lemma coherent_set_rename w x : coherent w → coherent (set_rename x w).
Proof. intros []. by split. Qed.
Lemma coherent_set_mutex w x : coherent w → coherent (set_mutex x w).
Proof. intros []. by split. Qed.

Lemma wp_mutex_lock (c : bool) (Q : unit → world → Prop) w :
  w_mutex w = false → Q tt (set_mutex c w) → wp (when c mutex_lock) Q w.
Proof.
  intros Hm HQ. destruct c; unfold wp, when, mutex_lock, st_ret; [by rewrite Hm |].
  destruct w; simpl in *. by subst.
Qed.

Lemma wp_mutex_unlock (c : bool) (Q : unit → world → Prop) w :
  w_mutex w = c → Q tt (set_mutex false w) → wp (when c mutex_unlock) Q w.
Proof.
  intros Hm HQ. destruct c; unfold wp, when, mutex_unlock, st_ret; [by rewrite Hm |].
  destruct w; simpl in *. by subst.
Qed.

(** What [spec_rename] does once the two ends are found. *)
Definition rename_at (r : Z) (N : nspace) (v : Z) (vn : node) (tp : Z) (nm : list Z) : Z * nspace :=
  match t ← child r N tp nm; tn ← N !! t; Some (t, tn) with
  | None => (0, <[v := moved vn tp nm]> N)
  | Some (t, tn) =>
      if (t =? v) || n_pos tn then (- EEXIST, N)
      else (0, <[v := moved vn tp nm]> (delete t N))
  end.

(** The target a successful move drops: a negative child of that name. *)
Definition target_ok (w : world) (v p : Z) (nm : list Z) (t : Z) : Prop :=
  (t = 0 ∧ child (w_root w) (ns w) p nm = None) ∨
  (child (w_root w) (ns w) p nm = Some t ∧ t ≠ v ∧ ∃ tn, ns w !! t = Some tn ∧ n_pos tn = false).

Lemma target_cases w v p nm t :
  target_ok w v p nm t → t = 0 ∨ (t ≠ v ∧ t ≠ w_root w ∧ is_Some (ns w !! t)).
Proof.
  intros [[-> _] | (Hc & Hv & tn & Htn & _)]; [by left |]. right.
  apply child_Some_1 in Hc as [? _]. split_and!; [done | done | by eexists].
Qed.

Lemma wp_rename_locked w v vn tp q (cross : bool) :
  coherent w → bits_free (w_mask w) (w_hash w) → sl_quiet (w_rename w) →
  ns w !! v = Some vn → v ≠ w_root w → qstr_wf q →
  (∃ tpn, ns w !! tp = Some tpn ∧ n_pos tpn = true) →
  wp (rename_locked v tp q cross) (λ r w',
    (w' = w ∧ ∃ e, e ≠ 0 ∧ r = (e, 0) ∧ rename_at (w_root w) (ns w) v vn tp (qname q) = (e, ns w)) ∨
    (∃ t sl, r = (0, t) ∧ target_ok w v tp (qname q) t ∧
      sl_quiet sl ∧ sl_seq sl = bump (sl_seq (w_rename w)) ∧
      rename_at (w_root w) (ns w) v vn tp (qname q) = (0, <[v := moved vn tp (qname q)]> (delete t (ns w))) ∧
      move_step (dom (w_core w)) (<[v := moved vn tp (qname q)]> (delete t (ns w))) (move_set v t)
        (set_rename sl w) w')) w.
Proof.
  intros Hco Hf Hsl Hv Hvr Hq (tpn & Htp & Hpos).
  pose proof Htp as (tpc & Htpc & _ & ->)%ns_lookup. simpl in Hpos.
  unfold rename_locked. wp_step. eapply wp_core_at; [done |]. rewrite Hpos, andb_false_r.
  wp_step. wp_use wp_child_lookup; [done | done |]. intros ? ? [-> ->].
  assert (∀ t, target_ok w v tp (qname q) t →
    wp (on_rename write_seqlock ;;; __d_move v tp q t ;;; on_rename write_sequnlock ;;; st_ret (0, t))
       (λ r w', ∃ sl, r = (0, t) ∧ sl_quiet sl ∧ sl_seq sl = bump (sl_seq (w_rename w)) ∧
          move_step (dom (w_core w)) (<[v := moved vn tp (qname q)]> (delete t (ns w))) (move_set v t)
            (set_rename sl w) w') w) as Hmove.
  { intros t Ht. wp_step. apply wp_on_rename. wp_use wp_write_seqlock; [done |]. intros _ ? ->.
    wp_step. wp_use (wp_d_move _ v vn tp q t);
      [by apply coherent_set_rename | done | done | done | by eexists | done | by eapply target_cases |].
    intros _ w1 [Hr Hl Hb Hs]. wp_step. apply wp_on_rename.
    rewrite (sr_rename _ _ Hr). wsimpl. wp_use wp_write_sequnlock; [done |]. intros _ sl [Hq' Hseq].
    wp_step. exists sl. split_and!; [done | done | done |]. split; wsimpl.
    - destruct Hr; wsimpl in *. by split.
    - destruct Hl. by split.
    - done.
    - exact Hs. }
  unfold rename_at. destruct (child (w_root w) (ns w) tp (qname q)) as [t |] eqn:Ec; simpl.
  - destruct (child_alive w tp _ t Hco Ec) as (Htr & tc & Htc & Htu & Htn). rewrite Htn. simpl.
    destruct (inv_core w Hco t tc Htc) as (_ & _ & Ht0). wp_step.
    destruct (Z.eqb_spec t 0); [done |]. wp_step. eapply wp_core_at; [done |]. wp_step.
    destruct ((t =? v) || d_is_positive tc) eqn:Eo.
    + wp_step. left. split; [done |]. by exists (- EEXIST).
    + apply orb_false_iff in Eo as [Etv%Z.eqb_neq Epos]. eapply wp_mono; [apply (Hmove t) |].
      { right. split_and!; [done | done |]. by exists (view tc). }
      intros r w' (sl & ? & ? & ? & ?). right. exists t, sl. split_and!; try done.
      right. split_and!; [done | done |]. by exists (view tc).
  - wp_step. wp_step. eapply wp_mono; [apply (Hmove 0) |]; [by left |].
    intros r w' (sl & ? & ? & ? & ?). right. exists 0, sl. split_and!; try done; [by left |].
    by rewrite (delete_id (ns w)) by (by apply ns_0).
Qed.

(** The name space after a move is a well-formed tree again. *)
Lemma moved_tree w v vn p pn nm t l :
  coherent w → ns w !! v = Some vn → v ≠ w_root w → ns w !! p = Some pn → n_dir pn = true →
  n_pos pn = true → upto (w_root w) (ns w) p l → n_parent vn = p ∨ v ∉ l → target_ok w v p nm t →
  let N' := <[v := moved vn p nm]> (delete t (ns w)) in
  tree (w_root w) N' ∧ typed (w_root w) N'.
Proof.
  intros Hco Hv Hvr Hp Hdir Hpos Hl Hloop Ht N'.
  assert (tree (w_root w) (delete t (ns w)) ∧ typed (w_root w) (delete t (ns w)) ∧
          child (w_root w) (delete t (ns w)) p nm = None ∧ t ≠ v ∧ t ≠ p) as (Htr & Hty & Hch & Htv & Htp).
  { destruct Ht as [[-> Hc] | (Hc & Htv & tn & Htn & Htneg)].
    - rewrite delete_id by (by apply ns_0). split_and!; [apply Hco | apply Hco | done | |];
        intros <-; rewrite ns_0 in *; done.
    - pose proof Hc as [Htr _]%child_Some_1. split_and!.
      + apply tree_remove; [apply Hco | done |]. eapply typed_kids; [apply Hco | done | by right].
      + apply typed_remove, Hco.
      + apply child_None. intros x [Hx Hxt]%is_child_delete.
        apply child_Some_1 in Hc. destruct Hxt. by eapply (t_unique _ _ (inv_tree w Hco)).
      + done.
      + intros ->. congruence. }
  assert (delete t (ns w) !! v = Some vn) as Hv1 by (by rewrite lookup_delete_ne).
  assert (delete t (ns w) !! p = Some pn) as Hp1 by (by rewrite lookup_delete_ne).
  destruct (t_up _ _ Htr p) as [l1 Hl1]; [by eexists |].
  assert (l1 = l) as ->.
  { eapply upto_det; [| exact Hl]. eapply upto_weaken; [| exact Hl1]. apply delete_subseteq. }
  split; [by eapply tree_move | by eapply typed_move].
Qed.

(** The invariant after the move, once the LRU and the deferred frees have
    caught up. *)
Lemma inv_after_move k w w' sl N' X l rq :
  inv (S k) w → sl_quiet sl → move_step (dom (w_core w)) N' X (set_rename sl w) w' →
  tree (w_root w) N' → typed (w_root w) N' →
  lru_inv (w_root w) (dom (w_core w)) N' l → rcu_ok (dom (w_core w)) N' rq →
  inv k (set_rcu rq (set_lru l (set_nest k w'))).
Proof.
  intros Hi Hsl [Hr Hl Hb Hs] Htr Hty Hlru Hrcu. destruct Hr; wsimpl in *.
  pose proof (lk_dom _ _ _ Hl) as Hdom. pose proof (lk_ns _ _ _ Hl) as Hns. unfold ns in Hns.
  split; wsimpl; [split; unfold ns; wsimpl; rewrite ?Hdom, ?Hns, ?sr_mask0, ?sr_root0 | ..].
  - apply Hi.
  - apply Hl.
  - split; [apply Hl |]. intros d s. rewrite Hs. case_decide; [| apply (inv_seq w Hi)].
    intros (s0 & Hs0 & ->)%fmap_Some. apply bump_even. by eapply (inv_seq w Hi).
  - rewrite <- sr_mask0, <- sr_root0. apply Hl.
  - rewrite <- sr_root0. apply Hl.
  - done.
  - done.
  - done.
  - done.
  - rewrite Hdom, sr_lock0. apply Hi.
  - unfold bits_free. rewrite Hb, sr_mask0. apply Hi.
  - by rewrite sr_rename0.
  - rewrite sr_mutex0. apply Hi.
  - done.
Qed.

Lemma seq_moved_move w0 w w' sl N' X :
  coherent w → move_step (dom (w_core w)) N' X (set_rename sl w) w' → ns w0 = ns w → w_seq w0 = w_seq w →
  (∀ x, x ∉ X → N' !! x = ns w !! x) →
  ∀ w'', ns w'' = N' → w_seq w'' = w_seq w' → seq_moved w0 w''.
Proof.
  intros Hco [_ _ _ Hs] E1 E2 Hsame w'' En Es d n Hd Hd'. rewrite Es, E2, Hs. rewrite E1 in Hd.
  rewrite En in Hd'. case_decide as HX; [| by rewrite Hsame in Hd'].
  destruct (inv_seq_read w d Hco ltac:(by eexists)) as [Hq He]. wsimpl. rewrite Hq. simpl.
  intros [= E]. by eapply bump_ne.
Qed.

Lemma move_dom (N : nspace) v vn n' t x :
  N !! v = Some vn → t ≠ v → is_Some (<[v := n']> (delete t N) !! x) ↔ is_Some (delete t N !! x).
Proof.
  intros Hv Ht. destruct (decide (v = x)) as [<- |]; [| by rewrite lookup_insert_ne].
  rewrite lookup_insert_eq, lookup_delete_ne, Hv by done. split; by eexists.
Qed.

Lemma move_rcu D (N : nspace) v vn n' t q :
  N !! v = Some vn → t ≠ v → rcu_ok D (delete t N) q → rcu_ok D (<[v := n']> (delete t N)) q.
Proof.
  intros Hv Ht. apply rcu_ok_ext. intros x. rewrite !eq_None_not_Some. by rewrite move_dom.
Qed.

(** The tail of [dc_rename]: leave the read section, then the dropped target's
    LRU removal and deferred free. *)
Lemma wp_rename_tail k w0 w w' v vn n' t sl :
  inv (S k) w → sl_quiet sl → sl_seq sl = bump (sl_seq (w_rename w)) →
  move_step (dom (w_core w)) (<[v := n']> (delete t (ns w))) (move_set v t) (set_rename sl w) w' →
  ns w !! v = Some vn → t = 0 ∨ (t ≠ v ∧ t ≠ w_root w ∧ is_Some (ns w !! t)) →
  tree (w_root w) (<[v := n']> (delete t (ns w))) → typed (w_root w) (<[v := n']> (delete t (ns w))) →
  ns w0 = ns w → w_seq w0 = w_seq w → w_root w0 = w_root w → w_rename w0 = w_rename w →
  wp (rcu_read_unlock ;;;
      when (negb (t =? 0)) (on_lru (lru_del t) ;;; call_rcu t) ;;;
      st_ret 0)
     (λ ret w'', op_post k w0 (0, <[v := n']> (delete t (ns w))) ret w'' ∧
                 sl_seq (w_rename w'') = bump (sl_seq (w_rename w0))) w'.
Proof.
  intros Hi Hsl Hseq Hs Hv Ht Htr Hty E1 E2 E3 E4. pose proof (ms_rest _ _ _ _ _ Hs) as Hr.
  assert (t ≠ v) as Htv.
  { destruct Ht as [-> | (? & _)]; [| done]. intros <-. rewrite ns_0 in Hv; done. }
  wp_step. unfold wp, rcu_read_unlock at 1. rewrite (sr_nest _ _ Hr). wsimpl. rewrite (inv_nest _ w Hi).
  fold (wp (when (negb (t =? 0)) (on_lru (lru_del t) ;;; call_rcu t) ;;; st_ret 0)
     (λ ret w'', op_post k w0 (0, <[v := n']> (delete t (ns w))) ret w'' ∧
                 sl_seq (w_rename w'') = bump (sl_seq (w_rename w0))) (set_nest k w')).
  assert (∀ l rq, lru_inv (w_root w) (dom (w_core w)) (delete t (ns w)) l →
    rcu_ok (dom (w_core w)) (delete t (ns w)) rq →
    op_post k w0 (0, <[v := n']> (delete t (ns w))) 0 (set_rcu rq (set_lru l (set_nest k w'))) ∧
    sl_seq (w_rename (set_rcu rq (set_lru l (set_nest k w')))) = bump (sl_seq (w_rename w0))) as Hend.
  { intros l rq Hl Hrq. split.
    2:{ wsimpl. rewrite (sr_rename _ _ Hr). wsimpl. by rewrite E4. }
    split.
    - eapply inv_after_move; [done | done | exact Hs | done | done | |].
      + eapply lru_inv_ext; [| exact Hl]. intros x. by eapply move_dom.
      + by eapply move_rcu.
    - done.
    - simpl. rewrite <- (lk_ns _ _ _ (ms_linked _ _ _ _ _ Hs)). done.
    - wsimpl. rewrite (sr_root _ _ Hr). wsimpl. done.
    - eapply (seq_moved_move w0 w w' sl); [done | exact Hs | done | done | | | done].
      + unfold move_set. intros x Hx. rewrite lookup_insert_ne by (intros ->; apply Hx; set_solver).
        destruct (Z.eqb_spec t 0) as [-> | ?].
        * by rewrite delete_id by (by apply ns_0).
        * rewrite lookup_delete_ne; [done |]. intros ->. apply Hx. set_solver.
      + rewrite <- (lk_ns _ _ _ (ms_linked _ _ _ _ _ Hs)). done. }
  wp_step. destruct (Z.eqb_spec t 0) as [-> | H0]; simpl.
  - wp_step. wp_step.
    assert (set_nest k w' = set_rcu (w_rcu w') (set_lru (w_lru w') (set_nest k w'))) as -> by (by destruct w').
    apply Hend.
    + rewrite (sr_lru _ _ Hr), (delete_id (ns w)) by (by apply ns_0). apply Hi.
    + rewrite (sr_rcu _ _ Hr), (delete_id (ns w)) by (by apply ns_0). apply Hi.
  - destruct Ht as [| (_ & Htr' & [tn Htn])]; [done |].
    assert (t ∈ dom (w_core w)) as HD by (apply ns_dom; by eexists).
    wp_step. apply wp_on_lru. wsimpl. rewrite (sr_lru _ _ Hr). wsimpl.
    wp_use (wp_lru_inv_del (w_root w) (dom (w_core w)) (ns w)); [apply Hi | done | done |].
    intros _ l Hl. unfold call_rcu. wp_step. wp_step. apply Hend; [done |]. wsimpl.
    rewrite (sr_rcu _ _ Hr). wsimpl. eapply rcu_ok_kill; [apply Hi | done | done].
Qed.

(** ** dc_rename *)

Definition rename_post (k : nat) (w : world) (spec : Z * nspace) (ret : Z) (w' : world) : Prop :=
  op_post k w spec ret w' ∧
  (ret = 0 → sl_seq (w_rename w') = bump (sl_seq (w_rename w))).

Lemma inv_set_mutex_back k w c : inv k w → set_mutex false (set_mutex c w) = w.
Proof. intros Hi. rewrite <- (inv_mutex k w Hi). by destruct w. Qed.

(** From the two ends to the label [out]: an error leaves the world alone, a move
    ends with all locks released. *)
Lemma wp_rename_ends k w v vn tp tpn q :
  inv (S k) w → ns w !! v = Some vn → v ≠ w_root w → ns w !! tp = Some tpn → qstr_wf q →
  let cross := negb (n_parent vn =? tp) in
  wp (when cross mutex_lock ;;;
      let! to_name := st_ret q in
      let! r :=
        (let! tpc := core_at tp in
         if negb (d_is_positive tpc) then st_ret (- ENOENT, 0)
         else
           let! loop := (if cross then is_subdir tp v else st_ret false) in
           if loop : bool then st_ret (- EINVAL, 0)
           else
             dirs_wlock2 (n_parent vn) tp ;;;
             let! r := rename_locked v tp to_name cross in
             dirs_wunlock2 (n_parent vn) tp ;;;
             st_ret r) in
      when cross mutex_unlock ;;;
      st_ret r)
    (λ r w',
      let spec := if negb (n_pos tpn) then (- ENOENT, ns w)
                  else if cross && subdir (w_root w) (ns w) tp v then (- EINVAL, ns w)
                  else rename_at (w_root w) (ns w) v vn tp (qname q) in
      (w' = w ∧ ∃ e, e ≠ 0 ∧ r = (e, 0) ∧ spec = (e, ns w)) ∨
      (∃ t sl, r = (0, t) ∧ n_pos tpn = true ∧ (cross && subdir (w_root w) (ns w) tp v = false) ∧
        target_ok w v tp (qname q) t ∧ sl_quiet sl ∧ sl_seq sl = bump (sl_seq (w_rename w)) ∧
        spec = (0, <[v := moved vn tp (qname q)]> (delete t (ns w))) ∧
        move_step (dom (w_core w)) (<[v := moved vn tp (qname q)]> (delete t (ns w))) (move_set v t)
          (set_rename sl w) w')) w.
Proof.
  intros Hi Hv Hvr Htp Hq cross.
  pose proof Htp as (tpc & Htpc & _ & ->)%ns_lookup. simpl.
  assert (tp ∈ dom (w_core w)) as HtpD by (apply ns_dom; by eexists).
  assert (n_parent vn ∈ dom (w_core w)) as HvpD by (apply ns_dom; eapply tree_parent; [apply Hi | done]).
  wp_step. apply wp_mutex_lock; [apply Hi |]. wp_step. wp_step. wp_step.
  set (w1 := set_mutex cross w) in *.
  assert (coherent w1) as Hco1 by (by apply coherent_set_mutex).
  wp_step. eapply wp_core_at; [done |].
  assert (∀ e, e ≠ 0 → wp (when cross mutex_unlock ;;; st_ret (e, 0))
    (λ r w', (w' = w ∧ ∃ e', e' ≠ 0 ∧ r = (e', 0) ∧ (e, ns w) = (e', ns w))) w1) as Herr.
  { intros e He. wp_step. apply wp_mutex_unlock; [done |]. wp_step. split; [| by exists e].
    by eapply inv_set_mutex_back. }
  destruct (d_is_positive tpc) eqn:Hpos; simpl.
  2:{ wp_step. eapply wp_mono; [by apply Herr |]. intros. by left. }
  wp_step.
  eapply (wp_mono _ (λ b w', w' = w1 ∧ b = cross && subdir (w_root w) (ns w) tp v)).
  { destruct cross; simpl; [| by wp_step]. wp_use wp_is_subdir; [done | by eexists | done]. }
  intros loop w2 [-> ->]. destruct (cross && subdir (w_root w) (ns w) tp v) eqn:Hloop.
  { wp_step. eapply wp_mono; [by apply Herr |]. intros. by left. }
  wp_step. eapply (wp_dirs_wlock2 (dom (w_core w))); [apply Hi | done | done |]. wsimpl.
  set (w3 := set_lock _ w1). wp_step.
  wp_use (wp_rename_locked w3 v vn tp q cross);
    [by apply coherent_set_lock | apply Hi | apply Hi | done | done | done | by exists (view tpc) |].
  intros r w4 [(-> & e & He & -> & Hspec) | (t & sl & -> & Ht & Hsl & Hseq & Hspec & Hms)].
  - wp_step. eapply (wp_dirs_wunlock2 (dom (w_core w)) (w_lock w)); [apply Hi | done | done | done |].
    wp_step. wp_step. apply wp_mutex_unlock; [done |]. wp_step. left. wsimpl. split.
    { pose proof (inv_mutex _ w Hi) as E. destruct w; simpl in *. by subst. }
    by exists e.
  - destruct Hms as [Hr Hl Hb Hs]. wp_step.
    eapply (wp_dirs_wunlock2 (dom (w_core w)) (w_lock w)); [apply Hi | done | done | by rewrite (sr_lock _ _ Hr) |].
    wp_step. wp_step. apply wp_mutex_unlock; [wsimpl; by rewrite (sr_mutex _ _ Hr) |]. wp_step.
    right. exists t, sl. split_and!; try done. pose proof (inv_mutex _ w Hi) as E.
    split; wsimpl; [destruct Hr; by split | destruct Hl; by split | done | done].
Qed.

Lemma wp_dc_rename k w from to :
  inv k w → path_wf from → path_wf to → dest_is_dir (w_root w) (ns w) (pnames to) →
  wp (dc_rename from to)
     (rename_post k w (spec_rename (w_root w) (pnames from) (pnames to) (ns w))) w.
Proof.
  intros Hi Hpf Hpt Hdir. unfold dc_rename. case_decide as H0.
  { wp_step. assert (spec_rename (w_root w) (pnames from) (pnames to) (ns w) = (- EINVAL, ns w)) as ->.
    { unfold spec_rename, pnames. destruct H0 as [-> | ->]; [done |]. simpl. by case_match. }
    split; [by apply op_post_same | done]. }
  assert (ndepth from ≠ 0%nat ∧ ndepth to ≠ 0%nat) as [Hf0 Ht0] by tauto.
  unfold rcu_read_lock. wp_step. wp_step. pose proof (inv_enter k w Hi) as Hi1.
  set (w1 := set_nest _ w) in *. wp_step. unfold rename_body. wp_step.
  wp_use wp_resolve; [done | done | done |]. intros ? ? ((s & ->) & Hi2 & ->).
  rewrite take_ge by (rewrite length_pnames by done; lia).
  pose proof (pnames_nonempty from Hpf Hf0) as Hfne.
  destruct (path_split to Hpt Ht0) as (q & Hcq & Hq & _ & Hsl).
  assert (∀ w2 spec, inv (S k) w2 → ns w2 = ns w → w_root w2 = w_root w → fst spec = - ENOENT → snd spec = ns w →
    wp (rcu_read_unlock ;;; when (negb (0 =? 0)) (on_lru (lru_del 0) ;;; call_rcu 0) ;;; st_ret (- ENOENT))
       (rename_post k w spec) w2) as Hearly.
  { intros w2 spec Hi' En Er Ef Es. wp_step. eapply wp_rcu_unlock; [exact Hi' |]. intros Hi''. simpl.
    wp_step. wp_step. wp_step. split; [| by intros]. split; [done | done | by rewrite Es | done |].
    intros d n Hd Hd'. by rewrite <- En in Hd. }
  unfold spec_rename. rewrite Hsl. destruct (pnames from) as [| f0 fs] eqn:Ef; [done |]. rewrite <- Ef in *.
  change (w_root w1) with (w_root w). change (ns w1) with (ns w).
  destruct (nwalk (w_root w) (ns w) (w_root w) (pnames from)) as [v |] eqn:Ev; simpl.
  2:{ wp_step. cbn beta iota. by apply Hearly. }
  pose proof (nwalk_not_root _ _ _ _ Hfne Ev) as Hvr.
  destruct (nwalk_alive (set_lru s w1) _ v ltac:(done) Ev) as (vc & Hvc & Hvu & Hvn & Hv0 & _).
  change (ns (set_lru s w1)) with (ns w) in Hvn. rewrite Hvn. simpl.
  destruct (Z.eqb_spec v 0); [done |]. wp_step. wp_use wp_resolve; [exact Hi2 | done | lia |].
  intros ? ? ((s' & ->) & Hi3 & ->). change (set_lru s' (set_lru s w1)) with (set_lru s' w1) in *.
  change (w_root (set_lru s w1)) with (w_root w). change (ns (set_lru s w1)) with (ns w).
  destruct (nwalk (w_root w) (ns w) (w_root w) (take (ndepth to - 1) (pnames to))) as [tp |] eqn:Etp; simpl.
  2:{ wp_step. cbn beta iota. by apply Hearly. }
  destruct (nwalk_alive (set_lru s' w1) _ tp ltac:(done) Etp) as (tpc & Htpc & Htpu & Htpn & Htp0 & _).
  change (ns (set_lru s' w1)) with (ns w) in Htpn. rewrite Htpn. simpl.
  destruct (Z.eqb_spec tp 0); [done |]. wp_step. eapply wp_core_at; [done |]. cbn zeta.
  unfold comp_at, path_comp. rewrite Hcq.
  wp_use (wp_rename_ends k (set_lru s' w1) v (view vc) tp (view tpc) q);
    [exact Hi3 | done | done | done | done |].
  change (w_root (set_lru s' w1)) with (w_root w). change (ns (set_lru s' w1)) with (ns w).
  intros r w4 [(-> & e & He & -> & Hspec) | (t & sl & -> & Hpos & Hloop & Ht & Hsl' & Hseq & Hspec & Hms)];
    cbn beta iota; fold (rename_at (w_root w) (ns w) v (view vc) tp (qname q)); simpl in Hspec; rewrite Hspec.
  - wp_step. eapply wp_rcu_unlock; [exact Hi3 |]. intros Hi''. simpl. wp_step. wp_step. wp_step.
    split; [| by intros]. split; [done | done | done | done |]. intros d m Hd Hd'. done.
  - destruct (t_up _ _ (inv_tree w Hi) tp) as [l Hl]; [by eexists |].
    destruct (moved_tree (set_lru s' w1) v (view vc) tp (view tpc) (qname q) t l) as [Htr Hty]; try done.
    + eapply Hdir; [exact Hsl | exact Etp | exact Htpn].
    + rewrite (subdir_spec _ _ tp v l (inv_tree w Hi) Hl) in Hloop.
      apply andb_false_iff in Hloop as [E%negb_false_iff%Z.eqb_eq | E%bool_decide_eq_false]; [by left | by right].
    + eapply wp_mono; [eapply (wp_rename_tail k w (set_lru s' w1)); try done; by eapply target_cases |].
      cbn beta. intros ret w5 [Hpost Hbump]. by split.
Qed.

(** ** Exchange *)

Lemma swap_map (N : nspace) a b x y :
  a ≠ b → <[b := y]> (<[a := x]> (delete b (delete a N))) = <[a := x]> (<[b := y]> N).
Proof.
  intros Hab. rewrite insert_insert_ne by done. rewrite insert_delete_eq.
  rewrite (insert_insert_ne _ a b) by done. rewrite insert_delete_eq. by apply insert_insert_ne.
Qed.

Lemma wp_swap_places D N w da db an bn na nb ba bb :
  linked D N w → N !! da = Some an → N !! db = Some bn → da ≠ db → da ≠ w_root w → db ≠ w_root w →
  n_parent an ∈ D → aligned (n_parent an) → n_parent bn ∈ D → aligned (n_parent bn) →
  qstr_wf na → qstr_wf nb → qname na = n_name an → qname nb = n_name bn →
  bits (w_hash w) !! ba = Some 1 → bits (w_hash w) !! bb = Some 1 →
  ba = bucket_no (w_mask w) (n_parent an) (q_hash na) →
  bb = bucket_no (w_mask w) (n_parent bn) (q_hash nb) →
  wp (swap_places da db (n_parent an) (n_parent bn) na nb ba bb)
     (λ _ w', move_step D (<[da := moved an (n_parent bn) (n_name bn)]>
                           (<[db := moved bn (n_parent an) (n_name an)]> N)) {[da; db]} w w') w.
Proof.
  intros Hl Ha Hb Hab Har Hbr HpaD Hpa HpbD Hpb Hna Hnb Ena Enb Hbita Hbitb Hba Hbb.
  destruct (linked_core D N w da an Hl Ha) as (ca & Hca & Hau & -> & Haok & Haal & Ha0 & HaD).
  destruct (linked_core D N w db bn Hl Hb) as (cb & Hcb & Hbu & -> & Hbok & Hbal & Hb0 & HbD).
  destruct (linked_seq D N w da Hl HaD) as [sa Hsa]. destruct (linked_seq D N w db Hl HbD) as [sb Hsb].
  rewrite <- Ena, <- Enb. simpl in HpaD, Hpa, HpbD, Hpb, Hba, Hbb. simpl.
  set (pa := dparent_of ca) in *. set (pb := dparent_of cb) in *.
  set (a' := moved (view ca) pb (qname nb)). set (b' := moved (view cb) pa (qname na)).
  destruct (core_move ca pb nb Haok Hau Hpb Hnb) as (Hca1 & Hau1 & Hav1).
  destruct (core_move cb pa na Hbok Hbu Hpa Hna) as (Hcb1 & Hbu1 & Hbv1).
  set (ca1 := set_d_parent _ _) in Hca1, Hau1, Hav1. set (cb1 := set_d_parent _ _) in Hcb1, Hbu1, Hbv1.
  unfold swap_places. eapply wp_seq_open; [done |]. eapply wp_seq_open; [wsimpl; by rewrite lookup_insert_ne |].
  wp_step. apply wp_on_hash. wsimpl.
  wp_use (wp_hash_del (w_mask w) (w_root w) D N); [apply Hl | done | done |]. intros _ h1 [Hh1 Hb1].
  wp_step. apply wp_on_hash. wsimpl.
  wp_use (wp_hash_del (w_mask w) (w_root w) D (delete da N)); [done | by rewrite lookup_delete_ne | done |].
  intros _ h2 [Hh2 Hb2]. wp_step.
  match goal with |- wp _ _ ?w0 => eapply (wp_mono _ (λ _ w', ∃ m, w' = set_kids m w0 ∧
    kids_ok (w_root w) D (if pa =? pb then N else delete db (delete da N)) m)) end.
  { destruct (pa =? pb) eqn:E; simpl.
    - wp_step. exists (w_kids w). split; [done | apply Hl].
    - wp_step. apply wp_on_kids. wp_use (wp_kids_remove (w_root w) D N); [apply Hl | done | done |].
      intros _ m1 Hm1. apply wp_on_kids. wsimpl.
      wp_use (wp_kids_remove (w_root w) D (delete da N)); [done | by rewrite lookup_delete_ne | done |].
      intros _ m2 Hm2. eauto. }
  intros _ w2 (m & -> & Hm).
  wp_step. eapply wp_core_store; [done |]. wp_step.
  eapply wp_core_store; [wsimpl; by rewrite lookup_insert_ne |]. wp_step.
  eapply wp_core_store; [wsimpl; rewrite lookup_insert_ne by done; apply lookup_insert_eq |]. wp_step.
  eapply wp_core_store; [wsimpl; rewrite lookup_insert_ne by done; apply lookup_insert_eq |]. wsimpl.
  wp_step. apply wp_on_hash. wsimpl.
  wp_use (wp_hash_add (w_mask w) (w_root w) D (delete db (delete da N)) h2 bb da a');
    [done | | done | done | done | done | by rewrite Hb2, Hb1 | |].
  { rewrite lookup_delete_ne by done. apply lookup_delete_eq. }
  { unfold bucket_for. simpl. by rewrite Hbb, (qw_hash nb Hnb). }
  intros _ h3 [Hh3 Hb3]. wp_step. apply wp_on_hash. wsimpl.
  wp_use (wp_hash_add (w_mask w) (w_root w) D (<[da := a']> (delete db (delete da N))) h3 ba db b');
    [done | | done | done | done | done | by rewrite Hb3, Hb2, Hb1 | |].
  { rewrite lookup_insert_ne by done. apply lookup_delete_eq. }
  { unfold bucket_for. simpl. by rewrite Hba, (qw_hash na Hna). }
  intros _ h4 [Hh4 Hb4]. rewrite swap_map in Hh4 by done. wp_step.
  match goal with |- wp _ _ ?w0 => eapply (wp_mono _ (λ _ w', ∃ m', w' = set_kids m' w0 ∧
    kids_ok (w_root w) D (<[da := a']> (<[db := b']> N)) m')) end.
  { destruct (Z.eqb_spec pa pb) as [E | E]; simpl.
    - wp_step. exists m. split; [done |]. eapply kids_ok_ext; [exact Hm |]. intros x.
      destruct (decide (da = x)) as [<- |]; [rewrite lookup_insert_eq, Ha; simpl; by rewrite <- E |].
      rewrite lookup_insert_ne by done. destruct (decide (db = x)) as [<- |]; [| by rewrite lookup_insert_ne].
      rewrite lookup_insert_eq, Hb. simpl. by rewrite E.
    - wp_step. apply wp_on_kids. wsimpl.
      wp_use (wp_kids_add (w_root w) D (delete db (delete da N)) m pb da a');
        [done | | done | done | done | done | done |].
      { rewrite lookup_delete_ne by done. apply lookup_delete_eq. }
      intros _ m2 Hm2. apply wp_on_kids. wsimpl.
      wp_use (wp_kids_add (w_root w) D (<[da := a']> (delete db (delete da N))) m2 pa db b');
        [done | | done | done | done | done | done |].
      { rewrite lookup_insert_ne by done. apply lookup_delete_eq. }
      intros _ m3 Hm3. rewrite swap_map in Hm3 by done.
      exists m3. split; [apply set_kids_kids | exact Hm3]. }
  intros _ w3 (m' & -> & Hm').
  eapply (wp_seq_close db sb (<[da := w64 (sa + 1)]> (w_seq w))); [done |]. wsimpl.
  eapply wp_on_d_seq; [wsimpl; rewrite lookup_insert_ne by done; apply lookup_insert_eq |].
  unfold write_seqcount_end. wp_step. wsimpl.
  assert (∀ X Y : core, <[db := cb1]> (<[da := ca1]> (<[db := X]> (<[da := Y]> (w_core w)))) =
            <[da := ca1]> (<[db := cb1]> (w_core w))) as Ecore.
  { intros X Y. rewrite (insert_insert_ne _ da db) by done. rewrite !insert_insert_eq.
    by apply insert_insert_ne. }
  split; wsimpl; try done.
  - split; wsimpl; unfold ns; wsimpl; try done; fold ca1; fold cb1; rewrite ?Ecore.
    + by apply cores_ok_insert; [apply cores_ok_insert; [apply Hl | ..] | ..].
    + rewrite !dom_insert_L, (lk_dom _ _ _ Hl). clear -HaD HbD. set_solver.
    + rewrite ns_insert, Hau1, Hav1, ns_insert, Hbu1, Hbv1. do 2 f_equal. apply Hl.
    + rewrite !dom_insert_L, (lk_seq _ _ _ Hl). clear -HaD HbD. set_solver.
  - by rewrite Hb4, Hb3, Hb2, Hb1.
  - intros x. destruct (decide (da = x)) as [<- | Hxa].
    { rewrite decide_True by (clear; set_solver). by rewrite lookup_insert_eq, Hsa. }
    rewrite lookup_insert_ne by done. destruct (decide (db = x)) as [<- | Hxb].
    { rewrite decide_True by (clear; set_solver). by rewrite lookup_insert_eq, Hsb. }
    rewrite !lookup_insert_ne by done. rewrite decide_False; [done |]. clear -Hxa Hxb. set_solver.
Qed.

(** The exchange itself, in a world whose vfs_rename_mutex may be held. *)
Lemma wp_d_exchange w da db an bn :
  coherent w → locks_free (dom (w_core w)) (w_lock w) → bits_free (w_mask w) (w_hash w) →
  sl_quiet (w_rename w) → ns w !! da = Some an → ns w !! db = Some bn → da ≠ db →
  da ≠ w_root w → db ≠ w_root w →
  let N' := <[da := moved an (n_parent bn) (n_name bn)]> (<[db := moved bn (n_parent an) (n_name an)]> (ns w)) in
  wp (d_exchange da db (n_parent an) (n_parent bn)) (λ _ w', ∃ sl,
    sl_quiet sl ∧ sl_seq sl = bump (sl_seq (w_rename w)) ∧
    move_step (dom (w_core w)) N' {[da; db]} (set_rename sl w) w') w.
Proof.
  intros Hco Hlk Hf Hsl Ha Hb Hab Har Hbr N'. pose proof (coherent_linked w Hco) as Hl.
  destruct (linked_core _ _ _ _ _ Hl Ha) as (ca & Hca & Hau & Eca & Haok & _).
  destruct (linked_core _ _ _ _ _ Hl Hb) as (cb & Hcb & Hbu & Ecb & Hbok & _).
  destruct (tree_parent _ _ _ _ (inv_tree w Hco) Ha) as [pan Hpan].
  destruct (tree_parent _ _ _ _ (inv_tree w Hco) Hb) as [pbn Hpbn].
  destruct (linked_core _ _ _ _ _ Hl Hpan) as (? & _ & _ & _ & _ & Hpaal & _ & HpaD).
  destruct (linked_core _ _ _ _ _ Hl Hpbn) as (? & _ & _ & _ & _ & Hpbal & _ & HpbD).
  unfold d_exchange. wp_step. eapply wp_core_at; [done |]. wp_step. eapply wp_core_at; [done |]. cbn zeta.
  wp_step. unfold bucket_of. wp_step. wp_step. wp_step. wp_step.
  eapply (wp_dirs_wlock2 (dom (w_core w))); [done | done | done |]. wp_step. apply wp_on_rename. wsimpl.
  wp_use wp_write_seqlock; [done |]. intros _ ? ->. set (w1 := set_rename _ _). wp_step.
  wp_use (wp_bucket_pair (dom (w_core w)) (ns w) N' {[da; db]} w1);
    [destruct Hl; by split | done | apply bucket_lt, Hco | apply bucket_lt, Hco | |].
  { intros h Hl1 Hba Hbb. eapply (wp_swap_places (dom (w_core w)) (ns w)); try done.
    - apply Haok.
    - apply Hbok.
    - by rewrite Eca.
    - by rewrite Ecb. }
  intros _ w2 [Hr Hl2 Hb2 Hs2]. wp_step. apply wp_on_rename. rewrite (sr_rename _ _ Hr). unfold w1. wsimpl.
  wp_use wp_write_sequnlock; [done |]. intros _ sl [Hq Hseq].
  eapply (wp_dirs_wunlock2 (dom (w_core w)) (w_lock w)); [done | done | done | wsimpl; by rewrite (sr_lock _ _ Hr) |].
  exists sl. split_and!; [done | done |]. destruct Hr; unfold w1 in *; wsimpl in *.
  split; wsimpl; [by split | destruct Hl2; by split | done | done].
Qed.

Lemma wp_dc_rename_exchange k w a b :
  inv k w → path_wf a → path_wf b →
  wp (dc_rename_exchange a b)
     (op_post k w (spec_exchange (w_root w) (pnames a) (pnames b) (ns w))) w.
Proof.
  intros Hi Hpa Hpb. unfold dc_rename_exchange. case_decide as H0.
  { wp_step. assert (spec_exchange (w_root w) (pnames a) (pnames b) (ns w) = (- EINVAL, ns w)) as ->.
    { unfold spec_exchange, pnames. destruct H0 as [-> | ->]; [done |]. simpl. by case_match. }
    by apply op_post_same. }
  assert (ndepth a ≠ 0%nat ∧ ndepth b ≠ 0%nat) as [Ha0 Hb0] by tauto.
  unfold rcu_read_lock. wp_step. wp_step. pose proof (inv_enter k w Hi) as Hi1.
  set (w1 := set_nest _ w) in *. wp_step. wp_step.
  wp_use wp_resolve; [done | done | done |]. intros ? ? ((s & ->) & Hi2 & ->).
  wp_step. wp_use wp_resolve; [exact Hi2 | done | done |]. intros ? ? ((s' & ->) & Hi3 & ->).
  change (set_lru s' (set_lru s w1)) with (set_lru s' w1) in *. set (w2 := set_lru s' w1) in *.
  rewrite !take_ge by (rewrite length_pnames by done; lia).
  pose proof (pnames_nonempty a Hpa Ha0) as Hane. pose proof (pnames_nonempty b Hpb Hb0) as Hbne.
  unfold spec_exchange. destruct (pnames a) as [| a0 al] eqn:Ea; [done |]. rewrite <- Ea in *.
  destruct (pnames b) as [| b0 bl] eqn:Eb; [done |]. rewrite <- Eb in *.
  change (w_root (set_lru s w1)) with (w_root w). change (ns (set_lru s w1)) with (ns w).
  change (w_root w1) with (w_root w). change (ns w1) with (ns w).
  assert (∀ e, wp (rcu_read_unlock ;;; st_ret e) (op_post k w (e, ns w)) w2) as Hend.
  { intros e. by eapply wp_early. }
  destruct (nwalk (w_root w) (ns w) (w_root w) (pnames a)) as [da |] eqn:Eda; simpl.
  2:{ wp_step. apply Hend. }
  pose proof (nwalk_not_root _ _ _ _ Hane Eda) as Har.
  destruct (nwalk_alive w2 _ da ltac:(done) Eda) as (ca & Hca & Hau & Han & Hda0 & _).
  change (ns w2) with (ns w) in Han. rewrite Han. simpl.
  destruct (nwalk (w_root w) (ns w) (w_root w) (pnames b)) as [db |] eqn:Edb; simpl.
  2:{ rewrite orb_true_r. wp_step. apply Hend. }
  pose proof (nwalk_not_root _ _ _ _ Hbne Edb) as Hbr.
  destruct (nwalk_alive w2 _ db ltac:(done) Edb) as (cb & Hcb & Hbu & Hbn & Hdb0 & _).
  change (ns w2) with (ns w) in Hbn. rewrite Hbn. simpl.
  destruct (Z.eqb_spec da 0); [done |]. destruct (Z.eqb_spec db 0); [done |]. simpl.
  destruct (Z.eqb_spec da db) as [-> | Hab].
  { wp_step. apply Hend. }
  wp_step. eapply wp_core_at; [done |]. wp_step. eapply wp_core_at; [done |]. cbn zeta.
  set (cross := negb (dparent_of ca =? dparent_of cb)). wp_step. apply wp_mutex_lock; [apply Hi |].
  set (w3 := set_mutex cross w2). assert (coherent w3) as Hco3 by (by apply coherent_set_mutex).
  wp_step. eapply (wp_mono _ (λ x w', w' = w3 ∧ x = cross &&
    (subdir (w_root w) (ns w) (dparent_of cb) da || subdir (w_root w) (ns w) (dparent_of ca) db))).
  { destruct cross; simpl; [| by wp_step]. wp_step. wp_use wp_is_subdir; [done | | ].
    { eapply (tree_parent _ _ db (view cb)); [apply Hi | done]. }
    intros ? ? [-> ->]. change (w_root w3) with (w_root w). change (ns w3) with (ns w).
    destruct (subdir (w_root w) (ns w) (dparent_of cb) da); simpl; [by wp_step |].
    wp_use wp_is_subdir; [done | | done]. eapply (tree_parent _ _ da (view ca)); [apply Hi | done]. }
  intros loop ? [-> ->]. wp_step.
  destruct (cross && _) eqn:Hloop.
  { wp_step. wp_step. apply wp_mutex_unlock; [done |]. wp_step.
    unfold w3. rewrite (inv_set_mutex_back _ w2 cross Hi3). apply Hend. }
  wp_step. wp_use (wp_d_exchange w3 da db (view ca) (view cb));
    [done | apply Hi | apply Hi | apply Hi | done | done | done | done | done |].
  intros _ w4 (sl & Hsl & Hseq & Hms). wp_step. wp_step.
  set (N' := <[da := _]> (<[db := _]> (ns w3))) in Hms.
  assert (move_step (dom (w_core w2)) N' {[da; db]} (set_rename sl w2) (set_mutex false w4)) as Hms2.
  { destruct Hms as [Hr Hl Hb Hs]. pose proof (inv_mutex _ w2 Hi3) as E.
    split; wsimpl; [destruct Hr; by split | destruct Hl; by split | done | done]. }
  apply wp_mutex_unlock; [by rewrite (sr_mutex _ _ (ms_rest _ _ _ _ _ Hms)) |]. wp_step.
  pose proof (ms_rest _ _ _ _ _ Hms2) as Hr. set (w5 := set_mutex false w4) in *.
  destruct (t_up _ _ (inv_tree w Hi) (dparent_of ca)) as [la Hla].
  { eapply (tree_parent _ _ da (view ca)); [apply Hi | done]. }
  destruct (t_up _ _ (inv_tree w Hi) (dparent_of cb)) as [lb Hlb].
  { eapply (tree_parent _ _ db (view cb)); [apply Hi | done]. }
  assert (tree (w_root w) N' ∧ typed (w_root w) N') as [Htr Hty].
  { split.
    - apply (tree_exchange _ (ns w) da db (view ca) (view cb) la lb); try done; [apply Hi |].
      rewrite (subdir_spec _ _ _ da lb (inv_tree w Hi) Hlb), (subdir_spec _ _ _ db la (inv_tree w Hi) Hla) in Hloop.
      apply andb_false_iff in Hloop as [E%negb_false_iff%Z.eqb_eq | [E1 E2]%orb_false_iff]; [by left |].
      apply bool_decide_eq_false in E1, E2. by right.
    - destruct (tree_parent _ _ _ _ (inv_tree w Hi) Han) as [pan Hpan].
      destruct (tree_parent _ _ _ _ (inv_tree w Hi) Hbn) as [pbn Hpbn].
      destruct (inv_typed w Hi _ _ _ Har Han Hpan). destruct (inv_typed w Hi _ _ _ Hbr Hbn Hpbn).
      destruct (decide (db = n_parent (view cb))) as [E | E].
      { by destruct (parent_ne _ _ _ _ (inv_tree w Hi) Hbn Hbr). }
      assert (typed (w_root w) (<[db := moved (view cb) (n_parent (view ca)) (n_name (view ca))]> (ns w))) as Ht1.
      { by eapply typed_move; [apply Hi | ..]. }
      eapply (typed_move _ _ da (view ca) _ pbn); [done | by rewrite lookup_insert_ne | | done | done].
      by rewrite lookup_insert_ne. }
  assert (∀ x, is_Some (N' !! x) ↔ is_Some (ns w !! x)) as Hdom.
  { intros x. unfold N'. destruct (decide (da = x)) as [<- |]; [rewrite lookup_insert_eq, Han; split; by eexists |].
    rewrite lookup_insert_ne by done. destruct (decide (db = x)) as [<- |]; [| by rewrite lookup_insert_ne].
    rewrite lookup_insert_eq, Hbn. split; by eexists. }
  wp_step. unfold wp, rcu_read_unlock. rewrite (sr_nest _ _ Hr). wsimpl. rewrite (inv_nest _ w2 Hi3).
  unfold st_ret.
  assert (set_nest k w5 = set_rcu (w_rcu w5) (set_lru (w_lru w5) (set_nest k w5))) as -> by (by destruct w5).
  split.
  - eapply inv_after_move; [exact Hi3 | exact Hsl | exact Hms2 | done | done | |].
    + eapply lru_inv_ext; [exact Hdom |]. rewrite (sr_lru _ _ Hr). apply Hi3.
    + eapply rcu_ok_ext; [| rewrite (sr_rcu _ _ Hr); apply Hi3].
      intros x. rewrite !eq_None_not_Some. by rewrite Hdom.
  - done.
  - exact (lk_ns _ _ _ (ms_linked _ _ _ _ _ Hms2)).
  - exact (sr_root _ _ Hr).
  - eapply (seq_moved_move w w2 w5 sl); [done | exact Hms2 | done | done | | | done].
    + intros x Hx. unfold N'. rewrite !lookup_insert_ne; [done | |]; intros ->; apply Hx; clear; set_solver.
    + exact (lk_ns _ _ _ (ms_linked _ _ _ _ _ Hms2)).
Qed.

End rename.
