(* ===== verification/Lifecycle.v ===== *)
(** The lifecycle of a cache: [dc_create] rounds the bucket count up to a power of
    two and establishes the invariant, a grace period frees exactly the dentries
    that were killed, [dc_destroy] frees every dentry once. *)

From S2P Require Import Prelude Qstr HList HashTab Children Lru Seqcount World Walk Ops Reclaim.
From S2P Require Import Namespace TreeOps Inv Parts WalkSpec OpsSpec.

#[export] Instance none_isolated : Isolated := (∅ : gset Z).

(** ** Rounding up *)

Lemma round_up_spec k : ∀ fuel j nb,
  (k + j)%nat = 31%nat → (k < fuel)%nat → 2 ^ (Z.of_nat j - 1) < nb ≤ 2 ^ 31 →
  ∃ b, (j ≤ b ≤ 31)%nat ∧ round_up fuel (2 ^ Z.of_nat j) nb = Ok (2 ^ Z.of_nat b) ∧
       2 ^ (Z.of_nat b - 1) < nb ≤ 2 ^ Z.of_nat b.
Proof.
  induction k as [| k IH]; intros fuel j nb Hj Hf Hnb; (destruct fuel as [| fuel]; [lia |]); cbn [round_up].
  - assert (j = 31%nat) as -> by lia. exists 31%nat. destruct (Z.ltb_spec (2 ^ Z.of_nat 31) nb); [lia |].
    split; [lia |]. split; [done |]. lia.
  - destruct (Z.ltb_spec (2 ^ Z.of_nat j) nb) as [Hlt | Hge].
    + assert (w32 (Z.shiftl (2 ^ Z.of_nat j) 1) = 2 ^ Z.of_nat (S j)) as ->.
      { rewrite Z.shiftl_mul_pow2 by lia. unfold w32. rewrite Z.mod_small.
        - rewrite Nat2Z.inj_succ, Z.pow_succ_r by lia. lia.
        - split; [lia |]. assert (2 ^ Z.of_nat j ≤ 2 ^ 30) by (apply Z.pow_le_mono_r; lia). lia. }
      destruct (IH fuel (S j) nb) as (b & ? & ? & ?); [lia | lia | |].
      { replace (Z.of_nat (S j) - 1) with (Z.of_nat j) by lia. lia. }
      exists b. split; [lia |]. done.
    + exists j. split; [lia |]. split; [done |]. lia.
Qed.

(** The smallest power of two that is at least [nb]. *)
Lemma round_up_pow2 nb :
  0 ≤ nb ≤ 2 ^ 31 →
  ∃ b, 0 ≤ b ≤ 31 ∧ round_up ROUND_FUEL 1 nb = Ok (2 ^ b) ∧ nb ≤ 2 ^ b ∧ (b = 0 ∨ 2 ^ (b - 1) < nb).
Proof.
  intros Hnb. destruct (decide (nb = 0)) as [-> |].
  { exists 0. split_and!; try done. by left. }
  destruct (round_up_spec 31 ROUND_FUEL 0 nb) as (b & Hb & E & H); [done | unfold ROUND_FUEL; lia | |].
  { simpl. lia. }
  exists (Z.of_nat b). split_and!; [lia | lia | done | lia | right; lia].
Qed.

(** Past 2^31 the doubled word is 0, and 0 doubled is 0: the loop never ends. *)
Lemma round_up_stuck fuel nb : 0 < nb → round_up fuel 0 nb = Err NoFuel.
Proof.
  intros Hnb. induction fuel as [| fuel IH]; [done |]. cbn [round_up].
  destruct (Z.ltb_spec 0 nb); [exact IH | lia].
Qed.

Lemma round_up_diverges nb fuel : 2 ^ 31 < nb < 2 ^ 32 → round_up fuel 1 nb = Err NoFuel.
Proof.
  intros Hnb.
  enough (∀ k j fuel, (k + j)%nat = 32%nat → round_up fuel (w32 (2 ^ Z.of_nat j)) nb = Err NoFuel) as H.
  { exact (H 32%nat 0%nat fuel eq_refl). }
  clear fuel. induction k as [| k IH]; intros j fuel Hj.
  - assert (j = 32%nat) as -> by lia. apply round_up_stuck. lia.
  - assert (w32 (2 ^ Z.of_nat j) = 2 ^ Z.of_nat j) as E.
    { apply Z.mod_small. split; [lia |]. apply Z.pow_lt_mono_r; lia. }
    rewrite E. destruct fuel as [| fuel]; [done |]. cbn [round_up].
    assert (2 ^ Z.of_nat j ≤ 2 ^ 31) by (apply Z.pow_le_mono_r; lia).
    destruct (Z.ltb_spec (2 ^ Z.of_nat j) nb); [| lia].
    rewrite <- (IH (S j) fuel ltac:(lia)). f_equal. f_equal.
    rewrite Z.shiftl_mul_pow2 by lia. rewrite Nat2Z.inj_succ, Z.pow_succ_r by lia. lia.
Qed.

(** ** dc_create *)

Definition root_node (r : Z) : node := Node r [] 0 true true.

Section create.
  Context `{HA : Memalign} `{!MemalignOk HA}.

Lemma rootname_wf stack :
  length (q_name stack) = DC_NAME_MAX → qstr_wf (rootname stack) ∧ qname (rootname stack) = [].
Proof.
  intros Hs. split; [apply dc_qstr_init_wf | unfold rootname; rewrite qname_init]; try done.
  all: apply not_elem_of_nil.
Qed.

(** The structures of a fresh cache: no chains, no children, nothing on the LRU. *)
Lemma hash_ok_create b r : 0 ≤ b →
  hash_ok (Z.ones b) r {[r]} {[r := root_node r]} {| ht_first := replicate (Z.to_nat (2 ^ b)) 0; ht_node := {[r := hnode0]} |}.
Proof.
  intros Hb. split; simpl.
  - apply dom_singleton_L.
  - rewrite length_replicate, Z.ones_equiv. f_equal. lia.
  - exists (λ _, []). split; [split; try done |].
    + intros i v [-> _]%lookup_replicate. done.
    + intros i j d Hd. by apply not_elem_of_nil in Hd.
    + intros i d Hd. by apply not_elem_of_nil in Hd.
    + intros i d. split; [by intros ?%not_elem_of_nil |]. intros (Hd & n & [? _]%lookup_singleton_Some & _). done.
Qed.

Lemma kids_ok_create r : kids_ok r {[r]} {[r := root_node r]} {[r := kid0]}.
Proof.
  split; [apply dom_singleton_L |]. exists (λ _, []). split; [split; try done |].
  - intros p k [-> <-]%lookup_singleton_Some. done.
  - intros p q d Hd. by apply not_elem_of_nil in Hd.
  - intros p d. split; [by intros ?%not_elem_of_nil |]. intros (Hd & n & [? _]%lookup_singleton_Some & _). done.
Qed.

Lemma lru_inv_create r :
  lru_inv r {[r]} {[r := root_node r]} {| ls_one := replicate DC_LRU_NODES lone0; ls_node := {[r := lnode0]} |}.
Proof.
  assert (words {| ls_one := replicate DC_LRU_NODES lone0; ls_node := {[r := lnode0]} |} = {[r := DC_SEQ_LRU_OFF]}) as Ew.
  { unfold words. simpl. apply map_fmap_singleton. }
  split.
  - exists (λ _, []). split; [split; cbn [ls_one ls_node]; try done |].
    + intros i o [-> _]%lookup_replicate. split_and!; done.
    + intros i j d Hd. by apply not_elem_of_nil in Hd.
    + intros i d. rewrite Ew. split; [by intros ?%not_elem_of_nil |].
      intros [[_ E]%lookup_singleton_Some _]. unfold DC_SEQ_LRU_OFF, DC_SEQ_LRU_ON in E. lia.
  - done.
  - rewrite Ew. apply dom_singleton_L.
  - apply empty_subseteq.
  - intros d w. rewrite Ew. intros [<- <-]%lookup_singleton_Some. unfold word_ok.
    rewrite lookup_singleton_eq, decide_False by apply not_elem_of_empty. by left.
Qed.

Lemma tree_create r : tree r {[r := root_node r]} ∧ typed r {[r := root_node r]}.
Proof.
  split; [split |].
  - exists (root_node r). by rewrite lookup_singleton_eq.
  - intros p nm d1 d2 (H & n & [? _]%lookup_singleton_Some & _). done.
  - intros d [n [<- _]%lookup_singleton_Some]. exists [r]. constructor.
  - intros d n pn Hd [? _]%lookup_singleton_Some. done.
Qed.

Lemma dc_create_inv node stack nb r :
  0 ≤ nb ≤ 2 ^ 31 → length (q_name stack) = DC_NAME_MAX → posix_memalign ∅ = Some r →
  ∃ w b, dc_create true true node stack nb = Ok (Some w) ∧ inv 0 w ∧
    ns w = {[r := root_node r]} ∧ w_root w = r ∧ w_mask w + 1 = 2 ^ b ∧
    nb ≤ 2 ^ b ∧ (b = 0 ∨ 2 ^ (b - 1) < nb).
Proof.
  intros Hnb Hst Hr. destruct (round_up_pow2 nb Hnb) as (b & Hb & E & Hle & Hmin).
  destruct (rootname_wf stack Hst) as [Hq Hqn].
  pose proof (memalign_aligned _ _ Hr) as Hal. pose proof (memalign_range _ _ Hr) as Hrng.
  unfold dc_create. cbn [negb]. rewrite E. unfold dentry_alloc, st_bind, st_get, st_mod, st_ret.
  change (dom (w_core (dcache0 node (2 ^ b)))) with (dom (∅ : gmap Z core)).
  rewrite dom_empty_L, Hr. unfold core_store, alloc_core, set_root. wsimpl.
  unfold dcache0. wsimpl. rewrite lookup_insert_eq, insert_insert_eq.
  set (c := set_d_parent r _). eexists _, b. split_and!; [done | | | done | simpl; lia | done | done].
  all: destruct (core_retag (Core (rootname stack) 0 0 true) r 0) as (Hc & Hv & Hu);
    [by split | done | lia |].
  all: assert (c = set_d_parent (r + 0) (Core (rootname stack) 0 0 true)) as Ec
    by (unfold c, set_d_parent; simpl; f_equal; lia).
  all: rewrite <- Ec in Hc, Hv, Hu; simpl in Hv, Hu; rewrite Hqn in Hv.
  all: assert (ns_of (<[r := c]> ∅) = {[r := root_node r]}) as Hns
    by (rewrite ns_insert, Hu, Hv; done).
  2: done.
  split; wsimpl; [split; unfold ns; wsimpl; rewrite ?Hns, ?dom_insert_L, ?dom_empty_L, ?union_empty_r_L | ..].
  - exists b. split; [done |]. rewrite Z.ones_equiv. lia.
  - intros d dc [<- <-]%lookup_singleton_Some. split_and!; [done | done | lia].
  - split; [by rewrite dom_insert_L, dom_empty_L, union_empty_r_L |].
    intros d s [<- <-]%lookup_singleton_Some. done.
  - replace (2 ^ b - 1) with (Z.ones b) by (rewrite Z.ones_equiv; lia).
    apply hash_ok_create. lia.
  - apply kids_ok_create.
  - apply lru_inv_create.
  - split; [apply NoDup_nil_2 |]. intros d. rewrite elem_of_singleton, lookup_singleton_None.
    split; [by intros ?%not_elem_of_nil | by intros [-> ?]].
  - apply tree_create.
  - apply tree_create.
  - rewrite dom_insert_L, dom_empty_L, union_empty_r_L. unfold locks_free.
    by rewrite gset_to_gmap_singleton.
  - unfold bits_free, bits. simpl. rewrite fmap_replicate. do 2 f_equal. lia.
  - apply sl_quiet_init.
  - done.
  - done.
Qed.

End create.

(** ** Grace periods *)

(** Freeing a dentry that is out of the name space, and was the next in the
    queue. *)
Lemma wp_free_one k w d q (Q : unit → world → Prop) :
  inv k (set_rcu (d :: q) w) →
  (∀ w', inv k (set_rcu q w') → ns w' = ns w → w_root w' = w_root w → w_rcu w' = w_rcu w →
     dom (w_core w') = dom (w_core w) ∖ {[d]} → Q tt w') →
  wp (dentry_free d) Q w.
Proof.
  intros Hi HQ. pose proof (inv_rcu _ Hi) as [Hnd Hmem]. wsimpl in *.
  change (ns (set_rcu (d :: q) w)) with (ns w) in *.
  apply NoDup_cons in Hnd as [Hdq Hnd].
  destruct (proj1 (Hmem d)) as [HD Hnone]; [by left |].
  assert (is_Some (w_core w !! d)) as [c Hc] by (by apply elem_of_dom).
  unfold wp, dentry_free. rewrite Hc.
  assert (ns_of (delete d (w_core w)) = ns w) as Hns.
  { rewrite ns_delete. apply delete_id. exact Hnone. }
  assert (kids (w_root w) (ns w) d = []) as Hk.
  { apply kids_nil. intros x n Hx Hn E. destruct (tree_parent _ _ _ _ (inv_tree _ Hi) Hn) as [pn Hpn].
    change (ns (set_rcu (d :: q) w)) with (ns w) in Hpn. congruence. }
  apply HQ; wsimpl; [| done | done | done | apply dom_delete_L].
  destruct Hi as [[] ? ? ? ? ?]; wsimpl in *.
  split; wsimpl; [split; unfold ns; wsimpl; rewrite ?Hns, ?dom_delete_L | ..]; try done.
  - intros x xc [_ ?]%lookup_delete_Some. by eapply inv_core.
  - destruct inv_seq as [E H]. split; [by rewrite dom_delete_L, E |].
    intros x s [_ ?]%lookup_delete_Some. eauto.
  - by apply hash_ok_free.
  - by apply kids_ok_free.
  - apply lru_inv_free; [done | done | done | apply not_elem_of_empty].
  - split; [done |]. intros x. destruct (decide (x = d)) as [-> |].
    + split; [done |]. intros [[_ H]%elem_of_difference _]. by destruct H; apply elem_of_singleton.
    + rewrite elem_of_difference, elem_of_singleton. specialize (Hmem x).
      rewrite elem_of_cons in Hmem. naive_solver.
  - rewrite dom_delete_L. by apply locks_free_delete.
Qed.

Lemma wp_free_queue k q : ∀ w,
  inv k (set_rcu q w) → w_rcu w = [] →
  wp (st_iter dentry_free_cb q) (λ _ w',
    inv k w' ∧ ns w' = ns w ∧ w_root w' = w_root w ∧ w_rcu w' = [] ∧
    dom (w_core w') = dom (ns w')) w.
Proof.
  induction q as [| d q IH]; intros w Hi Hq; cbn [st_iter].
  - wp_step. assert (set_rcu [] w = w) as E by (rewrite <- Hq; by destruct w). rewrite E in Hi.
    split_and!; try done. pose proof (inv_rcu w Hi) as [_ Hm]. apply set_eq. intros x.
    rewrite Hq in Hm. rewrite (elem_of_dom (ns w)). split; [| apply ns_dom].
    intros Hx. destruct (ns w !! x) eqn:En; [by eexists |]. exfalso.
    by apply (not_elem_of_nil x), Hm.
  - wp_step. eapply wp_free_one; [exact Hi |]. intros w1 Hi1 E1 E2 E3 _.
    wp_use IH; [done | congruence |]. intros _ w' (? & ? & ? & ? & ?). split_and!; congruence.
Qed.

(** A grace period frees exactly the dentries no longer in the name space. *)
Lemma wp_rcu_barrier w :
  inv 0 w →
  wp rcu_barrier (λ _ w', inv 0 w' ∧ ns w' = ns w ∧ w_root w' = w_root w ∧ w_rcu w' = [] ∧
    dom (w_core w') = dom (ns w')) w.
Proof.
  intros Hi. unfold rcu_barrier. wp_step. wp_step. rewrite (inv_nest 0 w Hi). simpl.
  wp_step. wp_step. wp_use (wp_free_queue 0 (w_rcu w)); [by destruct w | done | done].
Qed.

(** ** dc_destroy *)

(** Everything from [d] down. *)
Definition subtree (r : Z) (N : nspace) (d : Z) : gset Z :=
  filter (λ x, subdir r N x d = true) (dom N).

Section subtree.
  Context (r : Z) (N : nspace) (Ht : tree r N).

Lemma elem_of_subtree x d : x ∈ subtree r N d ↔ ∃ l, upto r N x l ∧ d ∈ l ∧ is_Some (N !! x).
Proof.
  unfold subtree. rewrite elem_of_filter, elem_of_dom. split.
  - intros [Hs Hx]. destruct (t_up r N Ht x Hx) as [l Hl]. exists l.
    rewrite (subdir_spec r N x d l Ht Hl) in Hs. by apply bool_decide_eq_true in Hs.
  - intros (l & Hl & Hd & Hx). split; [| done]. rewrite (subdir_spec r N x d l Ht Hl).
    by apply bool_decide_eq_true.
Qed.

Lemma subtree_self d : is_Some (N !! d) → d ∈ subtree r N d.
Proof.
  intros Hd. destruct (t_up r N Ht d Hd) as [l Hl]. apply elem_of_subtree. exists l.
  destruct (upto_head _ _ _ _ Hl) as [l' ->]. split_and!; [done | by left | done].
Qed.

Lemma subtree_kid c d n : c ≠ r → N !! c = Some n → n_parent n = d → subtree r N c ⊆ subtree r N d.
Proof.
  intros Hc Hn Hp x (l & Hl & Hin & Hx)%elem_of_subtree. apply elem_of_subtree. exists l.
  split_and!; [done | | done]. destruct (upto_suffix _ _ _ _ _ Hl Hin) as (l' & Hl' & Hsuf).
  inversion Hl'; subst; [done |]. simplify_eq.
  destruct (upto_head _ _ _ _ ltac:(eassumption)) as [l'' ->].
  destruct Hsuf as [l0 ->]. apply elem_of_app. right. right. left.
Qed.

(** A node below [d] is [d] or below one of its children. *)
Lemma subtree_unfold x d :
  x ∈ subtree r N d → x = d ∨ ∃ c, c ∈ kids r N d ∧ x ∈ subtree r N c.
Proof.
  intros (l & Hl & Hd & Hx)%elem_of_subtree.
  induction Hl as [| x n l Hn Hxr Hl IH]; [left; by apply list_elem_of_singleton in Hd |].
  apply elem_of_cons in Hd as [-> | Hd]; [by left |]. right.
  destruct (decide (n_parent n = d)) as [E | E].
  - exists x. split; [apply elem_of_kids; eauto |]. by apply subtree_self.
  - destruct IH as [| (c & Hc & Hin)]; [done | by eapply tree_parent | done |].
    exists c. split; [done |]. apply elem_of_subtree in Hin as (l' & Hl' & Hcl & _).
    apply elem_of_subtree. exists (x :: l'). split_and!; [by econstructor | by right | done].
Qed.

(** Siblings have disjoint subtrees, and the parent is in none of them. *)
Lemma subtree_disjoint d c1 c2 :
  c1 ∈ kids r N d → c2 ∈ kids r N d → c1 ≠ c2 → subtree r N c1 ## subtree r N c2.
Proof.
  intros (H1 & n1 & Hn1 & Hp1)%elem_of_kids (H2 & n2 & Hn2 & Hp2)%elem_of_kids Hne x
    (l & Hl & Hc1 & _)%elem_of_subtree (l' & Hl' & Hc2 & _)%elem_of_subtree.
  rewrite (upto_det _ _ _ _ _ Hl' Hl) in Hc2.
  destruct (upto_suffix _ _ _ _ _ Hl Hc1) as (l1 & Hl1 & [a1 E1]).
  destruct (upto_suffix _ _ _ _ _ Hl Hc2) as (l2 & Hl2 & [a2 E2]).
  destruct Hl1 as [| c1 m1 l1 Hm1 _ Hl1]; [done |]. destruct Hl2 as [| c2 m2 l2 Hm2 _ Hl2]; [done |].
  rewrite Hn1 in Hm1. rewrite Hn2 in Hm2. injection Hm1 as <-. injection Hm2 as <-.
  rewrite Hp1 in Hl1. rewrite Hp2 in Hl2. rewrite (upto_det _ _ _ _ _ Hl1 Hl2) in E1.
  rewrite E1 in E2. apply app_inj_2 in E2 as [_ E]; [| done]. by injection E.
Qed.

Lemma subtree_parent d c : c ∈ kids r N d → d ∉ subtree r N c.
Proof.
  intros (Hc & n & Hn & Hp)%elem_of_kids (l & Hl & Hin & _)%elem_of_subtree.
  rewrite <- Hp in Hl. by eapply upto_parent_avoid.
Qed.

End subtree.

(** A map without the cells of the dentries in [F]. *)
Definition without {V} (F : gset Z) (m : gmap Z V) : gmap Z V := filter (λ x, x.1 ∉ F) m.

Lemma without_lookup {V} F (m : gmap Z V) d : d ∉ F → without F m !! d = m !! d.
Proof.
  intros Hd. unfold without. destruct (m !! d) as [v |] eqn:E.
  - by apply map_lookup_filter_Some.
  - apply map_lookup_filter_None. by left.
Qed.

Lemma without_delete {V} F (m : gmap Z V) d : delete d (without F m) = without (F ∪ {[d]}) m.
Proof.
  apply map_eq. intros x. apply option_eq. intros v. unfold without.
  rewrite lookup_delete_Some, !map_lookup_filter_Some. simpl. rewrite elem_of_union, elem_of_singleton.
  naive_solver.
Qed.

Lemma without_empty {V} (m : gmap Z V) : without ∅ m = m.
Proof.
  apply map_eq. intros x. apply option_eq. intros v. unfold without. rewrite map_lookup_filter_Some.
  set_solver.
Qed.

Lemma without_without {V} (F G : gset Z) (m : gmap Z V) : without G (without F m) = without (F ∪ G) m.
Proof.
  apply map_eq. intros x. apply option_eq. intros v. unfold without. rewrite !map_lookup_filter_Some. simpl.
  rewrite not_elem_of_union. tauto.
Qed.

(** The world after the dentries in [F] were freed. *)
Definition freed (F : gset Z) (w : world) : world :=
  set_core (without F (w_core w)) (set_seq (without F (w_seq w)) (set_lock (without F (w_lock w))
  (set_hash {| ht_first := ht_first (w_hash w); ht_node := without F (ht_node (w_hash w)) |}
  (set_kids (without F (w_kids w))
  (set_lru {| ls_one := ls_one (w_lru w); ls_node := without F (ls_node (w_lru w)) |} w))))).

Lemma freed_empty w : freed ∅ w = w.
Proof. unfold freed. rewrite !without_empty. by destruct w as [???? ? ? [] ? [] ?????]. Qed.

Lemma wp_dentry_free F w d (Q : unit → world → Prop) :
  is_Some (w_core w !! d) → d ∉ F → Q tt (freed (F ∪ {[d]}) w) → wp (dentry_free d) Q (freed F w).
Proof.
  intros [c Hc] Hd HQ. unfold wp, dentry_free. unfold freed at 1. wsimpl.
  rewrite without_lookup, Hc by done. unfold freed in *. wsimpl.
  cbn [ht_first ht_node ls_one ls_node]. rewrite !without_delete. exact HQ.
Qed.

Lemma wp_kid_freed F w d k (Q : dc_kid → world → Prop) :
  w_kids w !! d = Some k → d ∉ F → Q k (freed F w) → wp (kid_at d) Q (freed F w).
Proof. intros Hk Hd HQ. eapply wp_kid_at; [| done]. unfold freed. wsimpl. by rewrite without_lookup. Qed.

Lemma size_without {V} F (m : gmap Z V) : ∀ l, NoDup l → (∀ d, d ∈ l → is_Some (m !! d) ∧ d ∉ F) →
  (length l ≤ size (without F m))%nat.
Proof.
  intros l Hl Hm. rewrite <- size_dom, <- (size_list_to_set (C := gset Z) l) by done.
  apply subseteq_size. intros d Hd%elem_of_list_to_set. destruct (Hm d Hd) as [[v Hv] ?].
  apply elem_of_dom. exists v. by apply map_lookup_filter_Some.
Qed.

Section destroy.
  Context (w : world) (Hco : coherent w).
Let r := w_root w.
Let N := ns w.

(** The subtrees of a list of siblings. *)
Fixpoint subtrees (l : list Z) : gset Z :=
  match l with [] => ∅ | c :: l' => subtree r N c ∪ subtrees l' end.

Lemma elem_of_subtrees x l : x ∈ subtrees l ↔ ∃ c, c ∈ l ∧ x ∈ subtree r N c.
Proof.
  induction l as [| c l IH]; simpl.
  - split; [set_solver |]. by intros (? & ?%not_elem_of_nil & _).
  - rewrite elem_of_union, IH. setoid_rewrite elem_of_cons. naive_solver.
Qed.

Lemma wp_free_loop (free : Z → M unit) d l : ∀ fuel F sl c,
  hseg (w_kids w) sl c l → NoDup l → (∀ x, x ∈ l → x ∈ kids r N d) →
  F ## subtrees l → (length l < fuel)%nat →
  (∀ F x, x ∈ l → F ## subtree r N x →
     wp (free x) (λ _ w', w' = freed (F ∪ subtree r N x) w) (freed F w)) →
  wp (free_loop free fuel c) (λ _ w', w' = freed (F ∪ subtrees l) w) (freed F w).
Proof.
  induction l as [| x l IH]; intros fuel F sl c Hs Hnd Hk HF Hf Hfree;
    (destruct fuel as [| fuel]; [simpl in Hf; lia |]); cbn [free_loop subtrees] in *.
  - simpl in Hs. subst c. simpl. wp_step. by rewrite union_empty_r_L.
  - simpl in Hs. destruct Hs as (-> & Hx0 & k & Hkx & _ & Hs). apply NoDup_cons in Hnd as [Hxl Hnd].
    destruct (Z.eqb_spec x 0) as [| _]; [done |].
    assert (x ∈ kids r N d) as (Hxr & n & Hn & Hp)%elem_of_kids by (apply Hk; by left).
    assert (x ∈ subtree r N x) as Hself by (apply subtree_self; [apply Hco | by eexists]).
    wp_step. eapply wp_kid_freed; [done | |].
    { intros HxF. apply (HF x HxF). by apply elem_of_union_l. }
    wp_step. eapply wp_mono; [apply Hfree; [by left |] |].
    { intros y Hy Hy'. apply (HF y Hy). by apply elem_of_union_l. }
    cbn beta. intros _ w' ->. eapply wp_mono; [eapply IH |].
    + exact Hs.
    + done.
    + intros y Hy. apply Hk. by right.
    + intros y [Hy | Hy]%elem_of_union Hy'.
      * apply (HF y Hy). by apply elem_of_union_r.
      * apply elem_of_subtrees in Hy' as (c' & Hc' & Hin).
        eapply (subtree_disjoint r N (inv_tree w Hco) d x c'); [apply Hk; by left | apply Hk; by right | | exact Hy | exact Hin].
        by intros ->.
    + simpl in Hf. lia.
    + intros F' y Hy. apply Hfree. by right.
    + cbn beta. intros _ w' ->. f_equal. by rewrite (assoc_L (∪)).
Qed.

Lemma wp_free_subtree fuel : ∀ d F l,
  is_Some (N !! d) → upto r N d l → (size N < fuel + length l)%nat → F ## subtree r N d →
  wp (free_subtree fuel d) (λ _ w', w' = freed (F ∪ subtree r N d) w) (freed F w).
Proof.
  induction fuel as [| fuel IH]; intros d F l Hd Hl Hf HF.
  { destruct (t_root _ _ (inv_tree w Hco)) as (rn & Hrn & _).
    pose proof (upto_length r N d l ltac:(by eexists) Hl). simpl in Hf. lia. }
  cbn [free_subtree].
  assert (d ∈ dom (w_core w)) as HD by (by apply ns_dom).
  assert (d ∈ subtree r N d) as Hself by (apply subtree_self; [apply Hco | done]).
  assert (d ∉ F) as HdF by (intros H; by apply (HF d)).
  destruct (kids_list _ _ _ _ d (inv_kids w Hco) HD) as (k & ls & Hk & Hs & Hnd & _ & Hmem).
  assert (∀ x, x ∈ ls ↔ x ∈ kids r N d) as Hls by (intros x; by rewrite Hmem, elem_of_kids).
  assert (subtree r N d = subtrees ls ∪ {[d]}) as Hsub.
  { apply set_eq. intros x. rewrite elem_of_union, elem_of_singleton, elem_of_subtrees. split.
    - intros [-> | (c & Hc & Hin)]%subtree_unfold; [by right | | apply Hco]. left. exists c. by rewrite Hls.
    - intros [(c & (Hcr & n & Hn & Hp)%Hmem & Hin) | ->]; [| done].
      by eapply (subtree_kid r N (inv_tree w Hco) c d n). }
  wp_step. eapply wp_kid_freed; [done | done |]. wp_step. wp_step. wp_step.
  eapply wp_mono; [apply (wp_free_loop (free_subtree fuel) d ls) with (sl := SSlotChildren d) |].
  - done.
  - done.
  - intros x. by rewrite Hls.
  - rewrite Hsub in HF. intros x Hx Hx'. apply (HF x Hx). by apply elem_of_union_l.
  - unfold sib_fuel, freed. wsimpl. apply le_n_S. apply size_without; [done |].
    intros x Hx. split.
    + pose proof (proj1 (Hmem x) Hx) as (_ & n & Hn & _). apply elem_of_dom.
      rewrite (ko_dom _ _ _ _ (inv_kids w Hco)). apply ns_dom. by eexists.
    + intros HxF. apply (HF x HxF). rewrite Hsub. apply elem_of_union_l, elem_of_subtrees.
      exists x. split; [done |]. apply Hmem in Hx as (_ & n & Hn & _). apply subtree_self; [apply Hco | by eexists].
  - intros F' x Hx HF'. pose proof Hx as (Hxr & n & Hn & Hp)%Hmem.
    eapply (IH x F' (x :: l)); [by eexists | | simpl; lia | done].
    econstructor; [done | done |]. by rewrite Hp.
  - cbn beta. intros _ w' ->. apply wp_dentry_free.
    + by apply elem_of_dom.
    + intros [? | (c & Hc & Hin)%elem_of_subtrees]%elem_of_union; [done |].
      apply Hls in Hc. by apply (subtree_parent r N (inv_tree w Hco) d c Hc).
    + by rewrite Hsub, (assoc_L (∪)).
Qed.

End destroy.

(** [dc_destroy] ends, and nothing is left allocated. *)
Lemma wp_dc_destroy w :
  inv 0 w →
  wp dc_destroy (λ _ w', w_core w' = ∅ ∧ w_kids w' = ∅ ∧ ht_node (w_hash w') = ∅ ∧
    ls_node (w_lru w') = ∅ ∧ w_seq w' = ∅ ∧ w_lock w' = ∅ ∧ w_rcu w' = []) w.
Proof.
  intros Hi. unfold dc_destroy. wp_step. wp_use wp_rcu_barrier; [done |].
  intros _ w1 (Hi1 & _ & _ & Hq & Hdom). wp_step. wp_step. wp_step. wp_step.
  destruct (inv_root w1 Hi1) as [Hr _]. rewrite <- (freed_empty w1).
  eapply wp_mono; [apply (wp_free_subtree w1 Hi1 _ (w_root w1) ∅ [w_root w1]) |].
  - done.
  - constructor.
  - rewrite freed_empty. rewrite <- !size_dom, Hdom. simpl. lia.
  - apply disjoint_empty_l.
  - cbn beta. intros _ w2 ->.
    assert (∀ d, d ∈ dom (w_core w1) → d ∈ ∅ ∪ subtree (w_root w1) (ns w1) (w_root w1)) as Hall.
    { intros d Hd. rewrite Hdom in Hd. apply elem_of_dom in Hd. apply elem_of_union_r.
      destruct (t_up _ _ (inv_tree w1 Hi1) d Hd) as [l Hl]. apply elem_of_subtree; [apply Hi1 |].
      exists l. split_and!; [done | | done]. clear -Hl. induction Hl; [by left | by right]. }
    assert (∀ V (m : gmap Z V), dom m = dom (w_core w1) →
      without (∅ ∪ subtree (w_root w1) (ns w1) (w_root w1)) m = ∅) as Hgone.
    { intros V m Hm. apply map_empty. intros d. apply map_lookup_filter_None. right. intros v Hv Hn.
      apply Hn, Hall. rewrite <- Hm. apply elem_of_dom. by eexists. }
    unfold freed. wsimpl. cbn [ht_node ls_node].
    split_and!; [.. | done]; apply Hgone.
    + done.
    + apply (inv_kids w1 Hi1).
    + apply (inv_hash w1 Hi1).
    + pose proof (lo_dom _ _ _ _ (inv_lru w1 Hi1)) as E. unfold words in E. by rewrite dom_fmap_L in E.
    + apply (inv_seq w1 Hi1).
    + rewrite (inv_lock 0 w1 Hi1). apply dom_gset_to_gmap.
Qed.
