(* ===== verification/Moves.v ===== *)
(** What the specification's moves mean for paths: a rename carries the whole
    subtree of its source to the new name and leaves every other path alone; an
    exchange swaps two subtrees. *)

From S2P Require Import Prelude World Namespace TreeOps Paths.

Section moves.
  Context (r : Z) (N N' : nspace) (Ht : tree r N) (Ht' : tree r N').

Lemma child_place p nm d :
  is_child r N p nm d → place <$> N' !! d = place <$> N !! d → child r N' p nm = Some d.
Proof. intros Hc E. apply child_Some; [done |]. by apply (is_child_place r N N'). Qed.

(** A way up whose members keep their places leads down to the same dentry. *)
Lemma nwalk_frame d l :
  upto r N d l → (∀ x, x ∈ l → x ≠ r → place <$> N' !! x = place <$> N !! x) →
  nwalk r N' r (npath r N d) = Some d.
Proof.
  induction 1 as [| d n l Hn Hd Hl IH]; intros Hp.
  { by rewrite npath_root. }
  rewrite (npath_step r N Ht d n Hn Hd), nwalk_snoc, IH; simpl.
  - apply child_place; [| apply Hp; [left | done]]. split; [done |]. eauto.
  - intros x Hx. apply Hp. by right.
Qed.

(** [X]: the dentries that moved, none of which is below [v] before or after. *)
Definition outside (X : gset Z) (v : Z) : Prop :=
  ∀ x n, x ∈ X → N !! x = Some n ∨ N' !! x = Some n → ∀ l, upto r N (n_parent n) l → v ∉ l.

Lemma child_below (X : gset Z) v y l nm :
  (∀ x, x ∉ X → place <$> N' !! x = place <$> N !! x) → outside X v →
  upto r N y l → v ∈ l → child r N' y nm = child r N y nm.
Proof.
  intros Hpl HX Hy Hv. apply option_eq. intros d. rewrite !child_Some by done.
  destruct (decide (d ∈ X)) as [Hd | Hd]; [| apply is_child_place; by apply Hpl].
  split; intros (Hdr & n & Hn & <- & _); exfalso; eapply (HX d n); eauto.
Qed.

Lemma nwalk_below (X : gset Z) v s : ∀ y l,
  (∀ x, x ∉ X → place <$> N' !! x = place <$> N !! x) → outside X v →
  upto r N y l → v ∈ l → nwalk r N' y s = nwalk r N y s.
Proof.
  induction s as [| nm s IH]; intros y l Hpl HX Hy Hv; [done |]. simpl.
  rewrite (child_below X v y l nm) by done.
  destruct (child r N y nm) as [d |] eqn:E; [| done]. simpl.
  apply child_Some_1 in E as (Hd & n & Hn & Hp & _).
  apply (IH d (d :: l)); [done | done | | by right]. econstructor; [done | done | by rewrite Hp].
Qed.

(** The dentry a walk below [v] ends at is below [v]. *)
Lemma nwalk_up s : ∀ y l d, upto r N y l → nwalk r N y s = Some d → ∃ l', upto r N d l' ∧ l `suffix_of` l'.
Proof.
  induction s as [| nm s IH]; intros y l d Hy; simpl.
  { intros [= <-]. by exists l. }
  destruct (child r N y nm) as [x |] eqn:E; simpl; [| done]. intros Hd.
  apply child_Some_1 in E as (Hx & n & Hn & Hp & _).
  destruct (IH x (x :: l) d) as (l' & Hl' & Hs); [econstructor; [done | done | by rewrite Hp] | done |].
  exists l'. split; [done |]. etrans; [| exact Hs]. by apply suffix_cons_r.
Qed.

End moves.

(** ** Rename *)

(** The facts a successful rename starts from. *)
Record rename_facts (r : Z) (from to : list (list Z)) (N N' : nspace) (v : Z) (vn : node) (tp : Z)
    (tnm : list Z) (dead : option Z) : Prop := {
  rf_from : nwalk r N r from = Some v;
  rf_node : N !! v = Some vn;
  rf_root : v ≠ r;
  rf_to : ∃ tdir, to = tdir ++ [tnm] ∧ nwalk r N r tdir = Some tp;
  rf_cycle : ∀ l, upto r N tp l → v ∉ l;
  rf_dead : match dead with
            | Some t => t ≠ v ∧ is_child r N tp tnm t ∧ (∃ tn, N !! t = Some tn ∧ n_pos tn = false) ∧
                        N' = <[v := moved vn tp tnm]> (delete t N)
            | None => child r N tp tnm = None ∧ N' = <[v := moved vn tp tnm]> N
            end;
}.

Lemma split_last_Some {A} (l i : list A) z : split_last l = Some (i, z) → l = i ++ [z].
Proof.
  revert i z. induction l as [| a l IH]; intros i z; simpl; [done |].
  destruct (split_last l) as [[i' z'] |] eqn:E; intros [= <- <-].
  - by rewrite (IH i' z').
  - destruct l; [done |]. simpl in E. by repeat case_match.
Qed.

Lemma spec_rename_facts r from to N N' :
  tree r N → spec_rename r from to N = (0, N') →
  ∃ v vn tp tnm dead, rename_facts r from to N N' v vn tp tnm dead.
Proof.
  intros Ht. unfold spec_rename. destruct from as [| f fs]; [done |].
  set (from := f :: fs). destruct (split_last to) as [[tdir tnm] |] eqn:Es; [| done].
  apply split_last_Some in Es. destruct (nwalk r N r from) as [v |] eqn:Ev; simpl; [| done].
  destruct (N !! v) as [vn |] eqn:Hv; simpl; [| done].
  destruct (nwalk r N r tdir) as [tp |] eqn:Etp; simpl; [| done].
  destruct (N !! tp) as [tpn |] eqn:Htp; simpl; [| done].
  destruct (negb (n_pos tpn)); [done |].
  assert (v ≠ r) as Hvr by (by eapply (nwalk_not_root r N from)).
  destruct (negb (n_parent vn =? tp) && subdir r N tp v) eqn:Ecyc; [done |].
  assert (∀ l, upto r N tp l → v ∉ l) as Hcyc.
  { intros l Hl. destruct (Z.eqb_spec (n_parent vn) tp) as [<- | _].
    - by eapply upto_parent_avoid.
    - simpl in Ecyc. rewrite (subdir_spec r N tp v l Ht Hl) in Ecyc. by apply bool_decide_eq_false in Ecyc. }
  destruct (child r N tp tnm) as [t |] eqn:Ec; simpl.
  - pose proof (child_Some_1 _ _ _ _ _ Ec) as Hc. destruct (N !! t) as [tn |] eqn:Htn; simpl.
    2:{ destruct Hc as (_ & n & Hn & _). congruence. }
    destruct ((t =? v) || n_pos tn) eqn:E; [done |]. apply orb_false_iff in E as [E%Z.eqb_neq Ep].
    intros [= <-]. exists v, vn, tp, tnm, (Some t). split; eauto 10.
  - intros [= <-]. exists v, vn, tp, tnm, None. split; eauto 10.
Qed.

Section rename.
  Context (r : Z) (from to : list (list Z)) (N N' : nspace) (v : Z) (vn : node) (tp : Z)
    (tnm : list Z) (dead : option Z).
  Context (Ht : tree r N) (Hty : typed r N) (Ht' : tree r N').
  Context (H : rename_facts r from to N N' v vn tp tnm dead).

(** The dentries whose place changed. *)
Definition touched : gset Z := {[v]} ∪ match dead with Some t => {[t]} | None => ∅ end.

Lemma elem_of_touched x : x ∈ touched ↔ x = v ∨ dead = Some x.
Proof.
  unfold touched. rewrite elem_of_union, elem_of_singleton. clear. destruct dead as [t |].
  - rewrite elem_of_singleton. naive_solver.
  - split; [intros [? | ?]; set_solver | intros [? | ?]; [by left | done]].
Qed.

Lemma rename_place x : x ∉ touched → N' !! x = N !! x.
Proof.
  unfold touched. intros Hx. destruct dead as [t |].
  - destruct (rf_dead _ _ _ _ _ _ _ _ _ _ H) as (_ & _ & _ & ->).
    rewrite lookup_insert_ne, lookup_delete_ne by set_solver. done.
  - destruct (rf_dead _ _ _ _ _ _ _ _ _ _ H) as (_ & ->). by rewrite lookup_insert_ne by set_solver.
Qed.

Lemma rename_v : N' !! v = Some (moved vn tp tnm).
Proof.
  destruct dead; [destruct (rf_dead _ _ _ _ _ _ _ _ _ _ H) as (_ & _ & _ & ->) |
    destruct (rf_dead _ _ _ _ _ _ _ _ _ _ H) as (_ & ->)]; apply lookup_insert_eq.
Qed.

Lemma rename_dead t : dead = Some t → N' !! t = None ∧ t ≠ v ∧ is_child r N tp tnm t ∧ kids r N t = [].
Proof.
  intros E. pose proof (rf_dead _ _ _ _ _ _ _ _ _ _ H) as Hd. rewrite E in Hd.
  destruct Hd as (Hne & Hc & (tn & Htn & Hp) & ->). split_and!; [| done | done |].
  - by rewrite lookup_insert_ne, lookup_delete_eq.
  - eapply typed_kids; [done | done | by right].
Qed.

(** A way up that avoids the source keeps its places: the dropped target has no
    children. *)
Lemma rename_up d l x :
  upto r N d l → v ∉ l → dead ≠ Some d → x ∈ l → x ≠ r → place <$> N' !! x = place <$> N !! x.
Proof.
  intros Hl Hv Hd Hx Hxr. rewrite (rename_place x); [done |]. intros [-> | E]%elem_of_touched; [done |].
  destruct (rename_dead x E) as (_ & _ & _ & Hk). rewrite E in Hd. rename x into t.
  rewrite kids_nil in Hk. clear -Hl Hx Hd Hk. induction Hl as [| y n l Hn Hy Hl IH].
  - apply list_elem_of_singleton in Hx as ->. done.
  - apply elem_of_cons in Hx as [-> | Hx]; [done |]. destruct (decide (n_parent n = t)) as [Ep | Ep].
    + by apply (Hk y n).
    + apply IH; [congruence | done].
Qed.

Lemma rename_outside : outside r N N' touched v.
Proof.
  intros x n Hx Hn l Hl. apply elem_of_touched in Hx as [-> | E].
  - destruct Hn as [Hn | Hn].
    + eapply upto_parent_avoid; [exact Hn | apply H | done].
    + rewrite rename_v in Hn. injection Hn as <-. by apply (rf_cycle _ _ _ _ _ _ _ _ _ _ H).
  - destruct (rename_dead x E) as (Hn' & _ & (_ & n' & Hn1 & Hp & _) & _).
    destruct Hn as [Hn | Hn]; [| congruence]. apply (rf_cycle _ _ _ _ _ _ _ _ _ _ H). congruence.
Qed.

Lemma rename_tp : ∃ tdir, to = tdir ++ [tnm] ∧ nwalk r N' r tdir = Some tp.
Proof.
  destruct (rf_to _ _ _ _ _ _ _ _ _ _ H) as (tdir & Eto & Hw). exists tdir. split; [done |].
  rewrite <- (npath_nwalk r N Ht tdir tp Hw).
  assert (is_Some (N !! tp)) as Htp by (eapply nwalk_dom; [| exact Hw]; by destruct (t_root r N Ht) as (? & -> & _)).
  destruct (t_up r N Ht tp Htp) as [l Hl]. eapply nwalk_frame; [done | done | exact Hl |].
  intros x. eapply rename_up; [exact Hl | by apply (rf_cycle _ _ _ _ _ _ _ _ _ _ H) |].
  intros E. destruct (rename_dead tp E) as (_ & _ & (Hr & n & Hn & Hp & _) & _).
  by eapply (parent_ne r N tp n).
Qed.

(** The subtree of the source answers at the new name. *)
Lemma rename_moves s : nwalk r N' r (to ++ s) = nwalk r N r (from ++ s).
Proof.
  destruct rename_tp as (tdir & Eto & Htp).
  rewrite Eto, !nwalk_app. simpl. rewrite Htp, (rf_from _ _ _ _ _ _ _ _ _ _ H). simpl.
  assert (child r N' tp tnm = Some v) as ->.
  { apply child_Some; [done |]. split; [apply H |]. exists (moved vn tp tnm). split; [apply rename_v | done]. }
  simpl. destruct (t_up r N Ht v) as [l Hl]; [eexists; apply H |].
  eapply (nwalk_below r N N' Ht Ht' touched v); [| apply rename_outside | exact Hl |].
  - intros x Hx. by rewrite rename_place.
  - destruct (upto_head _ _ _ _ Hl) as [? ->]. left.
Qed.

(** Nothing is left at the old name. *)
Lemma rename_vacates : nwalk r N' r from = None.
Proof.
  pose proof (rf_from _ _ _ _ _ _ _ _ _ _ H) as Hf. pose proof (npath_nwalk r N Ht from v Hf) as Ep.
  rewrite (npath_step r N Ht v vn) in Ep by apply H.
  destruct (tree_parent r N v vn Ht (rf_node _ _ _ _ _ _ _ _ _ _ H)) as [fn Hfn].
  destruct (t_up r N Ht (n_parent vn)) as [l Hl]; [by eexists |].
  assert (v ∉ l) as Hv by (eapply upto_parent_avoid; [apply H | apply H | done]).
  assert (∀ m, is_child r N' (n_parent vn) (n_name vn) m → False) as Hno.
  { intros m Hm. assert (m = v) as ->.
    - destruct (decide (m ∈ touched)) as [Hx | Hx].
      + apply elem_of_touched in Hx as [Hx | E]; [done |].
        destruct (rename_dead m E) as (Hnt & _). destruct Hm as (_ & n & Hn & _). congruence.
      + apply (is_child_place r N N') in Hm; [| by rewrite rename_place].
        eapply (t_unique r N Ht); [exact Hm |]. split; [apply H |]. exists vn. split; [apply H | done].
    - destruct Hm as (_ & n & Hn & Hp & Hnm). rewrite rename_v in Hn. injection Hn as <-. simpl in *.
      subst tp tnm. pose proof (rf_dead _ _ _ _ _ _ _ _ _ _ H) as Hd.
      assert (is_child r N (n_parent vn) (n_name vn) v) as Hcv.
      { split; [apply H |]. exists vn. split; [apply H | done]. }
      destruct dead as [t |].
      + destruct Hd as (Hne & Hc & _). apply Hne. by eapply (t_unique r N Ht).
      + destruct Hd as [Hc _]. by eapply child_None_1. }
  rewrite <- Ep, nwalk_snoc.
  destruct (nwalk r N' r (npath r N (n_parent vn))) as [p |] eqn:Ew; [| done]. simpl.
  assert (dead = Some (n_parent vn) ∨ p = n_parent vn) as [E | ->].
  { destruct (decide (dead = Some (n_parent vn))) as [? | Hd]; [by left | right].
    rewrite (nwalk_frame r N N' Ht Ht' (n_parent vn) l Hl) in Ew; [congruence |].
    intros x. by eapply rename_up. }
  - destruct (rename_dead _ E) as (_ & _ & _ & Hk). rewrite kids_nil in Hk. exfalso.
    by apply (Hk v vn (rf_root _ _ _ _ _ _ _ _ _ _ H) (rf_node _ _ _ _ _ _ _ _ _ _ H)).
  - by apply child_None.
Qed.

(** Every other path is as before. *)
Lemma rename_keeps names d l :
  nwalk r N r names = Some d → upto r N d l → v ∉ l → dead ≠ Some d →
  nwalk r N' r names = Some d ∧ N' !! d = N !! d.
Proof.
  intros Hw Hl Hv Hd. split.
  - rewrite <- (npath_nwalk r N Ht names d Hw). eapply nwalk_frame; [done | done | exact Hl |].
    intros x. by eapply rename_up.
  - apply rename_place. destruct (upto_head _ _ _ _ Hl) as [l' ->].
    intros [-> | E]%elem_of_touched; [apply Hv; left | done].
Qed.

End rename.

(** ** Exchange *)

(** [da] goes where [db] was, [db] where [da] was. *)
Record swapped (r : Z) (N N' : nspace) (da db : Z) (an bn : node) : Prop := {
  sw_a : N !! da = Some an;
  sw_b : N !! db = Some bn;
  sw_ne : da ≠ db;
  sw_ra : da ≠ r;
  sw_rb : db ≠ r;
  sw_ab : ∀ l, upto r N (n_parent bn) l → da ∉ l;
  sw_ba : ∀ l, upto r N (n_parent an) l → db ∉ l;
  sw_ns : N' = <[da := moved an (n_parent bn) (n_name bn)]> (<[db := moved bn (n_parent an) (n_name an)]> N);
}.

Lemma spec_exchange_facts r a b N N' :
  tree r N → spec_exchange r a b N = (0, N') →
  ∃ da db, nwalk r N r a = Some da ∧ nwalk r N r b = Some db ∧
    (da = db ∧ N' = N ∨ ∃ an bn, swapped r N N' da db an bn).
Proof.
  intros Ht. unfold spec_exchange. destruct a as [| a0 a']; [done |]. destruct b as [| b0 b']; [done |].
  destruct (nwalk r N r (a0 :: a')) as [da |] eqn:Ea; cbn [mbind option_bind]; [| done].
  destruct (N !! da) as [an |] eqn:Ha; cbn [mbind option_bind]; [| done].
  destruct (nwalk r N r (b0 :: b')) as [db |] eqn:Eb; cbn [mbind option_bind]; [| done].
  destruct (N !! db) as [bn |] eqn:Hb; simpl; [| done].
  destruct (Z.eqb_spec da db) as [<- | Hne]; [intros [= <-]; exists da, da; split_and!; [done | done | by left] |].
  assert (da ≠ r) as Har by (by eapply (nwalk_not_root r N (a0 :: a'))).
  assert (db ≠ r) as Hbr by (by eapply (nwalk_not_root r N (b0 :: b'))).
  case_match eqn:E; [done |]. intros [= <-]. exists da, db. split_and!; [done | done |]. right.
  exists an, bn. split; try done; intros l Hl; destruct (Z.eqb_spec (n_parent an) (n_parent bn)) as [Ep | _].
  - rewrite <- Ep in Hl. by eapply upto_parent_avoid.
  - simpl in E. apply orb_false_iff in E as [E _]. rewrite (subdir_spec r N _ _ l Ht Hl) in E.
    by apply bool_decide_eq_false in E.
  - rewrite Ep in Hl. by eapply upto_parent_avoid.
  - simpl in E. apply orb_false_iff in E as [_ E]. rewrite (subdir_spec r N _ _ l Ht Hl) in E.
    by apply bool_decide_eq_false in E.
Qed.

Lemma swapped_sym r N N' da db an bn : swapped r N N' da db an bn → swapped r N N' db da bn an.
Proof. intros [? ? ? ? ? ? ? ->]. split; try done. by apply insert_insert_ne. Qed.

Section exchange.
  Context (r : Z) (N N' : nspace) (da db : Z) (an bn : node).
  Context (Ht : tree r N) (Ht' : tree r N') (H : swapped r N N' da db an bn).

Lemma exchange_a : N' !! da = Some (moved an (n_parent bn) (n_name bn)).
Proof. rewrite (sw_ns _ _ _ _ _ _ _ H). apply lookup_insert_eq. Qed.

Lemma exchange_place x : x ∉ ({[da; db]} : gset Z) → N' !! x = N !! x.
Proof. intros Hx. rewrite (sw_ns _ _ _ _ _ _ _ H), !lookup_insert_ne by set_solver. done. Qed.

Lemma exchange_outside : outside r N N' {[da; db]} da.
Proof.
  assert (N' !! db = Some (moved bn (n_parent an) (n_name an))) as Hb'.
  { rewrite (sw_ns _ _ _ _ _ _ _ H), lookup_insert_ne by apply H. apply lookup_insert_eq. }
  assert (∀ l, upto r N (n_parent an) l → da ∉ l) as Ha.
  { intros l. eapply upto_parent_avoid; apply H. }
  intros x n Hx Hn l. apply elem_of_union in Hx as [->%elem_of_singleton | ->%elem_of_singleton].
  - destruct Hn as [Hn | Hn].
    + rewrite (sw_a _ _ _ _ _ _ _ H) in Hn. injection Hn as <-. apply Ha.
    + rewrite exchange_a in Hn. injection Hn as <-. apply (sw_ab _ _ _ _ _ _ _ H).
  - destruct Hn as [Hn | Hn].
    + rewrite (sw_b _ _ _ _ _ _ _ H) in Hn. injection Hn as <-. apply (sw_ab _ _ _ _ _ _ _ H).
    + rewrite Hb' in Hn. injection Hn as <-. apply Ha.
Qed.

(** The subtree of [da] answers where [db] was. *)
Lemma exchange_moves s : nwalk r N' r (npath r N db ++ s) = nwalk r N da s.
Proof.
  destruct (tree_parent r N db bn Ht (sw_b _ _ _ _ _ _ _ H)) as [pn Hpn].
  destruct (t_up r N Ht (n_parent bn)) as [l Hl]; [by eexists |].
  assert (da ∉ l) as Hda by (by apply (sw_ab _ _ _ _ _ _ _ H)).
  assert (db ∉ l) as Hdb by (eapply upto_parent_avoid; [apply H | apply H | done]).
  rewrite (npath_step r N Ht db bn) by apply H. rewrite nwalk_app, nwalk_snoc.
  rewrite (nwalk_frame r N N' Ht Ht' (n_parent bn) l Hl).
  2:{ intros x Hx _. rewrite exchange_place by set_solver. done. }
  simpl. assert (child r N' (n_parent bn) (n_name bn) = Some da) as ->.
  { apply child_Some; [done |]. split; [apply H |]. eexists. split; [apply exchange_a | done]. }
  simpl. destruct (t_up r N Ht da) as [la Hla]; [eexists; apply H |].
  eapply (nwalk_below r N N' Ht Ht' {[da; db]} da); [| apply exchange_outside | exact Hla |].
  - intros x Hx. by rewrite exchange_place.
  - destruct (upto_head _ _ _ _ Hla) as [? ->]. left.
Qed.

End exchange.

(** Both ways. *)
Lemma exchange_swaps r a b N N' s :
  tree r N → tree r N' → spec_exchange r a b N = (0, N') →
  nwalk r N' r (b ++ s) = nwalk r N r (a ++ s) ∧ nwalk r N' r (a ++ s) = nwalk r N r (b ++ s).
Proof.
  intros Ht Ht' Hs. destruct (spec_exchange_facts r a b N N' Ht Hs) as (da & db & Ha & Hb & Hc).
  destruct Hc as [[<- ->] | (an & bn & Hsw)].
  { by rewrite !nwalk_app, Ha, Hb. }
  rewrite <- (npath_nwalk r N Ht a da Ha), <- (npath_nwalk r N Ht b db Hb).
  rewrite (exchange_moves r N N' da db an bn Ht Ht' Hsw).
  rewrite (exchange_moves r N N' db da bn an Ht Ht' (swapped_sym _ _ _ _ _ _ _ Hsw)).
  by rewrite !nwalk_app, !nwalk_npath by (done || (eexists; apply Hsw)).
Qed.

(** A state is carried along with the dentry. *)
Lemma exchange_attrs r a b N N' d n :
  tree r N → spec_exchange r a b N = (0, N') → N !! d = Some n →
  ∃ n', N' !! d = Some n' ∧ n_pos n' = n_pos n ∧ n_dir n' = n_dir n ∧ n_id n' = n_id n.
Proof.
  intros Ht Hs Hd. destruct (spec_exchange_facts r a b N N' Ht Hs) as (da & db & Ha & Hb & Hc).
  destruct Hc as [[<- ->] | (an & bn & [Han Hbn ? ? ? ? ? ->])]; [by eauto |].
  destruct (decide (da = d)) as [-> | ]; [rewrite lookup_insert_eq; eexists; split; [done |]; by simplify_eq |].
  rewrite lookup_insert_ne by done.
  destruct (decide (db = d)) as [-> |]; [rewrite lookup_insert_eq; eexists; split; [done |]; by simplify_eq |].
  rewrite lookup_insert_ne by done. eauto.
Qed.
