(* ===== verification/ReadSpec.v ===== *)
(** The remaining readers: the snapshot arm of the lookup, directory listing, the
    reverse walk from a dentry to its path, and the census. *)

From S2P Require Import Prelude Qstr HList HashTab Children Lru Seqcount World Walk.
From S2P Require Import Namespace TreeOps Paths Inv Parts WalkSpec OpsSpec Lifecycle.

Section reads.
  Context {ISO : Isolated}.

(** ** The snapshot arm *)

Definition snapshot_result (N : nspace) (id : Z) (o : option Z) : dc_result * Z :=
  match o with
  | Some d => (state_of N d, d)
  | None => (DC_ABSENT, id)
  end.

Lemma wp_snapshot_loop (p : dc_path) m : ∀ i k w cur,
  inv k w → path_wf p → (i + m ≤ ndepth p)%nat → is_Some (ns w !! cur) →
  wp (snapshot_loop p m i cur (w_seq w !!! cur) (state_of (ns w) cur) cur) (λ r w', w' = w ∧
    ∃ id, r = Some (snapshot_result (ns w) id
                      (nwalk (w_root w) (ns w) cur (take m (drop i (pnames p)))))) w.
Proof.
  induction m as [| m IH]; intros i k w cur Hi Hp Hm Hcur; cbn [snapshot_loop].
  - wp_step. eapply wp_seq_stable; [done | done |]. wp_step. split; [done |]. by exists 0.
  - wp_step. apply wp_comp_at; [done | lia |]. intros q Hq Hnm.
    rewrite (drop_S _ _ _ Hnm). cbn [take nwalk].
    wp_step. wp_use wp_d_lookup; [done | done |]. intros r w' [-> ->].
    wp_step. eapply wp_seq_stable; [done | done |].
    destruct (child (w_root w) (ns w) cur (qname q)) as [d |] eqn:E; simpl.
    + destruct (child_alive w cur _ d ltac:(done) E) as (Hdr & c & Hc & Hu & Hn).
      wp_step. eapply wp_core_at; [done |]. cbn zeta. wp_step.
      eapply wp_seq_stable; [done | by eexists |].
      assert ((if d_is_positive c then DC_POSITIVE else DC_NEGATIVE) = state_of (ns w) d) as ->.
      { unfold state_of. by rewrite Hn. }
      wp_use (IH (S i) k w); [done | done | lia | by eexists | done].
    + wp_step. split; [done |]. by eexists.
Qed.

Lemma wp_dc_lookup_snapshot k w p :
  inv k w → path_wf p →
  wp (dc_lookup_snapshot p) (λ r w', w' = w ∧
    r = lookup_result (ns w) (nwalk (w_root w) (ns w) (w_root w) (pnames p))) w.
Proof.
  intros Hi Hp. destruct (inv_root w Hi) as [Hr Hst].
  unfold dc_lookup_snapshot, path_walk_snapshot. wp_step. wp_step.
  unfold rcu_read_lock. wp_step. pose proof (inv_enter k w Hi) as Hi1. set (w1 := set_nest _ w) in *.
  wp_step. apply wp_iter_first. unfold snapshot_round. wp_step.
  apply wp_rename_read. wp_use wp_read_seqbegin_or_lock_0; [apply Hi |]. intros ? ? [-> ->]. split; [done |].
  destruct (inv_seq_read w (w_root w) Hi Hr) as [Hs He].
  wp_step. unfold snapshot_walk. wp_step. wp_step. wp_step.
  eapply wp_d_seq_read; [exact Hs |]. wp_use wp_read_seqcount_begin; [done |].
  intros ? ? [-> ->]. split; [done |]. rewrite <- Hst.
  wp_use (wp_snapshot_loop p (ndepth p) 0 (S k) w1); [done | done | lia | done |].
  intros r w' [-> [id ->]]. rewrite drop_0. rewrite take_ge by (rewrite length_pnames by done; lia).
  wp_step. apply wp_rename_read. wp_use wp_need_seqretry; [apply Hi |]. intros ? ? [-> ->]. split; [done |].
  wp_step. apply wp_rename_read. wp_use wp_done_seqretry; [apply Hi |]. intros ? ? ->. split; [done |].
  wp_step. eexists. split; [done |]. cbn beta iota. wp_step.
  eapply wp_rcu_unlock; [done |]. intros _. unfold w1. rewrite set_nest_back by done. wp_step. wp_step.
  split; [done |]. wsimpl. change (ns (set_nest (S (w_nest w)) w)) with (ns w). unfold snapshot_result, lookup_result.
  unfold DC_FAST_ID. rewrite Hst.
  destruct (nwalk (w_root w) (ns w) (w_root w) (pnames p)); done.
Qed.

(** ** Listing *)

Lemma wp_sib_loop {X} (w : world) (body : Z → X → M X) (g : Z → X → X) l : ∀ sl c fuel x,
  hseg (w_kids w) sl c l → (length l < fuel)%nat →
  (∀ c x, c ∈ l → wp (body c x) (λ x' w', w' = w ∧ x' = g c x) w) →
  wp (sib_loop fuel c body x) (λ x' w', w' = w ∧ x' = foldl (λ x c, g c x) x l) w.
Proof.
  induction l as [| d l IH]; intros sl c fuel x Hs Hf Hb.
  - simpl in Hs. subst c. destruct fuel; [simpl in Hf; lia |]. by apply wp_ret.
  - destruct fuel as [| fuel]; [simpl in Hf; lia |]. simpl in Hs. destruct Hs as (-> & H0 & k & Hk & _ & Hs).
    cbn [sib_loop]. destruct (Z.eqb_spec d 0); [done |]. wp_step.
    eapply wp_mono; [apply Hb; by left |]. intros x' w' [-> ->]. wp_step.
    eapply wp_kid_at; [done |]. eapply IH; [done | simpl in Hf; lia |].
    intros c x' Hc. apply Hb. by right.
Qed.

(** One call of the callback of [dc_readdir]. *)
Definition list_call {X} (w : world) (fn : option (Z → qstr → X → X)) (c : Z) (x : X) : X :=
  match w_core w !! c, fn with
  | Some cc, Some f => f (d_id cc) (d_name cc) x
  | _, _ => x
  end.

Lemma foldl_count {X} (g : Z → X → X) l : ∀ n x,
  foldl (λ (y : Z * X) c, (fst y + 1, g c (snd y))) (n, x) l
  = (n + Z.of_nat (length l), foldl (λ x c, g c x) x l).
Proof.
  induction l as [| c l IH]; intros n x; simpl; [f_equal; lia |]. rewrite IH. f_equal. lia.
Qed.

Lemma wp_dc_readdir {X} k w path (fn : option (Z → qstr → X → X)) arg :
  inv k w → path_wf path →
  wp (dc_readdir path fn arg) (λ r w',
    inv k w' ∧ ns w' = ns w ∧ w_root w' = w_root w ∧
    match nwalk (w_root w) (ns w) (w_root w) (pnames path) with
    | None => r = (- ENOENT, arg)
    | Some d => ∃ l, l ≡ₚ kids (w_root w) (ns w) d ∧
        r = (Z.of_nat (length l), foldl (λ x c, list_call w fn c x) arg l)
    end) w.
Proof.
  intros Hi Hp. unfold dc_readdir. unfold rcu_read_lock. wp_step. wp_step.
  pose proof (inv_enter k w Hi) as Hi1. set (w1 := set_nest _ w) in *. wp_step.
  wp_use wp_resolve; [done | done | done |]. intros ? ? ((s & ->) & Hi2 & ->).
  rewrite take_ge by (rewrite length_pnames by done; lia).
  change (w_root w1) with (w_root w). change (ns w1) with (ns w).
  destruct (nwalk (w_root w) (ns w) (w_root w) (pnames path)) as [d |] eqn:Ew; simpl.
  2:{ wp_step. eapply wp_rcu_unlock; [exact Hi2 |]. intros Hi3. wp_step. done. }
  destruct (nwalk_alive (set_lru s w1) _ d ltac:(done) Ew) as (c & Hc & Hu & Hn & Hd0 & HD & _).
  destruct (Z.eqb_spec d 0) as [| _]; [done |]. set (w2 := set_lru s w1) in *.
  pose proof (locks_lookup_free _ _ d (inv_lock _ w2 Hi2) HD) as Hlk.
  wp_step. eapply wp_on_d_lock; [done |]. unfold rw_rlock at 1.
  eapply wp_run; [done |]. set (w3 := set_lock _ w2).
  destruct (kids_list _ _ _ _ d (inv_kids w2 Hi2) HD) as (kd & l & Hk & Hs & Hnd & Hlen & Hmem).
  wp_step. eapply wp_kid_at; [done |]. wp_step. wp_step. wp_step.
  wp_use (wp_sib_loop w3 _ (λ c y, (fst y + 1, list_call w fn c (snd y))) l);
    [exact Hs | unfold sib_fuel, w3; wsimpl; lia | |].
  { intros x y Hx. apply Hmem in Hx as (_ & n & (xc & Hxc & _)%ns_lookup & _).
    wp_step. eapply wp_core_at; [done |]. wp_step. split; [done |]. unfold list_call.
    change (w_core w2) with (w_core w) in Hxc. rewrite Hxc. by destruct fn. }
  intros ? ? [-> ->]. wp_step.
  eapply wp_on_d_lock; [unfold w3; wsimpl; apply lookup_insert_eq |]. unfold rw_runlock at 1.
  eapply wp_run; [done |]. wp_step.
  match goal with |- wp _ _ ?w4 => assert (w4 = w2) as -> end.
  { unfold w3. wsimpl. rewrite insert_insert_eq, (insert_id _ _ _ Hlk). done. }
  eapply wp_rcu_unlock; [exact Hi2 |]. intros Hi3. wp_step. split_and!; [done | done | done |].
  exists l. split.
  - apply NoDup_Permutation; [done | apply kids_nodup | intros x; rewrite Hmem, elem_of_kids; done].
  - rewrite foldl_count. done.
Qed.

(** ** The reverse walk *)

(** The component array of [out] while the climb fills it from its end. *)
Definition out_sizes (out : list qstr) : Prop :=
  length out = DC_PATH_MAX ∧ ∀ i q, out !! i = Some q → length (q_name q) = DC_NAME_MAX.

Lemma path_copy_name_ok src dst :
  qstr_wf src → length (q_name dst) = DC_NAME_MAX →
  qstr_wf (path_copy_name src dst) ∧ qname (path_copy_name src dst) = qname src.
Proof.
  intros [Hlen Hsz Hh] Hd. unfold path_copy_name.
  destruct (Z.ltb_spec (Z.of_nat DC_NAME_MAX - 1) (q_len src)); [lia |].
  assert (qname {| q_hash := q_hash src; q_len := q_len src;
     q_name := take (Z.to_nat (q_len src)) (q_name src) ++ 0 :: drop (S (Z.to_nat (q_len src))) (q_name dst) |}
     = qname src) as E.
  { unfold qname. cbn [q_len q_name]. rewrite take_app_le by (rewrite length_take; lia).
    rewrite take_take. f_equal. lia. }
  split; [| done]. split.
  - done.
  - cbn [q_name]. rewrite length_app, length_take. cbn [length]. rewrite length_drop. lia.
  - by rewrite E.
Qed.

Lemma drop_alter_step (f : qstr → qstr) out n q :
  length out = DC_PATH_MAX → (n < DC_PATH_MAX)%nat → out !! (DC_PATH_MAX - 1 - n)%nat = Some q →
  drop (DC_PATH_MAX - S n) (alter f (DC_PATH_MAX - 1 - n)%nat out) = f q :: drop (DC_PATH_MAX - n) out.
Proof.
  intros Hl Hn Hq. replace (DC_PATH_MAX - S n)%nat with (DC_PATH_MAX - 1 - n)%nat by lia.
  erewrite drop_S by (by rewrite list_lookup_alter_eq, Hq). f_equal.
  replace (S (DC_PATH_MAX - 1 - n))%nat with (DC_PATH_MAX - n)%nat by lia.
  apply list_eq. intros i. rewrite !lookup_drop. apply list_lookup_alter_ne. lia.
Qed.

Lemma wp_climb k w : ∀ fuel d l n out,
  inv k w → is_Some (ns w !! d) → upto (w_root w) (ns w) d l → (n ≤ DC_PATH_MAX)%nat →
  (DC_PATH_MAX < fuel + n)%nat → out_sizes out → Forall qstr_wf (drop (DC_PATH_MAX - n) out) →
  wp (climb fuel d n out) (λ r w', w' = w ∧
    let m := length (npath (w_root w) (ns w) d) in
    out_sizes (snd r) ∧
    if decide (n + m ≤ DC_PATH_MAX)%nat then
      fst r = (0, (n + m)%nat) ∧ Forall qstr_wf (drop (DC_PATH_MAX - (n + m)) (snd r)) ∧
      qname <$> drop (DC_PATH_MAX - (n + m)) (snd r) =
        npath (w_root w) (ns w) d ++ (qname <$> drop (DC_PATH_MAX - n) out)
    else fst (fst r) = - ENAMETOOLONG) w.
Proof.
  induction fuel as [| fuel IH]; intros d l n out Hi Hd Hl Hn Hf [Hsz Hnm] Hwf; [simpl in Hf; lia |].
  destruct Hd as [dn Hdn]. pose proof Hdn as (c & Hc & Hu & ->)%ns_lookup.
  destruct (inv_core w Hi d c Hc) as ([Hq _] & _). pose proof (inv_tree w Hi) as Ht.
  cbn [climb]. wp_step. eapply wp_core_at; [done |]. fold (dparent_of c). cbn zeta.
  destruct (decide (d = w_root w)) as [-> | Hdr].
  - destruct (t_root _ _ Ht) as (rn & Hrn & Hrp & _). rewrite Hdn in Hrn. injection Hrn as <-. simpl in Hrp.
    rewrite Hrp, Z.eqb_refl. wp_step. split; [done |]. rewrite (npath_root _ _ Ht). cbn [length].
    split; [done |]. rewrite Nat.add_0_r, decide_True by done. done.
  - pose proof (parent_ne _ _ _ _ Ht Hdn Hdr) as Hpne. simpl in Hpne.
    destruct (Z.eqb_spec (dparent_of c) d) as [| _]; [done |].
    rewrite (npath_step _ _ Ht d (view c)) by done. cbn [n_parent n_name view].
    case_decide as Hfull.
    + wp_step. split; [done |]. split; [done |]. rewrite decide_False; [done |].
      rewrite length_app. simpl. lia.
    + destruct (lookup_lt_is_Some_2 out (DC_PATH_MAX - 1 - n)) as [q Hq0]; [lia |].
      destruct (path_copy_name_ok (d_name c) q Hq (Hnm _ _ Hq0)) as [Hcw Hcn].
      destruct Hl as [| d n' l Hn' _ Hl]; [done |]. rewrite Hdn in Hn'. injection Hn' as <-.
      wp_use (IH (dparent_of c) l (S n)).
      * done.
      * eapply (tree_parent _ _ d (view c)); done.
      * done.
      * lia.
      * lia.
      * split; [by rewrite length_alter |]. intros i q' Hi'.
        destruct (decide (i = DC_PATH_MAX - 1 - n)%nat) as [-> |].
        { rewrite list_lookup_alter_eq, Hq0 in Hi'. injection Hi' as <-. apply Hcw. }
        rewrite list_lookup_alter_ne in Hi' by done. by eapply Hnm.
      * rewrite (drop_alter_step _ _ _ q) by (done || lia). by constructor.
      * intros r w' [-> [Hos Hres]]. split; [done |]. split; [done |]. rewrite length_app. cbn [length].
        replace (n + (length (npath (w_root w) (ns w) (dparent_of c)) + 1))%nat
          with (S n + length (npath (w_root w) (ns w) (dparent_of c)))%nat by lia.
        case_decide; [| done]. destruct Hres as (E1 & E2 & E3). split_and!; [done | done |].
        rewrite E3, (drop_alter_step _ _ _ q) by (done || lia). rewrite fmap_cons, Hcn.
        by rewrite <- (assoc_L (++)).
Qed.

(** The [memmove] to the front of the array. *)
Lemma memmove_path names cs :
  let m := length names in
  length cs = DC_PATH_MAX → (m ≤ DC_PATH_MAX)%nat → Forall qstr_wf (drop (DC_PATH_MAX - m) cs) →
  qname <$> drop (DC_PATH_MAX - m) cs = names →
  path_wf {| ndepth := m; comp := comp_memmove m cs |} ∧ pnames {| ndepth := m; comp := comp_memmove m cs |} = names.
Proof.
  intros m Hsz Hm Hwf Hnames.
  assert (take m (drop (DC_PATH_MAX - m) cs) = drop (DC_PATH_MAX - m) cs) as Etk.
  { apply take_ge. rewrite length_drop. lia. }
  split; [split |].
  - unfold comp_memmove. cbn [comp snd]. rewrite length_app, length_take, !length_drop. lia.
  - done.
  - cbn [ndepth comp]. intros i q Him Hiq. unfold comp_memmove in Hiq.
    rewrite lookup_app_l in Hiq by (rewrite length_take, length_drop; lia).
    rewrite Etk in Hiq. rewrite Forall_lookup in Hwf. by eapply Hwf.
  - unfold pnames, comp_memmove. cbn [ndepth comp]. rewrite take_app_le by (rewrite length_take, length_drop; lia).
    rewrite take_take, Nat.min_id, Etk. done.
Qed.

Lemma wp_dc_dentry_path k w d out :
  inv k w → is_Some (ns w !! d) → out_sizes (comp out) →
  wp (dc_dentry_path d out) (λ r w', w' = w ∧
    if decide (length (npath (w_root w) (ns w) d) ≤ DC_PATH_MAX)%nat
    then fst r = 0 ∧ path_wf (snd r) ∧ pnames (snd r) = npath (w_root w) (ns w) d
    else fst r = - ENAMETOOLONG) w.
Proof.
  intros Hi Hd Hout. unfold dc_dentry_path. unfold rcu_read_lock. wp_step. wp_step.
  pose proof (inv_enter k w Hi) as Hi1. set (w1 := set_nest _ w) in *. wp_step.
  apply wp_iter_first. unfold dentry_path_round. wp_step. apply wp_rename_read.
  wp_use wp_read_seqbegin_or_lock_0; [apply Hi |]. intros ? ? [-> ->]. split; [done |].
  destruct (t_up _ _ (inv_tree w Hi) d Hd) as [l Hl]. wp_step.
  wp_use (wp_climb (S k) w1 (S DC_PATH_MAX) d l 0); [done | done | done | lia | lia | done | |].
  { rewrite Nat.sub_0_r, drop_ge; [constructor |]. destruct Hout as [-> _]. lia. }
  intros r w' [-> Hres]. change (w_root w1) with (w_root w) in Hres. change (ns w1) with (ns w) in Hres.
  wp_step. apply wp_rename_read. wp_use wp_need_seqretry; [apply Hi |]. intros ? ? [-> ->]. split; [done |].
  wp_step. apply wp_rename_read. wp_use wp_done_seqretry; [apply Hi |]. intros ? ? ->. split; [done |].
  wp_step. eexists. split; [done |]. destruct r as [[ret n] cs]. cbn beta iota. wp_step.
  eapply wp_rcu_unlock; [done |]. intros _. unfold w1. rewrite set_nest_back by done.
  cbn [fst snd] in Hres. destruct Hres as [[Hsz Hnm] Hres]. rewrite Nat.add_0_l in Hres.
  case_decide as Hm.
  - destruct Hres as ([= -> ->] & Hwf & Hnames). simpl. wp_step. split; [done |]. split; [done |].
    apply memmove_path; [done | done | done |].
    by rewrite Hnames, Nat.sub_0_r, (drop_ge out.(comp)), app_nil_r by (destruct Hout as [-> _]; lia).
  - subst ret. simpl. wp_step. done.
Qed.

(** ** The census *)

Lemma wp_sib_loop_inv {X} (w : world) (body : Z → X → M X) (P : list Z → X → Prop) l : ∀ done sl c fuel x,
  hseg (w_kids w) sl c l → (length l < fuel)%nat → P done x →
  (∀ pre c rest x, done ++ l = pre ++ c :: rest → P pre x →
     wp (body c x) (λ x' w', w' = w ∧ P (pre ++ [c]) x') w) →
  wp (sib_loop fuel c body x) (λ x' w', w' = w ∧ P (done ++ l) x') w.
Proof.
  induction l as [| d l IH]; intros dn sl c fuel x Hs Hf HP Hb.
  - simpl in Hs. subst c. destruct fuel; [simpl in Hf; lia |]. apply wp_ret. by rewrite app_nil_r.
  - destruct fuel as [| fuel]; [simpl in Hf; lia |]. simpl in Hs. destruct Hs as (-> & H0 & k & Hk & _ & Hs).
    cbn [sib_loop]. destruct (Z.eqb_spec d 0); [done |]. wp_step.
    eapply wp_mono; [by apply (Hb dn d l) |]. intros x' w' [-> HP']. wp_step.
    eapply wp_kid_at; [done |].
    assert (dn ++ d :: l = (dn ++ [d]) ++ l) as E by (by rewrite <- (assoc_L (++))).
    rewrite E in *. eapply IH; [done | simpl in Hf; lia | done | done].
Qed.

(** The path buffer below its depth. *)
Definition same_path (p p' : dc_path) : Prop :=
  ndepth p' = ndepth p ∧ length (comp p') = length (comp p) ∧
  take (ndepth p) (comp p') = take (ndepth p) (comp p).

Lemma same_path_names p p' : same_path p p' → pnames p' = pnames p.
Proof. intros (E & _ & H). unfold pnames. by rewrite E, H. Qed.

Lemma same_path_push p q p' :
  length (comp p) = DC_PATH_MAX → (ndepth p < DC_PATH_MAX)%nat →
  same_path {| ndepth := S (ndepth p); comp := <[ndepth p := q]> (comp p) |} p' →
  same_path p {| ndepth := ndepth p' - 1; comp := comp p' |}.
Proof.
  intros Hl Hd (E & H1 & H2). cbn [ndepth comp] in *. rewrite length_insert in H1. split_and!; cbn [ndepth comp].
  - lia.
  - lia.
  - apply (f_equal (take (ndepth p))) in H2. rewrite !take_take in H2.
    replace (ndepth p `min` S (ndepth p))%nat with (ndepth p) in H2 by lia.
    rewrite H2. by rewrite take_insert_ge by lia.
Qed.

(** Pushed, walked and popped: the buffer is what it was. *)
Lemma same_path_pop p p1 q p2 :
  length (comp p) = DC_PATH_MAX → (ndepth p1 < DC_PATH_MAX)%nat → same_path p p1 →
  same_path {| ndepth := S (ndepth p1); comp := <[ndepth p1 := q]> (comp p1) |} p2 →
  same_path p {| ndepth := ndepth p2 - 1; comp := comp p2 |}.
Proof.
  intros Hl Hd (B1 & B2 & B3) H. apply same_path_push in H as (A1 & A2 & A3); [| lia | lia].
  split_and!; [lia | lia |]. rewrite <- B3, <- B1. exact A3.
Qed.

Lemma pnames_push p q :
  length (comp p) = DC_PATH_MAX → (ndepth p < DC_PATH_MAX)%nat →
  pnames {| ndepth := S (ndepth p); comp := <[ndepth p := q]> (comp p) |} = pnames p ++ [qname q].
Proof.
  intros Hl Hd. unfold pnames. cbn [ndepth comp].
  erewrite take_S_r by (apply list_lookup_insert_eq; lia).
  rewrite take_insert_ge by lia. by rewrite fmap_app.
Qed.

Lemma subtree_depth r N d x : tree r N → x ∈ subtree r N d → (length (npath r N d) ≤ length (npath r N x))%nat.
Proof.
  intros Ht (l & Hl & Hd & Hx)%(elem_of_subtree r N Ht).
  destruct (upto_suffix _ _ _ _ _ Hl Hd) as (l' & Hl' & Hs%suffix_length).
  pose proof (npath_length r N Ht x l Hl). pose proof (npath_length r N Ht d l' Hl'). lia.
Qed.

(** What a walk of the subtrees of [ds] has reported, starting from [arg]. *)
Definition reported {X} (r : Z) (N : nspace) (f : Z → list (list Z) → X → X) (arg : X)
    (S : Z → Prop) (arg' : X) : Prop :=
  ∃ L, NoDup L ∧ (∀ x, x ∈ L ↔ S x ∧ counted r N x) ∧ arg' = foldl (census_call r N f) arg L.

Lemma reported_nil {X} r N (f : Z → list (list Z) → X → X) arg (S : Z → Prop) :
  (∀ x, S x → ¬ counted r N x) → reported r N f arg S arg.
Proof.
  intros H. exists []. split_and!; [constructor | | done]. intros x.
  split; [by intros ?%not_elem_of_nil | intros [? ?]; by destruct (H x)].
Qed.

Lemma reported_app {X} r N (f : Z → list (list Z) → X → X) a1 a2 a3 (S1 S2 S : Z → Prop) :
  reported r N f a1 S1 a2 → reported r N f a2 S2 a3 →
  (∀ x, S x ↔ S1 x ∨ S2 x) → (∀ x, S1 x → S2 x → False) → reported r N f a1 S a3.
Proof.
  intros (L1 & Hn1 & Hm1 & ->) (L2 & Hn2 & Hm2 & ->) HS Hd. exists (L1 ++ L2). split_and!.
  - apply NoDup_app. split_and!; [done | | done]. intros x [? _]%Hm1 [? _]%Hm2. by eapply Hd.
  - intros x. rewrite elem_of_app, Hm1, Hm2, HS. tauto.
  - by rewrite foldl_app.
Qed.

End reads.

(** ** The census of a subtree, one entry at a time *)

Section census.
Context {X : Type} (r : Z) (N : nspace) (Ht : tree r N) (f : Z → list (list Z) → X → X).

Lemma path_depth path d :
  pnames path = npath r N d → length (comp path) = DC_PATH_MAX → (ndepth path ≤ DC_PATH_MAX)%nat →
  ndepth path = length (npath r N d).
Proof. intros <- Hsz Hd. unfold pnames. rewrite length_fmap, length_take. lia. Qed.

(** The entry itself. *)
Lemma reported_self d n path arg :
  N !! d = Some n → pnames path = npath r N d → length (comp path) = DC_PATH_MAX → (ndepth path ≤ DC_PATH_MAX)%nat →
  reported r N f arg (λ x, x = d)
    (if ((0 <? ndepth path)%nat || negb (n_parent n =? d)) && n_pos n then f (n_id n) (pnames path) arg else arg).
Proof.
  intros Hdn Hnames Hsz Hdep. pose proof (path_depth path d Hnames Hsz Hdep) as Hlen.
  destruct (((0 <? ndepth path)%nat || negb (n_parent n =? d)) && n_pos n) eqn:E.
  - apply andb_true_iff in E as [E1 E2]. assert (d ≠ r) as Hdr.
    { intros ->. destruct (t_root _ _ Ht) as (rn & Hrn & Hrp & _). rewrite Hdn in Hrn. injection Hrn as <-.
      rewrite Hrp, Z.eqb_refl, orb_false_r in E1. apply Nat.ltb_lt in E1.
      rewrite (npath_root _ _ Ht) in Hlen. simpl in Hlen. lia. }
    exists [d]. split_and!; [apply NoDup_singleton | |].
    + intros x. rewrite list_elem_of_singleton. split; [| by intros [? _]]. intros ->. split; [done |].
      split_and!; [done | lia | by exists n].
    + simpl. unfold census_call. rewrite Hdn, Hnames. done.
  - apply reported_nil. intros x -> (Hdr & _ & n' & Hn & Hp). rewrite Hdn in Hn. injection Hn as <-.
    rewrite Hp, andb_true_r in E. apply orb_false_iff in E as [E%Nat.ltb_ge _].
    rewrite (npath_step _ _ Ht d n) in Hlen by done. rewrite length_app in Hlen. simpl in Hlen. lia.
Qed.

Definition below_any (pre : list Z) (x : Z) : Prop := ∃ c, c ∈ pre ∧ x ∈ subtree r N c.

Lemma kid_depth d ch : ch ∈ kids r N d → length (npath r N ch) = S (length (npath r N d)).
Proof.
  intros (Hr & n & Hn & <-)%elem_of_kids. rewrite (npath_step _ _ Ht ch n), length_app by done. simpl. lia.
Qed.

(** One child more. *)
Lemma reported_kid d pre ch arg a1 a2 :
  (∀ c, c ∈ pre → c ∈ kids r N d) → ch ∈ kids r N d → ch ∉ pre →
  reported r N f arg (below_any pre) a1 → reported r N f a1 (λ x, x ∈ subtree r N ch) a2 →
  reported r N f arg (below_any (pre ++ [ch])) a2.
Proof.
  intros Hpre Hch Hnot H1 H2. eapply reported_app; [exact H1 | exact H2 | |].
  - intros x. unfold below_any. setoid_rewrite elem_of_app. setoid_rewrite list_elem_of_singleton. naive_solver.
  - intros x (c0 & Hc0 & Hx0) Hx. eapply (subtree_disjoint r N Ht d c0 ch); [by apply Hpre | done | | exact Hx0 | exact Hx].
    by intros ->.
Qed.

(** A child too deep for a path. *)
Lemma reported_deep d ch arg :
  ch ∈ kids r N d → (DC_PATH_MAX ≤ length (npath r N d))%nat → reported r N f arg (λ x, x ∈ subtree r N ch) arg.
Proof.
  intros Hch Hd. apply reported_nil. intros x Hx (_ & Hxl & _). pose proof (kid_depth d ch Hch).
  pose proof (subtree_depth r N ch x Ht Hx). lia.
Qed.

(** The whole subtree. *)
Lemma reported_subtree d hs arg a1 a2 :
  is_Some (N !! d) → (∀ c, c ∈ hs ↔ c ∈ kids r N d) →
  reported r N f arg (λ x, x = d) a1 → reported r N f a1 (below_any hs) a2 →
  reported r N f arg (λ x, x ∈ subtree r N d) a2.
Proof.
  intros Hd Hm H1 H2. eapply reported_app; [exact H1 | exact H2 | |].
  - intros x. split.
    + intros [-> | (c0 & Hc0 & Hx)]%subtree_unfold; [by left | | done]. right. exists c0. by rewrite Hm.
    + intros [-> | (c0 & Hc0 & Hx)]; [by apply subtree_self |].
      apply Hm, elem_of_kids in Hc0 as (Hr & n & Hn & Hp). by eapply (subtree_kid r N Ht c0 d n).
  - intros x -> (c0 & Hc0%Hm & Hx). by eapply (subtree_parent r N Ht d c0).
Qed.

Lemma reported_all arg a : reported r N f arg (λ x, x ∈ subtree r N r) a →
  ∃ L, NoDup L ∧ (∀ x, x ∈ L ↔ counted r N x) ∧ a = foldl (census_call r N f) arg L.
Proof.
  intros (L & Hnd & Hm & ->). exists L. split_and!; try done.
  intros x. rewrite Hm. split; [by intros [_ ?] |]. intros Hc. split; [| done].
  destruct Hc as (_ & _ & n & Hn & _). destruct (t_up _ _ Ht x) as [l Hl]; [by eexists |].
  apply elem_of_subtree; [done |]. exists l. split_and!; [done | | by eexists].
  clear -Hl. induction Hl; [by left | by right].
Qed.
End census.

Section walk.
  Context {ISO : Isolated}.

Lemma wp_walk_rec {X} k w (f : Z → list (list Z) → X → X) : ∀ fuel d path arg,
  inv k w → is_Some (ns w !! d) →
  length (comp path) = DC_PATH_MAX → (ndepth path ≤ DC_PATH_MAX)%nat →
  pnames path = npath (w_root w) (ns w) d → (DC_PATH_MAX < fuel + ndepth path)%nat →
  wp (walk_rec fuel (λ id p x, f id (pnames p) x) d path arg) (λ r w', w' = w ∧
    same_path path (fst r) ∧
    reported (w_root w) (ns w) f arg (λ x, x ∈ subtree (w_root w) (ns w) d) (snd r)) w.
Proof.
  induction fuel as [| fuel IH]; intros d path arg Hi Hd Hsz Hdep Hnames Hf; [simpl in Hf; lia |].
  pose proof Hd as [dn Hdn]. pose proof Hdn as (c & Hc & Hu & ->)%ns_lookup.
  pose proof (inv_tree w Hi) as Ht. set (r := w_root w) in *. set (N := ns w) in *.
  assert (d ∈ dom (w_core w)) as HD by (apply elem_of_dom; by eexists).
  pose proof (path_depth r N path d Hnames Hsz Hdep) as Hlen.
  cbn [walk_rec]. wp_step. eapply wp_core_at; [done |]. cbn beta zeta.
  pose proof (reported_self r N Ht f d (view c) path arg Hdn Hnames Hsz Hdep) as Hself.
  cbn [n_parent n_pos n_id view] in Hself.
  set (arg1 := if ((0 <? ndepth path)%nat || negb (dparent_of c =? d)) && d_is_positive c
               then f (d_id c) (pnames path) arg else arg) in *.
  destruct (kids_list _ _ _ _ d (inv_kids w Hi) HD) as (kd & ls & Hk & Hs & Hnd & Hll & Hmem).
  assert (∀ x, x ∈ ls ↔ x ∈ kids r N d) as Hm by (intros x; by rewrite Hmem, elem_of_kids).
  wp_step. eapply wp_kid_at; [done |]. wp_step. wp_step.
  set (P := λ (pre : list Z) (y : dc_path * X), same_path path (fst y) ∧
    reported r N f arg1 (below_any r N pre) (snd y)).
  wp_use (wp_sib_loop_inv w _ P ls []); [exact Hs | unfold sib_fuel; lia | | |].
  - split; [done |]. apply reported_nil. by intros x (? & ?%not_elem_of_nil & _).
  - intros pre ch rest [p' a'] Hsplit [Hsp Hrep]. cbn [fst snd app] in *. subst ls.
    assert (ch ∈ kids r N d) as Hch by (apply Hm, elem_of_app; right; left).
    assert (ch ∉ pre) as Hnot by (apply NoDup_app in Hnd as (_ & Hnd & _); intros ?; by eapply Hnd; [| left]).
    assert (∀ a2, reported r N f a' (λ x, x ∈ subtree r N ch) a2 →
      reported r N f arg1 (below_any r N (pre ++ [ch])) a2) as Hext.
    { intros a2 H2. eapply (reported_kid r N Ht f d); [| done | done | exact Hrep | exact H2].
      intros c0 Hc0. apply Hm, elem_of_app. by left. }
    pose proof Hch as (Hchr & chn & Hchn & Hchp)%elem_of_kids.
    pose proof Hchn as (cc & Hcc & Hcu & ->)%ns_lookup. simpl in Hchp.
    pose proof Hsp as (En & El & _). destruct (Nat.leb_spec DC_PATH_MAX (ndepth p')) as [Hfull | Hroom].
    + wp_step. split; [done |]. split; [done |]. apply Hext. eapply (reported_deep r N Ht f d); [done | lia].
    + wp_step. eapply wp_core_at; [done |]. wp_step. wp_use (IH ch).
      * done.
      * by eexists.
      * cbn [comp]. rewrite length_insert. lia.
      * cbn [ndepth]. lia.
      * rewrite pnames_push by lia. rewrite (same_path_names _ _ Hsp), Hnames.
        rewrite (npath_step _ _ Ht ch (view cc)) by done. simpl. by rewrite Hchp.
      * cbn [ndepth]. lia.
      * intros [p2 a2] w' [-> [Hsp2 Hrep2]]. cbn [fst snd] in *. wp_step. split; [done |].
        split; cbn [fst snd]; [| by apply Hext]. eapply (same_path_pop path p'); [done | lia | exact Hsp | exact Hsp2].
  - intros [p' a'] w' [-> [Hsp Hrep]]. cbn [fst snd app] in *. split; [done |]. split; [done |].
    eapply reported_subtree; [done | done | exact Hm | exact Hself | exact Hrep].
Qed.

(** [dc_walk] reports every object once, with its identity and its path. *)
Lemma wp_dc_walk {X} k w (f : Z → list (list Z) → X → X) path0 arg :
  inv k w → length (comp path0) = DC_PATH_MAX →
  wp (dc_walk (λ id p x, f id (pnames p) x) path0 arg) (λ arg' w', w' = w ∧
    ∃ L, NoDup L ∧ (∀ x, x ∈ L ↔ counted (w_root w) (ns w) x) ∧
      arg' = foldl (census_call (w_root w) (ns w) f) arg L) w.
Proof.
  intros Hi Hsz. unfold dc_walk. wp_step. wp_step. wp_step. destruct (inv_root w Hi) as [Hr _].
  wp_use (wp_walk_rec k w f (S DC_PATH_MAX) (w_root w)).
  - done.
  - done.
  - done.
  - cbn [dc_path_reset ndepth]. lia.
  - rewrite npath_root by apply Hi. done.
  - lia.
  - intros r w' [-> [_ Hr']]. wp_step. split; [done |]. apply reported_all; [apply Hi | exact Hr'].
Qed.

End walk.
