(* ===== verification/Api.v ===== *)
(** The interface of a dcache engine (dcache.h), as its callers see it.

    Every engine of the repository offers the same calls.  [Engine] is what one of
    them promises: it holds a name space, and each call that its caller may make
    returns, with an answer and a name space its specification allows.  What follows
    from that for whole histories of calls is proved once, for any engine. *)

From S2P Require Import Prelude Qstr HList World Walk Namespace TreeOps Paths Lifecycle.

(** ** Calls and answers *)

Inductive call :=
  | CAdd (p : dc_path) (id : Z) (isdir pos : bool)
  | CInstantiate (p : dc_path) (id : Z)
  | CDelete (p : dc_path)
  | CUnlink (p : dc_path)
  | CRename (from to : dc_path)
  | CExchange (a b : dc_path)
  | CLookup (p : dc_path)
  | CLookupDentry (p : dc_path)
  | CReaddir (p : dc_path)
  | CDentryPath (d : Z)
  | CCensus
  | CShrink (nr : Z)
  | CShrinkLocal (nr : Z)
  | CBarrier.

Inductive answer :=
  | ARet (z : Z)
  | ALookup (r : dc_result * option Z)
  | ADentry (d : Z)
  | AList (n : Z) (l : list (Z * list Z))
  | APath (ret : Z) (names : list (list Z))
  | ACensus (l : list (Z * list (list Z)))
  | ADone.

(** The entries of a set of dentries: id and name, or id and path. *)
Definition list_entry (N : nspace) (d : Z) : list (Z * list Z) :=
  match N !! d with Some n => [(n_id n, n_name n)] | None => [] end.

Definition census_entry (r : Z) (N : nspace) (d : Z) : list (Z * list (list Z)) :=
  match N !! d with Some n => [(n_id n, npath r N d)] | None => [] end.

(** What the calls that only read answer, in every engine. *)
Inductive read_step (r : Z) (N : nspace) : call → answer → Prop :=
  | SLookup p : read_step r N (CLookup p) (ALookup (lookup_result N (nwalk r N r (pnames p))))
  | SLookupDentry p :
      read_step r N (CLookupDentry p) (ADentry (default 0 (snd (lookup_result N (nwalk r N r (pnames p))))))
  | SReaddirNone p :
      nwalk r N r (pnames p) = None → read_step r N (CReaddir p) (AList (- ENOENT) [])
  | SReaddir p d l :
      nwalk r N r (pnames p) = Some d → l ≡ₚ kids r N d →
      read_step r N (CReaddir p) (AList (Z.of_nat (length l)) (l ≫= list_entry N))
  | SDentryPath d :
      (length (npath r N d) ≤ DC_PATH_MAX)%nat → read_step r N (CDentryPath d) (APath 0 (npath r N d))
  | SDentryPathLong d names :
      (DC_PATH_MAX < length (npath r N d))%nat → read_step r N (CDentryPath d) (APath (- ENAMETOOLONG) names)
  | SCensus L :
      NoDup L → (∀ x, x ∈ L ↔ counted r N x) → read_step r N CCensus (ACensus (L ≫= census_entry r N)).

(** What a caller owes: paths made by the path API, a rename into a directory, a
    dentry it looked up and that is still there. *)
Definition permitted (r : Z) (N : nspace) (c : call) : Prop :=
  match c with
  | CAdd p _ _ _ | CInstantiate p _ | CDelete p | CUnlink p | CLookup p | CLookupDentry p | CReaddir p =>
      path_wf p
  | CRename from to => path_wf from ∧ path_wf to ∧ dest_is_dir r N (pnames to)
  | CExchange a b => path_wf a ∧ path_wf b
  | CDentryPath d => is_Some (N !! d)
  | CCensus | CShrink _ | CShrinkLocal _ | CBarrier => True
  end.

(** ** What an engine promises *)

Class Engine := {
  eng_state : Type;
  eng_exec : call → ST eng_state answer;
  eng_step : Z → nspace → call → answer → nspace → Prop;
  eng_holds : eng_state → Z → nspace → Prop;
  eng_sim : ∀ w r N c, eng_holds w r N → permitted r N c →
    wp (eng_exec c) (λ a w', ∃ N', eng_holds w' r N' ∧ eng_step r N c a N') w;
}.

Section clients.
Context `{E : Engine}.

Fixpoint exec_all (cs : list call) : ST eng_state (list answer) :=
  match cs with
  | [] => st_ret []
  | c :: cs' => let! a := eng_exec c in let! l := exec_all cs' in st_ret (a :: l)
  end.

Inductive eng_steps (r : Z) : nspace → list call → list answer → nspace → Prop :=
  | SNil N : eng_steps r N [] [] N
  | SCons N c a N' cs l N'' :
      eng_step r N c a N' → eng_steps r N' cs l N'' → eng_steps r N (c :: cs) (a :: l) N''.

(** A caller that keeps to its obligations whatever the specification answers. *)
Fixpoint obeys (r : Z) (N : nspace) (cs : list call) : Prop :=
  match cs with
  | [] => True
  | c :: cs' => permitted r N c ∧ ∀ a N', eng_step r N c a N' → obeys r N' cs'
  end.

(** Simulation extended to histories. *)
Lemma wp_exec_all r cs : ∀ w N,
  eng_holds w r N → obeys r N cs →
  wp (exec_all cs) (λ l w', ∃ N', eng_holds w' r N' ∧ eng_steps r N cs l N') w.
Proof.
  induction cs as [| c cs IH]; intros w N Hw Ho; simpl.
  { wp_step. exists N. split; [done | constructor]. }
  destruct Ho as [Hc Ho]. wp_step. wp_use (eng_sim w r N c); [done | done |]. intros a w1 (N1 & Hw1 & Hs1).
  wp_step. wp_use (IH w1 N1); [done | by eapply Ho |]. intros l w2 (N2 & Hw2 & Hs2). wp_step.
  exists N2. split; [done |]. by econstructor.
Qed.
End clients.

(** ** Shared by the engines' readers *)

Lemma foldl_snoc_bind {A B} (g : A → list B) (l : list A) (a0 : list B) :
  foldl (λ acc x, acc ++ g x) a0 l = a0 ++ (l ≫= g).
Proof.
  revert a0. induction l as [| x l IH]; intros a0; simpl; [by rewrite app_nil_r |]. by rewrite IH, (assoc_L (++)).
Qed.

Lemma foldl_ext_in {A B} (f g : A → B → A) l : ∀ a,
  (∀ a x, x ∈ l → f a x = g a x) → foldl f a l = foldl g a l.
Proof.
  induction l as [| x l IH]; intros a Hfg; simpl; [done |]. rewrite Hfg by left.
  apply IH. intros. apply Hfg. by right.
Qed.

(** A census that collects ids and paths. *)
Lemma census_collects r N L :
  foldl (census_call r N (λ id names l, l ++ [(id, names)])) [] L = L ≫= census_entry r N.
Proof.
  rewrite (foldl_ext_in _ (λ acc x, acc ++ census_entry r N x) L []).
  - apply (foldl_snoc_bind (census_entry r N) L []).
  - intros acc x _. unfold census_call, census_entry. destruct (N !! x); [done | by rewrite app_nil_r].
Qed.
