(* ===== verification/ShrinkSpec.v ===== *)
(** The shrinker: it evicts only leaves, never more than asked for, leaves no
    dentry isolated, and always ends. *)

From S2P Require Import Prelude Qstr HList HashTab Children Lru Seqcount World Walk Ops Reclaim.
From S2P Require Import Namespace TreeOps Inv Parts WalkSpec OpsSpec Lifecycle.

(** The LRU while the isolate pass holds shard [i]'s lock, [B] isolated so far. *)
Record lru_mid (i : nat) (B : gset Z) (r : Z) (D : gset Z) (N : nspace) (s : lru_state) : Prop := {
  lm_ok : lru_ok s;
  lm_lock : locks s = <[i := 1]> (replicate DC_LRU_NODES 0);
  lm_dom : dom (words s) = D;
  lm_iso : B ⊆ D;
  lm_word : ∀ d w, words s !! d = Some w → @word_ok B r N d w;
}.

Lemma wp_mid_lock i B r D N s :
  @lru_inv B r D N s → (i < DC_LRU_NODES)%nat →
  wp (lru_lock i) (λ _ s', lru_mid i B r D N s') s.
Proof.
  intros [[L [Hl Hw]] Hf Hd Hb Hwd] Hi. wp_use wp_lru_lock; [exact Hl | done | done |].
  intros _ s' (Hl' & En & Hk). assert (words s' = words s) as Ew by (by apply words_node).
  split; rewrite ?Ew; try done.
  - exists L. split; [done |]. by rewrite Ew.
  - by rewrite Hk, Hf.
Qed.

Lemma wp_mid_unlock i B r D N s :
  lru_mid i B r D N s → (i < DC_LRU_NODES)%nat →
  wp (lru_unlock i) (λ _ s', @lru_inv B r D N s') s.
Proof.
  intros [[L [Hl Hw]] Hf Hd Hb Hwd] Hi. wp_use wp_lru_unlock; [exact Hl | done | done |].
  intros _ s' (Hl' & En & Hk). assert (words s' = words s) as Ew by (by apply words_node).
  split; rewrite ?Ew; try done. exists L. split; [done |]. by rewrite Ew.
Qed.

(** The oldest dentry of the shard. *)
Lemma mid_head i B r D N s o :
  lru_mid i B r D N s → (i < DC_LRU_NODES)%nat → ls_one s !! i = Some o → lo_head o ≠ 0 →
  words s !! lo_head o = Some (DC_SEQ_LRU_ON i) ∧ is_Some (N !! lo_head o) ∧ lo_head o ≠ r ∧
  lo_head o ∉ B ∧ lo_head o ∈ D.
Proof.
  intros [[L [Hl Hw]] Hf Hd Hb Hwd] Hi Ho H0. destruct (ll_one s L Hl i o Ho) as (Hs & _ & _).
  set (d := lo_head o) in *.
  assert (d ∈ L i) as Hin by (destruct (L i) as [| x l]; [done |]; destruct Hs as (-> & _); left).
  apply Hw in Hin as [Hword _]. specialize (Hwd d _ Hword). unfold word_ok in Hwd.
  assert (d ∈ D) as HD by (rewrite <- Hd; apply elem_of_dom; by eexists).
  destruct (N !! d) as [n |].
  - case_decide as Hiso.
    + destruct Hwd as [E _]. exfalso. unfold DC_SEQ_LRU_ON, DC_SEQ_LRU_SHRINK, DC_LRU_NODES in *. lia.
    + destruct Hwd as [E | (Hr & _)]; [exfalso; unfold DC_SEQ_LRU_ON, DC_SEQ_LRU_OFF in *; lia |].
      split_and!; try done.
  - exfalso. unfold DC_SEQ_LRU_ON, DC_SEQ_LRU_DEAD, DC_LRU_NODES in *. lia.
Qed.

(** Taking the oldest dentry off the list, for good or isolated. *)
Lemma wp_mid_take i B r D N s d newst :
  lru_mid i B r D N s → (i < DC_LRU_NODES)%nat → words s !! d = Some (DC_SEQ_LRU_ON i) →
  (newst = DC_SEQ_LRU_OFF ∨ newst = DC_SEQ_LRU_SHRINK) → is_Some (N !! d) → d ≠ r → d ∉ B →
  wp (lru_del_locked i d newst) (λ _ s',
    lru_mid i (if newst =? DC_SEQ_LRU_SHRINK then B ∪ {[d]} else B) r D N s') s.
Proof.
  intros [[L [Hl Hw]] Hf Hd Hb Hwd] Hi Hword Hnew Hn Hr HB.
  wp_use wp_lru_del_locked; [exact Hl | by apply Hw |].
  intros _ s' (L' & Hl' & Hm' & Ew & _ & Hk). assert (d ∈ dom (words s)) as HD by (apply elem_of_dom; by eexists).
  assert (∀ j, (j < DC_LRU_NODES)%nat → newst ≠ DC_SEQ_LRU_ON j) as Hoff.
  { intros j Hj. unfold DC_SEQ_LRU_ON, DC_SEQ_LRU_OFF, DC_SEQ_LRU_SHRINK, DC_LRU_NODES in *.
    destruct Hnew; subst; lia. }
  split.
  - exists L'. by eapply (lrep_unlinked s s' L).
  - congruence.
  - rewrite Ew, dom_insert_L, Hd. rewrite Hd in HD. set_solver.
  - case_match; set_solver.
  - intros x v. rewrite Ew. destruct (decide (d = x)) as [<- | Hx].
    + rewrite lookup_insert_eq. intros [= <-]. unfold word_ok. destruct Hn as [n ->].
      destruct Hnew as [-> | ->]; simpl.
      * rewrite decide_False by (by unfold isolated). by left.
      * rewrite decide_True by (unfold isolated; set_solver). done.
    + rewrite lookup_insert_ne by done. intros Hv. specialize (Hwd x v Hv). unfold word_ok, isolated in *.
      destruct (N !! x); [| done]. destruct (newst =? DC_SEQ_LRU_SHRINK); [| done].
      destruct (decide (x ∈ B)); [rewrite decide_True by set_solver | rewrite decide_False by set_solver]; done.
Qed.

(** The second chance: the oldest dentry goes to the tail, its word unchanged. *)
Lemma wp_mid_rotate i B r D N s d n :
  lru_mid i B r D N s → (i < DC_LRU_NODES)%nat → words s !! d = Some (DC_SEQ_LRU_ON i) →
  ls_node s !! d = Some n →
  wp (lnode_store d (set_lref false) ;;; lru_del_locked i d (DC_SEQ_LRU_ON i) ;;;
      lru_link_tail_locked i d) (λ _ s', lru_mid i B r D N s') s.
Proof.
  intros [[L [Hl Hw]] Hf Hd Hb Hwd] Hi Hword Hn. wp_step. eapply wp_run; [by eapply lnode_store_ok |].
  set (s1 := LruState _ _). assert (words s1 = words s) as Ew1 by (by apply words_alter).
  assert (llists s1 L) as Hl1.
  { eapply llists_ext; [exact Hl | done | simpl; eauto |]. simpl. intros. by apply links_lru_alter. }
  wp_step. assert (d ∈ L i) as HdL by (by apply Hw).
  destruct (llists_dom s L i d Hl HdL) as (_ & _ & H0).
  wp_use wp_lru_del_locked; [exact Hl1 | done |]. intros _ s2 (L' & Hl2 & Hm2 & Ew2 & _ & Hk2).
  rewrite Ew1, insert_id in Ew2 by done.
  wp_use wp_lru_link_tail_locked; [exact Hl2 | done | | done | |].
  { intros j [_ ?]%Hm2. done. }
  { rewrite <- Ew2 in Hword. apply words_lookup_inv in Hword as (n' & ? & _). by eexists. }
  intros _ s3 (Hl3 & Ew3 & _ & Hk3). rewrite Ew2 in Ew3. split; rewrite ?Ew3; try done.
  - eexists. split; [exact Hl3 |]. intros j x. rewrite Ew3, <- Hw. destruct (decide (i = j)) as [<- | Hij].
    + rewrite fn_lookup_insert, elem_of_app, list_elem_of_singleton, Hm2.
      split; [intros [[? _] | ->]; done |]. intros Hx. destruct (decide (x = d)); [by right | by left].
    + rewrite fn_lookup_insert_ne, Hm2 by done. split; [by intros [? _] |]. intros Hx. split; [done |].
      intros ->. by destruct (ll_disj s L Hl i j d HdL Hx).
  - by rewrite Hk3, Hk2.
Qed.

(** ** The isolate pass *)

(** A batch of leaves, isolated. *)
Record batch_ok (w : world) (batch : list Z) : Prop := {
  ba_nodup : NoDup batch;
  ba_leaf : ∀ d, d ∈ batch → is_Some (ns w !! d) ∧ d ≠ w_root w ∧ kids (w_root w) (ns w) d = [];
}.

Lemma wp_one_load i s (Q : dc_lru_one → lru_state → Prop) :
  length (ls_one s) = DC_LRU_NODES → (i < DC_LRU_NODES)%nat →
  (∀ o, ls_one s !! i = Some o → Q o s) → wp (one_load i) Q s.
Proof.
  intros Hl Hi HQ. destruct (lookup_lt_is_Some_2 (ls_one s) i) as [o Ho]; [lia |].
  unfold wp, one_load. rewrite Ho. by apply HQ.
Qed.

Lemma mid_size i B r D N s : lru_mid i B r D N s → length (ls_one s) = DC_LRU_NODES.
Proof. intros [[L [Hl _]] _ _ _ _]. apply Hl. Qed.

Lemma list_to_set_snoc (l : list Z) d : list_to_set (C := gset Z) (l ++ [d]) = list_to_set l ∪ {[d]}.
Proof. rewrite list_to_set_app_L. simpl. by rewrite union_empty_r_L. Qed.

Lemma wp_isolate_loop i nr freed : ∀ left batch w,
  (i < DC_LRU_NODES)%nat → kids_ok (w_root w) (dom (w_core w)) (ns w) (w_kids w) →
  lru_mid i (list_to_set batch) (w_root w) (dom (w_core w)) (ns w) (w_lru w) → batch_ok w batch →
  (length batch ≤ DC_SHRINK_BATCH)%nat → freed + Z.of_nat (length batch) ≤ nr →
  wp (isolate_loop i nr freed left batch) (λ batch' w', ∃ s, w' = set_lru s w ∧
    lru_mid i (list_to_set batch') (w_root w) (dom (w_core w)) (ns w) s ∧ batch_ok w batch' ∧
    (length batch' ≤ DC_SHRINK_BATCH)%nat ∧ freed + Z.of_nat (length batch') ≤ nr) w.
Proof.
  induction left as [| left IH]; intros batch w Hi Hk Hm Hb Hlen Hnr; cbn [isolate_loop].
  { assert (∃ s, w = set_lru s w ∧ lru_mid i (list_to_set batch) (w_root w) (dom (w_core w)) (ns w) s) as (s & E & ?).
    { exists (w_lru w). by rewrite set_lru_id. }
    case_match; wp_step; exists s; done. }
  destruct ((length batch <? DC_SHRINK_BATCH)%nat && (freed + Z.of_nat (length batch) <? nr)) eqn:E.
  2:{ wp_step. exists (w_lru w). by rewrite set_lru_id. }
  apply andb_true_iff in E as [E1%Nat.ltb_lt E2%Z.ltb_lt].
  wp_step. apply wp_on_lru. apply wp_one_load; [by eapply mid_size | done |]. intros o Ho.
  rewrite set_lru_id. set (d := lo_head o). destruct (Z.eqb_spec d 0) as [| Hd0].
  { wp_step. exists (w_lru w). by rewrite set_lru_id. }
  destruct (mid_head _ _ _ _ _ _ o Hm Hi Ho Hd0) as (Hw & Hn & Hr & HB & HD). fold d in Hw, Hn, Hr, HB, HD.
  destruct (words_lookup_inv _ _ _ Hw) as (nd & Hnd & _).
  wp_step. apply wp_on_lru. eapply wp_lookup; [done |]. rewrite set_lru_id.
  destruct (l_referenced nd).
  - wp_step. apply wp_on_lru. wp_use (wp_mid_rotate i _ _ _ _ _ d nd); [exact Hm | done | done | done |].
    intros _ s Hs. wp_use (IH batch (set_lru s w)); [done | done | done | by destruct Hb | done | done |].
    intros b' w' (s' & -> & H1 & H2 & H3 & H4). exists s'. split_and!; try done; by destruct H2.
  - destruct (kids_empty _ _ _ _ d Hk HD) as (kd & Hkd & Hempty).
    wp_step. eapply wp_kid_at; [done |]. rewrite Hempty. case_bool_decide as Hleaf; simpl.
    + wp_step. apply wp_on_lru. wp_use (wp_mid_take i _ _ _ _ _ d DC_SEQ_LRU_SHRINK);
        [exact Hm | done | done | by right | done | done | done |].
      intros _ s Hs. rewrite Z.eqb_refl, <- list_to_set_snoc in Hs.
      wp_use (IH (batch ++ [d]) (set_lru s w)); [done | done | done | | | |].
      * destruct Hb as [Hb1 Hb2]. split.
        -- apply NoDup_app. split_and!; [done | | apply NoDup_singleton].
           intros x Hx ->%list_elem_of_singleton. apply HB. by apply elem_of_list_to_set.
        -- intros x [Hx | ->%list_elem_of_singleton]%elem_of_app; [by apply Hb2 | done].
      * rewrite length_app. simpl. lia.
      * rewrite length_app. simpl. lia.
      * intros b' w' (s' & -> & H1 & H2 & H3 & H4). exists s'. split_and!; try done; by destruct H2.
    + wp_step. apply wp_on_lru. wp_use (wp_mid_take i _ _ _ _ _ d DC_SEQ_LRU_OFF);
        [exact Hm | done | done | by left | done | done | done |].
      intros _ s Hs. wp_use (IH batch (set_lru s w)); [done | done | done | by destruct Hb | done | done |].
      intros b' w' (s' & -> & H1 & H2 & H3 & H4). exists s'. split_and!; try done; by destruct H2.
Qed.

(** ** The kill pass *)

(** The isolated set shrinks as its members die. *)
Lemma inv_isolated (B B' : gset Z) k w :
  @inv B k w → B' ⊆ B → (∀ d, d ∈ B → d ∉ B' → ns w !! d = None) → @inv B' k w.
Proof.
  intros [[? ? ? ? ? Hl ? ? ?] ? ? ? ? ?] Hsub Hdead. split; try done. split; try done.
  destruct Hl as [? ? ? Hiso Hw]. split; try done; [unfold isolated in *; set_solver |].
  intros d v Hv. specialize (Hw d v Hv). unfold word_ok, isolated in *.
  destruct (ns w !! d) eqn:E; [| done]. destruct (decide (d ∈ B')) as [H' | H'].
  - by rewrite decide_True in Hw by set_solver.
  - destruct (decide (d ∈ B)) as [H | H]; [| done]. by rewrite (Hdead d H H') in E.
Qed.

(** SHRINK to DEAD: the dentry is on no list. *)
Lemma wp_shrink_dead (B : gset Z) r D N s d n :
  @lru_inv B r D N s → N !! d = Some n → d ∈ B →
  wp (lnode_store d (set_lshard DC_SEQ_LRU_DEAD)) (λ _ s', @lru_inv B r D (delete d N) s') s.
Proof.
  intros [[L [Hl Hw]] Hf Hd Hiso Hwd] Hn HB.
  assert (d ∈ dom (words s)) as [v Hv]%elem_of_dom by (rewrite Hd; by apply Hiso).
  destruct (words_lookup_inv s d v Hv) as (nd & Hnd & Hsh).
  pose proof (Hwd d v Hv) as Hok. unfold word_ok, isolated in Hok. rewrite Hn, decide_True in Hok by done.
  destruct Hok as [-> Hr]. eapply wp_run; [by eapply lnode_store_ok |]. set (s' := LruState _ _).
  assert (words s' = <[d := DC_SEQ_LRU_DEAD]> (words s)) as Ew by (by eapply words_set_shard).
  assert (∀ j, d ∉ L j) as Hno.
  { eapply lrep_off; [by split | done |]. unfold DC_SEQ_LRU_SHRINK, DC_SEQ_LRU_ON, DC_LRU_NODES. lia. }
  split; rewrite ?Ew; try done.
  - exists L. eapply (lrep_unlinked s s' L L d); [by split | | | done |].
    + eapply llists_ext; [exact Hl | done | simpl; eauto |]. simpl. intros. by apply links_lru_alter.
    + intros j x. split; [| tauto]. intros Hx. split; [done |]. intros ->. by eapply Hno.
    + unfold DC_SEQ_LRU_DEAD, DC_SEQ_LRU_ON, DC_LRU_NODES. lia.
  - rewrite dom_insert_L, Hd. assert (d ∈ D) by (by apply Hiso). set_solver.
  - intros x z. unfold word_ok. destruct (decide (d = x)) as [<- | Hx].
    + rewrite lookup_insert_eq, lookup_delete_eq. by intros [= <-].
    + rewrite lookup_insert_ne, lookup_delete_ne by done. apply Hwd.
Qed.

(** An isolated leaf is killed. *)
Lemma wp_lru_kill (B : Isolated) k w d :
  @inv B k w → is_Some (ns w !! d) → d ≠ w_root w → kids (w_root w) (ns w) d = [] → d ∈ @isolated B →
  wp (lru_kill d) (λ ret w', ret = 0 ∧ @inv B k w' ∧ ns w' = delete d (ns w) ∧ w_root w' = w_root w) w.
Proof.
  intros Hi [n Hn] Hr Hk HB. pose proof Hn as (c & Hc & Hu & ->)%ns_lookup.
  assert (d ∈ dom (w_core w)) as HD by (apply elem_of_dom; by eexists).
  destruct (tree_parent _ _ _ _ (inv_tree w Hi) Hn) as [pn Hpn]. simpl in Hpn.
  assert (dparent_of c ≠ 0) as Hp0 by (eapply inv_ne_0; [exact Hi | by eexists]).
  pose proof (parent_ne _ _ _ _ (inv_tree w Hi) Hn Hr) as Hpne. simpl in Hpne.
  assert (dparent_of c ∈ dom (w_core w)) as HpD by (apply ns_dom; by eexists).
  unfold lru_kill. unfold rcu_read_lock. wp_step. wp_step. pose proof (inv_enter k w Hi) as Hi1.
  set (w1 := set_nest _ w) in *. wp_step. eapply wp_core_at; [done |]. cbn zeta.
  destruct (Z.eqb_spec (dparent_of c) 0); [done |]. destruct (Z.eqb_spec (dparent_of c) d); [done |]. simpl.
  wp_step. unfold bucket_of. wp_step. wsimpl. set (b := bucket_no _ _ _).
  assert (b < Z.to_nat (w_mask w + 1))%nat as Hb by apply bucket_lt, Hi.
  eapply (wp_enter k b (lock1 (dparent_of c))); [exact Hi1 | by apply locking1 | done |].
  intros h w2 Hs. wp_step. eapply wp_core_at; [done |].
  destruct (kids_empty _ _ _ _ d (inv_kids w2 Hs) HD) as (kd & Hkd & Hempty).
  rewrite bool_decide_true in Hempty by done.
  wp_step. eapply wp_kid_at; [done |]. rewrite Z.eqb_refl, Hu, Hempty. simpl. wp_step.
  eapply wp_mono; [eapply (wp_kill k b _ w2 d c (dparent_of c)); [exact Hs | done | done | done | done |] |].
  { eapply wp_shrink_dead; [apply Hs | exact Hn | done]. }
  intros ret w3 Hpost. pose proof (sp_ret _ _ _ _ _ _ _ Hpost) as ->. simpl.
  eapply wp_leave; [apply Hpost | | by rewrite (sp_mask _ _ _ _ _ _ _ Hpost) |].
  - apply unlocking1. by apply (sp_dom _ _ _ _ _ _ _ Hpost).
  - intros h' w4 Hi4. wp_step. split_and!; [done | done | |].
    + exact (sp_ns _ _ _ _ _ _ _ Hpost).
    + exact (sp_root _ _ _ _ _ _ _ Hpost).
Qed.

Lemma without_kids r N d x : kids r N x = [] → kids r (delete d N) x = [].
Proof.
  rewrite !kids_nil. intros H y n Hy Hn. apply lookup_delete_Some in Hn as [_ Hn]. by eapply H.
Qed.

(** What a shrinker pass promises: it removed exactly the dentries in [K], never
    the root. *)
Record shrunk (k : nat) (w : world) (K : gset Z) (w' : world) : Prop := {
  sk_inv : @inv (∅ : gset Z) k w';
  sk_ns : ns w' = without K (ns w);
  sk_sub : K ⊆ dom (ns w);
  sk_root : w_root w' = w_root w;
}.

Lemma shrunk_refl k w : @inv (∅ : gset Z) k w → shrunk k w ∅ w.
Proof. intros Hi. split; try done. by rewrite without_empty. Qed.

Lemma shrunk_trans k w K w' K' w'' :
  shrunk k w K w' → shrunk k w' K' w'' → shrunk k w (K ∪ K') w'' ∧ size (K ∪ K') = (size K + size K')%nat.
Proof.
  intros [H1 H2 H3 H4] [H1' H2' H3' H4'].
  assert (∀ x, x ∈ K' → x ∉ K ∧ x ∈ dom (ns w)) as Hout.
  { intros x Hx. apply H3', elem_of_dom in Hx as [n Hn]. rewrite H2 in Hn.
    apply map_lookup_filter_Some in Hn as [Hn Hx]. split; [done |]. apply elem_of_dom. by eexists. }
  split.
  - split; [done | by rewrite H2', H2, without_without | | congruence].
    apply union_least; [done |]. intros x Hx. by apply Hout.
  - apply size_union. intros x Hx Hx'. by apply (Hout x Hx').
Qed.

Lemma shrunk_size k w K w' : shrunk k w K w' → size (ns w) = (size K + size (ns w'))%nat.
Proof.
  intros [_ H2 H3 _]. rewrite <- !size_dom. assert (dom (ns w') = dom (ns w) ∖ K) as ->.
  { apply set_eq. intros x. rewrite elem_of_difference, !elem_of_dom, H2. unfold is_Some.
    setoid_rewrite map_lookup_filter_Some. simpl. naive_solver. }
  assert (size (dom (ns w)) = size (K ∪ dom (ns w) ∖ K)) as -> by (f_equal; by apply union_difference_L).
  by rewrite size_union by set_solver.
Qed.

Lemma wp_kill_loop (B : Isolated) k : ∀ batch f w,
  @inv B k w → batch_ok w batch → (∀ d, d ∈ batch → d ∈ @isolated B) →
  wp (kill_loop batch f) (λ f' w', @inv B k w' ∧ f' = f + Z.of_nat (length batch) ∧
    ns w' = without (list_to_set batch) (ns w) ∧ w_root w' = w_root w) w.
Proof.
  induction batch as [| d batch IH]; intros f w Hi Hb HB; cbn [kill_loop].
  { wp_step. split_and!; [done | simpl; lia | by rewrite without_empty | done]. }
  destruct Hb as [[Hnin Hnd]%NoDup_cons Hleaf]. destruct (Hleaf d) as (Hn & Hr & Hk); [by left |].
  wp_step. wp_use (wp_lru_kill B k); [done | done | done | done | apply HB; by left |].
  intros ret w1 (-> & Hi1 & E1 & Er1). simpl.
  wp_use (IH (f + 1) w1); [done | | set_solver |].
  - split; [done |]. intros x Hx. assert (x ≠ d) by congruence.
    destruct (Hleaf x) as (? & ? & ?); [by right |].
    rewrite E1, Er1, lookup_delete_ne by done. split_and!; try done. by apply without_kids.
  - intros f' w2 (Hi2 & -> & E2 & Er2). split_and!; [done | simpl; lia | | congruence].
    rewrite E2, E1. rewrite <- (without_empty (ns w)) at 1. rewrite without_delete, without_without.
    f_equal. simpl. by rewrite union_empty_l_L.
Qed.

(** One round on shard [i]: the batch is isolated, then killed. *)
Lemma wp_shrink_round {A} (i : nat) nr f k w budget (m : list Z → Z → M A) Q :
  @inv (∅ : gset Z) k w → (i < DC_LRU_NODES)%nat → f ≤ nr →
  (∀ batch f' w' K, shrunk k w K w' → size K = length batch → f' = f + Z.of_nat (length batch) →
     f' ≤ nr → wp (m batch f') Q w') →
  wp (on_lru (lru_lock i) ;;;
      let! batch := isolate_loop i nr f budget [] in
      on_lru (lru_unlock i) ;;;
      let! f' := kill_loop batch f in m batch f') Q w.
Proof.
  intros Hi Hs Hf HQ. wp_step. apply wp_on_lru.
  wp_use (wp_mid_lock i ∅); [apply Hi | done |]. intros _ s1 H1. wp_step.
  wp_use (wp_isolate_loop i nr f budget [] (set_lru s1 w));
    [done | apply Hi | exact H1 | split; [constructor | set_solver] | simpl; lia | simpl; lia |].
  intros batch w2 (s2 & -> & H2 & Hb & Hlen & Hnr). wp_step. apply wp_on_lru. wsimpl.
  wp_use (wp_mid_unlock i); [exact H2 | done |]. intros _ s3 H3.
  change (set_lru s3 (set_lru s2 (set_lru s1 w))) with (set_lru s3 w).
  assert (@inv (list_to_set batch : gset Z) k (set_lru s3 w)) as Hi3.
  { destruct Hi as [[]]. split; try done. }
  wp_step. wp_use (wp_kill_loop (list_to_set batch : gset Z) k batch f (set_lru s3 w));
    [done | by destruct Hb | intros d; unfold isolated; by rewrite elem_of_list_to_set |].
  intros f' w4 (Hi4 & -> & E4 & Er4).
  assert (∀ d, d ∈ (list_to_set batch : gset Z) → d ∈ dom (ns w) ∧ ns w4 !! d = None) as Hbatch.
  { intros d Hd. split.
    - apply elem_of_dom, (ba_leaf _ _ Hb). by apply elem_of_list_to_set in Hd.
    - rewrite E4. apply map_lookup_filter_None. right. intros v _ Hn. done. }
  apply (HQ _ _ _ (list_to_set batch)); try done.
  - split; [| done | intros d Hd; by apply Hbatch | done].
    eapply inv_isolated; [exact Hi4 | set_solver |]. intros d Hd _. by apply Hbatch.
  - apply size_list_to_set, Hb.
Qed.

(** The rounds on a shard end: every full batch leaves fewer dentries. *)
Lemma wp_shrink_shard i nr k : ∀ fuel f w,
  @inv (∅ : gset Z) k w → (i < DC_LRU_NODES)%nat → f ≤ nr → (size (ns w) < fuel)%nat →
  wp (shrink_shard fuel i nr f) (λ f' w', ∃ K, shrunk k w K w' ∧ f' = f + Z.of_nat (size K) ∧ f' ≤ nr) w.
Proof.
  induction fuel as [| fuel IH]; intros f w Hi Hs Hf Hfuel; [lia |]. cbn [shrink_shard].
  wp_step. apply wp_on_lru. apply wp_one_load; [| done |].
  { destruct (lo_ok _ _ _ _ (inv_lru w Hi)) as [L [Hl _]]. apply Hl. }
  intros o _. rewrite set_lru_id. apply (wp_shrink_round i nr f k); [done | done | done |].
  intros batch f' w' K HK Hsz -> Hnr. case_decide as Hfull.
  2:{ wp_step. exists K. by rewrite Hsz. }
  case_match; [| wp_step; exists K; by rewrite Hsz].
  pose proof (shrunk_size _ _ _ _ HK) as Hsize.
  wp_use (IH (f + Z.of_nat (length batch)) w'); [apply HK | done | lia | unfold DC_SHRINK_BATCH in *; lia |].
  intros f'' w'' (K' & HK' & -> & Hnr'). destruct (shrunk_trans _ _ _ _ _ _ HK HK') as [HKK E].
  exists (K ∪ K'). split_and!; [done | rewrite E; lia | done].
Qed.

Lemma size_ns w : (size (ns w) ≤ size (w_core w))%nat.
Proof.
  rewrite <- !size_dom. apply subseteq_size. intros d Hd. apply elem_of_dom in Hd. by apply ns_dom.
Qed.

Lemma wp_shrink_shards nr k : ∀ n i f w,
  @inv (∅ : gset Z) k w → (i + n ≤ DC_LRU_NODES)%nat → f ≤ nr →
  wp (shrink_shards n i nr f) (λ f' w', ∃ K, shrunk k w K w' ∧ f' = f + Z.of_nat (size K) ∧ f' ≤ nr) w.
Proof.
  induction n as [| n IH]; intros i f w Hi Hin Hf; cbn [shrink_shards].
  { wp_step. exists ∅. rewrite size_empty. split_and!; [by apply shrunk_refl | lia | done]. }
  case_match.
  2:{ wp_step. exists ∅. rewrite size_empty. split_and!; [by apply shrunk_refl | lia | done]. }
  wp_step. wp_step. wp_step. wp_use (wp_shrink_shard i nr k); [done | lia | done | pose proof (size_ns w); lia |].
  intros f' w' (K & HK & -> & Hnr). wp_use (IH (S i)); [apply HK | lia | done |].
  intros f'' w'' (K' & HK' & -> & Hnr'). destruct (shrunk_trans _ _ _ _ _ _ HK HK') as [HKK E].
  exists (K ∪ K'). split_and!; [done | rewrite E; lia | done].
Qed.

(** Both entry points of the shrinker. *)
Lemma wp_dc_shrink k w nr :
  @inv (∅ : gset Z) k w →
  wp (dc_shrink nr) (λ f w', ∃ K, shrunk k w K w' ∧ f = Z.of_nat (size K) ∧ f ≤ Z.max 0 nr) w.
Proof.
  intros Hi. unfold dc_shrink. case_match.
  - wp_step. exists ∅. rewrite size_empty. split_and!; [by apply shrunk_refl | lia | lia].
  - unfold lru_shrink_nodes. wp_use (wp_shrink_shards nr k); [done | lia | lia |].
    intros f w' (K & HK & -> & Hnr). exists K. split_and!; [done | lia | lia].
Qed.

Lemma wp_dc_shrink_local k w nr :
  @inv (∅ : gset Z) k w →
  wp (dc_shrink_local nr) (λ f w', ∃ K, shrunk k w K w' ∧ f = Z.of_nat (size K) ∧ f ≤ Z.max 0 nr) w.
Proof.
  intros Hi. unfold dc_shrink_local. wp_step. wp_step. cbn zeta. case_match.
  - wp_step. exists ∅. rewrite size_empty. split_and!; [by apply shrunk_refl | lia | lia].
  - unfold lru_shrink_nodes. wp_use (wp_shrink_shards nr k); [done | | lia |].
    + pose proof (lru_nid_lt (w_node w)). lia.
    + intros f w' (K & HK & -> & Hnr). exists K. split_and!; [done | lia | lia].
Qed.
