(* ===== verification/LruCheck.v ===== *)
(** The LRU's own audit finds nothing wrong in a coherent world, and the count of
    the LRU is the number of dentries whose membership word says they are on. *)

From S2P Require Import Prelude Qstr HList HashTab Children Lru Seqcount World Walk Ops Reclaim.
From S2P Require Import Namespace TreeOps Inv Parts WalkSpec ShrinkSpec.

Section check.
  Context {ISO : Isolated}.

Lemma word_on_alive r D N s d i :
  lru_inv r D N s → words s !! d = Some (DC_SEQ_LRU_ON i) → (i < DC_LRU_NODES)%nat → is_Some (N !! d).
Proof.
  intros Hl Hw Hi. pose proof (lo_word _ _ _ _ Hl d _ Hw) as Hok. unfold word_ok in Hok.
  destruct (N !! d); [by eexists |]. unfold DC_SEQ_LRU_ON, DC_SEQ_LRU_DEAD, DC_LRU_NODES in *. lia.
Qed.

Lemma wp_lru_check_list w i l : ∀ left d prev n bad,
  coherent w → hseg (ls_node (w_lru w)) prev d l → (length l ≤ left)%nat →
  (∀ x, x ∈ l → words (w_lru w) !! x = Some (DC_SEQ_LRU_ON i)) → (i < DC_LRU_NODES)%nat →
  wp (lru_check_list left i d prev n bad)
     (λ r w', w' = w ∧ r = (n + Z.of_nat (length l), default prev (last l), bad)) w.
Proof.
  induction l as [| x l IH]; intros left d prev n bad Hc Hs Hlen Hw Hi.
  { simpl in Hs. subst d. destruct left; cbn; (split; [done |]); repeat f_equal; lia. }
  destruct left as [| left]; [simpl in Hlen; lia |]. destruct Hs as (-> & Hx & nd & Hnd & Hpp & Hs).
  cbn [lru_check_list]. destruct (Z.eqb_spec x 0); [done |].
  assert (words (w_lru w) !! x = Some (DC_SEQ_LRU_ON i)) as Hwx by (apply Hw; left).
  destruct (word_on_alive _ _ _ _ x i (inv_lru w Hc) Hwx Hi) as [m (c & Hcx & Hu & _)%ns_lookup].
  rewrite (words_lookup _ _ _ Hnd) in Hwx. injection Hwx as Hsh.
  wp_step. apply wp_on_lru. eapply wp_lookup; [done |]. rewrite set_lru_id. wp_step.
  rewrite Hsh, Z.eqb_refl. simpl. wp_step. eapply wp_core_at; [done |]. wp_step. rewrite Hu. simpl in Hpp.
  rewrite Hpp, Z.eqb_refl. simpl.
  wp_use (IH left (l_next nd) x (n + 1) bad); [done | done | simpl in Hlen; lia | | done |].
  { intros y Hy. apply Hw. by right. }
  intros r w' [-> ->]. split; [done |].
  assert (default x (last l) = default prev (last (x :: l))) as ->
    by (rewrite last_cons; by destruct (last l)).
  replace (n + 1 + Z.of_nat (length l)) with (n + Z.of_nat (length (x :: l))) by (simpl; lia). done.
Qed.

Lemma w64_id n : 0 ≤ n < 2 ^ 64 → w64 n = n.
Proof. unfold w64. apply Z.mod_small. Qed.

Lemma words_length s d l D :
  lru_ok s → dom (words s) = D → NoDup l → (∀ x, x ∈ l → x ∈ dom (words s)) → d = length l → (d ≤ size D)%nat.
Proof.
  intros _ <- Hnd Hin ->. rewrite <- (size_list_to_set (C := gset Z) l Hnd). apply subseteq_size.
  intros x Hx%elem_of_list_to_set. by apply Hin.
Qed.

Lemma shard_small w i o L :
  coherent w → Z.of_nat (size (w_core w)) < 2 ^ 64 → lrep (w_lru w) L → ls_one (w_lru w) !! i = Some o →
  lo_nr_items o = Z.of_nat (length (L i)).
Proof.
  intros Hc Hsz [Hl Hw] Ho. destruct (ll_one _ _ Hl i o Ho) as (Hs & _ & ->). apply w64_id.
  pose proof (words_length (w_lru w) (length (L i)) (L i) _ (lo_ok _ _ _ _ (inv_lru w Hc)) eq_refl) as H.
  rewrite (lo_dom _ _ _ _ (inv_lru w Hc)), size_dom in H.
  assert (length (L i) ≤ size (w_core w))%nat; [| lia]. apply H; [by eapply hseg_nodup | | done].
  intros x Hx. apply Hw in Hx as [Hx _]. rewrite <- (lo_dom _ _ _ _ (inv_lru w Hc)). apply elem_of_dom. by eexists.
Qed.

Lemma wp_lru_check_shards w : ∀ k i,
  coherent w → Z.of_nat (size (w_core w)) < 2 ^ 64 → (i + k ≤ DC_LRU_NODES)%nat →
  wp (lru_check_shards k i 0) (λ bad w', bad = 0 ∧ w' = w) w.
Proof.
  induction k as [| k IH]; intros i Hc Hsz Hik; cbn [lru_check_shards]; [by wp_step |].
  destruct (lo_ok _ _ _ _ (inv_lru w Hc)) as [L HL]. pose proof HL as [Hl Hw].
  wp_step. unfold lru_check_shard. wp_step. apply wp_on_lru. apply wp_one_load; [apply Hl | lia |]. intros o Ho.
  rewrite set_lru_id. destruct (ll_one _ _ Hl i o Ho) as (Hs & Ht & _).
  rewrite (shard_small w i o L) by done. cbn zeta.
  wp_step. wp_use (wp_lru_check_list w i (L i)); [done | exact Hs | lia | | lia |].
  { intros x Hx. by apply Hw. }
  intros r w' [-> ->]. wp_step. rewrite Ht. unfold last_or_null.
  rewrite Z.add_0_l, !Z.eqb_refl. simpl. by apply IH; [| | lia].
Qed.

(** The audit. *)
Lemma wp_dc_lru_check w :
  coherent w → Z.of_nat (size (w_core w)) < 2 ^ 64 → wp dc_lru_check (λ bad w', bad = 0 ∧ w' = w) w.
Proof. intros Hc Hsz. apply wp_lru_check_shards; [done | done | lia]. Qed.

(** All the lists, one after the other. *)
Definition listed (L : nat → list Z) (n : nat) : list Z := seq 0 n ≫= L.

Lemma listed_S L n : listed L (S n) = listed L n ++ L n.
Proof. unfold listed. rewrite seq_S, bind_app. simpl. by rewrite app_nil_r. Qed.

Lemma elem_of_listed L n d : d ∈ listed L n ↔ ∃ i, (i < n)%nat ∧ d ∈ L i.
Proof.
  unfold listed. rewrite list_elem_of_bind. setoid_rewrite elem_of_seq. split; intros (i & ? & ?); exists i.
  - split; [lia | done].
  - split; [done | lia].
Qed.

Lemma listed_nodup s L n : llists s L → (n ≤ DC_LRU_NODES)%nat → NoDup (listed L n).
Proof.
  intros Hl. induction n as [| n IH]; intros Hn; [constructor |]. rewrite listed_S. apply NoDup_app.
  split_and!; [apply IH; lia | |].
  - intros d (i & Hi & Hd)%elem_of_listed Hd'. pose proof (ll_disj _ _ Hl i n d Hd Hd'). lia.
  - destruct (llists_lookup s L n Hl) as (o & _ & Hs & _); [lia |]. by eapply hseg_nodup.
Qed.

Lemma count_listed s L : llists s L → ∀ n, (n ≤ DC_LRU_NODES)%nat →
  foldl (λ k o, w64 (k + lo_nr_items o)) 0 (take n (ls_one s)) = w64 (Z.of_nat (length (listed L n))).
Proof.
  intros Hl n. induction n as [| n IH]; intros Hn; [done |].
  destruct (llists_lookup s L n Hl) as (o & Ho & _ & _ & Hk); [lia |].
  rewrite (take_S_r _ _ _ Ho), foldl_snoc, IH by lia. rewrite Hk, listed_S, length_app. unfold w64.
  rewrite <- Zplus_mod. f_equal. lia.
Qed.

(** The dentries whose word says ON. *)
Definition on_words (s : lru_state) : gmap Z Z := filter (λ x, DC_SEQ_LRU_IS_ON x.2 = true) (words s).

Lemma dc_lru_count_spec w :
  coherent w → Z.of_nat (size (w_core w)) < 2 ^ 64 →
  dc_lru_count (w_lru w) = Z.of_nat (size (on_words (w_lru w))).
Proof.
  intros Hc Hsz. destruct (lo_ok _ _ _ _ (inv_lru w Hc)) as [L [Hl Hw]]. unfold dc_lru_count.
  pose proof (count_listed _ _ Hl DC_LRU_NODES (le_n _)) as E.
  rewrite take_ge in E by (rewrite (ll_size _ _ Hl); done). rewrite E.
  set (ds := listed L DC_LRU_NODES). assert (NoDup ds) as Hnd by (by eapply listed_nodup).
  assert (list_to_set ds = dom (on_words (w_lru w))) as Eset.
  { apply set_eq. intros d. rewrite elem_of_list_to_set. unfold ds. rewrite elem_of_listed.
    rewrite elem_of_dom. unfold is_Some, on_words. setoid_rewrite map_lookup_filter_Some. simpl. split.
    - intros (i & Hi & Hd). apply Hw in Hd as [Hd _]. exists (DC_SEQ_LRU_ON i). split; [done |].
      by apply is_on_spec.
    - intros (v & Hv & Hon). apply is_on_inv in Hon as (i & -> & Hi);
        [| eapply word_nonneg; by apply (lo_word _ _ _ _ (inv_lru w Hc))].
      exists i. split; [done |]. by apply Hw. }
  assert (length ds = size (on_words (w_lru w))) as El.
  { rewrite <- (size_dom (on_words _)), <- Eset. symmetry. by apply size_list_to_set. }
  rewrite El. apply w64_id. split; [lia |].
  assert (size (on_words (w_lru w)) ≤ size (w_core w))%nat; [| lia].
  rewrite <- !size_dom, <- (lo_dom _ _ _ _ (inv_lru w Hc)). apply subseteq_size. apply dom_filter_subseteq.
Qed.

End check.
