(* ===== verification/Scene.v ===== *)
(** A small concrete dcache, built with the modelled operations, on which the
    witnesses evaluate: directories /a and /b, a file /a/x, a negative entry /n. *)

From S2P Require Import Prelude Qstr HList HashTab Children Lru Seqcount World Walk Ops Reclaim.
From S2P Require Import Namespace TreeOps Inv Parts WalkSpec OpsSpec Lifecycle.

#[export] Existing Instance top_alloc.

(** [P s] is the path buffer after parsing the string [s]. *)
Definition P (s : list Z) : dc_path := snd (dc_path_parse path0 s).

Definition p_a : dc_path := P [47; 97].
Definition p_b : dc_path := P [47; 98].
Definition p_n : dc_path := P [47; 110].
Definition p_ax : dc_path := P [47; 97; 47; 120].
Definition p_ay : dc_path := P [47; 97; 47; 121].
Definition p_bx : dc_path := P [47; 98; 47; 120].
Definition p_ba : dc_path := P [47; 98; 47; 97].
Definition p_bax : dc_path := P [47; 98; 47; 97; 47; 120].

Lemma P_wf s : cstring s → path_fits (components s) → path_wf (P s) ∧ pnames (P s) = components s.
Proof.
  intros Hs Hf. destruct path0_sizes as [H1 H2]. unfold P, dc_path_parse.
  destruct (parse_loop_spec s [] (dc_path_reset path0)) as [H _];
    [done | by apply not_elem_of_nil | unfold fits, DC_NAME_MAX; simpl; lia
     | by apply path_reset_store |].
  destruct H as (p' & E & Hp & Hn); [exact Hf |]. rewrite E. split; [apply Hp | exact Hn].
Qed.

Ltac path_by_decide :=
  match goal with
  | |- path_wf (P ?s) => apply (P_wf s); by_decide
  | |- path_wf ?p => unfold p; path_by_decide
  end.

Definition scene0 : world :=
  match dc_create true true 3 qstr_zero 5 with Ok (Some w) => w | _ => dcache0 0 1 end.

Definition scene_prog : M unit :=
  dc_add p_a 1 ;;; dc_add p_b 2 ;;; dc_add_file p_ax 3 ;;; dc_add_negative p_n ;;; st_ret tt.

Definition scene : world :=
  match scene_prog scene0 with Ok (_, w) => w | Err _ => scene0 end.

Lemma scene0_inv : inv 0 scene0.
Proof.
  destruct (dc_create_inv 3 qstr_zero 5 64) as (w & b & E & Hi & _).
  - lia.
  - done.
  - by vm_compute.
  - unfold scene0. by rewrite E.
Qed.

Lemma scene_inv : inv 0 scene.
Proof.
  assert (wp scene_prog (λ _ w, inv 0 w) scene0) as H.
  { pose proof scene0_inv as H0. unfold scene_prog. unfold dc_add, dc_add_file, dc_add_negative.
    do 4 (wp_step; wp_use (wp_dc_add 0); [eassumption | path_by_decide |];
      let w := fresh "w" in let H := fresh "H" in intros ? w [H _ _ _ _]; clear H0; rename H into H0).
    wp_step. done. }
  apply wp_inv in H as (? & w & E & Hi). unfold scene. by rewrite E.
Qed.

Lemma scene_root : w_root scene = 64.
Proof. by vm_compute. Qed.
