(* ===== verification/Engine.v ===== *)
(** The promises of the seqlock engine, operation by operation: each mutator
    refines its specification on the abstract name space, each read answers from
    it, and what that means for paths. *)

From S2P Require Import Prelude Qstr HList HashTab Children Lru Seqcount World Walk Ops Reclaim.
From S2P Require Import Namespace TreeOps Inv Parts WalkSpec OpsSpec RenameSpec Lifecycle Paths.
From S2P Require Import Moves.
From S2P Require Import ReadSpec ShrinkSpec LruCheck Scene.

(** [returns m w Q]: the call does not fault, and its result and the world it
    leaves satisfy [Q]. *)
Definition returns {A} (m : M A) (w : world) (Q : A → world → Prop) : Prop :=
  ∃ a w', m w = Ok (a, w') ∧ Q a w'.

Lemma wp_returns {A} (m : M A) w Q : wp m Q w → returns m w Q.
Proof. apply wp_inv. Qed.

(** What a path leads to. *)
Definition at_path (w : world) (names : list (list Z)) : option Z :=
  nwalk (w_root w) (ns w) (w_root w) names.

(** Two results of the same call are the same. *)
Lemma returns_det {A} (m : M A) w Q a w' : returns m w Q → m w = Ok (a, w') → Q a w'.
Proof. intros (a1 & w1 & E & HQ) E'. congruence. Qed.

(** ** The mutators *)

Section mutators.
  Context `{MemalignOk}.

(** C2: [dc_add] and its variants (directory or file, positive or negative):
    from any coherent world the call returns with every lock released; code and
    name space are those of the specification, and every branch (existing name,
    missing or negative or non-directory parent, no memory) is covered. *)
Theorem dc_add_refines k w path id isdir pos :
  inv k w → path_wf path →
  returns (dc_add_typed_state path id isdir pos) w
    (op_post k w (spec_add (w_root w) (posix_memalign (dom (w_core w))) (pnames path) id isdir pos (ns w))).
Proof. intros. by apply wp_returns, wp_dc_add. Qed.

(** C9: what was added is found: after a successful [dc_add] the path resolves to
    the new dentry, in the state it was added in, and every path that resolved
    before resolves to the same dentry. *)
Theorem dc_add_then_lookup k w path id isdir pos w' :
  inv k w → path_wf path → dc_add_typed_state path id isdir pos w = Ok (0, w') →
  ∃ d, posix_memalign (dom (w_core w)) = Some d ∧
    dc_lookup path w' = Ok ((if pos then (DC_POSITIVE, Some d) else (DC_NEGATIVE, None)), w') ∧
    ∀ names x, at_path w names = Some x → at_path w' names = Some x.
Proof.
  intros Hi Hp Ha. pose proof (returns_det _ _ _ _ _ (wp_returns _ _ _ (wp_dc_add k w path id isdir pos Hi Hp)) Ha) as Hop.
  destruct Hop as [Hi' Hret Hns Hr _]. unfold spec_add in *.
  destruct (split_last (pnames path)) as [[dirn nm] |] eqn:Es; [| done]. apply split_last_Some in Es.
  destruct (nwalk _ _ _ dirn) as [p |] eqn:Ep; [| done]. destruct (ns w !! p) as [pn |] eqn:Hpn; [| done].
  destruct (n_dir pn); [| done]. destruct (n_pos pn); [| done]. simpl in Hns, Hret.
  destruct (child _ _ p nm) eqn:Ec; [done |].
  destruct (posix_memalign _) as [d |] eqn:Ed; [| done]. simpl in Hns. exists d. split; [done |].
  assert (ns w !! d = None) as Hfresh.
  { destruct (ns w !! d) eqn:E; [| done]. apply memalign_fresh in Ed. destruct Ed. apply ns_dom. by eexists. }
  assert (∀ names x, at_path w names = Some x → at_path w' names = Some x) as Hkeep.
  { intros names x Hx. unfold at_path in *. rewrite Hr.
    pose proof (npath_nwalk _ _ (inv_tree w Hi) names x Hx) as <-.
    assert (is_Some (ns w !! x)) as Hxs by (eapply nwalk_dom; [| exact Hx]; by apply inv_root).
    destruct (t_up _ _ (inv_tree w Hi) x Hxs) as [l Hl].
    eapply nwalk_frame; [apply Hi | rewrite <- Hr; apply Hi' | exact Hl |].
    intros y Hy _. rewrite Hns, lookup_insert_ne; [done |]. intros ->.
    assert (is_Some (ns w !! y)) as [? ?] by (eapply upto_dom; [by apply inv_root | exact Hl | done]). congruence. }
  split; [| exact Hkeep].
  destruct (wp_inv _ _ _ (wp_dc_lookup k w' path Hi' Hp)) as (r & w2 & E & -> & ->). rewrite E. do 2 f_equal.
  rewrite Es, nwalk_snoc. specialize (Hkeep dirn p Ep). unfold at_path in Hkeep. rewrite Hkeep. simpl.
  assert (child (w_root w') (ns w') p nm = Some d) as ->.
  { apply child_Some; [apply Hi' |]. split; [| exists (Node p nm id isdir pos); by rewrite Hns, lookup_insert_eq].
    rewrite Hr. intros ->. destruct (inv_root w Hi) as [[? ?] _]. congruence. }
  simpl. unfold state_of. rewrite Hns, lookup_insert_eq. simpl. by destruct pos.
Qed.

End mutators.

(** [dc_instantiate] turns a negative entry positive with the given id, and
    answers -EEXIST or -ENOENT otherwise. *)
Theorem dc_instantiate_refines k w path id :
  inv k w → path_wf path →
  returns (dc_instantiate path id) w (op_post k w (spec_instantiate (w_root w) (pnames path) id (ns w))).
Proof. intros. by apply wp_returns, wp_dc_instantiate. Qed.

(** [dc_delete] turns a positive entry negative in place, unless it is a
    directory with children. *)
Theorem dc_delete_refines k w path :
  inv k w → path_wf path →
  returns (dc_delete path) w (op_post k w (spec_delete (w_root w) (pnames path) (ns w))).
Proof. intros. by apply wp_returns, wp_dc_delete. Qed.

(** C5: [dc_unlink] takes a leaf out of the name space. *)
Theorem dc_unlink_refines k w path :
  inv k w → path_wf path →
  returns (dc_unlink path) w (op_post k w (spec_unlink (w_root w) (pnames path) (ns w))).
Proof. intros. by apply wp_returns, wp_dc_unlink. Qed.

(** C3: [dc_rename] into a directory moves a dentry, with everything below it, onto a
    free or a negative name; it refuses a positive target, a move below itself and a
    missing or negative parent.  A move also advances rename_lock's sequence.  That a
    destination parent that exists is a directory is up to the caller: the code does not
    check it, and the invariant is lost without it. *)
Theorem dc_rename_refines k w from to :
  inv k w → path_wf from → path_wf to → dest_is_dir (w_root w) (ns w) (pnames to) →
  returns (dc_rename from to) w
    (rename_post k w (spec_rename (w_root w) (pnames from) (pnames to) (ns w))).
Proof. intros. by apply wp_returns, wp_dc_rename. Qed.

(** [dc_rename_exchange] swaps the places of two dentries, neither of which
    is an ancestor of the other. *)
Theorem dc_rename_exchange_refines k w a b :
  inv k w → path_wf a → path_wf b →
  returns (dc_rename_exchange a b) w
    (op_post k w (spec_exchange (w_root w) (pnames a) (pnames b) (ns w))).
Proof. intros. by apply wp_returns, wp_dc_rename_exchange. Qed.

(** ** Paths across a move *)

(** C4: after a successful [dc_rename] into a directory every path below the new name
    leads where the same path below the old name led, nothing is left at the old name,
    and a path that went through neither the source nor a dropped negative target is
    untouched. *)
Theorem dc_rename_moves_subtree k w from to w' :
  inv k w → path_wf from → path_wf to → dest_is_dir (w_root w) (ns w) (pnames to) →
  dc_rename from to w = Ok (0, w') →
  (∀ s, at_path w' (pnames to ++ s) = at_path w (pnames from ++ s)) ∧
  at_path w' (pnames from) = None ∧
  (∀ names d v, at_path w (pnames from) = Some v → at_path w names = Some d →
     subdir (w_root w) (ns w) d v = false → at_path w (pnames to) ≠ Some d →
     at_path w' names = Some d ∧ ns w' !! d = ns w !! d).
Proof.
  intros Hi Hf Ht Hd E.
  destruct (returns_det _ _ _ _ _ (wp_returns _ _ _ (wp_dc_rename k w from to Hi Hf Ht Hd)) E) as [[Hi' Hret Hns Hr _] _].
  assert (spec_rename (w_root w) (pnames from) (pnames to) (ns w) = (0, ns w')) as Hs
    by (rewrite Hns, Hret; by destruct (spec_rename _ _ _ _)).
  destruct (spec_rename_facts _ _ _ _ _ (inv_tree w Hi) Hs) as (v & vn & tp & tnm & dead & HF).
  unfold at_path. rewrite Hr. assert (tree (w_root w) (ns w')) as Ht' by (rewrite <- Hr; apply Hi').
  split_and!.
  - intros s. by eapply (rename_moves _ _ _ _ _ v vn tp tnm dead (inv_tree w Hi) (inv_typed w Hi) Ht').
  - by eapply (rename_vacates _ _ _ _ _ v vn tp tnm dead (inv_tree w Hi) (inv_typed w Hi) Ht').
  - intros names d v' Hv' Hw Hsub Hto. rewrite (rf_from _ _ _ _ _ _ _ _ _ _ HF) in Hv'. injection Hv' as <-.
    assert (is_Some (ns w !! d)) as Hds by (eapply nwalk_dom; [| exact Hw]; by apply inv_root).
    destruct (t_up _ _ (inv_tree w Hi) d Hds) as [l Hl].
    eapply (rename_keeps _ _ _ _ _ v vn tp tnm dead (inv_tree w Hi) (inv_typed w Hi) Ht' HF); [done | exact Hl | |].
    + rewrite (subdir_spec _ _ d v l (inv_tree w Hi) Hl) in Hsub. by apply bool_decide_eq_false in Hsub.
    + intros ->. destruct (rf_dead _ _ _ _ _ _ _ _ _ _ HF) as (_ & Hc & _).
      destruct (rf_to _ _ _ _ _ _ _ _ _ _ HF) as (tdir & E1 & E2). apply Hto. rewrite E1, nwalk_snoc, E2.
      simpl. apply child_Some; [apply Hi | done].
Qed.

(** C6: after a successful [dc_rename_exchange] every path below either name
    leads where the same path below the other name led, and every dentry keeps
    its id, type and state. *)
Theorem dc_rename_exchange_swaps k w a b w' :
  inv k w → path_wf a → path_wf b → dc_rename_exchange a b w = Ok (0, w') →
  (∀ s, at_path w' (pnames b ++ s) = at_path w (pnames a ++ s) ∧
        at_path w' (pnames a ++ s) = at_path w (pnames b ++ s)) ∧
  (∀ d n, ns w !! d = Some n → ∃ n', ns w' !! d = Some n' ∧
     n_id n' = n_id n ∧ n_dir n' = n_dir n ∧ n_pos n' = n_pos n).
Proof.
  intros Hi Ha Hb E.
  destruct (returns_det _ _ _ _ _ (wp_returns _ _ _ (wp_dc_rename_exchange k w a b Hi Ha Hb)) E) as [Hi' Hret Hns Hr _].
  assert (spec_exchange (w_root w) (pnames a) (pnames b) (ns w) = (0, ns w')) as Hs
    by (rewrite Hns, Hret; by destruct (spec_exchange _ _ _ _)).
  unfold at_path. rewrite Hr. assert (tree (w_root w) (ns w')) as Ht' by (rewrite <- Hr; apply Hi'). split.
  - intros s. by apply exchange_swaps; [apply Hi | |].
  - intros d n Hn. destruct (exchange_attrs _ _ _ _ _ d n (inv_tree w Hi) Hs Hn) as (n' & ? & ? & ? & ?). eauto.
Qed.

(** Deleting a positive entry and instantiating it again with its old id is
    the identity on the name space: both calls succeed and the second undoes the
    first. *)
Theorem dc_delete_instantiate_roundtrip k w path d n w' :
  inv k w → path_wf path → at_path w (pnames path) = Some d → ns w !! d = Some n →
  dc_delete path w = Ok (0, w') →
  returns (dc_instantiate path (n_id n)) w' (λ ret w'', ret = 0 ∧ ns w'' = ns w ∧ inv k w'').
Proof.
  intros Hi Hp Hd Hn E.
  destruct (returns_det _ _ _ _ _ (wp_returns _ _ _ (wp_dc_delete k w path Hi Hp)) E) as [Hi' Hret Hns Hr _].
  unfold at_path, spec_delete in *. destruct (pnames path) as [| x l] eqn:Ep; [done |]. rewrite <- Ep in *.
  rewrite Hd in Hret, Hns. simpl in Hret, Hns. rewrite Hn in Hret, Hns. simpl in Hret, Hns.
  destruct (n_pos n) eqn:Epos; [| done]. simpl in Hret, Hns. destruct (n_dir n && _); [done |]. simpl in Hns.
  apply wp_returns. wp_use (wp_dc_instantiate k w' path (n_id n)); [done | done |].
  intros ret w'' [Hi'' Hret'' Hns'' _ _]. unfold spec_instantiate in *. rewrite Ep in Hret'', Hns''. rewrite <- Ep in *.
  assert (nwalk (w_root w') (ns w') (w_root w') (pnames path) = Some d) as Hd'.
  { rewrite Hr. pose proof (npath_nwalk _ _ (inv_tree w Hi) _ _ Hd) as <-.
    destruct (t_up _ _ (inv_tree w Hi) d ltac:(by eexists)) as [lu Hl].
    eapply nwalk_frame; [apply Hi | rewrite <- Hr; apply Hi' | exact Hl |].
    intros y _ _. rewrite Hns. destruct (decide (d = y)) as [<- |];
      [by rewrite lookup_insert_eq, Hn | by rewrite lookup_insert_ne]. }
  rewrite Hd' in Hret'', Hns''. simpl in Hret'', Hns''. rewrite Hns in Hret'', Hns'' at 1.
  rewrite lookup_insert_eq in Hret'', Hns''. simpl in Hret'', Hns''. split_and!; [done | | done].
  rewrite Hns'', Hns, insert_insert_eq. apply insert_id. rewrite Hn. f_equal. destruct n; simpl in *. by subst.
Qed.

(** ** Reads *)

(** C7: [dc_lookup] answers from the name space (the state of the dentry the
    path leads to, with its identity when positive, or absent) and leaves the
    whole world as it was. *)
Theorem dc_lookup_correct k w p :
  inv k w → path_wf p →
  dc_lookup p w = Ok (lookup_result (ns w) (at_path w (pnames p)), w).
Proof. intros Hi Hp. by destruct (wp_inv _ _ _ (wp_dc_lookup k w p Hi Hp)) as (r & w' & -> & -> & ->). Qed.

(** C8: the two lookup arms (per-component d_seq validation, and the snapshot
    walk that falls back to holding rename_lock) are the same function. *)
Theorem dc_lookup_arms_agree k w p :
  inv k w → path_wf p → dc_lookup_snapshot p w = dc_lookup p w.
Proof.
  intros Hi Hp. destruct (wp_inv _ _ _ (wp_dc_lookup k w p Hi Hp)) as (r & w' & -> & -> & ->).
  by destruct (wp_inv _ _ _ (wp_dc_lookup_snapshot k w p Hi Hp)) as (r & w' & -> & -> & ->).
Qed.

(** C12: [dc_readdir] calls its callback exactly once per child of the directory,
    with the child's id and name, and returns their number; -ENOENT when the path
    leads nowhere. *)
Theorem dc_readdir_correct {X} k w path (fn : Z → list Z → X → X) arg :
  inv k w → path_wf path →
  returns (dc_readdir path (Some (λ id q, fn id (qname q))) arg) w (λ r w',
    inv k w' ∧ ns w' = ns w ∧ w_root w' = w_root w ∧
    match at_path w (pnames path) with
    | None => r = (- ENOENT, arg)
    | Some d => ∃ l, l ≡ₚ kids (w_root w) (ns w) d ∧
        r = (Z.of_nat (length l),
             foldl (λ x c, match ns w !! c with Some n => fn (n_id n) (n_name n) x | None => x end) arg l)
    end).
Proof.
  intros Hi Hp. apply wp_returns. wp_use (wp_dc_readdir k w path); [done | done |].
  intros r w' (Hi' & En & Er & H). split_and!; try done. unfold at_path. destruct (nwalk _ _ _ _) as [d |]; [| done].
  destruct H as (l & Hl & ->). exists l. split; [done |]. f_equal.
  assert (∀ c, c ∈ l → is_Some (ns w !! c)) as Hin.
  { intros c Hc. rewrite Hl in Hc. apply elem_of_kids in Hc as (_ & n & -> & _). by eexists. }
  clear -Hin. revert arg. induction l as [| c l IH]; intros arg; [done |]. simpl. rewrite IH by set_solver. f_equal.
  destruct (Hin c) as [n Hn]; [by left |]. rewrite Hn. apply ns_lookup in Hn as (cc & Hcc & _ & ->).
  unfold list_call. by rewrite Hcc.
Qed.

(** [dc_dentry_path] writes the names from the root to the dentry, or answers
    -ENAMETOOLONG when they do not fit, and changes nothing. *)
Theorem dc_dentry_path_correct k w d out :
  inv k w → is_Some (ns w !! d) → out_sizes (comp out) →
  returns (dc_dentry_path d out) w (λ r w', w' = w ∧
    if decide (length (npath (w_root w) (ns w) d) ≤ DC_PATH_MAX)%nat
    then fst r = 0 ∧ path_wf (snd r) ∧ pnames (snd r) = npath (w_root w) (ns w) d
    else fst r = - ENAMETOOLONG).
Proof. intros. by apply wp_returns, (wp_dc_dentry_path k). Qed.

(** C14: the path [dc_dentry_path] gives for a positive dentry leads
    [dc_lookup_dentry] back to it. *)
Theorem dc_dentry_path_roundtrip k w d n out p :
  inv k w → ns w !! d = Some n → n_pos n = true → out_sizes (comp out) →
  dc_dentry_path d out w = Ok ((0, p), w) → dc_lookup_dentry p w = Ok (d, w).
Proof.
  intros Hi Hn Hp Ho E.
  pose proof (returns_det _ _ _ _ _ (wp_returns _ _ _ (wp_dc_dentry_path k w d out Hi ltac:(by eexists) Ho)) E) as [_ H].
  case_decide; [| done]. destruct H as (_ & Hpw & Hnames). simpl in *.
  destruct (wp_inv _ _ _ (wp_dc_lookup_dentry k w p Hi Hpw)) as (r & w' & -> & -> & ->).
  rewrite Hnames, nwalk_npath by (apply Hi || by eexists). simpl. unfold state_of. by rewrite Hn, Hp.
Qed.

(** C13: [dc_walk] reports every positive dentry within DC_PATH_MAX components of
    the root, except the root, exactly once, each with its id and its path. *)
Theorem dc_walk_census {X} k w (f : Z → list (list Z) → X → X) path0 arg :
  inv k w → length (comp path0) = DC_PATH_MAX →
  returns (dc_walk (λ id p x, f id (pnames p) x) path0 arg) w (λ arg' w', w' = w ∧
    ∃ L, NoDup L ∧ (∀ x, x ∈ L ↔ counted (w_root w) (ns w) x) ∧
      arg' = foldl (census_call (w_root w) (ns w) f) arg L).
Proof. intros. by apply wp_returns, (wp_dc_walk k). Qed.

(** [is_subdir] decides ancestry: it climbs to the root and answers whether
    [b] is [a] or one of the dentries on [a]'s way up. *)
Theorem is_subdir_correct k w a b :
  inv k w → is_Some (ns w !! a) →
  ∃ l, upto (w_root w) (ns w) a l ∧ is_subdir a b w = Ok (bool_decide (b ∈ l), w).
Proof.
  intros Hi Ha. destruct (t_up _ _ (inv_tree w Hi) a Ha) as [l Hl]. exists l. split; [done |].
  destruct (wp_inv _ _ _ (wp_is_subdir w a b Hi Ha)) as (x & w' & -> & -> & ->).
  by rewrite (subdir_spec _ _ a b l (inv_tree w Hi) Hl).
Qed.

(** ** Reclaim and lifecycle *)

(** C10: the shrinker evicts exactly as many dentries as it reports and never
    more than asked for; it never takes the root nor a dentry with children left
    (the rest is still a tree), leaves nothing isolated and no lock held. *)
Theorem dc_shrink_correct k w nr :
  inv k w →
  returns (dc_shrink nr) w (λ freed w', ∃ K,
    inv k w' ∧ w_root w' = w_root w ∧ w_root w ∉ K ∧ K ⊆ dom (ns w) ∧
    ns w' = without K (ns w) ∧ freed = Z.of_nat (size K) ∧ freed ≤ Z.max 0 nr).
Proof.
  intros Hi. apply wp_returns. wp_use (wp_dc_shrink k w nr); [exact Hi |].
  intros f w' (K & [Hi' Hns Hsub Hr] & -> & Hle). exists K. split_and!; try done.
  intros Hx. destruct (inv_root w' Hi') as [[n Hn] _]. rewrite Hr, Hns in Hn.
  by apply map_lookup_filter_Some in Hn as [_ ?].
Qed.

(** The node-local shrinker promises the same. *)
Theorem dc_shrink_local_correct k w nr :
  inv k w →
  returns (dc_shrink_local nr) w (λ freed w', ∃ K,
    inv k w' ∧ w_root w' = w_root w ∧ K ⊆ dom (ns w) ∧
    ns w' = without K (ns w) ∧ freed = Z.of_nat (size K) ∧ freed ≤ Z.max 0 nr).
Proof.
  intros Hi. apply wp_returns. wp_use (wp_dc_shrink_local k w nr); [exact Hi |].
  intros f w' (K & [Hi' Hns Hsub Hr] & -> & Hle). by exists K.
Qed.

(** The LRU passes its own audit in every coherent world: [dc_lru_check]
    walks all lists, finds no fault and changes nothing. *)
Theorem dc_lru_check_clean k w :
  inv k w → Z.of_nat (size (w_core w)) < 2 ^ 64 → dc_lru_check w = Ok (0, w).
Proof. intros Hi Hs. by destruct (wp_inv _ _ _ (wp_dc_lru_check w Hi Hs)) as (bad & w' & -> & -> & ->). Qed.

(** [dc_lru_count] is the number of dentries whose membership word says they
    are on a list. *)
Theorem dc_lru_count_correct k w :
  inv k w → Z.of_nat (size (w_core w)) < 2 ^ 64 →
  dc_lru_count (w_lru w) = Z.of_nat (size (on_words (w_lru w))).
Proof. intros Hi Hs. by apply dc_lru_count_spec. Qed.

(** Outside any read section a grace period frees exactly the dentries that
    left the name space, and no other. *)
Theorem rcu_barrier_frees w :
  inv 0 w →
  returns rcu_barrier w (λ _ w', inv 0 w' ∧ ns w' = ns w ∧ w_rcu w' = [] ∧ dom (w_core w') = dom (ns w)).
Proof.
  intros Hi. apply wp_returns. wp_use (wp_rcu_barrier w); [exact Hi |].
  intros _ w' (? & En & _ & ? & E). rewrite En in E. done.
Qed.

(** [dc_destroy] frees every dentry, hashed or waiting for its grace period,
    and each only once. *)
Theorem dc_destroy_frees_all w :
  inv 0 w →
  returns dc_destroy w (λ _ w', w_core w' = ∅ ∧ w_kids w' = ∅ ∧ ht_node (w_hash w') = ∅ ∧
    ls_node (w_lru w') = ∅ ∧ w_seq w' = ∅ ∧ w_lock w' = ∅ ∧ w_rcu w' = []).
Proof. intros. by apply wp_returns, wp_dc_destroy. Qed.

Section create.
  Context `{MemalignOk}.

(** C15: [dc_create] gives a coherent world that holds only the root, with the
    least power of two of buckets not below the number asked for. *)
Theorem dc_create_correct node stack nb r :
  0 ≤ nb ≤ 2 ^ 31 → length (q_name stack) = DC_NAME_MAX → posix_memalign ∅ = Some r →
  ∃ w b, dc_create true true node stack nb = Ok (Some w) ∧ inv 0 w ∧
    ns w = {[r := root_node r]} ∧ w_root w = r ∧ w_mask w + 1 = 2 ^ b ∧
    nb ≤ 2 ^ b ∧ (b = 0 ∨ 2 ^ (b - 1) < nb).
Proof. intros. by apply dc_create_inv. Qed.

End create.

(** ** The theorems at work on the small dcache *)

Definition code {A} (m : M A) (w : world) : option A :=
  match m w with Ok (a, _) => Some a | Err _ => None end.

(** The world a call leaves, when it returns 0. *)
Definition after (m : M Z) (w : world) : world :=
  match m w with Ok (0, w') => w' | _ => w end.

Lemma after_ok m w : code m w = Some 0 → m w = Ok (0, after m w).
Proof. unfold code, after. destruct (m w) as [[a w'] |]; [| done]. by intros [= ->]. Qed.

Lemma dc_add_refines_witness :
  ∃ ret w', dc_add_typed_state p_ay 9 true true scene = Ok (ret, w') ∧ ret = 0 ∧ inv 0 w'.
Proof.
  destruct (dc_add_refines 0 scene p_ay 9 true true scene_inv) as (ret & w' & E & H); [path_by_decide |].
  exists ret, w'. split_and!; [done | rewrite (op_ret _ _ _ _ _ H); by vm_compute | apply H].
Defined.

Lemma dc_add_then_lookup_witness :
  ∃ d, let w := after (dc_add_typed_state p_ay 9 false true) scene in
       dc_lookup p_ay w = Ok ((DC_POSITIVE, Some d), w).
Proof.
  destruct (dc_add_then_lookup 0 scene p_ay 9 false true (after (dc_add_typed_state p_ay 9 false true) scene) scene_inv)
    as (d & _ & E & _); [path_by_decide | | by exists d].
  apply after_ok. by vm_compute.
Defined.

Lemma dc_instantiate_refines_witness :
  ∃ ret w', dc_instantiate p_n 9 scene = Ok (ret, w') ∧ ret = 0 ∧ inv 0 w'.
Proof.
  destruct (dc_instantiate_refines 0 scene p_n 9 scene_inv) as (ret & w' & E & H); [path_by_decide |].
  exists ret, w'. split_and!; [done | rewrite (op_ret _ _ _ _ _ H); by vm_compute | apply H].
Defined.

Lemma dc_delete_refines_witness :
  ∃ ret w', dc_delete p_a scene = Ok (ret, w') ∧ ret = - ENOTEMPTY ∧ inv 0 w'.
Proof.
  destruct (dc_delete_refines 0 scene p_a scene_inv) as (ret & w' & E & H); [path_by_decide |].
  exists ret, w'. split_and!; [done | rewrite (op_ret _ _ _ _ _ H); by vm_compute | apply H].
Defined.

Lemma dc_unlink_refines_witness :
  ∃ ret w', dc_unlink p_ax scene = Ok (ret, w') ∧ ret = 0 ∧ inv 0 w'.
Proof.
  destruct (dc_unlink_refines 0 scene p_ax scene_inv) as (ret & w' & E & H); [path_by_decide |].
  exists ret, w'. split_and!; [done | rewrite (op_ret _ _ _ _ _ H); by vm_compute | apply H].
Defined.

Lemma dc_rename_refines_witness :
  ∃ ret w', dc_rename p_a p_ba scene = Ok (ret, w') ∧ ret = 0 ∧ inv 0 w'.
Proof.
  destruct (dc_rename_refines 0 scene p_a p_ba scene_inv) as (ret & w' & E & H & _);
    [path_by_decide | path_by_decide | apply dest_dirb_ok; by vm_compute |].
  exists ret, w'. split_and!; [done | rewrite (op_ret _ _ _ _ _ H); by vm_compute | apply H].
Defined.

Lemma dc_rename_exchange_refines_witness :
  ∃ ret w', dc_rename_exchange p_ax p_b scene = Ok (ret, w') ∧ ret = 0 ∧ inv 0 w'.
Proof.
  destruct (dc_rename_exchange_refines 0 scene p_ax p_b scene_inv) as (ret & w' & E & H);
    [path_by_decide | path_by_decide |].
  exists ret, w'. split_and!; [done | rewrite (op_ret _ _ _ _ _ H); by vm_compute | apply H].
Defined.

Lemma dc_rename_moves_subtree_witness :
  at_path (after (dc_rename p_a p_ba) scene) (pnames p_ba ++ [[120]]) = Some 256 ∧
  at_path (after (dc_rename p_a p_ba) scene) (pnames p_a) = None.
Proof.
  destruct (dc_rename_moves_subtree 0 scene p_a p_ba (after (dc_rename p_a p_ba) scene) scene_inv)
    as (H1 & H2 & _); [path_by_decide | path_by_decide | apply dest_dirb_ok; by vm_compute | |].
  - apply after_ok. by vm_compute.
  - split; [| done]. rewrite H1. by vm_compute.
Defined.

Lemma dc_rename_exchange_swaps_witness :
  at_path (after (dc_rename_exchange p_a p_b) scene) (pnames p_b ++ [[120]]) = Some 256.
Proof.
  destruct (dc_rename_exchange_swaps 0 scene p_a p_b (after (dc_rename_exchange p_a p_b) scene) scene_inv)
    as (H1 & _); [path_by_decide | path_by_decide | apply after_ok; by vm_compute |].
  destruct (H1 [[120]]) as [-> _]. by vm_compute.
Defined.

Lemma dc_delete_instantiate_roundtrip_witness :
  ∃ w'', dc_instantiate p_ax 3 (after (dc_delete p_ax) scene) = Ok (0, w'') ∧ ns w'' = ns scene.
Proof.
  destruct (dc_delete_instantiate_roundtrip 0 scene p_ax 256 (Node 128 [120] 3 false true)
    (after (dc_delete p_ax) scene) scene_inv) as (ret & w'' & E & -> & H & _);
    [path_by_decide | by vm_compute | by vm_compute | apply after_ok; by vm_compute |].
  exists w''. split; assumption.
Defined.

Lemma dc_lookup_correct_witness : dc_lookup p_n scene = Ok ((DC_NEGATIVE, None), scene).
Proof. rewrite (dc_lookup_correct 0 scene p_n scene_inv); [do 2 f_equal; by vm_compute | path_by_decide]. Defined.

Lemma dc_lookup_arms_agree_witness : dc_lookup_snapshot p_ax scene = dc_lookup p_ax scene.
Proof. apply (dc_lookup_arms_agree 0 scene p_ax scene_inv). path_by_decide. Defined.

Lemma dc_readdir_correct_witness :
  ∃ r w', dc_readdir p_a (Some (λ id q l, (id, qname q) :: l)) [] scene = Ok (r, w') ∧
    inv 0 w' ∧ ∃ l, l ≡ₚ [256] ∧ fst r = Z.of_nat (length l).
Proof.
  destruct (dc_readdir_correct 0 scene p_a (λ id nm l, (id, nm) :: l) [] scene_inv)
    as (r & w' & E & Hi & _ & _ & H); [path_by_decide |]. exists r, w'. split; [exact E |]. split; [exact Hi |].
  assert (at_path scene (pnames p_a) = Some 128) as Ea by (by vm_compute). rewrite Ea in H.
  destruct H as (l & Hl & ->). exists l. split; [| reflexivity].
  assert (kids (w_root scene) (ns scene) 128 = [256]) as Ek by (by vm_compute). rewrite Ek in Hl. exact Hl.
Defined.

Lemma path0_out : out_sizes (comp path0).
Proof. split; apply path0_sizes. Qed.

Lemma dc_dentry_path_correct_witness :
  ∃ r, dc_dentry_path 256 path0 scene = Ok (r, scene) ∧ fst r = 0 ∧ pnames (snd r) = [[97]; [120]].
Proof.
  destruct (dc_dentry_path_correct 0 scene 256 path0 scene_inv) as (r & w' & E & -> & H).
  - exists (Node 128 [120] 3 false true). by vm_compute.
  - exact path0_out.
  - exists r. split; [exact E |].
    assert (npath (w_root scene) (ns scene) 256 = [[97]; [120]]) as En by (by vm_compute). rewrite En in H.
    rewrite decide_True in H by (simpl; unfold DC_PATH_MAX; lia). destruct H as (? & _ & ?). split; assumption.
Defined.

(** The path [dc_dentry_path] wrote. *)
Definition path_of (d : Z) (w : world) : dc_path :=
  match dc_dentry_path d path0 w with Ok ((_, p), _) => p | Err _ => path0 end.

Lemma dc_dentry_path_roundtrip_witness : dc_lookup_dentry (path_of 256 scene) scene = Ok (256, scene).
Proof.
  apply (dc_dentry_path_roundtrip 0 scene 256 (Node 128 [120] 3 false true) path0 (path_of 256 scene) scene_inv).
  - by vm_compute.
  - reflexivity.
  - exact path0_out.
  - by vm_compute.
Defined.

Lemma dc_walk_census_witness :
  ∃ n, dc_walk (λ _ _ n, n + 1)%nat path0 0%nat scene = Ok (n, scene).
Proof.
  destruct (dc_walk_census 0 scene (λ _ _ n, n + 1)%nat path0 0%nat scene_inv) as (n & w' & E & -> & _).
  - apply path0_sizes.
  - exists n. exact E.
Defined.

Lemma upto_second r N d n l : upto r N d l → d ≠ r → N !! d = Some n → n_parent n ∈ l.
Proof.
  intros Hl Hd Hn. destruct Hl as [| d n' l Hn' _ Hl]; [done |]. rewrite Hn in Hn'. injection Hn' as <-.
  destruct (upto_head _ _ _ _ Hl) as [? ->]. right. left.
Qed.

Lemma is_subdir_correct_witness : is_subdir 256 128 scene = Ok (true, scene).
Proof.
  destruct (is_subdir_correct 0 scene 256 128 scene_inv) as (l & Hl & ->).
  - exists (Node 128 [120] 3 false true). by vm_compute.
  - rewrite bool_decide_eq_true_2; [reflexivity |].
    apply (upto_second _ _ 256 (Node 128 [120] 3 false true) l Hl); [rewrite scene_root; lia | by vm_compute].
Defined.

Lemma dc_shrink_correct_witness : ∃ freed w', dc_shrink 2 scene = Ok (freed, w') ∧ freed ≤ 2 ∧ inv 0 w'.
Proof.
  destruct (dc_shrink_correct 0 scene 2 scene_inv) as (f & w' & E & K & Hi & _ & _ & _ & _ & _ & Hf).
  exists f, w'. split_and!; assumption.
Defined.

Lemma dc_shrink_local_correct_witness :
  ∃ freed w', dc_shrink_local 2 scene = Ok (freed, w') ∧ freed ≤ 2 ∧ inv 0 w'.
Proof.
  destruct (dc_shrink_local_correct 0 scene 2 scene_inv) as (f & w' & E & K & Hi & _ & _ & _ & _ & Hf).
  exists f, w'. split_and!; assumption.
Defined.

Lemma scene_unlinked_inv : inv 0 (after (dc_unlink p_ax) scene).
Proof.
  destruct (wp_inv _ _ _ (wp_dc_unlink 0 scene p_ax scene_inv ltac:(path_by_decide))) as (ret & w' & E & H).
  unfold after. rewrite E. pose proof (op_inv _ _ _ _ _ H) as Hi. pose proof scene_inv. destruct ret; assumption.
Qed.

Lemma rcu_barrier_frees_witness :
  ∃ w', rcu_barrier (after (dc_unlink p_ax) scene) = Ok (tt, w') ∧ 256 ∉ dom (w_core w').
Proof.
  destruct (rcu_barrier_frees _ scene_unlinked_inv) as ([] & w' & E & _ & _ & _ & Hd).
  exists w'. split; [exact E |]. rewrite Hd. by_decide.
Defined.

Lemma dc_destroy_frees_all_witness :
  ∃ w', dc_destroy (after (dc_unlink p_ax) scene) = Ok (tt, w') ∧ w_core w' = ∅.
Proof.
  destruct (dc_destroy_frees_all _ scene_unlinked_inv) as ([] & w' & E & H & _).
  exists w'. split; assumption.
Defined.

Lemma dc_create_correct_witness :
  ∃ w, dc_create true true 0 qstr_zero 5 = Ok (Some w) ∧ inv 0 w.
Proof.
  destruct (dc_create_correct 0 qstr_zero 5 64) as (w & b & E & Hi & _); [lia | done | by vm_compute |].
  exists w. split; assumption.
Defined.

Lemma dc_lru_check_clean_witness : dc_lru_check scene = Ok (0, scene).
Proof. apply (dc_lru_check_clean 0 scene scene_inv). by vm_compute. Defined.

Lemma dc_lru_count_correct_witness : dc_lru_count (w_lru scene) = Z.of_nat (size (on_words (w_lru scene))).
Proof. apply (dc_lru_count_correct 0 scene scene_inv). by vm_compute. Defined.
