(* ===== verification/History.v ===== *)
(** Histories: any sequence of calls of the API, run from [dc_create], is matched
    step by step by the specification, and never faults. *)

From S2P Require Import Prelude Qstr HList HashTab Children Lru Seqcount World Walk Ops Reclaim.
From S2P Require Import Namespace TreeOps Inv Parts WalkSpec OpsSpec RenameSpec Lifecycle Paths.
From S2P Require Import ReadSpec Api ShrinkSpec Scene.

(** The calls run on the engine; [CBarrier] is a grace period. *)
Definition exec `{Memalign} (c : call) : M answer :=
  match c with
  | CAdd p id isdir pos => let! z := dc_add_typed_state p id isdir pos in st_ret (ARet z)
  | CInstantiate p id => let! z := dc_instantiate p id in st_ret (ARet z)
  | CDelete p => let! z := dc_delete p in st_ret (ARet z)
  | CUnlink p => let! z := dc_unlink p in st_ret (ARet z)
  | CRename from to => let! z := dc_rename from to in st_ret (ARet z)
  | CExchange a b => let! z := dc_rename_exchange a b in st_ret (ARet z)
  | CLookup p => let! r := dc_lookup p in st_ret (ALookup r)
  | CLookupDentry p => let! d := dc_lookup_dentry p in st_ret (ADentry d)
  | CReaddir p =>
      let! r := dc_readdir p (Some (λ id q l, l ++ [(id, qname q)])) [] in
      st_ret (AList (fst r) (snd r))
  | CDentryPath d => let! r := dc_dentry_path d path0 in st_ret (APath (fst r) (pnames (snd r)))
  | CCensus => let! l := dc_walk (λ id p l, l ++ [(id, pnames p)]) path0 [] in st_ret (ACensus l)
  | CShrink nr => let! z := dc_shrink nr in st_ret (ARet z)
  | CShrinkLocal nr => let! z := dc_shrink_local nr in st_ret (ARet z)
  | CBarrier => rcu_barrier ;;; st_ret ADone
  end.

(** ** The specification's steps *)

Inductive spec_step (r : Z) (N : nspace) : call → answer → nspace → Prop :=
  | SAdd p id isdir pos fresh z N' :
      (∀ d, fresh = Some d → N !! d = None) →
      spec_add r fresh (pnames p) id isdir pos N = (z, N') →
      spec_step r N (CAdd p id isdir pos) (ARet z) N'
  | SInstantiate p id z N' :
      spec_instantiate r (pnames p) id N = (z, N') → spec_step r N (CInstantiate p id) (ARet z) N'
  | SDelete p z N' : spec_delete r (pnames p) N = (z, N') → spec_step r N (CDelete p) (ARet z) N'
  | SUnlink p z N' : spec_unlink r (pnames p) N = (z, N') → spec_step r N (CUnlink p) (ARet z) N'
  | SRename from to z N' :
      spec_rename r (pnames from) (pnames to) N = (z, N') → spec_step r N (CRename from to) (ARet z) N'
  | SExchange a b z N' :
      spec_exchange r (pnames a) (pnames b) N = (z, N') → spec_step r N (CExchange a b) (ARet z) N'
  | SRead c a : read_step r N c a → spec_step r N c a N
  | SShrink nr K :
      r ∉ K → K ⊆ dom N → Z.of_nat (size K) ≤ Z.max 0 nr →
      spec_step r N (CShrink nr) (ARet (Z.of_nat (size K))) (without K N)
  | SShrinkLocal nr K :
      r ∉ K → K ⊆ dom N → Z.of_nat (size K) ≤ Z.max 0 nr →
      spec_step r N (CShrinkLocal nr) (ARet (Z.of_nat (size K))) (without K N)
  | SBarrier : spec_step r N CBarrier ADone N.

(** ** Simulation *)

Section history.
  Context `{MemalignOk}.

(** One matched step. *)
Definition matched (w : world) (c : call) (a : answer) (w' : world) : Prop :=
  inv 0 w' ∧ w_root w' = w_root w ∧ spec_step (w_root w) (ns w) c a (ns w').

(** The calls whose answer is a code and whose effect a function of the name
    space. *)
Lemma matched_op w c (m : M Z) spec :
  wp m (op_post 0 w spec) w →
  (∀ z N', spec = (z, N') → spec_step (w_root w) (ns w) c (ARet z) N') →
  wp (let! z := m in st_ret (ARet z)) (matched w c) w.
Proof.
  intros Hm Hs. wp_step. eapply wp_mono; [exact Hm |]. intros z w' [Hi Hz Hn Hr _]. wp_step. split_and!; [done | done |].
  apply Hs. rewrite Hz, Hn. by destruct spec.
Qed.

(** The calls that read. *)
Lemma matched_read {X} w c (m : M X) (f : X → answer) (x : X) :
  inv 0 w → wp m (λ r w', w' = w ∧ r = x) w → read_step (w_root w) (ns w) c (f x) →
  wp (let! r := m in st_ret (f r)) (matched w c) w.
Proof. intros Hi Hm Hs. wp_step. eapply wp_mono; [exact Hm |]. intros r w' [-> ->]. wp_step. split_and!; [done | done | by constructor]. Qed.

Lemma matched_readdir w p :
  inv 0 w → path_wf p → wp (exec (CReaddir p)) (matched w (CReaddir p)) w.
Proof.
  intros Hi Hp. simpl. wp_step. wp_use (wp_dc_readdir 0 w p); [done | done |].
  intros r w' (Hi' & En & Er & Hr). wp_step. split_and!; [done | done |]. rewrite En.
  constructor. destruct (nwalk _ _ _ _) as [d |] eqn:E; [| subst r; by constructor].
  destruct Hr as (l & Hl & ->). simpl.
  rewrite (foldl_ext_in _ (λ acc x, acc ++ list_entry (ns w) x) l []).
  - rewrite (foldl_snoc_bind (list_entry (ns w)) l []). by eapply SReaddir.
  - intros acc x Hx. rewrite Hl in Hx. apply elem_of_kids in Hx as (_ & n & Hn & _). unfold list_entry. rewrite Hn.
    apply ns_lookup in Hn as (c & Hc & _ & ->). unfold list_call. by rewrite Hc.
Qed.

Lemma matched_census w : inv 0 w → wp (exec CCensus) (matched w CCensus) w.
Proof.
  intros Hi. simpl. wp_step.
  wp_use (wp_dc_walk 0 w (λ id names l, l ++ [(id, names)])); [done | apply path0_sizes |].
  intros l w' (-> & L & Hnd & HL & ->). wp_step. split_and!; [done | done |]. rewrite census_collects.
  constructor. by constructor.
Qed.

Lemma matched_dentry_path w d :
  inv 0 w → is_Some (ns w !! d) → wp (exec (CDentryPath d)) (matched w (CDentryPath d)) w.
Proof.
  intros Hi Hd. simpl. wp_step. wp_use (wp_dc_dentry_path 0 w d path0); [done | done | split; apply path0_sizes |].
  intros [z p] w' [-> Hr]. wp_step. split_and!; [done | done |]. constructor. simpl in *. case_decide.
  - destruct Hr as (-> & _ & ->). by constructor.
  - rewrite Hr. constructor. lia.
Qed.

Lemma matched_shrink w c (m : M Z) nr :
  inv 0 w →
  wp m (λ f w', ∃ K, shrunk 0 w K w' ∧ f = Z.of_nat (size K) ∧ f ≤ Z.max 0 nr) w →
  (∀ K, w_root w ∉ K → K ⊆ dom (ns w) → Z.of_nat (size K) ≤ Z.max 0 nr →
     spec_step (w_root w) (ns w) c (ARet (Z.of_nat (size K))) (without K (ns w))) →
  wp (let! z := m in st_ret (ARet z)) (matched w c) w.
Proof.
  intros Hi Hm Hs. wp_step. eapply wp_mono; [exact Hm |]. intros f w' (K & [Hi' Hns Hsub Hr] & -> & Hle). wp_step.
  split_and!; [done | done |]. rewrite Hns. apply Hs; [| done | done]. intros Hx.
  destruct (inv_root w' Hi') as [[n Hn] _]. rewrite Hr, Hns in Hn. by apply map_lookup_filter_Some in Hn as [_ ?].
Qed.

Lemma wp_exec w c : inv 0 w → permitted (w_root w) (ns w) c → wp (exec c) (matched w c) w.
Proof.
  intros Hi Hc. destruct c; simpl in Hc.
  - eapply matched_op; [by apply wp_dc_add |]. intros z N' E. econstructor; [| exact E].
    intros d Hd%memalign_fresh. destruct (ns w !! d) eqn:En; [| done]. destruct Hd. apply ns_dom. by eexists.
  - eapply matched_op; [by apply wp_dc_instantiate |]. by constructor.
  - eapply matched_op; [by apply wp_dc_delete |]. by constructor.
  - eapply matched_op; [by apply wp_dc_unlink |]. by constructor.
  - destruct Hc as (? & ? & ?). eapply matched_op.
    + eapply wp_mono; [by apply (wp_dc_rename 0) |]. by intros z w' [? _].
    + by constructor.
  - destruct Hc. eapply matched_op; [by apply wp_dc_rename_exchange |]. by constructor.
  - eapply (matched_read w _ _ ALookup); [done | by apply (wp_dc_lookup 0) | constructor].
  - eapply (matched_read w _ _ ADentry); [done | by apply (wp_dc_lookup_dentry 0) | constructor].
  - by apply matched_readdir.
  - by apply matched_dentry_path.
  - by apply matched_census.
  - eapply matched_shrink; [done | by apply wp_dc_shrink | by constructor].
  - eapply matched_shrink; [done | by apply wp_dc_shrink_local | by constructor].
  - simpl. wp_step. wp_use (wp_rcu_barrier w); [done |]. intros _ w' (? & En & Er & _). wp_step.
    split_and!; [done | done |]. rewrite En. apply SBarrier.
Qed.

(** The engine. *)
#[export] Program Instance seqlock_engine : Engine := {|
  eng_state := world;
  eng_exec := exec;
  eng_step := spec_step;
  eng_holds := λ w r N, inv 0 w ∧ w_root w = r ∧ ns w = N;
|}.
Next Obligation.
  intros w r N c (Hi & <- & <-) Hc. eapply wp_mono; [by apply wp_exec |].
  intros a w' (Hi' & Er & Hs). by exists (ns w').
Qed.

(** C1: every history of a caller that keeps to its obligations refines the
    specification.  The obligations ([permitted], on the specification alone): paths as
    the parser makes them; a rename only into a parent that is a directory, which the
    code does not check (without it a history can fault, see Findings); the reverse walk
    only of a dentry that is in the cache.  From a fresh dcache of at most 2^31 buckets
    no such sequence of calls faults (no wild or stale pointer is followed, no lock is
    taken twice or left held, no loop fails to end), the answers are those of a run of
    the specification, and the invariant holds at the end. *)
Theorem history_refines node stack nb r cs :
  0 ≤ nb ≤ 2 ^ 31 → length (q_name stack) = DC_NAME_MAX → posix_memalign ∅ = Some r →
  obeys r {[r := root_node r]} cs →
  ∃ w0 answers w, dc_create true true node stack nb = Ok (Some w0) ∧
    exec_all cs w0 = Ok (answers, w) ∧ inv 0 w ∧
    eng_steps r {[r := root_node r]} cs answers (ns w).
Proof.
  intros Hn Hs Hr Ho. destruct (dc_create_inv node stack nb r Hn Hs Hr) as (w0 & b & E & Hi & En & Er & _).
  destruct (wp_inv _ _ _ (wp_exec_all (E := seqlock_engine) r cs w0 _ (conj Hi (conj Er En)) Ho)) as (l & w & E' & N & (Hi' & _ & <-) & Hs').
  by exists w0, l, w.
Qed.

(** C11: no history leaks: whatever was run, [dc_destroy] afterwards returns with
    every dentry freed. *)
Theorem history_then_destroy node stack nb r cs w0 :
  0 ≤ nb ≤ 2 ^ 31 → length (q_name stack) = DC_NAME_MAX → posix_memalign ∅ = Some r →
  dc_create true true node stack nb = Ok (Some w0) → obeys r {[r := root_node r]} cs →
  ∃ answers w w', exec_all cs w0 = Ok (answers, w) ∧ dc_destroy w = Ok (tt, w') ∧
    w_core w' = ∅ ∧ w_rcu w' = [].
Proof.
  intros Hn Hs Hr Hw Ho. destruct (dc_create_inv node stack nb r Hn Hs Hr) as (w1 & b & E & Hi & En & Er & _).
  assert (w1 = w0) as -> by congruence.
  destruct (wp_inv _ _ _ (wp_exec_all (E := seqlock_engine) r cs w0 _ (conj Hi (conj Er En)) Ho)) as (l & w & E' & N & (Hi' & _) & _).
  destruct (wp_inv _ _ _ (wp_dc_destroy w Hi')) as ([] & w' & E'' & Hc & _ & _ & _ & _ & _ & Hq).
  exists l, w, w'. done.
Qed.

End history.

(** A history: directories, a file, a move, a look, an eviction, a grace period. *)
Definition demo : list call :=
  [CAdd p_a 1 true true; CAdd p_ax 2 false true; CExchange p_a p_b; CLookup p_ax; CDelete p_ax;
   CUnlink p_ax; CShrink 3; CBarrier; CCensus].

Lemma demo_obeys r N : obeys r N demo.
Proof. unfold demo. simpl. repeat (split; [try path_by_decide; try done; split; path_by_decide | intros ? ? _]). done. Qed.

Lemma history_refines_witness :
  ∃ w0 answers w, dc_create true true 0 qstr_zero 8 = Ok (Some w0) ∧ exec_all demo w0 = Ok (answers, w) ∧
    eng_steps 64 {[64 := root_node 64]} demo answers (ns w).
Proof.
  destruct (history_refines 0 qstr_zero 8 64 demo) as (w0 & l & w & E & E' & _ & Hs);
    [lia | reflexivity | by vm_compute | apply demo_obeys |].
  exists w0, l, w. split; [assumption |]. split; assumption.
Defined.

Lemma history_then_destroy_witness :
  ∃ answers w w', exec_all demo scene0 = Ok (answers, w) ∧ dc_destroy w = Ok (tt, w') ∧ w_core w' = ∅.
Proof.
  destruct (history_then_destroy 3 qstr_zero 5 64 demo scene0) as (l & w & w' & E & E' & Hc & _);
    [lia | reflexivity | by vm_compute | by vm_compute | apply demo_obeys |].
  exists l, w, w'. split; [assumption |]. split; assumption.
Defined.
