(* ===== verification/Findings.v ===== *)
(** Where the code does less than it means to. *)

From S2P Require Import Prelude Qstr HList HashTab Children Lru Seqcount World Walk Ops Reclaim.
From S2P Require Import Namespace Inv WalkSpec OpsSpec RenameSpec Lifecycle Scene Api History.

Definition p_f : dc_path := P [47; 102].
Definition p_x : dc_path := P [47; 120].
Definition p_y : dc_path := P [47; 121].
Definition p_fx : dc_path := P [47; 102; 47; 120].
Definition p_fy : dc_path := P [47; 102; 47; 121].

(** [dc_rename] puts a dentry below a plain file: it checks that the new
    parent is hashed and positive, not that it is a directory, although [dc_add]
    below the same file is refused with -ENOTDIR. *)
Theorem dc_rename_below_file :
  ∃ w, exec_all [CAdd p_f 1 false true; CAdd p_x 2 false true; CRename p_x p_fx;
                 CAdd p_fy 3 false true; CLookup p_fx] scene0
       = Ok ([ARet 0; ARet 0; ARet 0; ARet (- ENOTDIR); ALookup (DC_POSITIVE, Some 192)], w).
Proof. eexists. by vm_compute. Qed.

(** The world after a history that is expected to return. *)
Definition ran (cs : list call) (w : world) : world :=
  match exec_all cs w with Ok (_, w') => w' | Err _ => w end.

Definition code_of {A} (m : M A) (w : world) : option A :=
  match m w with Ok (a, _) => Some a | Err _ => None end.

(** A child under a file, the file made negative and renamed over. *)
Definition dangling_history : list call :=
  [CAdd p_f 1 false true; CAdd p_x 2 false true; CRename p_x p_fx; CDelete p_f;
   CAdd p_y 3 false true; CRename p_y p_f].

(** The consequence: [dc_delete] lets the file with a child turn negative
    (it counts children of directories only), a rename over that negative entry
    frees it, and the child left behind points to freed memory: after a grace
    period the shrinker (its first pass clears the referenced bits) follows the
    stale d_parent. *)
Theorem dc_rename_below_file_dangles :
  code_of (exec_all dangling_history) scene0 = Some [ARet 0; ARet 0; ARet 0; ARet 0; ARet 0; ARet 0] ∧
  exec_all [CBarrier; CShrink 100; CShrink 100] (ran dangling_history scene0) = Err BadPtr.
Proof. split; by vm_compute. Qed.

(** C40: [dc_create] never returns when asked for more than 2^31 buckets: the
    doubled 32-bit count wraps to 0 before it reaches the number asked for,
    whatever number of rounds the loop is given. *)
Theorem dc_create_rounding_diverges nb fuel : 2 ^ 31 < nb < 2 ^ 32 → round_up fuel 1 nb = Err NoFuel.
Proof. apply round_up_diverges. Qed.

Lemma dc_create_rounding_diverges_witness : round_up 1000 1 (2 ^ 31 + 1) = Err NoFuel.
Proof. apply (dc_create_rounding_diverges (2 ^ 31 + 1) 1000). lia. Defined.

(** [dc_create] does not check the allocation of the root dentry: when it
    fails the store of the root's parent goes through a null pointer. *)
Theorem dc_create_root_unchecked `{Memalign} node stack nb :
  0 ≤ nb ≤ 2 ^ 31 → posix_memalign ∅ = None →
  dc_create true true node stack nb = Err BadPtr.
Proof.
  intros Hn Hm. unfold dc_create. cbn [negb]. destruct (round_up_pow2 nb Hn) as (b & _ & -> & _).
  unfold dentry_alloc, st_bind, st_get. cbn [w_core dcache0]. by rewrite dom_empty_L, Hm.
Qed.

Lemma dc_create_root_unchecked_witness :
  @dc_create (λ _, None) true true 0 qstr_zero 8 = Err BadPtr.
Proof. apply (@dc_create_root_unchecked (λ _, None) 0 qstr_zero 8); [lia | reflexivity]. Defined.
