(* ===== verification/BlChain.v ===== *)
(** The intrusive lists of dcache_bucketlock.c: hash buckets and child lists are
    the same [urcu_txn_sw_hlist], a head word that carries a write lock in bit 2,
    nodes whose forward link carries a deletion mark in bit 1, and back links to
    the slot that names each node.

    [chn] is all lists of one kind (all buckets, or all child lists): the head
    words by number (bucket index, or address of the directory), the nodes by the
    address of the dentry they are embedded in. *)

From S2P Require Import Prelude HList.

(** What [pprev] points to: a head word, or a node's [next]. *)
Inductive pslot :=
  | PNull
  | PHead (i : Z)
  | PNext (d : Z).

#[export] Instance pslot_eq_dec : EqDecision pslot.
Proof. solve_decision. Defined.

Record bnode := Bnode {
  b_next : Z;                   (* next dentry | URCU_TXN_HLIST_MARK *)
  b_pprev : pslot;
}.

Record chn := Chn {
  c_first : gmap Z Z;           (* first dentry | DC_BL_LOCK *)
  c_node : gmap Z bnode;
}.

Definition URCU_TXN_HLIST_TAG : Z := 1.
Definition URCU_TXN_HLIST_MARK : Z := 2.
Definition DC_BL_LOCK : Z := 4.

Definition set_bnext (z : Z) (n : bnode) : bnode := {| b_next := z; b_pprev := b_pprev n |}.
Definition set_bpprev (s : pslot) (n : bnode) : bnode := {| b_next := b_next n; b_pprev := s |}.

Definition set_first (m : gmap Z Z) (c : chn) : chn := {| c_first := m; c_node := c_node c |}.
Definition set_node (m : gmap Z bnode) (c : chn) : chn := {| c_first := c_first c; c_node := m |}.

(** ** Loads and stores *)

Definition head_load (i : Z) : ST chn Z := st_lookup c_first i.

Definition head_store (i v : Z) : ST chn unit := λ c,
  match c_first c !! i with
  | Some _ => Ok (tt, set_first (<[i := v]> (c_first c)) c)
  | None => Err BadPtr
  end.

Definition node_load (d : Z) : ST chn bnode := st_lookup c_node d.

Definition node_store (d : Z) (f : bnode → bnode) : ST chn unit := λ c,
  match c_node c !! d with
  | Some _ => Ok (tt, set_node (alter f d (c_node c)) c)
  | None => Err BadPtr
  end.

(** The word a back link points to. *)
Definition slot_load (s : pslot) : ST chn Z :=
  match s with
  | PNull => st_fault BadPtr
  | PHead i => head_load i
  | PNext d => let! n := node_load d in st_ret (b_next n)
  end.

Definition slot_store (s : pslot) (v : Z) : ST chn unit :=
  match s with
  | PNull => st_fault BadPtr
  | PHead i => head_store i v
  | PNext d => node_store d (set_bnext v)
  end.

(** ** The bucket lock *)

Definition bl_first (h : Z) : ST chn Z :=
  let! v := head_load h in st_ret (Z.land v (Z.lnot DC_BL_LOCK)).

(** [fetch_or]; a bit that was set is waited for, and nobody is there to clear
    it. *)
Definition bl_lock (h : Z) : ST chn unit :=
  let! v := head_load h in
  head_store h (Z.lor v DC_BL_LOCK) ;;;
  if negb (Z.land v DC_BL_LOCK =? 0) then st_fault Deadlock else st_ret tt.

Definition bl_unlock (h : Z) : ST chn unit :=
  let! v := head_load h in
  head_store h (Z.land v (Z.lnot DC_BL_LOCK)).

(** ** Reading a link

    The pointer and the mark.  The tag bit stands for a commit in progress: it is
    never seen when no other thread runs, and there is no proxy to follow. *)
Definition bl_hlist_resolve {S} (ptr : Z) : ST S (Z * bool) :=
  if negb (Z.land ptr (Z.lor DC_BL_LOCK (Z.lor URCU_TXN_HLIST_TAG URCU_TXN_HLIST_MARK)) =? 0) then
    let v := if negb (Z.land ptr DC_BL_LOCK =? 0) then ptr - DC_BL_LOCK else ptr in
    if negb (Z.land v URCU_TXN_HLIST_TAG =? 0) then st_fault BadPtr
    else if negb (Z.land v URCU_TXN_HLIST_MARK =? 0) then st_ret (v - URCU_TXN_HLIST_MARK, true)
    else st_ret (v, false)
  else st_ret (ptr, false).

Definition bl_hlist_first_rcu (h : Z) : ST chn Z :=
  let! v := head_load h in
  let! r := bl_hlist_resolve v in st_ret (fst r).

Definition bl_hlist_next_rcu (d : Z) : ST chn Z :=
  let! n := node_load d in
  let! r := bl_hlist_resolve (b_next n) in st_ret (fst r).

(** The deletion mark of a node, [bl_hlist_resolve(rcu_dereference(next), &marked)]. *)
Definition bl_marked (d : Z) : ST chn bool :=
  let! n := node_load d in
  let! r := bl_hlist_resolve (b_next n) in st_ret (snd r).

(** ** Plain stores under the lock: add and unlink *)

Definition bl_set_first (h n : Z) : ST chn unit := head_store h (Z.lor n DC_BL_LOCK).

Definition bl_hlist_add_head_locked (h n : Z) : ST chn unit :=
  let! first := bl_first h in
  node_store n (set_bnext first) ;;;
  node_store n (set_bpprev (PHead h)) ;;;
  when (negb (first =? 0)) (node_store first (set_bpprev (PNext n))) ;;;
  bl_set_first h n.

Definition bl_hlist_del_locked (n : Z) : ST chn unit :=
  let! nd := node_load n in
  let ppv := b_pprev nd in
  let next := Z.land (b_next nd) (Z.lnot URCU_TXN_HLIST_MARK) in
  let! w := slot_load ppv in
  let lockbit := Z.land w DC_BL_LOCK in
  node_store n (set_bnext (Z.lor next URCU_TXN_HLIST_MARK)) ;;;
  slot_store ppv (Z.lor next lockbit) ;;;
  when (negb (next =? 0)) (node_store next (set_bpprev ppv)).

(** ** Records of a single-writer transaction

    What [dc_sw_record] hands to the transaction: the slot, the value it holds,
    the value the commit gives it, and the proxy tag used meanwhile. *)

Inductive lrec :=
  | RWord (s : pslot) (old new tag : Z)
  | RBack (n : Z) (old new : pslot) (tag : Z).

Definition DC_HTAG : Z := URCU_TXN_HLIST_TAG.
Definition DC_HLOCKTAG : Z := Z.lor DC_HTAG DC_BL_LOCK.

(** [if (next) dc_sw_record(...)] *)
Definition rec_if (n : Z) (r : lrec) : list lrec := if negb (n =? 0) then [r] else [].

Definition bl_sw_add_head (newp head : Z) : ST chn (list lrec) :=
  let! succ := bl_first head in
  node_store newp (set_bnext succ) ;;;
  node_store newp (set_bpprev (PHead head)) ;;;
  st_ret (RWord (PHead head) (Z.lor succ DC_BL_LOCK) (Z.lor newp DC_BL_LOCK) DC_HLOCKTAG
          :: rec_if succ (RBack succ (PHead head) (PNext newp) DC_HTAG)).

Definition bl_sw_del_marked (elem : Z) : ST chn (list lrec) :=
  let! nd := node_load elem in
  let ppv := b_pprev nd in
  let next := Z.land (b_next nd) (Z.lnot URCU_TXN_HLIST_MARK) in
  let! w := slot_load ppv in
  let lk := Z.land w DC_BL_LOCK in
  st_ret (RWord ppv (Z.lor elem lk) (Z.lor next lk) (if negb (lk =? 0) then DC_HLOCKTAG else DC_HTAG)
          :: rec_if next (RBack next (PNext elem) ppv DC_HTAG)
          ++ [RWord (PNext elem) next (Z.lor next URCU_TXN_HLIST_MARK) DC_HTAG]).

Definition bl_sw_replace (oldn newn : Z) : ST chn (list lrec) :=
  let! nd := node_load oldn in
  let ppv := b_pprev nd in
  let next := Z.land (b_next nd) (Z.lnot URCU_TXN_HLIST_MARK) in
  let! w := slot_load ppv in
  let lk := Z.land w DC_BL_LOCK in
  node_store newn (set_bnext next) ;;;
  node_store newn (set_bpprev ppv) ;;;
  st_ret (RWord ppv (Z.lor oldn lk) (Z.lor newn lk) (if negb (lk =? 0) then DC_HLOCKTAG else DC_HTAG)
          :: rec_if next (RBack next (PNext oldn) (PNext newn) DC_HTAG)
          ++ [RWord (PNext oldn) next (Z.lor next URCU_TXN_HLIST_MARK) DC_HTAG]).

(** Two neighbours replaced at once: [second] follows [first]. *)
Definition bl_sw_replace_adj (first newfirst second newsecond : Z) : ST chn (list lrec) :=
  let! fd := node_load first in
  let pp := b_pprev fd in
  let! sd := node_load second in
  let succ := Z.land (b_next sd) (Z.lnot URCU_TXN_HLIST_MARK) in
  let! w := slot_load pp in
  let lk := Z.land w DC_BL_LOCK in
  node_store newfirst (set_bpprev pp) ;;;
  node_store newfirst (set_bnext newsecond) ;;;
  node_store newsecond (set_bpprev (PNext newfirst)) ;;;
  node_store newsecond (set_bnext succ) ;;;
  st_ret (RWord pp (Z.lor first lk) (Z.lor newfirst lk) (if negb (lk =? 0) then DC_HLOCKTAG else DC_HTAG)
          :: rec_if succ (RBack succ (PNext second) (PNext newsecond) DC_HTAG)
          ++ [RWord (PNext first) second (Z.lor second URCU_TXN_HLIST_MARK) DC_HTAG;
              RWord (PNext second) succ (Z.lor succ URCU_TXN_HLIST_MARK) DC_HTAG]).

Definition bl_sw_replace2 (olda newa oldb newb : Z) : ST chn (list lrec) :=
  let! a := node_load olda in
  let na := Z.land (b_next a) (Z.lnot URCU_TXN_HLIST_MARK) in
  let! b := node_load oldb in
  let nb := Z.land (b_next b) (Z.lnot URCU_TXN_HLIST_MARK) in
  if na =? oldb then bl_sw_replace_adj olda newa oldb newb
  else if nb =? olda then bl_sw_replace_adj oldb newb olda newa
  else
    let! ra := bl_sw_replace olda newa in
    let! rb := bl_sw_replace oldb newb in
    st_ret (ra ++ rb).

(** What a record asks of memory, and what the commit makes of it. *)

Definition lrec_slot (r : lrec) : pslot + Z :=
  match r with RWord s _ _ _ => inl s | RBack n _ _ _ => inr n end.

Definition lrec_ready (c : chn) (r : lrec) : Prop :=
  match r with
  | RWord (PHead i) old _ _ => c_first c !! i = Some old
  | RWord (PNext d) old _ _ => b_next <$> c_node c !! d = Some old
  | RWord PNull _ _ _ => False
  | RBack n old _ _ => b_pprev <$> c_node c !! n = Some old
  end.

Definition lrec_apply (r : lrec) (c : chn) : chn :=
  match r with
  | RWord (PHead i) _ new _ => set_first (<[i := new]> (c_first c)) c
  | RWord (PNext d) _ new _ => set_node (alter (set_bnext new) d (c_node c)) c
  | RWord PNull _ _ _ => c
  | RBack n _ new _ => set_node (alter (set_bpprev new) n (c_node c)) c
  end.

Definition lrecs_apply (l : list lrec) (c : chn) : chn := foldl (λ c r, lrec_apply r c) c l.
