(* ===== verification/BlLists.v ===== *)
(** What the lists of dcache_bucketlock.c hold, and what each operation of
    [BlChain] does to them.

    [chain_is c C B K]: the list with head [i] runs through the dentries [C i],
    its lock bit is [B !! i], and the deletion mark of node [d] is [K !! d].
    Every operation is specified as an update of the three; so is the commit of
    the records that a [bl_sw_*] function prepares. *)

From S2P Require Import Prelude HList BlChain.

#[export] Program Instance bnode_HNode : HNode bnode pslot := {|
  hn_nx := b_next; hn_pp := b_pprev; hn_set_nx := set_bnext; hn_set_pp := set_bpprev;
  hn_slot := PNext |}.
Solve Obligations with (simpl; congruence || done).

(** The pointer to the first of a list, NULL when it is empty. *)
Definition hd0 (l : list Z) : Z := default 0 (head l).

Definition marked (n : bnode) : bool := negb (Z.land (b_next n) URCU_TXN_HLIST_MARK =? 0).

Definition lockbit (b : bool) : Z := if b then DC_BL_LOCK else 0.
Definition markbit (b : bool) : Z := if b then URCU_TXN_HLIST_MARK else 0.

(** A link word: an aligned pointer and the mark. *)
Definition link_ok (n : bnode) : Prop := ∃ p, aligned p ∧ b_next n = p + markbit (marked n).

Record chain_is (c : chn) (C : Z → list Z) (B K : gmap Z bool) : Prop := {
  ci_first : ∀ i, c_first c !! i = (λ b, hd0 (C i) + lockbit b) <$> B !! i;
  ci_seg : ∀ i, hseg (c_node c) (PHead i) (hd0 (C i)) (C i);
  ci_out : ∀ i, B !! i = None → C i = [];
  ci_disj : ∀ i j d, d ∈ C i → d ∈ C j → i = j;
  ci_align : ∀ i d, d ∈ C i → aligned d;
  ci_mark : ∀ d, K !! d = marked <$> c_node c !! d;
  ci_link : ∀ d n, c_node c !! d = Some n → link_ok n;
}.

(** ** Words *)

Lemma lockbit_range b : 0 ≤ lockbit b < 64.
Proof. by destruct b. Qed.
Lemma markbit_range b : 0 ≤ markbit b < 64.
Proof. by destruct b. Qed.
#[export] Hint Resolve lockbit_range markbit_range aligned_0 : core.

Lemma marked_word p b pp : aligned p → marked (Bnode (p + markbit b) pp) = b.
Proof.
  intros Hp. unfold marked. simpl. rewrite aligned_land by (done || auto). by destruct b.
Qed.

Lemma marked_unset p pp : aligned p → marked (Bnode p pp) = false.
Proof. intros Hp. replace p with (p + markbit false) by (simpl; lia). by apply marked_word. Qed.

Lemma link_marked p pp : aligned p → link_ok (Bnode (p + markbit true) pp).
Proof. intros Hp. exists p. by rewrite marked_word. Qed.

Lemma head_clear p b : aligned p → Z.land (p + lockbit b) (Z.lnot DC_BL_LOCK) = p.
Proof. intros Hp. rewrite aligned_clear by (done || auto). destruct b; vm_compute (lockbit _ - _); lia. Qed.

Lemma head_bit p b : aligned p → Z.land (p + lockbit b) DC_BL_LOCK = lockbit b.
Proof. intros Hp. rewrite aligned_land by (done || auto). by destruct b. Qed.

Lemma link_clear p b : aligned p → Z.land (p + markbit b) (Z.lnot URCU_TXN_HLIST_MARK) = p.
Proof. intros Hp. rewrite aligned_clear by (done || auto). destruct b; vm_compute (markbit _ - _); lia. Qed.

Lemma ptr_lor_lock p b : aligned p → Z.lor p (lockbit b) = p + lockbit b.
Proof. intros Hp. by rewrite aligned_lor by auto. Qed.

Lemma ptr_lor_mark p : aligned p → Z.lor p URCU_TXN_HLIST_MARK = p + markbit true.
Proof. intros Hp. by rewrite aligned_lor by done. Qed.

(** [bl_hlist_resolve] on a head word and on a link word. *)
Lemma resolve_head {S} p b (s : S) :
  aligned p → bl_hlist_resolve (p + lockbit b) s = Ok ((p, false), s).
Proof.
  intros Hp. unfold bl_hlist_resolve. rewrite !aligned_land by (done || auto). destruct b; simpl.
  - replace (p + DC_BL_LOCK - DC_BL_LOCK) with (p + 0) by lia.
    rewrite !aligned_land by done. simpl. by rewrite Z.add_0_r.
  - by rewrite Z.add_0_r.
Qed.

Lemma resolve_link {S} n (s : S) :
  link_ok n → bl_hlist_resolve (b_next n) s = Ok ((b_next n - markbit (marked n), marked n), s).
Proof.
  intros (p & Hp & E). unfold bl_hlist_resolve. rewrite E.
  rewrite !aligned_land by (done || auto). destruct (marked n); simpl.
  - rewrite !aligned_land by done. simpl. done.
  - by rewrite Z.sub_0_r.
Qed.

(** ** Lists read off their nodes *)

Lemma app_cons_split {A} (l r k1 k2 : list A) x :
  l ++ r = k1 ++ x :: k2 →
  (∃ m, l = k1 ++ x :: m ∧ k2 = m ++ r) ∨ (∃ m, r = m ++ x :: k2 ∧ k1 = l ++ m).
Proof.
  revert k1. induction l as [| a l IH]; intros k1; simpl.
  { intros ->. right. by exists k1. }
  destruct k1 as [| b k1]; simpl; intros [= -> E].
  - left. by exists l.
  - destruct (IH _ E) as [(m & -> & ->) | (m & -> & ->)]; [left | right]; by exists m.
Qed.

Lemma prev_slot_app (s : pslot) l m :
  prev_slot (N := bnode) s (l ++ m) = prev_slot (N := bnode) (prev_slot (N := bnode) s l) m.
Proof. unfold prev_slot. rewrite last_app. by destruct (last m), (last l). Qed.

Lemma prev_slot_nonempty (s s' : pslot) m :
  m ≠ [] → prev_slot (N := bnode) s m = prev_slot (N := bnode) s' m.
Proof. unfold prev_slot. destruct (last m) eqn:E; [done |]. by apply last_None in E. Qed.

Lemma hd0_app l r : l ≠ [] → hd0 (l ++ r) = hd0 l.
Proof. by destruct l. Qed.

Lemma hseg_hd0 (nd : gmap Z bnode) s p l : hseg nd s p l → p = hd0 l.
Proof. destruct l as [| d l]; [done |]. by intros (-> & _). Qed.

Lemma hseg_intro (nd : gmap Z bnode) s l :
  (∀ l1 x l2, l = l1 ++ x :: l2 →
     x ≠ 0 ∧ nd !! x = Some (Bnode (hd0 l2) (prev_slot (N := bnode) s l1))) →
  hseg nd s (hd0 l) l.
Proof.
  revert s. induction l as [| d l IH]; intros s H; [done |].
  destruct (H [] d l eq_refl) as [H0 Hn]. split_and!; [done | done |].
  eexists. split_and!; [exact Hn | done |]. simpl. apply IH. intros l1 x l2 ->.
  destruct (H (d :: l1) x l2 eq_refl) as [? Hx]. split; [done |]. by rewrite prev_slot_cons in Hx.
Qed.

Lemma hd0_aligned c C B K i l1 l2 : chain_is c C B K → C i = l1 ++ l2 → aligned (hd0 l2).
Proof.
  intros H E. destruct l2 as [| d l2]; [apply aligned_0 |].
  apply (ci_align _ _ _ _ H i). rewrite E. apply elem_of_app. right. by left.
Qed.

Section at_node.
Context c C B K (H : chain_is c C B K).

Lemma ci_at i l1 d l2 :
  C i = l1 ++ d :: l2 →
  c_node c !! d = Some (Bnode (hd0 l2) (prev_slot (N := bnode) (PHead i) l1)) ∧ d ≠ 0 ∧
  K !! d = Some false.
Proof.
  intros E. pose proof (ci_seg _ _ _ _ H i) as Hs. rewrite E in Hs.
  destruct (hseg_app _ _ _ _ _ _ Hs) as ([nx pp] & Hn & Hpp & Hr). simpl in *. subst pp.
  rewrite (hseg_hd0 _ _ _ _ Hr) in Hn. split_and!; [done | |].
  - intros ->. apply (hseg_nonzero _ _ _ _ Hs). apply elem_of_app. right. by left.
  - rewrite (ci_mark _ _ _ _ H), Hn. simpl. f_equal. apply marked_unset.
    apply (hd0_aligned c C B K i (l1 ++ [d])); [done |]. by rewrite E, <- app_assoc.
Qed.

Lemma ci_nodup i : NoDup (C i).
Proof. eapply hseg_nodup, (ci_seg _ _ _ _ H i). Qed.

Lemma ci_not_fresh i d : d ∈ C i → K !! d = Some false.
Proof. intros (l1 & l2 & E)%list_elem_of_split. by destruct (ci_at i l1 d l2 E) as (_ & _ & ?). Qed.

Lemma ci_marked_out d : K !! d = Some true → ∀ i, d ∉ C i.
Proof. intros Hd i Hi%ci_not_fresh. congruence. Qed.

Lemma ci_bit i d : d ∈ C i → ∃ b, B !! i = Some b.
Proof.
  intros Hd. destruct (B !! i) eqn:E; [eauto |]. rewrite (ci_out _ _ _ _ H i E) in Hd.
  by apply not_elem_of_nil in Hd.
Qed.

Lemma ci_nonzero i : 0 ∉ C i.
Proof. eapply hseg_nonzero, (ci_seg _ _ _ _ H i). Qed.

Lemma ci_length i : (length (C i) ≤ size (c_node c))%nat.
Proof. eapply hseg_length, (ci_seg _ _ _ _ H i). Qed.

Lemma ci_node d b : K !! d = Some b → ∃ n, c_node c !! d = Some n ∧ marked n = b ∧ link_ok n.
Proof.
  rewrite (ci_mark _ _ _ _ H). intros (n & Hn & ->)%fmap_Some. exists n. eauto using ci_link.
Qed.

Lemma ci_head i b : B !! i = Some b → c_first c !! i = Some (hd0 (C i) + lockbit b).
Proof. intros E. by rewrite (ci_first _ _ _ _ H), E. Qed.

Lemma ci_head_aligned i : aligned (hd0 (C i)).
Proof. by apply (hd0_aligned c C B K i []). Qed.
End at_node.

(** ** Surgery on one list

    Every operation replaces some nodes [mid] in the middle of a list by others
    [mid']: only the words next to them, the new nodes and the old ones change. *)

Definition mark_all (b : bool) (l : list Z) (K : gmap Z bool) : gmap Z bool :=
  foldr (λ d, <[d := b]>) K l.

Lemma mark_all_lookup b l K x :
  mark_all b l K !! x = if decide (x ∈ l) then Some b else K !! x.
Proof.
  induction l as [| d l IH]; [by rewrite decide_False by apply not_elem_of_nil |].
  change (mark_all b (d :: l) K) with (<[d := b]> (mark_all b l K)).
  destruct (decide (x = d)) as [-> |].
  - rewrite lookup_insert_eq, decide_True; [done | by left].
  - rewrite lookup_insert_ne, IH by done. apply decide_ext. rewrite elem_of_cons. tauto.
Qed.

Record surgery (c c' : chn) (i : Z) (l1 mid mid' l2 : list Z) (b : bool) : Prop := {
  su_first : ∀ j, c_first c' !! j =
    if decide (j = i ∧ l1 = []) then Some (hd0 (mid' ++ l2) + lockbit b) else c_first c !! j;
  su_node : ∀ x, x ∉ mid → x ∉ mid' → c_node c' !! x =
    (λ n, Bnode (if decide (last l1 = Some x) then hd0 (mid' ++ l2) else b_next n)
                (if decide (head l2 = Some x)
                 then prev_slot (N := bnode) (prev_slot (N := bnode) (PHead i) l1) mid'
                 else b_pprev n)) <$> c_node c !! x;
  su_new : ∀ m1 x m2, mid' = m1 ++ x :: m2 → c_node c' !! x =
    Some (Bnode (hd0 (m2 ++ l2))
                (prev_slot (N := bnode) (prev_slot (N := bnode) (PHead i) l1) m1));
  su_old : ∀ x, x ∈ mid → ∃ n, c_node c' !! x = Some n ∧ link_ok n ∧ marked n = true;
}.

Section surgery.
Context c C B K (H : chain_is c C B K).
Context (i : Z) (l1 mid mid' l2 : list Z) (b : bool) (HC : C i = l1 ++ mid ++ l2) (Hb : B !! i = Some b).
Context (Hfresh : ∀ j x, x ∈ mid' → x ∉ C j) (Hnew : NoDup mid').
Context (Halign : ∀ x, x ∈ mid' → aligned x ∧ x ≠ 0).

Lemma surgery_nodup : NoDup (l1 ++ mid' ++ l2).
Proof.
  pose proof (ci_nodup _ _ _ _ H i) as Hn. rewrite HC in Hn.
  apply NoDup_app in Hn as (? & Hd1 & (? & Hd2 & ?)%NoDup_app).
  pose proof (λ x Hx, Hfresh i x Hx) as Hf. rewrite HC in Hf.
  apply NoDup_app. split_and!; [done | |].
  - intros x Hx [Hx' | Hx']%elem_of_app; [| apply (Hd1 x Hx); rewrite elem_of_app; auto].
    apply (Hf x Hx'). rewrite elem_of_app. auto.
  - apply NoDup_app. split_and!; [done | | done].
    intros x Hx Hx'. apply (Hf x Hx). rewrite !elem_of_app. auto.
Qed.

Lemma surgery_outside c' x :
  surgery c c' i l1 mid mid' l2 b → x ∉ l1 → x ∉ mid → x ∉ mid' → x ∉ l2 →
  c_node c' !! x = c_node c !! x.
Proof.
  intros S H1 H2 H3 H4. rewrite (su_node _ _ _ _ _ _ _ _ S) by done.
  destruct (c_node c !! x) as [[nx pp] |]; simpl; [| done]. rewrite !decide_False; [done | |].
  - intros E. destruct l2; simplify_eq/=. apply H4. by left.
  - by intros ?%last_Some_elem_of.
Qed.

(** The nodes of the list that results. *)
Lemma surgery_at c' k1 x k2 :
  surgery c c' i l1 mid mid' l2 b → l1 ++ mid' ++ l2 = k1 ++ x :: k2 →
  c_node c' !! x = Some (Bnode (hd0 k2) (prev_slot (N := bnode) (PHead i) k1)).
Proof.
  intros S E. pose proof surgery_nodup as Hnd.
  pose proof (ci_nodup _ _ _ _ H i) as Hnd0. rewrite HC in Hnd0.
  apply NoDup_app in Hnd as (Hn1 & Hd1 & (Hnm & Hd2 & Hn2)%NoDup_app).
  apply NoDup_app in Hnd0 as (_ & Hd3 & (_ & Hd4 & _)%NoDup_app).
  apply app_cons_split in E as [(m & E & ->) | (r & E & ->)].
  - (* before the cut *)
    assert (x ∈ l1) as Hx by (rewrite E; apply elem_of_app; right; by left).
    rewrite (su_node _ _ _ _ _ _ _ _ S);
      [| intros ?; apply (Hd3 x Hx); rewrite elem_of_app; auto
       | intros ?; apply (Hd1 x Hx); rewrite elem_of_app; auto].
    destruct (ci_at _ _ _ _ H i k1 x (m ++ mid ++ l2)) as (-> & _); [by rewrite HC, E, <- app_assoc |].
    simpl. rewrite (decide_False (P := head l2 = Some x)).
    2:{ intros Ex. apply (Hd1 x Hx). rewrite elem_of_app. right. destruct l2; simplify_eq/=. by left. }
    rewrite E, last_app, last_cons. destruct (last m) as [y |] eqn:Ey.
    + rewrite decide_False, !hd0_app by (destruct m; done || (intros [= ->];
        rewrite E in Hn1; apply NoDup_app in Hn1 as (_ & _ & [Hxm _]%NoDup_cons);
        apply Hxm; by eapply last_Some_elem_of)). done.
    + apply last_None in Ey as ->. by rewrite decide_True.
  - apply app_cons_split in E as [(m & E & ->) | (m & E & ->)].
    + rewrite (su_new _ _ _ _ _ _ _ _ S r x m E). by rewrite prev_slot_app.
    + (* behind it *)
      assert (x ∈ l2) as Hx by (rewrite E; apply elem_of_app; right; by left).
      rewrite (su_node _ _ _ _ _ _ _ _ S);
        [| intros Hx'; by apply (Hd4 x Hx') | intros Hx'; by apply (Hd2 x Hx')].
      destruct (ci_at _ _ _ _ H i (l1 ++ mid ++ m) x k2) as (-> & _);
        [by rewrite HC, E, <- !app_assoc |].
      simpl. rewrite (decide_False (P := last l1 = Some x)).
      2:{ intros Ex%last_Some_elem_of. apply (Hd1 x Ex). rewrite elem_of_app. auto. }
      rewrite E. destruct m as [| y m]; simpl.
      * by rewrite decide_True, !prev_slot_app by done.
      * rewrite decide_False.
        -- rewrite !prev_slot_app. do 2 f_equal. by apply prev_slot_nonempty.
        -- intros [= ->]. rewrite E in Hn2. apply NoDup_cons in Hn2 as [Hx2 _].
           apply Hx2. rewrite elem_of_app. right. by left.
Qed.

Lemma surgery_ok c' :
  surgery c c' i l1 mid mid' l2 b →
  chain_is c' (<[i := l1 ++ mid' ++ l2]> C) B (mark_all true mid (mark_all false mid' K)).
Proof.
  intros S.
  assert (∀ j x, x ∈ (<[i := l1 ++ mid' ++ l2]> C) j → x ∈ mid' ∧ j = i ∨ x ∈ C j) as Hmem.
  { intros j x. destruct (decide (i = j)) as [<- |];
      rewrite ?fn_lookup_insert, ?fn_lookup_insert_ne by done; [| tauto].
    rewrite HC, !elem_of_app. tauto. }
  split.
  - intros j. rewrite (su_first _ _ _ _ _ _ _ _ S). destruct (decide (i = j)) as [<- | Hj].
    + rewrite fn_lookup_insert, Hb. simpl. case_decide as Hl.
      * by destruct Hl as [_ ->].
      * rewrite (ci_head _ _ _ _ H i b Hb), HC. by rewrite !hd0_app by naive_solver.
    + rewrite fn_lookup_insert_ne, decide_False by naive_solver. apply H.
  - intros j. destruct (decide (i = j)) as [<- | Hj].
    + rewrite fn_lookup_insert. apply hseg_intro. intros k1 x k2 E. split; [| by apply surgery_at].
      assert (x ∈ (<[i := l1 ++ mid' ++ l2]> C) i) as Hx.
      { rewrite fn_lookup_insert, E. apply elem_of_app. right. by left. }
      destruct (Hmem i x Hx) as [[Hx' _] | Hx']; [by apply Halign |].
      intros ->. by apply (ci_nonzero _ _ _ _ H i).
    + rewrite fn_lookup_insert_ne by done. eapply hseg_frame; [| apply (ci_seg _ _ _ _ H)].
      intros x Hx. unfold links. rewrite (surgery_outside c'); [done | done | ..].
      1, 2, 4: intros Hi; apply Hj, (ci_disj _ _ _ _ H i j x); [| done]; rewrite HC, !elem_of_app; auto.
      intros Hi. by apply (Hfresh j x Hi).
  - intros j Hj. rewrite fn_lookup_insert_ne by congruence. by apply (ci_out _ _ _ _ H).
  - intros j k x [[Hx1 ->] | Hx1]%Hmem [[Hx2 ->] | Hx2]%Hmem; try done.
    + by apply Hfresh in Hx2.
    + by apply Hfresh in Hx1.
    + by eapply (ci_disj _ _ _ _ H).
  - intros j x [[Hx ->] | Hx]%Hmem; [by apply Halign | by eapply (ci_align _ _ _ _ H)].
  - intros x. rewrite !mark_all_lookup. case_decide as Hx.
    { destruct (su_old _ _ _ _ _ _ _ _ S x Hx) as (n & -> & _ & <-). done. }
    case_decide as Hx'.
    { apply list_elem_of_split in Hx' as (m1 & m2 & E).
      rewrite (su_new _ _ _ _ _ _ _ _ S m1 x m2 E). simpl. f_equal. symmetry. apply marked_unset.
      destruct m2 as [| y m2]; [| apply Halign; rewrite E; apply elem_of_app; right; right; left].
      apply (hd0_aligned c C B K i (l1 ++ mid)); [done |]. by rewrite HC, app_assoc. }
    rewrite (su_node _ _ _ _ _ _ _ _ S), (ci_mark _ _ _ _ H) by done.
    destruct (c_node c !! x) as [n |] eqn:En; [| done]. simpl. f_equal.
    unfold marked. simpl. case_decide as El; [| done].
    assert (∃ l3, C i = l3 ++ x :: mid ++ l2) as [l3 E3].
    { apply last_Some in El as [l3 ->]. exists l3. by rewrite HC, <- app_assoc. }
    destruct (ci_at _ _ _ _ H i l3 x (mid ++ l2) E3) as (En' & _ & HK).
    rewrite (ci_mark _ _ _ _ H), En in HK. simpl in HK. injection HK as HK. unfold marked in HK.
    rewrite HK. symmetry. apply (marked_unset _ (b_pprev n)).
    destruct mid' as [| y m']; [| apply Halign; by left].
    apply (hd0_aligned c C B K i (l1 ++ mid)); [done |]. by rewrite HC, app_assoc.
  - intros x n Hn. destruct (decide (x ∈ mid)) as [Hx | Hx].
    { destruct (su_old _ _ _ _ _ _ _ _ S x Hx) as (n' & Hn' & ? & _). by simplify_eq. }
    assert (aligned (hd0 (mid' ++ l2))) as Ha.
    { destruct mid' as [| y m']; [| apply Halign; by left].
      apply (hd0_aligned c C B K i (l1 ++ mid)); [done |]. by rewrite HC, app_assoc. }
    destruct (decide (x ∈ mid')) as [Hx' | Hx'].
    { apply list_elem_of_split in Hx' as (m1 & m2 & E).
      rewrite (su_new _ _ _ _ _ _ _ _ S m1 x m2 E) in Hn. injection Hn as <-.
      assert (aligned (hd0 (m2 ++ l2))) as Ha'.
      { destruct m2 as [| y m2]; [| apply Halign; rewrite E; apply elem_of_app; right; right; left].
        apply (hd0_aligned c C B K i (l1 ++ mid)); [done |]. by rewrite HC, app_assoc. }
      exists (hd0 (m2 ++ l2)). split; [done |]. rewrite marked_unset by done. simpl. lia. }
    rewrite (su_node _ _ _ _ _ _ _ _ S) in Hn by done.
    destruct (c_node c !! x) as [n0 |] eqn:En; [| done]. simpl in Hn. injection Hn as <-.
    case_decide; [| exact (ci_link _ _ _ _ H x n0 En)].
    exists (hd0 (mid' ++ l2)). split; [done |]. rewrite marked_unset by done. simpl. lia.
Qed.
End surgery.

(** ** The cut

    What every operation does to the words around the nodes it takes out or puts
    in: the slot before them gets pointer [q], the node behind them the back link
    [s']. *)

Definition cut_bit (l1 : list Z) (b : bool) : Z := match l1 with [] => lockbit b | _ => 0 end.

Lemma cut_bit_snoc l t b : cut_bit (l ++ [t]) b = 0.
Proof. by destruct l. Qed.

Definition cut (i : Z) (l1 l2 : list Z) (q : Z) (b : bool) (s' : pslot) (c : chn) : chn :=
  lrecs_apply (RWord (prev_slot (N := bnode) (PHead i) l1) 0 (q + cut_bit l1 b) 0
               :: rec_if (hd0 l2) (RBack (hd0 l2) PNull s' 0)) c.

Lemma lookup_back (l : list Z) s' (m : gmap Z bnode) x :
  0 ∉ l →
  (if negb (hd0 l =? 0) then alter (set_bpprev s') (hd0 l) m else m) !! x =
  (λ n, Bnode (b_next n) (if decide (head l = Some x) then s' else b_pprev n)) <$> m !! x.
Proof.
  intros H0. destruct l as [| h l]; simpl.
  { by destruct (m !! x) as [[]|]. }
  unfold hd0. simpl. apply not_elem_of_cons in H0 as [H0 _].
  destruct (Z.eqb_spec h 0); [congruence |]. simpl. rewrite lookup_alter.
  case_decide as E; subst.
  - destruct (m !! x); simpl; [| done]. by rewrite decide_True.
  - destruct (m !! x) as [[]|]; simpl; [| done]. rewrite decide_False by congruence. done.
Qed.

Lemma cut_node i l1 l2 q b s' c x :
  0 ∉ l2 → c_node (cut i l1 l2 q b s' c) !! x =
  (λ n, Bnode (if decide (last l1 = Some x) then q else b_next n)
              (if decide (head l2 = Some x) then s' else b_pprev n)) <$> c_node c !! x.
Proof.
  intros H0. unfold cut, prev_slot.
  assert (∀ c1, c_node (lrecs_apply (rec_if (hd0 l2) (RBack (hd0 l2) PNull s' 0)) c1) =
                if negb (hd0 l2 =? 0) then alter (set_bpprev s') (hd0 l2) (c_node c1) else c_node c1)
    as E by (intros; unfold rec_if; by destruct (hd0 l2 =? 0)).
  change (lrecs_apply (?r :: ?l) c) with (lrecs_apply l (lrec_apply r c)).
  rewrite E, lookup_back by done. destruct l1 as [| t l1 _] using rev_ind; simpl.
  { by destruct (c_node c !! x) as [[]|]. }
  rewrite last_snoc, cut_bit_snoc. simpl. rewrite Z.add_0_r, lookup_alter.
  destruct (decide (t = x)) as [<- |].
  - destruct (c_node c !! t) as [[]|]; simpl; [| done].
    by rewrite (decide_True (P := Some t = Some t)).
  - destruct (c_node c !! x) as [[]|]; simpl; [| done].
    rewrite (decide_False (P := Some t = Some x)) by congruence. done.
Qed.

Lemma cut_first i l1 l2 q b s' c j :
  is_Some (c_first c !! i) → c_first (cut i l1 l2 q b s' c) !! j =
  if decide (j = i ∧ l1 = []) then Some (q + lockbit b) else c_first c !! j.
Proof.
  intros Hi. unfold cut, prev_slot.
  assert (∀ c1, c_first (lrecs_apply (rec_if (hd0 l2) (RBack (hd0 l2) PNull s' 0)) c1) = c_first c1)
    as E by (intros; unfold rec_if; by destruct (hd0 l2 =? 0)).
  change (lrecs_apply (?r :: ?l) c) with (lrecs_apply l (lrec_apply r c)).
  rewrite E. destruct l1 as [| t l1 _] using rev_ind; simpl.
  - destruct (decide (j = i)) as [-> |].
    + by rewrite lookup_insert_eq, decide_True.
    + rewrite lookup_insert_ne, decide_False by naive_solver. done.
  - rewrite last_snoc. simpl. rewrite decide_False; [done |]. by destruct l1; intros [_ ?].
Qed.

Section ops.
Context c C B K (H : chain_is c C B K).

(** *** Locks *)

Lemma ci_set_bit i b0 b :
  B !! i = Some b0 →
  chain_is (set_first (<[i := hd0 (C i) + lockbit b]> (c_first c)) c) C (<[i := b]> B) K.
Proof.
  intros Hi. split; simpl; try apply H.
  - intros j. destruct (decide (i = j)) as [<- |].
    + by rewrite !lookup_insert_eq.
    + rewrite !lookup_insert_ne by done. apply H.
  - intros j Hj. destruct (decide (i = j)) as [<- |].
    + by rewrite lookup_insert_eq in Hj.
    + rewrite lookup_insert_ne in Hj by done. by apply (ci_out _ _ _ _ H).
Qed.

Lemma head_store_ok i b v :
  B !! i = Some b → head_store i v c = Ok (tt, set_first (<[i := v]> (c_first c)) c).
Proof. intros Hi. unfold head_store. by rewrite (ci_head _ _ _ _ H i b Hi). Qed.

Lemma wp_chain_lock i :
  B !! i = Some false →
  wp (bl_lock i) (λ _ c', chain_is c' C (<[i := true]> B) K ∧ c_node c' = c_node c) c.
Proof.
  intros Hi. pose proof (ci_head_aligned _ _ _ _ H i) as Ha. unfold bl_lock. wp_step.
  eapply wp_lookup; [by eapply ci_head |]. wp_step.
  eapply wp_run; [by eapply head_store_ok |]. rewrite head_bit by done. simpl. wp_step. simpl.
  rewrite Z.add_0_r, (ptr_lor_lock _ true) by done. split; [by eapply ci_set_bit | done].
Qed.

Lemma wp_chain_unlock i b :
  B !! i = Some b →
  wp (bl_unlock i) (λ _ c', chain_is c' C (<[i := false]> B) K ∧ c_node c' = c_node c) c.
Proof.
  intros Hi. pose proof (ci_head_aligned _ _ _ _ H i) as Ha. unfold bl_unlock. wp_step.
  eapply wp_lookup; [by eapply ci_head |]. eapply wp_run; [by eapply head_store_ok |].
  rewrite head_clear by done. rewrite <- (Z.add_0_r (hd0 (C i))). split; [| done].
  by apply (ci_set_bit i b false).
Qed.

(** *** Reads *)

Lemma wp_bl_hlist_first_rcu i b Q :
  B !! i = Some b → Q (hd0 (C i)) c → wp (bl_hlist_first_rcu i) Q c.
Proof.
  intros Hi HQ. pose proof (ci_head_aligned _ _ _ _ H i) as Ha. unfold bl_hlist_first_rcu. wp_step.
  eapply wp_lookup; [by eapply ci_head |]. wp_step. eapply wp_run; [by apply resolve_head |].
  by wp_step.
Qed.

Lemma wp_bl_first i b Q : B !! i = Some b → Q (hd0 (C i)) c → wp (bl_first i) Q c.
Proof.
  intros Hi HQ. unfold bl_first. wp_step. eapply wp_lookup; [by eapply ci_head |].
  rewrite head_clear by (by eapply ci_head_aligned). by wp_step.
Qed.

Lemma wp_bl_hlist_next_rcu i l1 d l2 Q :
  C i = l1 ++ d :: l2 → Q (hd0 l2) c → wp (bl_hlist_next_rcu d) Q c.
Proof.
  intros E HQ. destruct (ci_at _ _ _ _ H i l1 d l2 E) as (Hn & _ & HK).
  pose proof (ci_link _ _ _ _ H d _ Hn) as Hl. rewrite (ci_mark _ _ _ _ H), Hn in HK.
  injection HK as HK. unfold bl_hlist_next_rcu. wp_step. eapply wp_lookup; [done |]. wp_step.
  eapply wp_run; [by apply resolve_link |]. rewrite HK. simpl. wp_step. by rewrite Z.sub_0_r.
Qed.

Lemma wp_bl_marked d b Q : K !! d = Some b → Q b c → wp (bl_marked d) Q c.
Proof.
  intros Hd HQ. destruct (ci_node _ _ _ _ H d b Hd) as (n & Hn & <- & Hl).
  unfold bl_marked. wp_step. eapply wp_lookup; [done |]. wp_step.
  eapply wp_run; [by apply resolve_link |]. by wp_step.
Qed.

(** *** The slot before a node *)

Lemma slot_word i b l1 d l2 :
  B !! i = Some b → C i = l1 ++ d :: l2 →
  slot_load (prev_slot (N := bnode) (PHead i) l1) c = Ok (d + cut_bit l1 b, c).
Proof.
  intros Hi E. unfold prev_slot. destruct l1 as [| t l1 _] using rev_ind; simpl.
  - unfold head_load, st_lookup. rewrite (ci_head _ _ _ _ H i b Hi), E. done.
  - rewrite last_snoc, cut_bit_snoc. simpl. unfold st_bind, node_load, st_lookup.
    destruct (ci_at _ _ _ _ H i l1 t (d :: l2)) as (-> & _); [by rewrite E, <- app_assoc |].
    unfold hd0. simpl. by rewrite Z.add_0_r.
Qed.

Lemma cut_bit_range l1 b : 0 ≤ cut_bit l1 b < 64.
Proof. destruct l1; simpl; [auto | done]. Qed.

Lemma cut_bit_land l1 b p : aligned p → Z.land (p + cut_bit l1 b) DC_BL_LOCK = cut_bit l1 b.
Proof.
  intros Hp. rewrite aligned_land by (done || apply cut_bit_range). by destruct l1, b.
Qed.

(** *** From a cut to the list that results *)

Lemma surgery_cut i l1 mid mid' l2 b c1 c' :
  B !! i = Some b → C i = l1 ++ mid ++ l2 → (∀ j x, x ∈ mid' → x ∉ C j) →
  c_first c1 = c_first c →
  (∀ x, x ∉ mid → x ∉ mid' → c_node c1 !! x = c_node c !! x) →
  (∀ m1 x m2, mid' = m1 ++ x :: m2 → c_node c1 !! x =
    Some (Bnode (hd0 (m2 ++ l2)) (prev_slot (N := bnode) (prev_slot (N := bnode) (PHead i) l1) m1))) →
  c_first c' = c_first (cut i l1 l2 (hd0 (mid' ++ l2)) b
    (prev_slot (N := bnode) (prev_slot (N := bnode) (PHead i) l1) mid') c1) →
  (∀ x, x ∉ mid → c_node c' !! x = c_node (cut i l1 l2 (hd0 (mid' ++ l2)) b
    (prev_slot (N := bnode) (prev_slot (N := bnode) (PHead i) l1) mid') c1) !! x) →
  (∀ x, x ∈ mid → ∃ n, c_node c' !! x = Some n ∧ link_ok n ∧ marked n = true) →
  surgery c c' i l1 mid mid' l2 b.
Proof.
  intros Hb HC Hf E1 Hsame Hnew E2 Hcut Hold.
  assert (0 ∉ l2) as H0.
  { intros H0. apply (ci_nonzero _ _ _ _ H i). rewrite HC, !elem_of_app. auto. }
  split; [| | | done].
  - intros j. rewrite E2, cut_first, E1; [done |]. rewrite E1.
    eexists. by eapply ci_head.
  - intros x Hx Hx'. by rewrite Hcut, cut_node, Hsame by done.
  - intros m1 x m2 E. assert (x ∈ mid') as Hx by (rewrite E; apply elem_of_app; right; by left).
    pose proof (Hf i x Hx) as Hxi. rewrite HC, !elem_of_app in Hxi.
    rewrite Hcut, cut_node, (Hnew m1 x m2 E) by tauto. simpl. rewrite !decide_False; [done | |].
    + intros Eh. apply Hxi. right; right. destruct l2; simplify_eq/=. by left.
    + intros El%last_Some_elem_of. tauto.
Qed.

(** *** Plain stores *)

Lemma node_store_ok (c1 : chn) d f :
  is_Some (c_node c1 !! d) → node_store d f c1 = Ok (tt, set_node (alter f d (c_node c1)) c1).
Proof. intros [n Hn]. unfold node_store. by rewrite Hn. Qed.

Lemma when_store_ok (c1 : chn) d f :
  (d ≠ 0 → is_Some (c_node c1 !! d)) →
  when (negb (d =? 0)) (node_store d f) c1 =
  Ok (tt, set_node (if negb (d =? 0) then alter f d (c_node c1) else c_node c1) c1).
Proof.
  intros Hd. unfold when. destruct (Z.eqb_spec d 0); simpl; [by destruct c1 |].
  by apply node_store_ok, Hd.
Qed.

(** A store through the back link of a list's node. *)
Lemma slot_store_ok (c1 : chn) i b l1 d l2 v :
  B !! i = Some b → C i = l1 ++ d :: l2 →
  c_first c1 = c_first c → (∀ x, is_Some (c_node c !! x) → is_Some (c_node c1 !! x)) →
  slot_store (prev_slot (N := bnode) (PHead i) l1) v c1 =
  Ok (tt, lrec_apply (RWord (prev_slot (N := bnode) (PHead i) l1) 0 v 0) c1).
Proof.
  intros Hb HC E1 Hdom. unfold prev_slot. destruct l1 as [| t l1 _] using rev_ind; simpl.
  - unfold head_store. by rewrite E1, (ci_head _ _ _ _ H i b Hb).
  - rewrite last_snoc. simpl. apply node_store_ok, Hdom.
    destruct (ci_at _ _ _ _ H i l1 t (d :: l2)) as (-> & _); [by rewrite HC, <- app_assoc | eauto].
Qed.

Lemma behind_some i l1 d l2 : C i = l1 ++ d :: l2 → hd0 l2 ≠ 0 → is_Some (c_node c !! hd0 l2).
Proof.
  intros HC Hh. destruct l2 as [| h l2]; [done |]. unfold hd0 in *. simpl in *.
  destruct (ci_at _ _ _ _ H i (l1 ++ [d]) h l2) as (-> & _); [by rewrite HC, <- app_assoc | eauto].
Qed.

Lemma wp_bl_hlist_add_head_locked h n k :
  B !! h = Some true → K !! n = Some k → (∀ j, n ∉ C j) → aligned n → n ≠ 0 →
  wp (bl_hlist_add_head_locked h n) (λ _ c',
    chain_is c' (<[h := n :: C h]> C) B (<[n := false]> K)) c.
Proof.
  intros Hb Hn Hf Ha H0. destruct (ci_node _ _ _ _ H n k Hn) as (nd & Hnd & _ & _).
  unfold bl_hlist_add_head_locked. wp_step. eapply wp_bl_first; [done |].
  wp_step. eapply wp_run; [apply node_store_ok; by eexists |].
  wp_step. eapply wp_run; [apply node_store_ok; simpl; by rewrite lookup_alter_is_Some |].
  wp_step. eapply wp_run.
  { apply when_store_ok. simpl. rewrite !lookup_alter_is_Some. intros Hh.
    destruct (C h) as [| x l] eqn:E; [done |].
    destruct (ci_at _ _ _ _ H h [] x l E) as (Hx & _). unfold hd0. simpl. by rewrite Hx. }
  unfold bl_set_first. eapply wp_run; [unfold head_store; simpl; by rewrite (ci_head _ _ _ _ H h _ Hb) |].
  eapply (surgery_ok c C B K H h [] [] [n] (C h) true); try done.
  { by intros j x ->%list_elem_of_singleton. }
  { apply NoDup_singleton. }
  { by intros x ->%list_elem_of_singleton. }
  eapply (surgery_cut h [] [] [n] (C h) true
    (set_node (alter (set_bpprev (PHead h)) n (alter (set_bnext (hd0 (C h))) n (c_node c))) c));
    simpl; try done.
  - by intros j x ->%list_elem_of_singleton.
  - intros x _ Hx. rewrite list_elem_of_singleton in Hx. by rewrite !lookup_alter_ne by congruence.
  - intros m1 x m2 E. destruct m1 as [| ? m1]; simplify_eq/=; [| by destruct m1].
    by rewrite !lookup_alter_eq, Hnd.
  - unfold cut. unfold rec_if. rewrite aligned_lor by done.
    by destruct (negb (hd0 (C h) =? 0)).
  - intros x _. unfold cut, rec_if. simpl. by destruct (negb (hd0 (C h) =? 0)).
  - by intros x ?%not_elem_of_nil.
Qed.

Lemma wp_bl_hlist_del_locked i l1 d l2 :
  C i = l1 ++ d :: l2 →
  wp (bl_hlist_del_locked d) (λ _ c',
    chain_is c' (<[i := l1 ++ l2]> C) B (<[d := true]> K)) c.
Proof.
  intros HC. destruct (ci_bit _ _ _ _ H i d) as [b Hb].
  { rewrite HC. apply elem_of_app. right. by left. }
  destruct (ci_at _ _ _ _ H i l1 d l2 HC) as (Hn & H0 & HK).
  assert (aligned (hd0 l2)) as Ha.
  { apply (hd0_aligned c C B K i (l1 ++ [d])); [done |]. by rewrite HC, <- app_assoc. }
  assert (aligned d) as Hd.
  { apply (ci_align _ _ _ _ H i). rewrite HC. apply elem_of_app. right. by left. }
  unfold bl_hlist_del_locked. wp_step. eapply wp_lookup; [done |]. cbn beta zeta. simpl b_pprev.
  simpl b_next. wp_step. eapply wp_run; [by eapply slot_word |].
  replace (Z.land (hd0 l2) (Z.lnot URCU_TXN_HLIST_MARK)) with (hd0 l2)
    by (rewrite <- (Z.add_0_r (hd0 l2)) at 2; by rewrite (link_clear _ false)).
  rewrite cut_bit_land, ptr_lor_mark by done.
  wp_step. eapply wp_run; [apply node_store_ok; by eexists |].
  wp_step. eapply wp_run.
  { eapply (slot_store_ok _ i b l1 d l2); try done. simpl. intros x. by rewrite lookup_alter_is_Some. }
  rewrite (aligned_lor _ (cut_bit l1 b)) by (done || apply cut_bit_range).
  eapply wp_run.
  { apply when_store_ok. intros Hh. pose proof (behind_some i l1 d l2 HC Hh) as Hs.
    destruct (prev_slot _ _); simpl; rewrite ?lookup_alter_is_Some; done. }
  set (c1 := set_node (alter (set_bnext (hd0 l2 + markbit true)) d (c_node c)) c).
  eapply (surgery_ok c C B K H i l1 [d] [] l2 b); try done.
  { by intros j x ?%not_elem_of_nil. }
  { apply NoDup_nil_2. }
  { by intros x ?%not_elem_of_nil. }
  pose proof (ci_nodup _ _ _ _ H i) as Hnd. rewrite HC in Hnd.
  apply NoDup_app in Hnd as (_ & Hd1 & [Hd2 _]%NoDup_cons).
  assert (0 ∉ l2) as H02.
  { intros Hz. apply (ci_nonzero _ _ _ _ H i). rewrite HC, elem_of_app, elem_of_cons. auto. }
  assert (∀ c2, set_node (if negb (hd0 l2 =? 0)
      then alter (set_bpprev (prev_slot (N := bnode) (PHead i) l1)) (hd0 l2) (c_node c2)
      else c_node c2) c2 =
    lrecs_apply (rec_if (hd0 l2) (RBack (hd0 l2) PNull (prev_slot (N := bnode) (PHead i) l1) 0)) c2) as E.
  { intros [? ?]. unfold rec_if. by destruct (negb (hd0 l2 =? 0)). }
  rewrite E. eapply (surgery_cut i l1 [d] [] l2 b c1); try done.
  - by intros j x ?%not_elem_of_nil.
  - intros x Hx _. rewrite list_elem_of_singleton in Hx. unfold c1. simpl.
    by rewrite lookup_alter_ne by congruence.
  - intros m1 x m2 Em. by destruct m1.
  - intros x ->%list_elem_of_singleton.
    exists (Bnode (hd0 l2 + markbit true) (prev_slot (N := bnode) (PHead i) l1)).
    change (lrecs_apply _ _) with (cut i l1 l2 (hd0 l2) b (prev_slot (N := bnode) (PHead i) l1) c1).
    rewrite cut_node by done. unfold c1. simpl. rewrite lookup_alter_eq, Hn. simpl.
    rewrite !decide_False.
    + split_and!; [done | by apply link_marked | exact (marked_word _ true _ Ha)].
    + intros Eh. apply Hd2. destruct l2; simplify_eq/=. by left.
    + intros El%last_Some_elem_of. apply (Hd1 d El). by left.
Qed.
End ops.
