(* ===== verification/BlRecs.v ===== *)
(** The records that the [bl_sw_*] functions of dcache_bucketlock.c put into a
    transaction: each builder's records are ready to commit (every slot named once,
    every old value right), and their commit replaces exactly the nodes meant. *)

From S2P Require Import Prelude HList BlChain BlLists.

(** ** Transaction records

    The four record builders describe the same thing: the nodes [mid] of a list
    leave it and the nodes [mid'], already linked up, take their place. *)

Definition rec_tag (bit : Z) : Z := if negb (bit =? 0) then DC_HLOCKTAG else DC_HTAG.

Fixpoint mark_recs (mid l2 : list Z) : list lrec :=
  match mid with
  | [] => []
  | o :: m =>
      RWord (PNext o) (hd0 (m ++ l2)) (hd0 (m ++ l2) + markbit true) DC_HTAG :: mark_recs m l2
  end.

Definition swap_recs (i : Z) (l1 mid mid' l2 : list Z) (b : bool) : list lrec :=
  RWord (prev_slot (N := bnode) (PHead i) l1)
    (hd0 (mid ++ l2) + cut_bit l1 b) (hd0 (mid' ++ l2) + cut_bit l1 b) (rec_tag (cut_bit l1 b))
  :: rec_if (hd0 l2) (RBack (hd0 l2)
       (prev_slot (N := bnode) (prev_slot (N := bnode) (PHead i) l1) mid)
       (prev_slot (N := bnode) (prev_slot (N := bnode) (PHead i) l1) mid') DC_HTAG)
  ++ mark_recs mid l2.

(** The new nodes as the builder leaves them. *)
Definition prepared (c : chn) (i : Z) (l1 mid' l2 : list Z) : Prop :=
  ∀ m1 x m2, mid' = m1 ++ x :: m2 → c_node c !! x =
    Some (Bnode (hd0 (m2 ++ l2)) (prev_slot (N := bnode) (prev_slot (N := bnode) (PHead i) l1) m1)).

Lemma lrecs_apply_app r1 r2 c : lrecs_apply (r1 ++ r2) c = lrecs_apply r2 (lrecs_apply r1 c).
Proof. apply foldl_app. Qed.

Lemma mark_recs_first mid l2 c : c_first (lrecs_apply (mark_recs mid l2) c) = c_first c.
Proof. revert c. induction mid as [| o m IH]; intros c; [done |].
  apply (IH (lrec_apply (RWord (PNext o) (hd0 (m ++ l2)) (hd0 (m ++ l2) + markbit true) DC_HTAG) c)).
Qed.

Lemma mark_recs_other mid l2 c x :
  x ∉ mid → c_node (lrecs_apply (mark_recs mid l2) c) !! x = c_node c !! x.
Proof.
  revert c. induction mid as [| o m IH]; intros c Hx; [done |].
  apply not_elem_of_cons in Hx as [Hxo Hx].
  change (lrecs_apply _ c) with (lrecs_apply (mark_recs m l2)
    (lrec_apply (RWord (PNext o) (hd0 (m ++ l2)) (hd0 (m ++ l2) + markbit true) DC_HTAG) c)).
  rewrite IH by done. simpl. by rewrite lookup_alter_ne by congruence.
Qed.

Lemma mark_recs_in mid l2 c x :
  (∀ m1 m2, mid ++ l2 = m1 ++ m2 → aligned (hd0 m2)) → NoDup mid →
  x ∈ mid → is_Some (c_node c !! x) →
  ∃ n, c_node (lrecs_apply (mark_recs mid l2) c) !! x = Some n ∧ link_ok n ∧ marked n = true.
Proof.
  revert c. induction mid as [| o m IH]; intros c Hal Hnd Hx [n Hn]; [by apply not_elem_of_nil in Hx |].
  apply NoDup_cons in Hnd as [Ho Hnd].
  change (lrecs_apply _ c) with (lrecs_apply (mark_recs m l2)
    (lrec_apply (RWord (PNext o) (hd0 (m ++ l2)) (hd0 (m ++ l2) + markbit true) DC_HTAG) c)).
  assert (aligned (hd0 (m ++ l2))) as Ha by (apply (Hal [o]); done).
  destruct (decide (x = o)) as [-> | Hxo].
  - rewrite mark_recs_other by done. simpl. rewrite lookup_alter_eq, Hn.
    eexists. split_and!; [done | by apply link_marked | exact (marked_word _ true _ Ha)].
  - apply elem_of_cons in Hx as [-> | Hx]; [done |]. apply IH; [| done | done |].
    + intros m1 m2 E. apply (Hal (o :: m1)). simpl. by rewrite E.
    + simpl. rewrite lookup_alter_ne by congruence. eauto.
Qed.

(** The slots a swap writes belong to its own list. *)
Definition slot_of_list (C : Z → list Z) (i : Z) (s : pslot + Z) : Prop :=
  s = inl (PHead i) ∨ ∃ x, x ∈ C i ∧ (s = inl (PNext x) ∨ s = inr x).

Lemma elem_of_mark_slots mid l2 s :
  s ∈ lrec_slot <$> mark_recs mid l2 ↔ ∃ o, o ∈ mid ∧ s = inl (PNext o).
Proof.
  induction mid as [| o m IH]; simpl.
  { split; [by intros ?%not_elem_of_nil | by intros (? & ?%not_elem_of_nil & _)]. }
  rewrite elem_of_cons, IH. split.
  - intros [-> | (x & Hx & ->)]; [exists o | exists x]; (split; [| done]); [by left | by right].
  - intros (x & [-> | Hx]%elem_of_cons & ->); [by left | right; eauto].
Qed.

Lemma elem_of_swap_slots i l1 mid mid' l2 b s :
  s ∈ lrec_slot <$> swap_recs i l1 mid mid' l2 b ↔
  s = inl (prev_slot (N := bnode) (PHead i) l1) ∨ (hd0 l2 ≠ 0 ∧ s = inr (hd0 l2)) ∨
  ∃ o, o ∈ mid ∧ s = inl (PNext o).
Proof.
  unfold swap_recs. rewrite fmap_cons, elem_of_cons, fmap_app, elem_of_app, elem_of_mark_slots.
  unfold rec_if. simpl. destruct (Z.eqb_spec (hd0 l2) 0) as [E | E]; simpl.
  - split; [intros [? | [?%not_elem_of_nil | ?]]; auto; done | intros [? | [[? _] | ?]]; auto; done].
  - rewrite list_elem_of_singleton. naive_solver.
Qed.

Section swap.
Context c C B K (H : chain_is c C B K).
Context (i : Z) (l1 mid mid' l2 : list Z) (b : bool).
Context (HC : C i = l1 ++ mid ++ l2) (Hb : B !! i = Some b).

Lemma swap_slots s : s ∈ lrec_slot <$> swap_recs i l1 mid mid' l2 b → slot_of_list C i s.
Proof.
  rewrite elem_of_swap_slots. unfold slot_of_list. rewrite HC. intros [-> | [[Hh ->] | (o & Ho & ->)]].
  - unfold prev_slot. destruct (last l1) as [t |] eqn:E; [| by left].
    right. exists t. rewrite elem_of_app. apply last_Some_elem_of in E. auto.
  - right. exists (hd0 l2). rewrite !elem_of_app. destruct l2 as [| h l]; [done |].
    split; [| auto]. right; right. by left.
  - right. exists o. rewrite !elem_of_app. auto.
Qed.

Lemma suffix_aligned m1 m2 : mid ++ l2 = m1 ++ m2 → aligned (hd0 m2).
Proof. intros E. apply (hd0_aligned c C B K i (l1 ++ m1)); [done |]. by rewrite HC, E, app_assoc. Qed.

Lemma swap_ready : Forall (lrec_ready c) (swap_recs i l1 mid mid' l2 b).
Proof.
  unfold swap_recs. constructor; [| apply Forall_app; split].
  - unfold prev_slot, cut_bit. destruct l1 as [| t l _] using rev_ind; simpl.
    + rewrite (ci_head _ _ _ _ H i b Hb), HC. done.
    + rewrite last_snoc. simpl. destruct (ci_at _ _ _ _ H i l t (mid ++ l2)) as (-> & _);
        [by rewrite HC, <- app_assoc |]. simpl. by destruct l; rewrite Z.add_0_r.
  - unfold rec_if. destruct (Z.eqb_spec (hd0 l2) 0) as [| Hh]; simpl; [constructor |].
    constructor; [| constructor]. simpl. destruct l2 as [| h l]; [done |].
    destruct (ci_at _ _ _ _ H i (l1 ++ mid) h l) as (Hn & _); [by rewrite HC, app_assoc |].
    unfold hd0. simpl. by rewrite Hn, prev_slot_app.
  - assert (∀ k1 m, mid = k1 ++ m → Forall (lrec_ready c) (mark_recs m l2)) as Hg; [| by apply (Hg [])].
    intros k1 m. revert k1. induction m as [| o m IH]; intros k1 E; simpl; constructor.
    + simpl. destruct (ci_at _ _ _ _ H i (l1 ++ k1) o (m ++ l2)) as (-> & _); [| done].
      by rewrite HC, E, <- !app_assoc.
    + apply (IH (k1 ++ [o])). by rewrite E, <- app_assoc.
Qed.

Lemma swap_nodup : NoDup (lrec_slot <$> swap_recs i l1 mid mid' l2 b).
Proof.
  pose proof (ci_nodup _ _ _ _ H i) as Hnd. rewrite HC in Hnd.
  apply NoDup_app in Hnd as (_ & Hd1 & (Hm & _ & _)%NoDup_app).
  unfold swap_recs. rewrite fmap_cons, fmap_app. constructor.
  - rewrite elem_of_app, elem_of_mark_slots. unfold rec_if. simpl.
    intros [Hs | (o & Ho & [= Es])].
    + destruct (negb (hd0 l2 =? 0)); simpl in Hs;
        [by apply list_elem_of_singleton in Hs | by apply not_elem_of_nil in Hs].
    + unfold prev_slot in Es. destruct (last l1) as [t |] eqn:E; simplify_eq/=.
      apply last_Some_elem_of in E. apply (Hd1 o E). rewrite elem_of_app. auto.
  - apply NoDup_app. split_and!.
    + unfold rec_if. destruct (negb (hd0 l2 =? 0)); simpl; [apply NoDup_singleton | constructor].
    + intros s Hs (o & _ & ->)%elem_of_mark_slots. unfold rec_if in Hs.
      destruct (negb (hd0 l2 =? 0)); simpl in Hs;
        [by apply list_elem_of_singleton in Hs | by apply not_elem_of_nil in Hs].
    + clear - Hm. induction mid as [| o m IH]; simpl; [constructor |].
      apply NoDup_cons in Hm as [Ho Hm]. constructor; [| auto].
      intros (o' & Ho' & [= <-])%elem_of_mark_slots. done.
Qed.

Lemma swap_apply_cut c1 :
  lrecs_apply (swap_recs i l1 mid mid' l2 b) c1 =
  lrecs_apply (mark_recs mid l2) (cut i l1 l2 (hd0 (mid' ++ l2)) b
    (prev_slot (N := bnode) (prev_slot (N := bnode) (PHead i) l1) mid') c1).
Proof.
  unfold swap_recs. change (?r :: ?x ++ ?y) with ((r :: x) ++ y) at 1.
  rewrite lrecs_apply_app. f_equal. unfold cut, rec_if. by destruct (negb (hd0 l2 =? 0)).
Qed.

(** The commit: the list runs through the new nodes, the old ones are marked. *)
Lemma swap_commit :
  prepared c i l1 mid' l2 → (∀ j x, x ∈ mid' → x ∉ C j) → NoDup mid' →
  (∀ x, x ∈ mid' → aligned x ∧ x ≠ 0) →
  chain_is (lrecs_apply (swap_recs i l1 mid mid' l2 b) c)
    (<[i := l1 ++ mid' ++ l2]> C) B (mark_all true mid K).
Proof.
  intros Hp Hf Hnd' Ha'. pose proof (ci_nodup _ _ _ _ H i) as Hnd. rewrite HC in Hnd.
  apply NoDup_app in Hnd as (_ & Hd1 & (Hm & Hd2 & _)%NoDup_app).
  assert (0 ∉ l2) as H0.
  { intros Hz. apply (ci_nonzero _ _ _ _ H i). rewrite HC, !elem_of_app. auto. }
  assert (mark_all true mid K = mark_all true mid (mark_all false mid' K)) as ->.
  { apply map_eq. intros x. rewrite !mark_all_lookup. case_decide; [done |].
    case_decide as Hx; [| done]. pose proof Hx as (m1 & m2 & E)%list_elem_of_split.
    rewrite (ci_mark _ _ _ _ H), (Hp m1 x m2 E). simpl. f_equal. apply marked_unset.
    destruct m2 as [| y m2]; [by apply (suffix_aligned mid) |].
    apply Ha'. rewrite E, elem_of_app. right; right. by left. }
  eapply surgery_ok; try done. rewrite swap_apply_cut.
  eapply (surgery_cut c C B K H i l1 mid mid' l2 b c); try done.
  - by rewrite mark_recs_first.
  - intros x Hx. by rewrite mark_recs_other.
  - intros x Hx. apply mark_recs_in; [apply suffix_aligned | done | done |].
    rewrite cut_node by done. pose proof Hx as (m1 & m2 & E)%list_elem_of_split.
    destruct (ci_at _ _ _ _ H i (l1 ++ m1) x (m2 ++ l2)) as (-> & _); [| by eexists].
    by rewrite HC, E, <- !app_assoc.
Qed.

(** Nodes of other lists, and nodes of no list, are not written. *)
Lemma swap_frame c1 x :
  x ∉ C i → c_node (lrecs_apply (swap_recs i l1 mid mid' l2 b) c1) !! x = c_node c1 !! x.
Proof.
  rewrite HC, !elem_of_app. intros Hx. rewrite swap_apply_cut, mark_recs_other by tauto.
  rewrite cut_node.
  - destruct (c_node c1 !! x) as [[]|]; simpl; [| done]. rewrite !decide_False; [done | |].
    + intros E. apply Hx. right; right. destruct l2; simplify_eq/=. by left.
    + intros E%last_Some_elem_of. tauto.
  - intros Hz. apply (ci_nonzero _ _ _ _ H i). rewrite HC, !elem_of_app. auto.
Qed.
End swap.

(** ** The record builders

    [part_ok c R C B K]: the records [R] can be committed in [c], and their commit
    gives the lists [C] and the marks [K]. *)

Record part_ok (c : chn) (R : list lrec) (C : Z → list Z) (B K : gmap Z bool) : Prop := {
  po_ready : Forall (lrec_ready c) R;
  po_nodup : NoDup (lrec_slot <$> R);
  po_commit : chain_is (lrecs_apply R c) C B K;
}.

(** A node of no list, about to be linked. *)
Definition spare (C : Z → list Z) (K : gmap Z bool) (n : Z) : Prop :=
  aligned n ∧ n ≠ 0 ∧ is_Some (K !! n) ∧ ∀ j, n ∉ C j.

(** Both stores to a node that is not on a list yet. *)
Definition put_node (n p : Z) (pp : pslot) (c : chn) : chn :=
  set_node (<[n := Bnode p pp]> (c_node c)) c.

Section builders.
Context c C B K (H : chain_is c C B K).

Lemma ci_put n p pp :
  spare C K n → aligned p → chain_is (put_node n p pp c) C B (<[n := false]> K).
Proof.
  intros (Ha & H0 & _ & Hf) Hp. split; simpl; try apply H.
  - intros i. eapply hseg_frame; [| apply (ci_seg _ _ _ _ H)]. intros x Hx. unfold links.
    rewrite lookup_insert_ne; [done |]. intros <-. by apply (Hf i).
  - intros x. destruct (decide (n = x)) as [<- |].
    + rewrite !lookup_insert_eq. simpl. by rewrite marked_unset.
    + rewrite !lookup_insert_ne by done. apply H.
  - intros x nd. destruct (decide (n = x)) as [<- |].
    + rewrite lookup_insert_eq. intros [= <-]. exists p. rewrite marked_unset by done. simpl.
      split; [done | lia].
    + rewrite lookup_insert_ne by done. apply H.
Qed.

Lemma spare_node n : spare C K n → is_Some (c_node c !! n).
Proof.
  intros (_ & _ & [k Hk] & _). destruct (ci_node _ _ _ _ H n k Hk) as (nd & -> & _). by eexists.
Qed.

Lemma one_nodup (n : Z) : NoDup [n].
Proof. apply NoDup_singleton. Qed.

Lemma spare_fresh n : spare C K n → ∀ j x, x ∈ [n] → x ∉ C j.
Proof. intros (_ & _ & _ & Hf) j x ->%list_elem_of_singleton. apply Hf. Qed.

Lemma spare_align n : spare C K n → ∀ x, x ∈ [n] → aligned x ∧ x ≠ 0.
Proof. by intros (? & ? & _) x ->%list_elem_of_singleton. Qed.

Lemma prepared_one i l1 n l2 pp :
  pp = prev_slot (N := bnode) (PHead i) l1 → prepared (put_node n (hd0 l2) pp c) i l1 [n] l2.
Proof.
  intros -> m1 x m2 E. destruct m1 as [| ? m1]; simplify_eq/=; [| by destruct m1].
  by rewrite lookup_insert_eq.
Qed.

(** What a builder finds at the node it takes out. *)
Lemma at_old i l1 o l2 b :
  C i = l1 ++ o :: l2 → B !! i = Some b →
  c_node c !! o = Some (Bnode (hd0 l2) (prev_slot (N := bnode) (PHead i) l1)) ∧
  Z.land (hd0 l2) (Z.lnot URCU_TXN_HLIST_MARK) = hd0 l2 ∧ aligned (hd0 l2) ∧ aligned o ∧
  slot_load (prev_slot (N := bnode) (PHead i) l1) c = Ok (o + cut_bit l1 b, c).
Proof.
  intros HC Hb. assert (aligned (hd0 l2)) as Ha.
  { apply (hd0_aligned c C B K i (l1 ++ [o])); [done |]. by rewrite HC, <- app_assoc. }
  assert (aligned o) as Ho.
  { apply (ci_align _ _ _ _ H i). rewrite HC. apply elem_of_app. right. by left. }
  split_and!; [by apply (ci_at _ _ _ _ H) | | done | done | by eapply slot_word].
  rewrite <- (Z.add_0_r (hd0 l2)) at 1. by rewrite (link_clear _ false).
Qed.

Lemma wp_bl_sw_replace i l1 o l2 n b :
  C i = l1 ++ o :: l2 → B !! i = Some b → spare C K n →
  wp (bl_sw_replace o n) (λ R c1,
    R = swap_recs i l1 [o] [n] l2 b ∧
    c1 = put_node n (hd0 l2) (prev_slot (N := bnode) (PHead i) l1) c) c.
Proof.
  intros HC Hb Hn. destruct (at_old i l1 o l2 b HC Hb) as (Ho & Hcl & Ha & Hao & Hw).
  unfold bl_sw_replace. wp_step. eapply wp_lookup; [done |]. simpl b_pprev. simpl b_next.
  cbv zeta. rewrite Hcl. wp_step. eapply wp_run; [exact Hw |]. rewrite cut_bit_land by done.
  destruct (spare_node n Hn) as [nd Hnd].
  wp_step. eapply wp_run; [apply node_store_ok; by eexists |].
  wp_step. eapply wp_run; [apply node_store_ok; simpl; rewrite lookup_alter_is_Some; by eexists |].
  wp_step. split.
  - unfold swap_recs. destruct Hn as (Han & _).
    rewrite !(aligned_lor _ (cut_bit l1 b)) by (done || apply cut_bit_range).
    by rewrite ptr_lor_mark.
  - unfold put_node, set_node. simpl. f_equal. apply map_eq. intros x.
    destruct (decide (n = x)) as [<- |].
    + by rewrite lookup_insert_eq, !lookup_alter_eq, Hnd.
    + by rewrite lookup_insert_ne, !lookup_alter_ne.
Qed.

Lemma wp_bl_sw_del_marked i l1 o l2 b :
  C i = l1 ++ o :: l2 → B !! i = Some b →
  wp (bl_sw_del_marked o) (λ R c1, R = swap_recs i l1 [o] [] l2 b ∧ c1 = c) c.
Proof.
  intros HC Hb. destruct (at_old i l1 o l2 b HC Hb) as (Ho & Hcl & Ha & Hao & Hw).
  unfold bl_sw_del_marked. wp_step. eapply wp_lookup; [done |]. simpl b_pprev. simpl b_next.
  cbv zeta. rewrite Hcl. wp_step. eapply wp_run; [exact Hw |]. rewrite cut_bit_land by done.
  wp_step. split; [| done]. unfold swap_recs.
  rewrite !(aligned_lor _ (cut_bit l1 b)) by (done || apply cut_bit_range).
  by rewrite ptr_lor_mark.
Qed.

Lemma wp_bl_sw_add_head h n :
  B !! h = Some true → spare C K n →
  wp (bl_sw_add_head n h) (λ R c1,
    R = swap_recs h [] [] [n] (C h) true ∧ c1 = put_node n (hd0 (C h)) (PHead h) c) c.
Proof.
  intros Hb Hn. pose proof (ci_head_aligned _ _ _ _ H h) as Ha.
  unfold bl_sw_add_head. wp_step. eapply wp_bl_first; [done | done |].
  destruct (spare_node n Hn) as [nd Hnd].
  wp_step. eapply wp_run; [apply node_store_ok; by eexists |].
  wp_step. eapply wp_run; [apply node_store_ok; simpl; rewrite lookup_alter_is_Some; by eexists |].
  wp_step. split.
  - unfold swap_recs. destruct Hn as (Han & _). rewrite !aligned_lor by done.
    by rewrite app_nil_r.
  - unfold put_node, set_node. simpl. f_equal. apply map_eq. intros x.
    destruct (decide (n = x)) as [<- |].
    + by rewrite lookup_insert_eq, !lookup_alter_eq, Hnd.
    + by rewrite lookup_insert_ne, !lookup_alter_ne.
Qed.

Lemma wp_bl_sw_replace_adj i l1 o1 o2 l2 n1 n2 b :
  C i = l1 ++ o1 :: o2 :: l2 → B !! i = Some b → spare C K n1 → spare C K n2 → n1 ≠ n2 →
  wp (bl_sw_replace_adj o1 n1 o2 n2) (λ R c1,
    R = swap_recs i l1 [o1; o2] [n1; n2] l2 b ∧
    c1 = put_node n2 (hd0 l2) (PNext n1)
           (put_node n1 n2 (prev_slot (N := bnode) (PHead i) l1) c)) c.
Proof.
  intros HC Hb Hn1 Hn2 Hne. destruct (at_old i l1 o1 (o2 :: l2) b HC Hb) as (Ho1 & _ & _ & Ha1 & Hw).
  destruct (at_old i (l1 ++ [o1]) o2 l2 b) as (Ho2 & Hcl & Ha & Ha2 & _);
    [by rewrite HC, <- app_assoc | done |].
  unfold bl_sw_replace_adj. wp_step. eapply wp_lookup; [done |]. simpl b_pprev. cbv zeta.
  wp_step. eapply wp_lookup; [done |]. simpl b_next. cbv zeta. rewrite Hcl.
  wp_step. eapply wp_run; [exact Hw |]. rewrite cut_bit_land by done.
  destruct (spare_node n1 Hn1) as [nd1 Hnd1]. destruct (spare_node n2 Hn2) as [nd2 Hnd2].
  wp_step. eapply wp_run; [apply node_store_ok; by eexists |].
  do 2 (wp_step; eapply wp_run;
        [apply node_store_ok; simpl; rewrite ?lookup_alter_is_Some; by eexists |]).
  wp_step. eapply wp_run; [apply node_store_ok; simpl; rewrite !lookup_alter_is_Some; by eexists |].
  wp_step. split.
  - unfold swap_recs. destruct Hn1 as (Han1 & _).
    rewrite !(aligned_lor _ (cut_bit l1 b)) by (done || apply cut_bit_range).
    by rewrite !ptr_lor_mark.
  - unfold put_node, set_node. simpl. f_equal. apply map_eq. intros x.
    destruct (decide (n2 = x)) as [<- |]; [| destruct (decide (n1 = x)) as [<- |]].
    + by rewrite lookup_insert_eq, !lookup_alter_eq, !lookup_alter_ne, Hnd2 by done.
    + by rewrite lookup_insert_ne, lookup_insert_eq, !lookup_alter_ne, !lookup_alter_eq, Hnd1 by done.
    + by rewrite !lookup_insert_ne, !lookup_alter_ne by done.
Qed.
End builders.

(** ** One or two swaps in a transaction *)

Lemma hd0_app_eq m l l' : hd0 l' = hd0 l → hd0 (m ++ l') = hd0 (m ++ l).
Proof. by destruct m. Qed.

Lemma mark_recs_ctx mid l l' : hd0 l' = hd0 l → mark_recs mid l' = mark_recs mid l.
Proof.
  intros E. induction mid as [| o m IH]; simpl; [done |]. by rewrite (hd0_app_eq m _ _ E), IH.
Qed.

(** Records depend on the rest of the list through the words next to them. *)
Lemma swap_recs_ctx i l1 l1' mid mid' l2 l2' b :
  prev_slot (N := bnode) (PHead i) l1' = prev_slot (N := bnode) (PHead i) l1 →
  cut_bit l1' b = cut_bit l1 b → hd0 l2' = hd0 l2 →
  swap_recs i l1' mid mid' l2' b = swap_recs i l1 mid mid' l2 b.
Proof.
  unfold swap_recs. intros -> -> E. by rewrite E, !(hd0_app_eq _ _ _ E), (mark_recs_ctx mid _ _ E).
Qed.

Lemma prepared_ctx c i l1 l1' mid' l2 l2' :
  prev_slot (N := bnode) (PHead i) l1' = prev_slot (N := bnode) (PHead i) l1 →
  hd0 l2' = hd0 l2 → prepared c i l1 mid' l2 → prepared c i l1' mid' l2'.
Proof. intros E1 E2 Hp m1 x m2 E. rewrite E1, (hd0_app_eq m2 _ _ E2). by apply Hp. Qed.

Section parts.
Context c C B K (H : chain_is c C B K).

Lemma part_one i l1 mid mid' l2 b :
  C i = l1 ++ mid ++ l2 → B !! i = Some b →
  prepared c i l1 mid' l2 → (∀ j x, x ∈ mid' → x ∉ C j) → NoDup mid' →
  (∀ x, x ∈ mid' → aligned x ∧ x ≠ 0) →
  part_ok c (swap_recs i l1 mid mid' l2 b) (<[i := l1 ++ mid' ++ l2]> C) B (mark_all true mid K).
Proof. intros. split; [by eapply swap_ready | by eapply swap_nodup | by eapply swap_commit]. Qed.

Lemma part_two i l1 mid mid' l2 b j k1 k1' nid nid' k2 k2' b' :
  C i = l1 ++ mid ++ l2 → B !! i = Some b → C j = k1 ++ nid ++ k2 → B !! j = Some b' →
  prepared c i l1 mid' l2 → prepared c j k1 nid' k2 →
  (∀ h x, x ∈ mid' ++ nid' → x ∉ C h) → NoDup (mid' ++ nid') →
  (∀ x, x ∈ mid' ++ nid' → aligned x ∧ x ≠ 0) →
  (∀ s, s ∈ lrec_slot <$> swap_recs i l1 mid mid' l2 b →
        s ∉ lrec_slot <$> swap_recs j k1 nid nid' k2 b') →
  (<[i := l1 ++ mid' ++ l2]> C) j = k1' ++ nid ++ k2' →
  prev_slot (N := bnode) (PHead j) k1' = prev_slot (N := bnode) (PHead j) k1 →
  cut_bit k1' b' = cut_bit k1 b' → hd0 k2' = hd0 k2 →
  part_ok c (swap_recs i l1 mid mid' l2 b ++ swap_recs j k1 nid nid' k2 b')
    (<[j := k1' ++ nid' ++ k2']> (<[i := l1 ++ mid' ++ l2]> C)) B
    (mark_all true nid (mark_all true mid K)).
Proof.
  intros HC Hb HC' Hb' Hp Hp' Hf Hnd Ha Hdis HC1 Hps Hcb Hhd.
  apply NoDup_app in Hnd as (Hnd1 & Hnd12 & Hnd2). split.
  - apply Forall_app. split; by eapply swap_ready.
  - rewrite fmap_app. apply NoDup_app. split_and!; [by eapply swap_nodup | done | by eapply swap_nodup].
  - rewrite lrecs_apply_app. rewrite <- (swap_recs_ctx j k1 k1' _ _ k2 k2') by done.
    eapply (swap_commit _ _ _ _); try done.
    + eapply swap_commit; try done; intros; first [eapply Hf | eapply Ha]; apply elem_of_app; by left.
    + eapply prepared_ctx; [done | done |]. intros m1 x m2 E. erewrite swap_frame; [| done | done |].
      * by apply Hp'.
      * apply Hf. rewrite E, !elem_of_app. right; right. by left.
    + intros h x Hx. destruct (decide (i = h)) as [<- |];
        rewrite ?fn_lookup_insert, ?fn_lookup_insert_ne by done; [| apply Hf; rewrite elem_of_app; auto].
      assert (x ∉ C i) as Hxi by (apply Hf; rewrite elem_of_app; auto).
      rewrite HC, !elem_of_app in Hxi. rewrite !elem_of_app. intros [? | [? | ?]]; try tauto.
      by apply (Hnd12 x).
    + intros x Hx. apply Ha. rewrite elem_of_app. auto.
Qed.

(** The slots of swaps in two lists are apart. *)
Lemma lists_apart i j l1 mid mid' l2 b k1 nid nid' k2 b' s :
  i ≠ j → C i = l1 ++ mid ++ l2 → C j = k1 ++ nid ++ k2 →
  s ∈ lrec_slot <$> swap_recs i l1 mid mid' l2 b →
  s ∉ lrec_slot <$> swap_recs j k1 nid nid' k2 b'.
Proof.
  intros Hij HC HC' Hs Hs'. eapply (swap_slots C) in Hs; [| done]. eapply (swap_slots C) in Hs'; [| done].
  assert (∀ x, x ∈ C i → x ∈ C j → False) as Hd.
  { intros x Hx Hx'. by apply Hij, (ci_disj _ _ _ _ H i j x). }
  destruct Hs as [-> | (x & Hx & [-> | ->])], Hs' as [E | (y & Hy & [E | E])]; simplify_eq; eauto.
Qed.

(** The slots of two swaps in one list, apart by at least one node. *)
Lemma gap_apart i l1 o n m o' n' l2 b s :
  C i = l1 ++ o :: m ++ o' :: l2 → m ≠ [] →
  s ∈ lrec_slot <$> swap_recs i l1 [o] [n] (m ++ o' :: l2) b →
  s ∉ lrec_slot <$> swap_recs i (l1 ++ o :: m) [o'] [n'] l2 b.
Proof.
  intros HC Hm. pose proof (ci_nodup _ _ _ _ H i) as Hnd. rewrite HC in Hnd.
  apply NoDup_app in Hnd as (_ & Hd1 & [Ho Hnd]%NoDup_cons).
  apply NoDup_app in Hnd as (_ & Hd2 & [Ho' _]%NoDup_cons).
  rewrite !elem_of_swap_slots. unfold prev_slot. rewrite last_app, last_cons.
  destruct (last m) as [t |] eqn:Et; [| by apply last_None in Et].
  pose proof (last_Some_elem_of _ _ Et) as Htm.
  intros [-> | [[_ ->] | (x & ->%list_elem_of_singleton & ->)]]
         [E | [[Hh E] | (y & ->%list_elem_of_singleton & E)]]; try done.
  - destruct (last l1) as [x |] eqn:El; simplify_eq/=.
    apply last_Some_elem_of in El. apply (Hd1 t El). rewrite elem_of_cons, elem_of_app. auto.
  - destruct (last l1) as [x |] eqn:El; simplify_eq/=.
    apply last_Some_elem_of in El. apply (Hd1 o' El). rewrite elem_of_cons, elem_of_app. right; right. by left.
  - destruct m as [| x m']; [done |]. destruct l2 as [| y l2']; [done |].
    unfold hd0 in E. simplify_eq/=. apply (Hd2 y); [by left | right; by left].
  - simplify_eq/=. apply Ho. rewrite elem_of_app. auto.
  - simplify_eq/=. apply Ho. rewrite elem_of_app. right. by left.
Qed.

(** *** Replacing nodes *)

Lemma spare_put n n' : spare C K n' → spare C (<[n := false]> K) n'.
Proof.
  intros (? & ? & [k Hk] & ?). split_and!; try done. apply lookup_insert_is_Some.
  destruct (decide (n = n')); [by left | right; eauto].
Qed.

Lemma prepared_put i l1 n l2 n' p pp :
  n ≠ n' → prepared c i l1 [n] l2 → prepared (put_node n' p pp c) i l1 [n] l2.
Proof.
  intros Hn Hp m1 x m2 E. rewrite <- (Hp m1 x m2 E). simpl. apply lookup_insert_ne.
  destruct m1 as [| ? m1]; simplify_eq/=; [done | by destruct m1].
Qed.

Lemma wp_replace_part i l1 o l2 n :
  C i = l1 ++ o :: l2 → spare C K n →
  wp (bl_sw_replace o n) (λ R c1,
    chain_is c1 C B (<[n := false]> K) ∧
    part_ok c1 R (<[i := l1 ++ n :: l2]> C) B (<[o := true]> (<[n := false]> K))) c.
Proof.
  intros HC Hn. destruct (ci_bit _ _ _ _ H i o) as [b Hb].
  { rewrite HC. apply elem_of_app. right. by left. }
  destruct (at_old _ _ _ _ H i l1 o l2 b HC Hb) as (_ & _ & Ha & _).
  wp_use wp_bl_sw_replace; [done | done | done | done |]. intros R c1 [-> ->].
  pose proof (ci_put _ _ _ _ H n _ (prev_slot (N := bnode) (PHead i) l1) Hn Ha) as H1.
  split; [done |]. split.
  - by eapply swap_ready.
  - by eapply swap_nodup.
  - eapply (swap_commit _ _ _ _ H1 i l1 [o] [n] l2 b); [done | done | by apply prepared_one | ..].
    + by eapply spare_fresh.
    + apply one_nodup.
    + by eapply spare_align.
Qed.

End parts.

Section combined.
Context c C B K (H : chain_is c C B K).

(** A node leaves one list and another enters the front of a second one. *)
Lemma wp_del_add_part i l1 o l2 h n :
  i ≠ h → C i = l1 ++ o :: l2 → B !! h = Some true → spare C K n →
  wp (let! r1 := bl_sw_del_marked o in let! r2 := bl_sw_add_head n h in st_ret (r1 ++ r2))
    (λ R c1, chain_is c1 C B (<[n := false]> K) ∧
      part_ok c1 R (<[h := n :: C h]> (<[i := l1 ++ l2]> C)) B (<[o := true]> (<[n := false]> K))) c.
Proof.
  intros Hih HC Hh Hn. destruct (ci_bit _ _ _ _ H i o) as [b Hb].
  { rewrite HC. apply elem_of_app. right. by left. }
  wp_step. wp_use wp_bl_sw_del_marked; [done | done | done |]. intros R1 c1 [-> ->].
  wp_step. wp_use wp_bl_sw_add_head; [done | done | done |]. intros R2 c1 [-> ->]. wp_step.
  pose proof (ci_put _ _ _ _ H n _ (PHead h) Hn (ci_head_aligned _ _ _ _ H h)) as H1.
  split; [done |].
  eapply (part_two _ _ _ _ H1 i l1 [o] [] l2 b h [] [] [] [n] (C h) (C h) true); try done.
  - intros m1 x m2 E. by destruct m1.
  - by apply prepared_one.
  - by eapply spare_fresh.
  - apply one_nodup.
  - by eapply spare_align.
  - intros s. by eapply lists_apart.
  - by rewrite fn_lookup_insert_ne.
Qed.

(** Two nodes replaced, wherever they are: [na] takes [a]'s place, [nb] takes
    [b]'s. *)
Definition ren2 (a na b nb x : Z) : Z :=
  if decide (x = a) then na else if decide (x = b) then nb else x.

Definition put2 (na nb : Z) : gmap Z bool := <[nb := false]> (<[na := false]> K).

Lemma ren2_id a na b nb (l : list Z) : a ∉ l → b ∉ l → ren2 a na b nb <$> l = l.
Proof.
  intros Ha Hb. rewrite <- (list_fmap_id l) at 2. apply list_fmap_ext. intros ? x Hx%list_elem_of_lookup_2.
  unfold ren2. rewrite !decide_False; [done | |]; by intros ->.
Qed.

Lemma ren2_a a na b nb : ren2 a na b nb a = na.
Proof. unfold ren2. by rewrite decide_True. Qed.
Lemma ren2_b a na b nb : a ≠ b → ren2 a na b nb b = nb.
Proof. intros. unfold ren2. by rewrite decide_False, decide_True. Qed.

(** Both builders run, whatever the two places are. *)
Lemma wp_two_replace i l1 a l2 j k1 a' k2 n n' b b' :
  C i = l1 ++ a :: l2 → C j = k1 ++ a' :: k2 → B !! i = Some b → B !! j = Some b' →
  spare C K n → spare C K n' → n ≠ n' →
  wp (let! r1 := bl_sw_replace a n in let! r2 := bl_sw_replace a' n' in st_ret (r1 ++ r2))
    (λ R c2, R = swap_recs i l1 [a] [n] l2 b ++ swap_recs j k1 [a'] [n'] k2 b' ∧
      chain_is c2 C B (put2 n n') ∧
      prepared c2 i l1 [n] l2 ∧ prepared c2 j k1 [n'] k2) c.
Proof.
  intros HC HC' Hb Hb' Hn Hn' Hne.
  destruct (at_old _ _ _ _ H i l1 a l2 b HC Hb) as (_ & _ & Ha & _).
  wp_step. wp_use wp_bl_sw_replace; [done | done | done | done |]. intros R1 c1 [-> ->].
  pose proof (ci_put _ _ _ _ H n _ (prev_slot (N := bnode) (PHead i) l1) Hn Ha) as H1.
  destruct (at_old _ _ _ _ H1 j k1 a' k2 b' HC' Hb') as (_ & _ & Ha' & _).
  wp_step. wp_use wp_bl_sw_replace; [exact H1 | done | done | by apply spare_put |].
  intros R2 c2 [-> ->]. wp_step. split_and!; [done | | |].
  - apply ci_put; [done | by apply spare_put | done].
  - intros m1 x m2 E. destruct m1 as [| ? m1]; simplify_eq/=; [| by destruct m1].
    by rewrite lookup_insert_ne, lookup_insert_eq.
  - by apply prepared_one.
Qed.

Lemma two_spare n n' :
  spare C K n → spare C K n' → n ≠ n' →
  (∀ h x, x ∈ [n] ++ [n'] → x ∉ C h) ∧ NoDup ([n] ++ [n']) ∧
  (∀ x, x ∈ [n] ++ [n'] → aligned x ∧ x ≠ 0).
Proof.
  intros (? & ? & _ & Hf) (? & ? & _ & Hf') Hne. split_and!.
  - intros h x. simpl. rewrite !elem_of_cons. intros [-> | [-> | ?%not_elem_of_nil]]; [| | done]; auto.
  - simpl. constructor; [by rewrite list_elem_of_singleton | apply one_nodup].
  - intros x. simpl. rewrite !elem_of_cons. by intros [-> | [-> | ?%not_elem_of_nil]].
Qed.

Lemma chain_is_ext c1 C1 C2 B1 K1 : (∀ i, C1 i = C2 i) → chain_is c1 C1 B1 K1 → chain_is c1 C2 B1 K1.
Proof.
  intros E [H1 H2 H3 H4 H5 H6 H7].
  split; try done; intros *; rewrite <- ?E; eauto.
Qed.

Lemma part_ok_ext c1 R C1 C2 B1 K1 : (∀ i, C1 i = C2 i) → part_ok c1 R C1 B1 K1 → part_ok c1 R C2 B1 K1.
Proof. intros E [? ? ?]. split; try done. by eapply chain_is_ext. Qed.

Lemma wp_replace_two_lists i j a na b nb :
  i ≠ j → a ∈ C i → b ∈ C j → spare C K na → spare C K nb → na ≠ nb →
  wp (let! r1 := bl_sw_replace a na in let! r2 := bl_sw_replace b nb in st_ret (r1 ++ r2))
    (λ R c2, chain_is c2 C B (put2 na nb) ∧
      part_ok c2 R (λ h, ren2 a na b nb <$> C h) B (<[b := true]> (<[a := true]> (put2 na nb)))) c.
Proof.
  intros Hij Ha Hb Hna Hnb Hne. destruct (ci_bit _ _ _ _ H i a Ha) as [ba Hba].
  destruct (ci_bit _ _ _ _ H j b Hb) as [bb Hbb].
  assert (∀ x h h', x ∈ C h → x ∈ C h' → h = h') as Hd by (intros; by eapply (ci_disj _ _ _ _ H)).
  pose proof Ha as (l1 & l2 & HC)%list_elem_of_split. pose proof Hb as (k1 & k2 & HC')%list_elem_of_split.
  wp_use wp_two_replace; [exact HC | exact HC' | done | done | done | done | done |].
  intros R c2 (-> & H2 & Hp & Hp'). split; [done |].
  destruct (two_spare na nb Hna Hnb Hne) as (Hf & Hnd & Hal).
  eapply part_ok_ext.
  2:{ eapply (part_two _ _ _ _ H2 i l1 [a] [na] l2 ba j k1 k1 [b] [nb] k2 k2 bb); try done.
      - intros s. by eapply lists_apart.
      - by rewrite fn_lookup_insert_ne. }
  pose proof (ci_nodup _ _ _ _ H i) as Hni. rewrite HC in Hni.
  apply NoDup_app in Hni as (_ & Hd1 & [Hd2 _]%NoDup_cons).
  pose proof (ci_nodup _ _ _ _ H j) as Hnj. rewrite HC' in Hnj.
  apply NoDup_app in Hnj as (_ & Hd3 & [Hd4 _]%NoDup_cons).
  assert (a ≠ b) as Hab by (intros ->; naive_solver).
  intros h. destruct (decide (j = h)) as [<- |]; [| destruct (decide (i = h)) as [<- |]].
  - rewrite fn_lookup_insert, HC', fmap_app, fmap_cons, ren2_b by done.
    assert (a ∉ k1 ++ b :: k2) as Ha' by (rewrite <- HC'; intros ?; naive_solver).
    rewrite elem_of_app, elem_of_cons in Ha'.
    rewrite !ren2_id; [done | tauto | done | tauto |]. intros Hx. apply (Hd3 b Hx). by left.
  - rewrite fn_lookup_insert_ne, fn_lookup_insert, HC, fmap_app, fmap_cons, ren2_a by done.
    assert (b ∉ l1 ++ a :: l2) as Hb' by (rewrite <- HC; intros ?; naive_solver).
    rewrite elem_of_app, elem_of_cons in Hb'.
    rewrite !ren2_id; [done | done | tauto | | tauto]. intros Hx. apply (Hd1 a Hx). by left.
  - rewrite !fn_lookup_insert_ne, ren2_id; [done | | | done | done]; intros ?; naive_solver.
Qed.
End combined.

(** ** [bl_sw_replace2]: both in the same list *)

Section replace2.
Context c C B K (H : chain_is c C B K).

Lemma ren2_insert i (l : list Z) a na b nb :
  (∀ h, h ≠ i → a ∉ C h ∧ b ∉ C h) → ren2 a na b nb <$> C i = l →
  ∀ h, (<[i := l]> C) h = ren2 a na b nb <$> C h.
Proof.
  intros Ho <- h. destruct (decide (i = h)) as [<- |].
  - by rewrite fn_lookup_insert.
  - rewrite fn_lookup_insert_ne by done. destruct (Ho h); [done |]. by rewrite ren2_id.
Qed.

Lemma fmap_two (f : Z → Z) l1 x m y l2 :
  f <$> l1 ++ x :: m ++ y :: l2 = (f <$> l1) ++ f x :: (f <$> m) ++ f y :: (f <$> l2).
Proof. by rewrite fmap_app, fmap_cons, fmap_app, fmap_cons. Qed.

(** The two old nodes next to each other. *)
Lemma wp_adj_part i l1 o1 o2 l2 n1 n2 :
  C i = l1 ++ o1 :: o2 :: l2 → spare C K n1 → spare C K n2 → n1 ≠ n2 →
  wp (bl_sw_replace_adj o1 n1 o2 n2) (λ R c1,
    chain_is c1 C B (<[n2 := false]> (<[n1 := false]> K)) ∧
    part_ok c1 R (<[i := l1 ++ n1 :: n2 :: l2]> C) B
      (<[o1 := true]> (<[o2 := true]> (<[n2 := false]> (<[n1 := false]> K))))) c.
Proof.
  intros HC Hn1 Hn2 Hne. destruct (ci_bit _ _ _ _ H i o1) as [b Hb].
  { rewrite HC. apply elem_of_app. right. by left. }
  destruct (at_old _ _ _ _ H i (l1 ++ [o1]) o2 l2 b) as (_ & _ & Ha & _);
    [by rewrite HC, <- app_assoc | done |].
  wp_use wp_bl_sw_replace_adj; [done | done | done | done | done | done |]. intros R c1 [-> ->].
  pose proof Hn2 as (Han2 & _).
  pose proof (ci_put _ _ _ _ H n1 n2 (prev_slot (N := bnode) (PHead i) l1) Hn1 Han2) as H1.
  pose proof (ci_put _ _ _ _ H1 n2 _ (PNext n1) (spare_put _ _ n1 n2 Hn2) Ha) as H2.
  split; [done |].
  destruct (two_spare _ _ n1 n2 Hn1 Hn2 Hne) as (Hf & Hnd & Hal).
  eapply (part_one _ _ _ _ H2 i l1 [o1; o2] [n1; n2] l2 b); try done.
  intros m1 x m2 E. destruct m1 as [| y m1]; simplify_eq/=.
  - by rewrite lookup_insert_ne, lookup_insert_eq by congruence.
  - destruct m1 as [| ? m1]; simplify_eq/=; [| by destruct m1]. by rewrite lookup_insert_eq.
Qed.

(** ... or with other nodes between them, [a] first. *)
Lemma wp_gap_part i l1 a m b l2 na nb :
  C i = l1 ++ a :: m ++ b :: l2 → m ≠ [] → spare C K na → spare C K nb → na ≠ nb →
  wp (let! r1 := bl_sw_replace a na in let! r2 := bl_sw_replace b nb in st_ret (r1 ++ r2))
    (λ R c2, chain_is c2 C B (put2 K na nb) ∧
      part_ok c2 R (<[i := l1 ++ na :: m ++ nb :: l2]> C) B
        (<[b := true]> (<[a := true]> (put2 K na nb)))) c.
Proof.
  intros HC Hm Hna Hnb Hne. destruct (ci_bit _ _ _ _ H i a) as [bb Hb].
  { rewrite HC. apply elem_of_app. right. by left. }
  wp_use (wp_two_replace c C B K H i l1 a (m ++ b :: l2) i (l1 ++ a :: m) b l2 na nb bb bb);
    [done | by rewrite HC, <- app_assoc | done | done | done | done | done |].
  intros R c2 (-> & H2 & Hp & Hp'). split; [done |].
  destruct (two_spare _ _ na nb Hna Hnb Hne) as (Hf & Hnd & Hal).
  eapply part_ok_ext.
  2:{ eapply (part_two _ _ _ _ H2 i l1 [a] [na] (m ++ b :: l2) bb i (l1 ++ a :: m) (l1 ++ na :: m)
        [b] [nb] l2 l2 bb); try done.
      - by rewrite HC, <- app_assoc.
      - intros s. by eapply gap_apart.
      - by rewrite fn_lookup_insert, <- app_assoc.
      - rewrite !prev_slot_app, !prev_slot_cons. by apply prev_slot_nonempty.
      - by destruct l1. }
  intros h. destruct (decide (i = h)) as [<- |].
  - by rewrite !fn_lookup_insert, <- app_assoc.
  - by rewrite !fn_lookup_insert_ne.
Qed.

(** ... or [b] first. *)
Lemma wp_gap_part' i l1 a m b l2 na nb :
  C i = l1 ++ b :: m ++ a :: l2 → m ≠ [] → spare C K na → spare C K nb → na ≠ nb →
  wp (let! r1 := bl_sw_replace a na in let! r2 := bl_sw_replace b nb in st_ret (r1 ++ r2))
    (λ R c2, chain_is c2 C B (put2 K na nb) ∧
      part_ok c2 R (<[i := l1 ++ nb :: m ++ na :: l2]> C) B
        (<[b := true]> (<[a := true]> (put2 K na nb)))) c.
Proof.
  intros HC Hm Hna Hnb Hne. destruct (ci_bit _ _ _ _ H i b) as [bb Hb].
  { rewrite HC. apply elem_of_app. right. by left. }
  wp_use (wp_two_replace c C B K H i (l1 ++ b :: m) a l2 i l1 b (m ++ a :: l2) na nb bb bb);
    [by rewrite HC, <- app_assoc | done | done | done | done | done | done |].
  intros R c2 (-> & H2 & Hp & Hp'). split; [done |].
  destruct (two_spare _ _ na nb Hna Hnb Hne) as (Hf & Hnd & Hal).
  eapply part_ok_ext.
  2:{ eapply (part_two _ _ _ _ H2 i (l1 ++ b :: m) [a] [na] l2 bb i l1 l1
        [b] [nb] (m ++ a :: l2) (m ++ na :: l2) bb); try done.
      - by rewrite HC, <- app_assoc.
      - intros s Hs Hs'. revert Hs. by eapply gap_apart.
      - by rewrite fn_lookup_insert, <- app_assoc.
      - by rewrite !hd0_app. }
  intros h. destruct (decide (i = h)) as [<- |].
  - by rewrite !fn_lookup_insert.
  - by rewrite !fn_lookup_insert_ne.
Qed.

Lemma wp_bl_sw_replace2 i a na b nb :
  a ∈ C i → b ∈ C i → a ≠ b → spare C K na → spare C K nb → na ≠ nb →
  wp (bl_sw_replace2 a na b nb) (λ R c2, chain_is c2 C B (put2 K na nb) ∧
      part_ok c2 R (λ h, ren2 a na b nb <$> C h) B (<[b := true]> (<[a := true]> (put2 K na nb)))) c.
Proof.
  intros Ha Hb Hab Hna Hnb Hne.
  assert (∀ h, h ≠ i → a ∉ C h ∧ b ∉ C h) as Hout.
  { intros h Hh. split; intros Hx; apply Hh; by eapply (ci_disj _ _ _ _ H). }
  assert (∀ l, l ⊆ C i → a ∉ l → b ∉ l → ren2 a na b nb <$> l = l) as Hid by (intros; by apply ren2_id).
  destruct (ci_bit _ _ _ _ H i a Ha) as [bb Hbb]. pose proof (ci_nodup _ _ _ _ H i) as Hnd.
  pose proof Ha as (l1 & l2 & HC)%list_elem_of_split.
  destruct (at_old _ _ _ _ H i l1 a l2 bb HC Hbb) as (Hna' & Hcla & _ & _ & _).
  pose proof Hb as Hb'. rewrite HC in Hb', Hnd. apply NoDup_app in Hnd as (Hn1 & Hd1 & [Hd2 Hn2]%NoDup_cons).
  unfold bl_sw_replace2. wp_step. eapply wp_lookup; [done |]. simpl b_next. cbv zeta. rewrite Hcla.
  apply elem_of_app in Hb' as [Hb' | [-> | Hb']%elem_of_cons]; [| done |].
  - (* b before a *)
    apply list_elem_of_split in Hb' as (k1 & m & ->). rewrite <- app_assoc in HC. simpl in HC.
    destruct (at_old _ _ _ _ H i k1 b (m ++ a :: l2) bb HC Hbb) as (Hnb' & Hclb & _).
    apply NoDup_app in Hn1 as (_ & Hd3 & [Hd4 _]%NoDup_cons).
    wp_step. eapply wp_lookup; [done |]. simpl b_next. cbv zeta. rewrite Hclb.
    assert (hd0 l2 =? b = false) as ->.
    { apply Z.eqb_neq. intros E. destruct l2 as [| x l2].
      - apply (ci_nonzero _ _ _ _ H i). change (hd0 []) with 0 in E. by rewrite E.
      - unfold hd0 in E. simpl in E. subst x. apply (Hd1 b); [| right; by left].
        apply elem_of_app. right. by left. }
    assert (a ∉ k1 ∧ b ∉ k1 ∧ a ∉ m ∧ b ∉ m ∧ b ∉ l2) as (? & ? & ? & ? & ?).
    { split_and!; [intros Hx | intros Hx | intros Hx | done | intros Hx].
      - apply (Hd1 a); [| by left]. apply elem_of_app. by left.
      - apply (Hd3 b Hx). by left.
      - apply (Hd1 a); [| by left]. apply elem_of_app. right. by right.
      - apply (Hd1 b); [| by right]. apply elem_of_app. right. by left. }
    destruct m as [| x m].
    + simpl. unfold hd0 at 1. simpl. rewrite Z.eqb_refl.
      wp_use (wp_adj_part i k1 b a l2 nb na); [done | done | done | congruence |].
      intros R c1 [Hch Hp]. unfold put2. rewrite (insert_insert_ne K nb na) by congruence.
      split; [done |].
      eapply part_ok_ext; [| exact Hp]. apply ren2_insert; [done |].
      rewrite HC. simpl. rewrite fmap_app, !fmap_cons, ren2_a, ren2_b, !ren2_id by done. done.
    + rewrite hd0_app by done. assert (hd0 (x :: m) =? a = false) as ->.
      { apply Z.eqb_neq. unfold hd0. simpl. intros ->. rewrite elem_of_cons in *. tauto. }
      wp_use wp_gap_part'; [exact HC | done | done | done | done |]. intros R c2 [Hch Hp].
      split; [done |]. eapply part_ok_ext; [| exact Hp]. apply ren2_insert; [done |].
      rewrite HC, fmap_two, ren2_a, ren2_b, !ren2_id by done. done.
  - (* a before b *)
    apply list_elem_of_split in Hb' as (m & k2 & ->).
    destruct (at_old _ _ _ _ H i (l1 ++ a :: m) b k2 bb) as (Hnb' & Hclb & _);
      [by rewrite HC, <- app_assoc | done |].
    apply NoDup_app in Hn2 as (_ & Hd3 & [Hd4 _]%NoDup_cons).
    wp_step. eapply wp_lookup; [done |]. simpl b_next. cbv zeta. rewrite Hclb.
    assert (a ∉ l1 ∧ b ∉ l1 ∧ a ∉ m ∧ b ∉ m ∧ a ∉ k2) as (? & ? & ? & ? & ?).
    { rewrite elem_of_app, elem_of_cons in Hd2. split_and!; try tauto; intros Hx.
      - apply (Hd1 a Hx). by left.
      - apply (Hd1 b Hx). right. apply elem_of_app. right. by left.
      - apply (Hd3 b Hx). by left. }
    destruct m as [| x m].
    + simpl. unfold hd0 at 1. simpl. rewrite Z.eqb_refl.
      wp_use (wp_adj_part i l1 a b k2 na nb); [done | done | done | done |].
      intros R c1 [Hch Hp]. split; [done |]. rewrite insert_insert_ne in Hp by done.
      eapply part_ok_ext; [| exact Hp]. apply ren2_insert; [done |].
      rewrite HC. simpl. rewrite fmap_app, !fmap_cons, ren2_a, ren2_b, !ren2_id by done. done.
    + rewrite hd0_app by done. assert (hd0 (x :: m) =? b = false) as ->.
      { apply Z.eqb_neq. unfold hd0. simpl. intros ->. rewrite elem_of_cons in *. tauto. }
      assert (hd0 k2 =? a = false) as ->.
      { apply Z.eqb_neq. intros E. destruct k2 as [| y k2].
        - apply (ci_nonzero _ _ _ _ H i). change (hd0 []) with 0 in E. by rewrite E.
        - unfold hd0 in E. simpl in E. subst y. rewrite elem_of_cons in *. tauto. }
      wp_use wp_gap_part; [exact HC | done | done | done | done |]. intros R c2 [Hch Hp].
      split; [done |]. eapply part_ok_ext; [| exact Hp]. apply ren2_insert; [done |].
      rewrite HC, fmap_two, ren2_a, ren2_b, !ren2_id by done. done.
Qed.
End replace2.
