(* ===== verification/BlLru.v ===== *)
(** The LRU that dcache_bucketlock.c shares with the transactional engine
    (dcache_lru.h and dcache_lru_shrink.h, lock arm): one list per shard under
    that shard's lock, and a membership word whose ON(i), SHRINK(i), OFF and DEAD
    states hand a dentry from adder to shrinker to killer.

    The lists and words have the layout of [Lru]: [dc_lru_one] is
    [struct dc_lru_shard], its [lo_nr_items] the shard's [count]. *)

From S2P Require Import Prelude HList Lru.

Definition DC_LRU_OFF : Z := 0.
Definition DC_LRU_DEAD : Z := 1.
Definition DC_LRU_ON (i : nat) : Z := Z.of_nat i + 2.
Definition DC_LRU_SHRINK_BIT : Z := 0x80000000.
Definition DC_LRU_KILL_BIT : Z := 0x40000000.
Definition DC_LRU_SHRINK (i : nat) : Z := Z.lor (DC_LRU_ON i) DC_LRU_SHRINK_BIT.
Definition DC_LRU_STATE_BITS : Z := Z.lor DC_LRU_SHRINK_BIT DC_LRU_KILL_BIT.
Definition DC_LRU_SHARD_OF (st : Z) : nat :=
  Z.to_nat (Z.land st (Z.lnot DC_LRU_STATE_BITS) - DC_LRU_ON 0).
Definition DC_LRU_IS_OWNED (st : Z) : bool :=
  DC_LRU_ON 0 <=? Z.land st (Z.lnot DC_LRU_STATE_BITS).
Definition DC_LRU_IS_SHRINK (st : Z) : bool := negb (Z.land st DC_LRU_SHRINK_BIT =? 0).

Definition lru_nshards : nat := 64.

(** [lru_shard_index], given what [dc_current_node] reports. *)
Definition lru_shard_index (cur_node : nat) : ST lru_state nat :=
  st_gets (λ s, let nlru := length (ls_one s) in
                if (cur_node <? nlru)%nat then cur_node else Nat.modulo cur_node nlru).

(** The zeroed shards of [lru_shards_init]. *)
Definition lru_shards_init : list dc_lru_one := replicate lru_nshards lone0.

Definition lru_lock (sh : nat) : ST lru_state unit :=
  let! o := one_load sh in
  if lo_lock o =? 0 then one_store sh (set_lo_lock 1) else st_fault Deadlock.

Definition lru_unlock (sh : nat) : ST lru_state unit :=
  one_store sh (λ o, set_lo_lock (Z.land (lo_lock o) (Z.lnot 255)) o).

Definition lru_listed (d : Z) : ST lru_state bool :=
  let! n := st_lookup ls_node d in st_ret (DC_LRU_IS_OWNED (l_shard n)).

(** The link at the tail, as [lru_add], [lru_add_new] and
    [lru_link_tail_locked] all write it out. *)
Definition lru_enqueue (sh : nat) (d : Z) : ST lru_state unit :=
  let! o := one_load sh in
  lnode_store d (set_lprev (lo_tail o)) ;;;
  lnode_store d (set_lnext 0) ;;;
  (if negb (lo_tail o =? 0) then lnode_store (lo_tail o) (set_lnext d)
   else one_store sh (set_lo_head d)) ;;;
  one_store sh (set_lo_tail d) ;;;
  one_store sh (λ o, set_lo_nr (w64 (lo_nr_items o + 1)) o).

(** [lru_add] once the dentry was found alive. *)
Definition lru_add_claim (idx : nat) (d : Z) : ST lru_state unit :=
  lru_lock idx ;;;
  let! was := shard_cmpxchg d DC_LRU_OFF (DC_LRU_ON idx) in
  if negb (was =? DC_LRU_OFF) then lru_unlock idx
  else
    lru_enqueue idx d ;;;
    lru_unlock idx.

Definition lru_add_new (cur_node : nat) (d : Z) : ST lru_state unit :=
  let! idx := lru_shard_index cur_node in
  lru_lock idx ;;;
  lru_enqueue idx d ;;;
  lnode_store d (set_lshard (DC_LRU_ON idx)) ;;;
  lru_unlock idx.

Definition lru_unlink_locked_to (sh : nat) (d newst : Z) : ST lru_state unit :=
  let! n := st_lookup ls_node d in
  (if negb (l_prev n =? 0) then lnode_store (l_prev n) (set_lnext (l_next n))
   else one_store sh (set_lo_head (l_next n))) ;;;
  (if negb (l_next n =? 0) then lnode_store (l_next n) (set_lprev (l_prev n))
   else one_store sh (set_lo_tail (l_prev n))) ;;;
  lnode_store d (set_lnext 0) ;;;
  lnode_store d (set_lprev 0) ;;;
  lnode_store d (set_lshard newst) ;;;
  one_store sh (λ o, set_lo_nr (w64 (lo_nr_items o - 1)) o).

Definition lru_unlink_locked (sh : nat) (d : Z) : ST lru_state unit :=
  lru_unlink_locked_to sh d DC_LRU_OFF.

(** One round of [lru_del_can_free]'s loop: [inr] is its return value. *)
Definition lru_del_round (d : Z) (freeing : bool) (_ : unit) : ST lru_state (unit + bool) :=
  let! n := st_lookup ls_node d in
  let st := l_shard n in
  if st =? DC_LRU_DEAD then st_ret (inr true)
  else if st =? DC_LRU_OFF then
    let! was := shard_cmpxchg d DC_LRU_OFF DC_LRU_DEAD in
    st_ret (if was =? DC_LRU_OFF then inr true else inl tt)
  else
    let sh := DC_LRU_SHARD_OF st in
    lru_lock sh ;;;
    let! n := st_lookup ls_node d in
    if negb (l_shard n =? st) then lru_unlock sh ;;; st_ret (inl tt)
    else if DC_LRU_IS_SHRINK st then
      if negb freeing then lru_unlock sh ;;; st_ret (inr true)
      else
        lnode_store d (set_lshard (Z.lor st DC_LRU_KILL_BIT)) ;;;
        lru_unlock sh ;;;
        st_ret (inr false)
    else
      lru_unlink_locked_to sh d (if freeing then DC_LRU_DEAD else DC_LRU_OFF) ;;;
      lru_unlock sh ;;;
      st_ret (inr true).

(** The loop is unbounded in C; a round that is not raced ends it. *)
Definition lru_del_can_free (d : Z) (freeing : bool) : ST lru_state bool :=
  let! r := iter_upto LRU_DEL_ROUNDS (lru_del_round d freeing) tt in
  match r with inr b => st_ret b | inl _ => st_fault NoFuel end.

Definition lru_del (d : Z) : ST lru_state unit :=
  lru_del_can_free d false ;;; st_ret tt.

(** ** The shrinker's handling of one victim (dcache_lru_shrink.h) *)

Definition lru_link_tail_locked (sh : nat) (d : Z) : ST lru_state unit :=
  lru_enqueue sh d ;;;
  lnode_store d (set_lshard (DC_LRU_ON sh)).

Definition lru_shrink_move_locked (sh : nat) (d : Z) : ST lru_state unit :=
  lru_unlink_locked_to sh d (DC_LRU_SHRINK sh).

Definition lru_shrink_release_locked (d : Z) : ST lru_state unit :=
  lnode_store d (set_lshard DC_LRU_DEAD).

Definition lru_rotate_locked (sh : nat) (d : Z) : ST lru_state unit :=
  lru_unlink_locked_to sh d (DC_LRU_ON sh) ;;;
  lru_link_tail_locked sh d.
