(* ===== verification/BlLruSpec.v ===== *)
(** What the operations of the shared LRU (dcache_lru.h, lock arm) do to the
    membership words.

    [lru_is s W]: the shard locks are free, the words are [W], and a dentry is on
    the list of shard [i] exactly when its word says ON(i).  Every operation is
    specified as an update of [W]. *)

From S2P Require Import Prelude HList Lru BlLru.

Definition brep (s : lru_state) (L : nat → list Z) : Prop :=
  llists s L ∧
  ∀ i d, d ∈ L i ↔ words s !! d = Some (DC_LRU_ON i) ∧ (i < DC_LRU_NODES)%nat.

Definition lru_is (s : lru_state) (W : gmap Z Z) : Prop :=
  (∃ L, brep s L) ∧ all_unlocked s ∧ words s = W.

(** A word that does not say ON. *)
Definition off_list (w : Z) : Prop := ∀ i, (i < DC_LRU_NODES)%nat → w ≠ DC_LRU_ON i.

Lemma off_list_off : off_list DC_LRU_OFF.
Proof. intros i _. unfold DC_LRU_OFF, DC_LRU_ON. lia. Qed.
Lemma off_list_dead : off_list DC_LRU_DEAD.
Proof. intros i _. unfold DC_LRU_DEAD, DC_LRU_ON. lia. Qed.

Lemma on_inj' i j : DC_LRU_ON i = DC_LRU_ON j → i = j.
Proof. unfold DC_LRU_ON. lia. Qed.

(** ON(i) has none of the state bits. *)
Lemma on_bits i : (i < DC_LRU_NODES)%nat →
  Z.land (DC_LRU_ON i) (Z.lnot DC_LRU_STATE_BITS) = DC_LRU_ON i ∧
  Z.land (DC_LRU_ON i) DC_LRU_SHRINK_BIT = 0 ∧ Z.land (DC_LRU_ON i) DC_LRU_KILL_BIT = 0.
Proof.
  intros Hi. unfold DC_LRU_NODES in Hi.
  assert (∀ j : nat, (j < 64)%nat → bool_decide
    (Z.land (DC_LRU_ON j) (Z.lnot DC_LRU_STATE_BITS) = DC_LRU_ON j ∧
     Z.land (DC_LRU_ON j) DC_LRU_SHRINK_BIT = 0 ∧ Z.land (DC_LRU_ON j) DC_LRU_KILL_BIT = 0) = true)
    as Hall.
  { intros j Hj. assert (forallb (λ j, bool_decide
      (Z.land (DC_LRU_ON j) (Z.lnot DC_LRU_STATE_BITS) = DC_LRU_ON j ∧
       Z.land (DC_LRU_ON j) DC_LRU_SHRINK_BIT = 0 ∧ Z.land (DC_LRU_ON j) DC_LRU_KILL_BIT = 0))
      (seq 0 64) = true) as Ha by (vm_compute; done).
    rewrite forallb_forall in Ha. apply Ha, in_seq. lia. }
  exact (bool_decide_eq_true_1 _ (Hall i Hi)).
Qed.

Lemma on_owned i : (i < DC_LRU_NODES)%nat → DC_LRU_IS_OWNED (DC_LRU_ON i) = true.
Proof.
  intros Hi. destruct (on_bits i Hi) as (E & _). unfold DC_LRU_IS_OWNED. rewrite E.
  apply Z.leb_le. unfold DC_LRU_ON. lia.
Qed.

Lemma on_shard_of i : (i < DC_LRU_NODES)%nat → DC_LRU_SHARD_OF (DC_LRU_ON i) = i.
Proof.
  intros Hi. destruct (on_bits i Hi) as (E & _). unfold DC_LRU_SHARD_OF. rewrite E.
  unfold DC_LRU_ON. lia.
Qed.

Lemma on_not_shrink i : (i < DC_LRU_NODES)%nat → DC_LRU_IS_SHRINK (DC_LRU_ON i) = false.
Proof. intros Hi. destruct (on_bits i Hi) as (_ & E & _). unfold DC_LRU_IS_SHRINK. by rewrite E. Qed.

Lemma shard_index_run cur s :
  length (ls_one s) = DC_LRU_NODES → lru_shard_index cur s = Ok (lru_nid cur, s).
Proof. intros E. unfold lru_shard_index, st_gets, lru_nid. by rewrite E. Qed.

(** The list operations are those of [Lru]. *)
Lemma lru_enqueue_link sh d : lru_enqueue sh d = Lru.lru_link_tail_locked sh d.
Proof. done. Qed.
Lemma lru_unlink_del sh d newst : lru_unlink_locked_to sh d newst = Lru.lru_del_locked sh d newst.
Proof. done. Qed.
Lemma lru_lock_lock sh : lru_lock sh = Lru.lru_lock sh.
Proof. done. Qed.
Lemma lru_unlock_unlock sh : lru_unlock sh = Lru.lru_unlock sh.
Proof. done. Qed.

(** Linking and unlinking keep lists and words in agreement. *)
Lemma brep_linked s s' L i d :
  brep s L → (i < DC_LRU_NODES)%nat → (∀ j, d ∉ L j) →
  llists s' (<[i := L i ++ [d]]> L) → words s' = <[d := DC_LRU_ON i]> (words s) →
  brep s' (<[i := L i ++ [d]]> L).
Proof.
  intros [Hl Hw] Hi Hfresh Hl' Hw'. split; [done |]. intros j x. rewrite Hw'.
  destruct (decide (d = x)) as [<- | Hx].
  - rewrite lookup_insert_eq. destruct (decide (i = j)) as [<- |].
    + rewrite fn_lookup_insert, elem_of_app, list_elem_of_singleton. tauto.
    + rewrite fn_lookup_insert_ne by done. split; [intros H; by apply Hfresh in H |].
      intros [[= E] _]. exfalso. by apply on_inj' in E.
  - rewrite lookup_insert_ne by done. rewrite <- Hw. destruct (decide (i = j)) as [<- |].
    + rewrite fn_lookup_insert, elem_of_app, list_elem_of_singleton.
      split; [intros [? | ?]; [done | congruence] | tauto].
    + by rewrite fn_lookup_insert_ne.
Qed.

Lemma brep_unlinked s s' L L' d newst :
  brep s L → llists s' L' → (∀ j x, x ∈ L' j ↔ x ∈ L j ∧ x ≠ d) →
  words s' = <[d := newst]> (words s) → off_list newst → brep s' L'.
Proof.
  intros [Hl Hw] Hl' Hmem Hw' Hoff. split; [done |]. intros j x. rewrite Hmem, Hw, Hw'.
  destruct (decide (d = x)) as [<- | Hx].
  - rewrite lookup_insert_eq. split; [tauto |]. intros [[= E] Hj]. by destruct (Hoff j Hj).
  - rewrite lookup_insert_ne by done. split; [tauto | intros ?; by split].
Qed.

Lemma brep_off s L d w : brep s L → words s !! d = Some w → off_list w → ∀ j, d ∉ L j.
Proof. intros [_ Hw] Hd Hoff j [E Hj]%Hw. rewrite Hd in E. injection E as E. by eapply Hoff. Qed.

(** A change of words that concern no list. *)
Lemma brep_words s s' L d w newst :
  brep s L → llists s' L → words s !! d = Some w → off_list w →
  words s' = <[d := newst]> (words s) → off_list newst → brep s' L.
Proof.
  intros HL Hl' Hd Hw Hw' Hoff. eapply (brep_unlinked s s' L L d newst); try done.
  intros j x. split; [| tauto]. intros Hx. split; [done |]. intros ->.
  by apply (brep_off s L d w HL Hd Hw j).
Qed.

Lemma llists_set_node s L d f :
  llists s L → (∀ n, l_prev (f n) = l_prev n ∧ l_next (f n) = l_next n) →
  llists {| ls_one := ls_one s; ls_node := alter f d (ls_node s) |} L.
Proof.
  intros Hl Hf. eapply llists_ext; [exact Hl | done | simpl; eauto |]. simpl. intros.
  apply links_lru_alter. intros n. by destruct (Hf n).
Qed.

Lemma unlock_relock s s1 i :
  all_unlocked s → locks s1 = <[i := 1]> (locks s) → locks s1 = <[i := 1]> (replicate DC_LRU_NODES 0).
Proof. intros Hu ->. by rewrite Hu. Qed.

(** ** The operations *)

(** Under the shard lock of [i], put back at the end. *)
Lemma wp_locked i s W (m : ST lru_state unit) (Q : unit → lru_state → Prop) :
  lru_is s W → (i < DC_LRU_NODES)%nat →
  (∀ s1 L, brep s1 L → words s1 = W → locks s1 = <[i := 1]> (replicate DC_LRU_NODES 0) →
    wp m (λ _ s2, (∃ L2, brep s2 L2) ∧ locks s2 = locks s1 ∧
      ∀ s3, lru_is s3 (words s2) → Q tt s3) s1) →
  wp (lru_lock i ;;; m ;;; lru_unlock i) Q s.
Proof.
  intros ((L & HL) & Hu & HW) Hi Hm. subst W. wp_step. rewrite lru_lock_lock.
  wp_use wp_lru_lock; [apply HL | done | done |]. intros _ s1 (Hl1 & Hn1 & Hk1).
  assert (words s1 = words s) as Hw1 by (by apply words_node).
  wp_step. wp_use (Hm s1 L); [| done | by eapply unlock_relock |].
  { split; [done |]. rewrite Hw1. apply HL. }
  intros _ s2 ((L2 & Hl2 & Hw2) & Hk2 & HQ). rewrite lru_unlock_unlock.
  wp_use wp_lru_unlock; [exact Hl2 | | done |].
  { rewrite Hk2. by eapply unlock_relock. }
  intros [] s3 (Hl3 & Hn3 & Hu3). assert (words s3 = words s2) as Hw3 by (by apply words_node).
  apply HQ. split_and!; [| done | done]. exists L2. split; [done |]. by rewrite Hw3.
Qed.

Lemma wp_lru_add_new' s W cur d w :
  lru_is s W → W !! d = Some w → off_list w → d ≠ 0 →
  wp (lru_add_new cur d) (λ _ s', lru_is s' (<[d := DC_LRU_ON (lru_nid cur)]> W)) s.
Proof.
  intros Hs Hd Hoff H0. pose proof (lru_nid_lt cur) as Hi. pose proof Hs as ((L0 & [Hl0 _]) & _ & _).
  unfold lru_add_new. wp_step. eapply wp_run; [apply shard_index_run; by eapply ll_size |].
  set (i := lru_nid cur) in *.
  enough (wp (lru_lock i ;;; (lru_enqueue i d ;;; lnode_store d (set_lshard (DC_LRU_ON i))) ;;; lru_unlock i)
    (λ _ s', lru_is s' (<[d := DC_LRU_ON i]> W)) s) as Hw.
  { revert Hw. unfold wp, st_bind. destruct (lru_lock i s) as [[] |]; [| done].
    destruct (lru_enqueue i d _) as [[] |]; [| done]. done. }
  eapply wp_locked; [done | done |]. intros s1 L HL Hw1 Hk1. rewrite <- Hw1 in Hd.
  pose proof (brep_off s1 L d w HL Hd Hoff) as Hfresh.
  destruct (words_lookup_inv _ _ _ Hd) as (n & Hn & _).
  wp_step. rewrite lru_enqueue_link.
  wp_use wp_lru_link_tail_locked; [apply HL | done | done | done | by eexists |].
  intros _ s2 (Hl2 & Hw2 & _ & Hk2).
  destruct (words_lookup_inv s2 d w) as (n2 & Hn2 & _); [congruence |].
  eapply wp_run; [by eapply lnode_store_ok |].
  assert (words {| ls_one := ls_one s2; ls_node := alter (set_lshard (DC_LRU_ON i)) d (ls_node s2) |}
          = <[d := DC_LRU_ON i]> (words s1)) as Hw3.
  { rewrite <- Hw2. by eapply words_set_shard. }
  split_and!; [| done |].
  - eexists. eapply brep_linked; [exact HL | done | done | by apply llists_set_node | done].
  - intros s3. by rewrite Hw3, Hw1.
Qed.

(** [lru_add] after its liveness test: only a dentry that is OFF is linked. *)
Lemma wp_lru_add_claim' s W i d w :
  lru_is s W → W !! d = Some w → (i < DC_LRU_NODES)%nat → d ≠ 0 →
  wp (lru_add_claim i d) (λ _ s',
    lru_is s' (if w =? DC_LRU_OFF then <[d := DC_LRU_ON i]> W else W)) s.
Proof.
  intros Hs Hd Hi H0. unfold lru_add_claim.
  enough (wp (lru_lock i ;;; (let! was := shard_cmpxchg d DC_LRU_OFF (DC_LRU_ON i) in
      when (was =? DC_LRU_OFF) (lru_enqueue i d)) ;;; lru_unlock i)
    (λ _ s', lru_is s' (if w =? DC_LRU_OFF then <[d := DC_LRU_ON i]> W else W)) s) as Hw.
  { revert Hw. unfold wp, st_bind. destruct (lru_lock i s) as [[? s1] |]; [| done].
    destruct (shard_cmpxchg _ _ _ _) as [[was s2] |]; [| done].
    unfold when. destruct (was =? DC_LRU_OFF); simpl; [| done].
    destruct (lru_enqueue i d s2) as [[] |]; done. }
  eapply wp_locked; [done | done |]. intros s1 L HL Hw1 Hk1. rewrite <- Hw1 in Hd.
  destruct (words_lookup_inv _ _ _ Hd) as (n & Hn & Hsh).
  wp_step. unfold shard_cmpxchg. wp_step. eapply wp_lookup; [done |]. rewrite Hsh. wp_step.
  destruct (Z.eqb_spec w DC_LRU_OFF) as [-> | Hne]; simpl.
  - pose proof (brep_off s1 L d _ HL Hd off_list_off) as Hfresh.
    eapply wp_run; [by eapply lnode_store_ok |]. wp_step. simpl.
    set (s2 := {| ls_one := ls_one s1; ls_node := alter _ d (ls_node s1) |}).
    assert (words s2 = <[d := DC_LRU_ON i]> (words s1)) as Hw2 by (by eapply words_set_shard).
    unfold when. rewrite lru_enqueue_link. wp_use (wp_lru_link_tail_locked s2 L i d);
      [apply llists_set_node; [apply HL | done] | done | done | done | |].
    { unfold s2. simpl. rewrite lookup_alter_is_Some. by eexists. }
    intros _ s3 (Hl3 & Hw3 & _ & Hk3). split_and!; [| done |].
    + eexists. eapply brep_linked; [exact HL | done | done | done | congruence].
    + intros s4. by rewrite Hw3, Hw2, Hw1.
  - wp_step. apply wp_when; [by intros ?%Z.eqb_eq |]. intros _.
    split_and!; [by eexists | done |]. intros s3. by rewrite Hw1.
Qed.

(** [lru_del_can_free] outside the shrinker: the dentry ends on no list; freeing
    seals it DEAD, and so does finding it OFF. *)
Lemma wp_lru_del_can_free' s W d w freeing :
  lru_is s W → W !! d = Some w →
  (w = DC_LRU_DEAD ∨ w = DC_LRU_OFF ∨ ∃ i, (i < DC_LRU_NODES)%nat ∧ w = DC_LRU_ON i) →
  wp (lru_del_can_free d freeing) (λ r s', r = true ∧ ∃ w', lru_is s' (<[d := w']> W) ∧
    (w' = DC_LRU_DEAD ∨ freeing = false ∧ w' = DC_LRU_OFF)) s.
Proof.
  intros Hs Hd Hw. pose proof Hs as ((L & HL) & Hu & HW). rewrite <- HW in Hd.
  destruct (words_lookup_inv _ _ _ Hd) as (n & Hn & Hsh).
  unfold lru_del_can_free. wp_step. apply wp_iter_first. unfold lru_del_round. wp_step.
  eapply wp_lookup; [done |]. cbv zeta. rewrite Hsh.
  destruct Hw as [-> | [-> | (i & Hi & ->)]].
  - simpl. wp_step. eexists. split; [done |]. wp_step. split; [done |]. exists DC_LRU_DEAD.
    split; [| by left]. rewrite insert_id by congruence. done.
  - simpl. unfold shard_cmpxchg. wp_step. wp_step. eapply wp_lookup; [done |]. rewrite Hsh. simpl.
    wp_step. eapply wp_run; [by eapply lnode_store_ok |]. wp_step. wp_step. simpl.
    eexists. split; [done |]. wp_step. split; [done |]. exists DC_LRU_DEAD. split; [| by left].
    assert (words {| ls_one := ls_one s; ls_node := alter (set_lshard DC_LRU_DEAD) d (ls_node s) |}
            = <[d := DC_LRU_DEAD]> (words s)) as Hw2 by (by eapply words_set_shard).
    split_and!; [| done | congruence]. exists L.
    eapply (brep_words s); eauto using off_list_off, off_list_dead. apply llists_set_node; [apply HL | done].
  - destruct (Z.eqb_spec (DC_LRU_ON i) DC_LRU_DEAD) as [E | _]; [unfold DC_LRU_ON, DC_LRU_DEAD in E; lia |].
    destruct (Z.eqb_spec (DC_LRU_ON i) DC_LRU_OFF) as [E | _]; [unfold DC_LRU_ON, DC_LRU_OFF in E; lia |].
    rewrite on_shard_of, on_not_shrink by done.
    wp_step. rewrite lru_lock_lock. wp_use wp_lru_lock; [apply HL | done | done |].
    intros _ s1 (Hl1 & Hn1 & Hk1). wp_step. eapply wp_lookup; [by rewrite Hn1 |].
    rewrite Hsh, Z.eqb_refl. simpl. wp_step. rewrite lru_unlink_del.
    assert (d ∈ L i) as HdL by (by apply HL).
    wp_use wp_lru_del_locked; [exact Hl1 | exact HdL |].
    intros _ s2 (L' & Hl2 & HL' & Hw2 & _ & Hk2). wp_step. rewrite lru_unlock_unlock.
    wp_use wp_lru_unlock; [exact Hl2 | | done |]; [by rewrite Hk2, Hk1, Hu |].
    intros _ s3 (Hl3 & Hn3 & Hu3). wp_step. eexists. split; [done |]. wp_step. split; [done |].
    assert (words s3 = <[d := if freeing then DC_LRU_DEAD else DC_LRU_OFF]> (words s)) as Hw3.
    { rewrite (words_node s2 s3), Hw2, (words_node s s1) by done. done. }
    eexists. split.
    + split_and!; [| done | by rewrite Hw3, HW]. exists L'.
      eapply (brep_unlinked s s3); [exact HL | done | done | done |].
      destruct freeing; [apply off_list_dead | apply off_list_off].
    + destruct freeing; auto.
Qed.

Lemma wp_lru_del' s W d w :
  lru_is s W → W !! d = Some w →
  (w = DC_LRU_DEAD ∨ w = DC_LRU_OFF ∨ ∃ i, (i < DC_LRU_NODES)%nat ∧ w = DC_LRU_ON i) →
  wp (lru_del d) (λ _ s', ∃ w', lru_is s' (<[d := w']> W) ∧ (w' = DC_LRU_DEAD ∨ w' = DC_LRU_OFF)) s.
Proof.
  intros. unfold lru_del. wp_step. wp_use wp_lru_del_can_free'; [done | done | done |].
  intros r s' (_ & w' & ? & ?). wp_step. exists w'. split; [done |]. tauto.
Qed.

(** Marking referenced, allocation, release. *)
Lemma lru_is_ref s W d n :
  lru_is s W → ls_node s !! d = Some n →
  lru_is {| ls_one := ls_one s; ls_node := alter (set_lref true) d (ls_node s) |} W.
Proof.
  intros ((L & HL) & Hu & HW) Hn.
  assert (words {| ls_one := ls_one s; ls_node := alter (set_lref true) d (ls_node s) |} = words s)
    as E by (by apply words_alter).
  split_and!; [| done | congruence]. exists L. split; [apply llists_set_node; [apply HL | done] |].
  rewrite E. apply HL.
Qed.

Lemma lru_is_alloc s W d :
  lru_is s W → W !! d = None →
  lru_is {| ls_one := ls_one s; ls_node := <[d := lnode0]> (ls_node s) |} (<[d := DC_LRU_OFF]> W).
Proof.
  intros ((L & [Hl Hw]) & Hu & HW) Hd. subst W.
  assert (ls_node s !! d = None) as Hd'.
  { unfold words in Hd. rewrite lookup_fmap in Hd. by destruct (ls_node s !! d). }
  assert (words {| ls_one := ls_one s; ls_node := <[d := lnode0]> (ls_node s) |}
    = <[d := DC_LRU_OFF]> (words s)) as E.
  { unfold words. simpl. by rewrite fmap_insert. }
  split_and!; [| done | done]. exists L. split.
  - eapply llists_ext; [exact Hl | done | simpl; eauto |]. simpl. intros i x Hx. unfold links.
    rewrite lookup_insert_ne; [done |]. intros <-.
    destruct (llists_dom s L i d Hl Hx) as ([? ?] & _). congruence.
  - intros i x. rewrite E, Hw. destruct (decide (d = x)) as [<- |]; [| by rewrite lookup_insert_ne].
    rewrite lookup_insert_eq, Hd. split; [by intros [? _] |].
    intros [[= E'] Hi]. by destruct (off_list_off i Hi).
Qed.

Lemma lru_is_free s W d w :
  lru_is s W → W !! d = Some w → off_list w →
  lru_is {| ls_one := ls_one s; ls_node := delete d (ls_node s) |} (delete d W).
Proof.
  intros ((L & HL) & Hu & HW) Hd Hoff. subst W. pose proof (brep_off s L d w HL Hd Hoff) as Hfresh.
  destruct HL as [Hl Hw].
  assert (words {| ls_one := ls_one s; ls_node := delete d (ls_node s) |} = delete d (words s)) as E.
  { unfold words. simpl. by rewrite fmap_delete. }
  split_and!; [| done | done]. exists L. split.
  - eapply llists_ext; [exact Hl | done | simpl; eauto |]. simpl. intros i x Hx. unfold links.
    rewrite lookup_delete_ne; [done |]. intros <-. by eapply Hfresh.
  - intros i x. rewrite E, Hw. destruct (decide (d = x)) as [<- |]; [| by rewrite lookup_delete_ne].
    rewrite lookup_delete_eq, Hd. split; [intros [[= E'] Hi]; by destruct (Hoff i Hi) | by intros [? _]].
Qed.
