(* ===== verification/BlWorld.v ===== *)
(** The state of one bucket-lock dentry cache (dcache_bucketlock.c, the default
    mark build) and the primitive actions on it: the fields of [struct dentry]
    and [struct dcache], locking several heads in address order, the commit of a
    single-writer transaction, the allocator, RCU and its callbacks.

    A dentry is a host (the entry itself, its address never changes) or a shell
    (a new name stacked on a host by a rename and folded into it one grace period
    later). *)

From S2P Require Import Prelude Qstr HList Lru World BlChain BlLru.

Definition EAGAIN : Z := 11.

Record dent := Dent {
  d_iparent : Z;                (* parent the name is under | DC_TAG_SHELL | DC_TAG_NEG *)
  d_iname : qstr;
  d_fwd : Z;                    (* a shell's host, NULL on a host *)
  d_top : Z;                    (* host: the shell that names it, or NULL *)
  d_inode : Z;
  d_isdir : bool;
  d_parent : Z;
  d_moving : Z;
  d_id : Z;                     (* host: d_id; shell: d_host (a union) *)
}.

(** A queued [call_rcu]: [dentry_free_cb] or [fold_cb] on the dentry. *)
Inductive rcu_cb :=
  | CbFree (d : Z)
  | CbFold (d : Z).

Record bworld := BWorld {
  bw_mask : Z;                  (* dc->mask *)
  bw_root : Z;                  (* dc->root *)
  bw_node : nat;                (* the NUMA node this thread runs on *)
  bw_dent : gmap Z dent;
  bw_hash : chn;                (* dc->buckets and every d_hash *)
  bw_sib : chn;                 (* every d_child_head and every d_sib *)
  bw_lru : lru_state;           (* dc->lru and every d_lru *)
  bw_rcu : list rcu_cb;         (* callbacks whose grace period has not ended *)
  bw_nest : nat;                (* depth of rcu_read_lock *)
}.

Definition set_root x w := BWorld (bw_mask w) x (bw_node w) (bw_dent w) (bw_hash w) (bw_sib w)
  (bw_lru w) (bw_rcu w) (bw_nest w).
Definition set_dent x w := BWorld (bw_mask w) (bw_root w) (bw_node w) x (bw_hash w) (bw_sib w)
  (bw_lru w) (bw_rcu w) (bw_nest w).
Definition set_hash x w := BWorld (bw_mask w) (bw_root w) (bw_node w) (bw_dent w) x (bw_sib w)
  (bw_lru w) (bw_rcu w) (bw_nest w).
Definition set_sib x w := BWorld (bw_mask w) (bw_root w) (bw_node w) (bw_dent w) (bw_hash w) x
  (bw_lru w) (bw_rcu w) (bw_nest w).
Definition set_lru x w := BWorld (bw_mask w) (bw_root w) (bw_node w) (bw_dent w) (bw_hash w)
  (bw_sib w) x (bw_rcu w) (bw_nest w).
Definition set_rcu x w := BWorld (bw_mask w) (bw_root w) (bw_node w) (bw_dent w) (bw_hash w)
  (bw_sib w) (bw_lru w) x (bw_nest w).
Definition set_nest x w := BWorld (bw_mask w) (bw_root w) (bw_node w) (bw_dent w) (bw_hash w)
  (bw_sib w) (bw_lru w) (bw_rcu w) x.

(** Compute the projections of an updated world. *)
Ltac bsimpl :=
  cbn [bw_mask bw_root bw_node bw_dent bw_hash bw_sib bw_lru bw_rcu bw_nest
       set_root set_dent set_hash set_sib set_lru set_rcu set_nest].
Tactic Notation "bsimpl" "in" "*" :=
  cbn [bw_mask bw_root bw_node bw_dent bw_hash bw_sib bw_lru bw_rcu bw_nest
       set_root set_dent set_hash set_sib set_lru set_rcu set_nest] in *.

Abbreviation M := (ST bworld).

Definition on_hash {A} : ST chn A → M A := st_zoom bw_hash set_hash.
Definition on_sib {A} : ST chn A → M A := st_zoom bw_sib set_sib.
Definition on_lru {A} : ST lru_state A → M A := st_zoom bw_lru set_lru.

Definition dent_at (d : Z) : M dent := st_lookup bw_dent d.

Definition dent_store (d : Z) (f : dent → dent) : M unit := λ w,
  match bw_dent w !! d with
  | Some x => Ok (tt, set_dent (<[d := f x]> (bw_dent w)) w)
  | None => Err BadPtr
  end.

Definition set_iparent z x := Dent z (d_iname x) (d_fwd x) (d_top x) (d_inode x) (d_isdir x)
  (d_parent x) (d_moving x) (d_id x).
Definition set_iname q x := Dent (d_iparent x) q (d_fwd x) (d_top x) (d_inode x) (d_isdir x)
  (d_parent x) (d_moving x) (d_id x).
Definition set_fwd z x := Dent (d_iparent x) (d_iname x) z (d_top x) (d_inode x) (d_isdir x)
  (d_parent x) (d_moving x) (d_id x).
Definition set_top z x := Dent (d_iparent x) (d_iname x) (d_fwd x) z (d_inode x) (d_isdir x)
  (d_parent x) (d_moving x) (d_id x).
Definition set_inode z x := Dent (d_iparent x) (d_iname x) (d_fwd x) (d_top x) z (d_isdir x)
  (d_parent x) (d_moving x) (d_id x).
Definition set_parent z x := Dent (d_iparent x) (d_iname x) (d_fwd x) (d_top x) (d_inode x)
  (d_isdir x) z (d_moving x) (d_id x).
Definition set_moving z x := Dent (d_iparent x) (d_iname x) (d_fwd x) (d_top x) (d_inode x)
  (d_isdir x) (d_parent x) z (d_id x).
Definition set_id z x := Dent (d_iparent x) (d_iname x) (d_fwd x) (d_top x) (d_inode x)
  (d_isdir x) (d_parent x) (d_moving x) z.

(** The members of the d_id/d_host union. *)
Definition d_host (x : dent) : Z := d_id x.
Definition set_host := set_id.

(** ** Tags in the low bits of d_iparent *)

Definition DC_TAG_SHELL : Z := 2.
Definition DC_TAG_NEG : Z := 4.
Definition DC_TAG_MASK : Z := 7.
Definition URCU_TXN_TAG : Z := 1.

(** [bl_read] of a slot that holds [v]: the tag stands for a commit in progress. *)
Definition bl_read (v : Z) : M Z :=
  if Z.land v URCU_TXN_TAG =? URCU_TXN_TAG then st_fault BadPtr else st_ret v.

Definition iparent_raw (d : Z) : M Z := let! x := dent_at d in bl_read (d_iparent x).
Definition iparent_of (d : Z) : M Z :=
  let! raw := iparent_raw d in st_ret (Z.land raw (Z.lnot DC_TAG_MASK)).
Definition node_is_shell (d : Z) : M bool :=
  let! raw := iparent_raw d in st_ret (negb (Z.land raw DC_TAG_SHELL =? 0)).
Definition node_is_positive (d : Z) : M bool :=
  let! raw := iparent_raw d in st_ret (Z.land raw DC_TAG_NEG =? 0).

(** In this layout a dentry's identity is its address. *)
Definition DC_FAST_ID (d : Z) : Z := d.

(** A fold hands the shell's name place to the host, which keeps its own tags. *)
Definition dc_transfer_iparent (m n : Z) : M unit :=
  let! nx := dent_at n in
  let nam := Z.land (d_iparent nx) (Z.lnot (Z.lor DC_TAG_SHELL DC_TAG_NEG)) in
  let! mx := dent_at m in
  let own := d_iparent mx in
  dent_store m (set_iparent (Z.lor nam (Z.land own (Z.lor DC_TAG_SHELL DC_TAG_NEG)))).

(** Turn a host negative or positive; [id] is its identity in the latter case. *)
Definition dc_set_negative (host : Z) (negative : bool) (id : Z) : M Z :=
  let! x := dent_at host in
  let raw := d_iparent x in
  if bool_decide (negb (Z.land raw DC_TAG_NEG =? 0) = negative) then
    st_ret (if negative then - ENOENT else - EEXIST)
  else
    when (negb negative) (dent_store host (set_id id)) ;;;
    dent_store host (set_iparent (if negative then Z.lor raw DC_TAG_NEG
                                  else Z.land raw (Z.lnot DC_TAG_NEG))) ;;;
    dent_store host (set_inode (if negative then 0 else 1)) ;;;
    st_ret 0.

(** ** Hashing *)

Definition bucket_of (parent name_hash : Z) : M Z :=
  st_gets (λ w, bucket_index (bw_mask w) parent name_hash).

(** ** Locking several heads

    A head word is a bucket or the child head of a dentry; heads are locked in
    the order of their addresses. *)

Inductive head :=
  | Bucket (i : Z)
  | ChildHead (d : Z).

#[export] Instance head_eq_dec : EqDecision head.
Proof. solve_decision. Defined.

(** Where the heads are in memory: different objects, different addresses. *)
Class Layout := head_addr : head → Z.
Class LayoutOk (L : Layout) := head_addr_inj : Inj (=) (=) (head_addr).

Definition lock_head (h : head) : M unit :=
  match h with Bucket i => on_hash (bl_lock i) | ChildHead d => on_sib (bl_lock d) end.
Definition unlock_head (h : head) : M unit :=
  match h with Bucket i => on_hash (bl_unlock i) | ChildHead d => on_sib (bl_unlock d) end.

Section order.
  Context `{Layout}.

Definition same_head (x y : head) : bool := head_addr x =? head_addr y.

Definition bl_lock2 (x y : head) : M unit :=
  if same_head x y then lock_head x
  else if head_addr x <? head_addr y then lock_head x ;;; lock_head y
  else lock_head y ;;; lock_head x.

Definition bl_unlock2 (x y : head) : M unit :=
  unlock_head x ;;;
  when (negb (same_head x y)) (unlock_head y).

(** One round of the insertion sort: [k] moves down past the larger heads. *)
Fixpoint sort_insert (k : head) (h : list head) : list head :=
  match h with
  | [] => [k]
  | x :: h' => if head_addr x <=? head_addr k then x :: sort_insert k h' else k :: x :: h'
  end.

Definition sort_heads (h : list head) : list head := foldl (λ s k, sort_insert k s) [] h.

(** The heads of a sorted array with coincident ones skipped. *)
Fixpoint skip_dups (prev : option head) (h : list head) : list head :=
  match h with
  | [] => []
  | x :: h' =>
      match prev with
      | Some p => if same_head x p then skip_dups (Some x) h' else x :: skip_dups (Some x) h'
      | None => x :: skip_dups (Some x) h'
      end
  end.

(** The sorted array, for [bl_unlock_n]. *)
Definition bl_lock_n (h : list head) : M (list head) :=
  let s := sort_heads h in
  st_iter lock_head (skip_dups None s) ;;;
  st_ret s.

Definition bl_unlock_n (h : list head) : M unit := st_iter unlock_head (skip_dups None h).

End order.

(** ** Single-writer transactions *)

(** The records a commit takes: links of the two kinds of list, d_top, d_parent. *)
Inductive srec :=
  | RHash (r : lrec)
  | RSib (r : lrec)
  | RTop (d old new : Z)
  | RParent (d old new : Z).

(** The slot a record is about. *)
Inductive sslot :=
  | SHash (s : pslot + Z)
  | SSib (s : pslot + Z)
  | STop (d : Z)
  | SParent (d : Z).

Definition srec_slot (r : srec) : sslot :=
  match r with
  | RHash l => SHash (lrec_slot l)
  | RSib l => SSib (lrec_slot l)
  | RTop d _ _ => STop d
  | RParent d _ _ => SParent d
  end.

Definition srec_ready (w : bworld) (r : srec) : Prop :=
  match r with
  | RHash l => lrec_ready (bw_hash w) l
  | RSib l => lrec_ready (bw_sib w) l
  | RTop d old _ => d_top <$> bw_dent w !! d = Some old
  | RParent d old _ => d_parent <$> bw_dent w !! d = Some old
  end.

Definition srec_apply (r : srec) (w : bworld) : bworld :=
  match r with
  | RHash l => set_hash (lrec_apply l (bw_hash w)) w
  | RSib l => set_sib (lrec_apply l (bw_sib w)) w
  | RTop d _ new => set_dent (alter (set_top new) d (bw_dent w)) w
  | RParent d _ new => set_dent (alter (set_parent new) d (bw_dent w)) w
  end.

Definition srecs_apply (l : list srec) (w : bworld) : bworld := foldl (λ w r, srec_apply r w) w l.

(** A transaction is ready when it names each slot once and every slot holds the
    value the record says it replaces. *)
Definition txn_ready (w : bworld) (l : list srec) : Prop :=
  NoDup (srec_slot <$> l) ∧ Forall (srec_ready w) l.

Inductive txn_status := STATUS_OK | STATUS_ABORT | STATUS_MEMORY_ERROR.

#[export] Instance txn_status_eq_dec : EqDecision txn_status.
Proof. solve_decision. Defined.

(** [urcu_txn_commit_sw] of liburcu's rcu-txn-sw. *)
Class SwTxn := urcu_txn_commit_sw : list srec → bworld → txn_status * bworld.

(** What the callers rely on: a ready transaction is stored whole, or, for want
    of memory, not at all; with a single writer it does not abort. *)
Class SwTxnOk (T : SwTxn) := commit_sw_ok : ∀ l w,
  txn_ready w l →
  urcu_txn_commit_sw l w = (STATUS_OK, srecs_apply l w) ∨
  urcu_txn_commit_sw l w = (STATUS_MEMORY_ERROR, w).

Definition commit_sw `{SwTxn} (l : list srec) : M txn_status := λ w,
  Ok (urcu_txn_commit_sw l w).

(** ** RCU *)

Definition rcu_read_lock : M unit := st_mod (λ w, set_nest (S (bw_nest w)) w).
Definition rcu_read_unlock : M unit := λ w,
  match bw_nest w with
  | O => Err Aborted
  | S n => Ok (tt, set_nest n w)
  end.

Definition call_rcu (cb : rcu_cb) : M unit := st_mod (λ w, set_rcu (bw_rcu w ++ [cb]) w).

(** ** Allocation *)

Definition bnode0 : bnode := {| b_next := 0; b_pprev := PNull |}.

(** The dentry's cells after [memset] and the initial stores. *)
Definition alloc_dent (d : Z) (x : dent) (w : bworld) : bworld :=
  set_dent (<[d := x]> (bw_dent w))
  (set_hash (set_node (<[d := bnode0]> (c_node (bw_hash w))) (bw_hash w))
  (set_sib {| c_first := <[d := 0]> (c_first (bw_sib w));
              c_node := <[d := bnode0]> (c_node (bw_sib w)) |}
  (set_lru {| ls_one := ls_one (bw_lru w); ls_node := <[d := lnode0]> (ls_node (bw_lru w)) |} w))).

(** The new dentry, or 0 (NULL). *)
Definition dentry_alloc `{Memalign} (parent : Z) (name : qstr) (id : Z) (isdir positive : bool)
  : M Z :=
  let! w := st_get in
  match posix_memalign (dom (bw_dent w)) with
  | None => st_ret 0
  | Some d =>
      st_mod (alloc_dent d
        {| d_iparent := if positive then parent else Z.lor parent DC_TAG_NEG;
           d_iname := name; d_fwd := 0; d_top := 0;
           d_inode := if positive then 1 else 0; d_isdir := isdir;
           d_parent := parent; d_moving := 0; d_id := id |}) ;;;
      st_ret d
  end.

(** [free(d)] on a dentry: all its cells go. *)
Definition dentry_free (d : Z) : M unit := λ w,
  match bw_dent w !! d with
  | None => Err BadPtr
  | Some _ => Ok (tt,
      set_dent (delete d (bw_dent w))
      (set_hash (set_node (delete d (c_node (bw_hash w))) (bw_hash w))
      (set_sib {| c_first := delete d (c_first (bw_sib w)); c_node := delete d (c_node (bw_sib w)) |}
      (set_lru {| ls_one := ls_one (bw_lru w); ls_node := delete d (ls_node (bw_lru w)) |} w))))
  end.

(** ... where NULL may be passed. *)
Definition c_free (d : Z) : M unit := if d =? 0 then st_ret tt else dentry_free d.

(** [lru_assert_not_queued] checks nothing in this build. *)
Definition dentry_free_cb (d : Z) : M unit := dentry_free d.

Definition dc_free_host (host : Z) : M unit := call_rcu (CbFree host).
Definition dc_reclaim (d : Z) : M unit := dc_free_host d.

(** ** The LRU's questions to the engine *)

Definition lru_alive_hint (d : Z) : M bool :=
  let! marked := on_hash (bl_marked d) in st_ret (negb marked).

Definition lru_add (d : Z) : M unit :=
  let! nid := st_gets bw_node in
  let! idx := on_lru (lru_shard_index nid) in
  let! alive := lru_alive_hint d in
  if negb alive then st_ret tt else on_lru (lru_add_claim idx d).

Definition lru_retain (d : Z) : M unit :=
  let! listed := on_lru (lru_listed d) in
  if listed : bool then
    let! n := on_lru (st_lookup ls_node d) in
    when (negb (l_referenced n)) (on_lru (lnode_store d (set_lref true)))
  else lru_add d.

Definition dc_lru_count : M Z :=
  st_gets (λ w, foldl (λ n o, w64 (n + lo_nr_items o)) 0 (ls_one (bw_lru w))).
