(* ===== verification/BlWalk.v ===== *)
(** The read side of dcache_bucketlock.c: the scan of a bucket, the path walk
    with its latched tops, the writers' resolve, listing, census and the reverse
    walk. *)

From S2P Require Import Prelude Qstr HList Lru World Walk BlChain BlLru BlWorld.

(** [&p->comp[i]] *)
Definition comp_at (p : dc_path) (i : nat) : M qstr :=
  match path_comp p i with Some q => st_ret q | None => st_fault BadPtr end.

(** [NULL] when the host is its own named top. *)
Definition dtop_val (host top : Z) : Z := if top =? host then 0 else top.

Definition host_of_rcu (top : Z) : M Z :=
  let! shell := node_is_shell top in
  if shell : bool then let! x := dent_at top in st_ret (d_host x) else st_ret top.

(** [for (n = first; n; n = bl_hlist_next_rcu(n))] over a bucket, left by the first
    node for which the body gives a result. *)
Fixpoint bucket_scan {A} (fuel : nat) (n : Z) (body : Z → M (option A)) : M (option A) :=
  match fuel with
  | O => st_fault NoFuel
  | S fuel' =>
      if n =? 0 then st_ret None
      else
        let! r := body n in
        match r with
        | Some a => st_ret (Some a)
        | None =>
            let! next := on_hash (bl_hlist_next_rcu n) in
            bucket_scan fuel' next body
        end
  end.

(** A chain that is not circular passes every node once. *)
Definition scan_fuel (w : bworld) : nat := S (size (c_node (bw_hash w))).

(** [find_top_rcu]: the named top of the child, or 0. *)
Definition top_match (parent : Z) (name : qstr) (d : Z) : M (option Z) :=
  let! ip := iparent_of d in
  let! x := dent_at d in
  st_ret (if (ip =? parent) && dc_qstr_eq (d_iname x) name then Some d else None).

Definition find_top_rcu (parent : Z) (name : qstr) : M Z :=
  let! b := bucket_of parent (q_hash name) in
  let! first := on_hash (bl_hlist_first_rcu b) in
  let! fuel := st_gets scan_fuel in
  let! r := bucket_scan fuel first (top_match parent name) in
  st_ret (default 0 r).

(** [find_top_raw_rcu]: with the d_iparent word the match was made on. *)
Definition top_match_raw (parent : Z) (name : qstr) (d : Z) : M (option (Z * Z)) :=
  let! raw := iparent_raw d in
  let! x := dent_at d in
  st_ret (if (Z.land raw (Z.lnot DC_TAG_MASK) =? parent) && dc_qstr_eq (d_iname x) name
          then Some (d, raw) else None).

Definition find_top_raw_rcu (parent : Z) (name : qstr) : M (option (Z * Z)) :=
  let! b := bucket_of parent (q_hash name) in
  let! first := on_hash (bl_hlist_first_rcu b) in
  let! fuel := st_gets scan_fuel in
  bucket_scan fuel first (top_match_raw parent name).

Definition host_of_raw (top raw : Z) : M Z :=
  if negb (Z.land raw DC_TAG_SHELL =? 0) then let! x := dent_at top in st_ret (d_host x)
  else st_ret top.

Definition host_is_positive (raw host : Z) : M bool :=
  if Z.land raw DC_TAG_SHELL =? 0 then st_ret (Z.land raw DC_TAG_NEG =? 0)
  else let! hraw := iparent_raw host in st_ret (Z.land hraw DC_TAG_NEG =? 0).

(** The host of the child, or 0. *)
Definition txn_child_lookup_rcu (parent : Z) (name : qstr) : M Z :=
  let! top := find_top_rcu parent name in
  if top =? 0 then st_ret 0 else host_of_rcu top.

Definition top_unhashed_rcu (top : Z) : M bool := on_hash (bl_marked top).

(** In the mark build the stamp of a hop is the top itself, and a reread gives 0
    once the top is unhashed. *)
Definition dc_stamp_of (host top raw : Z) : Z := top.
Definition dc_latch_node (host top : Z) : Z := top.
Definition dc_stamp_reread (node : Z) : M Z :=
  let! un := top_unhashed_rcu node in st_ret (if un : bool then 0 else node).

(** The way down of [dc_lookup] from component [i]: [None] is [stale]; else the
    result, the identity and what was latched, newest last. *)
Fixpoint lookup_down (p : dc_path) (k i : nat) (cur : Z) (res : dc_result) (id : Z)
    (latched : list (Z * Z)) : M (option (dc_result * Z * list (Z * Z))) :=
  match k with
  | O => st_ret (Some (res, id, latched))
  | S k' =>
      let! name := comp_at p i in
      let! t := find_top_raw_rcu cur name in
      match t with
      | None => st_ret (Some (DC_ABSENT, id, latched))
      | Some (top, raw) =>
          let! host := host_of_raw top raw in
          let s := dc_stamp_of host top raw in
          let! un := top_unhashed_rcu top in
          if un : bool then st_ret None
          else
            let! pos := host_is_positive raw host in
            lookup_down p k' (S i) host (if pos : bool then DC_POSITIVE else DC_NEGATIVE)
              (DC_FAST_ID host) (latched ++ [(dc_latch_node host top, s)])
      end
  end.

(** The way back up: has a latched node moved? *)
Fixpoint lookup_moved (latched : list (Z * Z)) : M bool :=
  match latched with
  | [] => st_ret false
  | (node, s) :: rest =>
      let! now := dc_stamp_reread node in
      if negb (now =? s) then st_ret true else lookup_moved rest
  end.

Definition lookup_round (p : dc_path) (_ : unit) : M (unit + (dc_result * Z)) :=
  let! cur := st_gets bw_root in
  let! r := lookup_down p (ndepth p) 0 cur DC_POSITIVE (DC_FAST_ID cur) [] in
  match r with
  | None => st_ret (inl tt)
  | Some (res, id, latched) =>
      let! moved := lookup_moved latched in
      st_ret (if moved : bool then inl tt else inr (res, id))
  end.

(** [dc_lookup]: the result, and [*out_id] when it was written. *)
Definition dc_lookup (p : dc_path) : M (dc_result * option Z) :=
  rcu_read_lock ;;;
  let! r := iter_upto RETRY_ROUNDS (lookup_round p) tt in
  match r with
  | inl _ => st_fault NoFuel
  | inr (res, id) =>
      rcu_read_unlock ;;;
      st_ret (res, if decide (res = DC_POSITIVE) then Some id else None)
  end.

Definition __child_lookup (parent : Z) (name : qstr) : M Z :=
  rcu_read_lock ;;;
  let! d := txn_child_lookup_rcu parent name in
  rcu_read_unlock ;;;
  st_ret d.

(** [resolve]: the loop, [k] components to go; 0 when one is missing. *)
Fixpoint resolve_loop (p : dc_path) (k i : nat) (cur : Z) : M Z :=
  match k with
  | O => st_ret cur
  | S k' =>
      let! name := comp_at p i in
      let! cur := __child_lookup cur name in
      if cur =? 0 then st_ret 0
      else
        lru_retain cur ;;;
        resolve_loop p k' (S i) cur
  end.

Definition resolve (p : dc_path) (depth : nat) : M Z :=
  let! root := st_gets bw_root in
  resolve_loop p depth 0 root.

Definition parent_of_rcu (d : Z) : M Z := let! x := dent_at d in bl_read (d_parent x).

Definition children_empty (d : Z) : M bool :=
  let! first := on_sib (bl_hlist_first_rcu d) in st_ret (first =? 0).

(** The entry has a named top that is hashed; a top that changed under the test is
    tried again. *)
Definition entry_alive_round (host : Z) (_ : unit) : M (unit + bool) :=
  let! x := dent_at host in
  let! t := bl_read (d_top x) in
  let top := if negb (t =? 0) then t else host in
  let! marked := on_hash (bl_marked top) in
  if negb marked then st_ret (inr true)
  else
    let! x := dent_at host in
    let! t' := bl_read (d_top x) in
    st_ret (if t' =? t then inr false else inl tt).

Definition entry_alive (host : Z) : M bool :=
  let! r := iter_upto RETRY_ROUNDS (entry_alive_round host) tt in
  match r with inr b => st_ret b | inl _ => st_fault NoFuel end.

(** ** Listing and census *)

(** [for (n = first; n; n = bl_hlist_next_rcu(n))] over a child list. *)
Fixpoint sib_scan {X} (fuel : nat) (n : Z) (body : Z → X → M X) (x : X) : M X :=
  match fuel with
  | O => st_fault NoFuel
  | S fuel' =>
      if n =? 0 then st_ret x
      else
        let! x' := body n x in
        let! next := on_sib (bl_hlist_next_rcu n) in
        sib_scan fuel' next body x'
  end.

Definition sib_fuel (w : bworld) : nat := S (size (c_node (bw_sib w))).

(** [walk_rec]: [path] is one buffer, extended in place and cut back. *)
Fixpoint walk_rec {X} (fuel : nat) (fn : Z → dc_path → X → X) (d : Z) (path : dc_path) (arg : X)
  : M (dc_path * X) :=
  match fuel with
  | O => st_fault NoFuel
  | S fuel' =>
      let! other := (if (0 <? ndepth path)%nat then st_ret true
                     else let! p := parent_of_rcu d in st_ret (negb (p =? d))) in
      let! visit := (if other : bool then node_is_positive d else st_ret false) in
      let! x := dent_at d in
      let arg := if visit : bool then fn (d_id x) path arg else arg in
      let! first := on_sib (bl_hlist_first_rcu d) in
      let! sf := st_gets sib_fuel in
      sib_scan sf first (λ top x,
        let '(path, arg) := x in
        let! host := host_of_rcu top in
        if (DC_PATH_MAX <=? ndepth path)%nat then st_ret (path, arg)
        else
          let! tx := dent_at top in
          let path := {| ndepth := S (ndepth path);
                         comp := <[ndepth path := d_iname tx]> (comp path) |} in
          let! x := walk_rec fuel' fn host path arg in
          let '(path, arg) := x in
          st_ret ({| ndepth := ndepth path - 1; comp := comp path |}, arg)) (path, arg)
  end.

(** The recursion is as deep as the path buffer. *)
Definition dc_walk {X} (fn : Z → dc_path → X → X) (path0 : dc_path) (arg : X) : M X :=
  rcu_read_lock ;;;
  let! root := st_gets bw_root in
  let! r := walk_rec (S DC_PATH_MAX) fn root (dc_path_reset path0) arg in
  rcu_read_unlock ;;;
  st_ret (snd r).

(** The descent of [dc_readdir] and [dc_lookup_dentry]; 0 when a component is
    missing. *)
Fixpoint descend (p : dc_path) (k i : nat) (d : Z) : M Z :=
  match k with
  | O => st_ret d
  | S k' =>
      let! name := comp_at p i in
      let! d := txn_child_lookup_rcu d name in
      if d =? 0 then st_ret 0 else descend p k' (S i) d
  end.

(** [dc_readdir] with the callback [fn] (NULL is [None]) folding over its
    argument: the count, or the error, and the argument after the calls. *)
Definition dc_readdir {X} (path : dc_path) (fn : option (Z → qstr → X → X)) (arg : X)
  : M (Z * X) :=
  rcu_read_lock ;;;
  let! root := st_gets bw_root in
  let! dir := descend path (ndepth path) 0 root in
  if dir =? 0 then rcu_read_unlock ;;; st_ret (- ENOENT, arg)
  else
    let! first := on_sib (bl_hlist_first_rcu dir) in
    let! fuel := st_gets sib_fuel in
    let! r := sib_scan fuel first (λ top x,
      let! host := host_of_rcu top in
      let! arg := match fn with
                  | Some f =>
                      let! hx := dent_at host in
                      let! tx := dent_at top in
                      st_ret (f (d_id hx) (d_iname tx) (snd x))
                  | None => st_ret (snd x)
                  end in
      st_ret (fst x + 1, arg)) (0, arg) in
    rcu_read_unlock ;;;
    st_ret r.

Definition dc_lookup_dentry (p : dc_path) : M Z :=
  rcu_read_lock ;;;
  let! root := st_gets bw_root in
  let! d := descend p (ndepth p) 0 root in
  let! pos := (if d =? 0 then st_ret false else node_is_positive d) in
  rcu_read_unlock ;;;
  st_ret (if pos : bool then d else 0).

(** ** Reverse walk *)

Definition named_top_rcu (host : Z) : M Z :=
  let! x := dent_at host in
  let! t := bl_read (d_top x) in
  st_ret (if negb (t =? 0) then t else host).

(** The climb, [n] components already copied and [latch] the tops passed, oldest
    first: [inl] is [stale]; else the code, the count and the latched tops.  The
    component array goes along. *)
Fixpoint climb_tops (fuel : nat) (root host : Z) (n : nat) (out : list qstr) (latch : list Z)
  : M ((unit + Z * nat * list Z) * list qstr) :=
  match fuel with
  | O => st_fault NoFuel
  | S fuel' =>
      if host =? root then st_ret (inr (0, n, latch), out)
      else if decide (n = DC_PATH_MAX) then st_ret (inr (- ENAMETOOLONG, n, latch), out)
      else
        let! top := named_top_rcu host in
        let! x := dent_at top in
        let out := <[(DC_PATH_MAX - 1 - n)%nat := d_iname x]> out in
        let! un := top_unhashed_rcu top in
        if un : bool then st_ret (inl tt, out)
        else
          let! up := iparent_of top in
          climb_tops fuel' root up (S n) out (latch ++ [top])
  end.

(** Is one of the latched tops unhashed? *)
Fixpoint any_unhashed (latch : list Z) : M bool :=
  match latch with
  | [] => st_ret false
  | t :: rest =>
      let! un := top_unhashed_rcu t in
      let! more := any_unhashed rest in
      st_ret (un || more)
  end.

Definition dentry_path_round (d : Z) (out : list qstr)
  : M (list qstr + (Z * nat * list qstr)) :=
  let! root := st_gets bw_root in
  let! r := climb_tops (S DC_PATH_MAX) root d 0 out [] in
  match r with
  | (inl _, out) => st_ret (inl out)
  | (inr (ret, n, latch), out) =>
      if negb (ret =? 0) then st_ret (inr (ret, n, out))
      else
        let! stale := any_unhashed latch in
        st_ret (if stale : bool then inl out else inr (0, n, out))
  end.

Definition dc_dentry_path (d : Z) (out : dc_path) : M (Z * dc_path) :=
  rcu_read_lock ;;;
  let! r := iter_upto RETRY_ROUNDS (dentry_path_round d) (comp out) in
  match r with
  | inl _ => st_fault NoFuel
  | inr (ret, n, cs) =>
      rcu_read_unlock ;;;
      if negb (ret =? 0) then st_ret (ret, {| ndepth := ndepth out; comp := cs |})
      else st_ret (0, {| ndepth := n; comp := comp_memmove n cs |})
  end.
