(* ===== verification/BlOps.v ===== *)
(** The mutators of dcache_bucketlock.c that change one entry in place: add,
    instantiate, delete, unlink.  A [goto] out of a loop is the value the round
    returns; what follows the label runs on every path, as in the source. *)

From S2P Require Import Prelude Qstr HList Lru World Walk BlChain BlLru BlWorld BlWalk.

Section ops.
  Context `{Memalign} `{Layout}.

Definition dc_add_typed (path : dc_path) (id : Z) (isdir positive : bool) : M Z :=
  if decide (ndepth path = 0)%nat then st_ret (- EEXIST)
  else
    let! parent := resolve path (ndepth path - 1) in
    if parent =? 0 then st_ret (- ENOENT)
    else
      let! px := dent_at parent in
      if negb (d_isdir px) then st_ret (- ENOTDIR)
      else
        let! name := comp_at path (ndepth path - 1) in
        let! e := __child_lookup parent name in
        if negb (e =? 0) then st_ret (- EEXIST)
        else
          let! d := dentry_alloc parent name id isdir positive in
          if d =? 0 then st_ret (- ENOMEM)
          else
            let! bucket := bucket_of parent (q_hash name) in
            bl_lock2 (Bucket bucket) (ChildHead parent) ;;;
            let! pos := node_is_positive parent in
            if negb pos then
              bl_unlock2 (Bucket bucket) (ChildHead parent) ;;;
              c_free d ;;;
              st_ret (- ENOENT)
            else
              let! alive := entry_alive parent in
              if negb alive then
                bl_unlock2 (Bucket bucket) (ChildHead parent) ;;;
                c_free d ;;;
                st_ret (- ENOENT)
              else
                let! e := __child_lookup parent name in
                if negb (e =? 0) then
                  bl_unlock2 (Bucket bucket) (ChildHead parent) ;;;
                  c_free d ;;;
                  st_ret (- EEXIST)
                else
                  let! nid := st_gets bw_node in
                  on_lru (lru_add_new nid d) ;;;
                  on_hash (bl_hlist_add_head_locked bucket d) ;;;
                  on_sib (bl_hlist_add_head_locked parent d) ;;;
                  bl_unlock2 (Bucket bucket) (ChildHead parent) ;;;
                  st_ret 0.

Definition dc_add (path : dc_path) (id : Z) : M Z := dc_add_typed path id true true.
Definition dc_add_file (path : dc_path) (id : Z) : M Z := dc_add_typed path id false true.
Definition dc_add_negative (path : dc_path) : M Z := dc_add_typed path 0 false false.

(** One round of [dc_instantiate]'s loop; [inr] is [ret]. *)
Definition instantiate_round (parent : Z) (name : qstr) (bucket id : Z) (_ : unit)
  : M (unit + Z) :=
  let! top := find_top_rcu parent name in
  if top =? 0 then st_ret (inr (- ENOENT))
  else
    on_hash (bl_lock bucket) ;;;
    let! marked := on_hash (bl_marked top) in
    if marked : bool then
      on_hash (bl_unlock bucket) ;;;
      st_ret (inl tt)
    else
      let! host := host_of_rcu top in
      let! ret := dc_set_negative host false id in
      on_hash (bl_unlock bucket) ;;;
      st_ret (inr ret).

Definition dc_instantiate (path : dc_path) (id : Z) : M Z :=
  if decide (ndepth path = 0)%nat then st_ret (- EEXIST)
  else
    rcu_read_lock ;;;
    let! parent := resolve path (ndepth path - 1) in
    if parent =? 0 then rcu_read_unlock ;;; st_ret (- ENOENT)
    else
      let! name := comp_at path (ndepth path - 1) in
      let! bucket := bucket_of parent (q_hash name) in
      let! r := iter_upto RETRY_ROUNDS (instantiate_round parent name bucket id) tt in
      match r with
      | inl _ => st_fault NoFuel
      | inr ret => rcu_read_unlock ;;; st_ret ret
      end.

(** One round of [dc_delete]'s loop, with the directory whose child head the last
    round learnt it must lock too (0: none). *)
Definition delete_round (parent : Z) (name : qstr) (bucket : Z) (isdir_locked : Z)
  : M (Z + Z) :=
  let! top := find_top_rcu parent name in
  if top =? 0 then st_ret (inr (- ENOENT))
  else
    (if negb (isdir_locked =? 0) then bl_lock2 (Bucket bucket) (ChildHead isdir_locked)
     else lock_head (Bucket bucket)) ;;;
    let! marked := on_hash (bl_marked top) in
    if marked : bool then
      (if negb (isdir_locked =? 0) then bl_unlock2 (Bucket bucket) (ChildHead isdir_locked)
       else unlock_head (Bucket bucket)) ;;;
      st_ret (inl 0)
    else
      let! host := host_of_rcu top in
      let! hx := dent_at host in
      if d_isdir hx && negb (host =? isdir_locked) then
        unlock_head (Bucket bucket) ;;;
        st_ret (inl host)
      else
        let! empty := (if d_isdir hx then children_empty host else st_ret true) in
        if negb empty then
          bl_unlock2 (Bucket bucket) (ChildHead host) ;;;
          st_ret (inr (- ENOTEMPTY))
        else
          let! ret := dc_set_negative host true 0 in
          (if d_isdir hx then bl_unlock2 (Bucket bucket) (ChildHead host)
           else unlock_head (Bucket bucket)) ;;;
          st_ret (inr ret).

Definition dc_delete (path : dc_path) : M Z :=
  if decide (ndepth path = 0)%nat then st_ret (- EISDIR)
  else
    rcu_read_lock ;;;
    let! parent := resolve path (ndepth path - 1) in
    if parent =? 0 then rcu_read_unlock ;;; st_ret (- ENOENT)
    else
      let! name := comp_at path (ndepth path - 1) in
      let! bucket := bucket_of parent (q_hash name) in
      let! r := iter_upto RETRY_ROUNDS (delete_round parent name bucket) 0 in
      match r with
      | inl _ => st_fault NoFuel
      | inr ret => rcu_read_unlock ;;; st_ret ret
      end.

(** One round of [dc_unlink]'s loop: the code when it failed, else the top that
    was removed and its host. *)
Definition unlink_round (parent : Z) (name : qstr) (bucket : Z) (_ : unit)
  : M (unit + (Z + Z * Z)) :=
  let! top := find_top_rcu parent name in
  if top =? 0 then st_ret (inr (inl (- ENOENT)))
  else
    let! host := host_of_rcu top in
    let! empty := children_empty host in
    if negb empty then st_ret (inr (inl (- ENOTEMPTY)))
    else
      let! hx := dent_at host in
      let heads := [Bucket bucket; ChildHead parent]
                   ++ (if d_isdir hx then [ChildHead host] else []) in
      let! heads := bl_lock_n heads in
      let! marked := on_hash (bl_marked top) in
      if marked : bool then
        bl_unlock_n heads ;;;
        st_ret (inl tt)
      else
        let! empty := children_empty host in
        if negb empty then
          bl_unlock_n heads ;;;
          st_ret (inr (inl (- ENOTEMPTY)))
        else
          on_hash (bl_hlist_del_locked top) ;;;
          on_sib (bl_hlist_del_locked top) ;;;
          bl_unlock_n heads ;;;
          st_ret (inr (inr (top, host))).

Definition dc_unlink (path : dc_path) : M Z :=
  if decide (ndepth path = 0)%nat then st_ret (- EINVAL)
  else
    let! parent := resolve path (ndepth path - 1) in
    if parent =? 0 then st_ret (- ENOENT)
    else
      let! name := comp_at path (ndepth path - 1) in
      let! bucket := bucket_of parent (q_hash name) in
      rcu_read_lock ;;;
      let! r := iter_upto RETRY_ROUNDS (unlink_round parent name bucket) tt in
      match r with
      | inl _ => st_fault NoFuel
      | inr (inl ret) => rcu_read_unlock ;;; st_ret ret
      | inr (inr (top, host)) =>
          let settled := top =? host in
          let! can_free := on_lru (lru_del_can_free host true) in
          when (negb settled) (on_lru (lru_del top)) ;;;
          rcu_read_unlock ;;;
          when can_free (dc_free_host host) ;;;
          st_ret 0
      end.

End ops.
