(* ===== verification/BlMove.v ===== *)
(** The moves of dcache_bucketlock.c: a rename stacks a shell on the host in one
    transaction, a fold moves the shell's name into the host one grace period
    later, an exchange stacks two shells at once.  Then the callbacks of a grace
    period, and the life of the cache. *)

From S2P Require Import Prelude Qstr HList Lru World Walk Reclaim BlChain BlLru BlWorld BlWalk.
From S2P Require Import BlOps.

Definition DC_LOOP_MAX : nat := 256.

(** [while (cur != dc->root)], with the hops that are left. *)
Fixpoint cycle_loop (left : nat) (root host cur : Z) : M Z :=
  if cur =? root then st_ret 0
  else if cur =? host then st_ret (- EINVAL)
  else
    let! x := dent_at cur in
    if negb (d_moving x =? 0) then st_ret (- EAGAIN)
    else match left with
         | O => st_ret (- EAGAIN)
         | S left' =>
             let! up := parent_of_rcu cur in
             cycle_loop left' root host up
         end.

Definition cross_cycle_check (host new_parent : Z) : M Z :=
  let! root := st_gets bw_root in
  if host =? root then st_ret (- EINVAL) else cycle_loop DC_LOOP_MAX root host new_parent.

(** [uatomic_cmpxchg(&d->d_moving, 0, 1) == 0] and [uatomic_and(&d->d_moving, ~1)]. *)
Definition moving_claim (d : Z) : M bool :=
  let! x := dent_at d in
  when (d_moving x =? 0) (dent_store d (set_moving 1)) ;;;
  st_ret (d_moving x =? 0).
Definition moving_clear (d : Z) : M unit :=
  dent_store d (λ x, set_moving (Z.land (d_moving x) (Z.lnot 1)) x).

(** The records of one shell on one host; the shell's own links are stored at
    once. *)
Definition stack_one_prepare (top host new_parent new_bucket from_bucket shell : Z)
    (cross_parent : bool) : M (list srec) :=
  let! rh :=
    (if from_bucket =? new_bucket then on_hash (bl_sw_replace top shell)
     else
       let! r1 := on_hash (bl_sw_del_marked top) in
       let! r2 := on_hash (bl_sw_add_head shell new_bucket) in
       st_ret (r1 ++ r2)) in
  let! rs :=
    (if negb cross_parent then on_sib (bl_sw_replace top shell)
     else
       let! r1 := on_sib (bl_sw_del_marked top) in
       let! r2 := on_sib (bl_sw_add_head shell new_parent) in
       st_ret (r1 ++ r2)) in
  let! rp :=
    (if cross_parent then
       let! old := parent_of_rcu host in
       st_ret [RParent host old new_parent]
     else st_ret []) in
  st_ret (map RHash rh ++ map RSib rs ++ [RTop host (dtop_val host top) shell] ++ rp).

(** The destination under its locks: the code, and the negative dentry that was
    removed to make room (0: none). *)
Definition dest_claim_locked (new_parent : Z) (new_name : qstr) (self : Z) : M (Z * Z) :=
  let! cur := find_top_rcu new_parent new_name in
  if cur =? 0 then st_ret (0, 0)
  else
    let! refused :=
      (if cur =? self then st_ret true
       else
         let! host := host_of_rcu cur in
         if negb (host =? cur) then st_ret true
         else
           let! pos := node_is_positive cur in
           if pos : bool then st_ret true
           else let! x := dent_at cur in st_ret (d_isdir x)) in
    if refused : bool then st_ret (- EEXIST, 0)
    else
      on_hash (bl_hlist_del_locked cur) ;;;
      on_sib (bl_hlist_del_locked cur) ;;;
      st_ret (0, cur).

Definition dest_reclaim (neg : Z) : M unit :=
  if neg =? 0 then st_ret tt
  else
    let! can_free := on_lru (lru_del_can_free neg true) in
    when can_free (dc_free_host neg).

Section moves.
  Context `{Memalign} `{Layout} `{SwTxn}.

(** The part of a stack round from [bl_lock_n] on, [neg] what an earlier round
    removed: [inl] goes round again, [inr] is the code. *)
Definition stack_locked (from_parent from_bucket new_parent new_bucket : Z) (new_name : qstr)
    (cross_parent : bool) (shell top host neg : Z) : M (Z + Z * Z) :=
  let! heads := bl_lock_n [Bucket from_bucket; ChildHead from_parent;
                           Bucket new_bucket; ChildHead new_parent] in
  let! marked := on_hash (bl_marked top) in
  if marked : bool then
    bl_unlock_n heads ;;;
    when cross_parent (moving_clear host) ;;;
    st_ret (inl neg)
  else
    let! pos := node_is_positive new_parent in
    if negb pos then
      bl_unlock_n heads ;;;
      when cross_parent (moving_clear host) ;;;
      st_ret (inr (- ENOENT, neg))
    else
      let! c := dest_claim_locked new_parent new_name top in
      let neg := if snd c =? 0 then neg else snd c in
      if negb (fst c =? 0) then
        bl_unlock_n heads ;;;
        when cross_parent (moving_clear host) ;;;
        st_ret (inr (- EEXIST, neg))
      else
        let! recs := stack_one_prepare top host new_parent new_bucket from_bucket shell cross_parent in
        let! st := commit_sw recs in
        bl_unlock_n heads ;;;
        when cross_parent (moving_clear host) ;;;
        st_ret (match st with
                | STATUS_ABORT => inl neg
                | STATUS_MEMORY_ERROR => inr (- ENOMEM, neg)
                | STATUS_OK => inr (0, neg)
                end).

(** One round of [stack_shell]'s loop. *)
Definition stack_round (from_parent : Z) (from_name : qstr) (from_bucket new_parent new_bucket : Z)
    (new_name : qstr) (cross_parent : bool) (shell neg : Z) : M (Z + Z * Z) :=
  let! top := find_top_rcu from_parent from_name in
  if top =? 0 then st_ret (inr (- ENOENT, neg))
  else
    let! host := host_of_rcu top in
    dent_store shell (set_host host) ;;;
    dent_store shell (set_fwd host) ;;;
    let! claimed := (if cross_parent then moving_claim host else st_ret true) in
    if negb claimed then st_ret (inl neg)
    else
      let! c := (if cross_parent then cross_cycle_check host new_parent else st_ret 0) in
      if negb (c =? 0) then
        moving_clear host ;;;
        st_ret (if c =? - EINVAL then inr (- EINVAL, neg) else inl neg)
      else
        stack_locked from_parent from_bucket new_parent new_bucket new_name cross_parent
          shell top host neg.

(** [stack_shell]: the code and, when it is 0, the shell. *)
Definition stack_shell (from_parent : Z) (from_name : qstr) (new_parent : Z) (new_name : qstr)
    (cross_parent : bool) : M (Z * Z) :=
  let! from_bucket := bucket_of from_parent (q_hash from_name) in
  let! new_bucket := bucket_of new_parent (q_hash new_name) in
  let! shell := dentry_alloc new_parent new_name 0 false true in
  if shell =? 0 then st_ret (- ENOMEM, 0)
  else
    dent_store shell (λ x, set_iparent (Z.lor (d_iparent x) DC_TAG_SHELL) x) ;;;
    rcu_read_lock ;;;
    let! r := iter_upto RETRY_ROUNDS
                (stack_round from_parent from_name from_bucket new_parent new_bucket new_name
                   cross_parent shell) 0 in
    match r with
    | inl _ => st_fault NoFuel
    | inr (ret, neg) =>
        rcu_read_unlock ;;;
        dest_reclaim neg ;;;
        if ret =? 0 then st_ret (0, shell)
        else
          c_free shell ;;;
          st_ret (ret, 0)
    end.

(** The transfer of a fold, under the locks of the shell's place: did the commit
    go through? *)
Definition fold_transfer (host n : Z) : M bool :=
  dc_transfer_iparent host n ;;;
  let! nx := dent_at n in
  dent_store host (set_iname (d_iname nx)) ;;;
  let! rh := on_hash (bl_sw_replace n host) in
  let! rs := on_sib (bl_sw_replace n host) in
  let! st := commit_sw (map RHash rh ++ map RSib rs) in
  match st with
  | STATUS_OK => dent_store host (set_top 0) ;;; st_ret true
  | _ => st_ret false
  end.

Definition fold (n : Z) : M unit :=
  let! host := host_of_rcu n in
  rcu_read_lock ;;;
  let! marked := on_hash (bl_marked n) in
  let! reclaim_n :=
    (if negb marked then
       let! parent := parent_of_rcu n in
       let! nx := dent_at n in
       let! b := bucket_of parent (q_hash (d_iname nx)) in
       let! heads := bl_lock_n [Bucket b; ChildHead parent] in
       let! marked := on_hash (bl_marked n) in
       let! reclaim_n := (if negb marked then fold_transfer host n else st_ret true) in
       bl_unlock_n heads ;;;
       st_ret reclaim_n
     else st_ret true) in
  rcu_read_unlock ;;;
  when reclaim_n
    (on_lru (lru_del_can_free n true) ;;;
     call_rcu (CbFree n)).

Definition fold_cb (n : Z) : M unit := fold n.

(** A grace period: the callbacks queued so far run, and may queue others.  It
    cannot end while a read section is open. *)
Definition run_cb (cb : rcu_cb) : M unit :=
  match cb with CbFree d => dentry_free_cb d | CbFold n => fold_cb n end.

Definition rcu_barrier : M unit :=
  let! w := st_get in
  if decide (bw_nest w = 0)%nat then
    st_mod (set_rcu []) ;;; st_iter run_cb (bw_rcu w)
  else st_fault Deadlock.

Definition dc_rename (from to : dc_path) : M Z :=
  if decide (ndepth from = 0 ∨ ndepth to = 0)%nat then st_ret (- EINVAL)
  else
    let! from_parent := resolve from (ndepth from - 1) in
    if from_parent =? 0 then st_ret (- ENOENT)
    else
      let! from_name := comp_at from (ndepth from - 1) in
      let! victim := __child_lookup from_parent from_name in
      if victim =? 0 then st_ret (- ENOENT)
      else
        let! to_parent := resolve to (ndepth to - 1) in
        if to_parent =? 0 then st_ret (- ENOENT)
        else
          let! to_name := comp_at to (ndepth to - 1) in
          let! dest := __child_lookup to_parent to_name in
          let! occupied := (if dest =? 0 then st_ret false
                            else if dest =? victim then st_ret true
                            else node_is_positive dest) in
          if occupied : bool then st_ret (- EEXIST)
          else
            let! pos := node_is_positive to_parent in
            if negb pos then st_ret (- ENOENT)
            else
              rcu_read_lock ;;;
              let! vp := parent_of_rcu victim in
              rcu_read_unlock ;;;
              let cross := negb (vp =? to_parent) in
              let! r := stack_shell from_parent from_name to_parent to_name cross in
              let '(ret, shell) := r in
              if negb (ret =? 0) then st_ret ret
              else
                call_rcu (CbFold shell) ;;;
                st_ret 0.

(** The two d_moving flags of an exchange, the lower address first; false: one
    was taken, neither is held. *)
Definition exchange_claim (hosta hostb : Z) : M bool :=
  let lo := if hosta <? hostb then hosta else hostb in
  let hi := if hosta <? hostb then hostb else hosta in
  let! l := moving_claim lo in
  if negb l then st_ret false
  else
    let! h := moving_claim hi in
    if negb h then moving_clear lo ;;; st_ret false else st_ret true.

Definition exchange_unclaim (cross : bool) (hosta hostb : Z) : M unit :=
  when cross (moving_clear hosta ;;; moving_clear hostb).

(** The records of the two shells: [sb] takes [topa]'s place, [sa] takes
    [topb]'s. *)
Definition exchange_prepare (cross : bool) (pa pb bucket_a bucket_b topa topb hosta hostb sa sb : Z)
  : M (list srec) :=
  let! rh :=
    (if bucket_a =? bucket_b then on_hash (bl_sw_replace2 topa sb topb sa)
     else
       let! r1 := on_hash (bl_sw_replace topa sb) in
       let! r2 := on_hash (bl_sw_replace topb sa) in
       st_ret (r1 ++ r2)) in
  let! rs :=
    (if negb cross then on_sib (bl_sw_replace2 topa sb topb sa)
     else
       let! r1 := on_sib (bl_sw_replace topa sb) in
       let! r2 := on_sib (bl_sw_replace topb sa) in
       st_ret (r1 ++ r2)) in
  let! rp :=
    (if cross then
       let! oa := parent_of_rcu hosta in
       let! ob := parent_of_rcu hostb in
       st_ret [RParent hosta oa pb; RParent hostb ob pa]
     else st_ret []) in
  st_ret (map RHash rh ++ map RSib rs
          ++ [RTop hosta (dtop_val hosta topa) sa; RTop hostb (dtop_val hostb topb) sb] ++ rp).

(** The part of an exchange round from [bl_lock_n] on. *)
Definition exchange_locked (cross : bool) (pa pb bucket_a bucket_b topa topb hosta hostb sa sb : Z)
  : M (unit + Z) :=
  let! heads := bl_lock_n [Bucket bucket_a; Bucket bucket_b; ChildHead pa; ChildHead pb] in
  let! ma := on_hash (bl_marked topa) in
  let! mb := on_hash (bl_marked topb) in
  if ma || mb then
    bl_unlock_n heads ;;;
    exchange_unclaim cross hosta hostb ;;;
    st_ret (inl tt)
  else
    let! recs := exchange_prepare cross pa pb bucket_a bucket_b topa topb hosta hostb sa sb in
    let! st := commit_sw recs in
    bl_unlock_n heads ;;;
    exchange_unclaim cross hosta hostb ;;;
    st_ret (match st with
            | STATUS_ABORT => inl tt
            | STATUS_MEMORY_ERROR => inr (- ENOMEM)
            | STATUS_OK => inr 0
            end).

(** One round of the exchange's loop. *)
Definition exchange_round (cross : bool) (pa pb : Z) (na nb : qstr) (bucket_a bucket_b sa sb : Z)
    (_ : unit) : M (unit + Z) :=
  let! topa := find_top_rcu pa na in
  let! topb := find_top_rcu pb nb in
  if (topa =? 0) || (topb =? 0) then st_ret (inr (- ENOENT))
  else
    let! hosta := host_of_rcu topa in
    let! hostb := host_of_rcu topb in
    dent_store sa (set_host hosta) ;;;
    dent_store sa (set_fwd hosta) ;;;
    dent_store sb (set_host hostb) ;;;
    dent_store sb (set_fwd hostb) ;;;
    let! claimed := (if cross then exchange_claim hosta hostb else st_ret true) in
    if negb claimed then st_ret (inl tt)
    else
      let! ca := (if cross then cross_cycle_check hosta pb else st_ret 0) in
      let! cb := (if cross && (ca =? 0) then cross_cycle_check hostb pa else st_ret 0) in
      if negb (ca =? 0) || negb (cb =? 0) then
        exchange_unclaim cross hosta hostb ;;;
        st_ret (if (ca =? - EINVAL) || (cb =? - EINVAL) then inr (- EINVAL) else inl tt)
      else
        exchange_locked cross pa pb bucket_a bucket_b topa topb hosta hostb sa sb.

(** From the allocation of the two shells on. *)
Definition exchange_shells (pa pb : Z) (na nb : qstr) : M Z :=
  let cross := negb (pa =? pb) in
  let! bucket_a := bucket_of pa (q_hash na) in
  let! bucket_b := bucket_of pb (q_hash nb) in
  let! sa := dentry_alloc pb nb 0 false true in
  let! sb := dentry_alloc pa na 0 false true in
  if (sa =? 0) || (sb =? 0) then
    c_free sa ;;;
    c_free sb ;;;
    st_ret (- ENOMEM)
  else
    dent_store sa (λ x, set_iparent (Z.lor (d_iparent x) DC_TAG_SHELL) x) ;;;
    dent_store sb (λ x, set_iparent (Z.lor (d_iparent x) DC_TAG_SHELL) x) ;;;
    rcu_read_lock ;;;
    let! r := iter_upto RETRY_ROUNDS
                (exchange_round cross pa pb na nb bucket_a bucket_b sa sb) tt in
    match r with
    | inl _ => st_fault NoFuel
    | inr ret =>
        rcu_read_unlock ;;;
        if ret =? 0 then
          call_rcu (CbFold sa) ;;;
          call_rcu (CbFold sb) ;;;
          st_ret 0
        else
          c_free sa ;;;
          c_free sb ;;;
          st_ret ret
    end.

Definition dc_rename_exchange (ap bp : dc_path) : M Z :=
  if decide (ndepth ap = 0 ∨ ndepth bp = 0)%nat then st_ret (- EINVAL)
  else
    let! pa := resolve ap (ndepth ap - 1) in
    if pa =? 0 then st_ret (- ENOENT)
    else
      let! na := comp_at ap (ndepth ap - 1) in
      let! pb := resolve bp (ndepth bp - 1) in
      if pb =? 0 then st_ret (- ENOENT)
      else
        let! nb := comp_at bp (ndepth bp - 1) in
        rcu_read_lock ;;;
        let! hosta := txn_child_lookup_rcu pa na in
        let! hostb := txn_child_lookup_rcu pb nb in
        rcu_read_unlock ;;;
        if (hosta =? 0) || (hostb =? 0) then st_ret (- ENOENT)
        else if hosta =? hostb then st_ret 0
        else exchange_shells pa pb na nb.

End moves.
