(* ===== verification/BlReclaim.v ===== *)
(** The shrinker of dcache_bucketlock.c (lru_evict_settled, and
    dcache_lru_shrink.h) and the life of the cache: [dc_create], [free_subtree],
    [dc_destroy]. *)

From S2P Require Import Prelude Qstr HList Lru World Walk Reclaim BlChain BlLru BlWorld BlWalk.
From S2P Require Import BlOps BlMove.

Section shrink.
  Context `{Layout}.

(** 0 when the dentry was taken out of the index. *)
Definition lru_evict_settled (d : Z) : M Z :=
  let! x := dent_at d in
  let! t := bl_read (d_top x) in
  if negb (t =? 0) || negb (d_fwd x =? 0) then st_ret (- EAGAIN)
  else
    let! parent := parent_of_rcu d in
    if (parent =? 0) || (parent =? d) then st_ret (- EAGAIN)
    else
      let! bucket := bucket_of parent (q_hash (d_iname x)) in
      let! heads := bl_lock_n [Bucket bucket; ChildHead parent; ChildHead d] in
      let! marked := on_hash (bl_marked d) in
      let! busy :=
        (if marked : bool then st_ret true
         else
           let! empty := children_empty d in
           if negb empty then st_ret true
           else
             let! x := dent_at d in
             let! t := bl_read (d_top x) in
             st_ret (negb (t =? 0))) in
      if busy : bool then
        bl_unlock_n heads ;;;
        st_ret (- EAGAIN)
      else
        on_hash (bl_hlist_del_locked d) ;;;
        on_sib (bl_hlist_del_locked d) ;;;
        bl_unlock_n heads ;;;
        st_ret 0.

(** What one step of the sweep does to the oldest dentry of shard [i]: [None]
    leaves the shard (it is empty), else how many it freed. *)
Definition shrink_one (i : nat) : M (option Z) :=
  rcu_read_lock ;;;
  on_lru (lru_lock i) ;;;
  let! o := on_lru (one_load i) in
  let victim := lo_head o in
  if victim =? 0 then
    on_lru (lru_unlock i) ;;;
    rcu_read_unlock ;;;
    st_ret None
  else
    let! n := on_lru (st_lookup ls_node victim) in
    let rot := l_referenced n in
    when rot (on_lru (lnode_store victim (set_lref false))) ;;;
    if rot then
      on_lru (lru_rotate_locked i victim) ;;;
      on_lru (lru_unlock i) ;;;
      rcu_read_unlock ;;;
      st_ret (Some 0)
    else
      let! empty := children_empty victim in
      if negb empty then
        on_lru (lru_unlink_locked i victim) ;;;
        on_lru (lru_unlock i) ;;;
        rcu_read_unlock ;;;
        st_ret (Some 0)
      else
        on_lru (lru_shrink_move_locked i victim) ;;;
        on_lru (lru_unlock i) ;;;
        let! e := lru_evict_settled victim in
        if e =? 0 then
          on_lru (lru_lock i) ;;;
          on_lru (lru_shrink_release_locked victim) ;;;
          on_lru (lru_unlock i) ;;;
          dc_reclaim victim ;;;
          rcu_read_unlock ;;;
          st_ret (Some 1)
        else
          on_lru (lru_lock i) ;;;
          let! n := on_lru (st_lookup ls_node victim) in
          if negb (Z.land (l_shard n) DC_LRU_KILL_BIT =? 0) then
            on_lru (lru_shrink_release_locked victim) ;;;
            on_lru (lru_unlock i) ;;;
            dc_reclaim victim ;;;
            rcu_read_unlock ;;;
            st_ret (Some 1)
          else
            on_lru (lru_link_tail_locked i victim) ;;;
            on_lru (lru_unlock i) ;;;
            rcu_read_unlock ;;;
            st_ret (Some 0).

(** [while (freed < nr && scanned++ < budget)], [left] the budget that is left. *)
Fixpoint shrink_shard (left : nat) (i : nat) (nr freed : Z) : M Z :=
  if freed <? nr then
    match left with
    | O => st_ret freed
    | S left' =>
        let! r := shrink_one i in
        match r with
        | None => st_ret freed
        | Some k => shrink_shard left' i nr (freed + k)
        end
    end
  else st_ret freed.

(** The outer loop over the shards [i], ..., [i + k - 1]. *)
Fixpoint shrink_shards (k i : nat) (nr freed : Z) : M Z :=
  match k with
  | O => st_ret freed
  | S k' =>
      if freed <? nr then
        let! o := on_lru (one_load i) in
        let! freed := shrink_shard (Z.to_nat (lo_nr_items o)) i nr freed in
        shrink_shards k' (S i) nr freed
      else st_ret freed
  end.

Definition lru_shrink_range (nr : Z) (lo hi : nat) : M Z := shrink_shards (hi - lo) lo nr 0.

Definition dc_shrink (nr : Z) : M Z :=
  if nr <=? 0 then st_ret 0
  else
    let! nlru := st_gets (λ w, length (ls_one (bw_lru w))) in
    lru_shrink_range nr 0 nlru.

Definition dc_shrink_local (nr : Z) : M Z :=
  if nr <=? 0 then st_ret 0
  else
    let! nid := st_gets bw_node in
    let! i := on_lru (lru_shard_index nid) in
    lru_shrink_range nr i (S i).

End shrink.

(** ** Lifecycle *)

(** What [memset], [calloc] and the initialisers leave, with [n] buckets. *)
Definition dcache0 (node : nat) (n : Z) : bworld :=
  {| bw_mask := n - 1; bw_root := 0; bw_node := node; bw_dent := ∅;
     bw_hash := {| c_first := gset_to_gmap 0 (list_to_set (seqZ 0 n)); c_node := ∅ |};
     bw_sib := {| c_first := ∅; c_node := ∅ |};
     bw_lru := {| ls_one := lru_shards_init; ls_node := ∅ |};
     bw_rcu := []; bw_nest := 0 |}.

Section create.
  Context `{Memalign}.

(** [dc_create]; the flags say whether the allocations of the [struct dcache], of
    the bucket array and of the shards succeed.  [Ok None] is NULL. *)
Definition dc_create (dc_mem tab_mem lru_mem : bool) (node : nat) (stack : qstr) (nbuckets : Z)
  : res (option bworld) :=
  if negb dc_mem then Ok None
  else
    match round_up ROUND_FUEL 1 nbuckets with
    | Err e => Err e
    | Ok n =>
        if negb tab_mem then Ok None
        else if negb lru_mem then Ok None
        else
          match dentry_alloc 0 (rootname stack) 0 true true (dcache0 node n) with
          | Err e => Err e
          | Ok (root, w) =>
              match (dent_store root (set_parent root) ;;;
                     dent_store root (set_iparent root)) (set_root root w) with
              | Err e => Err e
              | Ok (_, w) => Ok (Some w)
              end
          end
    end.

End create.

(** The loop of [free_subtree]: the next sibling is read before the child is
    freed. *)
Fixpoint free_loop (free : Z → M unit) (fuel : nat) (n : Z) : M unit :=
  match fuel with
  | O => st_fault NoFuel
  | S fuel' =>
      if n =? 0 then st_ret tt
      else
        let! next := on_sib (bl_hlist_next_rcu n) in
        free n ;;;
        free_loop free fuel' next
  end.

Fixpoint free_subtree (fuel : nat) (d : Z) : M unit :=
  match fuel with
  | O => st_fault NoFuel
  | S fuel' =>
      let! n := on_sib (bl_hlist_first_rcu d) in
      let! sf := st_gets sib_fuel in
      free_loop (free_subtree fuel') sf n ;;;
      dentry_free d
  end.

(** [dc_destroy]: the first grace period runs the folds, the second frees what
    they queued; what is left allocated afterwards is what was leaked. *)
Definition dc_destroy `{Layout} `{SwTxn} : M unit :=
  rcu_barrier ;;;
  rcu_barrier ;;;
  let! root := st_gets bw_root in
  let! fuel := st_gets (λ w, S (size (bw_dent w))) in
  free_subtree fuel root.

(** ** An address layout and a transaction library that meet their promises *)

(** Buckets at even words, child heads at odd ones. *)
Definition plain_layout : Layout := λ h,
  match h with Bucket i => 2 * i | ChildHead d => 2 * d + 1 end.

#[export] Instance plain_layout_ok : LayoutOk plain_layout.
Proof. intros [i | d] [j | e]; unfold head_addr, plain_layout; intros E; f_equal; lia. Qed.

(** A library that never runs out of memory, and one that always does. *)
Definition roomy_txn : SwTxn := λ l w, (STATUS_OK, srecs_apply l w).
Definition starved_txn : SwTxn := λ l w, (STATUS_MEMORY_ERROR, w).

#[export] Instance roomy_txn_ok : SwTxnOk roomy_txn.
Proof. intros l w _. by left. Qed.
#[export] Instance starved_txn_ok : SwTxnOk starved_txn.
Proof. intros l w _. by right. Qed.
