(* ===== verification/BlInv.v ===== *)
(** The invariant of the bucket-lock engine: how a world represents a name space.

    An entry is a host [h] of the name space [N]; [T !! h] is its named top, the
    dentry that stands for it in the indexes: the host itself once it is settled,
    else the shell its last rename stacked.  [P] are dentries an operation has
    allocated and not yet published. *)

From S2P Require Import Prelude Qstr HList Lru World Namespace BlChain BlLists BlLru BlLruSpec.
From S2P Require Import BlWorld BlWalk.

(** ** Fields of a dentry *)

Definition shellb (x : dent) : bool := negb (Z.land (d_iparent x) DC_TAG_SHELL =? 0).
Definition posb (x : dent) : bool := Z.land (d_iparent x) DC_TAG_NEG =? 0.
Definition ipar (x : dent) : Z := Z.land (d_iparent x) (Z.lnot DC_TAG_MASK).

Definition itag (shell neg : bool) : Z :=
  (if shell then DC_TAG_SHELL else 0) + (if neg then DC_TAG_NEG else 0).

Record dent_ok (x : dent) : Prop := {
  dk_name : qstr_wf (d_iname x);
  dk_ipar : aligned (ipar x);
  dk_word : d_iparent x = ipar x + itag (shellb x) (negb (posb x));
  dk_parent : aligned (d_parent x);
  dk_top : aligned (d_top x);
  dk_fwd : shellb x = negb (d_fwd x =? 0);
}.

Lemma itag_range s n : 0 ≤ itag s n < 64.
Proof. by destruct s, n. Qed.

Lemma tag_word p s n x :
  aligned p → d_iparent x = p + itag s n → ipar x = p ∧ shellb x = s ∧ posb x = negb n.
Proof.
  intros Hp E. unfold ipar, shellb, posb. rewrite E.
  rewrite aligned_clear, !aligned_land by (done || apply itag_range).
  split_and!; [| by destruct s, n | by destruct s, n].
  assert (itag s n - Z.land (itag s n) DC_TAG_MASK = 0) as -> by (by destruct s, n). lia.
Qed.

(** [bl_read] of a word whose low bit is clear. *)
Lemma bl_read_word p t w : aligned p → 0 ≤ t < 64 → Z.land t 1 = 0 → bl_read (p + t) w = Ok (p + t, w).
Proof. intros Hp Ht E. unfold bl_read, URCU_TXN_TAG. by rewrite aligned_land, E. Qed.

Lemma bl_read_ptr p w : aligned p → bl_read p w = Ok (p, w).
Proof. intros Hp. rewrite <- (Z.add_0_r p). by apply bl_read_word. Qed.

(** ** Lock bits and marks, read off the lists *)

Definition bits (c : chn) : gmap Z bool := (λ v, negb (Z.land v DC_BL_LOCK =? 0)) <$> c_first c.
Definition marks (c : chn) : gmap Z bool := marked <$> c_node c.

Definition chain_has (c : chn) (C : Z → list Z) : Prop := chain_is c C (bits c) (marks c).

Lemma chain_is_bits c C B K : chain_is c C B K → bits c = B ∧ marks c = K.
Proof.
  intros H. split; apply map_eq; intros i.
  - unfold bits. rewrite lookup_fmap, (ci_first _ _ _ _ H). destruct (B !! i) as [b |]; simpl; [| done].
    rewrite head_bit by (by eapply ci_head_aligned). by destruct b.
  - unfold marks. by rewrite lookup_fmap, (ci_mark _ _ _ _ H).
Qed.

Lemma chain_is_has c C B K : chain_is c C B K → chain_has c C ∧ bits c = B ∧ marks c = K.
Proof. intros H. destruct (chain_is_bits _ _ _ _ H) as [E1 E2]. unfold chain_has. by rewrite E1, E2. Qed.

(** ** Entries *)

(** Host [h], named by top [t], is the entry [n]. *)
Record entry (D : gmap Z dent) (h : Z) (n : node) (t : Z) (x tx : dent) : Prop := {
  en_host : D !! h = Some x;
  en_top : D !! t = Some tx;
  en_kind : shellb x = false;
  en_dtop : d_top x = dtop_val h t;
  en_parent : d_parent x = n_parent n;
  en_ipar : ipar tx = n_parent n;
  en_name : qname (d_iname tx) = n_name n;
  en_id : d_id x = n_id n;
  en_dir : d_isdir x = n_dir n;
  en_pos : posb x = n_pos n;
  en_shell : t ≠ h → shellb tx = true ∧ d_host tx = h ∧ d_parent tx = n_parent n;
}.

Definition cb_dent (cb : rcu_cb) : Z := match cb with CbFree d | CbFold d => d end.

Definition node_bucket (mask : Z) (n : node) : Z := bucket_index mask (n_parent n) (fnv (n_name n)).

(** The tops that a list holds: those of the entries [f] puts there. *)
Definition lists (root : Z) (N : nspace) (T : gmap Z Z) (f : node → Z) (C : Z → list Z) : Prop :=
  ∀ i t, t ∈ C i ↔ ∃ h n, h ≠ root ∧ N !! h = Some n ∧ T !! h = Some t ∧ f n = i.

(** The membership word of a dentry: a live host is off the LRU or on a list,
    what is not in the name space is on no list. *)
Definition word_is (N : nspace) (P : gset Z) (d v : Z) : Prop :=
  match N !! d with
  | Some _ => v = DC_LRU_OFF ∨ ∃ i, (i < DC_LRU_NODES)%nat ∧ v = DC_LRU_ON i
  | None => v = DC_LRU_OFF ∨ v = DC_LRU_DEAD ∨ d ∈ P ∧ ∃ i, (i < DC_LRU_NODES)%nat ∧ v = DC_LRU_ON i
  end.

Record lru_rep (D : gset Z) (N : nspace) (P : gset Z) (s : lru_state) : Prop := {
  lr_is : lru_is s (words s);
  lr_dom : dom (words s) = D;
  lr_word : ∀ d v, words s !! d = Some v → word_is N P d v;
}.

(** Deferred work: what waits for a free is out of the name space and the
    indexes, what waits for a fold is a shell; nothing waits twice. *)
Record rcu_rep (D : gmap Z dent) (N : nspace) (T : gmap Z Z) (P : gset Z) (q : list rcu_cb) : Prop := {
  rr_nodup : NoDup (cb_dent <$> q);
  rr_free : ∀ d, CbFree d ∈ q → is_Some (D !! d) ∧ N !! d = None ∧ d ∉ P ∧ ∀ h, T !! h ≠ Some d;
  rr_fold : ∀ d, CbFold d ∈ q → d ∉ P ∧ ∃ x, D !! d = Some x ∧ shellb x = true;
}.

Record rep (w : bworld) (N : nspace) (T : gmap Z Z) (P : gset Z) : Prop := {
  r_mask : ∃ b, 0 ≤ b ≤ 31 ∧ bw_mask w = Z.ones b;
  r_dent : ∀ d x, bw_dent w !! d = Some x → aligned d ∧ d ≠ 0 ∧ (d ∉ P → dent_ok x);
  r_priv : ∀ d, d ∈ P → is_Some (bw_dent w !! d) ∧ N !! d = None ∧ ∀ h, T !! h ≠ Some d;
  r_tops : dom T = dom N;
  r_entry : ∀ h n t, N !! h = Some n → T !! h = Some t → ∃ x tx, entry (bw_dent w) h n t x tx;
  r_root : T !! bw_root w = Some (bw_root w);
  r_hash : ∃ C, chain_has (bw_hash w) C ∧ lists (bw_root w) N T (node_bucket (bw_mask w)) C;
  r_sib : ∃ C, chain_has (bw_sib w) C ∧ lists (bw_root w) N T n_parent C;
  r_hbits : ∀ i, is_Some (bits (bw_hash w) !! i) ↔ 0 ≤ i ≤ bw_mask w;
  r_sbits : dom (bits (bw_sib w)) = dom (bw_dent w);
  r_hmarks : dom (marks (bw_hash w)) = dom (bw_dent w);
  r_smarks : dom (marks (bw_sib w)) = dom (bw_dent w);
  r_live : ∀ h t, T !! h = Some t → marks (bw_hash w) !! t = Some false;
  r_dead : ∀ d x, bw_dent w !! d = Some x → d ∉ P → shellb x = true → (∀ h, T !! h ≠ Some d) →
    marks (bw_hash w) !! d = Some true;
  r_lru : lru_rep (dom (bw_dent w)) N P (bw_lru w);
  r_tree : tree (bw_root w) N;
  r_typed : typed (bw_root w) N;
}.

Definition still (D : gmap Z dent) : Prop := ∀ d x, D !! d = Some x → d_moving x = 0.

Definition unlocked (c : chn) : Prop := ∀ i b, bits c !! i = Some b → b = false.

(** Between operations, inside [k] read sections. *)
Record binv (k : nat) (w : bworld) (N : nspace) (T : gmap Z Z) : Prop := {
  bi_rep :> rep w N T ∅;
  bi_hash : unlocked (bw_hash w);
  bi_sib : unlocked (bw_sib w);
  bi_rcu : rcu_rep (bw_dent w) N T ∅ (bw_rcu w);
  bi_still : still (bw_dent w);
  bi_nest : bw_nest w = k;
}.

(** ** Consequences *)

Section rep.
Context w N T P (R : rep w N T P).

Lemma rep_top h n : N !! h = Some n → ∃ t x tx, T !! h = Some t ∧ entry (bw_dent w) h n t x tx.
Proof.
  intros Hn. assert (is_Some (T !! h)) as [t Ht].
  { apply elem_of_dom. rewrite (r_tops _ _ _ _ R). apply elem_of_dom. by eexists. }
  destruct (r_entry _ _ _ _ R h n t Hn Ht) as (x & tx & ?). eauto.
Qed.

Lemma rep_live h t : T !! h = Some t → ∃ n x tx, N !! h = Some n ∧ entry (bw_dent w) h n t x tx.
Proof.
  intros Ht. assert (is_Some (N !! h)) as [n Hn].
  { apply elem_of_dom. rewrite <- (r_tops _ _ _ _ R). apply elem_of_dom. by eexists. }
  destruct (r_entry _ _ _ _ R h n t Hn Ht) as (x & tx & ?). eauto 10.
Qed.

(** Published dentries are well formed. *)
Lemma rep_not_priv h : is_Some (N !! h) → h ∉ P.
Proof. intros [n Hn] Hp. destruct (r_priv _ _ _ _ R h Hp) as (_ & ? & _). congruence. Qed.

Lemma rep_top_not_priv h t : T !! h = Some t → t ∉ P.
Proof. intros Ht Hp. destruct (r_priv _ _ _ _ R t Hp) as (_ & _ & Hn). by apply (Hn h). Qed.

Lemma entry_ok h n t x tx :
  T !! h = Some t → N !! h = Some n → entry (bw_dent w) h n t x tx → dent_ok x ∧ dent_ok tx.
Proof.
  intros Ht Hn E. split.
  - apply (r_dent _ _ _ _ R h x (en_host _ _ _ _ _ _ E)). apply rep_not_priv. by eexists.
  - apply (r_dent _ _ _ _ R t tx (en_top _ _ _ _ _ _ E)). by eapply rep_top_not_priv.
Qed.

(** A dentry names at most one entry. *)
Lemma top_inj h h' t : T !! h = Some t → T !! h' = Some t → h = h'.
Proof.
  intros Ht Ht'. destruct (rep_live h t Ht) as (n & x & tx & Hn & E).
  destruct (rep_live h' t Ht') as (n' & x' & tx' & Hn' & E').
  pose proof (en_top _ _ _ _ _ _ E) as Etx. pose proof (en_top _ _ _ _ _ _ E') as Etx'. simplify_eq.
  destruct (decide (t = h)) as [Eh | Hh], (decide (t = h')) as [Eh' | Hh']; [congruence | subst t | subst t |].
  - destruct (en_shell _ _ _ _ _ _ E') as (Hs & _); [done |].
    pose proof (en_host _ _ _ _ _ _ E). pose proof (en_kind _ _ _ _ _ _ E). congruence.
  - destruct (en_shell _ _ _ _ _ _ E) as (Hs & _); [done |].
    pose proof (en_host _ _ _ _ _ _ E'). pose proof (en_kind _ _ _ _ _ _ E'). congruence.
  - destruct (en_shell _ _ _ _ _ _ E) as (_ & <- & _); [done |].
    by destruct (en_shell _ _ _ _ _ _ E') as (_ & <- & _).
Qed.

(** A top that is in the name space is its own host. *)
Lemma top_host h t : T !! h = Some t → is_Some (N !! t) → t = h.
Proof.
  intros Ht [n' Hn']. destruct (decide (t = h)) as [| Hne]; [done |].
  destruct (rep_live h t Ht) as (n & x & tx & Hn & E).
  destruct (rep_top t n' Hn') as (t' & x' & tx' & Ht' & E').
  destruct (en_shell _ _ _ _ _ _ E Hne) as (Hs & _). pose proof (en_top _ _ _ _ _ _ E).
  pose proof (en_host _ _ _ _ _ _ E'). pose proof (en_kind _ _ _ _ _ _ E'). congruence.
Qed.

Lemma rep_aligned h : is_Some (N !! h) → aligned h ∧ h ≠ 0.
Proof.
  intros [n Hn]. destruct (rep_top h n Hn) as (t & x & tx & Ht & E).
  by destruct (r_dent _ _ _ _ R h x (en_host _ _ _ _ _ _ E)) as (? & ? & _).
Qed.

Lemma top_aligned h t : T !! h = Some t → aligned t ∧ t ≠ 0.
Proof.
  intros Ht. destruct (rep_live h t Ht) as (n & x & tx & Hn & E).
  by destruct (r_dent _ _ _ _ R t tx (en_top _ _ _ _ _ _ E)) as (? & ? & _).
Qed.

Lemma rep_root : ∃ rn, N !! bw_root w = Some rn ∧ n_parent rn = bw_root w ∧
  n_dir rn = true ∧ n_pos rn = true.
Proof. apply (r_tree _ _ _ _ R). Qed.

Lemma bucket_range p h : 0 ≤ bucket_index (bw_mask w) p h ≤ bw_mask w.
Proof.
  destruct (r_mask _ _ _ _ R) as (b & Hb & ->). unfold bucket_index.
  set (z := Z.shiftr _ 32). rewrite Z.land_ones by lia. rewrite Z.ones_equiv.
  pose proof (Z.mod_pos_bound z (2 ^ b)). lia.
Qed.

Lemma bucket_bit p h : ∃ b, bits (bw_hash w) !! bucket_index (bw_mask w) p h = Some b.
Proof. apply (r_hbits _ _ _ _ R), bucket_range. Qed.

Lemma child_bit h : is_Some (N !! h) → ∃ b, bits (bw_sib w) !! h = Some b.
Proof.
  intros [n Hn]. destruct (rep_top h n Hn) as (t & x & tx & Ht & E).
  apply elem_of_dom. rewrite (r_sbits _ _ _ _ R). apply elem_of_dom. eexists. apply (en_host _ _ _ _ _ _ E).
Qed.
End rep.
