(* ===== verification/BlReads.v ===== *)
(** The reads of the bucket-lock engine, as equations: what each returns in a
    world that represents a name space, whatever locks are held, and that it
    changes nothing. *)

From S2P Require Import Prelude Qstr HList Lru World Walk Namespace BlChain BlLists BlLru.
From S2P Require Import BlLruSpec BlWorld BlWalk BlInv.

Lemma bind_run {S A B} (m : ST S A) (f : A → ST S B) s a s' r :
  m s = Ok (a, s') → f a s' = r → st_bind m f s = r.
Proof. unfold st_bind. by intros ->. Qed.

(** Read with a lemma, then go on. *)
Tactic Notation "run" uconstr(L) := eapply bind_run; [eapply L | cbn beta iota].

Lemma zoom_run {S T A} (get : S → T) (set : T → S → S) (m : ST T A) s a :
  (∀ s, set (get s) s = s) → m (get s) = Ok (a, get s) → st_zoom get set m s = Ok (a, s).
Proof. intros Hs E. unfold st_zoom. by rewrite E, Hs. Qed.

Lemma dent_at_run d x w : bw_dent w !! d = Some x → dent_at d w = Ok (x, w).
Proof. intros E. unfold dent_at, st_lookup. by rewrite E. Qed.

Lemma gets_run {S A} (f : S → A) s : st_gets f s = Ok (f s, s).
Proof. done. Qed.

(** A read inside its own read section. *)
Lemma set_nest_id w : set_nest (bw_nest w) w = w.
Proof. by destruct w. Qed.
Lemma set_hash_id w : set_hash (bw_hash w) w = w.
Proof. by destruct w. Qed.
Lemma set_sib_id w : set_sib (bw_sib w) w = w.
Proof. by destruct w. Qed.

Lemma read_section_run {A} (m : M A) w a :
  m (set_nest (S (bw_nest w)) w) = Ok (a, set_nest (S (bw_nest w)) w) →
  (rcu_read_lock ;;; let! r := m in rcu_read_unlock ;;; st_ret r) w = Ok (a, w).
Proof.
  intros E. eapply bind_run; [done |]. cbn beta. eapply bind_run; [exact E |]. cbn beta.
  eapply bind_run; [done |]. by destruct w.
Qed.

Lemma rep_nest k w N T P : rep w N T P → rep (set_nest k w) N T P.
Proof. intros []. by constructor. Qed.

(** ** One dentry *)

Section dent.
Context w d x (Hd : bw_dent w !! d = Some x) (Hx : dent_ok x).

Lemma iparent_raw_run : iparent_raw d w = Ok (d_iparent x, w).
Proof.
  unfold iparent_raw. run dent_at_run; [done |]. rewrite (dk_word _ Hx).
  apply bl_read_word; [apply Hx | apply itag_range | by destruct (shellb x), (posb x)].
Qed.

Lemma iparent_of_run : iparent_of d w = Ok (ipar x, w).
Proof. unfold iparent_of. by run iparent_raw_run. Qed.

Lemma node_is_shell_run : node_is_shell d w = Ok (shellb x, w).
Proof. unfold node_is_shell. by run iparent_raw_run. Qed.

Lemma node_is_positive_run : node_is_positive d w = Ok (posb x, w).
Proof. unfold node_is_positive. by run iparent_raw_run. Qed.

Lemma parent_of_run : parent_of_rcu d w = Ok (d_parent x, w).
Proof. unfold parent_of_rcu. run dent_at_run; [done |]. apply bl_read_ptr, Hx. Qed.

Lemma host_of_run : host_of_rcu d w = Ok (if shellb x then d_host x else d, w).
Proof.
  unfold host_of_rcu. run node_is_shell_run. destruct (shellb x); [| done]. by run dent_at_run.
Qed.
End dent.

Section reads.
Context w N T P (R : rep w N T P).

Lemma host_of_top h t : T !! h = Some t → host_of_rcu t w = Ok (h, w).
Proof.
  intros Ht. destruct (rep_live _ _ _ _ R h t Ht) as (n & x & tx & Hn & E).
  destruct (entry_ok _ _ _ _ R h n t x tx Ht Hn E) as [_ Hok].
  erewrite host_of_run; [| apply (en_top _ _ _ _ _ _ E) | done].
  destruct (decide (t = h)) as [-> | Hne].
  - replace tx with x by (pose proof (en_host _ _ _ _ _ _ E); pose proof (en_top _ _ _ _ _ _ E); congruence).
    by rewrite (en_kind _ _ _ _ _ _ E).
  - by destruct (en_shell _ _ _ _ _ _ E Hne) as (-> & -> & _).
Qed.

Lemma marked_run d b : marks (bw_hash w) !! d = Some b → on_hash (bl_marked d) w = Ok (b, w).
Proof.
  intros Hd. apply zoom_run; [apply set_hash_id |]. destruct (r_hash _ _ _ _ R) as (C & HC & _).
  destruct (wp_inv _ _ _ (wp_bl_marked _ _ _ _ HC d b (λ r c, r = b ∧ c = bw_hash w) Hd (conj eq_refl eq_refl)))
    as (r & c & E & -> & ->). done.
Qed.

Lemma live_run h t : T !! h = Some t → on_hash (bl_marked t) w = Ok (false, w).
Proof. intros Ht. apply marked_run. by apply (r_live _ _ _ _ R h). Qed.

Lemma first_run (sel : bworld → chn) (set : chn → bworld → bworld) C i b :
  (∀ w, set (sel w) w = w) → chain_has (sel w) C → bits (sel w) !! i = Some b →
  st_zoom sel set (bl_hlist_first_rcu i) w = Ok (hd0 (C i), w).
Proof.
  intros Hs HC Hb. apply zoom_run; [done |].
  destruct (wp_inv _ _ _ (wp_bl_hlist_first_rcu _ _ _ _ HC i b (λ r c, r = hd0 (C i) ∧ c = sel w)
    Hb (conj eq_refl eq_refl))) as (r & c & E & -> & ->). done.
Qed.

Lemma next_run (sel : bworld → chn) (set : chn → bworld → bworld) C i l1 d l2 :
  (∀ w, set (sel w) w = w) → chain_has (sel w) C → C i = l1 ++ d :: l2 →
  st_zoom sel set (bl_hlist_next_rcu d) w = Ok (hd0 l2, w).
Proof.
  intros Hs HC E. apply zoom_run; [done |].
  destruct (wp_inv _ _ _ (wp_bl_hlist_next_rcu _ _ _ _ HC i l1 d l2 (λ r c, r = hd0 l2 ∧ c = sel w)
    E (conj eq_refl eq_refl))) as (r & c & Er & -> & ->). done.
Qed.

(** ** Scan of a bucket *)

(** The first element for which [f] gives a result. *)
Fixpoint first_some {A} (f : Z → option A) (l : list Z) : option A :=
  match l with [] => None | d :: l' => match f d with Some a => Some a | None => first_some f l' end end.

Lemma bucket_scan_run {A} (body : Z → M (option A)) (f : Z → option A) C i l1 l2 fuel :
  chain_has (bw_hash w) C → C i = l1 ++ l2 → (length l2 < fuel)%nat →
  (∀ d, d ∈ l2 → body d w = Ok (f d, w)) →
  bucket_scan fuel (hd0 l2) body w = Ok (first_some f l2, w).
Proof.
  intros HC. revert l1 fuel. induction l2 as [| d l2 IH]; intros l1 fuel E Hf Hb;
    (destruct fuel as [| fuel]; [simpl in Hf; lia |]); [done |].
  assert (d ≠ 0) as H0.
  { intros ->. apply (ci_nonzero _ _ _ _ HC i). rewrite E. apply elem_of_app. right. by left. }
  simpl. unfold hd0. simpl. destruct (Z.eqb_spec d 0); [done |]. run Hb; [by left |].
  destruct (f d); [done |]. run (next_run bw_hash set_hash C i l1 d l2 set_hash_id HC E).
  apply (IH (l1 ++ [d])); [by rewrite E, <- app_assoc | simpl in Hf; lia |].
  intros x Hx. apply Hb. by right.
Qed.

(** What the scan of its bucket finds for [(p, nm)]. *)
Lemma scan_child {A} C p nm (f : Z → option A) (g : Z → Z → A) :
  lists (bw_root w) N T (node_bucket (bw_mask w)) C →
  (∀ h n t, N !! h = Some n → T !! h = Some t →
     f t = if bool_decide (n_parent n = p ∧ n_name n = nm) then Some (g h t) else None) →
  first_some f (C (bucket_index (bw_mask w) p (fnv nm))) =
  h ← child (bw_root w) N p nm; t ← T !! h; Some (g h t).
Proof.
  intros HL Hf. set (i := bucket_index _ p (fnv nm)).
  destruct (child (bw_root w) N p nm) as [h |] eqn:Ec; simpl.
  - apply child_Some_1 in Ec as (Hr & n & Hn & Hp & Hnm).
    destruct (rep_top _ _ _ _ R h n Hn) as (t & x & tx & Ht & _). rewrite Ht. simpl.
    assert (t ∈ C i) as Hin.
    { apply HL. exists h, n. split_and!; try done. unfold node_bucket. by rewrite Hp, Hnm. }
    assert (∀ l, t ∈ l → (∀ t', t' ∈ l → t' ∈ C i) → first_some f l = Some (g h t)) as Hg;
      [| by apply Hg].
    induction l as [| t' l IH]; intros Ht' Hl; [by apply not_elem_of_nil in Ht' |]. simpl.
    destruct (proj1 (HL i t') (Hl t' ltac:(left))) as (h' & n' & Hr' & Hn' & HT' & _).
    rewrite (Hf h' n' t' Hn' HT'). case_bool_decide as Hm.
    + destruct Hm as [Hp' Hnm'].
      assert (h' = h) as -> by (eapply (t_unique _ _ (r_tree _ _ _ _ R) p nm); split; eauto).
      by simplify_eq.
    + apply elem_of_cons in Ht' as [-> | Ht']; [| apply IH; [done |]; intros; apply Hl; by right].
      exfalso. assert (h' = h) as -> by (by eapply (top_inj _ _ _ _ R)). simplify_eq. by apply Hm.
  - assert (∀ l, (∀ t', t' ∈ l → t' ∈ C i) → first_some f l = None) as Hg; [| by apply Hg].
    induction l as [| t' l IH]; intros Hl; [done |]. simpl.
    destruct (proj1 (HL i t') (Hl t' ltac:(left))) as (h' & n' & Hr' & Hn' & HT' & _).
    rewrite (Hf h' n' t' Hn' HT'), bool_decide_eq_false_2.
    + apply IH. intros. apply Hl. by right.
    + intros [Hp' Hnm']. apply (child_None_1 _ _ _ _ h' Ec). split; eauto.
Qed.

Lemma match_bool (x : dent) p q :
  dent_ok x → qstr_wf q →
  (ipar x =? p) && dc_qstr_eq (d_iname x) q = bool_decide (ipar x = p ∧ qname (d_iname x) = qname q).
Proof.
  intros Hx Hq. apply eq_bool_prop_intro. rewrite !Is_true_true, andb_true_iff, Z.eqb_eq, bool_decide_eq_true.
  rewrite dc_qstr_eq_spec; [done | apply Hx | done].
Qed.

(** The named top of a child, or NULL. *)
Definition top_at (p : Z) (nm : list Z) : option Z := h ← child (bw_root w) N p nm; T !! h.

Lemma scan_bound C i : chain_has (bw_hash w) C → (length (C i) < scan_fuel w)%nat.
Proof. intros HC. unfold scan_fuel. pose proof (ci_length _ _ _ _ HC i). lia. Qed.

Lemma find_top_run p q : qstr_wf q → find_top_rcu p q w = Ok (default 0 (top_at p (qname q)), w).
Proof.
  intros Hq. destruct (r_hash _ _ _ _ R) as (C & HC & HL). unfold find_top_rcu.
  run gets_run. rewrite (qw_hash q Hq). destruct (bucket_bit _ _ _ _ R p (fnv (qname q))) as [b Hb].
  run (first_run bw_hash set_hash C _ b set_hash_id HC Hb). run gets_run.
  set (f := λ t, match bw_dent w !! t with
    | Some tx => if (ipar tx =? p) && dc_qstr_eq (d_iname tx) q then Some t else None
    | None => None end).
  run (bucket_scan_run (top_match p q) f C _ [] _ _ HC eq_refl (scan_bound C _ HC)).
  - intros t Ht. apply HL in Ht as (h & n & _ & Hn & HT & _).
    destruct (r_entry _ _ _ _ R h n t Hn HT) as (x & tx & E).
    destruct (entry_ok _ _ _ _ R h n t x tx HT Hn E) as [_ Hok].
    pose proof (en_top _ _ _ _ _ _ E) as Etx. unfold top_match.
    run iparent_of_run; [done | done |]. run dent_at_run; [done |]. unfold f. by rewrite Etx.
  - unfold st_ret. do 3 f_equal. unfold top_at.
    rewrite (scan_child C p (qname q) f (λ _ t, t) HL).
    + by destruct (child _ _ _ _) as [h |]; simpl; [destruct (T !! h) |].
    + intros h n t Hn HT. destruct (r_entry _ _ _ _ R h n t Hn HT) as (x & tx & E).
      destruct (entry_ok _ _ _ _ R h n t x tx HT Hn E) as [_ Hok]. unfold f.
      rewrite (en_top _ _ _ _ _ _ E), match_bool by done.
      by rewrite (en_ipar _ _ _ _ _ _ E), (en_name _ _ _ _ _ _ E).
Qed.

(** ... and with the d_iparent word it was matched on. *)
Lemma find_top_raw_run p q :
  qstr_wf q → find_top_raw_rcu p q w =
    Ok (t ← top_at p (qname q); tx ← bw_dent w !! t; Some (t, d_iparent tx), w).
Proof.
  intros Hq. destruct (r_hash _ _ _ _ R) as (C & HC & HL). unfold find_top_raw_rcu.
  run gets_run. rewrite (qw_hash q Hq). destruct (bucket_bit _ _ _ _ R p (fnv (qname q))) as [b Hb].
  run (first_run bw_hash set_hash C _ b set_hash_id HC Hb). run gets_run.
  set (f := λ t, match bw_dent w !! t with
    | Some tx => if (ipar tx =? p) && dc_qstr_eq (d_iname tx) q then Some (t, d_iparent tx) else None
    | None => None end).
  rewrite (bucket_scan_run (top_match_raw p q) f C _ [] _ _ HC eq_refl (scan_bound C _ HC)).
  - do 2 f_equal. unfold top_at.
    rewrite (scan_child C p (qname q) f (λ _ t, (t, default 0 (d_iparent <$> bw_dent w !! t))) HL).
    + destruct (child _ _ _ _) as [h |] eqn:Ec; simpl; [| done].
      destruct (T !! h) as [t |] eqn:HT; simpl; [| done].
      destruct (rep_live _ _ _ _ R h t HT) as (n & x & tx & Hn & E).
      by rewrite (en_top _ _ _ _ _ _ E).
    + intros h n t Hn HT. destruct (r_entry _ _ _ _ R h n t Hn HT) as (x & tx & E).
      destruct (entry_ok _ _ _ _ R h n t x tx HT Hn E) as [_ Hok]. unfold f.
      rewrite (en_top _ _ _ _ _ _ E), match_bool by done. simpl.
      by rewrite (en_ipar _ _ _ _ _ _ E), (en_name _ _ _ _ _ _ E).
  - intros t Ht. apply HL in Ht as (h & n & _ & Hn & HT & _).
    destruct (r_entry _ _ _ _ R h n t Hn HT) as (x & tx & E).
    destruct (entry_ok _ _ _ _ R h n t x tx HT Hn E) as [_ Hok].
    pose proof (en_top _ _ _ _ _ _ E) as Etx. unfold top_match_raw.
    run iparent_raw_run; [done | done |]. run dent_at_run; [done |]. unfold f. by rewrite Etx.
Qed.

Lemma top_at_nonzero p nm t : top_at p nm = Some t → t ≠ 0.
Proof.
  unfold top_at. destruct (child _ _ _ _) as [h |]; simpl; [| done]. intros Ht.
  by apply (top_aligned _ _ _ _ R h t).
Qed.

Lemma child_lookup_run p q :
  qstr_wf q → txn_child_lookup_rcu p q w = Ok (default 0 (child (bw_root w) N p (qname q)), w).
Proof.
  intros Hq. unfold txn_child_lookup_rcu. run find_top_run; [done |].
  destruct (top_at p (qname q)) as [t |] eqn:Et; simpl.
  - pose proof (top_at_nonzero _ _ _ Et). destruct (Z.eqb_spec t 0); [done |].
    unfold top_at in Et. destruct (child _ _ _ _) as [h |]; simpl in *; [| done].
    by apply host_of_top.
  - unfold top_at in Et. destruct (child _ _ _ _) as [h |] eqn:Ec; simpl in *; [| done].
    apply child_Some_1 in Ec as (_ & n & Hn & _).
    destruct (rep_top _ _ _ _ R h n Hn) as (t & _ & _ & Ht & _). congruence.
Qed.

Lemma child_nonzero p nm h : child (bw_root w) N p nm = Some h → h ≠ 0.
Proof. intros (_ & n & Hn & _)%child_Some_1. apply (rep_aligned _ _ _ _ R h). by eexists. Qed.
End reads.

Lemma child_lookup_run' w N T P p q :
  rep w N T P → qstr_wf q →
  __child_lookup p q w = Ok (default 0 (child (bw_root w) N p (qname q)), w).
Proof.
  intros R Hq. unfold __child_lookup. apply read_section_run.
  apply (child_lookup_run (set_nest (S (bw_nest w)) w) N T P); [by apply rep_nest | done].
Qed.
