(* ===== verification/BlWalkSpec.v ===== *)
(** The walks of the bucket-lock engine against the name space: the writers'
    resolve, which also touches the LRU, and the latched lookup. *)

From S2P Require Import Prelude Qstr HList Lru World Walk Namespace TreeOps Paths BlChain.
From S2P Require Import BlLists BlLru BlLruSpec BlWorld BlWalk BlInv BlReads.

Section reads.
Context w N T P (R : rep w N T P).

Lemma lists_empty C f p :
  lists (bw_root w) N T f C → C p = [] ↔ ∀ h n, h ≠ bw_root w → N !! h = Some n → f n ≠ p.
Proof.
  intros HL. split.
  - intros E h n Hr Hn Hp. destruct (rep_top _ _ _ _ R h n Hn) as (t & _ & _ & Ht & _).
    assert (t ∈ C p) as Hin by (apply HL; eauto 10). rewrite E in Hin. by apply not_elem_of_nil in Hin.
  - intros Hk. destruct (C p) as [| t l] eqn:E; [done |].
    destruct (proj1 (HL p t)) as (h & n & Hr & Hn & _ & Hp); [rewrite E; by left |].
    by destruct (Hk h n Hr Hn).
Qed.

Lemma children_empty_run h :
  is_Some (N !! h) → children_empty h w = Ok (bool_decide (kids (bw_root w) N h = []), w).
Proof.
  intros Hh. destruct (r_sib _ _ _ _ R) as (C & HC & HL). destruct (child_bit _ _ _ _ R h Hh) as [b Hb].
  unfold children_empty. run (first_run _ bw_sib set_sib C h b set_sib_id HC Hb).
  unfold st_ret. do 2 f_equal. apply eq_bool_prop_intro.
  rewrite !Is_true_true, Z.eqb_eq, bool_decide_eq_true, kids_nil, <- (lists_empty C n_parent h HL).
  destruct (C h) as [| t l] eqn:E; [done |]. split; [| done]. unfold hd0. simpl. intros ->.
  exfalso. apply (ci_nonzero _ _ _ _ HC h). rewrite E. by left.
Qed.

Lemma dtop_val_read h t x tx n :
  T !! h = Some t → N !! h = Some n → entry (bw_dent w) h n t x tx →
  bl_read (d_top x) w = Ok (dtop_val h t, w) ∧ (if negb (dtop_val h t =? 0) then dtop_val h t else h) = t.
Proof.
  intros Ht Hn E. destruct (entry_ok _ _ _ _ R h n t x tx Ht Hn E) as [Hok _].
  destruct (top_aligned _ _ _ _ R h t Ht) as [_ H0]. split.
  - rewrite bl_read_ptr by apply Hok. by rewrite (en_dtop _ _ _ _ _ _ E).
  - unfold dtop_val. destruct (Z.eqb_spec t h) as [-> |]; simpl; [done |].
    by destruct (Z.eqb_spec t 0).
Qed.

Lemma named_top_run h t : T !! h = Some t → named_top_rcu h w = Ok (t, w).
Proof.
  intros Ht. destruct (rep_live _ _ _ _ R h t Ht) as (n & x & tx & Hn & E).
  destruct (dtop_val_read h t x tx n Ht Hn E) as [Er Ev]. unfold named_top_rcu.
  run dent_at_run; [apply (en_host _ _ _ _ _ _ E) |]. run Er. by rewrite Ev.
Qed.

Lemma entry_alive_run h : is_Some (N !! h) → entry_alive h w = Ok (true, w).
Proof.
  intros [n Hn]. destruct (rep_top _ _ _ _ R h n Hn) as (t & x & tx & Ht & E).
  destruct (dtop_val_read h t x tx n Ht Hn E) as [Er Ev].
  assert (wp (iter_upto RETRY_ROUNDS (entry_alive_round h) tt) (λ r w', r = inr true ∧ w' = w) w) as Hwp.
  { apply wp_iter_first. eapply (wp_run _ _ _ (inr true) w); [| by eexists].
    unfold entry_alive_round. run dent_at_run; [apply (en_host _ _ _ _ _ _ E) |]. run Er. rewrite Ev.
    by run (live_run _ _ _ _ R h t Ht). }
  destruct (wp_inv _ _ _ Hwp) as (r & w' & Eq & -> & ->). unfold entry_alive. by run Eq.
Qed.

(** ** The latched lookup *)

Definition res_of (n : node) : dc_result := if n_pos n then DC_POSITIVE else DC_NEGATIVE.

(** What a walk reports: the state of the last entry, or absent. *)
Definition walk_res (cur : Z) (res : dc_result) (names : list (list Z)) : dc_result * option Z :=
  match names with
  | [] => (res, Some cur)
  | _ => match nwalk (bw_root w) N cur names with
         | Some d => match N !! d with Some n => (res_of n, Some d) | None => (DC_ABSENT, None) end
         | None => (DC_ABSENT, None)
         end
  end.

Lemma host_positive_run h t n x tx :
  T !! h = Some t → N !! h = Some n → entry (bw_dent w) h n t x tx →
  host_is_positive (d_iparent tx) h w = Ok (n_pos n, w) ∧ host_of_raw t (d_iparent tx) w = Ok (h, w).
Proof.
  intros Ht Hn E. destruct (entry_ok _ _ _ _ R h n t x tx Ht Hn E) as [Hok Hok'].
  assert (t = h → tx = x) as Eq.
  { intros ->. pose proof (en_host _ _ _ _ _ _ E). pose proof (en_top _ _ _ _ _ _ E). congruence. }
  unfold host_is_positive, host_of_raw. fold (shellb tx).
  assert ((Z.land (d_iparent tx) DC_TAG_SHELL =? 0) = negb (shellb tx)) as ->.
  { unfold shellb. by rewrite negb_involutive. }
  destruct (decide (t = h)) as [-> | Hne].
  - rewrite (Eq eq_refl), (en_kind _ _ _ _ _ _ E). simpl. split; [| done].
    by rewrite <- (en_pos _ _ _ _ _ _ E).
  - destruct (en_shell _ _ _ _ _ _ E Hne) as (-> & Eh & _). simpl. split.
    + run iparent_raw_run; [apply (en_host _ _ _ _ _ _ E) | done |]. by rewrite <- (en_pos _ _ _ _ _ _ E).
    + run dent_at_run; [apply (en_top _ _ _ _ _ _ E) |]. by rewrite <- Eh.
Qed.

(** The latched tops are live, each with itself as stamp. *)
Definition latched_ok (l : list (Z * Z)) : Prop :=
  Forall (λ ts, ts.1 = ts.2 ∧ ∃ h, T !! h = Some ts.1) l.

Lemma lookup_moved_run l : latched_ok l → lookup_moved l w = Ok (false, w).
Proof.
  induction 1 as [| [t s] l [E (h & Ht)] _ IH]; simpl in *; [done |]. subst s.
  unfold dc_stamp_reread, top_unhashed_rcu. eapply bind_run.
  { run (live_run _ _ _ _ R h t Ht). done. }
  cbn beta. by rewrite Z.eqb_refl.
Qed.

Lemma lookup_down_run p k i cur res l :
  path_wf p → (i + k)%nat = ndepth p → latched_ok l →
  ∃ id l', lookup_down p k i cur res cur l w =
    Ok (Some (fst (walk_res cur res (drop i (pnames p))), id, l'), w) ∧ latched_ok l' ∧
    (∀ d, snd (walk_res cur res (drop i (pnames p))) = Some d → id = d).
Proof.
  intros Hp. revert i cur res l. induction k as [| k IH]; intros i cur res l Hi Hl.
  - exists cur, l. rewrite drop_ge by (rewrite length_pnames by done; lia). simpl.
    split_and!; [done | done |]. by intros d [= ->].
  - destruct (path_comp_is_Some p i Hp ltac:(lia)) as (q & Hq & Hqw).
    assert (pnames p !! i = Some (qname q)) as Hn by (apply pnames_lookup; [lia | done]).
    rewrite (drop_S _ _ _ Hn). simpl lookup_down. unfold comp_at, path_comp. rewrite Hq.
    unfold st_bind at 1. unfold st_ret at 1. unfold walk_res at 1 2. simpl nwalk.
    assert (find_top_raw_rcu cur q w = _) as Ef by (by apply (find_top_raw_run _ N T P R)).
    unfold top_at in Ef. destruct (child (bw_root w) N cur (qname q)) as [h |] eqn:Ec; simpl in *.
    2:{ exists cur, l. split_and!; [| done | done]. by eapply bind_run; [exact Ef |]. }
    apply child_Some_1 in Ec as (Hr & n & Hnn & _).
    destruct (rep_top _ _ _ _ R h n Hnn) as (t & x & tx & Ht & E).
    rewrite Ht in Ef. simpl in Ef. rewrite (en_top _ _ _ _ _ _ E) in Ef. simpl in Ef.
    destruct (host_positive_run h t n x tx Ht Hnn E) as [Epos Ehost].
    destruct (IH (S i) h (res_of n) (l ++ [(t, t)])) as (id & l' & Erun & Hl' & Hid); [lia | |].
    { apply Forall_app. split; [done |]. constructor; [| constructor]. simpl. eauto. }
    exists id, l'. split_and!; [| done |].
    + eapply bind_run; [exact Ef |]. cbn beta iota. run Ehost.
      run (live_run _ _ _ _ R h t Ht). run Epos. unfold dc_latch_node, dc_stamp_of, DC_FAST_ID.
      change (if n_pos n then DC_POSITIVE else DC_NEGATIVE) with (res_of n). rewrite Erun.
      unfold walk_res. destruct (drop (S i) (pnames p)) eqn:Ed; simpl; [by rewrite Hnn |].
      by destruct (child _ _ _ _).
    + intros d Hd. apply Hid. unfold walk_res.
      destruct (drop (S i) (pnames p)) eqn:Ed; simpl in *; [by rewrite Hnn in Hd |]. done.
Qed.
End reads.

Lemma lookup_result_is N d n :
  N !! d = Some n → lookup_result N (Some d) = if n_pos n then (DC_POSITIVE, Some d) else (DC_NEGATIVE, None).
Proof. intros Hn. simpl. unfold state_of. rewrite Hn. by destruct (n_pos n). Qed.

Lemma dc_lookup_run w N T P p :
  rep w N T P → path_wf p → dc_lookup p w = Ok (lookup_result N (nwalk (bw_root w) N (bw_root w) (pnames p)), w).
Proof.
  intros R Hp. set (w1 := set_nest (S (bw_nest w)) w).
  assert (rep w1 N T P) as R1 by (by apply rep_nest).
  destruct (lookup_down_run w1 N T P R1 p (ndepth p) 0 (bw_root w) DC_POSITIVE [] Hp eq_refl ltac:(constructor))
    as (id & l' & Erun & Hl' & Hid). rewrite drop_0 in *.
  set (wr := walk_res w1 N (bw_root w) DC_POSITIVE (pnames p)) in *.
  assert (wp (iter_upto RETRY_ROUNDS (lookup_round p) tt) (λ r w', r = inr (fst wr, id) ∧ w' = w1) w1) as Hwp.
  { apply wp_iter_first. eapply (wp_run _ _ _ (inr (fst wr, id)) w1); [| by eexists].
    unfold lookup_round. run gets_run. change (bw_root w1) with (bw_root w). unfold DC_FAST_ID.
    run Erun. by run (lookup_moved_run w1 N T P R1 l' Hl'). }
  destruct (wp_inv _ _ _ Hwp) as (r & w' & Eq & -> & ->).
  unfold dc_lookup. eapply bind_run; [done |]. cbn beta. fold w1. run Eq. eapply bind_run; [done |].
  cbn beta. unfold st_ret. change (bw_nest w1) with (S (bw_nest w)). unfold w1. rewrite <- (set_nest_id w) at 3.
  f_equal. f_equal; [| by destruct w].
  unfold wr, walk_res in *. change (bw_root w1) with (bw_root w) in *.
  destruct (rep_root _ _ _ _ R) as (rn & Hr & _ & _ & Hpos).
  destruct (pnames p) as [| nm names] eqn:En.
  { simpl in *. unfold state_of. rewrite Hr, Hpos. by rewrite (Hid _ eq_refl). }
  destruct (nwalk (bw_root w) N (bw_root w) (nm :: names)) as [d |] eqn:Ew; [| done].
  destruct (nwalk_dom _ _ _ _ _ ltac:(by eexists) Ew) as [n Hn]. rewrite Hn in *.
  rewrite (lookup_result_is N d n Hn). simpl in *. unfold res_of. destruct (n_pos n); simpl; [| done].
  by rewrite (Hid _ eq_refl).
Qed.

(** ** The writers' resolve *)

(** A world that differs from [w] in the LRU alone. *)
Definition only_lru (w w' : bworld) : Prop := w' = set_lru (bw_lru w') w.

Lemma only_lru_refl w : only_lru w w.
Proof. unfold only_lru. by destruct w. Qed.

Lemma only_lru_trans w1 w2 w3 : only_lru w1 w2 → only_lru w2 w3 → only_lru w1 w3.
Proof. unfold only_lru. intros E1 E2. rewrite E2, E1. done. Qed.

Lemma rep_set_lru w N T P s :
  rep w N T P → lru_rep (dom (bw_dent w)) N P s → rep (set_lru s w) N T P.
Proof. intros [] Hs. by constructor. Qed.

Lemma rep_word w N T P d :
  rep w N T P → is_Some (bw_dent w !! d) → ∃ v, words (bw_lru w) !! d = Some v ∧ word_is N P d v.
Proof.
  intros R Hd. destruct (r_lru _ _ _ _ R) as [_ Hdom Hw].
  assert (is_Some (words (bw_lru w) !! d)) as [v Hv].
  { apply elem_of_dom. rewrite Hdom. by apply elem_of_dom. }
  eauto.
Qed.

(** The words after one of them changed to another admissible one. *)
Lemma lru_rep_word D N P s s' d v :
  lru_rep D N P s → lru_is s' (<[d := v]> (words s)) → d ∈ D → word_is N P d v → lru_rep D N P s'.
Proof.
  intros [Hs Hd Hw] Hs' HdD Hv. pose proof Hs' as (_ & _ & E).
  split; rewrite E; [done | |].
  - rewrite dom_insert_L, Hd. set_solver.
  - intros x u. destruct (decide (d = x)) as [<- |].
    + rewrite lookup_insert_eq. by intros [= <-].
    + rewrite lookup_insert_ne by done. apply Hw.
Qed.

Lemma wp_lru_retain' w N T P h :
  rep w N T P → is_Some (N !! h) →
  wp (lru_retain h) (λ _ w', only_lru w w' ∧ rep w' N T P) w.
Proof.
  intros R [n Hn]. destruct (rep_top _ _ _ _ R h n Hn) as (t & x & tx & Ht & E).
  pose proof (en_host _ _ _ _ _ _ E) as Hx. destruct (rep_aligned _ _ _ _ R h ltac:(by eexists)) as [_ H0].
  assert (h ∈ dom (bw_dent w)) as HhD by (apply elem_of_dom; by eexists).
  destruct (rep_word w N T P h R ltac:(by eexists)) as (v & Hv & Hword).
  destruct (words_lookup_inv _ _ _ Hv) as (ln & Hln & Hsh). pose proof (r_lru _ _ _ _ R) as HL.
  unfold lru_retain, on_lru, lru_listed. wp_step. wp_step. wp_step. eapply wp_lookup; [done |]. wp_step.
  rewrite Hsh. replace (set_lru (bw_lru w) w) with w by (by destruct w).
  unfold word_is in Hword. rewrite Hn in Hword. destruct Hword as [-> | (i & Hi & ->)].
  - change (DC_LRU_IS_OWNED DC_LRU_OFF) with false. cbv iota.
    unfold lru_add, on_lru. wp_step. wp_step. wp_step. wp_step.
    pose proof (lr_is _ _ _ _ HL) as ((L & [Hll _]) & _).
    eapply wp_run; [apply shard_index_run; by eapply ll_size |].
    replace (set_lru (bw_lru w) w) with w by (by destruct w).
    wp_step. unfold lru_alive_hint.
    assert (∃ b, marks (bw_hash w) !! h = Some b) as [b Hb].
    { apply elem_of_dom. by rewrite (r_hmarks _ _ _ _ R). }
    wp_step. eapply wp_run; [by apply (marked_run _ _ _ _ R) |]. wp_step.
    destruct b; simpl; [wp_step; split; [apply only_lru_refl | done] |].
    wp_step. wp_use wp_lru_add_claim'; [apply HL | done | apply lru_nid_lt | done |].
    intros _ s' Hs'. split; [done |]. apply rep_set_lru; [done |].
    eapply lru_rep_word; [done | exact Hs' | done |]. unfold word_is. rewrite Hn. right.
    eauto using lru_nid_lt.
  - rewrite on_owned by done. wp_step. wp_step. eapply wp_lookup; [done |].
    replace (set_lru (bw_lru w) w) with w by (by destruct w).
    apply wp_when; intros _; [| split; [apply only_lru_refl | done]].
    wp_step. eapply wp_run; [by eapply lnode_store_ok |]. split; [done |].
    apply rep_set_lru; [done |]. destruct HL as [H1 H2 H3].
    assert (words {| ls_one := ls_one (bw_lru w); ls_node := alter (set_lref true) h (ls_node (bw_lru w)) |}
            = words (bw_lru w)) as Ew by (by apply words_alter).
    split; rewrite Ew; [by eapply lru_is_ref | done | done].
Qed.

Lemma wp_resolve_loop p k : ∀ w N T P i cur,
  rep w N T P → path_wf p → (i + k ≤ ndepth p)%nat → is_Some (N !! cur) →
  wp (resolve_loop p k i cur) (λ r w', only_lru w w' ∧ rep w' N T P ∧
    r = default 0 (nwalk (bw_root w) N cur (take k (drop i (pnames p))))) w.
Proof.
  induction k as [| k IH]; intros w N T P i cur R Hp Hi Hcur.
  { simpl. wp_step. by split_and!; [apply only_lru_refl | |]. }
  destruct (path_comp_is_Some p i Hp ltac:(lia)) as (q & Hq & Hqw).
  assert (pnames p !! i = Some (qname q)) as Hn by (apply pnames_lookup; [lia | done]).
  rewrite (drop_S _ _ _ Hn). simpl. unfold comp_at, path_comp. rewrite Hq. wp_step. wp_step. wp_step.
  eapply wp_run; [by apply (child_lookup_run' w N T P) |].
  destruct (child (bw_root w) N cur (qname q)) as [h |] eqn:Ec; simpl.
  2:{ wp_step. by split_and!; [apply only_lru_refl | |]. }
  destruct (Z.eqb_spec h 0) as [-> | _]; [by apply (child_nonzero _ _ _ _ R) in Ec |].
  pose proof (child_Some_1 _ _ _ _ _ Ec) as (_ & n & Hnn & _).
  wp_step. wp_use wp_lru_retain'; [done | by eexists |]. intros _ w1 [Ho1 R1].
  wp_use IH; [done | done | lia | by eexists |]. intros r w2 (Ho2 & R2 & ->).
  split_and!; [by eapply only_lru_trans | done |].
  assert (bw_root w1 = bw_root w) as -> by (rewrite Ho1; done). done.
Qed.

Lemma wp_bl_resolve w N T P p k :
  rep w N T P → path_wf p → (k ≤ ndepth p)%nat →
  wp (resolve p k) (λ r w', only_lru w w' ∧ rep w' N T P ∧
    r = default 0 (nwalk (bw_root w) N (bw_root w) (take k (pnames p)))) w.
Proof.
  intros R Hp Hk. unfold resolve. wp_step. wp_step. destruct (rep_root _ _ _ _ R) as (rn & Hr & _).
  wp_use wp_resolve_loop; [done | done | done | by eexists |]. by rewrite drop_0.
Qed.

(** ** The readers' descent *)

Lemma descend_run w N T P p k : ∀ i cur,
  rep w N T P → path_wf p → (i + k ≤ ndepth p)%nat →
  descend p k i cur w = Ok (default 0 (nwalk (bw_root w) N cur (take k (drop i (pnames p)))), w).
Proof.
  induction k as [| k IH]; intros i cur R Hp Hi; [done |].
  destruct (path_comp_is_Some p i Hp ltac:(lia)) as (q & Hq & Hqw).
  assert (pnames p !! i = Some (qname q)) as Hn by (apply pnames_lookup; [lia | done]).
  rewrite (drop_S _ _ _ Hn). simpl. unfold comp_at, path_comp. rewrite Hq.
  unfold st_bind at 1. unfold st_ret at 1.
  run (child_lookup_run w N T P R); [done |].
  destruct (child (bw_root w) N cur (qname q)) as [h |] eqn:Ec; simpl; [| done].
  destruct (Z.eqb_spec h 0) as [-> | _]; [by apply (child_nonzero _ _ _ _ R) in Ec |].
  apply IH; [done | done | lia].
Qed.

(** [dc_lookup_dentry]: the host of a positive entry, NULL otherwise. *)
Lemma dc_lookup_dentry_run w N T P p :
  rep w N T P → path_wf p →
  dc_lookup_dentry p w = Ok (default 0 (snd (lookup_result N (nwalk (bw_root w) N (bw_root w) (pnames p)))), w).
Proof.
  intros R Hp. unfold dc_lookup_dentry. eapply bind_run; [done |]. cbn beta.
  pose proof (rep_nest (S (bw_nest w)) _ _ _ _ R) as R1. set (w1 := set_nest _ w) in *.
  assert (∀ (pos : bool) d, (rcu_read_unlock ;;; st_ret (if pos then d else 0)) w1
    = Ok (if pos then d else 0, w)) as Eend.
  { intros pos d. unfold w1, st_bind, rcu_read_unlock, st_ret. simpl. by destruct w. }
  run gets_run. run (descend_run w1 N T P p (ndepth p) 0 (bw_root w1) R1 Hp ltac:(lia)).
  rewrite drop_0, take_ge by (rewrite length_pnames by done; lia).
  change (bw_root w1) with (bw_root w).
  destruct (rep_root _ _ _ _ R) as (rn & Hr & _).
  destruct (nwalk (bw_root w) N (bw_root w) (pnames p)) as [h |] eqn:Ew; cbn [default id];
    [| eapply bind_run; [done | apply Eend]].
  destruct (nwalk_dom _ _ _ _ _ ltac:(by eexists) Ew) as [n Hn].
  destruct (rep_top _ _ _ _ R1 h n Hn) as (t & x & tx & Ht & E).
  destruct (rep_aligned _ _ _ _ R1 h ltac:(by eexists)) as [_ H0]. destruct (Z.eqb_spec h 0); [done |].
  destruct (entry_ok _ _ _ _ R1 h n t x tx Ht Hn E) as [Hok _].
  run node_is_positive_run; [apply (en_host _ _ _ _ _ _ E) | done |].
  rewrite (lookup_result_is N h n Hn), (en_pos _ _ _ _ _ _ E), Eend. by destruct (n_pos n).
Qed.
