(* ===== verification/BlLocks.v ===== *)
(** Locking the heads of dcache_bucketlock.c: what [bl_lock2], [bl_lock_n] and
    their unlocks do to the lock bits, that they change nothing else, and that
    several heads are taken once each, in the order of their addresses. *)

From Stdlib Require Import Sorted.
From S2P Require Import Prelude Qstr HList Lru World Namespace BlChain BlLists BlLru BlLruSpec.
From S2P Require Import BlWorld BlWalk BlInv BlReads.

(** The lock bit of a head. *)
Definition hbit (w : bworld) (h : head) : option bool :=
  match h with Bucket i => bits (bw_hash w) !! i | ChildHead d => bits (bw_sib w) !! d end.

(** Exactly the heads of [hs] are locked. *)
Definition held (w : bworld) (hs : list head) : Prop :=
  ∀ h b, hbit w h = Some b → b = bool_decide (h ∈ hs).

Lemma unlocked_held w : unlocked (bw_hash w) ∧ unlocked (bw_sib w) ↔ held w [].
Proof.
  split.
  - intros [H1 H2] [i | d] b Hb; [by apply (H1 i) | by apply (H2 d)].
  - intros H. split; intros i b Hb; [by apply (H (Bucket i)) | by apply (H (ChildHead i))].
Qed.

(** Worlds that differ in lock bits alone. *)
Record relock (w w' : bworld) : Prop := {
  rl_world : w' = set_hash (bw_hash w') (set_sib (bw_sib w') w);
  rl_rep : ∀ N T P, rep w N T P → rep w' N T P;
}.

Lemma relock_refl w : relock w w.
Proof. split; [by destruct w | done]. Qed.

Lemma relock_trans w1 w2 w3 : relock w1 w2 → relock w2 w3 → relock w1 w3.
Proof. intros [E1 H1] [E2 H2]. split; [by rewrite E2, E1 | auto]. Qed.

Lemma relock_dent w w' : relock w w' → bw_dent w' = bw_dent w.
Proof. intros [-> _]. done. Qed.

(** ** One head *)

Lemma rep_set_hash w N T P c :
  rep w N T P → (∀ C, chain_has (bw_hash w) C → chain_has c C) →
  dom (bits c) = dom (bits (bw_hash w)) → c_node c = c_node (bw_hash w) → rep (set_hash c w) N T P.
Proof.
  intros [] Hc Hd Hn. assert (marks c = marks (bw_hash w)) as Em by (unfold marks; by rewrite Hn).
  constructor; bsimpl; rewrite ?Em; try done.
  - destruct r_hash as (C & ? & ?). eauto.
  - intros i. by rewrite <- elem_of_dom, Hd, elem_of_dom.
Qed.

Lemma rep_set_sib w N T P c :
  rep w N T P → (∀ C, chain_has (bw_sib w) C → chain_has c C) →
  dom (bits c) = dom (bits (bw_sib w)) → c_node c = c_node (bw_sib w) → rep (set_sib c w) N T P.
Proof.
  intros [] Hc Hd Hn. assert (marks c = marks (bw_sib w)) as Em by (unfold marks; by rewrite Hn).
  constructor; bsimpl; rewrite ?Em, ?Hd; try done. destruct r_sib as (C & ? & ?). eauto.
Qed.

(** What an action on one head word does: it returns, and sets the bit. *)
Definition sets_bit (m : Z → ST chn unit) (i : Z) (b : bool) (c : chn) : Prop :=
  ∃ c', m i c = Ok (tt, c') ∧ c_node c' = c_node c ∧ bits c' = <[i := b]> (bits c) ∧
    ∀ C, chain_has c C → chain_has c' C.

Lemma sets_bit_intro m i b c C :
  chain_has c C →
  (∀ C', chain_has c C' → wp (m i)
     (λ _ c', chain_is c' C' (<[i := b]> (bits c)) (marks c) ∧ c_node c' = c_node c) c) →
  sets_bit m i b c.
Proof.
  intros HC Hm. destruct (wp_inv _ _ _ (Hm C HC)) as ([] & c' & E & H1 & H2). exists c'.
  split_and!; [done | done | by apply chain_is_bits in H1 as [] |].
  intros C' HC'. specialize (Hm C' HC'). unfold wp in Hm. rewrite E in Hm.
  destruct Hm as [Hm _]. by apply chain_is_has in Hm as [? _].
Qed.

Lemma bl_lock_sets c C i : chain_has c C → bits c !! i = Some false → sets_bit bl_lock i true c.
Proof. intros HC Hi. eapply sets_bit_intro; [done |]. intros C' HC'. by apply wp_chain_lock. Qed.

Lemma bl_unlock_sets c C i b : chain_has c C → bits c !! i = Some b → sets_bit bl_unlock i false c.
Proof. intros HC Hi. eapply sets_bit_intro; [done |]. intros C' HC'. by apply (wp_chain_unlock _ _ _ _ HC' i b). Qed.

Definition on_head (m : Z → ST chn unit) (h : head) : M unit :=
  match h with Bucket i => on_hash (m i) | ChildHead d => on_sib (m d) end.

Lemma wp_on_head w m h b b0 :
  hbit w h = Some b0 →
  match h with Bucket i => sets_bit m i b (bw_hash w) | ChildHead d => sets_bit m d b (bw_sib w) end →
  wp (on_head m h) (λ _ w', relock w w' ∧
    ∀ h', hbit w' h' = if decide (h' = h) then Some b else hbit w h') w.
Proof.
  intros Hb0 Hs. destruct h as [i | d]; simpl in *; destruct Hs as (c' & E & Hn & Hb & HC);
    apply wp_zoom; (eapply wp_run; [exact E |]); cbn beta.
  - assert (dom (bits c') = dom (bits (bw_hash w))) by (rewrite Hb; apply dom_insert_lookup_L; eauto).
    split; [split; [by destruct w |] |].
    + intros. by apply rep_set_hash.
    + intros [j | d]; simpl; [| done]. rewrite Hb.
      destruct (decide (Bucket j = Bucket i)) as [[= ->] | Hne]; [by rewrite lookup_insert_eq |].
      rewrite lookup_insert_ne; [done | congruence].
  - assert (dom (bits c') = dom (bits (bw_sib w))) by (rewrite Hb; apply dom_insert_lookup_L; eauto).
    split; [split; [by destruct w |] |].
    + intros. by apply rep_set_sib.
    + intros [j | j]; simpl; [done |]. rewrite Hb.
      destruct (decide (ChildHead j = ChildHead d)) as [[= ->] | Hne]; [by rewrite lookup_insert_eq |].
      rewrite lookup_insert_ne; [done | congruence].
Qed.

Section locks.
Context (w : bworld) N T P (R : rep w N T P).

Lemma wp_lock_head h :
  hbit w h = Some false →
  wp (lock_head h) (λ _ w', relock w w' ∧
    ∀ h', hbit w' h' = if decide (h' = h) then Some true else hbit w h') w.
Proof.
  intros Hb. change (lock_head h) with (on_head bl_lock h). eapply wp_on_head; [done |].
  destruct h; [destruct (r_hash _ _ _ _ R) as (C & HC & _) | destruct (r_sib _ _ _ _ R) as (C & HC & _)];
    by eapply bl_lock_sets.
Qed.

Lemma wp_unlock_head h b :
  hbit w h = Some b →
  wp (unlock_head h) (λ _ w', relock w w' ∧
    ∀ h', hbit w' h' = if decide (h' = h) then Some false else hbit w h') w.
Proof.
  intros Hb. change (unlock_head h) with (on_head bl_unlock h). eapply wp_on_head; [done |].
  destruct h; [destruct (r_hash _ _ _ _ R) as (C & HC & _) | destruct (r_sib _ _ _ _ R) as (C & HC & _)];
    by eapply bl_unlock_sets.
Qed.
End locks.

(** ** Several heads *)

(** The heads of [hs] exist. *)
Definition heads_ok (w : bworld) (hs : list head) : Prop := ∀ h, h ∈ hs → is_Some (hbit w h).

Lemma wp_lock_iter hs : ∀ w N T P,
  rep w N T P → NoDup hs → (∀ h, h ∈ hs → hbit w h = Some false) →
  wp (st_iter lock_head hs) (λ _ w', relock w w' ∧
    ∀ h', hbit w' h' = if decide (h' ∈ hs) then Some true else hbit w h') w.
Proof.
  induction hs as [| h hs IH]; intros w N T P R Hnd Hf; simpl.
  { wp_step. split; [apply relock_refl |]. done. }
  apply NoDup_cons in Hnd as [Hh Hnd]. wp_step.
  wp_use wp_lock_head; [done | apply Hf; left |]. intros [] w1 [Hr1 Hb1].
  wp_use (IH w1 N T P); [by apply Hr1 | done | |].
  - intros h' Hh'. rewrite Hb1. destruct (decide (h' = h)) as [-> |]; [done |]. apply Hf. by right.
  - intros [] w2 [Hr2 Hb2]. split; [by eapply relock_trans |]. intros h'. rewrite Hb2, Hb1.
    destruct (decide (h' ∈ hs)), (decide (h' = h)), (decide (h' ∈ h :: hs)) as [Hin | Hin];
      try done; set_solver.
Qed.

Lemma wp_unlock_iter hs : ∀ w N T P,
  rep w N T P → heads_ok w hs →
  wp (st_iter unlock_head hs) (λ _ w', relock w w' ∧
    ∀ h', hbit w' h' = if decide (h' ∈ hs) then Some false else hbit w h') w.
Proof.
  induction hs as [| h hs IH]; intros w N T P R Hok; simpl.
  { wp_step. split; [apply relock_refl |]. done. }
  destruct (Hok h ltac:(left)) as [b Hb]. wp_step.
  wp_use wp_unlock_head; [done | done |]. intros [] w1 [Hr1 Hb1].
  wp_use (IH w1 N T P); [by apply Hr1 | |].
  - intros h' Hh'. rewrite Hb1. destruct (decide (h' = h)); [by eexists |]. apply Hok. by right.
  - intros [] w2 [Hr2 Hb2]. split; [by eapply relock_trans |]. intros h'. rewrite Hb2, Hb1.
    destruct (decide (h' ∈ hs)), (decide (h' = h)), (decide (h' ∈ h :: hs)) as [Hin | Hin];
      try done; set_solver.
Qed.

Section order.
Context `{LayoutOk}.

Lemma same_head_spec x y : same_head x y = bool_decide (x = y).
Proof.
  unfold same_head. destruct (Z.eqb_spec (head_addr x) (head_addr y)) as [E | E].
  - rewrite bool_decide_eq_true_2; [done |]. by apply head_addr_inj.
  - rewrite bool_decide_eq_false_2; [done |]. by intros ->.
Qed.

Lemma elem_of_sort_insert k l x : x ∈ sort_insert k l ↔ x = k ∨ x ∈ l.
Proof. induction l as [| y l IH]; simpl; [set_solver |]. case_match; set_solver. Qed.

Definition addr_le (x y : head) : Prop := head_addr x ≤ head_addr y.
Definition addr_lt (x y : head) : Prop := head_addr x < head_addr y.

Lemma sort_insert_sorted k l : StronglySorted addr_le l → StronglySorted addr_le (sort_insert k l).
Proof.
  induction l as [| y l IH]; intros Hl; simpl; [repeat constructor |].
  apply StronglySorted_inv in Hl as [Hl Hy]. destruct (Z.leb_spec (head_addr y) (head_addr k)).
  - constructor; [by apply IH |]. apply List.Forall_forall. intros x Hx%list_elem_of_In.
    apply elem_of_sort_insert in Hx as [-> | Hx]; [done |].
    by apply (proj1 (List.Forall_forall _ _) Hy), list_elem_of_In.
  - constructor; [by constructor |]. constructor; [unfold addr_le; lia |].
    eapply List.Forall_impl; [| exact Hy]. unfold addr_le. intros. lia.
Qed.

Lemma sort_heads_gen hs : ∀ acc, StronglySorted addr_le acc →
  StronglySorted addr_le (foldl (λ s k, sort_insert k s) acc hs) ∧
  ∀ x, x ∈ foldl (λ s k, sort_insert k s) acc hs ↔ x ∈ acc ∨ x ∈ hs.
Proof.
  induction hs as [| h hs IH]; intros acc Ha; simpl; [split; [done |]; set_solver |].
  destruct (IH (sort_insert h acc) (sort_insert_sorted _ _ Ha)) as [H1 H2]. split; [done |].
  intros x. rewrite H2, elem_of_sort_insert. set_solver.
Qed.

Lemma sort_heads_sorted hs : StronglySorted addr_le (sort_heads hs).
Proof. by apply sort_heads_gen, SSorted_nil. Qed.

Lemma elem_of_sort_heads hs x : x ∈ sort_heads hs ↔ x ∈ hs.
Proof. unfold sort_heads. rewrite (proj2 (sort_heads_gen hs [] (SSorted_nil _)) x). set_solver. Qed.

(** Skipping the coincident heads of a sorted array leaves each once, still in
    order. *)
Lemma skip_dups_from p l :
  StronglySorted addr_le l → Forall (addr_le p) l →
  StronglySorted addr_lt (skip_dups (Some p) l) ∧ Forall (addr_lt p) (skip_dups (Some p) l) ∧
  ∀ x, x ∈ p :: skip_dups (Some p) l ↔ x ∈ p :: l.
Proof.
  revert p. induction l as [| y l IH]; intros p Hl Hp; simpl; [split_and!; [constructor | constructor | done] |].
  apply StronglySorted_inv in Hl as [Hl Hy]. apply Forall_cons in Hp as [Hpy Hp].
  destruct (IH y Hl Hy) as (I1 & I2 & I3). rewrite same_head_spec. case_bool_decide as E.
  - subst y. split_and!; [done | done |]. intros x. rewrite I3. set_solver.
  - assert (addr_lt p y) as Hlt.
    { unfold addr_lt, addr_le in *. assert (head_addr p ≠ head_addr y) by (by intros ?%head_addr_inj). lia. }
    split_and!; [by constructor | |].
    + constructor; [done |]. eapply List.Forall_impl; [| exact I2]. unfold addr_lt in *. intros. lia.
    + intros x. rewrite elem_of_cons, I3. set_solver.
Qed.

Lemma skip_dups_spec l :
  StronglySorted addr_le l →
  StronglySorted addr_lt (skip_dups None l) ∧ ∀ x, x ∈ skip_dups None l ↔ x ∈ l.
Proof.
  destruct l as [| y l]; simpl; [split; [constructor | done] |].
  intros [Hl Hy]%StronglySorted_inv.
  destruct (skip_dups_from y l Hl Hy) as (I1 & I2 & I3). split; [by constructor | done].
Qed.

Lemma addr_lt_nodup l : StronglySorted addr_lt l → NoDup l.
Proof.
  induction 1 as [| x l Hl IH Hx]; constructor; [| done].
  intros Hin%list_elem_of_In. apply (proj1 (List.Forall_forall _ _) Hx) in Hin. unfold addr_lt in Hin. lia.
Qed.

(** What [bl_lock_n] takes. *)
Definition lock_order (hs : list head) : list head := skip_dups None (sort_heads hs).

Lemma lock_order_sorted hs : StronglySorted addr_lt (lock_order hs).
Proof. apply skip_dups_spec, sort_heads_sorted. Qed.

Lemma elem_of_lock_order hs x : x ∈ lock_order hs ↔ x ∈ hs.
Proof. unfold lock_order. rewrite (proj2 (skip_dups_spec _ (sort_heads_sorted hs))). apply elem_of_sort_heads. Qed.

Section with_rep.
Context (w : bworld) N T P (R : rep w N T P).

Lemma wp_bl_lock_n hs :
  held w [] → heads_ok w hs →
  wp (bl_lock_n hs) (λ s w', s = sort_heads hs ∧ relock w w' ∧ held w' hs) w.
Proof.
  intros Hh Hok. unfold bl_lock_n. wp_step. change (skip_dups None (sort_heads hs)) with (lock_order hs).
  wp_use wp_lock_iter; [done | apply addr_lt_nodup, lock_order_sorted | |].
  - intros h Hin. rewrite elem_of_lock_order in Hin. destruct (Hok h Hin) as [b Hb]. pose proof (Hh h b Hb) as ->. by rewrite Hb.
  - intros [] w' [Hr Hb]. wp_step. split_and!; [done | done |]. intros h b. rewrite Hb.
    destruct (decide (h ∈ lock_order hs)) as [Hin | Hin].
    + intros [= <-]. symmetry. by apply bool_decide_eq_true_2, elem_of_lock_order.
    + intros ->%Hh. rewrite !bool_decide_eq_false_2; [done | by rewrite <- elem_of_lock_order | apply not_elem_of_nil].
Qed.

Lemma wp_bl_unlock_n hs :
  held w hs → heads_ok w hs →
  wp (bl_unlock_n (sort_heads hs)) (λ _ w', relock w w' ∧ held w' []) w.
Proof.
  intros Hh Hok. unfold bl_unlock_n. change (skip_dups None (sort_heads hs)) with (lock_order hs).
  wp_use wp_unlock_iter; [done | |].
  - intros h Hin. rewrite elem_of_lock_order in Hin. by apply Hok.
  - intros [] w' [Hr Hb]. split; [done |]. intros h b. rewrite Hb, bool_decide_eq_false_2 by apply not_elem_of_nil.
    destruct (decide (h ∈ lock_order hs)) as [Hin | Hin]; [by intros [= <-] |].
    intros ->%Hh. apply bool_decide_eq_false_2. by rewrite <- elem_of_lock_order.
Qed.

Lemma wp_bl_lock2 x y :
  held w [] → heads_ok w [x; y] → wp (bl_lock2 x y) (λ _ w', relock w w' ∧ held w' [x; y]) w.
Proof.
  intros Hh Hok.
  assert (∀ hs, NoDup hs → (∀ h, h ∈ hs ↔ h ∈ [x; y]) →
    wp (st_iter lock_head hs) (λ _ w', relock w w' ∧ held w' [x; y]) w) as Hg.
  { intros hs Hnd Hin. wp_use wp_lock_iter; [done | done | |].
    - intros h [b Hb]%Hin%Hok. pose proof (Hh h b Hb) as ->. by rewrite Hb.
    - intros [] w' [Hr Hb]. split; [done |]. intros h b. rewrite Hb.
      destruct (decide (h ∈ hs)) as [Hi | Hi].
      + intros [= <-]. symmetry. by apply bool_decide_eq_true_2, Hin.
      + intros ->%Hh. rewrite !bool_decide_eq_false_2; [done | by rewrite <- Hin | apply not_elem_of_nil]. }
  assert (∀ h, st_iter lock_head [h] w = lock_head h w) as E1.
  { intros h. simpl. unfold st_bind. by destruct (lock_head h w) as [[[] ?] |]. }
  assert (∀ h k, st_iter lock_head [h; k] w = (lock_head h ;;; lock_head k) w) as E2.
  { intros h k. simpl. unfold st_bind. destruct (lock_head h w) as [[[] w1] |]; [| done].
    by destruct (lock_head k w1) as [[[] ?] |]. }
  unfold bl_lock2. rewrite same_head_spec. case_bool_decide as E.
  - subst y. unfold wp. rewrite <- E1. apply Hg; [apply NoDup_singleton | set_solver].
  - assert (NoDup [x; y] ∧ NoDup [y; x]) as [N1 N2] by (split; repeat constructor; set_solver).
    destruct (head_addr x <? head_addr y); unfold wp; rewrite <- E2; apply Hg; set_solver.
Qed.

Lemma wp_bl_unlock2 x y :
  held w [x; y] → heads_ok w [x; y] → wp (bl_unlock2 x y) (λ _ w', relock w w' ∧ held w' []) w.
Proof.
  intros Hh Hok.
  assert (wp (st_iter unlock_head (if decide (x = y) then [x] else [x; y]))
    (λ _ w', relock w w' ∧ held w' []) w) as Hg.
  { wp_use wp_unlock_iter; [done | |].
    - intros h Hi. apply Hok. destruct (decide (x = y)); set_solver.
    - intros [] w' [Hr Hb]. split; [done |]. intros h b. rewrite Hb, bool_decide_eq_false_2 by apply not_elem_of_nil.
      destruct (decide (h ∈ _)) as [Hi | Hi]; [by intros [= <-] |].
      intros ->%Hh. apply bool_decide_eq_false_2. destruct (decide (x = y)); set_solver. }
  unfold bl_unlock2. rewrite same_head_spec. unfold wp in *. revert Hg. unfold st_bind.
  rewrite (bool_decide_decide (x = y)). destruct (decide (x = y)); simpl; unfold st_bind;
    destruct (unlock_head x w) as [[[] w1] |]; try done. by destruct (unlock_head y w1) as [[[] ?] |].
Qed.
End with_rep.
End order.
