(* ===== verification/BlRep.v ===== *)
(** How the representation of a name space changes: a dentry allocated, freed,
    rewritten; an entry published, withdrawn, renamed, folded.  Each lemma takes a
    world that represents a name space to the world after the primitive steps of
    an operation. *)

From S2P Require Import Prelude Qstr HList Lru World Namespace TreeOps BlChain BlLists BlLru.
From S2P Require Import BlLruSpec BlWorld BlWalk BlInv BlReads BlWalkSpec.

(** ** Cells that come and go *)

Section cells.
Context c C B K (H : chain_is c C B K).

Lemma chain_new_node d :
  K !! d = None → chain_is (set_node (<[d := bnode0]> (c_node c)) c) C B (<[d := false]> K).
Proof.
  intros Hd. assert (∀ i, d ∉ C i) as Hout.
  { intros i Hi%(ci_not_fresh _ _ _ _ H). congruence. }
  split; simpl; try apply H.
  - intros i. eapply hseg_frame; [| apply (ci_seg _ _ _ _ H)]. intros x Hx. unfold links.
    rewrite lookup_insert_ne; [done |]. by intros <-; eapply Hout.
  - intros x. destruct (decide (d = x)) as [<- |]; [by rewrite !lookup_insert_eq |].
    rewrite !lookup_insert_ne by done. apply H.
  - intros x n. destruct (decide (d = x)) as [<- |].
    + rewrite lookup_insert_eq. intros [= <-]. exists 0. split; [apply aligned_0 | done].
    + rewrite lookup_insert_ne by done. apply H.
Qed.

Lemma chain_del_node d :
  (∀ i, d ∉ C i) → chain_is (set_node (delete d (c_node c)) c) C B (delete d K).
Proof.
  intros Hout. split; simpl; try apply H.
  - intros i. eapply hseg_frame; [| apply (ci_seg _ _ _ _ H)]. intros x Hx. unfold links.
    rewrite lookup_delete_ne; [done |]. by intros <-; eapply Hout.
  - intros x. destruct (decide (d = x)) as [<- |]; [by rewrite !lookup_delete_eq |].
    rewrite !lookup_delete_ne by done. apply H.
  - intros x n [_ Hx]%lookup_delete_Some. by eapply ci_link.
Qed.

Lemma chain_new_head d :
  B !! d = None → chain_is (set_first (<[d := 0]> (c_first c)) c) C (<[d := false]> B) K.
Proof.
  intros Hd. split; simpl; try apply H.
  - intros i. destruct (decide (d = i)) as [<- |].
    + rewrite !lookup_insert_eq. simpl. by rewrite (ci_out _ _ _ _ H d Hd).
    + rewrite !lookup_insert_ne by done. apply H.
  - intros i. destruct (decide (d = i)) as [<- |]; [by rewrite lookup_insert_eq |].
    rewrite lookup_insert_ne by done. apply H.
Qed.

Lemma chain_del_head d :
  C d = [] → chain_is (set_first (delete d (c_first c)) c) C (delete d B) K.
Proof.
  intros Hd. split; simpl; try apply H.
  - intros i. destruct (decide (d = i)) as [<- |]; [by rewrite !lookup_delete_eq |].
    rewrite !lookup_delete_ne by done. apply H.
  - intros i. destruct (decide (d = i)) as [<- |]; [done |].
    rewrite lookup_delete_ne by done. apply H.
Qed.
End cells.

(** ** Allocation *)

Lemma lru_rep_alloc D N P s d :
  lru_rep D N P s → d ∉ D → N !! d = None →
  lru_rep ({[d]} ∪ D) N ({[d]} ∪ P) {| ls_one := ls_one s; ls_node := <[d := lnode0]> (ls_node s) |}.
Proof.
  intros [Hs Hd Hw] Hfresh Hn.
  assert (words s !! d = None) as Hnone by (apply not_elem_of_dom; by rewrite Hd).
  pose proof (lru_is_alloc s _ d Hs Hnone) as Hs'. pose proof Hs' as (_ & _ & E).
  split; rewrite E; [done | rewrite dom_insert_L; by rewrite Hd |].
  intros x v. destruct (decide (d = x)) as [<- |].
  - rewrite lookup_insert_eq. intros [= <-]. unfold word_is. rewrite Hn. by left.
  - rewrite lookup_insert_ne by done. intros Hv%Hw. unfold word_is in *. case_match; [done |].
    destruct Hv as [? | [? | [? ?]]]; [by left | by right; left | right; right; split; [set_solver | done]].
Qed.

Lemma entry_other D h n t x tx d y :
  d ≠ h → d ≠ t → entry D h n t x tx → entry (<[d := y]> D) h n t x tx.
Proof. intros Hh Ht []. by constructor; rewrite ?lookup_insert_ne. Qed.

Lemma entry_deleted D h n t x tx d :
  d ≠ h → d ≠ t → entry D h n t x tx → entry (delete d D) h n t x tx.
Proof. intros Hh Ht []. by constructor; rewrite ?lookup_delete_ne. Qed.

Lemma rep_dom_N w N T P h : rep w N T P → is_Some (N !! h) → is_Some (bw_dent w !! h).
Proof.
  intros R [n Hn]. destruct (rep_top _ _ _ _ R h n Hn) as (t & x & tx & _ & E).
  eexists. apply (en_host _ _ _ _ _ _ E).
Qed.

Lemma rep_dom_T w N T P h t : rep w N T P → T !! h = Some t → is_Some (bw_dent w !! t).
Proof.
  intros R Ht. destruct (rep_live _ _ _ _ R h t Ht) as (n & x & tx & _ & E).
  eexists. apply (en_top _ _ _ _ _ _ E).
Qed.

Lemma rep_alloc w N T P d x :
  rep w N T P → bw_dent w !! d = None → aligned d → d ≠ 0 →
  rep (alloc_dent d x w) N T ({[d]} ∪ P).
Proof.
  intros R Hd Ha H0.
  assert (N !! d = None) as HNd.
  { destruct (N !! d) eqn:E; [| done]. destruct (rep_dom_N _ _ _ _ d R ltac:(by eexists)). congruence. }
  assert (∀ h, T !! h ≠ Some d) as HTd.
  { intros h Ht. destruct (rep_dom_T _ _ _ _ h d R Ht). congruence. }
  assert (∀ (b : bool) (m : gmap Z bool), m !! d = Some b → dom m = dom (bw_dent w) → False) as Hout.
  { intros b m Hm E. apply (not_elem_of_dom (bw_dent w)) in Hd. rewrite <- E in Hd. apply Hd, elem_of_dom.
    by exists b. }
  assert (marks (bw_hash w) !! d = None ∧ marks (bw_sib w) !! d = None ∧ bits (bw_sib w) !! d = None)
    as (Hmh & Hms & Hbs).
  { split_and!; apply eq_None_not_Some; intros [b Hb]; eapply Hout;
      [exact Hb | apply R | exact Hb | apply R | exact Hb | apply R]. }
  destruct (r_hash _ _ _ _ R) as (C & HC & HL). destruct (r_sib _ _ _ _ R) as (C' & HC' & HL').
  destruct (chain_is_has _ _ _ _ (chain_new_node _ _ _ _ HC d Hmh)) as (G1 & G2 & G3).
  pose proof (chain_new_node _ _ _ _ HC' d Hms) as HC2.
  destruct (chain_is_has _ _ _ _ (chain_new_head _ _ _ _ HC2 d Hbs)) as (G4 & G5 & G6).
  unfold set_node, set_first in G1, G2, G3, G4, G5, G6. simpl in G4, G5, G6.
  destruct R. constructor; unfold alloc_dent; bsimpl; unfold set_node; rewrite ?G2, ?G3, ?G5, ?G6; try done.
  - intros y z. destruct (decide (d = y)) as [<- |].
    + rewrite lookup_insert_eq. intros [= <-]. split_and!; [done | done |]. set_solver.
    + rewrite lookup_insert_ne by done. intros (? & ? & Hok)%r_dent. split_and!; [done | done |].
      intros Hy. apply Hok. set_solver.
  - intros y [->%elem_of_singleton | Hy]%elem_of_union.
    + split_and!; [by rewrite lookup_insert_eq | done | done].
    + destruct (r_priv y Hy) as (Hs & ? & ?). split_and!; [| done | done].
      destruct (decide (d = y)) as [<- |]; [by rewrite lookup_insert_eq | by rewrite lookup_insert_ne].
  - intros h n t Hn Ht. destruct (r_entry h n t Hn Ht) as (y & ty & E). exists y, ty.
    apply entry_other; [congruence | by intros ->; eapply HTd | done].
  - eauto.
  - eauto.
  - rewrite !dom_insert_L. by rewrite r_sbits.
  - rewrite !dom_insert_L. by rewrite r_hmarks.
  - rewrite !dom_insert_L. by rewrite r_smarks.
  - intros h t Ht. rewrite lookup_insert_ne by (by intros ->; eapply HTd). by eapply r_live.
  - intros y z. destruct (decide (d = y)) as [<- |]; [set_solver |].
    rewrite !lookup_insert_ne by done. intros Hy HyP. eapply r_dead; [done | set_solver].
  - rewrite dom_insert_L. apply lru_rep_alloc; [done | by apply not_elem_of_dom | done].
Qed.

(** ** Free *)

Definition free_dent (d : Z) (w : bworld) : bworld :=
  set_dent (delete d (bw_dent w))
  (set_hash (set_node (delete d (c_node (bw_hash w))) (bw_hash w))
  (set_sib {| c_first := delete d (c_first (bw_sib w)); c_node := delete d (c_node (bw_sib w)) |}
  (set_lru {| ls_one := ls_one (bw_lru w); ls_node := delete d (ls_node (bw_lru w)) |} w))).

Lemma dentry_free_run d w : is_Some (bw_dent w !! d) → dentry_free d w = Ok (tt, free_dent d w).
Proof. intros [x Hx]. unfold dentry_free. by rewrite Hx. Qed.

Lemma lru_rep_free D N P s d v :
  lru_rep D N P s → words s !! d = Some v → off_list v →
  lru_rep (D ∖ {[d]}) N (P ∖ {[d]}) {| ls_one := ls_one s; ls_node := delete d (ls_node s) |}.
Proof.
  intros [Hs Hd Hw] Hv Hoff. pose proof (lru_is_free s _ d v Hs Hv Hoff) as Hs'. pose proof Hs' as (_ & _ & E).
  split; rewrite E; [done | rewrite dom_delete_L; by rewrite Hd |].
  intros x u [Hx Hu]%lookup_delete_Some. apply Hw in Hu. unfold word_is in *. case_match; [done |].
  destruct Hu as [? | [? | [? ?]]]; [by left | by right; left | right; right; split; [set_solver | done]].
Qed.

(** Nothing is listed under a dentry that is not in the name space. *)
Lemma no_kids w N T P C d :
  rep w N T P → N !! d = None → lists (bw_root w) N T n_parent C → C d = [].
Proof.
  intros R Hd HL. destruct (C d) as [| t l] eqn:E; [done |].
  destruct (proj1 (HL d t) ltac:(rewrite E; left)) as (h & n & _ & Hn & _ & Hp).
  destruct (tree_parent _ _ h n (r_tree _ _ _ _ R) Hn) as [pn Hpn]. congruence.
Qed.

Lemma not_listed root N T f C d :
  lists root N T f C → (∀ h, T !! h ≠ Some d) → ∀ i, d ∉ C i.
Proof. intros HL HT i (h & n & _ & _ & Ht & _)%HL. by eapply HT. Qed.

Lemma rep_free w N T P d v :
  rep w N T P → is_Some (bw_dent w !! d) → N !! d = None → (∀ h, T !! h ≠ Some d) →
  words (bw_lru w) !! d = Some v → off_list v →
  rep (free_dent d w) N T (P ∖ {[d]}).
Proof.
  intros R Hd HNd HTd Hv Hoff.
  destruct (r_hash _ _ _ _ R) as (C & HC & HL). destruct (r_sib _ _ _ _ R) as (C' & HC' & HL').
  destruct (chain_is_has _ _ _ _ (chain_del_node _ _ _ _ HC d (not_listed _ _ _ _ _ d HL HTd))) as (G1 & G2 & G3).
  pose proof (chain_del_node _ _ _ _ HC' d (not_listed _ _ _ _ _ d HL' HTd)) as HC2.
  destruct (chain_is_has _ _ _ _ (chain_del_head _ _ _ _ HC2 d (no_kids _ _ _ _ _ d R HNd HL')))
    as (G4 & G5 & G6).
  unfold set_node, set_first in G1, G2, G3, G4, G5, G6. simpl in G4, G5, G6.
  destruct R. constructor; unfold free_dent; bsimpl; unfold set_node; rewrite ?G2, ?G3, ?G5, ?G6; try done.
  - intros y z [Hne (? & ? & Hok)%r_dent]%lookup_delete_Some. split_and!; [done | done |].
    intros Hy. apply Hok. set_solver.
  - intros y [Hy Hne]%elem_of_difference. destruct (r_priv y Hy) as (Hs & ? & ?). split_and!; [| done | done].
    rewrite lookup_delete_ne; [done | set_solver].
  - intros h n t Hn Ht. destruct (r_entry h n t Hn Ht) as (y & ty & E). exists y, ty.
    apply entry_deleted; [congruence | by intros ->; eapply HTd | done].
  - eauto.
  - eauto.
  - rewrite !dom_delete_L. by rewrite r_sbits.
  - rewrite !dom_delete_L. by rewrite r_hmarks.
  - rewrite !dom_delete_L. by rewrite r_smarks.
  - intros h t Ht. rewrite lookup_delete_ne by (by intros ->; eapply HTd). by eapply r_live.
  - intros y z [Hne Hy]%lookup_delete_Some HyP. rewrite lookup_delete_ne by done.
    eapply r_dead; [done | set_solver].
  - rewrite dom_delete_L. by eapply lru_rep_free.
Qed.

(** ** Fields rewritten *)

Lemma rep_set_dent w N T P D :
  rep w N T P → dom D = dom (bw_dent w) →
  (∀ d x, D !! d = Some x → d ∉ P → dent_ok x ∧ ∃ x0, bw_dent w !! d = Some x0 ∧ shellb x0 = shellb x) →
  (∀ h n t x tx, N !! h = Some n → T !! h = Some t → entry (bw_dent w) h n t x tx →
     ∃ x' tx', entry D h n t x' tx') →
  rep (set_dent D w) N T P.
Proof.
  intros R Hdom Hok He.
  assert (∀ d, is_Some (D !! d) ↔ is_Some (bw_dent w !! d)) as Hs.
  { intros d. by rewrite <- !elem_of_dom, Hdom. }
  destruct R. constructor; bsimpl; rewrite ?Hdom; try done.
  - intros d x Hx. destruct (proj1 (Hs d) ltac:(by eexists)) as [x0 Hx0].
    destruct (r_dent d x0 Hx0) as (? & ? & _). split_and!; [done | done |]. by apply Hok.
  - intros d Hd. destruct (r_priv d Hd) as (? & ? & ?). split_and!; [by apply Hs | done | done].
  - intros h n t Hn Ht. destruct (r_entry h n t Hn Ht) as (x & tx & E). eauto.
  - intros d x Hx HP Hsh. destruct (Hok d x Hx HP) as (_ & x0 & Hx0 & Es).
    eapply r_dead; [exact Hx0 | done | congruence].
Qed.

(** A dentry that is not published may be rewritten at will. *)
Lemma rep_set_priv w N T P d x :
  rep w N T P → d ∈ P → rep (set_dent (<[d := x]> (bw_dent w)) w) N T P.
Proof.
  intros R Hd. destruct (r_priv _ _ _ _ R d Hd) as ([x0 Hx0] & HN & HT). apply rep_set_dent; [done | | |].
  - apply dom_insert_lookup_L. eauto.
  - intros y z. destruct (decide (d = y)) as [<- |]; [done |]. rewrite lookup_insert_ne by done.
    intros Hy HP. split; [by apply (r_dent _ _ _ _ R y z Hy) | eauto].
  - intros h n t y ty Hn Ht E. exists y, ty. apply entry_other; [congruence | by intros ->; eapply HT | done].
Qed.

(** Two states of a dentry that differ in what no reader of the tree looks at. *)
Definition alike (x y : dent) : Prop :=
  d_iparent x = d_iparent y ∧ d_iname x = d_iname y ∧ d_fwd x = d_fwd y ∧ d_top x = d_top y ∧
  d_isdir x = d_isdir y ∧ d_parent x = d_parent y ∧ d_id x = d_id y.

Lemma alike_ok x y : alike x y → dent_ok y → dent_ok x.
Proof.
  intros (E1 & E2 & E3 & E4 & _ & E5 & _) [].
  by constructor; unfold shellb, posb, ipar in *; rewrite ?E1, ?E2, ?E3, ?E4, ?E5.
Qed.

Lemma entry_alike D h n t x tx d x0 x1 :
  D !! d = Some x0 → alike x1 x0 → entry D h n t x tx →
  entry (<[d := x1]> D) h n t (if decide (d = h) then x1 else x) (if decide (d = t) then x1 else tx).
Proof.
  intros Hd (E1 & E2 & _ & E3 & E4 & E5 & E6) []. unfold shellb, posb, ipar, d_host in *.
  constructor; unfold shellb, posb, ipar, d_host;
    (destruct (decide (d = h)) as [<- |], (decide (d = t)) as [<- |]; simplify_eq;
     rewrite ?lookup_insert_eq, ?lookup_insert_ne by done; congruence || naive_solver congruence).
Qed.

Lemma rep_alike w N T P d x x1 :
  rep w N T P → bw_dent w !! d = Some x → alike x1 x →
  rep (set_dent (<[d := x1]> (bw_dent w)) w) N T P.
Proof.
  intros R Hd Hx. apply rep_set_dent; [done | | |].
  - apply dom_insert_lookup_L. eauto.
  - intros y z. destruct (decide (d = y)) as [<- |].
    + rewrite lookup_insert_eq. intros [= <-] HP. split.
      * eapply alike_ok; [done |]. by apply (r_dent _ _ _ _ R d x Hd).
      * exists x. split; [done |]. unfold shellb. by destruct Hx as (-> & _).
    + rewrite lookup_insert_ne by done. intros Hy HP.
      split; [by apply (r_dent _ _ _ _ R y z Hy) | eauto].
  - intros h n t y ty Hn Ht E. do 2 eexists. by eapply entry_alike.
Qed.

(** ** Lists of tops *)

Section lists.
Context (root : Z) (N : nspace) (T : gmap Z Z) (f : node → Z) (C C' : Z → list Z).
Context (HL : lists root N T f C).

Lemma lists_put d n t :
  d ≠ root → N !! d = None → T !! d = None →
  (∀ j x, x ∈ C' j ↔ x ∈ C j ∨ j = f n ∧ x = t) → lists root (<[d := n]> N) (<[d := t]> T) f C'.
Proof.
  intros Hr HN HT HC j x. rewrite HC, (HL j x). split.
  - intros [(h & m & Hh & Hm & Ht & E) | [-> ->]].
    + exists h, m. rewrite !lookup_insert_ne by congruence. done.
    + exists d, n. by rewrite !lookup_insert_eq.
  - intros (h & m & Hh & Hm & Ht & E). destruct (decide (d = h)) as [<- |].
    + rewrite lookup_insert_eq in Hm; rewrite lookup_insert_eq in Ht. simplify_eq. by right.
    + rewrite lookup_insert_ne in Hm by done; rewrite lookup_insert_ne in Ht by done. left. eauto 10.
Qed.

Lemma lists_cut h t :
  T !! h = Some t → (∀ h', T !! h' = Some t → h' = h) →
  (∀ j x, x ∈ C' j ↔ x ∈ C j ∧ x ≠ t) → lists root (delete h N) (delete h T) f C'.
Proof.
  intros Ht Hinj HC j x. rewrite HC, (HL j x). split.
  - intros [(h' & m & Hh & Hm & Ht' & E) Hne]. exists h', m.
    rewrite !lookup_delete_ne by congruence. done.
  - intros (h' & m & Hh & [? Hm]%lookup_delete_Some & [_ Ht']%lookup_delete_Some & E).
    split; [by eauto 10 |]. intros ->. by apply Hinj in Ht'.
Qed.

Lemma lists_attr h n n' :
  N !! h = Some n → f n' = f n → lists root (<[h := n']> N) T f C.
Proof.
  intros Hn Hf j x. rewrite (HL j x). split.
  - intros (h' & m & Hh & Hm & Ht & E). destruct (decide (h = h')) as [<- |].
    + simplify_eq. exists h, n'. by rewrite lookup_insert_eq.
    + exists h', m. by rewrite lookup_insert_ne.
  - intros (h' & m & Hh & Hm & Ht & E). destruct (decide (h = h')) as [<- |].
    + rewrite lookup_insert_eq in Hm. injection Hm as <-. exists h, n. by rewrite <- Hf.
    + rewrite lookup_insert_ne in Hm by done. eauto 10.
Qed.
End lists.

(** The entry [h] renamed to top [s] and node [n']. *)
Lemma lists_move root N T f C C' h t s n' :
  lists root N T f C → h ≠ root → T !! h = Some t → (∀ h', T !! h' = Some t → h' = h) →
  (∀ j x, x ∈ C' j ↔ x ∈ C j ∧ x ≠ t ∨ j = f n' ∧ x = s) →
  lists root (<[h := n']> N) (<[h := s]> T) f C'.
Proof.
  intros HL Hr Ht Hinj HC. rewrite <- (insert_delete_eq N h n'), <- (insert_delete_eq T h s).
  eapply (lists_put root (delete h N) (delete h T) f (λ j, filter (λ x, x ≠ t) (C j))).
  - eapply lists_cut; [done | done | done |]. intros j x. rewrite list_elem_of_filter. tauto.
  - done.
  - apply lookup_delete_eq.
  - apply lookup_delete_eq.
  - intros j x. rewrite HC, list_elem_of_filter. tauto.
Qed.

(** Members of an edited list. *)
Section edited.
Context c C B K (H : chain_is c C B K).

Lemma in_pushed i d j x : x ∈ (<[i := d :: C i]> C) j ↔ x ∈ C j ∨ j = i ∧ x = d.
Proof.
  destruct (decide (i = j)) as [<- |].
  - rewrite fn_lookup_insert, elem_of_cons. naive_solver.
  - rewrite fn_lookup_insert_ne by done. naive_solver.
Qed.

Lemma in_cut i l1 t l2 j x :
  C i = l1 ++ t :: l2 → x ∈ (<[i := l1 ++ l2]> C) j ↔ x ∈ C j ∧ x ≠ t.
Proof.
  intros E. pose proof (ci_nodup _ _ _ _ H i) as Hnd. rewrite E in Hnd.
  apply NoDup_app in Hnd as (_ & Hd1 & [Hd2 _]%NoDup_cons).
  assert (t ∈ C i) as Ht by (rewrite E; set_solver).
  destruct (decide (i = j)) as [<- | Hne].
  - rewrite fn_lookup_insert, E. set_solver.
  - rewrite fn_lookup_insert_ne by done. split; [| tauto]. intros Hx. split; [done |]. intros ->.
    apply Hne. by eapply (ci_disj _ _ _ _ H).
Qed.

Lemma in_swapped i l1 t l2 s j x :
  C i = l1 ++ t :: l2 → s ∉ C i →
  x ∈ (<[i := l1 ++ s :: l2]> C) j ↔ x ∈ C j ∧ x ≠ t ∨ j = i ∧ x = s.
Proof.
  intros E Hs. rewrite <- (in_cut i l1 t l2 j x E). destruct (decide (i = j)) as [<- | Hne].
  - rewrite !fn_lookup_insert. set_solver.
  - rewrite !fn_lookup_insert_ne by done. naive_solver.
Qed.
End edited.

(** ** The index rewritten *)

Lemma rep_reindex w N T P w' N' T' P' Ch Kh Cs Ks :
  rep w N T P →
  bw_mask w' = bw_mask w → bw_root w' = bw_root w → dom (bw_dent w') = dom (bw_dent w) →
  bw_lru w' = bw_lru w →
  chain_is (bw_hash w') Ch (bits (bw_hash w)) Kh → dom Kh = dom (bw_dent w) →
  lists (bw_root w) N' T' (node_bucket (bw_mask w)) Ch →
  chain_is (bw_sib w') Cs (bits (bw_sib w)) Ks → dom Ks = dom (bw_dent w) →
  lists (bw_root w) N' T' n_parent Cs →
  (∀ d x, bw_dent w' !! d = Some x → d ∉ P' → dent_ok x) →
  (∀ d, d ∈ P' → is_Some (bw_dent w !! d) ∧ N' !! d = None ∧ ∀ h, T' !! h ≠ Some d) →
  dom T' = dom N' →
  (∀ h n t, N' !! h = Some n → T' !! h = Some t → ∃ x tx, entry (bw_dent w') h n t x tx) →
  T' !! bw_root w = Some (bw_root w) →
  (∀ h t, T' !! h = Some t → Kh !! t = Some false) →
  (∀ d x, bw_dent w' !! d = Some x → d ∉ P' → shellb x = true → (∀ h, T' !! h ≠ Some d) →
     Kh !! d = Some true) →
  lru_rep (dom (bw_dent w)) N' P' (bw_lru w) → tree (bw_root w) N' → typed (bw_root w) N' →
  rep w' N' T' P'.
Proof.
  intros R Em Er Ed El Hh Hkh Hlh Hs Hks Hls Hok Hpriv Hdom He Hroot Hlive Hdead HL Ht Hty.
  destruct (chain_is_has _ _ _ _ Hh) as (G1 & G2 & G3). destruct (chain_is_has _ _ _ _ Hs) as (G4 & G5 & G6).
  assert (∀ d, is_Some (bw_dent w' !! d) ↔ is_Some (bw_dent w !! d)) as Hsome.
  { intros d. by rewrite <- !elem_of_dom, Ed. }
  constructor; rewrite ?Em, ?Er, ?Ed, ?El, ?G2, ?G3, ?G5, ?G6; eauto; try apply R.
  - intros d x Hx. destruct (proj1 (Hsome d) ltac:(by eexists)) as [x0 Hx0].
    destruct (r_dent _ _ _ _ R d x0 Hx0) as (? & ? & _). eauto.
  - intros d Hd. destruct (Hpriv d Hd) as (? & ? & ?). split_and!; [by apply Hsome | done | done].
Qed.

(** ** Publish and withdraw *)

Lemma in_minus (P : gset Z) d y : d ≠ y → y ∈ P → y ∈ P ∖ {[d]}.
Proof. set_solver. Qed.
Lemma not_in_minus (P : gset Z) d y : d ≠ y → y ∉ P ∖ {[d]} → y ∉ P.
Proof. set_solver. Qed.
Lemma in_plus (P : gset Z) d y : y ∈ P → y ∈ {[d]} ∪ P.
Proof. set_solver. Qed.
Lemma not_in_plus (P : gset Z) d y : y ∉ {[d]} ∪ P → y ∉ P.
Proof. set_solver. Qed.

Lemma lru_rep_names D N P N' P' s :
  lru_rep D N P s →
  (∀ d v, words s !! d = Some v → word_is N P d v → word_is N' P' d v) → lru_rep D N' P' s.
Proof. intros [Hs Hd Hw] H. split; [done | done |]. eauto. Qed.

Lemma word_is_other N P N' P' d v :
  word_is N P d v → N' !! d = N !! d → (d ∈ P → d ∈ P') → word_is N' P' d v.
Proof.
  unfold word_is. intros Hw -> HP. destruct (N !! d); [done |].
  destruct Hw as [? | [? | [? ?]]]; [by left | by right; left | right; right; split; [by apply HP | done]].
Qed.

Lemma dom_put_mark (K : gmap Z bool) (D : gset Z) d b : dom K = D → d ∈ D → dom (<[d := b]> K) = D.
Proof. intros <- Hd. apply dom_insert_lookup_L. by apply elem_of_dom. Qed.

Lemma rep_publish w N T P d x n v Ch Cs ch cs :
  rep w N T P → d ∈ P → bw_dent w !! d = Some x → dent_ok x → entry (bw_dent w) d n d x x →
  words (bw_lru w) !! d = Some v → v ≠ DC_LRU_DEAD →
  tree (bw_root w) (<[d := n]> N) → typed (bw_root w) (<[d := n]> N) →
  lists (bw_root w) N T (node_bucket (bw_mask w)) Ch → lists (bw_root w) N T n_parent Cs →
  chain_is ch (<[node_bucket (bw_mask w) n := d :: Ch (node_bucket (bw_mask w) n)]> Ch)
    (bits (bw_hash w)) (<[d := false]> (marks (bw_hash w))) →
  chain_is cs (<[n_parent n := d :: Cs (n_parent n)]> Cs)
    (bits (bw_sib w)) (<[d := false]> (marks (bw_sib w))) →
  rep (set_sib cs (set_hash ch w)) (<[d := n]> N) (<[d := d]> T) (P ∖ {[d]}).
Proof.
  intros R Hd Hx Hok He Hv Hdead Ht Hty HLh HLs Hch Hcs.
  destruct (r_priv _ _ _ _ R d Hd) as (_ & HN & HT).
  assert (d ∈ dom (bw_dent w)) as HdD by (apply elem_of_dom; eauto).
  assert (d ≠ bw_root w) as Hr by (intros ->; destruct (rep_root _ _ _ _ R) as (? & ? & _); congruence).
  assert (T !! d = None) as HTd by (apply not_elem_of_dom; rewrite (r_tops _ _ _ _ R); by apply not_elem_of_dom).
  eapply (rep_reindex w N T P); [done | done | done | done | done | exact Hch | | | exact Hcs | | | ..].
  - apply dom_put_mark; [apply R | done].
  - eapply lists_put; [exact HLh | done | done | done |]. intros j y. apply in_pushed.
  - apply dom_put_mark; [apply R | done].
  - eapply lists_put; [exact HLs | done | done | done |]. intros j y. apply in_pushed.
  - intros y z Hy HP. bsimpl in *. destruct (decide (d = y)) as [<- |]; [congruence |].
    apply (r_dent _ _ _ _ R y z Hy). by eapply not_in_minus.
  - intros y [Hy Hyd%not_elem_of_singleton]%elem_of_difference. destruct (r_priv _ _ _ _ R y Hy) as (? & ? & Hy3).
    split_and!; [done | by rewrite lookup_insert_ne |]. intros h.
    destruct (decide (d = h)) as [<- |]; [rewrite lookup_insert_eq; congruence | by rewrite lookup_insert_ne].
  - rewrite !dom_insert_L. by rewrite (r_tops _ _ _ _ R).
  - intros h m t. bsimpl. destruct (decide (d = h)) as [<- |].
    + rewrite !lookup_insert_eq. intros [= <-] [= <-]. eauto.
    + rewrite !lookup_insert_ne by done. apply R.
  - rewrite lookup_insert_ne by done. apply R.
  - intros h t. destruct (decide (d = h)) as [<- |].
    + rewrite lookup_insert_eq. intros [= <-]. apply lookup_insert_eq.
    + rewrite lookup_insert_ne by done. intros Ht'. rewrite lookup_insert_ne by (by intros <-; eapply HT).
      by apply (r_live _ _ _ _ R h).
  - intros y z Hy HP Hs Hno. bsimpl in *. destruct (decide (d = y)) as [<- | Hne].
    { by destruct (Hno d); rewrite lookup_insert_eq. }
    rewrite lookup_insert_ne by done. eapply (r_dead _ _ _ _ R); [exact Hy | by eapply not_in_minus | done |].
    intros h Hh. apply (Hno h). rewrite lookup_insert_ne; [done |]. congruence.
  - eapply lru_rep_names; [apply R |]. intros y u Hu Hw. destruct (decide (d = y)) as [<- |].
    + unfold word_is in *. rewrite lookup_insert_eq. rewrite HN in Hw.
      assert (u = v) as -> by congruence. destruct Hw as [? | [? | [_ ?]]]; [by left | done | by right].
    + eapply word_is_other; [exact Hw | by rewrite lookup_insert_ne | by apply in_minus].
  - done.
  - done.
Qed.

Lemma rep_withdraw w N T P h t Ch Cs Ch' Cs' ch cs :
  rep w N T P → T !! h = Some t → h ≠ bw_root w → kids (bw_root w) N h = [] →
  lists (bw_root w) N T (node_bucket (bw_mask w)) Ch → lists (bw_root w) N T n_parent Cs →
  chain_is ch Ch' (bits (bw_hash w)) (<[t := true]> (marks (bw_hash w))) →
  (∀ j x, x ∈ Ch' j ↔ x ∈ Ch j ∧ x ≠ t) →
  chain_is cs Cs' (bits (bw_sib w)) (<[t := true]> (marks (bw_sib w))) →
  (∀ j x, x ∈ Cs' j ↔ x ∈ Cs j ∧ x ≠ t) →
  rep (set_sib cs (set_hash ch w)) (delete h N) (delete h T) ({[h]} ∪ P).
Proof.
  intros R Ht Hr Hk HLh HLs Hch Hmh Hcs Hms.
  destruct (rep_live _ _ _ _ R h t Ht) as (n & x & tx & Hn & E).
  assert (t ∈ dom (bw_dent w)) as HtD by (apply elem_of_dom; eexists; apply (en_top _ _ _ _ _ _ E)).
  assert (∀ h', T !! h' = Some t → h' = h) as Hinj by (intros h' Ht'; by eapply (top_inj _ _ _ _ R)).
  eapply (rep_reindex w N T P); [done | done | done | done | done | exact Hch | | | exact Hcs | | | ..].
  - apply dom_put_mark; [apply R | done].
  - eapply lists_cut; [exact HLh | done | done | done].
  - apply dom_put_mark; [apply R | done].
  - eapply lists_cut; [exact HLs | done | done | done].
  - intros y z Hy HP. apply (r_dent _ _ _ _ R y z Hy). by eapply not_in_plus.
  - intros y [->%elem_of_singleton | Hy]%elem_of_union.
    + split_and!; [eexists; apply (en_host _ _ _ _ _ _ E) | apply lookup_delete_eq |].
      intros h' [Hne Hh']%lookup_delete_Some. apply Hne. by apply (top_host _ _ _ _ R h' h Hh').
    + destruct (r_priv _ _ _ _ R y Hy) as (? & ? & Hy3). split_and!; [done | by apply lookup_delete_None; right |].
      intros h' [_ Hh']%lookup_delete_Some. by eapply Hy3.
  - rewrite !dom_delete_L. by rewrite (r_tops _ _ _ _ R).
  - intros h' m t' [_ Hm]%lookup_delete_Some [_ Ht']%lookup_delete_Some. by apply (r_entry _ _ _ _ R).
  - rewrite lookup_delete_ne by done. apply R.
  - intros h' t' [Hne Ht']%lookup_delete_Some. rewrite lookup_insert_ne by (intros <-; by apply Hne; rewrite (Hinj h')).
    by apply (r_live _ _ _ _ R h').
  - intros y z Hy HP Hs Hno. bsimpl in *. destruct (decide (t = y)) as [<- | Hne]; [apply lookup_insert_eq |].
    rewrite lookup_insert_ne by done. eapply (r_dead _ _ _ _ R); [exact Hy | by eapply not_in_plus | done |].
    intros h' Hh'. apply (Hno h'). rewrite lookup_delete_ne; [done |]. congruence.
  - eapply lru_rep_names; [apply R |]. intros y u Hu Hw. destruct (decide (h = y)) as [<- |].
    + unfold word_is in *. rewrite lookup_delete_eq. rewrite Hn in Hw. assert (h ∈ {[h]} ∪ P) by (apply elem_of_union_l, elem_of_singleton_2; done).
      destruct Hw as [? | ?]; [by left | by right; right].
    + eapply word_is_other; [exact Hw | by rewrite lookup_delete_ne | apply in_plus].
  - by apply tree_remove; [apply R | |].
  - apply typed_remove, R.
Qed.

(** A withdrawn entry that the LRU has let go of. *)
Lemma rep_retire w N T P d x v :
  rep w N T P → bw_dent w !! d = Some x → dent_ok x → shellb x = false →
  words (bw_lru w) !! d = Some v → v = DC_LRU_OFF ∨ v = DC_LRU_DEAD → rep w N T (P ∖ {[d]}).
Proof.
  intros R Hx Hok Hsh Hv Hoff. destruct R. constructor; try done.
  - intros y z Hy. destruct (r_dent y z Hy) as (? & ? & Hyok). split_and!; [done | done |]. intros HP.
    destruct (decide (d = y)) as [<- |]; [congruence |]. apply Hyok. by eapply not_in_minus.
  - intros y [Hy _]%elem_of_difference. by apply r_priv.
  - intros y z Hy HP Hs. destruct (decide (d = y)) as [<- |]; [congruence |].
    apply (r_dead y z); [done | by eapply not_in_minus | done].
  - eapply lru_rep_names; [done |]. intros y u Hu Hw. destruct (decide (d = y)) as [<- |].
    + unfold word_is in *. destruct (N !! d); [done |].
      assert (u = v) as -> by congruence. destruct Hoff; [by left | by right; left].
    + eapply word_is_other; [exact Hw | done | by apply in_minus].
Qed.

(** ** Attributes *)

Lemma entry_attr D h n t x tx x' id pos :
  entry D h n t x tx → ipar x' = ipar x → shellb x' = shellb x → d_iname x' = d_iname x →
  d_top x' = d_top x → d_isdir x' = d_isdir x → d_parent x' = d_parent x → posb x' = pos → d_id x' = id →
  entry (<[h := x']> D) h (Node (n_parent n) (n_name n) id (n_dir n) pos) t x'
    (if decide (t = h) then x' else tx).
Proof.
  intros [] E1 E2 E3 E4 E5 E6 E7 E8. destruct (decide (t = h)) as [-> | Hne].
  - simplify_eq. split; rewrite ?lookup_insert_eq; simpl; congruence.
  - split; rewrite ?lookup_insert_eq, ?lookup_insert_ne by done; simpl; try congruence. done.
Qed.

Lemma rep_attr w N T P h n x x' id pos :
  rep w N T P → N !! h = Some n → bw_dent w !! h = Some x → dent_ok x' →
  ipar x' = ipar x → shellb x' = shellb x → d_iname x' = d_iname x →
  d_top x' = d_top x → d_isdir x' = d_isdir x → d_parent x' = d_parent x → posb x' = pos → d_id x' = id →
  let N' := <[h := Node (n_parent n) (n_name n) id (n_dir n) pos]> N in
  tree (bw_root w) N' → typed (bw_root w) N' →
  rep (set_dent (<[h := x']> (bw_dent w)) w) N' T P.
Proof.
  intros R Hn Hx Hok E1 E2 E3 E4 E5 E6 E7 E8 N' Ht Hty.
  destruct (r_hash _ _ _ _ R) as (Ch & HCh & HLh). destruct (r_sib _ _ _ _ R) as (Cs & HCs & HLs).
  assert (dom (<[h := x']> (bw_dent w)) = dom (bw_dent w)) as Hdom by (apply dom_insert_lookup_L; eauto).
  assert (∀ y, is_Some (N' !! y) ↔ is_Some (N !! y)) as Hs.
  { intros y. unfold N'. destruct (decide (h = y)) as [<- |].
    - rewrite lookup_insert_eq, Hn. by split; eexists.
    - by rewrite lookup_insert_ne. }
  eapply (rep_reindex w N T P); [done | done | done | done | done | exact HCh | apply R | | exact HCs | apply R | | ..].
  - by eapply lists_attr.
  - by eapply lists_attr.
  - intros y z. bsimpl. destruct (decide (h = y)) as [<- |].
    + rewrite lookup_insert_eq. by intros [= <-].
    + rewrite lookup_insert_ne by done. intros Hy HP. by apply (r_dent _ _ _ _ R y z Hy).
  - intros y Hy. destruct (r_priv _ _ _ _ R y Hy) as (? & HyN & ?). split_and!; [done | | done].
    apply eq_None_not_Some. rewrite Hs. by apply eq_None_not_Some.
  - unfold N'. rewrite dom_insert_lookup_L by eauto. apply R.
  - intros h' m t Hm HT. bsimpl. unfold N' in Hm. destruct (decide (h = h')) as [<- | Hne].
    + rewrite lookup_insert_eq in Hm. injection Hm as <-.
      destruct (r_entry _ _ _ _ R h n t Hn HT) as (y & ty & E).
      assert (y = x) as -> by (pose proof (en_host _ _ _ _ _ _ E); congruence).
      do 2 eexists. by eapply entry_attr.
    + rewrite lookup_insert_ne in Hm by done. destruct (r_entry _ _ _ _ R h' m t Hm HT) as (y & ty & E).
      exists y, ty. apply entry_other; [done | | done].
      intros <-. apply Hne. apply (top_host _ _ _ _ R h' h HT). by eexists.
  - apply R.
  - intros h' t. apply (r_live _ _ _ _ R).
  - intros y z Hy HP Hsh Hno. bsimpl in *. destruct (decide (h = y)) as [<- |].
    + rewrite lookup_insert_eq in Hy. injection Hy as <-. eapply (r_dead _ _ _ _ R); [exact Hx | done | congruence | done].
    + rewrite lookup_insert_ne in Hy by done. by eapply (r_dead _ _ _ _ R).
  - eapply lru_rep_names; [apply R |]. intros y u Hu Hw. unfold word_is in *.
    destruct (N !! y) eqn:Ey, (N' !! y) eqn:Ey'; try done;
      [destruct (proj2 (Hs y) ltac:(by eexists)) | destruct (proj1 (Hs y) ltac:(by eexists))]; congruence.
  - done.
  - done.
Qed.

(** Deferred work across a change. *)
Lemma rcu_rep_ext D N T P D' N' T' P' q :
  rcu_rep D N T P q →
  (∀ d x, D !! d = Some x → d ∉ P → N !! d = None → (∀ h, T !! h ≠ Some d) →
     is_Some (D' !! d) ∧ N' !! d = None ∧ d ∉ P' ∧ ∀ h, T' !! h ≠ Some d) →
  (∀ d x, D !! d = Some x → d ∉ P → shellb x = true →
     d ∉ P' ∧ ∃ x', D' !! d = Some x' ∧ shellb x' = true) →
  rcu_rep D' N' T' P' q.
Proof.
  intros [Hnd Hf Hg] H1 H2. split; [done | |].
  - intros d ([x Hx] & HN & HP & HT)%Hf. by eapply H1.
  - intros d (HP & x & Hx & Hs)%Hg. by eapply H2.
Qed.
