(* ===== verification/BlSect.v ===== *)
(** The inside of an operation of the bucket-lock engine: which dentries are
    private, which hosts are claimed, which heads are locked; and the steps that
    the operations share. *)

From S2P Require Import Prelude Qstr HList Lru World Walk Namespace TreeOps BlChain BlLists.
From S2P Require Import BlLru BlLruSpec BlWorld BlWalk BlOps BlInv BlReads BlWalkSpec BlLocks.
From S2P Require Import BlRep.

(** ** Between operations *)

(** What an operation promises: its code and the name space it leaves. *)
Record bl_post (k : nat) (w : bworld) (spec : Z * nspace) (ret : Z) (w' : bworld) : Prop := {
  bp_ret : ret = fst spec;
  bp_inv : ∃ T, binv k w' (snd spec) T;
  bp_root : bw_root w' = bw_root w;
  bp_mask : bw_mask w' = bw_mask w;
}.

Lemma binv_held k w N T : binv k w N T → held w [].
Proof. intros Hi. apply unlocked_held. split; apply Hi. Qed.

Lemma binv_intro k w N T :
  rep w N T ∅ → held w [] → rcu_rep (bw_dent w) N T ∅ (bw_rcu w) → still (bw_dent w) → bw_nest w = k →
  binv k w N T.
Proof. intros ? [? ?]%unlocked_held ???. by split. Qed.

Lemma relock_same w w' : relock w w' →
  bw_mask w' = bw_mask w ∧ bw_root w' = bw_root w ∧ bw_node w' = bw_node w ∧ bw_dent w' = bw_dent w ∧
  bw_lru w' = bw_lru w ∧ bw_rcu w' = bw_rcu w ∧ bw_nest w' = bw_nest w.
Proof. intros [-> _]. done. Qed.

Lemma only_lru_same w w' : only_lru w w' →
  bw_mask w' = bw_mask w ∧ bw_root w' = bw_root w ∧ bw_node w' = bw_node w ∧ bw_dent w' = bw_dent w ∧
  bw_hash w' = bw_hash w ∧ bw_sib w' = bw_sib w ∧ bw_rcu w' = bw_rcu w ∧ bw_nest w' = bw_nest w.
Proof. intros ->. done. Qed.

(** Heads that can be locked. *)
Lemma heads_bucket w N T P p nm : rep w N T P → is_Some (hbit w (Bucket (bucket_index (bw_mask w) p nm))).
Proof. intros R. destruct (bucket_bit _ _ _ _ R p nm) as [b Hb]. by exists b. Qed.

Lemma heads_child w N T P h : rep w N T P → is_Some (N !! h) → is_Some (hbit w (ChildHead h)).
Proof. intros R Hh. destruct (child_bit _ _ _ _ R h Hh) as [b Hb]. by exists b. Qed.

Lemma relock_heads w w' N T P hs :
  rep w N T P → relock w w' → heads_ok w hs → heads_ok w' hs.
Proof.
  intros R Hl Hok h Hh. pose proof (rl_rep _ _ Hl _ _ _ R) as R'. destruct (Hok h Hh) as [b Hb].
  destruct (relock_same _ _ Hl) as (Em & _ & _ & Ed & _). destruct h as [i | d]; simpl in *.
  - apply (r_hbits _ _ _ _ R'). rewrite Em. apply (r_hbits _ _ _ _ R). by exists b.
  - apply elem_of_dom. rewrite (r_sbits _ _ _ _ R'), Ed, <- (r_sbits _ _ _ _ R). by apply elem_of_dom; exists b.
Qed.

Lemma binv_lru k w w' N T : binv k w N T → only_lru w w' → rep w' N T ∅ → binv k w' N T.
Proof.
  intros [] Ho R. destruct (only_lru_same _ _ Ho) as (_ & _ & _ & Ed & Eh & Es & Er & En).
  split; rewrite ?Ed, ?Eh, ?Es, ?Er, ?En; done.
Qed.

Lemma bl_post_same k w w' N T spec ret :
  binv k w' N T → ret = fst spec → snd spec = N → bw_root w' = bw_root w → bw_mask w' = bw_mask w →
  bl_post k w spec ret w'.
Proof. intros ? ? <- ? ?. split; eauto. Qed.

(** The locks do not see a dentry that goes. *)
Lemma held_free d w hs : held w hs → held (free_dent d w) hs.
Proof.
  intros H [i | i] b Hb; [by apply (H (Bucket i)) |]. apply (H (ChildHead i)). revert Hb. simpl.
  unfold bits, free_dent. bsimpl. simpl. rewrite !lookup_fmap.
  destruct (decide (d = i)) as [<- |]; [by rewrite lookup_delete_eq | by rewrite lookup_delete_ne].
Qed.

(** The hosts of [V] are claimed by a move. *)
Definition moving (D : gmap Z dent) (V : gset Z) : Prop :=
  ∀ d x, D !! d = Some x → d_moving x = if decide (d ∈ V) then 1 else 0.

Lemma still_moving D : still D ↔ moving D ∅.
Proof.
  split; intros H d x Hd; [rewrite decide_False by set_solver; by eapply H |].
  rewrite (H d x Hd). by rewrite decide_False by set_solver.
Qed.

(** A world inside an operation: the dentries of [P] are private, the hosts of [V]
    claimed, and the locks of [hs] are held. *)
Record sect (k : nat) (w : bworld) (N : nspace) (T : gmap Z Z) (P V : gset Z) (hs : list head)
    : Prop := {
  se_rep :> rep w N T P;
  se_held : held w hs;
  se_rcu : rcu_rep (bw_dent w) N T P (bw_rcu w);
  se_moving : moving (bw_dent w) V;
  se_nest : bw_nest w = k;
}.

Lemma sect_binv k w N T : sect k w N T ∅ ∅ [] ↔ binv k w N T.
Proof.
  split; [intros []; apply binv_intro; [done | done | done | by apply still_moving | done] |].
  intros Hi. pose proof (binv_held _ _ _ _ Hi). destruct Hi. split; [done | done | done | by apply still_moving | done].
Qed.

Lemma minus_self (d : Z) : ({[d]} ∖ {[d]} : gset Z) = ∅.
Proof. set_solver. Qed.

Section ops.
Context `{HA : Memalign} `{!MemalignOk HA} `{HL : Layout} `{!LayoutOk HL}.

(** ** Allocation *)

(** What [dentry_alloc] writes. *)
Definition new_dent (parent : Z) (name : qstr) (id : Z) (isdir pos : bool) : dent :=
  {| d_iparent := if pos then parent else Z.lor parent DC_TAG_NEG; d_iname := name; d_fwd := 0; d_top := 0;
     d_inode := if pos then 1 else 0; d_isdir := isdir; d_parent := parent; d_moving := 0; d_id := id |}.

Lemma dentry_alloc_run parent name id isdir pos w :
  dentry_alloc parent name id isdir pos w =
  match posix_memalign (dom (bw_dent w)) with
  | None => Ok (0, w)
  | Some d => Ok (d, alloc_dent d (new_dent parent name id isdir pos) w)
  end.
Proof. unfold dentry_alloc, st_bind, st_get. by destruct (posix_memalign _). Qed.

Lemma alloc_fresh w d :
  posix_memalign (dom (bw_dent w)) = Some d → bw_dent w !! d = None ∧ aligned d ∧ d ≠ 0.
Proof.
  intros E. pose proof (memalign_fresh _ _ E). pose proof (memalign_aligned _ _ E).
  pose proof (memalign_range _ _ E). split_and!; [by apply not_elem_of_dom | done | lia].
Qed.

Lemma new_dent_tags p name id isdir pos :
  aligned p → qstr_wf name →
  dent_ok (new_dent p name id isdir pos) ∧ ipar (new_dent p name id isdir pos) = p ∧
  shellb (new_dent p name id isdir pos) = false ∧ posb (new_dent p name id isdir pos) = pos.
Proof.
  intros Hp Hq. set (x := new_dent p name id isdir pos).
  assert (d_iparent x = p + itag false (negb pos)) as E.
  { unfold x. simpl. destruct pos; simpl; [unfold itag; lia | by rewrite aligned_lor by done]. }
  destruct (tag_word p false (negb pos) x Hp E) as (E1 & E2 & E3). rewrite negb_involutive in E3.
  split_and!; [| done | done | done]. split; [done | by rewrite E1 | by rewrite E, E1, E2, E3 | done | apply aligned_0 | by rewrite E2].
Qed.

(** A dentry that was allocated and not published goes back. *)
Lemma wp_give_back k w N T P V hs d v :
  sect k w N T P V hs → d ∈ P → d ≠ 0 → words (bw_lru w) !! d = Some v → off_list v →
  wp (c_free d) (λ _ w', sect k w' N T (P ∖ {[d]}) V hs ∧ bw_root w' = bw_root w ∧ bw_mask w' = bw_mask w ∧
    bw_rcu w' = bw_rcu w ∧ bw_dent w' = delete d (bw_dent w) ∧
    ∀ y, y ≠ d → words (bw_lru w') !! y = words (bw_lru w) !! y) w.
Proof.
  intros [R Hh Hq Hs Hk] HdP H0 Hv Hoff. destruct (r_priv _ _ _ _ R d HdP) as (Hd & HN & HT).
  unfold c_free. destruct (Z.eqb_spec d 0); [done |]. eapply wp_run; [by apply dentry_free_run |].
  split_and!; [| done | done | done | done |].
  2:{ intros y Hy. unfold free_dent, words. bsimpl. simpl. by rewrite !lookup_fmap, lookup_delete_ne. }
  split.
  - by eapply rep_free.
  - by apply held_free.
  - eapply rcu_rep_ext; [exact Hq | |]; unfold free_dent; bsimpl.
    + intros y z Hy HyP HyN HyT. assert (d ≠ y) by (by intros ->). split_and!; [| done | | done].
      * rewrite lookup_delete_ne by done. by eexists.
      * intros [? _]%elem_of_difference. done.
    + intros y z Hy HyP Hz. assert (d ≠ y) by (by intros ->).
      split; [by intros [? _]%elem_of_difference |]. exists z. by rewrite lookup_delete_ne.
  - intros y z. unfold free_dent. bsimpl. intros [_ Hy]%lookup_delete_Some. by eapply Hs.
  - done.
Qed.

Lemma sect_relock k w w' N T P V hs hs' :
  sect k w N T P V hs → relock w w' → held w' hs' → sect k w' N T P V hs'.
Proof.
  intros [R _ Hq Hs Hn] Hl Hh. destruct (relock_same _ _ Hl) as (_ & _ & _ & Ed & _ & Er & En).
  split; rewrite ?Ed, ?Er, ?En; [by apply Hl | done ..].
Qed.

(** Lock and unlock. *)
Lemma wp_sect_lock2 k w N T P V x y (Q : unit → bworld → Prop) :
  sect k w N T P V [] → heads_ok w [x; y] →
  (∀ w', relock w w' → sect k w' N T P V [x; y] → heads_ok w' [x; y] → Q tt w') → wp (bl_lock2 x y) Q w.
Proof.
  intros S Hok HQ. wp_use wp_bl_lock2; [apply S | apply S | done |]. intros [] w' [Hl Hh].
  apply HQ; [done | by eapply sect_relock | eapply relock_heads; [apply S | done | done]].
Qed.

Lemma wp_sect_unlock2 k w N T P V x y (Q : unit → bworld → Prop) :
  sect k w N T P V [x; y] → heads_ok w [x; y] →
  (∀ w', relock w w' → sect k w' N T P V [] → Q tt w') → wp (bl_unlock2 x y) Q w.
Proof.
  intros S Hok HQ. wp_use wp_bl_unlock2; [apply S | apply S | done |]. intros [] w' [Hl Hh].
  apply HQ; [done | by eapply sect_relock].
Qed.

Lemma wp_sect_lock_n k w N T P V hs (Q : list head → bworld → Prop) :
  sect k w N T P V [] → heads_ok w hs →
  (∀ w', relock w w' → sect k w' N T P V hs → heads_ok w' hs → Q (sort_heads hs) w') → wp (bl_lock_n hs) Q w.
Proof.
  intros S Hok HQ. wp_use wp_bl_lock_n; [apply S | apply S | done |]. intros s w' (-> & Hl & Hh).
  apply HQ; [done | by eapply sect_relock | eapply relock_heads; [apply S | done | done]].
Qed.

Lemma wp_sect_unlock_n k w N T P V hs (Q : unit → bworld → Prop) :
  sect k w N T P V hs → heads_ok w hs →
  (∀ w', relock w w' → sect k w' N T P V [] → Q tt w') → wp (bl_unlock_n (sort_heads hs)) Q w.
Proof.
  intros S Hok HQ. wp_use wp_bl_unlock_n; [apply S | apply S | done |]. intros [] w' [Hl Hh].
  apply HQ; [done | by eapply sect_relock].
Qed.

Lemma wp_sect_lock1 k w N T P V x (Q : unit → bworld → Prop) :
  sect k w N T P V [] → heads_ok w [x] →
  (∀ w', relock w w' → sect k w' N T P V [x] → heads_ok w' [x] → Q tt w') → wp (lock_head x) Q w.
Proof.
  intros S Hok HQ. destruct (Hok x ltac:(left)) as [b Hb]. pose proof (se_held _ _ _ _ _ _ _ S x b Hb) as ->.
  wp_use wp_lock_head; [apply S | exact Hb |]. intros [] w' [Hl Hh].
  apply HQ; [done | | eapply relock_heads; [apply S | done | done]].
  eapply sect_relock; [done | done |]. intros h b. rewrite Hh. destruct (decide (h = x)) as [-> |].
  - intros [= <-]. symmetry. apply bool_decide_eq_true_2. by left.
  - intros ->%(se_held _ _ _ _ _ _ _ S). rewrite !bool_decide_eq_false_2; [done | | apply not_elem_of_nil].
    by rewrite list_elem_of_singleton.
Qed.

Lemma wp_sect_unlock1 k w N T P V x (Q : unit → bworld → Prop) :
  sect k w N T P V [x] → heads_ok w [x] →
  (∀ w', relock w w' → sect k w' N T P V [] → Q tt w') → wp (unlock_head x) Q w.
Proof.
  intros S Hok HQ. destruct (Hok x ltac:(left)) as [b Hb].
  wp_use wp_unlock_head; [apply S | exact Hb |]. intros [] w' [Hl Hh]. apply HQ; [done |].
  eapply sect_relock; [done | done |]. intros h b'. rewrite Hh, bool_decide_eq_false_2 by apply not_elem_of_nil.
  destruct (decide (h = x)) as [-> | Hne]; [by intros [= <-] |].
  intros ->%(se_held _ _ _ _ _ _ _ S). apply bool_decide_eq_false_2. by rewrite list_elem_of_singleton.
Qed.

(** Chains rewritten with the same lock bits. *)
Lemma held_chains w ch cs hs Ch Kh Cs Ks :
  held w hs → chain_is ch Ch (bits (bw_hash w)) Kh → chain_is cs Cs (bits (bw_sib w)) Ks →
  held (set_sib cs (set_hash ch w)) hs.
Proof.
  intros Hh [Eh _]%chain_is_bits [Es _]%chain_is_bits [i | d] b; simpl; rewrite ?Eh, ?Es;
    [apply (Hh (Bucket i)) | apply (Hh (ChildHead d))].
Qed.

Lemma held_alloc d x w hs : held w hs → ChildHead d ∉ hs → held (alloc_dent d x w) hs.
Proof.
  intros H Hd [i | i] b Hb; [by apply (H (Bucket i)) |]. revert Hb. simpl.
  unfold bits, alloc_dent. bsimpl. simpl. rewrite lookup_fmap. destruct (decide (d = i)) as [<- |].
  - rewrite lookup_insert_eq. intros [= <-]. by rewrite bool_decide_eq_false_2.
  - rewrite lookup_insert_ne by done. intros Hb. apply (H (ChildHead i)). simpl. unfold bits. by rewrite lookup_fmap.
Qed.

Lemma sect_alloc k w N T P d x :
  sect k w N T P ∅ [] → bw_dent w !! d = None → aligned d → d ≠ 0 → d_moving x = 0 →
  sect k (alloc_dent d x w) N T ({[d]} ∪ P) ∅ [].
Proof.
  intros [R Hh Hq Hm Hk] Hd Ha H0 Hx. split.
  - by apply rep_alloc.
  - apply held_alloc; [done | apply not_elem_of_nil].
  - unfold alloc_dent. eapply rcu_rep_ext; [exact Hq | |]; bsimpl.
    + intros y z Hy HyP HyN HyT. assert (d ≠ y) by congruence.
      split_and!; [by rewrite lookup_insert_ne; eauto | done | | done].
      by intros [->%elem_of_singleton | ?]%elem_of_union.
    + intros y z Hy HyP Hz. assert (d ≠ y) by congruence.
      split; [by intros [->%elem_of_singleton | ?]%elem_of_union |]. exists z. by rewrite lookup_insert_ne.
  - intros y z. unfold alloc_dent. bsimpl. destruct (decide (d = y)) as [<- |].
    + rewrite lookup_insert_eq. intros [= <-]. by rewrite decide_False by apply not_elem_of_empty.
    + rewrite lookup_insert_ne by done. apply Hm.
  - done.
Qed.

(** The common beginning: the parent directory of a path. *)
Lemma wp_resolve_parent k w N T path (Q : Z → bworld → Prop) :
  binv k w N T → path_wf path →
  (∀ w', binv k w' N T → bw_root w' = bw_root w → bw_mask w' = bw_mask w → bw_dent w' = bw_dent w →
     nwalk (bw_root w) N (bw_root w) (take (ndepth path - 1) (pnames path)) = None → Q 0 w') →
  (∀ w' p pn, binv k w' N T → bw_root w' = bw_root w → bw_mask w' = bw_mask w → bw_dent w' = bw_dent w →
     nwalk (bw_root w) N (bw_root w) (take (ndepth path - 1) (pnames path)) = Some p → N !! p = Some pn →
     aligned p → p ≠ 0 → Q p w') →
  wp (resolve path (ndepth path - 1)) Q w.
Proof.
  intros Hi Hp H0 H1. pose proof (bi_rep _ _ _ _ Hi) as R.
  wp_use wp_bl_resolve; [done | done | lia |]. intros r w' (Ho & R' & ->).
  destruct (only_lru_same _ _ Ho) as (Em & Er & _ & Ed & _).
  assert (binv k w' N T) as Hi' by (by eapply binv_lru).
  destruct (nwalk _ _ _ _) as [p |] eqn:Ew; simpl; [| by apply H0].
  destruct (rep_root _ _ _ _ R) as (rn & Hr & _).
  destruct (nwalk_dom _ _ _ _ _ ltac:(by eexists) Ew) as [pn Hpn].
  destruct (rep_aligned _ _ _ _ R p ltac:(by eexists)) as [??]. by eapply H1.
Qed.

(** Fields of a live entry. *)
Lemma rep_node w N T P h n :
  rep w N T P → N !! h = Some n →
  ∃ x, bw_dent w !! h = Some x ∧ dent_ok x ∧ d_isdir x = n_dir n ∧ posb x = n_pos n ∧ shellb x = false ∧
    d_parent x = n_parent n.
Proof.
  intros R Hn. destruct (rep_top _ _ _ _ R h n Hn) as (t & x & tx & Ht & E).
  destruct (entry_ok _ _ _ _ R h n t x tx Ht Hn E) as [Hok _].
  exists x. split_and!; [| done | ..]; apply E.
Qed.

Lemma comp_at_run path i q w : comp path !! i = Some q → comp_at path i w = Ok (q, w).
Proof. intros E. unfold comp_at, path_comp. by rewrite E. Qed.

(** A section with other contents of the dentries, same locks. *)
Lemma heads_ok_bits w w' hs :
  bits (bw_hash w') = bits (bw_hash w) → bits (bw_sib w') = bits (bw_sib w) → heads_ok w hs → heads_ok w' hs.
Proof. intros E1 E2 Hok h Hh. destruct (Hok h Hh) as [b Hb]. exists b. destruct h; simpl in *; congruence. Qed.

Lemma dent_store_run d f x w :
  bw_dent w !! d = Some x → dent_store d f w = Ok (tt, set_dent (<[d := f x]> (bw_dent w)) w).
Proof. intros Hd. unfold dent_store. by rewrite Hd. Qed.

(** ** Read sections *)

Lemma binv_enter k w N T : binv k w N T → binv (S k) (set_nest (S (bw_nest w)) w) N T.
Proof. intros []. split; bsimpl; [by apply rep_nest | done | done | done | done | congruence]. Qed.

Lemma wp_rcu_leave k w N T P V hs (Q : unit → bworld → Prop) :
  sect (S k) w N T P V hs → (sect k (set_nest k w) N T P V hs → Q tt (set_nest k w)) → wp rcu_read_unlock Q w.
Proof.
  intros [R Hh Hq Hm Hk] HQ. unfold wp, rcu_read_unlock. rewrite Hk. apply HQ.
  split; bsimpl; [by apply rep_nest | done ..].
Qed.

Lemma wp_leave_ret k w0 w N T spec ret :
  binv (S k) w N T → ret = fst spec → snd spec = N → bw_root w = bw_root w0 → bw_mask w = bw_mask w0 →
  wp (rcu_read_unlock ;;; st_ret ret) (bl_post k w0 spec) w.
Proof.
  intros Hi Hr Hs Er Em. wp_step. eapply wp_rcu_leave; [by apply sect_binv |]. intros S. wp_step.
  eapply bl_post_same; [by apply sect_binv | done | done | done | done].
Qed.

(** The named top of a name, and its host. *)
Lemma find_top_cases w N T P p q :
  rep w N T P → qstr_wf q →
  (child (bw_root w) N p (qname q) = None ∧ find_top_rcu p q w = Ok (0, w)) ∨
  (∃ h n t, child (bw_root w) N p (qname q) = Some h ∧ N !! h = Some n ∧ T !! h = Some t ∧ t ≠ 0 ∧
     h ≠ bw_root w ∧ n_parent n = p ∧ n_name n = qname q ∧ find_top_rcu p q w = Ok (t, w)).
Proof.
  intros R Hq. pose proof (find_top_run _ _ _ _ R p q Hq) as Ef. unfold top_at in Ef.
  destruct (child (bw_root w) N p (qname q)) as [h |] eqn:Ec; simpl in Ef; [right | by left].
  apply child_Some_1 in Ec as (Hr & n & Hn & Hp & Hnm).
  destruct (rep_top _ _ _ _ R h n Hn) as (t & x & tx & Ht & E). rewrite Ht in Ef.
  destruct (top_aligned _ _ _ _ R h t Ht) as [_ H0]. exists h, n, t. done.
Qed.

(** [iter_upto] around a body that answers in its first round. *)
Lemma wp_first_round {A B} (body : A → M (A + B)) a (f : B → M Z) (R : Z → bworld → Prop) w :
  wp (body a) (λ r w', ∃ b, r = inr b ∧ wp (f b) R w') w →
  wp (let! r := iter_upto RETRY_ROUNDS body a in
      match r with inl _ => st_fault NoFuel | inr b => f b end) R w.
Proof.
  intros H. apply wp_bind. apply wp_iter_first. eapply wp_mono; [exact H |]. intros r w' (b & -> & Hf). eauto.
Qed.

(** ... or in its second. *)
Lemma wp_two_rounds {A B} (body : A → M (A + B)) a (f : B → M Z) (R : Z → bworld → Prop) w :
  rounds body (λ b w', wp (f b) R w') 1 a w →
  wp (let! r := iter_upto RETRY_ROUNDS body a in
      match r with inl _ => st_fault NoFuel | inr b => f b end) R w.
Proof.
  intros H. apply wp_bind. eapply wp_mono; [by apply wp_iter_rounds |].
  intros [a' | b] w' Hr; [| done]. destruct Hr as [Hle _]. exfalso. revert Hle.
  assert (1 < Pos.to_nat RETRY_ROUNDS)%nat as Hlt by (apply (Pos2Nat.inj_lt 1); done). lia.
Qed.

(** The two list removals of an entry's top. *)
Lemma wp_withdraw k w N T P V hs h n t :
  sect k w N T P V hs → heads_ok w hs → N !! h = Some n → T !! h = Some t → h ≠ bw_root w →
  kids (bw_root w) N h = [] →
  wp (on_hash (bl_hlist_del_locked t) ;;; on_sib (bl_hlist_del_locked t)) (λ _ w',
    sect k w' (delete h N) (delete h T) ({[h]} ∪ P) V hs ∧ heads_ok w' hs ∧
    bw_root w' = bw_root w ∧ bw_mask w' = bw_mask w ∧ bw_lru w' = bw_lru w ∧ bw_dent w' = bw_dent w ∧
    bw_rcu w' = bw_rcu w) w.
Proof.
  intros [R Hh Hq Hm Hk] Hok Hn Ht Hr Hkids.
  destruct (r_hash _ _ _ _ R) as (Ch & HCh & HLh). destruct (r_sib _ _ _ _ R) as (Cs & HCs & HLs).
  assert (t ∈ Ch (node_bucket (bw_mask w) n)) as Hin by (apply HLh; eauto 10).
  assert (t ∈ Cs (n_parent n)) as Hin' by (apply HLs; eauto 10).
  apply list_elem_of_split in Hin as (l1 & l2 & E1). apply list_elem_of_split in Hin' as (k1 & k2 & E2).
  wp_step. apply wp_zoom. wp_use (wp_bl_hlist_del_locked _ _ _ _ HCh); [exact E1 |]. intros [] ch Hch.
  apply wp_zoom. bsimpl. wp_use (wp_bl_hlist_del_locked _ _ _ _ HCs); [exact E2 |]. intros [] cs Hcs.
  split_and!; [| | done | done | done | done | done].
  - split.
    + eapply (rep_withdraw w N T P h t); [done | done | done | done | exact HLh | exact HLs | exact Hch | |
        exact Hcs |]; intros j x; [apply (in_cut _ _ _ _ HCh _ _ _ _ _ _ E1) | apply (in_cut _ _ _ _ HCs _ _ _ _ _ _ E2)].
    + by eapply held_chains.
    + eapply rcu_rep_ext; [exact Hq | |]; bsimpl.
      * intros d x Hd HP HN HT. split_and!; [by eexists | by apply lookup_delete_None; right | |].
        { intros [->%elem_of_singleton | ?]%elem_of_union; congruence. }
        intros h' [_ ?]%lookup_delete_Some. by eapply HT.
      * intros d x Hd HP Hs. split; [| eauto]. intros [->%elem_of_singleton | ?]%elem_of_union; [| done].
        destruct (rep_node _ _ _ _ h n R Hn) as (x' & Hx' & _ & _ & _ & Hsh & _). congruence.
    + done.
    + done.
  - eapply heads_ok_bits; [| | exact Hok]; bsimpl; [by apply chain_is_bits in Hch as [] | by apply chain_is_bits in Hcs as []].
Qed.

(** The LRU lets go of a dentry that is no entry. *)
Lemma wp_lru_let_go k w N T P V hs d :
  sect k w N T P V hs → is_Some (bw_dent w !! d) → N !! d = None →
  wp (on_lru (lru_del_can_free d true)) (λ r w', r = true ∧ only_lru w w' ∧ sect k w' N T P V hs ∧
    words (bw_lru w') !! d = Some DC_LRU_DEAD ∧
    ∀ y, y ≠ d → words (bw_lru w') !! y = words (bw_lru w) !! y) w.
Proof.
  intros [R Hh Hq Hm Hk] Hd HN. destruct (rep_word _ _ _ _ d R Hd) as (v & Hv & Hw).
  unfold word_is in Hw. rewrite HN in Hw. apply wp_zoom.
  wp_use wp_lru_del_can_free'; [apply (lr_is _ _ _ _ (r_lru _ _ _ _ R)) | exact Hv | |].
  { destruct Hw as [-> | [-> | (_ & i & Hi & ->)]]; [by right; left | by left | right; right; by exists i]. }
  intros r s (-> & v' & Hs & [-> | [? _]]); [| done].
  split_and!; [done | done | | bsimpl; destruct Hs as (_ & _ & ->); apply lookup_insert_eq |
    intros y Hy; bsimpl; destruct Hs as (_ & _ & ->); by rewrite lookup_insert_ne].
  split; [| done | done | done | done]. apply rep_set_lru; [done |].
  eapply lru_rep_word; [apply R | exact Hs | by apply elem_of_dom |]. unfold word_is. rewrite HN. by right; left.
Qed.

Lemma wp_lru_del_shell k w N T P V hs d :
  sect k w N T P V hs → is_Some (bw_dent w !! d) → N !! d = None →
  wp (on_lru (lru_del d)) (λ _ w', only_lru w w' ∧ sect k w' N T P V hs ∧
    ∀ y, y ≠ d → words (bw_lru w') !! y = words (bw_lru w) !! y) w.
Proof.
  intros [R Hh Hq Hm Hk] Hd HN. destruct (rep_word _ _ _ _ d R Hd) as (v & Hv & Hw).
  unfold word_is in Hw. rewrite HN in Hw. apply wp_zoom.
  wp_use wp_lru_del'; [apply (lr_is _ _ _ _ (r_lru _ _ _ _ R)) | exact Hv | |].
  { destruct Hw as [-> | [-> | (_ & i & Hi & ->)]]; [by right; left | by left | right; right; by exists i]. }
  intros r s (v' & Hs & Hv'). split_and!; [done | |].
  - split; [| done | done | done | done]. apply rep_set_lru; [done |].
    eapply lru_rep_word; [apply R | exact Hs | by apply elem_of_dom |]. unfold word_is. rewrite HN.
    destruct Hv'; [by right; left | by left].
  - intros y Hy. bsimpl. destruct Hs as (_ & _ & ->). by rewrite lookup_insert_ne.
Qed.

(** An entry that left the name space and the LRU waits for its grace period. *)
Lemma wp_queue_free k w N T P V hs d x v :
  sect k w N T P V hs → d ∈ P → bw_dent w !! d = Some x → dent_ok x → shellb x = false →
  d ∉ (cb_dent <$> bw_rcu w) → words (bw_lru w) !! d = Some v → v = DC_LRU_OFF ∨ v = DC_LRU_DEAD →
  wp (dc_free_host d) (λ _ w', sect k w' N T (P ∖ {[d]}) V hs ∧ bw_root w' = bw_root w ∧
    bw_mask w' = bw_mask w ∧ bw_dent w' = bw_dent w ∧ bw_lru w' = bw_lru w) w.
Proof.
  intros [R Hh Hq Hm Hk] HdP Hd Hok Hsh Hnew Hv Hv'. apply wp_mod. split; [| done].
  destruct (r_priv _ _ _ _ R d HdP) as (_ & HN & HT).
  pose proof (rep_retire _ _ _ _ d x v R Hd Hok Hsh Hv Hv') as R'.
  split; [by destruct R'; constructor | done | | done | done]. bsimpl.
  destruct Hq as [Hnd Hf Hg]. split.
  - rewrite fmap_app. apply NoDup_app. split_and!; [done | | apply NoDup_singleton].
    intros y Hy ->%list_elem_of_singleton. done.
  - intros y [Hy | [= ->]%list_elem_of_singleton]%elem_of_app.
    + destruct (Hf y Hy) as (? & ? & ? & ?). split_and!; [done | done | by intros [? _]%elem_of_difference | done].
    + split_and!; [by eexists | done | by intros [_ []%not_elem_of_singleton]%elem_of_difference | done].
  - intros y [Hy | ?%list_elem_of_singleton]%elem_of_app; [| done].
    destruct (Hg y Hy) as [? ?]. split; [by intros [? _]%elem_of_difference | done].
Qed.

(** A live host waits for nothing. *)
Lemma host_not_queued w N T P q h n :
  rep w N T P → rcu_rep (bw_dent w) N T P q → N !! h = Some n → h ∉ (cb_dent <$> q).
Proof.
  intros R [_ Hf Hg] Hn (cb & -> & Hcb)%list_elem_of_fmap. destruct cb as [d | d]; simpl in *.
  - destruct (Hf d Hcb) as (_ & ? & _). congruence.
  - destruct (Hg d Hcb) as (_ & x & Hx & Hs).
    destruct (rep_node _ _ _ _ d n R Hn) as (x' & Hx' & _ & _ & _ & Hsh & _). congruence.
Qed.

Lemma priv_not_queued k w N T P V hs d :
  sect k w N T P V hs → d ∈ P → d ∉ (cb_dent <$> bw_rcu w).
Proof.
  intros [_ _ [_ Hf Hg] _ _] Hd (cb & -> & Hcb)%list_elem_of_fmap. destruct cb as [d | d]; simpl in *.
  - by destruct (Hf d Hcb) as (_ & _ & [] & _).
  - by destruct (Hg d Hcb) as ([] & _).
Qed.

End ops.
