(* ===== verification/BlOpsSpec.v ===== *)
(** The in-place mutators of the bucket-lock engine against their specifications:
    [dc_add], [dc_instantiate], [dc_delete], [dc_unlink]. *)

From S2P Require Import Prelude Qstr HList Lru World Walk Namespace TreeOps BlChain BlLists.
From S2P Require Import BlLru BlLruSpec BlWorld BlWalk BlOps BlInv BlReads BlWalkSpec BlLocks.
From S2P Require Import BlRep BlSect.

Section ops.
Context `{HA : Memalign} `{!MemalignOk HA} `{HL : Layout} `{!LayoutOk HL}.

(** ** [dc_add] *)

(** The specification of [dc_add]: as [spec_add], but the allocation comes before
    the parent is known to be positive. *)
Definition spec_add_bl (r : Z) (fresh : option Z) (names : list (list Z)) (id : Z)
    (isdir pos : bool) (N : nspace) : Z * nspace :=
  match split_last names with
  | None => (- EEXIST, N)
  | Some (dirn, nm) =>
      match p ← nwalk r N r dirn; pn ← N !! p; Some (p, pn) with
      | None => (- ENOENT, N)
      | Some (p, pn) =>
          if negb (n_dir pn) then (- ENOTDIR, N)
          else match child r N p nm, fresh with
               | Some _, _ => (- EEXIST, N)
               | None, None => (- ENOMEM, N)
               | None, Some d =>
                   if negb (n_pos pn) then (- ENOENT, N)
                   else (0, <[d := Node p nm id isdir pos]> N)
               end
      end
  end.

Lemma rcu_rep_publish D N T d n P q :
  rcu_rep D N T P q → d ∈ P → rcu_rep D (<[d := n]> N) (<[d := d]> T) (P ∖ {[d]}) q.
Proof.
  intros [Hnd Hf Hg] Hd. split; [done | |].
  - intros y (Hy & HyN & HyP & HyT)%Hf. assert (d ≠ y) by (by intros ->).
    split_and!; [done | by rewrite lookup_insert_ne | set_solver |]. intros h.
    destruct (decide (d = h)) as [<- |]; [rewrite lookup_insert_eq; congruence | by rewrite lookup_insert_ne].
  - intros y (HyP & z & Hy & Hz)%Hg. split; [set_solver | eauto].
Qed.

(** A new entry goes into the LRU, its bucket and its parent's list. *)
Lemma wp_add_publish k w N T d x n v hs nid :
  sect k w N T {[d]} ∅ hs → bw_dent w !! d = Some x → dent_ok x → entry (bw_dent w) d n d x x →
  words (bw_lru w) !! d = Some v → off_list v →
  Bucket (node_bucket (bw_mask w) n) ∈ hs → ChildHead (n_parent n) ∈ hs → heads_ok w hs →
  tree (bw_root w) (<[d := n]> N) → typed (bw_root w) (<[d := n]> N) →
  wp (on_lru (lru_add_new nid d) ;;;
      on_hash (bl_hlist_add_head_locked (node_bucket (bw_mask w) n) d) ;;;
      on_sib (bl_hlist_add_head_locked (n_parent n) d))
    (λ _ w', sect k w' (<[d := n]> N) (<[d := d]> T) ∅ ∅ hs ∧ heads_ok w' hs ∧
      bw_root w' = bw_root w ∧ bw_mask w' = bw_mask w) w.
Proof.
  intros [R Hh Hq Hs Hk] Hx Hok He Hv Hoff Hb1 Hb2 Hhs Ht Hty.
  destruct (r_dent _ _ _ _ R d x Hx) as (Hal & H0 & _).
  destruct (r_priv _ _ _ _ R d ltac:(by apply elem_of_singleton)) as (_ & HN & HT).
  destruct (r_hash _ _ _ _ R) as (Ch & HCh & HLh). destruct (r_sib _ _ _ _ R) as (Cs & HCs & HLs).
  assert (∀ h, h ∈ hs → hbit w h = Some true) as Hlk.
  { intros h Hin. destruct (Hhs h Hin) as [b Hb]. rewrite Hb. f_equal. rewrite (Hh h b Hb).
    by apply bool_decide_eq_true_2. }
  assert (∃ m, marks (bw_hash w) !! d = Some m) as [m Hm].
  { apply elem_of_dom. rewrite (r_hmarks _ _ _ _ R). apply elem_of_dom. eauto. }
  assert (∃ m, marks (bw_sib w) !! d = Some m) as [m' Hm'].
  { apply elem_of_dom. rewrite (r_smarks _ _ _ _ R). apply elem_of_dom. eauto. }
  wp_step. apply wp_zoom. wp_use wp_lru_add_new'; [apply (lr_is _ _ _ _ (r_lru _ _ _ _ R)) | exact Hv | done | done |].
  intros [] s' Hs'. wp_step. apply wp_zoom. bsimpl.
  wp_use (wp_bl_hlist_add_head_locked _ _ _ _ HCh); [apply (Hlk _ Hb1) | exact Hm | | done | done |].
  { by eapply not_listed. }
  intros [] ch Hch. apply wp_zoom. bsimpl.
  wp_use (wp_bl_hlist_add_head_locked _ _ _ _ HCs); [apply (Hlk _ Hb2) | exact Hm' | | done | done |].
  { by eapply not_listed. }
  intros [] cs Hcs. set (w1 := set_lru s' w).
  assert (rep w1 N T {[d]}) as R1.
  { apply rep_set_lru; [done |]. eapply lru_rep_word; [apply R | exact Hs' | apply elem_of_dom; eauto |].
    unfold word_is. rewrite HN. right; right. split; [by apply elem_of_singleton |].
    exists (lru_nid nid). split; [apply lru_nid_lt | done]. }
  assert (words s' !! d = Some (DC_LRU_ON (lru_nid nid))) as Hw'.
  { destruct Hs' as (_ & _ & ->). apply lookup_insert_eq. }
  assert (held w1 hs) as Hh1 by exact Hh.
  change (set_sib cs (set_hash ch (set_lru s' w))) with (set_sib cs (set_hash ch w1)).
  split_and!; [| | done | done].
  - rewrite <- (minus_self d). split.
    + eapply (rep_publish w1 N T {[d]} d x n); [done | by apply elem_of_singleton | done | done | done | exact Hw' | |
        done | done | exact HLh | exact HLs | exact Hch | exact Hcs].
      unfold DC_LRU_ON, DC_LRU_DEAD. lia.
    + by eapply held_chains.
    + apply rcu_rep_publish; [done | by apply elem_of_singleton].
    + by rewrite minus_self.
    + done.
  - intros h Hin. destruct (Hhs h Hin) as [b Hb]. exists b. apply chain_is_bits in Hch as [Eh _].
    apply chain_is_bits in Hcs as [Es _]. destruct h; simpl in *; by rewrite ?Eh, ?Es.
Qed.

Lemma wp_bl_add_typed k w N T path id isdir pos :
  binv k w N T → path_wf path →
  wp (dc_add_typed path id isdir pos)
    (bl_post k w (spec_add_bl (bw_root w) (posix_memalign (dom (bw_dent w))) (pnames path) id isdir pos N)) w.
Proof.
  intros Hi Hp. unfold dc_add_typed, spec_add_bl. destruct (decide (ndepth path = 0)%nat) as [H0 | H0].
  { assert (pnames path = []) as -> by (unfold pnames; by rewrite H0). wp_step. simpl. by eapply bl_post_same. }
  destruct (path_split path Hp H0) as (q & Hq & Hqw & _ & ->). wp_step.
  apply (wp_resolve_parent k w N T path); [done | done | |]; clear Hi.
  { intros w1 Hi Er Em Ed ->. simpl. wp_step. by eapply bl_post_same. }
  intros w1 p pn Hi Er Em Ed -> Hpn Hpa Hp0. rewrite <- Ed. rewrite <- Er. simpl. rewrite Hpn. simpl.
  destruct (Z.eqb_spec p 0); [done |]. pose proof (bi_rep _ _ _ _ Hi) as R.
  destruct (rep_node _ _ _ _ p pn R Hpn) as (px & Hpx & Hpok & Hdir & Hpos & _).
  wp_step. eapply wp_lookup; [done |]. rewrite Hdir.
  destruct (n_dir pn) eqn:Edir; simpl; [| wp_step; by eapply bl_post_same].
  wp_step. eapply wp_run; [by apply comp_at_run |]. wp_step.
  eapply wp_run; [by apply (child_lookup_run' w1 N T ∅) |].
  destruct (child (bw_root w1) N p (qname q)) as [c |] eqn:Ec; simpl.
  { pose proof (child_nonzero _ _ _ _ R _ _ _ Ec). destruct (Z.eqb_spec c 0); [done |]. simpl.
    wp_step. by eapply bl_post_same. }
  wp_step. unfold wp at 1. rewrite dentry_alloc_run. destruct (posix_memalign _) as [d |] eqn:Ea; simpl.
  2:{ wp_step. by eapply bl_post_same. }
  destruct (alloc_fresh w1 d Ea) as (Hfresh & Hda & Hd0). destruct (Z.eqb_spec d 0); [done |].
  set (x := new_dent p q id isdir pos). set (w2 := alloc_dent d x w1).
  assert (sect k w2 N T {[d]} ∅ []) as S2.
  { rewrite <- (union_empty_r_L {[d]}). apply sect_alloc; [by apply sect_binv | done ..]. }
  destruct (new_dent_tags p q id isdir pos Hpa Hqw) as (Hxok & Hxi & Hxs & Hxp). fold x in Hxok, Hxi, Hxs, Hxp.
  assert (words (bw_lru w2) !! d = Some DC_LRU_OFF) as Hword.
  { unfold w2, alloc_dent, words. bsimpl. simpl. by rewrite lookup_fmap, lookup_insert_eq. }
  assert (N !! d = None) as HNd.
  { by apply (r_priv _ _ _ _ (se_rep _ _ _ _ _ _ _ S2) d); apply elem_of_singleton. }
  set (nd := Node p (qname q) id isdir pos). wp_step. apply wp_gets.
  assert (bucket_index (bw_mask w2) p (q_hash q) = node_bucket (bw_mask w2) nd) as ->.
  { unfold node_bucket. simpl. by rewrite (qw_hash q Hqw). }
  wp_step. eapply wp_sect_lock2; [exact S2 | |].
  { intros h [-> | [-> | []%not_elem_of_nil]%elem_of_cons]%elem_of_cons.
    - eapply heads_bucket, S2.
    - eapply heads_child; [apply S2 | by eexists]. }
  intros w3 Hl3 S3 Hok3. pose proof (se_rep _ _ _ _ _ _ _ S3) as R3.
  destruct (relock_same _ _ Hl3) as (Em3 & Er3 & En3 & Ed3 & El3 & _).
  assert (bw_dent w3 !! d = Some x) as Hdx.
  { rewrite Ed3. unfold w2, alloc_dent. bsimpl. apply lookup_insert_eq. }
  assert (bw_dent w3 !! p = Some px) as Hpx3.
  { rewrite Ed3. unfold w2, alloc_dent. bsimpl. rewrite lookup_insert_ne by congruence. done. }
  rewrite <- El3 in Hword. wp_step. eapply wp_run; [by eapply node_is_positive_run |]. rewrite Hpos.
  destruct (n_pos pn) eqn:Epos; simpl.
  2:{ wp_step. eapply wp_sect_unlock2; [done | done |]. intros w4 Hl4 S4.
      destruct (relock_same _ _ Hl4) as (Em4 & Er4 & _ & _ & El4 & _). wp_step.
      wp_use wp_give_back; [exact S4 | by apply elem_of_singleton | done | rewrite El4; exact Hword | apply off_list_off |].
      intros [] w5 (S5 & Er5 & Em5 & _). rewrite minus_self in S5. wp_step.
      eapply bl_post_same; [by apply sect_binv | done | done | |].
      - rewrite Er5, Er4, Er3. done.
      - rewrite Em5, Em4, Em3. done. }
  wp_step. eapply wp_run; [apply (entry_alive_run w3 N T {[d]} R3); by eexists |]. cbn [negb].
  wp_step. eapply wp_run; [by apply (child_lookup_run' w3 N T {[d]}) |].
  change (bw_root w2) with (bw_root w1) in Er3. rewrite Er3, Ec. simpl.
  wp_step. wp_step.
  assert (∀ m1 m2 m3 m4 : M unit, ∀ Q, wp (m1 ;;; m2 ;;; m3) (λ _, wp (m4 ;;; st_ret 0) Q) w3 →
    wp (m1 ;;; m2 ;;; m3 ;;; m4 ;;; st_ret 0) Q w3) as Hassoc.
  { intros m1 m2 m3 m4 Q. unfold wp, st_bind. destruct (m1 w3) as [[? w'] |]; [| done].
    destruct (m2 w') as [[? w''] |]; [| done]. by destruct (m3 w'') as [[? ?] |]. }
  apply Hassoc. change (bw_mask w1) with (bw_mask w2). rewrite <- Em3. wp_use (wp_add_publish k w3 N T d x nd DC_LRU_OFF).
  - exact S3.
  - exact Hdx.
  - exact Hxok.
  - split; try done. unfold dtop_val. by rewrite Z.eqb_refl.
  - exact Hword.
  - apply off_list_off.
  - rewrite Em3. left.
  - right. left.
  - done.
  - rewrite Er3. eapply tree_add; [apply R | done | done | done].
  - rewrite Er3. eapply typed_add; [apply R | apply R | done | done | done | done].
  - intros [] w4 (S4 & Hok4 & Er4 & Em4). wp_step. rewrite Em3.
    eapply wp_sect_unlock2; [exact S4 | exact Hok4 |]. intros w5 Hl5 S5.
    destruct (relock_same _ _ Hl5) as (Em5 & Er5 & _). wp_step.
    eapply bl_post_same; [by apply sect_binv | done | done | |].
    + by rewrite Er5, Er4, Er3.
    + by rewrite Em5, Em4, Em3.
Qed.

(** ** Attributes *)

(** The d_iparent word with the negative tag set or cleared. *)
Lemma neg_word x neg :
  dent_ok x → posb x = neg →
  (if neg then Z.lor (d_iparent x) DC_TAG_NEG else Z.land (d_iparent x) (Z.lnot DC_TAG_NEG))
  = ipar x + itag (shellb x) neg.
Proof.
  intros Hok Hp. rewrite (dk_word _ Hok), Hp. pose proof (dk_ipar _ Hok) as Ha.
  assert (0 ≤ itag (shellb x) (negb neg) < 64) as Hr by apply itag_range.
  destruct neg; simpl.
  - rewrite <- (aligned_lor (ipar x) (itag (shellb x) false)), <- Z.lor_assoc by (done || apply itag_range).
    rewrite <- (aligned_lor (ipar x) (itag (shellb x) true)) by (done || apply itag_range).
    f_equal. by destruct (shellb x).
  - rewrite aligned_clear by done. by destruct (shellb x).
Qed.

Definition flipped (n : node) (neg : bool) (id : Z) : node :=
  Node (n_parent n) (n_name n) (if neg then n_id n else id) (n_dir n) (negb neg).

Lemma wp_dc_set_negative k w N T P V hs h n neg id :
  sect k w N T P V hs → N !! h = Some n → h ≠ bw_root w → (neg = true → kids (bw_root w) N h = []) →
  (n_pos n = false → kids (bw_root w) N h = []) →
  wp (dc_set_negative h neg id) (λ r w',
    if bool_decide (n_pos n = neg) then
      r = 0 ∧ sect k w' (<[h := flipped n neg id]> N) T P V hs ∧
      bw_hash w' = bw_hash w ∧ bw_sib w' = bw_sib w ∧ bw_root w' = bw_root w ∧ bw_mask w' = bw_mask w
    else r = (if neg then - ENOENT else - EEXIST) ∧ w' = w) w.
Proof.
  intros [R Hh Hq Hm Hk] Hn Hr Hkids Hkids'. destruct (rep_top _ _ _ _ R h n Hn) as (t & x & tx & Ht & E).
  pose proof (en_host _ _ _ _ _ _ E) as Hx. destruct (entry_ok _ _ _ _ R h n t x tx Ht Hn E) as [Hok _].
  unfold dc_set_negative. wp_step. eapply wp_lookup; [exact Hx |].
  change (Z.land (d_iparent x) DC_TAG_NEG =? 0) with (posb x). rewrite (en_pos _ _ _ _ _ _ E).
  destruct (decide (n_pos n = neg)) as [Ep | Ep].
  2:{ rewrite (bool_decide_eq_true_2 (negb (n_pos n) = neg)) by (by destruct (n_pos n), neg).
      rewrite bool_decide_eq_false_2 by done. by wp_step. }
  rewrite (bool_decide_eq_false_2 (negb (n_pos n) = neg)) by (by destruct (n_pos n), neg).
  rewrite bool_decide_eq_true_2 by done.
  pose proof (neg_word x neg Hok ltac:(by rewrite (en_pos _ _ _ _ _ _ E))) as Ew.
  set (x1 := if neg then x else set_id id x).
  assert (wp (when (negb neg) (dent_store h (set_id id)))
    (λ _ w1, w1 = set_dent (<[h := x1]> (bw_dent w)) w) w) as Hid.
  { unfold x1. destruct neg; simpl.
    - rewrite insert_id by done. apply wp_ret. by destruct w.
    - eapply wp_run; [by apply dent_store_run |]. done. }
  wp_step. eapply wp_mono; [exact Hid |]. intros [] w1 ->. cbn beta.
  wp_step. eapply wp_run; [apply dent_store_run, lookup_insert_eq |].
  wp_step. eapply wp_run; [apply dent_store_run, lookup_insert_eq |]. wp_step. bsimpl.
  rewrite !insert_insert_eq. split; [done |]. split_and!; [| done | done | done | done].
  set (x' := set_inode _ _).
  assert (d_iparent x' = ipar x + itag (shellb x) neg) as Ei.
  { unfold x'. simpl. exact Ew. }
  destruct (tag_word (ipar x) (shellb x) neg x' (dk_ipar _ Hok) Ei) as (E1 & E2 & E3).
  assert (d_iname x' = d_iname x ∧ d_top x' = d_top x ∧ d_isdir x' = d_isdir x ∧ d_parent x' = d_parent x ∧
    d_fwd x' = d_fwd x ∧ d_moving x' = d_moving x ∧ d_id x' = if neg then n_id n else id)
    as (F1 & F2 & F3 & F4 & F5 & F6 & F7).
  { unfold x', x1. destruct neg; simpl; split_and!; try done. apply E. }
  assert (dent_ok x') as Hok'.
  { destruct Hok. split; rewrite ?E1, ?E2, ?E3, ?F1, ?F2, ?F4, ?F5, ?negb_involutive; done. }
  split.
  - eapply (rep_attr w N T P h n x x'); try done.
    + apply tree_set_attrs; [apply R | done | done].
    + apply typed_set_attrs; [apply R | done |]. right. destruct neg; [by apply Hkids | by apply Hkids'].
  - exact Hh.
  - eapply rcu_rep_ext; [exact Hq | |]; bsimpl.
    + intros d y Hd HP HN HT. assert (h ≠ d) by congruence. rewrite !lookup_insert_ne by done. eauto.
    + intros d y Hd HP Hs. split; [done |]. destruct (decide (h = d)) as [<- |].
      * exists x'. rewrite lookup_insert_eq. split; [done |]. congruence.
      * exists y. by rewrite lookup_insert_ne.
  - intros d y. bsimpl. destruct (decide (h = d)) as [<- |].
    + rewrite lookup_insert_eq. intros [= <-]. rewrite F6. by apply Hm.
    + rewrite lookup_insert_ne by done. apply Hm.
  - done.
Qed.

Lemma wp_bl_instantiate k w N T path id :
  binv k w N T → path_wf path →
  wp (dc_instantiate path id) (bl_post k w (spec_instantiate (bw_root w) (pnames path) id N)) w.
Proof.
  intros Hi Hp. unfold dc_instantiate, spec_instantiate. destruct (decide (ndepth path = 0)%nat) as [H0 | H0].
  { assert (pnames path = []) as -> by (unfold pnames; by rewrite H0). wp_step. by eapply bl_post_same. }
  destruct (path_split path Hp H0) as (q & Hq & Hqw & Hw & _).
  destruct (pnames path) as [| nm0 rest] eqn:En; [by apply pnames_nonempty in En |]. rewrite <- En, Hw in *.
  clear Hw. wp_step. apply wp_mod. wp_step.
  apply (wp_resolve_parent (S k) _ N T path); [by apply binv_enter | done | |]; bsimpl; clear Hi.
  { intros w1 Hi Er Em Ed ->. cbn. by eapply wp_leave_ret. }
  intros w1 p pn Hi Er Em Ed -> Hpn Hpa Hp0. rewrite <- Er. cbn [mbind option_bind].
  destruct (Z.eqb_spec p 0); [done |]. pose proof (bi_rep _ _ _ _ Hi) as R.
  wp_step. eapply wp_run; [by apply comp_at_run |]. wp_step. apply wp_gets.
  rewrite (qw_hash q Hqw). apply wp_first_round. unfold instantiate_round. wp_step.
  destruct (find_top_cases w1 N T ∅ p q R Hqw) as [[Ec Ef] | (h & nd & t & Ec & Hnd & Ht & Ht0 & Hr & Hnp & Hnn & Ef)];
    (eapply wp_run; [exact Ef |]); rewrite Ec; cbn [mbind option_bind].
  { rewrite Z.eqb_refl. wp_step. eexists. split; [done |]. by eapply wp_leave_ret. }
  rewrite Hnd. cbn [mbind option_bind]. destruct (Z.eqb_spec t 0); [done |].
  wp_step. eapply (wp_sect_lock1 _ _ _ _ _ _ (Bucket _)); [by apply sect_binv | |].
  { intros x ->%list_elem_of_singleton. by eapply heads_bucket. }
  intros w2 Hl2 S2 Hok2. pose proof (se_rep _ _ _ _ _ _ _ S2) as R2.
  destruct (relock_same _ _ Hl2) as (Em2 & Er2 & _).
  wp_step. eapply wp_run; [by eapply live_run |]. cbn iota.
  wp_step. eapply wp_run; [by eapply host_of_top |]. wp_step.
  wp_use (wp_dc_set_negative _ _ _ _ _ _ _ h nd false id S2 Hnd); [by rewrite Er2 | done | |].
  { intros Epos. eapply typed_kids; [apply R2 | done | by right]. }
  intros r w3 Hpost. destruct (n_pos nd) eqn:Epos.
  - destruct Hpost as [-> ->]. wp_step. eapply (wp_sect_unlock1 _ _ _ _ _ _ (Bucket _)); [exact S2 | exact Hok2 |].
    intros w3 Hl3 S3. destruct (relock_same _ _ Hl3) as (Em3 & Er3 & _).
    wp_step. eexists. split; [done |]. eapply wp_leave_ret; [by apply sect_binv | done | done | |]; congruence.
  - destruct Hpost as (-> & S3 & Eh & Es & Er3 & Em3). wp_step.
    eapply (wp_sect_unlock1 _ _ _ _ _ _ (Bucket _)); [exact S3 | |].
    { by eapply heads_ok_bits; [rewrite Eh | rewrite Es |]. }
    intros w4 Hl4 S4. destruct (relock_same _ _ Hl4) as (Em4 & Er4 & _).
    wp_step. eexists. split; [done |]. eapply wp_leave_ret; [by apply sect_binv | done | done | |]; congruence.
Qed.

(** [dc_delete]'s last round: the entry is a file, or its child head is locked too. *)
Lemma wp_bl_delete_flip k w0 w N T h nd (U : M unit) hs :
  sect (S k) w N T ∅ ∅ hs → heads_ok w hs → N !! h = Some nd → h ≠ bw_root w0 →
  bw_root w = bw_root w0 → bw_mask w = bw_mask w0 →
  (n_dir nd = true → kids (bw_root w0) N h = []) →
  (∀ w' N' T' Q, sect (S k) w' N' T' ∅ ∅ hs → heads_ok w' hs →
     (∀ w'', relock w' w'' → sect (S k) w'' N' T' ∅ ∅ [] → Q tt w'') → wp U Q w') →
  wp (let! ret := dc_set_negative h true 0 in U ;;; st_ret (inr ret))
    (λ (r : Z + Z) w', match r with
     | inl _ => False
     | inr ret => wp (rcu_read_unlock ;;; st_ret ret)
         (bl_post k w0 (if negb (n_pos nd) then (- ENOENT, N) else (0, <[h := flipped nd true 0]> N))) w'
     end) w.
Proof.
  intros S Hok Hn Hr Er Em Hk HU. pose proof (se_rep _ _ _ _ _ _ _ S) as R.
  assert (kids (bw_root w) N h = []) as Hk'.
  { rewrite Er. destruct (n_dir nd) eqn:Ed; [by apply Hk |]. rewrite <- Er. eapply typed_kids; [apply R | done | by left]. }
  wp_step. wp_use (wp_dc_set_negative _ _ _ _ _ _ _ h nd true 0 S Hn); [by rewrite Er | done | done |].
  intros r w1 Hpost. destruct (n_pos nd).
  - destruct Hpost as (-> & S1 & Eh & Es & Er1 & Em1). wp_step. eapply HU; [exact S1 | |].
    { by eapply heads_ok_bits; [rewrite Eh | rewrite Es |]. }
    intros w2 Hl2 S2. destruct (relock_same _ _ Hl2) as (Em2 & Er2 & _). wp_step.
    eapply wp_leave_ret; [by apply sect_binv | done | done | |]; congruence.
  - destruct Hpost as [-> ->]. wp_step. eapply HU; [exact S | exact Hok |].
    intros w2 Hl2 S2. destruct (relock_same _ _ Hl2) as (Em2 & Er2 & _). wp_step.
    eapply wp_leave_ret; [by apply sect_binv | done | done | |]; congruence.
Qed.

Lemma wp_bl_delete k w N T path :
  binv k w N T → path_wf path →
  wp (dc_delete path) (bl_post k w (spec_delete (bw_root w) (pnames path) N)) w.
Proof.
  intros Hi Hp. unfold dc_delete, spec_delete. destruct (decide (ndepth path = 0)%nat) as [H0 | H0].
  { assert (pnames path = []) as -> by (unfold pnames; by rewrite H0). wp_step. by eapply bl_post_same. }
  destruct (path_split path Hp H0) as (q & Hq & Hqw & Hw & _).
  destruct (pnames path) as [| nm0 rest] eqn:En; [by apply pnames_nonempty in En |]. rewrite <- En, Hw in *.
  clear Hw. wp_step. apply wp_mod. wp_step.
  apply (wp_resolve_parent (S k) _ N T path); [by apply binv_enter | done | |]; bsimpl; clear Hi.
  { intros w1 Hi Er Em Ed ->. cbn. by eapply wp_leave_ret. }
  intros w1 p pn Hi Er Em Ed -> Hpn Hpa Hp0. rewrite <- Er. cbn [mbind option_bind].
  destruct (Z.eqb_spec p 0); [done |]. pose proof (bi_rep _ _ _ _ Hi) as R.
  wp_step. eapply wp_run; [by apply comp_at_run |]. wp_step. apply wp_gets.
  rewrite (qw_hash q Hqw). apply wp_two_rounds. set (b := bucket_index _ _ _).
  destruct (find_top_cases w1 N T ∅ p q R Hqw) as [[Ec Ef] | (h & nd & t & Ec & Hnd & Ht & Ht0 & Hr & Hnp & Hnn & Ef)].
  { unfold rounds, delete_round. wp_step. eapply wp_run; [exact Ef |]. rewrite Ec, Z.eqb_refl. wp_step.
    by eapply wp_leave_ret. }
  rewrite Ec. cbn [mbind option_bind]. rewrite Hnd. cbn [mbind option_bind].
  destruct (rep_aligned _ _ _ _ R h ltac:(by eexists)) as [_ Hh0].
  assert (∀ w2, rep w2 N T ∅ → bw_dent w2 = bw_dent w1 → ∃ x, bw_dent w2 !! h = Some x ∧ d_isdir x = n_dir nd) as Hdir.
  { intros w2 R2 _. destruct (rep_node _ _ _ _ h nd R2 Hnd) as (x & Hx & _ & Hd & _). eauto. }
  assert (heads_ok w1 [Bucket b; ChildHead h]) as Hheads.
  { intros x [-> | [-> | []%not_elem_of_nil]%elem_of_cons]%elem_of_cons; [by eapply heads_bucket |].
    eapply heads_child; [done | by eexists]. }
  unfold rounds at 1. unfold delete_round at 1. wp_step. eapply wp_run; [exact Ef |].
  destruct (Z.eqb_spec t 0); [done |]. change (0 =? 0) with true. cbn [negb].
  wp_step. eapply wp_sect_lock1; [by apply sect_binv | intros x ->%list_elem_of_singleton; apply Hheads; by left |].
  intros w2 Hl2 S2 Hok2. pose proof (se_rep _ _ _ _ _ _ _ S2) as R2. destruct (relock_same _ _ Hl2) as (Em2 & Er2 & _ & Ed2 & _).
  wp_step. eapply wp_run; [by eapply live_run |]. cbn iota. wp_step. eapply wp_run; [by eapply host_of_top |].
  destruct (Hdir w2 R2 Ed2) as (x & Hx & Ex). wp_step. eapply wp_lookup; [exact Hx |]. rewrite Ex.
  destruct (Z.eqb_spec h 0); [done |]. destruct (n_dir nd) eqn:Edir; cbn [andb negb].
  2:{ wp_step. wp_step. cbn [negb].
      wp_use (wp_bl_delete_flip k w w2 N T h nd _ [Bucket b]);
        [done | done | done | congruence | congruence | congruence | congruence | |].
      - intros w' N' T' Q S' Hok' HQ. by eapply wp_sect_unlock1.
      - intros [? | ret] w'; [done |]. unfold flipped. by rewrite Edir. }
  wp_step. eapply wp_sect_unlock1; [exact S2 | exact Hok2 |]. intros w3 Hl3 S3.
  destruct (relock_same _ _ Hl3) as (Em3 & Er3 & _ & Ed3 & _). wp_step. pose proof (se_rep _ _ _ _ _ _ _ S3) as R3.
  unfold delete_round. wp_step. rewrite <- Er2, <- Er3 in Ec.
  destruct (find_top_cases w3 N T ∅ p q R3 Hqw) as [[Ec' _] | (h' & nd' & t' & Ec' & Hnd' & Ht' & _ & _ & _ & _ & Ef')];
    [congruence |]. assert (h' = h ∧ nd' = nd ∧ t' = t) as (-> & -> & ->) by (split_and!; congruence).
  eapply wp_run; [exact Ef' |]. destruct (Z.eqb_spec t 0); [done |]. destruct (Z.eqb_spec h 0); [done |]. cbn [negb].
  wp_step. eapply wp_sect_lock2; [exact S3 | |].
  { eapply (relock_heads w1 w3); [exact R | by eapply relock_trans | exact Hheads]. }
  intros w4 Hl4 S4 Hok4. pose proof (se_rep _ _ _ _ _ _ _ S4) as R4. destruct (relock_same _ _ Hl4) as (Em4 & Er4 & _ & Ed4 & _).
  wp_step. eapply wp_run; [by eapply live_run |]. cbn iota. wp_step. eapply wp_run; [by eapply host_of_top |].
  destruct (Hdir w4 R4 ltac:(congruence)) as (x4 & Hx4 & Ex4). wp_step. eapply wp_lookup; [exact Hx4 |]. rewrite Ex4, Z.eqb_refl.
  cbn [andb negb]. wp_step. eapply wp_run; [apply (children_empty_run w4 N T ∅ R4); by eexists |].
  assert (bw_root w4 = bw_root w1) as Er41 by congruence. rewrite Er41.
  case_bool_decide as Hk; cbn [negb].
  - wp_use (wp_bl_delete_flip k w w4 N T h nd _ [Bucket b; ChildHead h]);
      [done | done | done | congruence | congruence | congruence | | |].
    + intros _. by rewrite <- Er.
    + intros w' N' T' Q S' Hok' HQ. by eapply wp_sect_unlock2.
    + intros [? | ret] w'; [done |]. unfold flipped. by rewrite Edir.
  - destruct (n_pos nd) eqn:Epos; [| by destruct Hk; eapply typed_kids; [apply R | done | right]].
    cbn [negb]. wp_step. eapply wp_sect_unlock2; [exact S4 | exact Hok4 |].
    intros w5 Hl5 S5. destruct (relock_same _ _ Hl5) as (Em5 & Er5 & _). wp_step.
    eapply wp_leave_ret; [by apply sect_binv | done | done | congruence | congruence].
Qed.

(** ** [dc_unlink] *)

(** From the removal of the top to the end of [dc_unlink]. *)
Lemma wp_unlink_tail k w0 w N T h n t x hx :
  sect (S k) w (delete h N) (delete h T) {[h]} ∅ [] → T !! h = Some t → (t ≠ h → N !! t = None) →
  bw_dent w !! h = Some hx → dent_ok hx → shellb hx = false → bw_dent w !! t = Some x →
  N !! h = Some n → h ∉ (cb_dent <$> bw_rcu w) → bw_root w = bw_root w0 → bw_mask w = bw_mask w0 →
  wp (let! can_free := on_lru (lru_del_can_free h true) in
      when (negb (t =? h)) (on_lru (lru_del t)) ;;;
      rcu_read_unlock ;;;
      when can_free (dc_free_host h) ;;;
      st_ret 0) (bl_post k w0 (0, delete h N)) w.
Proof.
  intros S Ht HNt Hhx Hok Hsh Hx Hn Hq Er Em.
  wp_step. wp_use wp_lru_let_go; [exact S | by eexists | apply lookup_delete_eq |].
  intros r w1 (-> & Ho1 & S1 & Hw1 & _). destruct (only_lru_same _ _ Ho1) as (Em1 & Er1 & _ & Ed1 & _ & _ & Eq1 & _).
  assert (∀ w2, only_lru w1 w2 → sect (Datatypes.S k) w2 (delete h N) (delete h T) {[h]} ∅ [] →
    words (bw_lru w2) !! h = Some DC_LRU_DEAD →
    wp (rcu_read_unlock ;;; when true (dc_free_host h) ;;; st_ret 0) (bl_post k w0 (0, delete h N)) w2) as Hend.
  { intros w2 Ho2 S2 Hw2. destruct (only_lru_same _ _ Ho2) as (Em2 & Er2 & _ & Ed2 & _ & _ & Eq2 & _).
    wp_step. eapply wp_rcu_leave; [exact S2 |]. intros S3. wp_step.
    wp_use wp_queue_free; [exact S3 | by apply elem_of_singleton | bsimpl; rewrite Ed2, Ed1; exact Hhx | done | done |
      bsimpl; by rewrite Eq2, Eq1 | exact Hw2 | by right |].
    intros [] w4 (S4 & Er4 & Em4 & _). rewrite minus_self in S4. wp_step. bsimpl in *.
    eapply bl_post_same; [by apply sect_binv | done | done | congruence | congruence]. }
  wp_step. destruct (Z.eqb_spec t h) as [-> | Hne]; cbn [negb when].
  - wp_step. by apply Hend; [apply only_lru_refl | |].
  - wp_use wp_lru_del_shell; [exact S1 | rewrite Ed1; by eexists | |].
    { apply lookup_delete_None. right. by apply HNt. }
    intros [] w2 (Ho2 & S2 & Hother). apply Hend; [done | done |]. by rewrite Hother.
Qed.

Lemma wp_bl_unlink k w N T path :
  binv k w N T → path_wf path →
  wp (dc_unlink path) (bl_post k w (spec_unlink (bw_root w) (pnames path) N)) w.
Proof.
  intros Hi Hp. unfold dc_unlink, spec_unlink. destruct (decide (ndepth path = 0)%nat) as [H0 | H0].
  { assert (pnames path = []) as -> by (unfold pnames; by rewrite H0). wp_step. by eapply bl_post_same. }
  destruct (path_split path Hp H0) as (q & Hq & Hqw & Hw & _).
  destruct (pnames path) as [| nm0 rest] eqn:En; [by apply pnames_nonempty in En |]. rewrite <- En, Hw in *.
  clear Hw. wp_step.
  apply (wp_resolve_parent k w N T path); [done | done | |]; clear Hi.
  { intros w1 Hi Er Em Ed ->. rewrite Z.eqb_refl. wp_step. by eapply bl_post_same. }
  intros w1 p pn Hi Er Em Ed -> Hpn Hpa Hp0. rewrite <- Er. cbn [mbind option_bind].
  destruct (Z.eqb_spec p 0); [done |].
  wp_step. eapply wp_run; [by apply comp_at_run |]. wp_step. apply wp_gets.
  wp_step. apply wp_mod. pose proof (binv_enter _ _ _ _ Hi) as Hi2. clear Hi.
  set (w2 := set_nest _ w1) in *. pose proof (bi_rep _ _ _ _ Hi2) as R.
  rewrite (qw_hash q Hqw). change (bw_mask w1) with (bw_mask w2). change (bw_root w1) with (bw_root w2) in Er |- *.
  set (b := bucket_index _ _ _).
  assert (∀ (r : M (unit + (Z + Z * Z))) (f1 : Z → M Z) (f2 : Z → Z → M Z) Q w,
    wp r (λ r w', match r with inr (inl e) => wp (f1 e) Q w' | inr (inr (a, b)) => wp (f2 a b) Q w' | inl _ => False end) w →
    wp (let! r := r in match r with inl _ => st_fault NoFuel | inr (inl e) => f1 e | inr (inr (a, b)) => f2 a b end) Q w)
    as Hcase.
  { intros r f1 f2 Q w' H. apply wp_bind. eapply wp_mono; [exact H |]. by intros [? | [? | [? ?]]] ? ?. }
  apply Hcase. clear Hcase. apply wp_iter_first.
  apply wp_mono with (P := λ r w', match r with
    | inl _ => False
    | inr (inl e) => wp (rcu_read_unlock ;;; st_ret e) (bl_post k w
       match child (bw_root w2) N p (qname q) with
       | None => (- ENOENT, N)
       | Some d => if negb (bool_decide (kids (bw_root w2) N d = [])) then (- ENOTEMPTY, N) else (0, delete d N)
       end) w'
    | inr (inr (t, h)) => wp (let! can_free := on_lru (lru_del_can_free h true) in
          when (negb (t =? h)) (on_lru (lru_del t)) ;;; rcu_read_unlock ;;;
          when can_free (dc_free_host h) ;;; st_ret 0) (bl_post k w
       match child (bw_root w2) N p (qname q) with
       | None => (- ENOENT, N)
       | Some d => if negb (bool_decide (kids (bw_root w2) N d = [])) then (- ENOTEMPTY, N) else (0, delete d N)
       end) w'
    end); [| intros [? | [e | [t h]]] w'; [done | eauto | eauto]].
  unfold unlink_round. wp_step.
  destruct (find_top_cases w2 N T ∅ p q R Hqw) as [[Ec Ef] | (h & nd & t & Ec & Hnd & Ht & Ht0 & Hr & Hnp & Hnn & Ef)];
    (eapply wp_run; [exact Ef |]); rewrite Ec.
  { rewrite Z.eqb_refl. wp_step. by eapply wp_leave_ret. }
  destruct (Z.eqb_spec t 0); [done |]. wp_step. eapply wp_run; [by eapply host_of_top |].
  wp_step. eapply wp_run; [apply (children_empty_run w2 N T ∅ R); by eexists |].
  case_bool_decide as Hk; cbn [negb]; [| wp_step; by eapply wp_leave_ret].
  destruct (rep_node _ _ _ _ h nd R Hnd) as (hx & Hhx & Hhok & Hdir & _ & Hsh & _).
  wp_step. eapply wp_lookup; [exact Hhx |]. wp_step. eapply wp_sect_lock_n; [by apply sect_binv | |].
  { assert (is_Some (hbit w2 (Bucket b)) ∧ is_Some (hbit w2 (ChildHead p)) ∧ is_Some (hbit w2 (ChildHead h)))
      as (H1 & H2 & H3).
    { split_and!; [by eapply heads_bucket | eapply heads_child; [done | by eexists] | eapply heads_child; [done | by eexists]]. }
    intros x. destruct (d_isdir hx); rewrite ?app_nil_r; simpl; rewrite !elem_of_cons, elem_of_nil;
      intros Hx; destruct_or! Hx; by subst. }
  intros w3 Hl3 S3 Hok3. destruct (relock_same _ _ Hl3) as (Em3 & Er3 & _ & Ed3 & _ & Eq3 & _).
  pose proof (se_rep _ _ _ _ _ _ _ S3) as R3.
  wp_step. eapply wp_run; [by eapply live_run |]. cbn iota.
  wp_step. eapply wp_run; [apply (children_empty_run w3 N T ∅ R3); by eexists |].
  rewrite Er3, bool_decide_eq_true_2 by done. cbn [negb].
  assert (∀ (m1 m2 m3 : M unit) (m4 : M (unit + (Z + Z * Z))) Q w, wp (m1 ;;; m2) (λ _, wp (m3 ;;; m4) Q) w →
    wp (m1 ;;; m2 ;;; m3 ;;; m4) Q w) as Hassoc.
  { intros m1 m2 m3 m4 Q w'. unfold wp, st_bind. destruct (m1 w') as [[? w''] |]; [| done].
    by destruct (m2 w'') as [[? ?] |]. }
  apply Hassoc. clear Hassoc. wp_use wp_withdraw; [exact S3 | exact Hok3 | exact Hnd | exact Ht | by rewrite Er3 | by rewrite Er3 |].
  intros [] w4 (S4 & Hok4 & Er4 & Em4 & El4 & Ed4 & Eq4). wp_step.
  eapply wp_sect_unlock_n; [exact S4 | exact Hok4 |]. intros w5 Hl5 S5.
  destruct (relock_same _ _ Hl5) as (Em5 & Er5 & _ & Ed5 & _ & Eq5 & _). wp_step.
  destruct (rep_dom_T _ _ _ _ h t R Ht) as [tx Htx]. rewrite union_empty_r_L in S5.
  eapply (wp_unlink_tail k w w5 N T h nd t tx hx).
  - exact S5.
  - exact Ht.
  - intros Hne. destruct (N !! t) eqn:E; [| done]. destruct Hne. apply (top_host _ _ _ _ R h t Ht). by eexists.
  - by rewrite Ed5, Ed4, Ed3.
  - done.
  - done.
  - by rewrite Ed5, Ed4, Ed3.
  - done.
  - rewrite Eq5, Eq4, Eq3. eapply host_not_queued; [exact R | apply Hi2 | done].
  - congruence.
  - rewrite Em5, Em4, Em3. exact Em.
Qed.

End ops.
