(* ===== verification/BlTxn.v ===== *)
(** Single-writer transactions of the bucket-lock engine: when the records of a
    rename, a fold or an exchange are ready, and what their commit does to the
    representation. *)

From S2P Require Import Prelude Qstr HList Lru World Walk Namespace TreeOps BlChain BlLists.
From S2P Require Import BlRecs BlLru BlLruSpec BlWorld BlWalk BlOps BlMove BlInv BlReads.
From S2P Require Import BlWalkSpec BlLocks BlRep BlSect.

(** ** Records of several kinds *)

Lemma srecs_apply_app l l' w : srecs_apply (l ++ l') w = srecs_apply l' (srecs_apply l w).
Proof. apply foldl_app. Qed.

Lemma srecs_apply_hash l w : srecs_apply (map RHash l) w = set_hash (lrecs_apply l (bw_hash w)) w.
Proof.
  revert w. induction l as [| r l IH]; intros w; [by destruct w |].
  change (srecs_apply (map RHash (r :: l)) w)
    with (srecs_apply (map RHash l) (set_hash (lrec_apply r (bw_hash w)) w)). by rewrite IH.
Qed.

Lemma srecs_apply_sib l w : srecs_apply (map RSib l) w = set_sib (lrecs_apply l (bw_sib w)) w.
Proof.
  revert w. induction l as [| r l IH]; intros w; [by destruct w |].
  change (srecs_apply (map RSib (r :: l)) w)
    with (srecs_apply (map RSib l) (set_sib (lrec_apply r (bw_sib w)) w)). by rewrite IH.
Qed.

(** A record about a field of a dentry. *)
Definition field_rec (r : srec) : Prop := match r with RTop _ _ _ | RParent _ _ _ => True | _ => False end.

Lemma txn_ready_parts w rh rs rf :
  Forall (lrec_ready (bw_hash w)) rh → NoDup (lrec_slot <$> rh) →
  Forall (lrec_ready (bw_sib w)) rs → NoDup (lrec_slot <$> rs) →
  Forall (srec_ready w) rf → NoDup (srec_slot <$> rf) → Forall field_rec rf →
  txn_ready w (map RHash rh ++ map RSib rs ++ rf).
Proof.
  intros Hh Nh Hs Ns Hf Nf Hk. split.
  - rewrite !fmap_app.
    assert (srec_slot <$> map RHash rh = SHash <$> (lrec_slot <$> rh)) as ->.
    { clear. induction rh as [| r rh IH]; [done |]. simpl. by f_equal. }
    assert (srec_slot <$> map RSib rs = SSib <$> (lrec_slot <$> rs)) as ->.
    { clear. induction rs as [| r rs IH]; [done |]. simpl. by f_equal. }
    assert (∀ x, x ∈ srec_slot <$> rf → (∃ d, x = STop d) ∨ ∃ d, x = SParent d) as Hx.
    { intros x (r & -> & Hr)%list_elem_of_fmap. rewrite Forall_forall in Hk. specialize (Hk r Hr).
      destruct r; simpl; eauto; done. }
    apply NoDup_app. split_and!; [by apply NoDup_fmap_2; [intros ?? [=] |] | |
      apply NoDup_app; split_and!; [by apply NoDup_fmap_2; [intros ?? [=] |] | | done]].
    + intros x (s & -> & _)%list_elem_of_fmap [(s' & ? & _)%list_elem_of_fmap | Hin]%elem_of_app; [done |].
      destruct (Hx _ Hin) as [[? ?] | [? ?]]; done.
    + intros x (s & -> & _)%list_elem_of_fmap Hin. destruct (Hx _ Hin) as [[? ?] | [? ?]]; done.
  - rewrite !Forall_app. split_and!; [by apply Forall_map | by apply Forall_map | done].
Qed.

(** A library that always finds the memory it needs; [txn_may false] only without
    one. *)
Definition txn_roomy `{SwTxn} : Prop := ∀ l w, txn_ready w l → fst (urcu_txn_commit_sw l w) = STATUS_OK.
Definition txn_may `{SwTxn} (commit : bool) : Prop := txn_roomy → commit = true.

(** The commit of a ready transaction. *)
Lemma wp_commit_sw `{HT : SwTxn} `{!SwTxnOk HT} l w (Q : txn_status → bworld → Prop) :
  txn_ready w l → Q STATUS_OK (srecs_apply l w) → (txn_may false → Q STATUS_MEMORY_ERROR w) → wp (commit_sw l) Q w.
Proof.
  intros Hr H1 H2. unfold wp, commit_sw. destruct (commit_sw_ok l w Hr) as [E | E]; rewrite E; [done |].
  apply H2. intros Hroom. specialize (Hroom l w Hr). by rewrite E in Hroom.
Qed.

(** ** Moving one node *)

(** The code's two ways to move a place: in the same list, the new node takes the
    place of the old one; else the old one leaves and the new one enters in front. *)
Definition relink (i j t s : Z) : ST chn (list lrec) :=
  if i =? j then bl_sw_replace t s
  else let! r1 := bl_sw_del_marked t in let! r2 := bl_sw_add_head s j in st_ret (r1 ++ r2).

Lemma wp_relink c C B K i j t s :
  chain_is c C B K → t ∈ C i → B !! j = Some true → spare C K s →
  wp (relink i j t s) (λ R c1, chain_is c1 C B (<[s := false]> K) ∧
    ∃ C', part_ok c1 R C' B (<[t := true]> (<[s := false]> K)) ∧
      ∀ h x, x ∈ C' h ↔ x ∈ C h ∧ x ≠ t ∨ h = j ∧ x = s) c.
Proof.
  intros H Hin Hj Hs. pose proof Hin as (l1 & l2 & E)%list_elem_of_split. unfold relink.
  pose proof (proj2 (proj2 (proj2 Hs))) as Hout.
  destruct (Z.eqb_spec i j) as [-> | Hne].
  - wp_use (wp_replace_part _ _ _ _ H); [exact E | done |]. intros R c1 [H1 H2]. split; [done |].
    eexists. split; [exact H2 |]. intros h x. by apply (in_swapped _ _ _ _ H).
  - wp_use (wp_del_add_part _ _ _ _ H); [exact Hne | exact E | done | done |].
    intros R c1 [H1 H2]. split; [done |]. eexists. split; [exact H2 |]. intros h x.
    rewrite <- (in_cut _ _ _ _ H i l1 t l2 h x E).
    replace (C j) with ((<[i := l1 ++ l2]> C) j) by (by rewrite fn_lookup_insert_ne). apply in_pushed.
Qed.

(** Two zooms in a row. *)
Lemma wp_zoom_relink {S T} (get : S → T) (set : T → S → S) (m1 : ST T (list lrec)) (m2 : ST T (list lrec)) Q s :
  (∀ t s, get (set t s) = t) → (∀ t t' s, set t (set t' s) = set t s) →
  wp (let! r1 := m1 in let! r2 := m2 in st_ret (r1 ++ r2)) (λ R c, Q R (set c s)) (get s) →
  wp (let! r1 := st_zoom get set m1 in let! r2 := st_zoom get set m2 in st_ret (r1 ++ r2)) Q s.
Proof.
  intros Hg Hs. unfold wp, st_bind, st_zoom, st_ret. destruct (m1 (get s)) as [[r1 t1] |]; [| done].
  rewrite Hg. destruct (m2 t1) as [[r2 t2] |]; [| done]. by rewrite Hs.
Qed.

(** ** The world between the stores of a builder and its commit *)

(** The marks of the nodes of [S] may have changed, nothing else. *)
Lemma rep_prepared w N T P (S : gset Z) Ch Kh Cs Ks ch cs :
  rep w N T P →
  (∀ s, s ∈ S → (∀ h, T !! h ≠ Some s) ∧ ∀ x, bw_dent w !! s = Some x → s ∈ P ∨ shellb x = false) →
  lists (bw_root w) N T (node_bucket (bw_mask w)) Ch → lists (bw_root w) N T n_parent Cs →
  chain_is ch Ch (bits (bw_hash w)) Kh → dom Kh = dom (bw_dent w) →
  (∀ y, y ∉ S → Kh !! y = marks (bw_hash w) !! y) →
  chain_is cs Cs (bits (bw_sib w)) Ks → dom Ks = dom (bw_dent w) →
  rep (set_sib cs (set_hash ch w)) N T P.
Proof.
  intros R HS HLh HLs Hch Hkh HK Hcs Hks.
  eapply (rep_reindex w N T P); [done | done | done | done | done | exact Hch | done | done | exact Hcs | done | done | ..];
    try apply R.
  - intros h t Ht. rewrite HK; [by apply (r_live _ _ _ _ R h) |]. intros [Hs _]%HS. by eapply Hs.
  - intros d x Hx HP Hsh HT. rewrite HK; [by eapply (r_dead _ _ _ _ R) |].
    intros Hin. destruct (HS d Hin) as [_ Hs]. destruct (Hs x Hx); [done | congruence].
Qed.

(** ** Stacking *)

(** What is needed of a shell [s] that is to name host [h] as [n']. *)
Record shell_for (D : gmap Z dent) (N : nspace) (P : gset Z) (h s : Z) (n n' : node) (x xs : dent) : Prop := {
  sf_priv : s ∈ P;
  sf_host : D !! h = Some x;
  sf_shell : D !! s = Some xs;
  sf_node : N !! h = Some n;
  sf_ok : dent_ok xs;
  sf_tag : shellb xs = true;
  sf_to : d_host xs = h;
  sf_parent : d_parent xs = n_parent n';
  sf_ipar : ipar xs = n_parent n';
  sf_name : qname (d_iname xs) = n_name n';
  sf_same : n_id n' = n_id n ∧ n_dir n' = n_dir n ∧ n_pos n' = n_pos n;
}.

Section restack.
Context (w : bworld) (N : nspace) (T : gmap Z Z) (P : gset Z) (R : rep w N T P).
Context (mv : gmap Z (Z * node)) (S : gset Z).
Context (HS : ∀ s, s ∈ S ↔ ∃ h n', mv !! h = Some (s, n')).
Context (Hmv : ∀ h s n', mv !! h = Some (s, n') → ∃ n x xs, shell_for (bw_dent w) N P h s n n' x xs).
Context (Hoff : ∀ s v, s ∈ S → words (bw_lru w) !! s = Some v → v = DC_LRU_OFF ∨ v = DC_LRU_DEAD).
Context (Hinj : ∀ h h' s n n', mv !! h = Some (s, n) → mv !! h' = Some (s, n') → h = h').

(** The dentries, name space and tops after the commit. *)
Context (D' : gmap Z dent) (N' : nspace) (T' : gmap Z Z).
Context (HD : ∀ d, D' !! d = match mv !! d with
  | Some (s, n') => (λ x, set_parent (n_parent n') (set_top s x)) <$> bw_dent w !! d
  | None => bw_dent w !! d end).
Context (HN : ∀ d, N' !! d = match mv !! d with Some (_, n') => Some n' | None => N !! d end).
Context (HT : ∀ d, T' !! d = match mv !! d with Some (s, _) => Some s | None => T !! d end).

Lemma restack_dom d : (is_Some (N' !! d) ↔ is_Some (N !! d)) ∧ (is_Some (D' !! d) ↔ is_Some (bw_dent w !! d)).
Proof.
  rewrite HN, HD. destruct (mv !! d) as [[s n'] |] eqn:E; [| done].
  destruct (Hmv _ _ _ E) as (n & x & xs & F). rewrite (sf_node _ _ _ _ _ _ _ _ _ F), (sf_host _ _ _ _ _ _ _ _ _ F).
  split; split; by eexists.
Qed.

Lemma restack_entry h n' t :
  N' !! h = Some n' → T' !! h = Some t → ∃ x tx, entry D' h n' t x tx.
Proof.
  intros Hn Ht. rewrite HN in Hn. rewrite HT in Ht. destruct (mv !! h) as [[s n1] |] eqn:E.
  - injection Hn as ->. injection Ht as ->. destruct (Hmv _ _ _ E) as (n & x & xs & []).
    destruct (r_priv _ _ _ _ R _ sf_priv0) as (_ & HtN & _).
    assert (mv !! t = None) as Et.
    { destruct (mv !! t) as [[s1 n2] |] eqn:Et; [| done]. destruct (Hmv _ _ _ Et) as (? & ? & ? & F).
      pose proof (sf_node _ _ _ _ _ _ _ _ _ F). congruence. }
    assert (t ≠ h) as Hne by congruence.
    destruct (rep_top _ _ _ _ R h n sf_node0) as (t0 & x0 & tx0 & Ht0 & E0).
    assert (x0 = x) as -> by (pose proof (en_host _ _ _ _ _ _ E0); congruence).
    destruct sf_same0 as (S1 & S2 & S3). exists (set_parent (n_parent n') (set_top t x)), xs. split.
    + by rewrite HD, E, sf_host0.
    + by rewrite HD, Et.
    + apply E0.
    + unfold dtop_val. simpl. by destruct (Z.eqb_spec t h).
    + done.
    + done.
    + done.
    + rewrite S1. apply E0.
    + rewrite S2. apply E0.
    + rewrite S3. apply E0.
    + done.
  - destruct (r_entry _ _ _ _ R h n' t Hn Ht) as (x & tx & []). exists x, tx.
    assert (mv !! t = None) as Et.
    { destruct (mv !! t) as [[s1 n2] |] eqn:Et; [| done]. destruct (Hmv _ _ _ Et) as (n3 & ? & ? & F).
      assert (t = h) as -> by (apply (top_host _ _ _ _ R h t Ht); eexists; apply (sf_node _ _ _ _ _ _ _ _ _ F)).
      congruence. }
    split; rewrite ?HD, ?E, ?Et; done.
Qed.

Lemma restack_ok d x : D' !! d = Some x → d ∉ P ∖ S → dent_ok x.
Proof.
  intros Hd HP. rewrite HD in Hd. destruct (mv !! d) as [[s n'] |] eqn:E.
  - destruct (Hmv _ _ _ E) as (n & x0 & xs & F). rewrite (sf_host _ _ _ _ _ _ _ _ _ F) in Hd. injection Hd as <-.
    assert (dent_ok x0) as Hok.
    { apply (r_dent _ _ _ _ R d x0 (sf_host _ _ _ _ _ _ _ _ _ F)). apply (rep_not_priv _ _ _ _ R).
      eexists. apply (sf_node _ _ _ _ _ _ _ _ _ F). }
    destruct (r_dent _ _ _ _ R s xs (sf_shell _ _ _ _ _ _ _ _ _ F)) as (Has & _).
    destruct Hok. split; simpl; try done.
    rewrite <- (sf_parent _ _ _ _ _ _ _ _ _ F). apply (sf_ok _ _ _ _ _ _ _ _ _ F).
  - destruct (decide (d ∈ S)) as [Hin | Hin].
    + apply HS in Hin as (h & n' & Eh). destruct (Hmv _ _ _ Eh) as (n & x0 & xs & F).
      pose proof (sf_shell _ _ _ _ _ _ _ _ _ F) as Hs. assert (x = xs) as -> by congruence. apply F.
    + apply (r_dent _ _ _ _ R d x Hd). intros Hp. apply HP. by apply elem_of_difference.
Qed.

Lemma rep_restack ch cs Ch Kh Cs Ks :
  chain_is ch Ch (bits (bw_hash w)) Kh → dom Kh = dom (bw_dent w) →
  lists (bw_root w) N' T' (node_bucket (bw_mask w)) Ch →
  chain_is cs Cs (bits (bw_sib w)) Ks → dom Ks = dom (bw_dent w) →
  lists (bw_root w) N' T' n_parent Cs →
  (∀ s, s ∈ S → Kh !! s = Some false) →
  (∀ h s n' t, mv !! h = Some (s, n') → T !! h = Some t → Kh !! t = Some true) →
  (∀ y, y ∉ S → (∀ h s n', mv !! h = Some (s, n') → T !! h ≠ Some y) → Kh !! y = marks (bw_hash w) !! y) →
  mv !! bw_root w = None → tree (bw_root w) N' → typed (bw_root w) N' →
  rep (set_dent D' (set_sib cs (set_hash ch w))) N' T' (P ∖ S).
Proof.
  intros Hch Hkh HLh Hcs Hks HLs Kn Ko Ks' Hroot Ht Hty.
  assert (dom D' = dom (bw_dent w)) as Hdom.
  { apply set_eq. intros d. rewrite !elem_of_dom. apply restack_dom. }
  eapply (rep_reindex w N T P); [done | done | done | done | done | exact Hch | done | done | exact Hcs | done | done | ..].
  - intros d x. apply restack_ok.
  - intros d [Hd HdS]%elem_of_difference. destruct (r_priv _ _ _ _ R d Hd) as (? & HdN & HdT).
    split_and!; [done | |].
    + apply eq_None_not_Some. rewrite (proj1 (restack_dom d)). by apply eq_None_not_Some.
    + intros h. rewrite HT. destruct (mv !! h) as [[s n'] |] eqn:E; [| done]. intros [= ->]. apply HdS, HS. eauto.
  - apply set_eq. intros d. rewrite !elem_of_dom, (proj1 (restack_dom d)), HT.
    destruct (mv !! d) as [[s n'] |] eqn:E.
    + destruct (Hmv _ _ _ E) as (n & x & xs & F). rewrite (sf_node _ _ _ _ _ _ _ _ _ F). split; by eexists.
    + rewrite <- !elem_of_dom, (r_tops _ _ _ _ R). done.
  - intros h n t. apply restack_entry.
  - rewrite HT, Hroot. apply R.
  - intros h t. rewrite HT. destruct (mv !! h) as [[s n'] |] eqn:E.
    + intros [= <-]. apply Kn, HS. eauto.
    + intros HTt. rewrite Ks'; [by apply (r_live _ _ _ _ R h) | |].
      * intros (h' & n' & E')%HS. destruct (Hmv _ _ _ E') as (n & x & xs & F).
        apply (r_priv _ _ _ _ R t (sf_priv _ _ _ _ _ _ _ _ _ F)) in HTt as [].
      * intros h' s n' E' HT'. assert (h' = h) as -> by (by eapply (top_inj _ _ _ _ R)). congruence.
  - intros d x Hx HP Hsh HdT. bsimpl in *.
    destruct (decide (d ∈ S)) as [(h & n' & E)%HS | Hin]; [by destruct (HdT h); rewrite HT, E |].
    assert (∀ h s n', mv !! h = Some (s, n') → T !! h = Some d → Kh !! d = Some true) as Hold by eauto.
    destruct (decide (map_Forall (λ h t, t = d → mv !! h = None) T)) as [Hno | Hyes].
    2:{ apply map_not_Forall in Hyes as (h & t & Hd & Hne); [| apply _].
        destruct (decide (t = d)) as [-> |]; [| by destruct Hne].
        destruct (mv !! h) as [[s n'] |] eqn:E; [by eapply Hold | by destruct Hne]. }
    rewrite Ks'; [| done | intros h s n' E Hd; specialize (Hno h d Hd eq_refl); congruence].
    rewrite HD in Hx. destruct (mv !! d) as [[s n'] |] eqn:E.
    { destruct (Hmv _ _ _ E) as (n & x0 & xs & F). rewrite (sf_host _ _ _ _ _ _ _ _ _ F) in Hx. injection Hx as <-.
      destruct (rep_node _ _ _ _ d n R (sf_node _ _ _ _ _ _ _ _ _ F)) as (x1 & Hx1 & _ & _ & _ & Hs1 & _).
      assert (x1 = x0) as -> by (pose proof (sf_host _ _ _ _ _ _ _ _ _ F); congruence).
      unfold shellb in *. simpl in Hsh. congruence. }
    eapply (r_dead _ _ _ _ R); [exact Hx | | done |].
    + intros Hp. apply HP. by apply elem_of_difference.
    + intros h Hd. apply (HdT h). rewrite HT. destruct (mv !! h) as [[s n'] |] eqn:E'; [| done].
      specialize (Hno h d Hd eq_refl). congruence.
  - eapply lru_rep_names; [apply R |]. intros d v Hv Hw. destruct (decide (d ∈ S)) as [Hin | Hin].
    + unfold word_is. assert (N' !! d = None) as ->.
      { apply eq_None_not_Some. rewrite (proj1 (restack_dom d)). apply eq_None_not_Some.
        apply HS in Hin as (h & n' & E). destruct (Hmv _ _ _ E) as (n & x & xs & F).
        by apply (r_priv _ _ _ _ R d (sf_priv _ _ _ _ _ _ _ _ _ F)). }
      destruct (Hoff d v Hin Hv); [by left | by right; left].
    + unfold word_is in *. pose proof (proj1 (restack_dom d)) as Hs.
      destruct (N !! d) eqn:E1, (N' !! d) eqn:E2; [done | | |].
      * by destruct (proj2 Hs ltac:(by eexists)).
      * by destruct (proj1 Hs ltac:(by eexists)).
      * destruct Hw as [? | [? | [? ?]]]; [by left | by right; left | right; right; split; [| done]].
        by apply elem_of_difference.
  - done.
  - done.
Qed.

Lemma sect_restack k V hs ch cs Ch Kh Cs Ks :
  sect k w N T P V hs →
  chain_is ch Ch (bits (bw_hash w)) Kh → dom Kh = dom (bw_dent w) →
  lists (bw_root w) N' T' (node_bucket (bw_mask w)) Ch →
  chain_is cs Cs (bits (bw_sib w)) Ks → dom Ks = dom (bw_dent w) →
  lists (bw_root w) N' T' n_parent Cs →
  (∀ s, s ∈ S → Kh !! s = Some false) →
  (∀ h s n' t, mv !! h = Some (s, n') → T !! h = Some t → Kh !! t = Some true) →
  (∀ y, y ∉ S → (∀ h s n', mv !! h = Some (s, n') → T !! h ≠ Some y) → Kh !! y = marks (bw_hash w) !! y) →
  mv !! bw_root w = None → tree (bw_root w) N' → typed (bw_root w) N' →
  sect k (set_dent D' (set_sib cs (set_hash ch w))) N' T' (P ∖ S) V hs.
Proof.
  intros [_ Hh Hq Hm Hk] Hch Hkh HLh Hcs Hks HLs Kn Ko Ks' Hroot Ht Hty. split.
  - by eapply rep_restack.
  - by eapply (held_chains w).
  - eapply rcu_rep_ext; [exact Hq | |]; bsimpl.
    + intros d x Hx HP HdN HdT. split_and!.
      * apply restack_dom. by eexists.
      * apply eq_None_not_Some. rewrite (proj1 (restack_dom d)). by apply eq_None_not_Some.
      * by intros [? _]%elem_of_difference.
      * intros h. rewrite HT. destruct (mv !! h) as [[s n'] |] eqn:E; [| done]. intros [= ->].
        destruct (Hmv _ _ _ E) as (n & y & ys & F). by apply HP, F.
    + intros d x Hx HP Hs. split; [by intros [? _]%elem_of_difference |]. rewrite HD.
      destruct (mv !! d) as [[s n'] |] eqn:E; [| eauto]. rewrite Hx. simpl. eexists. split; [done |]. exact Hs.
  - intros d x. bsimpl. rewrite HD. destruct (mv !! d) as [[s n'] |] eqn:E; [| apply Hm].
    intros (y & Hy & ->)%fmap_Some. simpl. by apply Hm.
  - done.
Qed.
End restack.

(** ** Folding *)

Lemma dom_two_marks (K : gmap Z bool) (D : gset Z) s t : dom K = D → s ∈ D → t ∈ D →
  dom (<[t := true]> (<[s := false]> K)) = D.
Proof. intros. by do 2 (apply dom_put_mark; [| done]). Qed.

Lemma rep_fold w N T P h n s x x' ch cs Ch Cs Ch' Cs' :
  rep w N T P → N !! h = Some n → T !! h = Some s → s ≠ h → h ≠ bw_root w → bw_dent w !! h = Some x →
  dent_ok x' → entry (<[h := x']> (bw_dent w)) h n h x' x' →
  lists (bw_root w) N T (node_bucket (bw_mask w)) Ch → lists (bw_root w) N T n_parent Cs →
  chain_is ch Ch' (bits (bw_hash w)) (<[s := true]> (<[h := false]> (marks (bw_hash w)))) →
  (∀ j y, y ∈ Ch' j ↔ y ∈ Ch j ∧ y ≠ s ∨ j = node_bucket (bw_mask w) n ∧ y = h) →
  chain_is cs Cs' (bits (bw_sib w)) (<[s := true]> (<[h := false]> (marks (bw_sib w)))) →
  (∀ j y, y ∈ Cs' j ↔ y ∈ Cs j ∧ y ≠ s ∨ j = n_parent n ∧ y = h) →
  rep (set_dent (<[h := x']> (bw_dent w)) (set_sib cs (set_hash ch w))) N (<[h := h]> T) P.
Proof.
  intros R Hn Hs Hne Hr Hx Hok He HLh HLs Hch Hmh Hcs Hms.
  assert (∀ h', T !! h' = Some s → h' = h) as Hinj by (intros h' Ht'; by eapply (top_inj _ _ _ _ R)).
  assert (h ∈ dom (bw_dent w) ∧ s ∈ dom (bw_dent w)) as [HhD HsD].
  { rewrite !elem_of_dom. split; [by eexists | by eapply rep_dom_T]. }
  assert (lists (bw_root w) N (<[h := h]> T) (node_bucket (bw_mask w)) Ch') as Hl1.
  { rewrite <- (insert_id N h n Hn). eapply lists_move; [exact HLh | done | exact Hs | done | exact Hmh]. }
  assert (lists (bw_root w) N (<[h := h]> T) n_parent Cs') as Hl2.
  { rewrite <- (insert_id N h n Hn). eapply lists_move; [exact HLs | done | exact Hs | done | exact Hms]. }
  eapply (rep_reindex w N T P); [done | done | done | | done | exact Hch |
    apply dom_two_marks; [apply R | done | done] | exact Hl1 | exact Hcs |
    apply dom_two_marks; [apply R | done | done] | exact Hl2 | ..]; bsimpl.
  - apply dom_insert_lookup_L. eauto.
  - intros d y. destruct (decide (h = d)) as [<- |]; [rewrite lookup_insert_eq; by intros [= <-] |].
    rewrite lookup_insert_ne by done. intros Hy HP. by apply (r_dent _ _ _ _ R d y Hy).
  - intros d Hd. destruct (r_priv _ _ _ _ R d Hd) as (? & HdN & HdT). split_and!; [done | done |].
    intros h'. destruct (decide (h = h')) as [<- |]; [rewrite lookup_insert_eq; congruence | by rewrite lookup_insert_ne].
  - rewrite dom_insert_lookup_L by eauto. apply R.
  - intros h' m t Hm. destruct (decide (h = h')) as [<- | Hne'].
    + rewrite lookup_insert_eq. intros [= <-]. assert (m = n) as -> by congruence. eauto.
    + rewrite lookup_insert_ne by done. intros Ht. destruct (r_entry _ _ _ _ R h' m t Hm Ht) as (y & ty & E).
      exists y, ty. apply entry_other; [done | | done]. intros <-. apply Hne', (top_host _ _ _ _ R h' h Ht). by eexists.
  - rewrite lookup_insert_ne by done. apply R.
  - intros h' t. destruct (decide (h = h')) as [<- | Hne'].
    + rewrite lookup_insert_eq. intros [= <-]. rewrite lookup_insert_ne by done. apply lookup_insert_eq.
    + rewrite lookup_insert_ne by done. intros Ht. rewrite !lookup_insert_ne; [by apply (r_live _ _ _ _ R h') | |].
      * intros <-. apply Hne', (top_host _ _ _ _ R h' h Ht). by eexists.
      * intros <-. by apply Hne'; rewrite (Hinj h').
  - intros d y Hy HP Hsh Hno. destruct (decide (h = d)) as [<- | Hne'].
    { rewrite lookup_insert_eq in Hy. injection Hy as <-. rewrite (en_kind _ _ _ _ _ _ He) in Hsh. done. }
    rewrite lookup_insert_ne in Hy by done. destruct (decide (s = d)) as [<- |]; [apply lookup_insert_eq |].
    rewrite !lookup_insert_ne by done. eapply (r_dead _ _ _ _ R); [exact Hy | done | done |].
    intros h' Hh'. apply (Hno h'). rewrite lookup_insert_ne; [done |]. congruence.
  - apply R.
  - apply R.
  - apply R.
Qed.
