(* ===== verification/BlMoveSpec.v ===== *)
(** What the moves of the bucket-lock engine share: the cycle check, the commit of
    a stacked shell, the fold and the grace period that runs it. *)

From S2P Require Import Prelude Qstr HList Lru World Walk Namespace TreeOps Paths BlChain.
From S2P Require Import BlLists BlRecs BlLru BlLruSpec BlWorld BlWalk BlOps BlMove BlInv.
From S2P Require Import BlReads BlWalkSpec BlLocks BlRep BlSect BlTxn.

(** ** The cycle check *)

(** The climb to the root meets the host, or not; [left] hops are enough for the
    way up. *)
Lemma cycle_loop_run w N T P V host cur l left :
  rep w N T P → moving (bw_dent w) V → (∀ d, d ∈ V → d ≠ host → d ∉ l) → host ≠ bw_root w →
  upto (bw_root w) N cur l → (length l ≤ S left)%nat →
  cycle_loop left (bw_root w) host cur w = Ok (if bool_decide (host ∈ l) then - EINVAL else 0, w).
Proof.
  intros R Hm HV Hr Hl. revert left. induction Hl as [| d n l Hn Hd Hl IH]; intros left Hlen.
  { destruct left; simpl; rewrite Z.eqb_refl, bool_decide_eq_false_2; try done;
      by rewrite list_elem_of_singleton. }
  assert (∃ c m, cycle_loop left (bw_root w) host d = c ∧ c = (if d =? bw_root w then st_ret 0
    else if d =? host then st_ret (- EINVAL) else m)) as (c & m & Ec & ->).
  { destruct left; simpl; eauto. }
  destruct (rep_node _ _ _ _ d n R Hn) as (x & Hx & Hok & _ & _ & _ & Hp).
  destruct (Z.eqb_spec d host) as [-> | Hne].
  { rewrite Ec. destruct (Z.eqb_spec host (bw_root w)); [done |]. rewrite bool_decide_eq_true_2 by left. done. }
  clear Ec m. destruct left as [| left].
  { destruct (upto_head _ _ _ _ Hl) as [l' ->]. simpl in Hlen. lia. }
  simpl. destruct (Z.eqb_spec d (bw_root w)); [done |]. destruct (Z.eqb_spec d host); [done |].
  eapply bind_run; [by apply dent_at_run |]. rewrite (Hm d x Hx), decide_False.
  2:{ intros Hin. apply (HV d Hin Hne). by left. }
  cbn [negb Z.eqb]. eapply bind_run; [by apply parent_of_run |]. rewrite Hp, IH.
  - assert (bool_decide (host ∈ d :: l) = bool_decide (host ∈ l)) as -> by
      (apply bool_decide_ext; rewrite elem_of_cons; split; [by intros [-> | ?] | by right]). done.
  - intros d' Hd' Hne' Hin. apply (HV d' Hd' Hne'). by right.
  - simpl in Hlen. lia.
Qed.

Lemma cross_cycle_run w N T P V host p l :
  rep w N T P → moving (bw_dent w) V → (∀ d, d ∈ V → d ≠ host → d ∉ l) → host ≠ bw_root w →
  upto (bw_root w) N p l → (length l ≤ S DC_LOOP_MAX)%nat →
  cross_cycle_check host p w = Ok (if bool_decide (host ∈ l) then - EINVAL else 0, w).
Proof.
  intros R Hm HV Hr Hl Hlen. unfold cross_cycle_check. run gets_run.
  destruct (Z.eqb_spec host (bw_root w)); [done |]. by eapply cycle_loop_run.
Qed.

(** The parent of what a path of at most [DC_PATH_MAX] components leads to is not
    deep. *)
Lemma resolved_depth w N T P path p :
  rep w N T P → path_wf path →
  nwalk (bw_root w) N (bw_root w) (take (ndepth path - 1) (pnames path)) = Some p →
  ∃ l, upto (bw_root w) N p l ∧ (length l ≤ S DC_LOOP_MAX)%nat.
Proof.
  intros R Hp Hw. pose proof (r_tree _ _ _ _ R) as Ht. destruct (rep_root _ _ _ _ R) as (rn & Hr & _).
  assert (is_Some (N !! p)) as Hps by (eapply nwalk_dom; [| exact Hw]; by eexists).
  destruct (t_up _ _ Ht p Hps) as [l Hl]. exists l. split; [done |].
  rewrite (npath_length _ _ Ht p l Hl), (npath_nwalk _ _ Ht _ p Hw), length_take, length_pnames by done.
  pose proof (pw_depth path Hp). unfold DC_LOOP_MAX, DC_PATH_MAX in *. lia.
Qed.

(** ** A shell stacked on a host *)

Section stack.
Context `{HA : Memalign} `{!MemalignOk HA} `{HL : Layout} `{!LayoutOk HL} `{HX : SwTxn} `{!SwTxnOk HX}.

Lemma locked_bit w hs h : held w hs → heads_ok w hs → h ∈ hs → hbit w h = Some true.
Proof.
  intros Hh Hok Hin. destruct (Hok h Hin) as [b Hb]. rewrite Hb. f_equal. rewrite (Hh h b Hb).
  by apply bool_decide_eq_true_2.
Qed.

(** A private dentry can be linked. *)
Lemma spare_priv w N T P (sel : bworld → chn) f C s :
  rep w N T P → s ∈ P → lists (bw_root w) N T f C → dom (marks (sel w)) = dom (bw_dent w) →
  spare C (marks (sel w)) s.
Proof.
  intros R Hs HC Hdom. destruct (r_priv _ _ _ _ R s Hs) as ([x Hx] & _ & HT).
  destruct (r_dent _ _ _ _ R s x Hx) as (Ha & H0 & _). split_and!; [done | done | |].
  - apply elem_of_dom. rewrite Hdom. apply elem_of_dom. by eexists.
  - by eapply not_listed.
Qed.

(** The dentries after the records on the fields of one host. *)
Definition restacked (D : gmap Z dent) (h s : Z) (n' : node) : gmap Z dent :=
  alter (λ x, set_parent (n_parent n') (set_top s x)) h D.

Lemma alter_alter_same (D : gmap Z dent) f g h : alter f h (alter g h D) = alter (f ∘ g) h D.
Proof.
  apply map_eq. intros i. destruct (decide (h = i)) as [<- |].
  - rewrite !lookup_alter_eq. by destruct (D !! h).
  - by rewrite !lookup_alter_ne.
Qed.

Lemma set_parent_same x : set_parent (d_parent x) x = x.
Proof. by destruct x. Qed.

(** The code's choice of records on the two indexes is [relink]. *)
Lemma wp_hash_relink i j t s Q w :
  wp (relink i j t s) (λ R c, Q R (set_hash c w)) (bw_hash w) →
  wp (if i =? j then on_hash (bl_sw_replace t s)
      else let! r1 := on_hash (bl_sw_del_marked t) in let! r2 := on_hash (bl_sw_add_head s j) in
           st_ret (r1 ++ r2)) Q w.
Proof. unfold relink. destruct (i =? j); [by apply wp_zoom | by apply wp_zoom_relink]. Qed.

Lemma wp_sib_relink i j t s Q w :
  wp (relink i j t s) (λ R c, Q R (set_sib c w)) (bw_sib w) →
  wp (if i =? j then on_sib (bl_sw_replace t s)
      else let! r1 := on_sib (bl_sw_del_marked t) in let! r2 := on_sib (bl_sw_add_head s j) in
           st_ret (r1 ++ r2)) Q w.
Proof. unfold relink. destruct (i =? j); [by apply wp_zoom | by apply wp_zoom_relink]. Qed.

Lemma wp_stack_commit k w N T P V hs h n n' t s x xs :
  sect k w N T P V hs → heads_ok w hs → T !! h = Some t → h ≠ bw_root w →
  shell_for (bw_dent w) N P h s n n' x xs →
  words (bw_lru w) !! s = Some DC_LRU_OFF →
  Bucket (node_bucket (bw_mask w) n') ∈ hs → ChildHead (n_parent n') ∈ hs →
  tree (bw_root w) (<[h := n']> N) → typed (bw_root w) (<[h := n']> N) →
  wp (let! recs := stack_one_prepare t h (n_parent n') (node_bucket (bw_mask w) n')
        (node_bucket (bw_mask w) n) s (negb (n_parent n =? n_parent n')) in commit_sw recs)
    (λ st w',
      match st with
      | STATUS_OK => sect k w' (<[h := n']> N) (<[h := s]> T) (P ∖ {[s]}) V hs ∧
          bw_dent w' = restacked (bw_dent w) h s n'
      | STATUS_MEMORY_ERROR => txn_may false ∧ sect k w' N T P V hs ∧ bw_dent w' = bw_dent w
      | STATUS_ABORT => False
      end ∧ heads_ok w' hs ∧ bw_root w' = bw_root w ∧ bw_mask w' = bw_mask w ∧ bw_lru w' = bw_lru w ∧
      bw_rcu w' = bw_rcu w) w.
Proof.
  intros S0 Hok Ht Hr F Hword Hb1 Hb2 Htree Hty. pose proof S0 as [R Hh Hq Hm Hk].
  destruct (r_hash _ _ _ _ R) as (Ch & HCh & HLh). destruct (r_sib _ _ _ _ R) as (Cs & HCs & HLs).
  destruct (rep_live _ _ _ _ R h t Ht) as (n1 & x1 & tx & Hn & E).
  assert (n1 = n) as -> by (pose proof (sf_node _ _ _ _ _ _ _ _ _ F); congruence).
  assert (x1 = x) as -> by (pose proof (sf_host _ _ _ _ _ _ _ _ _ F); pose proof (en_host _ _ _ _ _ _ E); congruence).
  destruct (entry_ok _ _ _ _ R h n t x tx Ht Hn E) as [Hxok _].
  pose proof (sf_priv _ _ _ _ _ _ _ _ _ F) as HsP. pose proof (sf_host _ _ _ _ _ _ _ _ _ F) as Hx.
  destruct (r_priv _ _ _ _ R s HsP) as ([xs' Hxs] & HsN & HsT).
  assert (t ∈ Ch (node_bucket (bw_mask w) n)) as Hin by (apply HLh; eauto 10).
  assert (t ∈ Cs (n_parent n)) as Hin' by (apply HLs; eauto 10).
  assert (t ∈ dom (bw_dent w)) as HtD by (apply elem_of_dom; eexists; apply (en_top _ _ _ _ _ _ E)).
  assert (s ∈ dom (bw_dent w)) as HsD by (apply elem_of_dom; eauto).
  set (fields := [RTop h (dtop_val h t) s] ++ (if negb (n_parent n =? n_parent n')
                   then [RParent h (n_parent n) (n_parent n')] else [])).
  unfold stack_one_prepare. rewrite negb_involutive.
  wp_step. wp_step. apply wp_hash_relink.
  wp_use (wp_relink _ _ _ _ _ _ _ _ HCh); [exact Hin | apply (locked_bit w hs _ Hh Hok Hb1) |
    eapply (spare_priv w N T P bw_hash); [done | done | exact HLh | apply R] |].
  intros rh ch (Hch & Ch' & [Hrh Hnh Hch'] & Hmh). wp_step. apply wp_sib_relink. bsimpl.
  wp_use (wp_relink _ _ _ _ _ _ _ _ HCs); [exact Hin' | apply (locked_bit w hs _ Hh Hok Hb2) |
    eapply (spare_priv w N T P bw_sib); [done | done | exact HLs | apply R] |].
  intros rs cs (Hcs & Cs' & [Hrs Hns Hcs'] & Hms). set (w1 := set_sib cs (set_hash ch w)).
  wp_step. eapply (wp_mono _ (λ rp w', rp = (if negb (n_parent n =? n_parent n')
    then [RParent h (n_parent n) (n_parent n')] else []) ∧ w' = w1)).
  { destruct (n_parent n =? n_parent n'); simpl; [by wp_step |]. wp_step.
    eapply wp_run; [by apply (parent_of_run w1 h x) |]. rewrite (en_parent _ _ _ _ _ _ E). by wp_step. }
  intros rp w' [-> ->]. cbn beta. wp_step. fold fields.
  assert (∀ Kt, heads_ok (set_dent Kt w1) hs) as Hok1.
  { intros Kt. eapply heads_ok_bits; [| | exact Hok]; bsimpl; [by apply chain_is_bits in Hch as [] | by apply chain_is_bits in Hcs as []]. }
  assert (rep w1 N T P) as R1.
  { eapply (rep_prepared w N T P {[s]}); [done | | exact HLh | exact HLs | exact Hch | | | exact Hcs |].
    - intros s' ->%elem_of_singleton. split; [done | by left].
    - apply dom_put_mark; [apply R | done].
    - intros y Hy%not_elem_of_singleton. by rewrite lookup_insert_ne.
    - apply dom_put_mark; [apply R | done]. }
  apply wp_commit_sw.
  - apply txn_ready_parts; [done | done | done | done | | |].
    + apply Forall_app. split; [apply Forall_singleton |].
      * simpl. rewrite Hx. simpl. by rewrite (en_dtop _ _ _ _ _ _ E).
      * destruct (n_parent n =? n_parent n'); [constructor |]. apply Forall_singleton. simpl. rewrite Hx. simpl.
        by rewrite (en_parent _ _ _ _ _ _ E).
    + unfold fields. destruct (n_parent n =? n_parent n'); simpl; [apply NoDup_singleton |].
      repeat constructor; set_solver.
    + unfold fields. destruct (n_parent n =? n_parent n'); repeat constructor.
  - rewrite !srecs_apply_app, srecs_apply_hash, srecs_apply_sib. bsimpl.
    change (bw_hash w1) with ch. change (bw_sib w1) with cs. set (ch2 := lrecs_apply rh ch) in *. set (cs2 := lrecs_apply rs cs) in *.
    assert (srecs_apply fields (set_sib cs2 (set_hash ch2 w1)) =
      set_dent (restacked (bw_dent w) h s n') (set_sib cs2 (set_hash ch2 w))) as ->.
    { unfold fields, restacked. destruct (Z.eqb_spec (n_parent n) (n_parent n')) as [Ep | Ep]; simpl.
      - unfold set_dent. f_equal. apply alter_ext. intros y Hy. assert (y = x) as -> by (bsimpl in *; congruence).
        rewrite <- Ep, <- (en_parent _ _ _ _ _ _ E). by destruct x.
      - unfold srecs_apply. simpl. unfold set_dent. f_equal. by rewrite alter_alter_same. }
    split_and!; [| done | | done | done | done | done].
    2:{ eapply heads_ok_bits; [| | exact Hok]; bsimpl; [by apply chain_is_bits in Hch' as [] | by apply chain_is_bits in Hcs' as []]. }
    eapply (sect_restack w N T P R {[h := (s, n')]} {[s]}).
    + intros s'. rewrite elem_of_singleton. split.
      * intros ->. exists h, n'. apply lookup_singleton_eq.
      * intros (h' & m & [_ [= ->]]%lookup_singleton_Some). done.
    + intros h' s' m [<- [= <- <-]]%lookup_singleton_Some. eauto.
    + intros s' v ->%elem_of_singleton Hv. left. congruence.
    + intros d. unfold restacked. destruct (decide (h = d)) as [<- | Hne].
      * by rewrite lookup_alter_eq, lookup_singleton_eq.
      * by rewrite lookup_alter_ne, lookup_singleton_ne.
    + intros d. destruct (decide (h = d)) as [<- | Hne];
        [by rewrite lookup_insert_eq, lookup_singleton_eq | by rewrite lookup_insert_ne, lookup_singleton_ne].
    + intros d. destruct (decide (h = d)) as [<- | Hne];
        [by rewrite lookup_insert_eq, lookup_singleton_eq | by rewrite lookup_insert_ne, lookup_singleton_ne].
    + exact S0.
    + exact Hch'.
    + apply dom_two_marks; [apply R | done | done].
    + eapply lists_move; [exact HLh | done | exact Ht | intros h' Hh'; by eapply (top_inj _ _ _ _ R) | exact Hmh].
    + exact Hcs'.
    + apply dom_two_marks; [apply R | done | done].
    + eapply lists_move; [exact HLs | done | exact Ht | intros h' Hh'; by eapply (top_inj _ _ _ _ R) | exact Hms].
    + intros s' ->%elem_of_singleton. rewrite lookup_insert_ne by (by intros ->; eapply HsT). apply lookup_insert_eq.
    + intros h' s' m t' [<- [= <- <-]]%lookup_singleton_Some Ht'. assert (t' = t) as -> by congruence. apply lookup_insert_eq.
    + intros y Hy%not_elem_of_singleton Hno. rewrite !lookup_insert_ne; [done | done |].
      intros <-. apply (Hno h s n'); [apply lookup_singleton_eq | done].
    + by apply lookup_singleton_ne.
    + done.
    + done.
  - intros Hmay. split_and!; [done | | done | apply (Hok1 (bw_dent w)) | done | done | done | done].
    split; [done | by eapply held_chains | done | done | done].
Qed.

(** ** The fold *)

(** The host's d_iparent after the transfer: the shell's place, the host's tags. *)
Lemma transfer_word x tx :
  dent_ok x → dent_ok tx → shellb x = false →
  Z.lor (Z.land (d_iparent tx) (Z.lnot (Z.lor DC_TAG_SHELL DC_TAG_NEG)))
        (Z.land (d_iparent x) (Z.lor DC_TAG_SHELL DC_TAG_NEG)) = ipar tx + itag false (negb (posb x)).
Proof.
  intros Hx Htx Hs. rewrite (dk_word _ Htx), (dk_word _ Hx), Hs. pose proof (dk_ipar _ Hx). pose proof (dk_ipar _ Htx).
  rewrite aligned_clear, aligned_land by (done || apply itag_range).
  assert (itag (shellb tx) (negb (posb tx)) - Z.land (itag (shellb tx) (negb (posb tx))) (Z.lor DC_TAG_SHELL DC_TAG_NEG) = 0)
    as -> by (by destruct (shellb tx), (posb tx)).
  rewrite Z.add_0_r, aligned_lor; [| done | by destruct (posb x)]. by destruct (posb x).
Qed.

(** One host's dentry rewritten, its name unread because a shell names it. *)
Lemma sect_rewrite_host k w N T P V hs h n s x x' :
  sect k w N T P V hs → N !! h = Some n → T !! h = Some s → s ≠ h → bw_dent w !! h = Some x → dent_ok x' →
  shellb x' = false → posb x' = posb x → d_top x' = d_top x → d_parent x' = d_parent x → d_id x' = d_id x →
  d_isdir x' = d_isdir x → d_moving x' = d_moving x →
  sect k (set_dent (<[h := x']> (bw_dent w)) w) N T P V hs.
Proof.
  intros [R Hh Hq Hm Hk] Hn Hs Hne Hx Hok E1 E2 E3 E4 E5 E6 E7.
  destruct (rep_node _ _ _ _ h n R Hn) as (x0 & Hx0 & _ & _ & _ & Hsh & _).
  assert (x0 = x) as -> by congruence. split.
  - apply rep_set_dent; [done | apply dom_insert_lookup_L; eauto | |].
    + intros d y. destruct (decide (h = d)) as [<- |].
      * rewrite lookup_insert_eq. intros [= <-] _. split; [done |]. exists x. split; [done |]. congruence.
      * rewrite lookup_insert_ne by done. intros Hy HP. split; [by apply (r_dent _ _ _ _ R d y Hy) | eauto].
    + intros h' m t y ty Hm' Ht E. destruct (decide (h = h')) as [<- | Hne'].
      * assert (m = n ∧ t = s) as [-> ->] by (split; congruence). destruct E.
        assert (y = x) as -> by congruence. exists x', ty.
        split; rewrite ?lookup_insert_eq, ?lookup_insert_ne by done; congruence || done.
      * exists y, ty. apply entry_other; [done | | done]. intros <-. apply Hne', (top_host _ _ _ _ R h' h Ht). by eexists.
  - exact Hh.
  - eapply rcu_rep_ext; [exact Hq | |]; bsimpl.
    + intros d y Hy HP HdN HdT. split_and!; [| done | done | done].
      destruct (decide (h = d)) as [<- |]; [by rewrite lookup_insert_eq | by rewrite lookup_insert_ne; eauto].
    + intros d y Hy HP Hsy. split; [done |]. destruct (decide (h = d)) as [<- |]; [congruence |].
      exists y. by rewrite lookup_insert_ne.
  - intros d y. bsimpl. destruct (decide (h = d)) as [<- |].
    + rewrite lookup_insert_eq. intros [= <-]. rewrite E7. by apply Hm.
    + rewrite lookup_insert_ne by done. apply Hm.
  - done.
Qed.

Lemma spare_host w N T P (sel : bworld → chn) f C h n s :
  rep w N T P → N !! h = Some n → T !! h = Some s → s ≠ h → lists (bw_root w) N T f C →
  dom (marks (sel w)) = dom (bw_dent w) → spare C (marks (sel w)) h ∧ ∀ h', T !! h' ≠ Some h.
Proof.
  intros R Hn Hs Hne HC Hdom. destruct (rep_node _ _ _ _ h n R Hn) as (x & Hx & _).
  destruct (r_dent _ _ _ _ R h x Hx) as (Ha & H0 & _).
  assert (∀ h', T !! h' ≠ Some h) as HT.
  { intros h' Hh'. assert (h = h') as <- by (apply (top_host _ _ _ _ R h' h Hh'); by eexists). congruence. }
  split; [| done]. split_and!; [done | done | |].
  - apply elem_of_dom. rewrite Hdom. apply elem_of_dom. by eexists.
  - by eapply not_listed.
Qed.

(** From the two replacements on. *)
Lemma wp_fold_commit k w N T P V hs h n s x :
  sect k w N T P V hs → heads_ok w hs → N !! h = Some n → T !! h = Some s → s ≠ h → h ≠ bw_root w →
  bw_dent w !! h = Some x → ipar x = n_parent n → qname (d_iname x) = n_name n →
  wp (let! rh := on_hash (bl_sw_replace s h) in
      let! rs := on_sib (bl_sw_replace s h) in
      let! st := commit_sw (map RHash rh ++ map RSib rs) in
      match st with
      | STATUS_OK => dent_store h (set_top 0) ;;; st_ret true
      | _ => st_ret false
      end)
    (λ (ok : bool) w', (if ok then sect k w' N (<[h := h]> T) P V hs ∧ bw_dent w' = <[h := set_top 0 x]> (bw_dent w)
                        else txn_may false ∧ sect k w' N T P V hs ∧ bw_dent w' = bw_dent w) ∧
      heads_ok w' hs ∧ bw_root w' = bw_root w ∧ bw_mask w' = bw_mask w ∧ bw_rcu w' = bw_rcu w) w.
Proof.
  intros S0 Hok Hn Hs Hne Hr Hx Hip Hnm. pose proof S0 as [R Hh Hq Hm Hk].
  destruct (r_hash _ _ _ _ R) as (Ch & HCh & HLh). destruct (r_sib _ _ _ _ R) as (Cs & HCs & HLs).
  destruct (r_entry _ _ _ _ R h n s Hn Hs) as (x0 & tx & E).
  assert (x0 = x) as -> by (pose proof (en_host _ _ _ _ _ _ E); congruence).
  destruct (entry_ok _ _ _ _ R h n s x tx Hs Hn E) as [Hxok Htxok].
  assert (s ∈ Ch (node_bucket (bw_mask w) n)) as (l1 & l2 & E1)%list_elem_of_split by (apply HLh; eauto 10).
  assert (s ∈ Cs (n_parent n)) as (k1 & k2 & E2)%list_elem_of_split by (apply HLs; eauto 10).
  destruct (spare_host w N T P bw_hash _ Ch h n s R Hn Hs Hne HLh (r_hmarks _ _ _ _ R)) as [Hsp HhT].
  destruct (spare_host w N T P bw_sib _ Cs h n s R Hn Hs Hne HLs (r_smarks _ _ _ _ R)) as [Hsp' _].
  assert (h ∈ dom (bw_dent w)) as HhD by (apply elem_of_dom; eauto).
  wp_step. apply wp_zoom. wp_use (wp_replace_part _ _ _ _ HCh); [exact E1 | exact Hsp |].
  intros rh ch (Hch & [Hrh Hnh Hch']). wp_step. apply wp_zoom. bsimpl.
  wp_use (wp_replace_part _ _ _ _ HCs); [exact E2 | exact Hsp' |].
  intros rs cs (Hcs & [Hrs Hns Hcs']). wp_step. set (w1 := set_sib cs (set_hash ch w)).
  rewrite <- (app_nil_r (map RSib rs)). apply wp_commit_sw.
  - apply txn_ready_parts; try done; constructor.
  - rewrite app_nil_r, srecs_apply_app, srecs_apply_hash, srecs_apply_sib. bsimpl. wp_step.
    eapply wp_run; [by apply (dent_store_run h (set_top 0) x) |]. wp_step. bsimpl.
    change (bw_hash w1) with ch. change (bw_sib w1) with cs.
    assert (entry (<[h := set_top 0 x]> (bw_dent w)) h n h (set_top 0 x) (set_top 0 x)) as He.
    { destruct E. split; rewrite ?lookup_insert_eq; try done. unfold dtop_val. by rewrite Z.eqb_refl. }
    assert (dent_ok (set_top 0 x)) as Hok' by (destruct Hxok; split; try done).
    assert (rep (set_dent (<[h := set_top 0 x]> (bw_dent w)) (set_sib (lrecs_apply rs cs) (set_hash (lrecs_apply rh ch) w)))
      N (<[h := h]> T) P) as R2.
    { eapply (rep_fold w N T P h n s x); [done | done | done | done | done | done | done | done | exact HLh | exact HLs |
        exact Hch' | | exact Hcs' |]; intros j y; [apply (in_swapped _ _ _ _ HCh); [done | apply Hsp] |
        apply (in_swapped _ _ _ _ HCs); [done | apply Hsp']]. }
    split_and!; [| done | | done | done | done].
    2:{ eapply heads_ok_bits; [| | exact Hok]; bsimpl; [by apply chain_is_bits in Hch' as [] | by apply chain_is_bits in Hcs' as []]. }
    split; [exact R2 | | | | done].
    + by eapply (held_chains w).
    + eapply rcu_rep_ext; [exact Hq | |]; bsimpl.
      * intros d y Hy HP HdN HdT. split_and!; [| done | done |].
        { destruct (decide (h = d)) as [<- |]; [by rewrite lookup_insert_eq | by rewrite lookup_insert_ne; eauto]. }
        intros h'. destruct (decide (h = h')) as [<- |]; [rewrite lookup_insert_eq; congruence | by rewrite lookup_insert_ne].
      * intros d y Hy HP Hsy. split; [done |]. destruct (decide (h = d)) as [<- |].
        { pose proof (en_kind _ _ _ _ _ _ E). congruence. }
        exists y. by rewrite lookup_insert_ne.
    + intros d y. bsimpl. destruct (decide (h = d)) as [<- |].
      * rewrite lookup_insert_eq. intros [= <-]. by apply (Hm h x).
      * rewrite lookup_insert_ne by done. apply Hm.
  - intros Hmay. wp_step. split_and!; [done | | done | | done | done | done].
    2:{ eapply heads_ok_bits; [| | exact Hok]; bsimpl; [by apply chain_is_bits in Hch as [] | by apply chain_is_bits in Hcs as []]. }
    split; [| by eapply held_chains | done | done | done].
    eapply (rep_prepared w N T P {[h]}); [done | | exact HLh | exact HLs | exact Hch | | | exact Hcs |].
    + intros s' ->%elem_of_singleton. split; [done |]. intros y Hy. right. assert (y = x) as -> by congruence. apply E.
    + apply dom_put_mark; [apply R | done].
    + intros y Hy%not_elem_of_singleton. by rewrite lookup_insert_ne.
    + apply dom_put_mark; [apply R | done].
Qed.

Lemma wp_fold_transfer k w N T P V hs h n s x :
  sect k w N T P V hs → heads_ok w hs → N !! h = Some n → T !! h = Some s → s ≠ h → h ≠ bw_root w →
  bw_dent w !! h = Some x →
  wp (fold_transfer h s)
    (λ (ok : bool) w', sect k w' N (if ok then <[h := h]> T else T) P V hs ∧ (ok = false → txn_may false) ∧
      (∃ x', bw_dent w' = <[h := x']> (bw_dent w) ∧ shellb x' = false) ∧
      heads_ok w' hs ∧ bw_root w' = bw_root w ∧ bw_mask w' = bw_mask w ∧ bw_rcu w' = bw_rcu w) w.
Proof.
  intros S Hok Hn Hs Hne Hr Hx. pose proof (se_rep _ _ _ _ _ _ _ S) as R.
  destruct (r_entry _ _ _ _ R h n s Hn Hs) as (x0 & tx & E).
  assert (x0 = x) as -> by (pose proof (en_host _ _ _ _ _ _ E); congruence).
  destruct (entry_ok _ _ _ _ R h n s x tx Hs Hn E) as [Hxok Htxok]. pose proof (en_top _ _ _ _ _ _ E) as Htx.
  unfold fold_transfer. wp_step. unfold dc_transfer_iparent.
  wp_step. eapply wp_lookup; [exact Htx |]. wp_step. eapply wp_lookup; [exact Hx |].
  eapply wp_run; [by apply dent_store_run |]. rewrite (transfer_word x tx Hxok Htxok (en_kind _ _ _ _ _ _ E)).
  wp_step. eapply (wp_lookup _ _ tx); [bsimpl; by rewrite lookup_insert_ne |].
  wp_step. eapply wp_run; [apply dent_store_run, lookup_insert_eq |]. bsimpl. rewrite insert_insert_eq.
  set (x2 := set_iname (d_iname tx) (set_iparent (ipar tx + itag false (negb (posb x))) x)).
  destruct (tag_word (ipar tx) false (negb (posb x)) x2 (dk_ipar _ Htxok) eq_refl) as (F1 & F2 & F3).
  rewrite negb_involutive in F3. rewrite (en_ipar _ _ _ _ _ _ E) in F1.
  assert (dent_ok x2) as Hok2.
  { destruct Hxok. split; rewrite ?F1, ?F2, ?F3; try done.
    - apply Htxok.
    - rewrite <- (en_ipar _ _ _ _ _ _ E). apply Htxok.
    - unfold x2. simpl. by rewrite (en_ipar _ _ _ _ _ _ E).
    - unfold x2. simpl. rewrite <- dk_fwd. symmetry. apply E. }
  set (w1 := set_dent (<[h := x2]> (bw_dent w)) w).
  assert (sect k w1 N T P V hs) as S1 by (by eapply sect_rewrite_host).
  wp_use (wp_fold_commit k w1 N T P V hs h n s x2); [done | done | done | done | done | done | apply lookup_insert_eq | done | |].
  { apply E. }
  intros ok w' (H1 & H2 & H3 & H4 & H5). destruct ok; [destruct H1 as [H1 Ed] | destruct H1 as (Hmay & H1 & Ed)]; split_and!; try done.
  - exists (set_top 0 x2). split; [| done]. rewrite Ed. unfold w1. bsimpl. by rewrite insert_insert_eq.
  - exists x2. done.
Qed.

(** The queue after a fold that freed its shell. *)
Lemma rcu_rep_queue_free D N T n q x :
  rcu_rep D N T ∅ q → n ∉ (cb_dent <$> q) → D !! n = Some x → N !! n = None → (∀ h, T !! h ≠ Some n) →
  rcu_rep D N T ∅ (q ++ [CbFree n]).
Proof.
  intros [Hnd Hf Hg] Hnot Hn HN HT. split.
  - rewrite fmap_app. apply NoDup_app. split_and!; [done | | apply NoDup_singleton].
    intros y Hy ->%list_elem_of_singleton. done.
  - intros y [Hy | [= ->]%list_elem_of_singleton]%elem_of_app; [by apply Hf |].
    split_and!; [by eexists | done | apply not_elem_of_empty | done].
  - intros y [Hy | ?%list_elem_of_singleton]%elem_of_app; [by apply Hg | done].
Qed.

(** Whether the shell still names its host can be read off the tops. *)
Lemma shell_top w N T P n x :
  rep w N T P → bw_dent w !! n = Some x → shellb x = true → T !! d_host x = Some n ∨ ∀ h, T !! h ≠ Some n.
Proof.
  intros R Hx Hs. destruct (decide (T !! d_host x = Some n)) as [? | Hne]; [by left | right]. intros h Hh.
  destruct (rep_live _ _ _ _ R h n Hh) as (m & y & ty & Hm & E).
  assert (n ≠ h) as Hnh.
  { intros ->. pose proof (en_kind _ _ _ _ _ _ E). pose proof (en_host _ _ _ _ _ _ E). congruence. }
  destruct (en_shell _ _ _ _ _ _ E Hnh) as (_ & Eh & _). pose proof (en_top _ _ _ _ _ _ E). congruence.
Qed.

Lemma wp_fold_reclaim k w N T n x :
  sect k w N T ∅ ∅ [] → bw_dent w !! n = Some x → N !! n = None → (∀ h, T !! h ≠ Some n) →
  n ∉ (cb_dent <$> bw_rcu w) →
  wp (on_lru (lru_del_can_free n true) ;;; call_rcu (CbFree n)) (λ _ w', sect k w' N T ∅ ∅ [] ∧
    bw_rcu w' = bw_rcu w ++ [CbFree n] ∧ bw_dent w' = bw_dent w ∧ bw_root w' = bw_root w ∧
    bw_mask w' = bw_mask w) w.
Proof.
  intros S Hx HN HT Hq. wp_step. wp_use wp_lru_let_go; [exact S | by eexists | done |].
  intros r w1 (_ & Ho & S1 & _ & _). destruct (only_lru_same _ _ Ho) as (Em & Er & _ & Ed & _ & _ & Eq & _).
  apply wp_mod. bsimpl. rewrite Eq. split_and!; [| done | done | done | done].
  destruct S1 as [R1 Hh Hq1 Hm Hk]. split; [by destruct R1; constructor | done | | done | done]. bsimpl.
  rewrite Ed, Eq in *. by eapply rcu_rep_queue_free.
Qed.

(** What the callbacks [q] do: a free takes its dentry away; a fold hands the name of its
    shell back to the host and queues the free of the shell, unless its commit is out of
    memory; nothing else is freed, queued or named anew. *)
Record grace (q : list rcu_cb) (w : bworld) (T : gmap Z Z) (w' : bworld) (T' : gmap Z Z) : Prop := {
  gr_dent : ∀ d, is_Some (bw_dent w' !! d) ↔ is_Some (bw_dent w !! d) ∧ CbFree d ∉ q;
  gr_top : ∀ h t, T !! h = Some t → T' !! h = Some t ∨ CbFold t ∈ q ∧ T' !! h = Some h;
  gr_fold : ∀ d, CbFold d ∈ q → CbFree d ∈ bw_rcu w' ∨ txn_may false;
  gr_kept : ∀ cb, cb ∈ bw_rcu w → cb ∈ bw_rcu w';
  gr_new : ∀ cb, cb ∈ bw_rcu w' → cb ∈ bw_rcu w ∨ ∃ d, cb = CbFree d ∧ CbFold d ∈ q;
}.

Lemma grace_nil w T : grace [] w T w T.
Proof.
  split; try by left.
  - intros d. set_solver.
  - by intros d ?%not_elem_of_nil.
  - done.
Qed.

Lemma grace_cons cb q w T w1 T1 w2 T2 : grace [cb] w T w1 T1 → grace q w1 T1 w2 T2 → grace (cb :: q) w T w2 T2.
Proof.
  intros [D1 H1 F1 K1 N1] [D2 H2 F2 K2 N2]. split.
  - intros d. rewrite D2, D1. set_solver.
  - intros h t Ht. destruct (H1 h t Ht) as [Ht1 | [->%list_elem_of_singleton Ht1]].
    + destruct (H2 h t Ht1) as [? | [? ?]]; [by left | right]. split; [by right | done].
    + right. split; [by left |]. by destruct (H2 h h Ht1) as [? | [_ ?]].
  - intros d [<- | Hd]%elem_of_cons; [| by apply F2].
    destruct (F1 d) as [H | ?]; [by apply list_elem_of_singleton | | by right]. left. by apply K2.
  - intros c Hc. by apply K2, K1.
  - intros c [[? | (d & -> & <-%list_elem_of_singleton)]%N1 | (d & -> & Hd)]%N2; [by left | |].
    + right. exists d. split; [done | by left].
    + right. exists d. split; [done | by right].
Qed.

(** The end of a fold. *)
Lemma wp_fold_end k w0 w N T T' n x (reclaim : bool) :
  sect (S k) w N T' ∅ ∅ [] → bw_dent w !! n = Some x → N !! n = None →
  (reclaim = true → ∀ h, T' !! h ≠ Some n) → n ∉ (cb_dent <$> bw_rcu w) → bw_rcu w = bw_rcu w0 →
  bw_root w = bw_root w0 → bw_mask w = bw_mask w0 →
  (∀ q, rcu_rep (bw_dent w0) N T ∅ q → rcu_rep (bw_dent w) N T' ∅ q) →
  wp (rcu_read_unlock ;;; when reclaim (on_lru (lru_del_can_free n true) ;;; call_rcu (CbFree n)))
    (λ _ w', sect k w' N T' ∅ ∅ [] ∧ bw_root w' = bw_root w0 ∧ bw_mask w' = bw_mask w0 ∧
      (∀ q, rcu_rep (bw_dent w0) N T ∅ (CbFold n :: q ++ bw_rcu w0) →
        rcu_rep (bw_dent w') N T' ∅ (q ++ bw_rcu w')) ∧
      bw_dent w' = bw_dent w ∧ bw_rcu w' = bw_rcu w0 ++ (if reclaim then [CbFree n] else [])) w.
Proof.
  intros S Hx HN HT Hnot Eq Er Em Hq. wp_step. eapply wp_rcu_leave; [exact S |]. intros S1.
  assert (∀ q, rcu_rep (bw_dent w0) N T ∅ (CbFold n :: q ++ bw_rcu w0) →
    rcu_rep (bw_dent w) N T' ∅ (q ++ bw_rcu w) ∧ n ∉ (cb_dent <$> (q ++ bw_rcu w))) as Hq'.
  { intros q [Hnd Hf Hg]. apply NoDup_cons in Hnd as [Hn Hnd]. rewrite Eq. split; [| done]. apply Hq.
    split; [done | |]; intros d Hd; [apply Hf | apply Hg]; by right. }
  apply wp_when; intros Hr.
  - wp_use (wp_fold_reclaim k _ N T' n x); [exact S1 | done | done | by apply HT | done |].
    intros [] w' (S2 & Eq2 & Ed2 & Er2 & Em2). bsimpl in *. rewrite Hr.
    split_and!; [done | congruence | congruence | | done | congruence].
    intros q [Hq1 Hq2]%Hq'. rewrite Eq2, Ed2, app_assoc. by eapply rcu_rep_queue_free; [| | | | by apply HT].
  - rewrite Hr, app_nil_r. split_and!; [done | done | done | | done | done]. intros q [Hq1 _]%Hq'. done.
Qed.

Lemma grace_fold w w' n (ok : bool) T T' h :
  (∀ d, is_Some (bw_dent w' !! d) ↔ is_Some (bw_dent w !! d)) →
  bw_rcu w' = bw_rcu w ++ (if ok then [CbFree n] else []) → (ok = false → txn_may false) →
  (T' = T ∨ T !! h = Some n ∧ T' = <[h := h]> T) → grace [CbFold n] w T w' T'.
Proof.
  intros Hd Eq Hmay HT. split.
  - intros d. rewrite Hd. set_solver.
  - intros y t Ht. destruct HT as [-> | [Hh ->]]; [by left |]. destruct (decide (h = y)) as [<- | Hne].
    + right. simplify_eq. by rewrite lookup_insert_eq, list_elem_of_singleton.
    + left. by rewrite lookup_insert_ne.
  - intros d [= ->]%list_elem_of_singleton. rewrite Eq. destruct ok; [left; set_solver | right; by apply Hmay].
  - intros cb Hcb. rewrite Eq. set_solver.
  - intros cb. rewrite Eq, elem_of_app. destruct ok; set_solver.
Qed.

Lemma wp_fold k w N T n x :
  sect k w N T ∅ ∅ [] → bw_dent w !! n = Some x → shellb x = true → n ∉ (cb_dent <$> bw_rcu w) →
  wp (fold n) (λ _ w', ∃ T', sect k w' N T' ∅ ∅ [] ∧ bw_root w' = bw_root w ∧ bw_mask w' = bw_mask w ∧
    (∀ q, rcu_rep (bw_dent w) N T ∅ (CbFold n :: q ++ bw_rcu w) →
      rcu_rep (bw_dent w') N T' ∅ (q ++ bw_rcu w')) ∧ grace [CbFold n] w T w' T') w.
Proof.
  intros S Hx Hsh Hnot. pose proof (se_rep _ _ _ _ _ _ _ S) as R.
  assert (dent_ok x) as Hok by (apply (r_dent _ _ _ _ R n x Hx), not_elem_of_empty).
  assert (N !! n = None) as HN.
  { destruct (N !! n) as [m |] eqn:E; [| done].
    destruct (rep_node _ _ _ _ n m R E) as (x' & Hx' & _ & _ & _ & Hs' & _). congruence. }
  unfold fold. wp_step. eapply wp_run; [by eapply host_of_run |]. rewrite Hsh.
  wp_step. apply wp_mod. set (w1 := set_nest (Datatypes.S (bw_nest w)) w).
  assert (sect (Datatypes.S k) w1 N T ∅ ∅ []) as S1.
  { apply sect_binv. apply binv_enter. by apply sect_binv. }
  pose proof (se_rep _ _ _ _ _ _ _ S1) as R1. set (h := d_host x).
  wp_step. destruct (shell_top w N T ∅ n x R Hx Hsh) as [Ht | Hno].
  2:{ eapply wp_run; [eapply (marked_run w1 N T ∅ R1), (r_dead _ _ _ _ R n x Hx (not_elem_of_empty _) Hsh Hno) |].
      cbn [negb]. wp_step. wp_step. eapply wp_mono; [by eapply (wp_fold_end k w w1 N T T n x) |].
      intros [] w' (S2 & Er & Em & Hq & Ed & Eq). exists T. split_and!; try done.
      eapply (grace_fold w w' n true T T h); [| exact Eq | done | by left]. intros d. by rewrite Ed. }
  change (T !! h = Some n) in Ht. eapply wp_run; [by eapply live_run |]. cbn [negb].
  destruct (rep_live _ _ _ _ R h n Ht) as (m & y & ty & Hm & E).
  assert (ty = x) as -> by (pose proof (en_top _ _ _ _ _ _ E); congruence).
  assert (n ≠ h) as Hnh by (intros Enh; rewrite Enh in HN; congruence).
  assert (h ≠ bw_root w) as Hr.
  { intros Eh. pose proof (r_root _ _ _ _ R). rewrite <- Eh in *. congruence. }
  destruct (en_shell _ _ _ _ _ _ E Hnh) as (_ & _ & Hp).
  wp_step. wp_step. eapply wp_run; [by apply (parent_of_run w1 n x) |]. rewrite Hp.
  wp_step. eapply (wp_lookup _ _ x); [done |]. wp_step. apply wp_gets.
  rewrite (qw_hash _ (dk_name _ Hok)), (en_name _ _ _ _ _ _ E).
  change (bucket_index (bw_mask w1) (n_parent m) (fnv (n_name m))) with (node_bucket (bw_mask w) m).
  wp_step. eapply wp_sect_lock_n; [exact S1 | |].
  { intros hd [-> | [-> | []%not_elem_of_nil]%elem_of_cons]%elem_of_cons.
    - by eapply (heads_bucket w1).
    - eapply heads_child; [exact R1 |]. by eapply tree_parent; [apply R |]. }
  intros w2 Hl2 S2 Hok2. destruct (relock_same _ _ Hl2) as (Em2 & Er2 & _ & Ed2 & _ & Eq2 & _).
  wp_step. eapply wp_run; [eapply (live_run w2 N T ∅); [apply S2 | exact Ht] |]. cbn [negb].
  wp_step. wp_use (wp_fold_transfer _ w2 N T ∅ ∅ _ h m n y); [exact S2 | exact Hok2 | done | done | done |
    by rewrite Er2 | by rewrite Ed2; apply E |].
  intros ok w3 (S3 & Hmay & (y' & Ed3 & Hs3) & Hok3 & Er3 & Em3 & Eq3). wp_step.
  eapply wp_sect_unlock_n; [exact S3 | exact Hok3 |]. intros w4 Hl4 S4.
  destruct (relock_same _ _ Hl4) as (Em4 & Er4 & _ & Ed4 & _ & Eq4 & _). wp_step.
  eapply wp_mono; [eapply (wp_fold_end k w w4 N T _ n x); [exact S4 | | done | | | | | |] |].
  - rewrite Ed4, Ed3, Ed2. by rewrite lookup_insert_ne.
  - intros ->. intros h'. destruct (decide (h = h')) as [<- | Hne]; [rewrite lookup_insert_eq; congruence |].
    rewrite lookup_insert_ne by done. intros Hh'. apply Hne. by eapply (top_inj _ _ _ _ R).
  - by rewrite Eq4, Eq3, Eq2.
  - by rewrite Eq4, Eq3, Eq2.
  - by rewrite Er4, Er3, Er2.
  - by rewrite Em4, Em3, Em2.
  - intros q Hq. eapply rcu_rep_ext; [exact Hq | |]; rewrite Ed4, Ed3, Ed2.
    + intros d z Hd _ HdN HdT. assert (h ≠ d) by congruence.
      split_and!; [by rewrite lookup_insert_ne; eauto | done | apply not_elem_of_empty |].
      intros h'. destruct ok; [| done]. destruct (decide (h = h')) as [<- |]; [rewrite lookup_insert_eq; congruence |].
      by rewrite lookup_insert_ne.
    + intros d z Hd _ Hs. split; [apply not_elem_of_empty |]. destruct (decide (h = d)) as [Ehd |].
      * pose proof (en_kind _ _ _ _ _ _ E). pose proof (en_host _ _ _ _ _ _ E). congruence.
      * exists z. by rewrite lookup_insert_ne.
  - intros [] w5 (S5 & Er5 & Em5 & Hq5 & Ed5 & Eq5). eexists. split_and!; [exact S5 | done | done | exact Hq5 |].
    eapply (grace_fold w w5 n ok _ _ h); [| exact Eq5 | exact Hmay | destruct ok; [by right | by left]]. intros d.
    rewrite Ed5, Ed4, Ed3, Ed2. destruct (decide (h = d)) as [<- |]; [| by rewrite lookup_insert_ne].
    rewrite lookup_insert_eq. pose proof (en_host _ _ _ _ _ _ E). split; by eexists.
Qed.

(** ** The end of a grace period *)

Lemma rcu_rep_app D N T P q q' : rcu_rep D N T P (q ++ q') → rcu_rep D N T P q'.
Proof.
  intros [Hnd Hf Hg]. split.
  - rewrite fmap_app in Hnd. by apply NoDup_app in Hnd as (_ & _ & ?).
  - intros d Hd. apply Hf. apply elem_of_app. by right.
  - intros d Hd. apply Hg. apply elem_of_app. by right.
Qed.

Lemma wp_free_cb k w N T d q :
  sect k w N T ∅ ∅ [] → rcu_rep (bw_dent w) N T ∅ (CbFree d :: q ++ bw_rcu w) →
  wp (dentry_free_cb d) (λ _ w', sect k w' N T ∅ ∅ [] ∧ bw_root w' = bw_root w ∧ bw_mask w' = bw_mask w ∧
    rcu_rep (bw_dent w') N T ∅ (q ++ bw_rcu w') ∧ grace [CbFree d] w T w' T) w.
Proof.
  intros [R Hh Hq0 Hm Hk] [Hnd Hf Hg]. destruct (Hf d ltac:(left)) as (Hd & HN & _ & HT).
  apply NoDup_cons in Hnd as [Hnot Hnd].
  destruct (rep_word _ _ _ _ d R Hd) as (v & Hv & Hw). unfold word_is in Hw. rewrite HN in Hw.
  assert (off_list v) as Hoff.
  { destruct Hw as [-> | [-> | [[]%not_elem_of_empty _]]]; [apply off_list_off | apply off_list_dead]. }
  eapply wp_run; [by apply dentry_free_run |].
  assert (rcu_rep (delete d (bw_dent w)) N T ∅ (q ++ bw_rcu w)) as Hq.
  { split; [done | |].
    - intros y Hy. destruct (Hf y ltac:(by right)) as (? & ? & ? & ?). split_and!; [| done | done | done].
      rewrite lookup_delete_ne; [done |]. intros ->. apply Hnot, list_elem_of_fmap. by exists (CbFree y).
    - intros y Hy. destruct (Hg y ltac:(by right)) as (? & z & Hz & ?). split; [done |]. exists z.
      rewrite lookup_delete_ne; [done |]. intros ->. apply Hnot, list_elem_of_fmap. by exists (CbFold y). }
  split_and!; [| done | done | done |].
  2:{ split; try done; try (by left).
      - intros y. unfold free_dent. bsimpl. rewrite lookup_delete_is_Some, list_elem_of_singleton. naive_solver.
      - by intros y ?%list_elem_of_singleton. }
  split.
  - replace (∅ : gset Z) with (∅ ∖ {[d]} : gset Z) by (apply set_eq; intros y; rewrite elem_of_difference, elem_of_empty; tauto). by eapply rep_free.
  - by apply held_free.
  - by eapply rcu_rep_app.
  - intros y z. unfold free_dent. bsimpl. intros [_ Hy]%lookup_delete_Some. by eapply Hm.
  - done.
Qed.

Lemma wp_run_cbs k q : ∀ w N T,
  sect k w N T ∅ ∅ [] → rcu_rep (bw_dent w) N T ∅ (q ++ bw_rcu w) →
  wp (st_iter run_cb q) (λ _ w', (∃ T', binv k w' N T' ∧ grace q w T w' T') ∧ bw_root w' = bw_root w ∧ bw_mask w' = bw_mask w) w.
Proof.
  induction q as [| cb q IH]; intros w N T S Hq; simpl.
  { wp_step. split; [| done]. exists T. split; [by apply sect_binv | apply grace_nil]. }
  wp_step. destruct cb as [d | n]; simpl.
  - wp_use wp_free_cb; [done | exact Hq |]. intros [] w1 (S1 & Er1 & Em1 & Hq1 & G1).
    wp_use IH; [exact S1 | exact Hq1 |]. intros [] w2 ((T2 & Hi & G2) & Er2 & Em2). split_and!; [| congruence | congruence].
    exists T2. split; [done | by eapply grace_cons].
  - destruct (rr_fold _ _ _ _ _ Hq n ltac:(left)) as (_ & x & Hx & Hsh).
    pose proof (rr_nodup _ _ _ _ _ Hq) as Hnd. apply NoDup_cons in Hnd as [Hnot _].
    wp_use wp_fold; [exact S | exact Hx | done | |].
    { intros Hin. apply Hnot. change (n ∈ (cb_dent <$> (q ++ bw_rcu w))). rewrite fmap_app. apply elem_of_app. by right. }
    intros [] w1 (T1 & S1 & Er1 & Em1 & Hq1 & G1). wp_use IH; [exact S1 | by apply Hq1 |].
    intros [] w2 ((T2 & Hi & G2) & Er2 & Em2). split_and!; [| congruence | congruence].
    exists T2. split; [done | by eapply grace_cons].
Qed.

Lemma wp_bl_barrier_grace w N T :
  binv 0 w N T →
  wp rcu_barrier (λ _ w', (∃ T', binv 0 w' N T' ∧ grace (bw_rcu w) (set_rcu [] w) T w' T') ∧
    bw_root w' = bw_root w ∧ bw_mask w' = bw_mask w) w.
Proof.
  intros Hi. pose proof Hi as []. unfold rcu_barrier. wp_step. wp_step.
  rewrite decide_True by done. wp_step. wp_step.
  wp_use (wp_run_cbs 0 (bw_rcu w) (set_rcu [] w) N T); [| bsimpl; by rewrite app_nil_r | done].
  apply sect_binv. split; bsimpl; try done; [by destruct bi_rep; constructor |].
  split; [constructor | by intros d ?%not_elem_of_nil | by intros d ?%not_elem_of_nil].
Qed.

Lemma wp_bl_barrier w N T :
  binv 0 w N T →
  wp rcu_barrier (λ _ w', (∃ T', binv 0 w' N T') ∧ bw_root w' = bw_root w ∧ bw_mask w' = bw_mask w) w.
Proof.
  intros Hi. eapply wp_mono; [by apply wp_bl_barrier_grace |]. intros [] w' ((T' & H & _) & E). split; [by exists T' | done].
Qed.
End stack.
