(* ===== verification/BlRename.v ===== *)
(** [dc_rename] of the bucket-lock engine against its specification. *)

From S2P Require Import Prelude Qstr HList Lru World Walk Namespace TreeOps Paths BlChain.
From S2P Require Import BlLists BlRecs BlLru BlLruSpec BlWorld BlWalk BlOps BlMove BlInv.
From S2P Require Import BlReads BlWalkSpec BlLocks BlRep BlSect BlTxn BlMoveSpec.

(** The destination [c] of a rename of [v] is refused: it is [v] itself, it was
    moved there and its fold is still to come, or it is an entry to keep. *)
Definition refused (settled : Z → bool) (v c : Z) (cn : node) : bool :=
  (c =? v) || negb (settled c) || n_pos cn || n_dir cn.

(** What a rename does once source and destination are locked: [commit] says
    whether the transaction found the memory it needs. *)
Definition spec_claim (r : Z) (settled : Z → bool) (commit : bool) (v : Z) (vn : node) (tp : Z)
    (tnm : list Z) (N : nspace) : Z * nspace :=
  let finish N1 := if commit then (0, <[v := moved vn tp tnm]> N1) else (- ENOMEM, N1) in
  match c ← child r N tp tnm; cn ← N !! c; Some (c, cn) with
  | None => finish N
  | Some (c, cn) => if refused settled v c cn then (- EEXIST, N) else finish (delete c N)
  end.

(** The specification of [dc_rename]. *)
Definition spec_rename_bl (r : Z) (fresh : option Z) (settled : Z → bool) (commit : bool)
    (from to : list (list Z)) (N : nspace) : Z * nspace :=
  match from, split_last to with
  | [], _ | _, None => (- EINVAL, N)
  | _, Some (tdir, tnm) =>
      match v ← nwalk r N r from; vn ← N !! v; tp ← nwalk r N r tdir; tpn ← N !! tp;
            Some (v, vn, tp, tpn) with
      | None => (- ENOENT, N)
      | Some (v, vn, tp, tpn) =>
          if match c ← child r N tp tnm; cn ← N !! c; Some (c, cn) with
             | Some (c, cn) => (c =? v) || n_pos cn
             | None => false
             end then (- EEXIST, N)
          else if negb (n_pos tpn) then (- ENOENT, N)
          else match fresh with
               | None => (- ENOMEM, N)
               | Some _ =>
                   if negb (n_parent vn =? tp) && subdir r N tp v then (- EINVAL, N)
                   else spec_claim r settled commit v vn tp tnm N
               end
      end
  end.

(** The tops that are their own hosts. *)
Definition settled (T : gmap Z Z) (c : Z) : bool := bool_decide (T !! c = Some c).

(** ** The claim of a moving host *)

Section rename.
Context `{HA : Memalign} `{!MemalignOk HA} `{HL : Layout} `{!LayoutOk HL} `{HX : SwTxn} `{!SwTxnOk HX}.

Lemma sect_set_moving k w N T P V V' hs h x z :
  sect k w N T P V hs → bw_dent w !! h = Some x → z = (if decide (h ∈ V') then 1 else 0) →
  (∀ d, d ≠ h → d ∈ V ↔ d ∈ V') →
  sect k (set_dent (<[h := set_moving z x]> (bw_dent w)) w) N T P V' hs.
Proof.
  intros [R Hh Hq Hm Hk] Hx Hz HV. split; [by eapply rep_alike | exact Hh | | | done].
  - eapply rcu_rep_ext; [exact Hq | |]; bsimpl.
    + intros d y Hy HP HdN HdT. split_and!; [| done | done | done].
      destruct (decide (h = d)) as [<- |]; [by rewrite lookup_insert_eq | by rewrite lookup_insert_ne; eauto].
    + intros d y Hy HP Hsy. split; [done |]. destruct (decide (h = d)) as [<- |].
      * assert (y = x) as -> by congruence. exists (set_moving z x). by rewrite lookup_insert_eq.
      * exists y. by rewrite lookup_insert_ne.
  - intros d y. bsimpl. destruct (decide (h = d)) as [<- | Hne].
    + rewrite lookup_insert_eq. by intros [= <-].
    + rewrite lookup_insert_ne by done. intros Hy. rewrite (Hm d y Hy).
      destruct (decide (d ∈ V)) as [Hd | Hd], (decide (d ∈ V')) as [Hd' | Hd']; try done; by apply HV in Hd || apply HV in Hd'.
Qed.

Lemma wp_moving_claim k w N T P V hs h x :
  sect k w N T P V hs → bw_dent w !! h = Some x → h ∉ V →
  wp (moving_claim h) (λ r w', r = true ∧ sect k w' N T P ({[h]} ∪ V) hs ∧
    w' = set_dent (<[h := set_moving 1 x]> (bw_dent w)) w) w.
Proof.
  intros S Hx HV. unfold moving_claim. wp_step. eapply wp_lookup; [exact Hx |].
  rewrite (se_moving _ _ _ _ _ _ _ S h x Hx), decide_False by done. cbn [Z.eqb when]. wp_step.
  eapply wp_run; [by apply dent_store_run |]. wp_step. split_and!; [done | | done].
  eapply sect_set_moving; [exact S | exact Hx | | ].
  - rewrite decide_True; [done |]. apply elem_of_union_l. by apply elem_of_singleton.
  - intros d Hd. rewrite elem_of_union, elem_of_singleton. tauto.
Qed.

Lemma wp_moving_clear k w N T P V hs h x :
  sect k w N T P V hs → bw_dent w !! h = Some x →
  wp (moving_clear h) (λ _ w', sect k w' N T P (V ∖ {[h]}) hs ∧
    w' = set_dent (<[h := set_moving 0 x]> (bw_dent w)) w) w.
Proof.
  intros S Hx. unfold moving_clear. eapply wp_run; [by apply dent_store_run |].
  cbn beta. rewrite (se_moving _ _ _ _ _ _ _ S h x Hx).
  replace (Z.land (if decide (h ∈ V) then 1 else 0) (Z.lnot 1)) with 0 by (by destruct (decide (h ∈ V))).
  split; [| done]. eapply sect_set_moving; [exact S | exact Hx | |].
  - rewrite decide_False; [done |]. by intros [_ []%not_elem_of_singleton]%elem_of_difference.
  - intros d Hd. rewrite elem_of_difference, not_elem_of_singleton. tauto.
Qed.

(** ** The destination *)

Lemma wp_dest_claim k w N T P V hs h n t np pn nq :
  sect k w N T P V hs → heads_ok w hs → N !! h = Some n → T !! h = Some t → N !! np = Some pn → qstr_wf nq →
  wp (dest_claim_locked np nq t) (λ r w',
    match c ← child (bw_root w) N np (qname nq); cn ← N !! c; Some (c, cn) with
    | None => r = (0, 0) ∧ w' = w
    | Some (c, cn) =>
        if refused (settled T) h c cn then r = (- EEXIST, 0) ∧ w' = w
        else r = (0, c) ∧ c ≠ 0 ∧ sect k w' (delete c N) (delete c T) ({[c]} ∪ P) V hs ∧ heads_ok w' hs ∧
          bw_root w' = bw_root w ∧ bw_mask w' = bw_mask w ∧ bw_lru w' = bw_lru w ∧
          bw_dent w' = bw_dent w ∧ bw_rcu w' = bw_rcu w
    end) w.
Proof.
  intros S Hok Hn Ht Hnp Hq. pose proof (se_rep _ _ _ _ _ _ _ S) as R. unfold dest_claim_locked. wp_step.
  destruct (find_top_cases w N T P np nq R Hq) as [[Ec Ef] | (c & cn & ct & Ec & Hcn & Hct & Hct0 & Hcr & Hcp & Hcnm & Ef)];
    (eapply wp_run; [exact Ef |]); rewrite Ec; cbn [mbind option_bind].
  { rewrite Z.eqb_refl. by wp_step. }
  rewrite Hcn. cbn [mbind option_bind]. destruct (Z.eqb_spec ct 0); [done |].
  destruct (rep_aligned _ _ _ _ R c ltac:(by eexists)) as [_ Hc0].
  destruct (r_entry _ _ _ _ R c cn ct Hcn Hct) as (cx & ctx & E).
  destruct (entry_ok _ _ _ _ R c cn ct cx ctx Hct Hcn E) as [Hcok _].
  wp_step. eapply (wp_mono _ (λ b w', b = refused (settled T) h c cn ∧ w' = w)).
  { unfold refused, settled. rewrite Hct. destruct (Z.eqb_spec ct t) as [-> | Hne].
    { wp_step. assert (c = h) as -> by (by eapply (top_inj _ _ _ _ R)). by rewrite Z.eqb_refl. }
    destruct (Z.eqb_spec c h) as [-> | _]; [congruence |].
    wp_step. eapply wp_run; [by eapply host_of_top |].
    destruct (Z.eqb_spec c ct) as [<- | Hne']; cbn [negb].
    2:{ rewrite bool_decide_eq_false_2 by congruence. by wp_step. }
    rewrite bool_decide_eq_true_2 by done. cbn [negb orb].
    wp_step. eapply wp_run; [eapply node_is_positive_run; [apply E | done] |]. rewrite (en_pos _ _ _ _ _ _ E).
    destruct (n_pos cn); cbn iota; [by wp_step |]. wp_step.
    eapply wp_lookup; [apply E |]. wp_step. by rewrite (en_dir _ _ _ _ _ _ E). }
  intros b w' [-> ->]. cbn beta. destruct (refused (settled T) h c cn) eqn:Er; [by wp_step |].
  unfold refused, settled in Er. apply orb_false_iff in Er as [[[_ Es]%orb_false_iff Ep]%orb_false_iff _].
  apply negb_false_iff, bool_decide_eq_true in Es. assert (ct = c) as -> by congruence.
  apply wp_assoc. wp_use wp_withdraw; [exact S | exact Hok | exact Hcn | exact Hct | done | |].
  { eapply typed_kids; [apply R | done | by right]. }
  intros [] w' (S' & Hok' & Er' & Em' & El' & Ed' & Eq'). wp_step. split_and!; done.
Qed.

(** ** Under the locks *)

Definition claimed (cross : bool) (h : Z) : gset Z := if cross then {[h]} else ∅.

(** The locks go, then the claim. *)
Lemma wp_stack_release {A} k w N T P cross hs h x (r : A) (Q : A → bworld → Prop) :
  sect k w N T P (claimed cross h) hs → heads_ok w hs → bw_dent w !! h = Some x →
  (∀ w', sect k w' N T P ∅ [] → bw_root w' = bw_root w → bw_mask w' = bw_mask w → bw_lru w' = bw_lru w →
     bw_rcu w' = bw_rcu w → (∀ d, d ≠ h → bw_dent w' !! d = bw_dent w !! d) → Q r w') →
  wp (bl_unlock_n (sort_heads hs) ;;; when cross (moving_clear h) ;;; st_ret r) Q w.
Proof.
  intros S Hok Hx HQ. wp_step. eapply wp_sect_unlock_n; [exact S | exact Hok |]. intros w1 Hl S1.
  destruct (relock_same _ _ Hl) as (Em & Er & _ & Ed & El & Eq & _). wp_step. destruct cross; cbn [when].
  - wp_use wp_moving_clear; [exact S1 | rewrite Ed; exact Hx |]. intros [] w2 [S2 ->]. wp_step.
    unfold claimed in S2. rewrite minus_self in S2. apply HQ; bsimpl; [done | done | done | done | done |].
    intros d Hd. rewrite lookup_insert_ne by done. by rewrite Ed.
  - wp_step. wp_step. apply HQ; [done | done | done | done | done |]. intros d _. by rewrite Ed.
Qed.

(** The dentry a claim set aside. *)
Definition aside (neg : Z) : gset Z := if neg =? 0 then ∅ else {[neg]}.

Record neg_ok (w : bworld) (neg : Z) : Prop := {
  ng_dent : neg ≠ 0 → ∃ x, bw_dent w !! neg = Some x ∧ dent_ok x ∧ shellb x = false;
  ng_queue : neg ≠ 0 → neg ∉ (cb_dent <$> bw_rcu w);
}.

(** What the locked part of a rename leaves: the code, the destination set aside,
    and the shell, published or still private. *)
Record stacked (k : nat) (w : bworld) (s : Z) (spec : Z * nspace) (r : Z * Z) (w' : bworld) : Prop := {
  sk_ret : fst r = fst spec;
  sk_sect : ∃ T', sect k w' (snd spec) T' (aside (snd r) ∪ (if fst r =? 0 then ∅ else {[s]})) ∅ [];
  sk_neg : neg_ok w' (snd r);
  sk_aside : snd r ≠ s;
  sk_root : bw_root w' = bw_root w;
  sk_mask : bw_mask w' = bw_mask w;
  sk_lru : bw_lru w' = bw_lru w;
  sk_rcu : bw_rcu w' = bw_rcu w;
  sk_shell : ∃ xs, bw_dent w' !! s = Some xs ∧ shellb xs = true;
}.

Section locked.
Context (k : nat) (w : bworld) (N : nspace) (T : gmap Z Z) (h : Z) (n : node) (t s : Z) (xs : dent).
Context (np : Z) (pn : node) (nq : qstr) (l : list Z).
Let cross := negb (n_parent n =? np).
Let n' := moved n np (qname nq).
Let hs := [Bucket (node_bucket (bw_mask w) n); ChildHead (n_parent n);
           Bucket (node_bucket (bw_mask w) n'); ChildHead np].
Context (Hn : N !! h = Some n) (Ht : T !! h = Some t) (Hr : h ≠ bw_root w) (Hnp : N !! np = Some pn).
Context (Hdir : n_dir pn = true) (Hpos : n_pos pn = true) (Hl : upto (bw_root w) N np l) (Hcyc : cross = true → h ∉ l).
Context (Hq : qstr_wf nq) (Hxs : bw_dent w !! s = Some xs) (Hxok : dent_ok xs) (Hxsh : shellb xs = true).
Context (Hxh : d_host xs = h) (Hxp : d_parent xs = np) (Hxi : ipar xs = np) (Hxn : qname (d_iname xs) = qname nq).
Context (Hword : words (bw_lru w) !! s = Some DC_LRU_OFF).

(** The commit, once the name is free: [N1] is the name space without the
    destination [neg]. *)
Lemma wp_stack_finish w1 N1 T1 neg x :
  sect k w1 N1 T1 (aside neg ∪ {[s]}) (claimed cross h) hs → heads_ok w1 hs →
  N1 ⊆ N → N1 !! h = Some n → T1 !! h = Some t → N1 !! np = Some pn →
  child (bw_root w) N1 np (qname nq) = None →
  bw_dent w1 = bw_dent w → bw_dent w !! h = Some x → bw_root w1 = bw_root w → bw_mask w1 = bw_mask w →
  bw_lru w1 = bw_lru w → bw_rcu w1 = bw_rcu w → neg_ok w1 neg → neg ≠ s → neg ≠ h →
  wp (let! recs := stack_one_prepare t h np (node_bucket (bw_mask w) n') (node_bucket (bw_mask w) n) s cross in
      let! st := commit_sw recs in
      bl_unlock_n (sort_heads hs) ;;;
      when cross (moving_clear h) ;;;
      st_ret (match st with
              | STATUS_ABORT => inl neg
              | STATUS_MEMORY_ERROR => inr (- ENOMEM, neg)
              | STATUS_OK => inr (0, neg)
              end))
    (λ (r : Z + Z * Z) w', ∃ (commit : bool) r', txn_may commit ∧ r = inr r' ∧
      stacked k w s (if commit then (0, <[h := n']> N1) else (- ENOMEM, N1)) r' w') w1.
Proof.
  intros S Hok Hsub Hn1 Ht1 Hnp1 Hc Ed Hx Er Em El Eq Hng Hns Hnh.
  pose proof (se_rep _ _ _ _ _ _ _ S) as R.
  assert (h ≠ s) as Hhs.
  { intros ->. destruct (rep_node _ _ _ _ s n R Hn1) as (x0 & Hx0 & _ & _ & _ & Hs0 & _). congruence. }
  assert (upto (bw_root w1) N1 np l) as Hl1.
  { destruct (t_up _ _ (r_tree _ _ _ _ R) np) as [l1 Hl1]; [by eexists |].
    assert (l1 = l) as <-; [| done]. eapply upto_det; [| exact Hl]. rewrite <- Er. by eapply upto_weaken. }
  assert (shell_for (bw_dent w1) N1 (aside neg ∪ {[s]}) h s n n' x xs) as F.
  { split; rewrite ?Ed; try done. apply elem_of_union_r. by apply elem_of_singleton. }
  apply wp_assoc. rewrite <- Em. wp_use (wp_stack_commit k w1 N1 T1 _ _ hs h n n' t s x xs).
  - exact S.
  - exact Hok.
  - exact Ht1.
  - by rewrite Er.
  - exact F.
  - by rewrite El.
  - rewrite Em. right; right; left.
  - right; right; right; left.
  - eapply tree_move; [apply R | done | by rewrite Er | exact Hnp1 | exact Hl1 | by rewrite Er |].
    unfold cross in Hcyc. destruct (Z.eqb_spec (n_parent n) np); [by left | right; by apply Hcyc].
  - eapply typed_move; [apply R | done | exact Hnp1 | done | done].
  - rewrite Em. intros st w2 (Hst & Hok2 & Er2 & Em2 & El2 & Eq2).
    assert (∀ w3, bw_rcu w3 = bw_rcu w2 → (∀ d, d ≠ h → bw_dent w3 !! d = bw_dent w1 !! d) → neg_ok w3 neg) as Hng3.
    { intros w3 E1 E2. destruct Hng as [H1 H2]. split.
      - intros H0. rewrite E2 by done. by apply H1.
      - intros H0. rewrite E1, Eq2. by apply H2. }
    destruct st; [| done |].
    + destruct Hst as [S2 Ed2].
      assert (bw_dent w2 !! h = Some (set_parent (n_parent n') (set_top s x))) as Hx2.
      { rewrite Ed2. unfold restacked. by rewrite lookup_alter_eq, Ed, Hx. }
      eapply wp_stack_release; [exact S2 | exact Hok2 | exact Hx2 |]. intros w3 S3 Er3 Em3 El3 Eq3 Ed3.
      assert (∀ d, d ≠ h → bw_dent w3 !! d = bw_dent w1 !! d) as Ed31.
      { intros d Hd. rewrite Ed3, Ed2 by done. unfold restacked. by rewrite lookup_alter_ne. }
      exists true, (0, neg). split; [done |]. split; [done |]. split; simpl; [done | | by apply Hng3 | done | congruence | congruence | congruence | congruence |].
      * eexists. replace (aside neg ∪ ∅) with ((aside neg ∪ {[s]}) ∖ {[s]}); [exact S3 |]. unfold aside.
        destruct (neg =? 0); set_solver.
      * exists xs. by rewrite Ed31, Ed.
    + destruct Hst as (Hmay & S2 & Ed2).
      eapply wp_stack_release; [exact S2 | exact Hok2 | rewrite Ed2, Ed; exact Hx |]. intros w3 S3 Er3 Em3 El3 Eq3 Ed3.
      assert (∀ d, d ≠ h → bw_dent w3 !! d = bw_dent w1 !! d) as Ed31 by (intros d Hd; by rewrite Ed3, Ed2).
      exists false, (- ENOMEM, neg). split; [done |]. split; [done |]. split; simpl; [done | | by apply Hng3 | done | congruence | congruence | congruence | congruence |].
      * eexists. exact S3.
      * exists xs. by rewrite Ed31, Ed.
Qed.

Lemma wp_stack_locked x :
  sect k w N T {[s]} (claimed cross h) [] → bw_dent w !! h = Some x →
  wp (stack_locked (n_parent n) (node_bucket (bw_mask w) n) np (node_bucket (bw_mask w) n') nq cross s t h 0)
    (λ (r : Z + Z * Z) w', ∃ (commit : bool) r', txn_may commit ∧ r = inr r' ∧
      stacked k w s (spec_claim (bw_root w) (settled T) commit h n np (qname nq) N) r' w') w.
Proof.
  intros S Hx. pose proof (se_rep _ _ _ _ _ _ _ S) as R. unfold stack_locked. fold hs.
  wp_step. eapply wp_sect_lock_n; [exact S | |].
  { intros hd Hd. unfold hs in Hd. rewrite !elem_of_cons, elem_of_nil in Hd. destruct_or! Hd; subst hd; try done.
    - by eapply heads_bucket.
    - eapply heads_child; [exact R |]. by eapply tree_parent; [apply R |].
    - by eapply heads_bucket.
    - eapply heads_child; [exact R | by eexists]. }
  intros w1 Hl1 S1 Hok1. destruct (relock_same _ _ Hl1) as (Em & Er & _ & Ed & El & Eq & _).
  pose proof (se_rep _ _ _ _ _ _ _ S1) as R1. wp_step. eapply wp_run; [by eapply live_run |]. cbn iota.
  destruct (rep_node _ _ _ _ np pn R1 Hnp) as (px & Hpx & Hpxok & _ & Hpp & _).
  wp_step. eapply wp_run; [by eapply node_is_positive_run |]. rewrite Hpp, Hpos. cbn [negb].
  wp_step. wp_use wp_dest_claim; [exact S1 | exact Hok1 | exact Hn | exact Ht | exact Hnp | exact Hq |].
  intros r w2 Hpost. rewrite Er in Hpost. unfold spec_claim. fold n'.
  assert (s ≠ 0) as Hs0 by (by apply (r_dent _ _ _ _ R s xs Hxs)).
  destruct (rep_aligned _ _ _ _ R h ltac:(by eexists)) as [_ Hh0].
  destruct (child (bw_root w) N np (qname nq)) as [c |] eqn:Ec; cbn [mbind option_bind] in *.
  2:{ destruct Hpost as [-> ->]. cbn [fst snd]. change (0 =? 0) with true. cbn [negb].
      eapply (wp_stack_finish w1 N T 0 x); try done; unfold aside; simpl; by rewrite union_empty_l_L. }
  pose proof (child_Some_1 _ _ _ _ _ Ec) as (Hcr & cn & Hcn & Hcp & Hcnm). rewrite Hcn in *. cbn [mbind option_bind] in *.
  destruct (refused (settled T) h c cn) eqn:Eref.
  { destruct Hpost as [-> ->]. cbn [fst snd]. change (negb (- EEXIST =? 0)) with true. change (0 =? 0) with true. cbn iota.
    eapply wp_stack_release; [exact S1 | exact Hok1 | by rewrite Ed; exact Hx |]. intros w3 S3 Er3 Em3 El3 Eq3 Ed3.
    exists true, (- EEXIST, 0). split; [done |]. split; [done |]. split; simpl; [done | | done | done | congruence | congruence | congruence | congruence |].
    - exists T. unfold aside. simpl. by rewrite union_empty_l_L.
    - exists xs. rewrite Ed3, Ed; [done |]. intros ->.
      destruct (rep_node _ _ _ _ h n R Hn) as (x0 & Hx0 & _ & _ & _ & Hs0' & _). congruence. }
  destruct Hpost as (-> & Hc0 & S2 & Hok2 & Er2 & Em2 & El2 & Ed2 & Eq2). cbn [fst snd].
  destruct (Z.eqb_spec c 0) as [? | _]; [contradiction |]. change (0 =? 0) with true. cbn [negb].
  unfold refused in Eref. apply orb_false_iff in Eref as [[[Ech%Z.eqb_neq _]%orb_false_iff Ecpos]%orb_false_iff _].
  assert (c ≠ np) as Hcnp by (intros ->; congruence).
  destruct (rep_node _ _ _ _ c cn R1 Hcn) as (cx & Hcx & Hcok & _ & _ & Hcsh & _).
  eapply (wp_stack_finish w2 (delete c N) (delete c T) c x).
  - unfold aside. destruct (Z.eqb_spec c 0) as [? | _]; [contradiction | exact S2].
  - done.
  - apply delete_subseteq.
  - by rewrite lookup_delete_ne.
  - by rewrite lookup_delete_ne.
  - by rewrite lookup_delete_ne.
  - apply child_None. intros d [Hd Hdc]%is_child_delete. apply Hdc.
    apply child_Some_1 in Ec. by eapply (t_unique _ _ (r_tree _ _ _ _ R)).
  - by rewrite Ed2, Ed.
  - done.
  - by rewrite Er2.
  - by rewrite Em2.
  - by rewrite El2.
  - by rewrite Eq2.
  - split; intros _; [exists cx; by rewrite Ed2 |]. rewrite Eq2.
    eapply host_not_queued; [exact R1 | apply S1 | done].
  - intros ->. congruence.
  - done.
Qed.
End locked.

(** ** The round and the shell *)

Lemma sect_set_priv k w N T P V hs d x x' :
  sect k w N T P V hs → d ∈ P → bw_dent w !! d = Some x → d_moving x' = d_moving x →
  sect k (set_dent (<[d := x']> (bw_dent w)) w) N T P V hs.
Proof.
  intros [R Hh Hq Hm Hk] Hd Hx E. split; [by apply rep_set_priv | exact Hh | | | done].
  - eapply rcu_rep_ext; [exact Hq | |]; bsimpl.
    + intros y z Hy HP HyN HyT. rewrite lookup_insert_ne by (by intros ->). eauto.
    + intros y z Hy HP Hs. split; [done |]. exists z. by rewrite lookup_insert_ne by (by intros ->).
  - intros y z. bsimpl. destruct (decide (d = y)) as [<- |].
    + rewrite lookup_insert_eq. intros [= <-]. rewrite E. by apply Hm.
    + rewrite lookup_insert_ne by done. apply Hm.
Qed.

(** A shell before and after it is given its host. *)
Definition shell_dent (np : Z) (nq : qstr) (h : Z) : dent :=
  {| d_iparent := Z.lor np DC_TAG_SHELL; d_iname := nq; d_fwd := h; d_top := 0; d_inode := 1;
     d_isdir := false; d_parent := np; d_moving := 0; d_id := h |}.

Lemma shell_dent_ok np nq h :
  aligned np → qstr_wf nq → h ≠ 0 →
  dent_ok (shell_dent np nq h) ∧ shellb (shell_dent np nq h) = true ∧ ipar (shell_dent np nq h) = np.
Proof.
  intros Hp Hq Hh. set (x := shell_dent np nq h).
  assert (d_iparent x = np + itag true false) as E by (unfold x; simpl; by rewrite aligned_lor).
  destruct (tag_word np true false x Hp E) as (E1 & E2 & E3).
  split_and!; [| done | done]. split; [done | by rewrite E1 | by rewrite E, E1, E2, E3 | done | apply aligned_0 |].
  rewrite E2. simpl. by destruct (Z.eqb_spec h 0).
Qed.

(** The host's own claim makes no difference to its cycle check. *)
Lemma wp_stack_round k w N T h n t s x0 np pn fq nq l :
  let cross := negb (n_parent n =? np) in
  sect k w N T {[s]} ∅ [] → N !! h = Some n → T !! h = Some t → h ≠ bw_root w →
  n_name n = qname fq → qstr_wf fq → N !! np = Some pn → n_dir pn = true → n_pos pn = true →
  upto (bw_root w) N np l → (length l ≤ S DC_LOOP_MAX)%nat → qstr_wf nq →
  bw_dent w !! s = Some x0 → (∀ y, set_fwd y (set_host y x0) = shell_dent np nq y) →
  words (bw_lru w) !! s = Some DC_LRU_OFF →
  wp (stack_round (n_parent n) fq (node_bucket (bw_mask w) n) np
        (node_bucket (bw_mask w) (moved n np (qname nq))) nq cross s 0)
    (λ (r : Z + Z * Z) w', ∃ (commit : bool) r', txn_may commit ∧ r = inr r' ∧
      stacked k w s (if cross && bool_decide (h ∈ l) then (- EINVAL, N)
                     else spec_claim (bw_root w) (settled T) commit h n np (qname nq) N) r' w') w.
Proof.
  intros cross S Hn Ht Hr Hfn Hfq Hnp Hdir Hpos Hl Hlen Hnq Hx0 Hsh Hword.
  pose proof (se_rep _ _ _ _ _ _ _ S) as R.
  destruct (rep_aligned _ _ _ _ R h ltac:(by eexists)) as [_ Hh0].
  destruct (rep_aligned _ _ _ _ R np ltac:(by eexists)) as [Hpa _].
  destruct (shell_dent_ok np nq h Hpa Hnq Hh0) as (Hxok & Hxsh & Hxi).
  assert (h ≠ s) as Hhs.
  { intros ->. destruct (r_priv _ _ _ _ R s ltac:(by apply elem_of_singleton)) as (_ & ? & _). congruence. }
  unfold stack_round. wp_step.
  destruct (find_top_cases w N T {[s]} (n_parent n) fq R Hfq) as [[Ec _] | (h' & m & t' & Ec & Hm & Ht' & Ht0 & _ & _ & _ & Ef)].
  { exfalso. apply (child_None_1 _ _ _ _ h Ec). split; eauto. }
  assert (h' = h) as ->.
  { apply child_Some_1 in Ec. eapply (t_unique _ _ (r_tree _ _ _ _ R)); [exact Ec |]. split; eauto. }
  assert (m = n ∧ t' = t) as [-> ->] by (split; congruence).
  eapply wp_run; [exact Ef |]. destruct (Z.eqb_spec t 0) as [? | _]; [contradiction |].
  wp_step. eapply wp_run; [by eapply host_of_top |].
  wp_step. eapply wp_run; [by apply dent_store_run |].
  wp_step. eapply wp_run; [apply dent_store_run, lookup_insert_eq |]. bsimpl. rewrite insert_insert_eq, Hsh.
  set (xs := shell_dent np nq h) in *. set (w1 := set_dent (<[s := xs]> (bw_dent w)) w).
  assert (sect k w1 N T {[s]} ∅ []) as S1.
  { eapply sect_set_priv; [exact S | by apply elem_of_singleton | exact Hx0 |].
    rewrite (se_moving _ _ _ _ _ _ _ S s x0 Hx0). by rewrite decide_False by apply not_elem_of_empty. }
  destruct (rep_node _ _ _ _ h n R Hn) as (x & Hx & Hxhok & _).
  assert (bw_dent w1 !! h = Some x) as Hx1 by (unfold w1; bsimpl; by rewrite lookup_insert_ne).
  assert (bw_dent w1 !! s = Some xs) as Hs1 by apply lookup_insert_eq.
  wp_step. destruct cross eqn:Ecross.
  2:{ wp_step. cbn [negb]. wp_step. wp_step. change (negb (0 =? 0)) with false. cbn [andb]. cbn iota.
      unfold cross in Ecross. rewrite <- Ecross.
      wp_use (wp_stack_locked k w1 N T h n t s xs np pn nq l); try done; [congruence | by rewrite Ecross |].
      intros r w' (commit & r' & Hmay & -> & Hst). exists commit, r'. split; [done |]. split; [done |]. destruct Hst. by split. }
  wp_use wp_moving_claim; [exact S1 | exact Hx1 | apply not_elem_of_empty |].
  intros r w2 (-> & S2 & Ew2). cbn [negb]. rewrite union_empty_r_L in S2. pose proof (se_rep _ _ _ _ _ _ _ S2) as R2.
  assert (bw_root w2 = bw_root w ∧ bw_mask w2 = bw_mask w ∧ bw_lru w2 = bw_lru w ∧ bw_rcu w2 = bw_rcu w)
    as (Er2 & Em2 & El2 & Eq2) by (by rewrite Ew2).
  assert (bw_dent w2 !! h = Some (set_moving 1 x)) as Hx2 by (rewrite Ew2; apply lookup_insert_eq).
  assert (bw_dent w2 !! s = Some xs) as Hs2 by (rewrite Ew2; bsimpl; by rewrite lookup_insert_ne).
  wp_step. eapply wp_run; [eapply (cross_cycle_run w2 N T {[s]} {[h]}); [exact R2 | apply S2 | | by rewrite Er2 | by rewrite Er2 | done] |].
  { intros d ->%elem_of_singleton. done. }
  cbn [andb]. case_bool_decide as Hin.
  - change (negb (- EINVAL =? 0)) with true. change (- EINVAL =? - EINVAL) with true. cbn iota. wp_step.
    wp_use wp_moving_clear; [exact S2 | exact Hx2 |]. intros [] w3 [S3 Ew3]. rewrite minus_self in S3. wp_step.
    exists true, (- EINVAL, 0). split; [done |]. split; [done |].
    split; simpl; [done | | done | | by rewrite Ew3 | by rewrite Ew3 | by rewrite Ew3 | by rewrite Ew3 |].
    + exists T. unfold aside. simpl. by rewrite union_empty_l_L.
    + intros <-. by destruct (r_dent _ _ _ _ R 0 x0 Hx0) as (_ & [] & _).
    + exists xs. rewrite Ew3. bsimpl. by rewrite lookup_insert_ne.
  - change (negb (0 =? 0)) with false. cbn iota. unfold cross in Ecross. rewrite <- Ecross, <- Em2, <- Er2.
    wp_use (wp_stack_locked k w2 N T h n t s xs np pn nq l); try done;
      [by rewrite Er2 | by rewrite Er2 | by rewrite El2 | by rewrite Ecross |].
    intros r w' (commit & r' & Hmay & -> & Hst). exists commit, r'. split; [done |]. split; [done |]. destruct Hst. split; try done; congruence.
Qed.

Lemma wp_dest_reclaim k w N T X neg :
  sect k w N T (aside neg ∪ X) ∅ [] → neg_ok w neg → neg ∉ X →
  wp (dest_reclaim neg) (λ _ w', sect k w' N T X ∅ [] ∧ bw_root w' = bw_root w ∧ bw_mask w' = bw_mask w ∧
    bw_dent w' = bw_dent w ∧ (∀ y, y ≠ neg → words (bw_lru w') !! y = words (bw_lru w) !! y) ∧
    (∀ y, y ≠ neg → y ∈ (cb_dent <$> bw_rcu w') → y ∈ (cb_dent <$> bw_rcu w))) w.
Proof.
  intros S Hng Hout. unfold dest_reclaim. unfold aside in S. destruct (Z.eqb_spec neg 0) as [_ | H0].
  { wp_step. rewrite union_empty_l_L in S. done. }
  destruct (ng_dent _ _ Hng H0) as (x & Hx & Hok & Hsh). pose proof (ng_queue _ _ Hng H0) as Hq.
  pose proof (se_rep _ _ _ _ _ _ _ S) as R.
  assert (neg ∈ {[neg]} ∪ X) as Hin by (apply elem_of_union_l; by apply elem_of_singleton).
  destruct (r_priv _ _ _ _ R neg Hin) as (_ & HN & _).
  wp_step. wp_use wp_lru_let_go; [exact S | by eexists | done |].
  intros r w1 (-> & Ho & S1 & Hw & Hother). destruct (only_lru_same _ _ Ho) as (Em & Er & _ & Ed & _ & _ & Eq & _).
  cbn [when]. unfold wp at 1. unfold dc_free_host, call_rcu, st_mod.
  pose proof (wp_queue_free k w1 N T ({[neg]} ∪ X) ∅ [] neg x DC_LRU_DEAD S1 Hin ltac:(by rewrite Ed) Hok Hsh
    ltac:(by rewrite Eq) Hw ltac:(by right)) as Hf.
  unfold wp, dc_free_host, call_rcu, st_mod in Hf. destruct Hf as (S2 & _).
  replace (({[neg]} ∪ X) ∖ {[neg]}) with X in S2.
  2:{ apply set_eq. intros y. rewrite elem_of_difference, elem_of_union, elem_of_singleton. split; [| tauto].
      intros Hy. split; [by right |]. by intros ->. }
  split_and!; [done | done | done | done | done |]. bsimpl. intros y Hy. rewrite fmap_app, elem_of_app, Eq.
  intros [? | ->%list_elem_of_singleton]; done.
Qed.

(** [dc_rename]'s [stack_shell]. *)
Lemma wp_stack_shell k w N T h n np pn fq nq l :
  let cross := negb (n_parent n =? np) in
  binv k w N T → N !! h = Some n → h ≠ bw_root w →
  n_name n = qname fq → qstr_wf fq → N !! np = Some pn → n_dir pn = true → n_pos pn = true →
  upto (bw_root w) N np l → (length l ≤ S DC_LOOP_MAX)%nat → qstr_wf nq →
  wp (stack_shell (n_parent n) fq np nq cross) (λ r w', ∃ commit : bool, txn_may commit ∧
    let spec := match posix_memalign (dom (bw_dent w)) with
                | None => (- ENOMEM, N)
                | Some _ => if cross && bool_decide (h ∈ l) then (- EINVAL, N)
                            else spec_claim (bw_root w) (settled T) commit h n np (qname nq) N
                end in
    fst r = fst spec ∧ bw_root w' = bw_root w ∧ bw_mask w' = bw_mask w ∧
    (∃ T', binv k w' (snd spec) T') ∧
    (fst r = 0 → (∃ x, bw_dent w' !! snd r = Some x ∧ shellb x = true) ∧ snd r ∉ (cb_dent <$> bw_rcu w'))) w.
Proof.
  intros cross Hi Hn Hr Hfn Hfq Hnp Hdir Hpos Hl Hlen Hnq. pose proof (bi_rep _ _ _ _ Hi) as R.
  destruct (rep_aligned _ _ _ _ R np ltac:(by eexists)) as [Hpa _].
  unfold stack_shell. wp_step. apply wp_gets. wp_step. apply wp_gets.
  wp_step. unfold wp at 1. rewrite dentry_alloc_run. destruct (posix_memalign _) as [s |] eqn:Ea.
  2:{ rewrite Z.eqb_refl. wp_step. exists true. split; [done |]. simpl. split_and!; [done | done | done | eauto | done]. }
  destruct (alloc_fresh w s Ea) as (Hfresh & Hsa & Hs0). destruct (Z.eqb_spec s 0) as [? | _]; [contradiction |].
  set (x0 := new_dent np nq 0 false true). set (w1 := alloc_dent s x0 w).
  assert (sect k w1 N T {[s]} ∅ []) as S1.
  { rewrite <- (union_empty_r_L {[s]}). apply sect_alloc; [by apply sect_binv | done ..]. }
  assert (bw_dent w1 !! s = Some x0) as Hs1 by (unfold w1, alloc_dent; bsimpl; apply lookup_insert_eq).
  wp_step. eapply wp_run; [by apply dent_store_run |]. cbn beta.
  set (x1 := set_iparent (Z.lor (d_iparent x0) DC_TAG_SHELL) x0).
  set (w2 := set_dent (<[s := x1]> (bw_dent w1)) w1).
  assert (sect k w2 N T {[s]} ∅ []) as S2.
  { eapply sect_set_priv; [exact S1 | by apply elem_of_singleton | exact Hs1 | done]. }
  wp_step. apply wp_mod. set (w3 := set_nest _ w2).
  assert (sect (Datatypes.S k) w3 N T {[s]} ∅ []) as S3.
  { destruct S2 as [R2 Hh2 Hq2 Hm2 Hk2]. split; [by apply rep_nest | done | done | done |]. unfold w3. bsimpl. congruence. }
  assert (words (bw_lru w3) !! s = Some DC_LRU_OFF) as Hword.
  { unfold w3, w2, w1, alloc_dent, words. bsimpl. simpl. by rewrite lookup_fmap, lookup_insert_eq. }
  destruct (rep_top _ _ _ _ R h n Hn) as (t & _ & _ & Ht & _).
  assert (bucket_index (bw_mask w) (n_parent n) (q_hash fq) = node_bucket (bw_mask w3) n) as ->.
  { unfold node_bucket. by rewrite Hfn, (qw_hash fq Hfq). }
  assert (bucket_index (bw_mask w) np (q_hash nq) = node_bucket (bw_mask w3) (moved n np (qname nq))) as ->.
  { unfold node_bucket. simpl. by rewrite (qw_hash nq Hnq). }
  wp_step. apply wp_iter_first.
  wp_use (wp_stack_round (Datatypes.S k) w3 N T h n t s x1 np pn fq nq l);
    [exact S3 | done | done | done | done | done | exact Hnp | done | done | done | done | done |
     apply lookup_insert_eq | done | exact Hword |].
  change (bw_root w3) with (bw_root w). intros r w4 (commit & [ret neg] & Hmay & -> & Hst). exists (ret, neg). split; [done |].
  fold cross in Hst. set (spec := if cross && bool_decide (h ∈ l) then (- EINVAL, N)
    else spec_claim (bw_root w) (settled T) commit h n np (qname nq) N) in *.
  destruct Hst as [Eret (T4 & S4) Hng Hns Er4 Em4 El4 Eq4 (xs & Hxs & Hxsh)]. cbn [fst snd] in *.
  wp_step. eapply wp_rcu_leave; [exact S4 |]. intros S5. wp_step.
  assert (neg_ok (set_nest k w4) neg) as Hng5 by (destruct Hng; by split).
  wp_use wp_dest_reclaim; [exact S5 | exact Hng5 | |].
  { destruct (ret =? 0); [apply not_elem_of_empty | by apply not_elem_of_singleton]. }
  intros [] w6 (S6 & Er6 & Em6 & Ed6 & Hw6 & Hq6). bsimpl in *.
  assert (s ∉ (cb_dent <$> bw_rcu w6)) as Hsq.
  { intros Hin%Hq6; [| done]. rewrite Eq4 in Hin. by eapply (priv_not_queued _ w3); [exact S3 | apply elem_of_singleton |]. }
  destruct (Z.eqb_spec ret 0) as [-> | Hret].
  - wp_step. exists commit. split; [done |]. cbn [fst snd]. fold spec. split_and!; [done | by rewrite Er6, Er4 | by rewrite Em6, Em4 | |].
    + exists T4. by apply sect_binv.
    + intros _. split; [exists xs; by rewrite Ed6 | done].
  - wp_step. wp_use wp_give_back; [exact S6 | by apply elem_of_singleton | done | | apply off_list_off |].
    { rewrite Hw6 by done. rewrite El4. exact Hword. }
    intros [] w7 (S7 & Er7 & Em7 & _). rewrite minus_self in S7. wp_step. exists commit. split; [done |]. cbn [fst snd]. fold spec.
    split_and!; [done | by rewrite Er7, Er6, Er4 | by rewrite Em7, Em6, Em4 | | done]. exists T4. by apply sect_binv.
Qed.

Lemma binv_queue_fold k w N T s x :
  binv k w N T → bw_dent w !! s = Some x → shellb x = true → s ∉ (cb_dent <$> bw_rcu w) →
  binv k (set_rcu (bw_rcu w ++ [CbFold s]) w) N T.
Proof.
  intros [R H1 H2 [Hnd Hf Hg] Hs Hk] Hx Hsh Hnot. split; [by destruct R; constructor | done | done | | done | done].
  bsimpl. split.
  - rewrite fmap_app. apply NoDup_app. split_and!; [done | | apply NoDup_singleton].
    intros y Hy ->%list_elem_of_singleton. done.
  - intros y [Hy | ?%list_elem_of_singleton]%elem_of_app; [by apply Hf | done].
  - intros y [Hy | [= ->]%list_elem_of_singleton]%elem_of_app; [by apply Hg |].
    split; [apply not_elem_of_empty | eauto].
Qed.

(** From the second resolve of [dc_rename] on. *)
Lemma wp_rename_to k w0 w N T h n fq to :
  binv k w N T → path_wf to → ndepth to ≠ 0%nat → dest_is_dir (bw_root w) N (pnames to) →
  N !! h = Some n → h ≠ bw_root w → n_name n = qname fq → qstr_wf fq →
  bw_root w = bw_root w0 → bw_mask w = bw_mask w0 → bw_dent w = bw_dent w0 →
  wp (let! to_parent := resolve to (ndepth to - 1) in
      if to_parent =? 0 then st_ret (- ENOENT)
      else
        let! to_name := comp_at to (ndepth to - 1) in
        let! dest := __child_lookup to_parent to_name in
        let! occupied := (if dest =? 0 then st_ret false
                          else if dest =? h then st_ret true
                          else node_is_positive dest) in
        if occupied : bool then st_ret (- EEXIST)
        else
          let! pos := node_is_positive to_parent in
          if negb pos then st_ret (- ENOENT)
          else
            rcu_read_lock ;;;
            let! vp := parent_of_rcu h in
            rcu_read_unlock ;;;
            let cross := negb (vp =? to_parent) in
            let! r := stack_shell (n_parent n) fq to_parent to_name cross in
            let '(ret, shell) := r in
            if negb (ret =? 0) then st_ret ret
            else
              call_rcu (CbFold shell) ;;;
              st_ret 0)
    (λ ret w', ∃ commit : bool, txn_may commit ∧ bl_post k w0
      match split_last (pnames to) with
      | None => (- EINVAL, N)
      | Some (tdir, tnm) =>
        match tp ← nwalk (bw_root w0) N (bw_root w0) tdir; tpn ← N !! tp; Some (h, n, tp, tpn) with
        | None => (- ENOENT, N)
        | Some (v, vn, tp, tpn) =>
            if match c ← child (bw_root w0) N tp tnm; cn ← N !! c; Some (c, cn) with
               | Some (c, cn) => (c =? v) || n_pos cn
               | None => false
               end then (- EEXIST, N)
            else if negb (n_pos tpn) then (- ENOENT, N)
            else match posix_memalign (dom (bw_dent w0)) with
                 | None => (- ENOMEM, N)
                 | Some _ =>
                     if negb (n_parent vn =? tp) && subdir (bw_root w0) N tp v then (- EINVAL, N)
                     else spec_claim (bw_root w0) (settled T) commit v vn tp tnm N
                 end
        end
      end ret w') w.
Proof.
  intros Hi Hp H0 Hdest Hn Hr Hfn Hfq Er0 Em0 Ed0.
  destruct (path_split to Hp H0) as (q & Hq & Hqw & _ & Esl). unfold dest_is_dir in Hdest. rewrite Esl in *.
  wp_step. apply (wp_resolve_parent k w N T to); [done | done | |]; clear Hi.
  { intros w1 Hi Er Em Ed Ew. rewrite Z.eqb_refl. wp_step. exists true. split; [done |]. rewrite <- Er0, Ew. cbn [mbind option_bind].
    eapply bl_post_same; [done | done | done | congruence | congruence]. }
  intros w1 p pn Hi Er Em Ed Ew Hpn Hpa Hp0. rewrite <- Er0, <- Er, <- Ed0, <- Ed, Ew in *. cbn [mbind option_bind].
  rewrite Hpn. cbn [mbind option_bind].
  destruct (Z.eqb_spec p 0) as [? | _]; [contradiction |]. pose proof (bi_rep _ _ _ _ Hi) as R.
  assert (∀ spec ret, ret = fst spec → snd spec = N → bl_post k w0 spec ret w1) as Hsame.
  { intros spec ret E1 E2. eapply bl_post_same; [done | done | done | congruence | congruence]. }
  assert (n_dir pn = true) as Hdir by (eapply Hdest; [done | done | done]).
  wp_step. eapply wp_run; [by apply comp_at_run |].
  wp_step. eapply wp_run; [by apply (child_lookup_run' w1 N T ∅) |].
  set (occ := match c ← child (bw_root w1) N p (qname q); cn ← N !! c; Some (c, cn) with
              | Some (c, cn) => (c =? h) || n_pos cn | None => false end).
  wp_step. apply (wp_mono _ (λ (b : bool) w', b = occ ∧ w' = w1)).
  { unfold occ. destruct (child (bw_root w1) N p (qname q)) as [c |] eqn:Ec; simpl; [| by wp_step].
    pose proof (child_Some_1 _ _ _ _ _ Ec) as (_ & cn & Hcn & _). rewrite Hcn. simpl.
    destruct (rep_aligned _ _ _ _ R c ltac:(by eexists)) as [_ Hc0]. destruct (Z.eqb_spec c 0) as [? | _]; [contradiction |].
    destruct (Z.eqb_spec c h) as [-> | Hne]; [by wp_step |]. simpl.
    destruct (rep_node _ _ _ _ c cn R Hcn) as (cx & Hcx & Hcok & _ & Hcp & _).
    eapply wp_run; [by eapply node_is_positive_run |]. by rewrite Hcp. }
  intros b w' [-> ->]. cbn beta. destruct occ; [wp_step; exists true; split; [done |]; by apply Hsame |].
  destruct (rep_node _ _ _ _ p pn R Hpn) as (px & Hpx & Hpok & _ & Hpp & _).
  wp_step. eapply wp_run; [by eapply node_is_positive_run |]. rewrite Hpp.
  destruct (n_pos pn) eqn:Epos; cbn [negb]; [| wp_step; exists true; split; [done |]; by apply Hsame].
  destruct (rep_node _ _ _ _ h n R Hn) as (hx & Hhx & Hhok & _ & _ & _ & Hhp).
  wp_step. apply wp_mod. wp_step. eapply wp_run; [by apply (parent_of_run _ h hx) |]. rewrite Hhp.
  wp_step. eapply wp_run; [done |]. bsimpl.
  replace (set_nest (bw_nest w1) (set_nest (S (bw_nest w1)) w1)) with w1 by (by destruct w1).
  destruct (resolved_depth w1 N T ∅ to p R Hp Ew) as (l & Hl & Hlen).
  cbv zeta. wp_step. wp_use (wp_stack_shell k w1 N T h n p pn fq q l); try done.
  intros [ret shell] w2 (commit & Hmay & Eret & Er2 & Em2 & (T2 & Hi2) & Hsh). cbn [fst snd] in *.
  rewrite <- (subdir_spec _ _ _ _ l (r_tree _ _ _ _ R) Hl) in Eret, Hi2.
  destruct (Z.eqb_spec ret 0) as [-> | Hret]; cbn [negb].
  - destruct (Hsh eq_refl) as ((x & Hx & Hxs) & Hnot). wp_step. apply wp_mod. wp_step. exists commit. split; [done |].
    split; [exact Eret | | bsimpl; congruence | bsimpl; congruence].
    exists T2. by eapply binv_queue_fold.
  - wp_step. exists commit. split; [done |]. split; [exact Eret | by eexists | congruence | congruence].
Qed.

Lemma wp_bl_rename k w N T from to :
  binv k w N T → path_wf from → path_wf to → dest_is_dir (bw_root w) N (pnames to) →
  wp (dc_rename from to) (λ ret w', ∃ commit : bool, txn_may commit ∧ bl_post k w
    (spec_rename_bl (bw_root w) (posix_memalign (dom (bw_dent w))) (settled T) commit
       (pnames from) (pnames to) N) ret w') w.
Proof.
  intros Hi Hpf Hpt Hdest. unfold dc_rename, spec_rename_bl. case_decide as H0.
  { wp_step. exists true. split; [done |]. eapply bl_post_same; [done | | | done | done];
      destruct H0 as [E | E]; unfold pnames; rewrite E; simpl; repeat case_match; done. }
  apply Decidable.not_or in H0 as [Hf0 Ht0].
  destruct (path_split from Hpf Hf0) as (q & Hq & Hqw & Hw & _).
  destruct (pnames from) as [| nm0 rest] eqn:En; [by apply pnames_nonempty in En |]. rewrite <- En, Hw in *. clear Hw.
  destruct (path_split to Hpt Ht0) as (tq & _ & _ & _ & Esl).
  wp_step. apply (wp_resolve_parent k w N T from); [done | done | |]; clear Hi.
  { intros w1 Hi Er Em Ed Ew. rewrite Z.eqb_refl. wp_step. exists true. split; [done |]. rewrite Esl, Ew. cbn [mbind option_bind].
    by eapply bl_post_same. }
  intros w1 p pn Hi Er Em Ed Ew Hpn Hpa Hp0. pose proof (bi_rep _ _ _ _ Hi) as R.
  destruct (Z.eqb_spec p 0) as [? | _]; [contradiction |]. wp_step. eapply wp_run; [by apply comp_at_run |].
  wp_step. eapply wp_run; [by apply (child_lookup_run' w1 N T ∅) |]. rewrite Ew, Er. cbn [mbind option_bind].
  destruct (child (bw_root w) N p (qname q)) as [h |] eqn:Ec; cbn [default mbind option_bind].
  2:{ rewrite Z.eqb_refl. wp_step. exists true. split; [done |]. rewrite Esl. by eapply bl_post_same. }
  pose proof (child_Some_1 _ _ _ _ _ Ec) as (Hhr & n & Hn & Hnp & Hnm). rewrite Hn. cbn [mbind option_bind id default].
  destruct (rep_aligned _ _ _ _ R h ltac:(by eexists)) as [_ Hh0].
  change (default 0 (Some h)) with h. destruct (Z.eqb_spec h 0) as [? | _]; [contradiction |]. rewrite <- Hnp.
  eapply (wp_rename_to k w w1 N T h n q to); try done; by rewrite Er.
Qed.
End rename.
