(* ===== verification/BlExchange.v ===== *)
(** [dc_rename_exchange] of the bucket-lock engine against its specification: two
    shells, stacked in one transaction. *)

From S2P Require Import Prelude Qstr HList Lru World Walk Namespace TreeOps Paths BlChain.
From S2P Require Import BlLists BlRecs BlLru BlLruSpec BlWorld BlWalk BlOps BlMove BlInv.
From S2P Require Import BlReads BlWalkSpec BlLocks BlRep BlSect BlTxn BlMoveSpec BlRename.

(** The specification: [mem] says whether both shells could be allocated, [commit]
    whether the transaction found the memory it needs. *)
Definition spec_exchange_bl (r : Z) (mem commit : bool) (a b : list (list Z)) (N : nspace) : Z * nspace :=
  match a, b with
  | [], _ | _, [] => (- EINVAL, N)
  | _, _ =>
      match da ← nwalk r N r a; an ← N !! da; db ← nwalk r N r b; bn ← N !! db;
            Some (da, an, db, bn) with
      | None => (- ENOENT, N)
      | Some (da, an, db, bn) =>
          if da =? db then (0, N)
          else if negb mem then (- ENOMEM, N)
          else if negb (n_parent an =? n_parent bn)
                  && (subdir r N (n_parent bn) da || subdir r N (n_parent an) db)
          then (- EINVAL, N)
          else if commit then (0, <[da := moved an (n_parent bn) (n_name bn)]>
                                  (<[db := moved bn (n_parent an) (n_name an)]> N))
          else (- ENOMEM, N)
      end
  end.

(** ** Two nodes of an index replaced *)

Definition relink2 (i j a na b nb : Z) : ST chn (list lrec) :=
  if i =? j then bl_sw_replace2 a na b nb
  else let! r1 := bl_sw_replace a na in let! r2 := bl_sw_replace b nb in st_ret (r1 ++ r2).

Lemma in_ren2 c C B K i j a na b nb h x :
  chain_is c C B K → a ∈ C i → b ∈ C j → a ≠ b →
  x ∈ (ren2 a na b nb <$> C h) ↔ (x ∈ C h ∧ x ≠ a ∧ x ≠ b) ∨ (h = i ∧ x = na) ∨ (h = j ∧ x = nb).
Proof.
  intros H Ha Hb Hab. rewrite list_elem_of_fmap. unfold ren2. split.
  - intros (y & -> & Hy). destruct (decide (y = a)) as [-> |].
    { right; left. split; [by eapply (ci_disj _ _ _ _ H) | done]. }
    destruct (decide (y = b)) as [-> |]; [| by left].
    right; right. split; [by eapply (ci_disj _ _ _ _ H) | done].
  - intros [(Hx & H1 & H2) | [[-> ->] | [-> ->]]].
    + exists x. by rewrite !decide_False.
    + exists a. by rewrite decide_True.
    + exists b. by rewrite decide_False, decide_True.
Qed.

Lemma wp_relink2 c C B K i j a na b nb :
  chain_is c C B K → a ∈ C i → b ∈ C j → a ≠ b → spare C K na → spare C K nb → na ≠ nb →
  wp (relink2 i j a na b nb) (λ R c1, chain_is c1 C B (put2 K na nb) ∧
    ∃ C', part_ok c1 R C' B (<[b := true]> (<[a := true]> (put2 K na nb))) ∧
      ∀ h x, x ∈ C' h ↔ (x ∈ C h ∧ x ≠ a ∧ x ≠ b) ∨ (h = i ∧ x = na) ∨ (h = j ∧ x = nb)) c.
Proof.
  intros H Ha Hb Hab Hna Hnb Hne. unfold relink2. destruct (Z.eqb_spec i j) as [<- | Hij].
  - wp_use (wp_bl_sw_replace2 _ _ _ _ H); [exact Ha | exact Hb | done | done | done | done |].
    intros R c1 [H1 H2]. split; [done |]. eexists. split; [exact H2 |]. intros h x. by eapply in_ren2.
  - wp_use (wp_replace_two_lists _ _ _ _ H); [exact Hij | exact Ha | exact Hb | done | done | done |].
    intros R c1 [H1 H2]. split; [done |]. eexists. split; [exact H2 |]. intros h x. by eapply in_ren2.
Qed.

Lemma wp_hash_relink2 i j a na b nb Q w :
  wp (relink2 i j a na b nb) (λ R c, Q R (set_hash c w)) (bw_hash w) →
  wp (if i =? j then on_hash (bl_sw_replace2 a na b nb)
      else let! r1 := on_hash (bl_sw_replace a na) in let! r2 := on_hash (bl_sw_replace b nb) in
           st_ret (r1 ++ r2)) Q w.
Proof. unfold relink2. destruct (i =? j); [by apply wp_zoom | by apply wp_zoom_relink]. Qed.

Lemma wp_sib_relink2 i j a na b nb Q w :
  wp (relink2 i j a na b nb) (λ R c, Q R (set_sib c w)) (bw_sib w) →
  wp (if i =? j then on_sib (bl_sw_replace2 a na b nb)
      else let! r1 := on_sib (bl_sw_replace a na) in let! r2 := on_sib (bl_sw_replace b nb) in
           st_ret (r1 ++ r2)) Q w.
Proof. unfold relink2. destruct (i =? j); [by apply wp_zoom | by apply wp_zoom_relink]. Qed.

(** Two entries renamed at once. *)
Lemma lists_swap root N T f C C' ha hb ta tb sa sb na' nb' :
  lists root N T f C → ha ≠ root → hb ≠ root → ha ≠ hb → T !! ha = Some ta → T !! hb = Some tb →
  (∀ h', T !! h' = Some ta → h' = ha) → (∀ h', T !! h' = Some tb → h' = hb) → sa ≠ tb → ta ≠ tb →
  (∀ j x, x ∈ C' j ↔ (x ∈ C j ∧ x ≠ ta ∧ x ≠ tb) ∨ (j = f nb' ∧ x = sb) ∨ (j = f na' ∧ x = sa)) →
  lists root (<[ha := na']> (<[hb := nb']> N)) (<[ha := sa]> (<[hb := sb]> T)) f C'.
Proof.
  intros HL Hra Hrb Hab Ha Hb Hia Hib Hsat Htt HC.
  rewrite (insert_insert_ne N), (insert_insert_ne T) by done.
  eapply (lists_move _ _ _ _ (λ j, filter (λ x, x ≠ ta) (C j) ++ (if decide (j = f na') then [sa] else []))).
  - eapply lists_move; [exact HL | done | exact Ha | exact Hia |]. intros j x.
    rewrite elem_of_app, list_elem_of_filter. destruct (decide (j = f na')) as [-> | Hj].
    + rewrite list_elem_of_singleton. tauto.
    + rewrite elem_of_nil. tauto.
  - done.
  - rewrite lookup_insert_ne by done. exact Hb.
  - intros h'. destruct (decide (ha = h')) as [<- |]; [rewrite lookup_insert_eq; congruence |].
    rewrite lookup_insert_ne by done. apply Hib.
  - intros j x. rewrite HC, elem_of_app, list_elem_of_filter. destruct (decide (j = f na')) as [-> | Hj].
    + rewrite list_elem_of_singleton. split; [| intros [[[?|?] ?] | ?]; tauto].
      intros [? | [? | [_ ->]]]; [tauto | tauto | left; split; [by right | done]].
    + rewrite elem_of_nil. tauto.
Qed.

Section exchange.
Context `{HA : Memalign} `{!MemalignOk HA} `{HL : Layout} `{!LayoutOk HL} `{HX : SwTxn} `{!SwTxnOk HX}.

(** The dentries after the records on the fields of both hosts. *)
Definition restacked2 (D : gmap Z dent) (ha sa : Z) (an' : node) (hb sb : Z) (bn' : node) : gmap Z dent :=
  restacked (restacked D ha sa an') hb sb bn'.

Lemma restacked_lookup D h s n' d :
  restacked D h s n' !! d =
  if decide (d = h) then (λ x, set_parent (n_parent n') (set_top s x)) <$> D !! d else D !! d.
Proof.
  unfold restacked. destruct (decide (d = h)) as [-> |]; [apply lookup_alter_eq | by rewrite lookup_alter_ne].
Qed.

Definition swap_fields (cross : bool) (pa pb ta tb ha hb sa sb : Z) : list srec :=
  [RTop ha (dtop_val ha ta) sa; RTop hb (dtop_val hb tb) sb] ++
  (if cross then [RParent ha pa pb; RParent hb pb pa] else []).

Section commit.
Context (k : nat) (w : bworld) (N : nspace) (T : gmap Z Z) (P V : gset Z) (hs : list head).
Context (ha hb ta tb sa sb : Z) (an bn : node) (xa xb xsa xsb : dent).
Let an' := moved an (n_parent bn) (n_name bn).
Let bn' := moved bn (n_parent an) (n_name an).
Let cross := negb (n_parent an =? n_parent bn).
Context (S0 : sect k w N T P V hs) (Hok : heads_ok w hs).
Context (Hta : T !! ha = Some ta) (Htb : T !! hb = Some tb) (Hra : ha ≠ bw_root w) (Hrb : hb ≠ bw_root w).
Context (Hab : ha ≠ hb) (Hss : sa ≠ sb).
Context (Fa : shell_for (bw_dent w) N P ha sa an an' xa xsa) (Fb : shell_for (bw_dent w) N P hb sb bn bn' xb xsb).
Context (Hwa : words (bw_lru w) !! sa = Some DC_LRU_OFF) (Hwb : words (bw_lru w) !! sb = Some DC_LRU_OFF).

Let R : rep w N T P := se_rep _ _ _ _ _ _ _ S0.

Lemma swap_entries : entry (bw_dent w) ha an ta xa (default xa (bw_dent w !! ta)) ∧
  entry (bw_dent w) hb bn tb xb (default xb (bw_dent w !! tb)) ∧ ta ≠ tb ∧ dent_ok xa ∧ dent_ok xb.
Proof.
  destruct (r_entry _ _ _ _ R ha an ta (sf_node _ _ _ _ _ _ _ _ _ Fa) Hta) as (y & ty & E).
  destruct (r_entry _ _ _ _ R hb bn tb (sf_node _ _ _ _ _ _ _ _ _ Fb) Htb) as (z & tz & E').
  assert (y = xa) as -> by (pose proof (sf_host _ _ _ _ _ _ _ _ _ Fa); pose proof (en_host _ _ _ _ _ _ E); congruence).
  assert (z = xb) as -> by (pose proof (sf_host _ _ _ _ _ _ _ _ _ Fb); pose proof (en_host _ _ _ _ _ _ E'); congruence).
  destruct (entry_ok _ _ _ _ R ha an ta xa ty Hta (sf_node _ _ _ _ _ _ _ _ _ Fa) E) as [? _].
  destruct (entry_ok _ _ _ _ R hb bn tb xb tz Htb (sf_node _ _ _ _ _ _ _ _ _ Fb) E') as [? _].
  rewrite (en_top _ _ _ _ _ _ E), (en_top _ _ _ _ _ _ E'). simpl. split_and!; try done.
  intros Ett. apply Hab. apply (top_inj _ _ _ _ R ha hb ta); congruence.
Qed.

Lemma swap_fields_ready w1 :
  bw_dent w1 = bw_dent w →
  Forall (srec_ready w1) (swap_fields cross (n_parent an) (n_parent bn) ta tb ha hb sa sb) ∧
  NoDup (srec_slot <$> swap_fields cross (n_parent an) (n_parent bn) ta tb ha hb sa sb) ∧
  Forall field_rec (swap_fields cross (n_parent an) (n_parent bn) ta tb ha hb sa sb).
Proof.
  intros Ed. destruct swap_entries as (Ea & Eb & _ & _ & _).
  pose proof (sf_host _ _ _ _ _ _ _ _ _ Fa) as Hxa. pose proof (sf_host _ _ _ _ _ _ _ _ _ Fb) as Hxb.
  unfold swap_fields. split_and!.
  - apply Forall_app. split.
    + repeat constructor; simpl; rewrite Ed, ?Hxa, ?Hxb; simpl;
        [by rewrite (en_dtop _ _ _ _ _ _ Ea) | by rewrite (en_dtop _ _ _ _ _ _ Eb)].
    + destruct cross; [| constructor]. repeat constructor; simpl; rewrite Ed, ?Hxa, ?Hxb; simpl;
        [by rewrite (en_parent _ _ _ _ _ _ Ea) | by rewrite (en_parent _ _ _ _ _ _ Eb)].
  - destruct cross; simpl; repeat (apply NoDup_cons; split); try apply NoDup_nil_2;
      rewrite ?elem_of_cons, ?elem_of_nil; intros Hx; destruct_or? Hx; congruence.
  - destruct cross; repeat constructor.
Qed.

Lemma swap_fields_apply w1 :
  bw_dent w1 = bw_dent w →
  srecs_apply (swap_fields cross (n_parent an) (n_parent bn) ta tb ha hb sa sb) w1 =
  set_dent (restacked2 (bw_dent w) ha sa an' hb sb bn') w1.
Proof.
  intros Ed. destruct swap_entries as (Ea & Eb & _ & _ & _).
  pose proof (sf_host _ _ _ _ _ _ _ _ _ Fa) as Hxa. pose proof (sf_host _ _ _ _ _ _ _ _ _ Fb) as Hxb.
  assert (∀ w2 D1 D2, D1 = D2 → set_dent D1 w2 = set_dent D2 w2) as Hset by (by intros ??? ->).
  unfold swap_fields. destruct cross eqn:Ec; unfold cross in Ec; simpl; unfold srecs_apply; simpl;
    apply (Hset w1); bsimpl; rewrite Ed; apply map_eq; intros d; unfold restacked2; rewrite !restacked_lookup.
  - destruct (decide (d = hb)) as [-> | Hb]; [| destruct (decide (d = ha)) as [-> | Ha]].
    + rewrite decide_False by done. rewrite lookup_alter_eq, lookup_alter_ne, lookup_alter_eq, lookup_alter_ne, Hxb by done. done.
    + rewrite lookup_alter_ne, lookup_alter_eq, lookup_alter_ne, lookup_alter_eq, Hxa by done. done.
    + by rewrite !lookup_alter_ne.
  - apply negb_false_iff, Z.eqb_eq in Ec.
    destruct (decide (d = hb)) as [-> | Hb]; [| destruct (decide (d = ha)) as [-> | Ha]].
    + rewrite decide_False by done. rewrite lookup_alter_eq, lookup_alter_ne, Hxb by done. simpl. f_equal.
      rewrite Ec, <- (en_parent _ _ _ _ _ _ Eb). by destruct xb.
    + rewrite lookup_alter_ne, lookup_alter_eq, Hxa by done. simpl. f_equal.
      rewrite <- Ec, <- (en_parent _ _ _ _ _ _ Ea). by destruct xa.
    + by rewrite !lookup_alter_ne.
Qed.

Lemma swap_marks (K : gmap Z bool) :
  dom K = dom (bw_dent w) →
  dom (put2 K sb sa) = dom (bw_dent w) ∧
  dom (<[tb := true]> (<[ta := true]> (put2 K sb sa))) = dom (bw_dent w).
Proof.
  intros HK. pose proof (rep_dom_T _ _ _ _ ha ta R Hta) as H1. pose proof (rep_dom_T _ _ _ _ hb tb R Htb) as H2.
  apply elem_of_dom in H1, H2.
  assert (sa ∈ dom (bw_dent w)) as H3 by (apply elem_of_dom; eexists; apply (sf_shell _ _ _ _ _ _ _ _ _ Fa)).
  assert (sb ∈ dom (bw_dent w)) as H4 by (apply elem_of_dom; eexists; apply (sf_shell _ _ _ _ _ _ _ _ _ Fb)).
  unfold put2. split; repeat (apply dom_put_mark; [| done]); done.
Qed.

Lemma swap_sect ch cs Ch Ch' Cs Cs' :
  lists (bw_root w) N T (node_bucket (bw_mask w)) Ch → lists (bw_root w) N T n_parent Cs →
  chain_is ch Ch' (bits (bw_hash w)) (<[tb := true]> (<[ta := true]> (put2 (marks (bw_hash w)) sb sa))) →
  (∀ j x, x ∈ Ch' j ↔ (x ∈ Ch j ∧ x ≠ ta ∧ x ≠ tb) ∨
     (j = node_bucket (bw_mask w) an ∧ x = sb) ∨ (j = node_bucket (bw_mask w) bn ∧ x = sa)) →
  chain_is cs Cs' (bits (bw_sib w)) (<[tb := true]> (<[ta := true]> (put2 (marks (bw_sib w)) sb sa))) →
  (∀ j x, x ∈ Cs' j ↔ (x ∈ Cs j ∧ x ≠ ta ∧ x ≠ tb) ∨ (j = n_parent an ∧ x = sb) ∨ (j = n_parent bn ∧ x = sa)) →
  tree (bw_root w) (<[ha := an']> (<[hb := bn']> N)) → typed (bw_root w) (<[ha := an']> (<[hb := bn']> N)) →
  sect k (set_dent (restacked2 (bw_dent w) ha sa an' hb sb bn') (set_sib cs (set_hash ch w)))
    (<[ha := an']> (<[hb := bn']> N)) (<[ha := sa]> (<[hb := sb]> T)) (P ∖ {[sa; sb]}) V hs.
Proof.
  intros HLh HLs Hch Hmh Hcs Hms Htree Hty. destruct swap_entries as (_ & _ & Htt & _ & _).
  pose proof (sf_priv _ _ _ _ _ _ _ _ _ Fa) as HPa. pose proof (sf_priv _ _ _ _ _ _ _ _ _ Fb) as HPb.
  destruct (r_priv _ _ _ _ R sa HPa) as (_ & _ & HsaT). destruct (r_priv _ _ _ _ R sb HPb) as (_ & _ & HsbT).
  assert (∀ h', T !! h' = Some ta → h' = ha) as Hia by (intros h' H; by eapply (top_inj _ _ _ _ R)).
  assert (∀ h', T !! h' = Some tb → h' = hb) as Hib by (intros h' H; by eapply (top_inj _ _ _ _ R)).
  assert (sa ≠ ta ∧ sa ≠ tb ∧ sb ≠ ta ∧ sb ≠ tb) as (D1 & D2 & D3 & D4).
  { split_and!; intros E; rewrite E in *; [by eapply HsaT | by eapply HsaT | by eapply HsbT | by eapply HsbT]. }
  set (mv := <[ha := (sa, an')]> {[hb := (sb, bn')]} : gmap Z (Z * node)).
  assert (∀ h, mv !! h = if decide (h = ha) then Some (sa, an') else if decide (h = hb) then Some (sb, bn') else None) as Hmv.
  { intros h. unfold mv. destruct (decide (h = ha)) as [-> |]; [apply lookup_insert_eq |].
    rewrite lookup_insert_ne by done. destruct (decide (h = hb)) as [-> |];
      [apply lookup_singleton_eq | by apply lookup_singleton_ne]. }
  assert (∀ h s n', mv !! h = Some (s, n') → h = ha ∧ s = sa ∧ n' = an' ∨ h = hb ∧ s = sb ∧ n' = bn') as Hcase.
  { intros h s n'. rewrite Hmv. destruct (decide (h = ha)); [intros [= <- <-]; by left |].
    destruct (decide (h = hb)); [intros [= <- <-]; by right | done]. }
  eapply (sect_restack w N T P R mv {[sa; sb]}).
  - intros s. rewrite elem_of_union, !elem_of_singleton. split.
    + intros [-> | ->]; [exists ha, an' | exists hb, bn']; rewrite Hmv; [by rewrite decide_True |].
      by rewrite decide_False, decide_True.
    + intros (h & n' & [(_ & -> & _) | (_ & -> & _)]%Hcase); auto.
  - intros h s n' [(-> & -> & ->) | (-> & -> & ->)]%Hcase; eauto.
  - intros s v [->%elem_of_singleton | ->%elem_of_singleton]%elem_of_union Hv; left; congruence.
  - intros d. rewrite Hmv. unfold restacked2. rewrite !restacked_lookup.
    destruct (decide (d = hb)) as [-> |]; [by rewrite !decide_False by done | by destruct (decide (d = ha))].
  - intros d. rewrite Hmv. destruct (decide (d = ha)) as [-> |]; [apply lookup_insert_eq |].
    rewrite lookup_insert_ne by done. destruct (decide (d = hb)) as [-> |]; [apply lookup_insert_eq | by rewrite lookup_insert_ne].
  - intros d. rewrite Hmv. destruct (decide (d = ha)) as [-> |]; [apply lookup_insert_eq |].
    rewrite lookup_insert_ne by done. destruct (decide (d = hb)) as [-> |]; [apply lookup_insert_eq | by rewrite lookup_insert_ne].
  - exact S0.
  - exact Hch.
  - apply swap_marks, R.
  - eapply lists_swap; [exact HLh | done | done | done | exact Hta | exact Htb | done | done | done | done | exact Hmh].
  - exact Hcs.
  - apply swap_marks, R.
  - eapply lists_swap; [exact HLs | done | done | done | exact Hta | exact Htb | done | done | done | done | exact Hms].
  - unfold put2. intros s [->%elem_of_singleton | ->%elem_of_singleton]%elem_of_union;
      rewrite !(lookup_insert_ne _ tb), !(lookup_insert_ne _ ta) by done; [apply lookup_insert_eq |].
    rewrite lookup_insert_ne by done. apply lookup_insert_eq.
  - intros h s n' t [(-> & _ & _) | (-> & _ & _)]%Hcase Ht.
    + assert (t = ta) as -> by congruence. rewrite lookup_insert_ne by done. apply lookup_insert_eq.
    + assert (t = tb) as -> by congruence. apply lookup_insert_eq.
  - unfold put2. intros y Hy Hno. rewrite elem_of_union, !elem_of_singleton in Hy. apply Decidable.not_or in Hy as [Hy1 Hy2].
    rewrite !lookup_insert_ne; [done | done | done | |].
    + intros <-. apply (Hno ha sa an'); [rewrite Hmv; by rewrite decide_True | done].
    + intros <-. apply (Hno hb sb bn'); [rewrite Hmv; by rewrite decide_False, decide_True | done].
  - rewrite Hmv. by rewrite !decide_False by done.
  - done.
  - done.
Qed.

Lemma wp_exchange_commit :
  tree (bw_root w) (<[ha := an']> (<[hb := bn']> N)) → typed (bw_root w) (<[ha := an']> (<[hb := bn']> N)) →
  wp (let! recs := exchange_prepare cross (n_parent an) (n_parent bn) (node_bucket (bw_mask w) an)
        (node_bucket (bw_mask w) bn) ta tb ha hb sa sb in commit_sw recs)
    (λ st w',
      match st with
      | STATUS_OK => sect k w' (<[ha := an']> (<[hb := bn']> N)) (<[ha := sa]> (<[hb := sb]> T)) (P ∖ {[sa; sb]}) V hs ∧
          bw_dent w' = restacked2 (bw_dent w) ha sa an' hb sb bn'
      | STATUS_MEMORY_ERROR => txn_may false ∧ sect k w' N T P V hs ∧ bw_dent w' = bw_dent w
      | STATUS_ABORT => False
      end ∧ heads_ok w' hs ∧ bw_root w' = bw_root w ∧ bw_mask w' = bw_mask w ∧ bw_lru w' = bw_lru w ∧
      bw_rcu w' = bw_rcu w) w.
Proof.
  intros Htree Hty. pose proof S0 as [_ Hh Hq Hm Hk]. destruct swap_entries as (Ea & Eb & Htt & Hxaok & Hxbok).
  destruct (r_hash _ _ _ _ R) as (Ch & HCh & HLh). destruct (r_sib _ _ _ _ R) as (Cs & HCs & HLs).
  pose proof (sf_priv _ _ _ _ _ _ _ _ _ Fa) as HPa. pose proof (sf_priv _ _ _ _ _ _ _ _ _ Fb) as HPb.
  pose proof (sf_node _ _ _ _ _ _ _ _ _ Fa) as HNa. pose proof (sf_node _ _ _ _ _ _ _ _ _ Fb) as HNb.
  assert (ta ∈ Ch (node_bucket (bw_mask w) an) ∧ ta ∈ Cs (n_parent an)) as [Ia1 Ia2].
  { split; [apply HLh | apply HLs]; eauto 10. }
  assert (tb ∈ Ch (node_bucket (bw_mask w) bn) ∧ tb ∈ Cs (n_parent bn)) as [Ib1 Ib2].
  { split; [apply HLh | apply HLs]; eauto 10. }
  unfold exchange_prepare. wp_step. wp_step. apply wp_hash_relink2.
  wp_use (wp_relink2 _ _ _ _ _ _ _ _ _ _ HCh); [exact Ia1 | exact Ib1 | exact Htt |
    eapply (spare_priv w N T P bw_hash); [exact R | exact HPb | exact HLh | apply R] |
    eapply (spare_priv w N T P bw_hash); [exact R | exact HPa | exact HLh | apply R] | by apply not_eq_sym |].
  intros rh ch (Hch & Ch' & [Hrh Hnh Hch'] & Hmh). wp_step. unfold cross at 1. rewrite negb_involutive.
  apply wp_sib_relink2. bsimpl.
  wp_use (wp_relink2 _ _ _ _ _ _ _ _ _ _ HCs); [exact Ia2 | exact Ib2 | exact Htt |
    eapply (spare_priv w N T P bw_sib); [exact R | exact HPb | exact HLs | apply R] |
    eapply (spare_priv w N T P bw_sib); [exact R | exact HPa | exact HLs | apply R] | by apply not_eq_sym |].
  intros rs cs (Hcs & Cs' & [Hrs Hns Hcs'] & Hms). set (w1 := set_sib cs (set_hash ch w)).
  wp_step. eapply (wp_mono _ (λ rp w', rp = (if cross then [RParent ha (n_parent an) (n_parent bn);
    RParent hb (n_parent bn) (n_parent an)] else []) ∧ w' = w1)).
  { destruct cross; [| by wp_step]. wp_step.
    eapply wp_run; [by apply (parent_of_run w1 ha xa); [apply Fa |] |]. rewrite (en_parent _ _ _ _ _ _ Ea). wp_step.
    eapply wp_run; [by apply (parent_of_run w1 hb xb); [apply Fb |] |]. rewrite (en_parent _ _ _ _ _ _ Eb). by wp_step. }
  intros rp w' [-> ->]. cbn beta. wp_step.
  change ([RTop ha (dtop_val ha ta) sa; RTop hb (dtop_val hb tb) sb] ++ _)
    with (swap_fields cross (n_parent an) (n_parent bn) ta tb ha hb sa sb).
  destruct (swap_fields_ready w1 eq_refl) as (Hf1 & Hf2 & Hf3).
  apply wp_commit_sw; [by apply txn_ready_parts | |].
  - rewrite !srecs_apply_app, srecs_apply_hash, srecs_apply_sib, swap_fields_apply by done.
    split_and!; [| done | | done | done | done | done].
    + by eapply (swap_sect (lrecs_apply rh ch) (lrecs_apply rs cs) Ch Ch' Cs Cs').
    + eapply heads_ok_bits; [| | exact Hok]; bsimpl; [by apply chain_is_bits in Hch' as [] | by apply chain_is_bits in Hcs' as []].
  - intros Hmay. split_and!; [done | | done | | done | done | done | done].
    + split; [| by eapply held_chains | done | done | done].
      eapply (rep_prepared w N T P {[sa; sb]}); [exact R | | exact HLh | exact HLs | exact Hch | | | exact Hcs |].
      * intros s [->%elem_of_singleton | ->%elem_of_singleton]%elem_of_union;
          (split; [by apply (r_priv _ _ _ _ R) | by left]).
      * apply swap_marks, R.
      * intros y Hy. rewrite elem_of_union, !elem_of_singleton in Hy. apply Decidable.not_or in Hy as [Hy1 Hy2].
        unfold put2. by rewrite !lookup_insert_ne.
      * apply swap_marks, R.
    + eapply heads_ok_bits; [| | exact Hok]; bsimpl; [by apply chain_is_bits in Hch as [] | by apply chain_is_bits in Hcs as []].
Qed.
End commit.

(** ** Both hosts claimed *)

Definition claimed2 (cross : bool) (ha hb : Z) : gset Z := if cross then {[ha; hb]} else ∅.

Lemma wp_exchange_claim k w N T P hs ha hb xa xb :
  sect k w N T P ∅ hs → bw_dent w !! ha = Some xa → bw_dent w !! hb = Some xb → ha ≠ hb →
  wp (exchange_claim ha hb) (λ r w', r = true ∧ sect k w' N T P {[ha; hb]} hs ∧
    w' = set_dent (bw_dent w') w ∧ bw_dent w' !! ha = Some (set_moving 1 xa) ∧
    bw_dent w' !! hb = Some (set_moving 1 xb) ∧
    ∀ d, d ≠ ha → d ≠ hb → bw_dent w' !! d = bw_dent w !! d) w.
Proof.
  intros S Ha Hb Hne. unfold exchange_claim.
  assert (∀ lo hi xl xh, bw_dent w !! lo = Some xl → bw_dent w !! hi = Some xh → lo ≠ hi →
    wp (let! l := moving_claim lo in
        if negb l then st_ret false
        else let! h := moving_claim hi in
             if negb h then moving_clear lo ;;; st_ret false else st_ret true)
      (λ r w', r = true ∧ sect k w' N T P ({[hi]} ∪ ({[lo]} ∪ ∅)) hs ∧ w' = set_dent (bw_dent w') w ∧
        bw_dent w' !! lo = Some (set_moving 1 xl) ∧ bw_dent w' !! hi = Some (set_moving 1 xh) ∧
        ∀ d, d ≠ lo → d ≠ hi → bw_dent w' !! d = bw_dent w !! d) w) as Hgen.
  { intros lo hi xl xh Hl Hh Hlh. wp_step. wp_use wp_moving_claim; [exact S | exact Hl | apply not_elem_of_empty |].
    intros r w1 (-> & S1 & ->). cbn [negb]. wp_step.
    wp_use wp_moving_claim; [exact S1 | bsimpl; by rewrite lookup_insert_ne | |].
    { rewrite union_empty_r_L. by apply not_elem_of_singleton, not_eq_sym. }
    intros r w2 (-> & S2 & ->). cbn [negb]. wp_step. bsimpl. split_and!; [done | exact S2 | done | | |].
    - rewrite lookup_insert_ne by done. apply lookup_insert_eq.
    - apply lookup_insert_eq.
    - intros d Hd1 Hd2. by rewrite !lookup_insert_ne. }
  destruct (ha <? hb).
  - wp_use (Hgen ha hb xa xb Ha Hb Hne). intros r w' (-> & S' & Ew & H1 & H2 & H3). split_and!; try done.
    replace {[ha; hb]} with ({[hb]} ∪ ({[ha]} ∪ ∅) : gset Z); [done |]. set_solver.
  - wp_use (Hgen hb ha xb xa Hb Ha (not_eq_sym Hne)). intros r w' (-> & S' & Ew & H1 & H2 & H3). split_and!; try done.
    + replace {[ha; hb]} with ({[ha]} ∪ ({[hb]} ∪ ∅) : gset Z); [done |]. set_solver.
    + intros d Hd1 Hd2. by apply H3.
Qed.

Lemma wp_exchange_unclaim k w N T P cross hs ha hb xa xb :
  sect k w N T P (claimed2 cross ha hb) hs → bw_dent w !! ha = Some xa → bw_dent w !! hb = Some xb → ha ≠ hb →
  wp (exchange_unclaim cross ha hb) (λ _ w', sect k w' N T P ∅ hs ∧ w' = set_dent (bw_dent w') w ∧
    ∀ d, d ≠ ha → d ≠ hb → bw_dent w' !! d = bw_dent w !! d) w.
Proof.
  intros S Ha Hb Hne. unfold exchange_unclaim. destruct cross; cbn [when claimed2] in *.
  2:{ wp_step. split_and!; [exact S | by destruct w | done]. }
  wp_step. wp_use wp_moving_clear; [exact S | exact Ha |]. intros [] w1 [S1 ->].
  wp_use wp_moving_clear; [exact S1 | bsimpl; by rewrite lookup_insert_ne |]. intros [] w2 [S2 ->]. bsimpl.
  split_and!; [| done |].
  - replace (∅ : gset Z) with (({[ha; hb]} ∖ {[ha]}) ∖ {[hb]} : gset Z); [done |]. set_solver.
  - intros d Hd1 Hd2. by rewrite !lookup_insert_ne.
Qed.

(** What an exchange round leaves. *)
Record swapped_post (k : nat) (w : bworld) (sa sb : Z) (spec : Z * nspace) (ret : Z) (w' : bworld) : Prop := {
  xp_ret : ret = fst spec;
  xp_sect : ∃ T', sect k w' (snd spec) T' (if ret =? 0 then ∅ else {[sa; sb]}) ∅ [];
  xp_root : bw_root w' = bw_root w;
  xp_mask : bw_mask w' = bw_mask w;
  xp_lru : bw_lru w' = bw_lru w;
  xp_rcu : bw_rcu w' = bw_rcu w;
  xp_sa : ∃ x, bw_dent w' !! sa = Some x ∧ shellb x = true;
  xp_sb : ∃ x, bw_dent w' !! sb = Some x ∧ shellb x = true;
}.

Section locked.
Context (k : nat) (w : bworld) (N : nspace) (T : gmap Z Z).
Context (ha hb ta tb sa sb : Z) (an bn : node) (xa xb xsa xsb : dent) (la lb : list Z).
Let an' := moved an (n_parent bn) (n_name bn).
Let bn' := moved bn (n_parent an) (n_name an).
Let cross := negb (n_parent an =? n_parent bn).
Context (S0 : sect k w N T {[sa; sb]} (claimed2 cross ha hb) []).
Context (Hta : T !! ha = Some ta) (Htb : T !! hb = Some tb) (Hra : ha ≠ bw_root w) (Hrb : hb ≠ bw_root w).
Context (Hab : ha ≠ hb) (Hss : sa ≠ sb).
Context (Fa : shell_for (bw_dent w) N {[sa; sb]} ha sa an an' xa xsa).
Context (Fb : shell_for (bw_dent w) N {[sa; sb]} hb sb bn bn' xb xsb).
Context (Hwa : words (bw_lru w) !! sa = Some DC_LRU_OFF) (Hwb : words (bw_lru w) !! sb = Some DC_LRU_OFF).
Context (Hla : upto (bw_root w) N (n_parent an) la) (Hlb : upto (bw_root w) N (n_parent bn) lb).
Context (Hcyc : cross = true → (ha ∉ lb) ∧ hb ∉ la).

Lemma swap_tree : tree (bw_root w) (<[ha := an']> (<[hb := bn']> N)) ∧ typed (bw_root w) (<[ha := an']> (<[hb := bn']> N)).
Proof.
  pose proof (se_rep _ _ _ _ _ _ _ S0) as R. pose proof (r_tree _ _ _ _ R) as Ht. pose proof (r_typed _ _ _ _ R) as Hty.
  pose proof (sf_node _ _ _ _ _ _ _ _ _ Fa) as HNa. pose proof (sf_node _ _ _ _ _ _ _ _ _ Fb) as HNb. split.
  - eapply tree_exchange; [done | done | done | done | done | done | exact Hla | exact Hlb |].
    unfold cross in Hcyc. destruct (Z.eqb_spec (n_parent an) (n_parent bn)); [by left | right; by apply Hcyc].
  - destruct (tree_parent _ _ ha an Ht HNa) as [pan Hpan]. destruct (tree_parent _ _ hb bn Ht HNb) as [pbn Hpbn].
    destruct (Hty ha an pan Hra HNa Hpan) as [? ?]. destruct (Hty hb bn pbn Hrb HNb Hpbn) as [? ?].
    assert (n_parent bn ≠ hb) as Hne by (by eapply parent_ne).
    eapply (typed_move _ _ ha an _ pbn); [| by rewrite lookup_insert_ne | by rewrite lookup_insert_ne | done | done].
    by eapply (typed_move _ _ hb bn _ pan).
Qed.

Lemma wp_exchange_locked :
  wp (exchange_locked cross (n_parent an) (n_parent bn) (node_bucket (bw_mask w) an) (node_bucket (bw_mask w) bn)
        ta tb ha hb sa sb)
    (λ (r : unit + Z) w', ∃ (commit : bool) ret, txn_may commit ∧ r = inr ret ∧
      swapped_post k w sa sb (if commit then (0, <[ha := an']> (<[hb := bn']> N)) else (- ENOMEM, N)) ret w') w.
Proof.
  pose proof (se_rep _ _ _ _ _ _ _ S0) as R. destruct swap_tree as [Htree Hty].
  pose proof (sf_node _ _ _ _ _ _ _ _ _ Fa) as HNa. pose proof (sf_node _ _ _ _ _ _ _ _ _ Fb) as HNb.
  unfold exchange_locked. set (hs := [_; _; _; _]). wp_step. eapply wp_sect_lock_n; [exact S0 | |].
  { intros hd Hd. unfold hs in Hd. rewrite !elem_of_cons, elem_of_nil in Hd. destruct_or! Hd; subst hd; try done;
      [by eapply heads_bucket | by eapply heads_bucket | eapply heads_child; [exact R |]; by eapply tree_parent; [apply R |] |
       eapply heads_child; [exact R |]; by eapply tree_parent; [apply R |]]. }
  intros w1 Hl1 S1 Hok1. destruct (relock_same _ _ Hl1) as (Em & Er & _ & Ed & El & Eq & _).
  pose proof (se_rep _ _ _ _ _ _ _ S1) as R1.
  wp_step. eapply wp_run; [by eapply (live_run w1 N T _ R1 ha ta) |].
  wp_step. eapply wp_run; [by eapply (live_run w1 N T _ R1 hb tb) |]. cbn [orb].
  assert (ha ≠ sa ∧ ha ≠ sb ∧ hb ≠ sa ∧ hb ≠ sb) as (D1 & D2 & D3 & D4).
  { destruct (r_priv _ _ _ _ R sa (sf_priv _ _ _ _ _ _ _ _ _ Fa)) as (_ & ? & _).
    destruct (r_priv _ _ _ _ R sb (sf_priv _ _ _ _ _ _ _ _ _ Fb)) as (_ & ? & _). split_and!; congruence. }
  assert (∀ w2 N2 T2 P2 ret xa2 xb2 spec (r : unit + Z),
    sect k w2 N2 T2 P2 (claimed2 cross ha hb) hs → heads_ok w2 hs → bw_dent w2 !! ha = Some xa2 →
    bw_dent w2 !! hb = Some xb2 → (∀ d, d ≠ ha → d ≠ hb → bw_dent w2 !! d = bw_dent w !! d) →
    bw_root w2 = bw_root w → bw_mask w2 = bw_mask w → bw_lru w2 = bw_lru w → bw_rcu w2 = bw_rcu w →
    r = inr ret → ret = fst spec → snd spec = N2 → P2 = (if ret =? 0 then ∅ else {[sa; sb]}) →
    wp (bl_unlock_n (sort_heads hs) ;;; exchange_unclaim cross ha hb ;;; st_ret r)
      (λ r w', ∃ ret, r = inr ret ∧ swapped_post k w sa sb spec ret w') w2) as Hrel.
  { intros w2 N2 T2 P2 ret xa2 xb2 spec r S2 Hok2 Ha2 Hb2 Hd2 E1 E2 E3 E4 -> E5 E6 ->.
    wp_step. eapply wp_sect_unlock_n; [exact S2 | exact Hok2 |]. intros w3 Hl3 S3.
    destruct (relock_same _ _ Hl3) as (Em3 & Er3 & _ & Ed3 & El3 & Eq3 & _). rewrite <- Ed3 in Ha2, Hb2.
    wp_step. wp_use wp_exchange_unclaim; [exact S3 | exact Ha2 | exact Hb2 | done |].
    intros [] w4 (S4 & Ew4 & Hd4). wp_step. exists ret. split; [done |].
    split; [done | exists T2; by rewrite E6 | rewrite Ew4; bsimpl; congruence | rewrite Ew4; bsimpl; congruence |
      rewrite Ew4; bsimpl; congruence | rewrite Ew4; bsimpl; congruence | |].
    - exists xsa. rewrite Hd4, Ed3, Hd2 by congruence. split; apply Fa.
    - exists xsb. rewrite Hd4, Ed3, Hd2 by congruence. split; apply Fb. }
  apply wp_assoc. rewrite <- Em.
  wp_use (wp_exchange_commit k w1 N T {[sa; sb]} (claimed2 cross ha hb) hs ha hb ta tb sa sb an bn xa xb xsa xsb);
    [exact S1 | exact Hok1 | done | done | by rewrite Er | by rewrite Er | done | done | by rewrite Ed | by rewrite Ed |
     by rewrite El | by rewrite El | by rewrite Er | by rewrite Er |].
  fold an' bn' cross. intros st w2 (Hst & Hok2 & Er2 & Em2 & El2 & Eq2). destruct st; [| done |].
  - destruct Hst as [S2 Ed2].
    apply (wp_mono _ (λ r w', ∃ ret, r = inr ret ∧ swapped_post k w sa sb (0, <[ha := an']> (<[hb := bn']> N)) ret w'));
      [| intros r w' (ret & -> & H); by exists true, ret].
    eapply (Hrel w2 _ _ _ 0).
    + exact S2.
    + exact Hok2.
    + rewrite Ed2, Ed. unfold restacked2. rewrite restacked_lookup, decide_False, restacked_lookup, decide_True by done.
      by rewrite (sf_host _ _ _ _ _ _ _ _ _ Fa).
    + rewrite Ed2, Ed. unfold restacked2. rewrite restacked_lookup, decide_True, restacked_lookup, decide_False by done.
      by rewrite (sf_host _ _ _ _ _ _ _ _ _ Fb).
    + intros d Hd1 Hd2. rewrite Ed2, Ed. unfold restacked2. by rewrite !restacked_lookup, !decide_False.
    + congruence.
    + congruence.
    + congruence.
    + congruence.
    + done.
    + done.
    + done.
    + simpl. apply difference_diag_L.
  - destruct Hst as (Hmay & S2 & Ed2).
    apply (wp_mono _ (λ r w', ∃ ret, r = inr ret ∧ swapped_post k w sa sb (- ENOMEM, N) ret w'));
      [| intros r w' (ret & -> & H); by exists false, ret].
    eapply (Hrel w2 _ _ _ (- ENOMEM)).
    + exact S2.
    + exact Hok2.
    + rewrite Ed2, Ed. apply Fa.
    + rewrite Ed2, Ed. apply Fb.
    + intros d _ _. by rewrite Ed2, Ed.
    + congruence.
    + congruence.
    + congruence.
    + congruence.
    + done.
    + done.
    + done.
    + done.
Qed.
End locked.

(** ** The round *)

(** A name that is there is found with its top. *)
Lemma find_top_at w N T P p q h n :
  rep w N T P → qstr_wf q → N !! h = Some n → h ≠ bw_root w → n_parent n = p → n_name n = qname q →
  ∃ t, T !! h = Some t ∧ t ≠ 0 ∧ find_top_rcu p q w = Ok (t, w).
Proof.
  intros R Hq Hn Hr Hp Hnm.
  destruct (find_top_cases w N T P p q R Hq) as [[Ec _] | (h' & m & t' & Ec & Hm & Ht' & Ht0 & _ & _ & _ & Ef)].
  { exfalso. apply (child_None_1 _ _ _ _ h Ec). split; eauto. }
  assert (h' = h) as ->.
  { apply child_Some_1 in Ec. eapply (t_unique _ _ (r_tree _ _ _ _ R)); [exact Ec |]. split; eauto. }
  eauto.
Qed.

(** Both shells are given their hosts. *)
Lemma sect_two_shells k w N T sa sb xa xb ya yb :
  sect k w N T {[sa; sb]} ∅ [] → sa ≠ sb → bw_dent w !! sa = Some xa → bw_dent w !! sb = Some xb →
  d_moving ya = 0 → d_moving yb = 0 →
  sect k (set_dent (<[sb := yb]> (<[sa := ya]> (bw_dent w))) w) N T {[sa; sb]} ∅ [].
Proof.
  intros S Hne Ha Hb Hya Hyb.
  assert (∀ d x, bw_dent w !! d = Some x → d_moving x = 0) as Hm.
  { intros d x Hx. rewrite (se_moving _ _ _ _ _ _ _ S d x Hx). by rewrite decide_False by apply not_elem_of_empty. }
  set (w1 := set_dent (<[sa := ya]> (bw_dent w)) w).
  change (sect k (set_dent (<[sb := yb]> (bw_dent w1)) w1) N T {[sa; sb]} ∅ []). eapply sect_set_priv.
  - eapply sect_set_priv; [exact S | set_solver | exact Ha | by rewrite (Hm sa xa)].
  - set_solver.
  - unfold w1. bsimpl. rewrite lookup_insert_ne by done. exact Hb.
  - by rewrite (Hm sb xb).
Qed.

Lemma wp_exchange_round k w N T ha hb sa sb an bn xa0 xb0 na nb la lb :
  let cross := negb (n_parent an =? n_parent bn) in
  sect k w N T {[sa; sb]} ∅ [] → N !! ha = Some an → N !! hb = Some bn → ha ≠ bw_root w → hb ≠ bw_root w →
  ha ≠ hb → sa ≠ sb → n_name an = qname na → n_name bn = qname nb → qstr_wf na → qstr_wf nb →
  upto (bw_root w) N (n_parent an) la → upto (bw_root w) N (n_parent bn) lb →
  (length la ≤ S DC_LOOP_MAX)%nat → (length lb ≤ S DC_LOOP_MAX)%nat →
  bw_dent w !! sa = Some xa0 → (∀ y, set_fwd y (set_host y xa0) = shell_dent (n_parent bn) nb y) →
  bw_dent w !! sb = Some xb0 → (∀ y, set_fwd y (set_host y xb0) = shell_dent (n_parent an) na y) →
  words (bw_lru w) !! sa = Some DC_LRU_OFF → words (bw_lru w) !! sb = Some DC_LRU_OFF →
  wp (exchange_round cross (n_parent an) (n_parent bn) na nb (node_bucket (bw_mask w) an)
        (node_bucket (bw_mask w) bn) sa sb tt)
    (λ (r : unit + Z) w', ∃ (commit : bool) ret, txn_may commit ∧ r = inr ret ∧
      swapped_post k w sa sb
        (if cross && (bool_decide (ha ∈ lb) || bool_decide (hb ∈ la)) then (- EINVAL, N)
         else if commit then (0, <[ha := moved an (n_parent bn) (n_name bn)]>
                                 (<[hb := moved bn (n_parent an) (n_name an)]> N))
         else (- ENOMEM, N)) ret w') w.
Proof.
  intros cross S HNa HNb Hra Hrb Hab Hss Ea Eb Hqa Hqb Hla Hlb Hlena Hlenb Hxa0 Hsha Hxb0 Hshb Hwa Hwb.
  pose proof (se_rep _ _ _ _ _ _ _ S) as R.
  destruct (find_top_at w N T _ _ na ha an R Hqa HNa Hra eq_refl Ea) as (ta & Hta & Hta0 & Efa).
  destruct (find_top_at w N T _ _ nb hb bn R Hqb HNb Hrb eq_refl Eb) as (tb & Htb & Htb0 & Efb).
  destruct (tree_parent _ _ ha an (r_tree _ _ _ _ R) HNa) as [pan Hpan].
  destruct (tree_parent _ _ hb bn (r_tree _ _ _ _ R) HNb) as [pbn Hpbn].
  destruct (rep_aligned _ _ _ _ R _ ltac:(by exists pan)) as [Hpaa _].
  destruct (rep_aligned _ _ _ _ R _ ltac:(by exists pbn)) as [Hpba _].
  destruct (rep_aligned _ _ _ _ R ha ltac:(by eexists)) as [_ Hha0].
  destruct (rep_aligned _ _ _ _ R hb ltac:(by eexists)) as [_ Hhb0].
  destruct (shell_dent_ok _ nb ha Hpba Hqb Hha0) as (Ha1 & Ha2 & Ha3).
  destruct (shell_dent_ok _ na hb Hpaa Hqa Hhb0) as (Hb1 & Hb2 & Hb3).
  assert (ha ≠ sa ∧ ha ≠ sb ∧ hb ≠ sa ∧ hb ≠ sb) as (D1 & D2 & D3 & D4).
  { destruct (r_priv _ _ _ _ R sa ltac:(set_solver -Hla Hlb)) as (_ & ? & _).
    destruct (r_priv _ _ _ _ R sb ltac:(set_solver -Hla Hlb)) as (_ & ? & _). split_and!; congruence. }
  unfold exchange_round. wp_step. eapply wp_run; [exact Efa |]. wp_step. eapply wp_run; [exact Efb |].
  destruct (Z.eqb_spec ta 0) as [? | _]; [contradiction |]. destruct (Z.eqb_spec tb 0) as [? | _]; [contradiction |]. cbn [orb].
  wp_step. eapply wp_run; [by eapply host_of_top |]. wp_step. eapply wp_run; [by eapply host_of_top |].
  wp_step. eapply wp_run; [by apply dent_store_run |].
  wp_step. eapply wp_run; [apply dent_store_run, lookup_insert_eq |]. bsimpl. rewrite insert_insert_eq, Hsha.
  wp_step. eapply wp_run; [apply (dent_store_run _ _ xb0); bsimpl; by rewrite lookup_insert_ne |].
  wp_step. eapply wp_run; [apply dent_store_run, lookup_insert_eq |]. bsimpl. rewrite insert_insert_eq, Hshb.
  set (xsa := shell_dent (n_parent bn) nb ha) in *. set (xsb := shell_dent (n_parent an) na hb) in *.
  set (w1 := set_dent (<[sb := xsb]> (<[sa := xsa]> (bw_dent w))) w).
  change (set_dent _ _) with w1.
  assert (sect k w1 N T {[sa; sb]} ∅ []) as S1 by (by eapply sect_two_shells).
  destruct (rep_node _ _ _ _ ha an R HNa) as (xa & Hxa & _). destruct (rep_node _ _ _ _ hb bn R HNb) as (xb & Hxb & _).
  assert (bw_dent w1 !! ha = Some xa) as Hxa1 by (unfold w1; bsimpl; by rewrite !lookup_insert_ne).
  assert (bw_dent w1 !! hb = Some xb) as Hxb1 by (unfold w1; bsimpl; by rewrite !lookup_insert_ne).
  assert (bw_dent w1 !! sa = Some xsa) as Hsa1 by (unfold w1; bsimpl; rewrite lookup_insert_ne by done; apply lookup_insert_eq).
  assert (bw_dent w1 !! sb = Some xsb) as Hsb1 by apply lookup_insert_eq.
  assert (∀ w2, sect k w2 N T {[sa; sb]} (claimed2 cross ha hb) [] → (∃ y, bw_dent w2 !! ha = Some y) →
    (∃ y, bw_dent w2 !! hb = Some y) → (∀ d, d ≠ ha → d ≠ hb → bw_dent w2 !! d = bw_dent w1 !! d) →
    w2 = set_dent (bw_dent w2) w1 → (cross = true → (ha ∉ lb) ∧ hb ∉ la) →
    wp (exchange_locked cross (n_parent an) (n_parent bn) (node_bucket (bw_mask w) an) (node_bucket (bw_mask w) bn)
          ta tb ha hb sa sb)
      (λ (r : unit + Z) w', ∃ (commit : bool) ret, txn_may commit ∧ r = inr ret ∧
        swapped_post k w sa sb (if commit then (0, <[ha := moved an (n_parent bn) (n_name bn)]>
          (<[hb := moved bn (n_parent an) (n_name an)]> N)) else (- ENOMEM, N)) ret w') w2) as Hlock.
  { intros w2 S2 [ya Hya] [yb Hyb] Hd2 Ew2 Hcyc.
    assert (bw_root w2 = bw_root w ∧ bw_mask w2 = bw_mask w ∧ bw_lru w2 = bw_lru w ∧ bw_rcu w2 = bw_rcu w)
      as (Er & Em & El & Eq) by (by rewrite Ew2).
    rewrite <- Em. wp_use (wp_exchange_locked k w2 N T ha hb ta tb sa sb an bn ya yb xsa xsb la lb);
      [exact S2 | done | done | by rewrite Er | by rewrite Er | done | done | | | by rewrite El | by rewrite El |
       by rewrite Er | by rewrite Er | exact Hcyc |].
    - split; try done; [set_solver -Hla Hlb Hd2 | by rewrite Hd2].
    - split; try done; [set_solver -Hla Hlb Hd2 | by rewrite Hd2].
    - intros r w' (commit & ret & Hmay & -> & H). exists commit, ret. split; [done |]. split; [done |]. destruct H. split; try done; congruence. }
  wp_step. destruct cross eqn:Ecross.
  2:{ wp_step. cbn [negb]. wp_step. wp_step. cbn [andb]. wp_step. wp_step. change (0 =? 0) with true. cbn [negb orb andb].
      apply Hlock; [exact S1 | by eexists | by eexists | done | done | done]. }
  wp_use wp_exchange_claim; [exact S1 | exact Hxa1 | exact Hxb1 | done |].
  intros r w2 (-> & S2 & Ew2 & Hya & Hyb & Hd2). cbn [negb]. pose proof (se_rep _ _ _ _ _ _ _ S2) as R2.
  assert (bw_root w2 = bw_root w ∧ bw_mask w2 = bw_mask w ∧ bw_lru w2 = bw_lru w ∧ bw_rcu w2 = bw_rcu w)
    as (Er & Em & El & Eq) by (by rewrite Ew2).
  assert (wp (exchange_unclaim true ha hb ;;; st_ret (inr (- EINVAL))) (λ (r : unit + Z) w', ∃ (commit : bool) ret,
    txn_may commit ∧ r = inr ret ∧ swapped_post k w sa sb (- EINVAL, N) ret w') w2) as Hun.
  { wp_step. wp_use wp_exchange_unclaim; [exact S2 | exact Hya | exact Hyb | done |].
    intros [] w3 (S3 & Ew3 & Hd3). wp_step. exists true, (- EINVAL). split; [done |]. split; [done |].
    split; [done | by exists T | rewrite Ew3; exact Er | rewrite Ew3; exact Em | rewrite Ew3; exact El | rewrite Ew3; exact Eq | |].
    - exists xsa. rewrite Hd3, Hd2 by congruence. done.
    - exists xsb. rewrite Hd3, Hd2 by congruence. done. }
  assert (ha ∉ la) as Haa by exact (upto_parent_avoid _ _ _ _ _ HNa Hra Hla).
  assert (hb ∉ lb) as Hbb by exact (upto_parent_avoid _ _ _ _ _ HNb Hrb Hlb).
  wp_step. eapply wp_run; [eapply (cross_cycle_run w2 N T {[sa; sb]} {[ha; hb]} ha _ lb);
    [exact R2 | apply S2 | | by rewrite Er | by rewrite Er | done] |].
  { intros d [->%elem_of_singleton | ->%elem_of_singleton]%elem_of_union; done. }
  cbn [andb]. case_bool_decide as H1; cbn [orb].
  { change (- EINVAL =? 0) with false. cbn [andb]. wp_step. wp_step. exact Hun. }
  change (0 =? 0) with true. cbn [andb]. wp_step.
  eapply wp_run; [eapply (cross_cycle_run w2 N T {[sa; sb]} {[ha; hb]} hb _ la);
    [exact R2 | apply S2 | | by rewrite Er | by rewrite Er | done] |].
  { intros d [->%elem_of_singleton | ->%elem_of_singleton]%elem_of_union; done. }
  case_bool_decide as H2; [exact Hun |]. change (0 =? 0) with true. cbn [negb orb].
  apply Hlock; [exact S2 | by eexists | by eexists | done | done | done].
Qed.

(** Both shells can be allocated. *)
Definition shells_fit (D : gset Z) : bool :=
  match posix_memalign D with
  | Some sa => bool_decide (is_Some (posix_memalign ({[sa]} ∪ D)))
  | None => false
  end.

(** Two shells, allocated and tagged, that nothing points to yet. *)
Record two_shells (k : nat) (w w' : bworld) (N : nspace) (T : gmap Z Z) (pa pb : Z) (na nb : qstr)
    (sa sb : Z) : Prop := {
  ts_sect : sect k w' N T {[sa; sb]} ∅ [];
  ts_ne : sa ≠ sb;
  ts_sa0 : sa ≠ 0;
  ts_sb0 : sb ≠ 0;
  ts_a : ∃ x, bw_dent w' !! sa = Some x ∧ ∀ y, set_fwd y (set_host y x) = shell_dent pb nb y;
  ts_b : ∃ x, bw_dent w' !! sb = Some x ∧ ∀ y, set_fwd y (set_host y x) = shell_dent pa na y;
  ts_wa : words (bw_lru w') !! sa = Some DC_LRU_OFF;
  ts_wb : words (bw_lru w') !! sb = Some DC_LRU_OFF;
  ts_root : bw_root w' = bw_root w;
  ts_mask : bw_mask w' = bw_mask w;
}.

Definition tag_shell (x : dent) : dent := set_iparent (Z.lor (d_iparent x) DC_TAG_SHELL) x.

Lemma two_shells_intro k w N T pa pb na nb sa sb :
  let xa := new_dent pb nb 0 false true in
  let xb := new_dent pa na 0 false true in
  let w1 := alloc_dent sb xb (alloc_dent sa xa w) in
  binv k w N T → posix_memalign (dom (bw_dent w)) = Some sa →
  posix_memalign ({[sa]} ∪ dom (bw_dent w)) = Some sb →
  two_shells k w (set_dent (<[sb := tag_shell xb]> (<[sa := tag_shell xa]> (bw_dent w1))) w1) N T pa pb na nb sa sb.
Proof.
  intros xa xb w1 Hi Ea Eb. destruct (alloc_fresh w sa Ea) as (Hfa & Haa & Ha0).
  set (wa := alloc_dent sa xa w) in *.
  assert (posix_memalign (dom (bw_dent wa)) = Some sb) as Eb'.
  { rewrite <- Eb. f_equal. unfold wa, alloc_dent. bsimpl. by rewrite dom_insert_L. }
  destruct (alloc_fresh wa sb Eb') as (Hfb & Hba & Hb0).
  assert (sa ≠ sb) as Hne.
  { intros ->. unfold wa, alloc_dent in Hfb. revert Hfb. bsimpl. by rewrite lookup_insert_eq. }
  assert (sect k w1 N T {[sa; sb]} ∅ []) as S1.
  { replace ({[sa; sb]} : gset Z) with ({[sb]} ∪ ({[sa]} ∪ ∅) : gset Z) by set_solver.
    apply sect_alloc; [apply sect_alloc; [by apply sect_binv | done ..] | done ..]. }
  assert (bw_dent w1 !! sa = Some xa ∧ bw_dent w1 !! sb = Some xb) as [Ha Hb].
  { unfold w1, wa, alloc_dent. bsimpl. rewrite lookup_insert_eq, lookup_insert_ne, lookup_insert_eq by done. done. }
  split; [by eapply sect_two_shells | done | done | done | | | | | done | done].
  - exists (tag_shell xa). bsimpl. by rewrite lookup_insert_ne, lookup_insert_eq.
  - exists (tag_shell xb). bsimpl. by rewrite lookup_insert_eq.
  - unfold w1, wa, alloc_dent, words. bsimpl. simpl.
    by rewrite lookup_fmap, lookup_insert_ne, lookup_insert_eq.
  - unfold w1, wa, alloc_dent, words. bsimpl. simpl. by rewrite lookup_fmap, lookup_insert_eq.
Qed.

(** What the exchange does with its shells: folds queued for both, or both freed. *)
Lemma wp_shells_fate k w w0 N T sa sb ret xa xb :
  sect k w N T (if ret =? 0 then ∅ else {[sa; sb]}) ∅ [] → sa ≠ sb → sa ≠ 0 → sb ≠ 0 →
  bw_dent w !! sa = Some xa → shellb xa = true → bw_dent w !! sb = Some xb → shellb xb = true →
  sa ∉ (cb_dent <$> bw_rcu w) → sb ∉ (cb_dent <$> bw_rcu w) →
  words (bw_lru w) !! sa = Some DC_LRU_OFF → words (bw_lru w) !! sb = Some DC_LRU_OFF →
  bw_root w = bw_root w0 → bw_mask w = bw_mask w0 →
  wp (if ret =? 0 then call_rcu (CbFold sa) ;;; call_rcu (CbFold sb) ;;; st_ret 0
      else c_free sa ;;; c_free sb ;;; st_ret ret) (λ r w', bl_post k w0 (ret, N) r w') w.
Proof.
  intros S Hne Ha0 Hb0 Ha Hsa Hb Hsb Hqa Hqb Hwa Hwb Er Em. destruct (Z.eqb_spec ret 0) as [-> | Hret].
  - wp_step. apply wp_mod. wp_step. apply wp_mod. wp_step.
    split; [done | | done | done]. exists T. eapply (binv_queue_fold k (set_rcu _ w)); bsimpl.
    + eapply binv_queue_fold; [by apply sect_binv | exact Ha | done | done].
    + exact Hb.
    + done.
    + rewrite fmap_app, elem_of_app. simpl. rewrite list_elem_of_singleton. intros [? | ?]; congruence.
  - wp_step. wp_use wp_give_back; [exact S | set_solver | done | exact Hwa | apply off_list_off |].
    intros [] w1 (S1 & Er1 & Em1 & _ & _ & Hw1).
    wp_step. wp_use wp_give_back; [exact S1 | set_solver | done | by rewrite Hw1 | apply off_list_off |].
    intros [] w2 (S2 & Er2 & Em2 & _). wp_step. split; [done | | congruence | congruence].
    exists T. apply sect_binv.
    by replace (({[sa; sb]} ∖ {[sa]}) ∖ {[sb]} : gset Z) with (∅ : gset Z) in S2 by (clear; set_solver).
Qed.

(** The rounds of the exchange, and what becomes of the shells. *)
Lemma wp_exchange_loop k w0 w N T ha hb an bn na nb la lb sa sb :
  let cross := negb (n_parent an =? n_parent bn) in
  two_shells k w0 w N T (n_parent an) (n_parent bn) na nb sa sb →
  N !! ha = Some an → N !! hb = Some bn → ha ≠ bw_root w0 → hb ≠ bw_root w0 →
  ha ≠ hb → n_name an = qname na → n_name bn = qname nb → qstr_wf na → qstr_wf nb →
  upto (bw_root w0) N (n_parent an) la → upto (bw_root w0) N (n_parent bn) lb →
  (length la ≤ S DC_LOOP_MAX)%nat → (length lb ≤ S DC_LOOP_MAX)%nat →
  wp (rcu_read_lock ;;;
      let! r := iter_upto RETRY_ROUNDS (exchange_round cross (n_parent an) (n_parent bn) na nb
                  (bucket_index (bw_mask w0) (n_parent an) (q_hash na))
                  (bucket_index (bw_mask w0) (n_parent bn) (q_hash nb)) sa sb) tt in
      match r with
      | inl _ => st_fault NoFuel
      | inr ret => rcu_read_unlock ;;;
          if ret =? 0 then call_rcu (CbFold sa) ;;; call_rcu (CbFold sb) ;;; st_ret 0
          else c_free sa ;;; c_free sb ;;; st_ret ret
      end) (λ ret w', ∃ commit : bool, txn_may commit ∧ bl_post k w0
    (if cross && (bool_decide (ha ∈ lb) || bool_decide (hb ∈ la)) then (- EINVAL, N)
     else if commit then (0, <[ha := moved an (n_parent bn) (n_name bn)]>
                             (<[hb := moved bn (n_parent an) (n_name an)]> N))
     else (- ENOMEM, N)) ret w') w.
Proof.
  intros cross [S Hne Ha0 Hb0 (ya & Hya & Hsha) (yb & Hyb & Hshb) Hwa Hwb Er Em]
    HNa HNb Hra Hrb Hab Ea Eb Hqa Hqb Hla Hlb Hlena Hlenb.
  pose proof (priv_not_queued _ _ _ _ _ _ _ sa S ltac:(set_solver -Hla Hlb)) as Hnqa.
  pose proof (priv_not_queued _ _ _ _ _ _ _ sb S ltac:(set_solver -Hla Hlb)) as Hnqb.
  wp_step. apply wp_mod. set (w3 := set_nest _ w).
  assert (sect (Datatypes.S k) w3 N T {[sa; sb]} ∅ []) as S3.
  { destruct S as [R2 Hh2 Hq2 Hm2 Hk2]. split; [by apply rep_nest | done | done | done |]. unfold w3. bsimpl. congruence. }
  replace (bucket_index (bw_mask w0) (n_parent an) (q_hash na)) with (node_bucket (bw_mask w3) an)
    by (unfold node_bucket; rewrite Ea, (qw_hash na Hqa); unfold w3; bsimpl; by rewrite Em).
  replace (bucket_index (bw_mask w0) (n_parent bn) (q_hash nb)) with (node_bucket (bw_mask w3) bn)
    by (unfold node_bucket; rewrite Eb, (qw_hash nb Hqb); unfold w3; bsimpl; by rewrite Em).
  assert (bw_root w3 = bw_root w0) as Er3 by exact Er.
  apply wp_first_round.
  wp_use (wp_exchange_round (Datatypes.S k) w3 N T ha hb sa sb an bn ya yb na nb la lb);
    [exact S3 | done | done | by rewrite Er3 | by rewrite Er3 | done | done | done | done | done | done |
     by rewrite Er3 | by rewrite Er3 | done | done | exact Hya | done | exact Hyb | done | exact Hwa | exact Hwb |].
  fold cross. intros r w4 (commit & ret & Hmay & -> & Hsw). exists ret. split; [done |].
  match type of Hsw with swapped_post _ _ _ _ ?sp _ _ => set (spec := sp) in * end.
  destruct Hsw as [Eret (T4 & S4) Er4 Em4 El4 Eq4 (xa & Hxa & Hxas) (xb & Hxb & Hxbs)].
  wp_step. eapply wp_rcu_leave; [exact S4 |]. intros S5.
  wp_use (wp_shells_fate k (set_nest k w4) w0 (snd spec) T4 sa sb ret xa xb); try done; bsimpl.
  - by rewrite Eq4.
  - by rewrite Eq4.
  - by rewrite El4.
  - by rewrite El4.
  - by rewrite Er4.
  - by rewrite Em4.
  - intros r w' Hp. exists commit. split; [done |]. fold spec. rewrite Eret in Hp. by destruct spec.
Qed.

Lemma wp_exchange_shells k w N T ha hb an bn na nb la lb :
  let cross := negb (n_parent an =? n_parent bn) in
  binv k w N T → N !! ha = Some an → N !! hb = Some bn → ha ≠ bw_root w → hb ≠ bw_root w →
  ha ≠ hb → n_name an = qname na → n_name bn = qname nb → qstr_wf na → qstr_wf nb →
  upto (bw_root w) N (n_parent an) la → upto (bw_root w) N (n_parent bn) lb →
  (length la ≤ S DC_LOOP_MAX)%nat → (length lb ≤ S DC_LOOP_MAX)%nat →
  wp (exchange_shells (n_parent an) (n_parent bn) na nb) (λ ret w', ∃ commit : bool, txn_may commit ∧ bl_post k w
    (if negb (shells_fit (dom (bw_dent w))) then (- ENOMEM, N)
     else if cross && (bool_decide (ha ∈ lb) || bool_decide (hb ∈ la)) then (- EINVAL, N)
     else if commit then (0, <[ha := moved an (n_parent bn) (n_name bn)]>
                             (<[hb := moved bn (n_parent an) (n_name an)]> N))
     else (- ENOMEM, N)) ret w') w.
Proof.
  intros cross Hi HNa HNb Hra Hrb Hab Ea Eb Hqa Hqb Hla Hlb Hlena Hlenb. unfold exchange_shells, shells_fit.
  wp_step. apply wp_gets. wp_step. apply wp_gets. wp_step. unfold wp at 1. rewrite dentry_alloc_run.
  destruct (posix_memalign (dom (bw_dent w))) as [sa |] eqn:Esa.
  2:{ wp_step. unfold wp at 1. rewrite dentry_alloc_run, Esa. simpl.
      wp_step. eapply wp_run; [done |]. wp_step. eapply wp_run; [done |]. wp_step. exists true. split; [done |]. by eapply bl_post_same. }
  destruct (alloc_fresh w sa Esa) as (Hfa & Haa & Ha0). set (xa := new_dent (n_parent bn) nb 0 false true).
  wp_step. unfold wp at 1. rewrite dentry_alloc_run.
  replace (dom (bw_dent (alloc_dent sa xa w))) with ({[sa]} ∪ dom (bw_dent w))
    by (unfold alloc_dent; bsimpl; by rewrite dom_insert_L).
  destruct (posix_memalign ({[sa]} ∪ dom (bw_dent w))) as [sb |] eqn:Esb.
  2:{ rewrite Z.eqb_refl, orb_true_r. cbn iota.
      assert (sect k (alloc_dent sa xa w) N T {[sa]} ∅ []) as S1.
      { rewrite <- (union_empty_r_L {[sa]}). apply sect_alloc; [by apply sect_binv | done ..]. }
      wp_step. wp_use wp_give_back; [exact S1 | by apply elem_of_singleton | done | | apply off_list_off |].
      { unfold alloc_dent, words. bsimpl. simpl. by rewrite lookup_fmap, lookup_insert_eq. }
      intros [] w2 (S2 & Er2 & Em2 & _). rewrite minus_self in S2. wp_step. eapply wp_run; [done |]. wp_step. exists true. split; [done |].
      rewrite bool_decide_false by (by intros [? ?]). by eapply bl_post_same; [apply sect_binv | ..]. }
  rewrite bool_decide_true by eauto. cbn [negb].
  pose proof (two_shells_intro k w N T (n_parent an) (n_parent bn) na nb sa sb Hi Esa Esb) as Hts.
  cbv zeta in Hts. fold xa in Hts. set (xb := new_dent (n_parent an) na 0 false true) in *.
  set (w1 := alloc_dent sb xb (alloc_dent sa xa w)) in *. set (w2 := set_dent (<[sb := _]> _) w1) in Hts.
  pose proof (ts_ne _ _ _ _ _ _ _ _ _ _ _ Hts) as Hne. pose proof (ts_sb0 _ _ _ _ _ _ _ _ _ _ _ Hts) as Hb0.
  destruct (Z.eqb_spec sa 0) as [? | _]; [contradiction |]. destruct (Z.eqb_spec sb 0) as [? | _]; [contradiction |].
  cbn [orb]. wp_step. eapply wp_run; [apply (dent_store_run _ _ xa) |].
  { unfold w1, alloc_dent. bsimpl. rewrite lookup_insert_ne by done. apply lookup_insert_eq. }
  wp_step. eapply wp_run; [apply (dent_store_run _ _ xb) |].
  { unfold w1, alloc_dent. bsimpl. rewrite lookup_insert_ne by done. apply lookup_insert_eq. }
  change (set_dent _ _) with w2. eapply wp_mono; [eapply (wp_exchange_loop k w w2 N T ha hb an bn na nb la lb sa sb); done |].
  intros ret w' (commit & Hmay & Hp). by exists commit.
Qed.

Lemma wp_bl_rename_exchange k w N T a b :
  binv k w N T → path_wf a → path_wf b →
  wp (dc_rename_exchange a b) (λ ret w', ∃ commit : bool, txn_may commit ∧ bl_post k w
    (spec_exchange_bl (bw_root w) (shells_fit (dom (bw_dent w))) commit (pnames a) (pnames b) N) ret w') w.
Proof.
  intros Hi Hpa Hpb. unfold dc_rename_exchange, spec_exchange_bl. case_decide as H0.
  { wp_step. exists true. split; [done |]. eapply bl_post_same; [done | | | done | done];
      destruct H0 as [E | E]; unfold pnames; rewrite E; simpl; repeat case_match; done. }
  apply Decidable.not_or in H0 as [Ha0 Hb0].
  destruct (path_split a Hpa Ha0) as (qa & Hqa & Hqaw & Hwa & _).
  destruct (path_split b Hpb Hb0) as (qb & Hqb & Hqbw & Hwb & _).
  destruct (pnames a) as [| nm0 rest] eqn:Ena; [by apply pnames_nonempty in Ena |]. rewrite <- Ena, Hwa in *. clear Hwa.
  destruct (pnames b) as [| nm1 rest1] eqn:Enb; [by apply pnames_nonempty in Enb |]. rewrite <- Enb, Hwb in *. clear Hwb.
  wp_step. apply (wp_resolve_parent k w N T a); [done | done | |]; clear Hi.
  { intros w1 Hi Er Em Ed Ew. rewrite Z.eqb_refl. wp_step. exists true. split; [done |]. rewrite Ew. cbn [mbind option_bind].
    by eapply bl_post_same. }
  intros w1 pa pan Hi Er Em Ed Ew Hpan Hpaa Hpa0. destruct (Z.eqb_spec pa 0) as [? | _]; [contradiction |].
  wp_step. eapply wp_run; [by apply comp_at_run |]. rewrite Ew. cbn [mbind option_bind].
  wp_step. apply (wp_resolve_parent k w1 N T b); [done | done | |]; clear Hi.
  { intros w2 Hi Er2 Em2 Ed2 Ew2. rewrite Z.eqb_refl. wp_step. exists true. split; [done |]. rewrite Er in Ew2. rewrite Ew2. cbn [mbind option_bind].
    destruct (child _ _ _ _) as [z |]; cbn [mbind option_bind]; [destruct (N !! z); cbn [mbind option_bind] |];
      (eapply bl_post_same; [exact Hi | done | done | congruence | congruence]). }
  intros w2 pb pbn Hi Er2 Em2 Ed2 Ew2 Hpbn Hpba Hpb0. destruct (Z.eqb_spec pb 0) as [? | _]; [contradiction |].
  pose proof (bi_rep _ _ _ _ Hi) as R. wp_step. eapply wp_run; [by apply comp_at_run |].
  rewrite Er in Er2, Ew2. rewrite Ew2. cbn [mbind option_bind]. rewrite <- Er2, <- Ed, <- Ed2.
  assert (∀ spec ret, ret = fst spec → snd spec = N → bl_post k w spec ret w2) as Hsame.
  { intros spec ret E1 E2. eapply bl_post_same; [done | done | done | congruence | congruence]. }
  wp_step. apply wp_mod. wp_step. eapply wp_run; [by apply (child_lookup_run _ N T ∅ (rep_nest _ _ _ _ _ R)) |].
  wp_step. eapply wp_run; [by apply (child_lookup_run _ N T ∅ (rep_nest _ _ _ _ _ R)) |]. bsimpl.
  wp_step. eapply wp_run; [done |]. bsimpl.
  replace (set_nest (bw_nest w2) (set_nest (S (bw_nest w2)) w2)) with w2 by (by destruct w2).
  destruct (child (bw_root w2) N pa (qname qa)) as [ha |] eqn:Eca; cbn [default mbind option_bind].
  2:{ change (default 0 None) with 0. rewrite Z.eqb_refl. cbn [orb]. wp_step. exists true. split; [done |]. by apply Hsame. }
  pose proof (child_Some_1 _ _ _ _ _ Eca) as (Hhra & an & HNa & Hanp & Hanm). rewrite HNa. cbn [mbind option_bind].
  destruct (rep_aligned _ _ _ _ R ha ltac:(by eexists)) as [_ Hha0]. change (id ha) with ha.
  destruct (Z.eqb_spec ha 0) as [? | _]; [contradiction |]. cbn [orb].
  destruct (child (bw_root w2) N pb (qname qb)) as [hb |] eqn:Ecb; cbn [default mbind option_bind].
  2:{ change (default 0 None) with 0. change (0 =? 0) with true. cbn iota. wp_step. exists true. split; [done |]. by apply Hsame. }
  pose proof (child_Some_1 _ _ _ _ _ Ecb) as (Hhrb & bn & HNb & Hbnp & Hbnm). rewrite HNb. cbn [mbind option_bind].
  destruct (rep_aligned _ _ _ _ R hb ltac:(by eexists)) as [_ Hhb0]. change (id hb) with hb.
  destruct (Z.eqb_spec hb 0) as [? | _]; [contradiction |].
  destruct (Z.eqb_spec ha hb) as [<- | Hab]; [wp_step; exists true; split; [done |]; by apply Hsame |].
  subst pa pb. rewrite <- Er2 in Ew, Ew2.
  destruct (resolved_depth w2 N T ∅ a _ R Hpa Ew) as (la & Hla & Hlena).
  destruct (resolved_depth w2 N T ∅ b _ R Hpb Ew2) as (lb & Hlb & Hlenb).
  wp_use (wp_exchange_shells k w2 N T ha hb an bn qa qb la lb); try done.
  intros ret w3 (commit & Hmay & Hp). exists commit. split; [done |].
  rewrite (subdir_spec _ _ _ _ lb (r_tree _ _ _ _ R) Hlb), (subdir_spec _ _ _ _ la (r_tree _ _ _ _ R) Hla).
  destruct Hp. split; [done | done | congruence | congruence].
Qed.
End exchange.
