(* ===== verification/BlLife.v ===== *)
(** The birth of the bucket-lock engine's cache: [dc_create] gives a coherent world
    that holds only the root. *)

From S2P Require Import Prelude Qstr HList Lru World Walk Reclaim Namespace BlChain BlLists.
From S2P Require Import BlLru BlLruSpec BlWorld BlWalk BlReclaim BlInv Lifecycle.

(** Lists of one node that is on none of them, and of no node at all. *)
Lemma chain_is_fresh (F : gset Z) r :
  chain_is {| c_first := gset_to_gmap 0 F; c_node := {[r := bnode0]} |} (λ _, [])
    (gset_to_gmap false F) {[r := false]}.
Proof.
  split; simpl.
  - intros i. rewrite !lookup_gset_to_gmap. by destruct (decide (i ∈ F)); rewrite ?option_guard_True, ?option_guard_False by done.
  - done.
  - done.
  - intros i j d Hd. by apply not_elem_of_nil in Hd.
  - intros i d Hd. by apply not_elem_of_nil in Hd.
  - intros d. destruct (decide (r = d)) as [<- | Hne]; [by rewrite !lookup_singleton_eq | by rewrite !lookup_singleton_ne].
  - intros d n [_ <-]%lookup_singleton_Some. exists 0. split; done.
Qed.

Lemma chain_has_fresh (F : gset Z) r :
  let c := {| c_first := gset_to_gmap 0 F; c_node := {[r := bnode0]} |} in
  chain_has c (λ _, []) ∧ bits c = gset_to_gmap false F ∧ marks c = {[r := false]}.
Proof. apply chain_is_has, chain_is_fresh. Qed.

Lemma lists_fresh r f : lists r {[r := root_node r]} {[r := r]} f (λ _, []).
Proof.
  intros i t. split; [by intros ?%not_elem_of_nil |].
  intros (h & n & Hh & [? _]%lookup_singleton_Some & _). done.
Qed.

Lemma lru_rep_fresh r :
  lru_rep {[r]} {[r := root_node r]} ∅ {| ls_one := lru_shards_init; ls_node := {[r := lnode0]} |}.
Proof.
  assert (words {| ls_one := lru_shards_init; ls_node := {[r := lnode0]} |} = {[r := DC_LRU_OFF]}) as Ew.
  { unfold words. simpl. apply map_fmap_singleton. }
  split.
  - split; [| split; [| done]].
    + exists (λ _, []). split; [split; cbn [ls_one ls_node]; try done |].
      * intros i o [-> _]%lookup_replicate. split_and!; done.
      * intros i j d Hd. by apply not_elem_of_nil in Hd.
      * intros i d. rewrite Ew. split; [by intros ?%not_elem_of_nil |].
        intros [[_ E]%lookup_singleton_Some _]. unfold DC_LRU_OFF, DC_LRU_ON in E. lia.
    + done.
  - rewrite Ew. apply dom_singleton_L.
  - intros d v. rewrite Ew. intros [<- <-]%lookup_singleton_Some. unfold word_is.
    rewrite lookup_singleton_eq. by left.
Qed.

(** The root dentry. *)
Definition root_dent (stack : qstr) (r : Z) : dent :=
  {| d_iparent := r; d_iname := rootname stack; d_fwd := 0; d_top := 0; d_inode := 1; d_isdir := true;
     d_parent := r; d_moving := 0; d_id := 0 |}.

Lemma root_entry stack r :
  aligned r → length (q_name stack) = DC_NAME_MAX →
  dent_ok (root_dent stack r) ∧
  entry {[r := root_dent stack r]} r (root_node r) r (root_dent stack r) (root_dent stack r).
Proof.
  intros Hr Hs. destruct (rootname_wf stack Hs) as [Hq Hqn].
  destruct (tag_word r false false (root_dent stack r) Hr) as (Hi & Hsh & Hp); [simpl; unfold itag; lia |].
  split.
  - split; simpl; [done | by rewrite Hi | | done | done | by rewrite Hsh].
    rewrite Hi, Hsh, Hp. unfold itag. simpl. lia.
  - split; simpl; rewrite ?lookup_singleton_eq; try done. by unfold dtop_val; rewrite Z.eqb_refl.
Qed.

Section create.
  Context `{HA : Memalign} `{!MemalignOk HA}.

Lemma dc_create_binv node stack nb r :
  0 ≤ nb ≤ 2 ^ 31 → length (q_name stack) = DC_NAME_MAX → posix_memalign ∅ = Some r →
  ∃ w b, dc_create true true true node stack nb = Ok (Some w) ∧ binv 0 w {[r := root_node r]} {[r := r]} ∧
    bw_root w = r ∧ bw_mask w + 1 = 2 ^ b ∧ nb ≤ 2 ^ b ∧ (b = 0 ∨ 2 ^ (b - 1) < nb).
Proof.
  intros Hnb Hst Hr. destruct (round_up_pow2 nb Hnb) as (b & Hb & E & Hle & Hmin).
  pose proof (memalign_aligned _ _ Hr) as Hal. pose proof (memalign_range _ _ Hr) as Hrng.
  destruct (root_entry stack r Hal Hst) as [Hok Hen]. destruct (tree_create r) as [Ht Hty].
  unfold dc_create. cbn [negb]. rewrite E. unfold dentry_alloc, st_bind, st_get, st_mod, st_ret.
  change (dom (bw_dent (dcache0 node (2 ^ b)))) with (dom (∅ : gmap Z dent)).
  rewrite dom_empty_L, Hr. unfold dent_store, alloc_dent, set_root, dcache0. bsimpl.
  rewrite lookup_insert_eq. bsimpl. rewrite lookup_insert_eq, !insert_insert_eq.
  change (set_iparent r _) with (root_dent stack r). cbn [set_node c_first c_node].
  eexists _, b. split; [done |]. bsimpl. split; [| repeat split; try done; lia].
  destruct (chain_has_fresh (list_to_set (seqZ 0 (2 ^ b))) r) as (Hh & Hhb & Hhm).
  destruct (chain_has_fresh {[r]} r) as (Hc & Hcb & Hcm). rewrite gset_to_gmap_singleton in Hc, Hcb, Hcm.
  set (ch := {| c_first := gset_to_gmap 0 _; c_node := _ |}) in Hh, Hhb, Hhm.
  set (cs := {| c_first := {[r := 0]}; c_node := _ |}) in Hc, Hcb, Hcm.
  change (set_node _ _) with ch. change {| c_first := <[r := 0]> _; c_node := <[r := bnode0]> _ |} with cs.
  rewrite !insert_empty. split; bsimpl; [split; bsimpl | ..].
  - exists b. split; [done |]. rewrite Z.ones_equiv. lia.
  - intros d x [<- <-]%lookup_singleton_Some. split_and!; [done | lia | done].
  - intros d Hd. by apply not_elem_of_empty in Hd.
  - by rewrite !dom_singleton_L.
  - intros h n t [<- <-]%lookup_singleton_Some [_ <-]%lookup_singleton_Some. eauto.
  - apply lookup_singleton_eq.
  - exists (λ _, []). split; [exact Hh | apply lists_fresh].
  - exists (λ _, []). split; [exact Hc | apply lists_fresh].
  - intros i. rewrite Hhb, lookup_gset_to_gmap, option_guard_bool_decide.
    destruct (bool_decide_reflect (i ∈ (list_to_set (seqZ 0 (2 ^ b)) : gset Z))) as [Hi | Hi];
      rewrite elem_of_list_to_set, elem_of_seqZ in Hi; simpl; [split; [lia | by eexists] | split; [by intros [? ?] | lia]].
  - rewrite Hcb, dom_gset_to_gmap. by rewrite dom_singleton_L.
  - rewrite Hhm. by rewrite !dom_singleton_L.
  - rewrite Hcm. by rewrite !dom_singleton_L.
  - intros h t [_ <-]%lookup_singleton_Some. rewrite Hhm. apply lookup_singleton_eq.
  - intros d x [<- <-]%lookup_singleton_Some _ Hs. by rewrite (en_kind _ _ _ _ _ _ Hen) in Hs.
  - rewrite dom_singleton_L. apply lru_rep_fresh.
  - exact Ht.
  - exact Hty.
  - intros i c. rewrite Hhb. by intros [_ <-]%lookup_gset_to_gmap_Some.
  - intros i c. rewrite Hcb. by intros [_ <-]%lookup_gset_to_gmap_Some.
  - split; [apply NoDup_nil_2 | by intros d ?%not_elem_of_nil | by intros d ?%not_elem_of_nil].
  - by intros d x [<- <-]%lookup_singleton_Some.
  - done.
Qed.
End create.
