(* ===== verification/BlReadSpec.v ===== *)
(** The other readers of the bucket-lock engine against the name space: directory
    listing, the reverse walk from a dentry to its path, and the census. *)

From S2P Require Import Prelude Qstr HList Lru World Walk Namespace TreeOps Paths Lifecycle.
From S2P Require Import ReadSpec.
From S2P Require Import BlChain BlLists BlLru BlLruSpec BlWorld BlWalk BlInv BlReads BlWalkSpec.

Section reads.
Context w N T P (R : rep w N T P).

(** ** Child lists *)

Definition stands_for (t h : Z) : Prop := T !! h = Some t.

Lemma stands_for_list C f p : lists (bw_root w) N T f C → NoDup (C p) →
  ∃ hs, Forall2 stands_for (C p) hs ∧ NoDup hs ∧
    ∀ h, h ∈ hs ↔ ∃ n, h ≠ bw_root w ∧ N !! h = Some n ∧ f n = p.
Proof.
  intros HL Hnd.
  assert (∀ ts, (∀ t, t ∈ ts → t ∈ C p) → ∃ hs, Forall2 stands_for ts hs) as Hex.
  { induction ts as [| t ts IH]; intros Hts; [exists []; constructor |].
    destruct IH as [hs Hhs]; [intros; apply Hts; by right |].
    destruct (proj1 (HL p t) ltac:(apply Hts; left)) as (h & n & _ & _ & Ht & _).
    exists (h :: hs). by constructor. }
  destruct (Hex (C p)) as [hs Hhs]; [done |]. exists hs. split_and!; [done | |].
  - clear Hex. revert Hnd. induction Hhs as [| t h ts hs Ht Hhs IH]; intros Hnd; [constructor |].
    apply NoDup_cons in Hnd as [Hnot Hnd]. constructor; [| by apply IH].
    intros (i & Hi)%list_elem_of_lookup. destruct (Forall2_lookup_r _ _ _ _ _ Hhs Hi) as (t' & Hi' & Ht').
    apply Hnot. apply list_elem_of_lookup. exists i. by replace t with t' by (unfold stands_for in *; congruence).
  - intros h. split.
    + intros (i & Hi)%list_elem_of_lookup. destruct (Forall2_lookup_r _ _ _ _ _ Hhs Hi) as (t & Hi' & Ht).
      apply list_elem_of_lookup_2 in Hi'. apply HL in Hi' as (h' & n & Hr & Hn & Ht' & Hf).
      assert (h' = h) as -> by (by eapply (top_inj _ _ _ _ R)). eauto.
    + intros (n & Hr & Hn & Hf). destruct (rep_top _ _ _ _ R h n Hn) as (t & _ & _ & Ht & _).
      assert (t ∈ C p) as (i & Hi)%list_elem_of_lookup by (apply HL; eauto 10).
      destruct (Forall2_lookup_l _ _ _ _ _ Hhs Hi) as (h' & Hi' & Ht').
      apply list_elem_of_lookup. exists i. by rewrite (top_inj _ _ _ _ R h h' t).
Qed.

(** The scan of a child list, with an invariant over the hosts passed. *)
Lemma sib_scan_run {X} (body : Z → X → M X) (I : list Z → X → Prop) C d ts hs : ∀ ts0 hs0 fuel x,
  chain_has (bw_sib w) C → C d = ts0 ++ ts → Forall2 stands_for ts hs → (length ts < fuel)%nat →
  I hs0 x →
  (∀ hs1 t h hs2 x, hs0 ++ hs = hs1 ++ h :: hs2 → stands_for t h → I hs1 x →
     ∃ x', body t x w = Ok (x', w) ∧ I (hs1 ++ [h]) x') →
  ∃ x', sib_scan fuel (hd0 ts) body x w = Ok (x', w) ∧ I (hs0 ++ hs) x'.
Proof.
  intros ts0 hs0 fuel x HC E Hts. revert ts0 hs0 fuel x E.
  induction Hts as [| t h ts hs Ht Hts IH]; intros ts0 hs0 fuel x E Hf HI Hb;
    (destruct fuel as [| fuel]; [simpl in Hf; lia |]).
  { exists x. rewrite app_nil_r. done. }
  assert (t ≠ 0) as H0.
  { intros ->. apply (ci_nonzero _ _ _ _ HC d). rewrite E. apply elem_of_app. right. by left. }
  destruct (Hb hs0 t h hs x eq_refl Ht HI) as (x1 & E1 & HI1).
  destruct (IH (ts0 ++ [t]) (hs0 ++ [h]) fuel x1) as (x2 & E2 & HI2).
  - by rewrite E, <- app_assoc.
  - simpl in Hf. lia.
  - done.
  - intros hs1 t' h' hs2 x'. rewrite <- (assoc_L (++)). apply Hb.
  - exists x2. rewrite <- (assoc_L (++)) in HI2. split; [| exact HI2].
    simpl. unfold hd0. simpl. destruct (Z.eqb_spec t 0); [done |]. run E1.
    run (next_run _ bw_sib set_sib C d ts0 t ts set_sib_id HC E). exact E2.
Qed.

Lemma sib_bound C i : chain_has (bw_sib w) C → (length (C i) < sib_fuel w)%nat.
Proof. intros HC. unfold sib_fuel. pose proof (ci_length _ _ _ _ HC i). lia. Qed.

(** The children of an entry, in the order of its list. *)
Lemma child_list d :
  is_Some (N !! d) →
  ∃ C b hs, chain_has (bw_sib w) C ∧ bits (bw_sib w) !! d = Some b ∧ Forall2 stands_for (C d) hs ∧
    (length (C d) < sib_fuel w)%nat ∧ hs ≡ₚ kids (bw_root w) N d.
Proof.
  intros Hd. destruct (r_sib _ _ _ _ R) as (C & HC & HL). destruct (child_bit _ _ _ _ R d Hd) as [b Hb].
  destruct (stands_for_list C n_parent d HL) as (hs & Hhs & Hnd & Hmem); [apply (ci_nodup _ _ _ _ HC) |].
  exists C, b, hs. split_and!; [done | done | done | by apply sib_bound |].
  apply NoDup_Permutation; [done | apply kids_nodup |]. intros h. rewrite Hmem, elem_of_kids. naive_solver.
Qed.

(** ** Listing *)

(** A callback that looks at the bytes of a name. *)
Definition on_names {X} (f : Z → list Z → X → X) : Z → qstr → X → X := λ id q, f id (qname q).

Definition entry_call {X} (f : option (Z → list Z → X → X)) (x : X) (h : Z) : X :=
  match f, N !! h with Some f, Some n => f (n_id n) (n_name n) x | _, _ => x end.

Definition readdir_body {X} (f : option (Z → list Z → X → X)) (top : Z) (x : Z * X) : M (Z * X) :=
  let! host := host_of_rcu top in
  let! arg := match on_names <$> f with
              | Some f =>
                  let! hx := dent_at host in
                  let! tx := dent_at top in
                  st_ret (f (d_id hx) (d_iname tx) (snd x))
              | None => st_ret (snd x)
              end in
  st_ret (fst x + 1, arg).

Lemma readdir_body_run {X} (f : option (Z → list Z → X → X)) t h x :
  stands_for t h → readdir_body f t x w = Ok ((fst x + 1, entry_call f (snd x) h), w).
Proof.
  intros Ht. destruct (rep_live _ _ _ _ R h t Ht) as (n & hx & tx & Hn & E). unfold readdir_body, entry_call.
  run (host_of_top _ _ _ _ R h t Ht). destruct f as [f |]; simpl; [| by eapply bind_run].
  eapply bind_run; [| done]. run (dent_at_run h hx w (en_host _ _ _ _ _ _ E)).
  run (dent_at_run t tx w (en_top _ _ _ _ _ _ E)). unfold on_names.
  by rewrite Hn, (en_id _ _ _ _ _ _ E), (en_name _ _ _ _ _ _ E).
Qed.
End reads.

Lemma dc_readdir_run {X} w N T P path (f : option (Z → list Z → X → X)) arg :
  rep w N T P → path_wf path →
  match nwalk (bw_root w) N (bw_root w) (pnames path) with
  | None => dc_readdir path (on_names <$> f) arg w = Ok ((- ENOENT, arg), w)
  | Some d => ∃ l, l ≡ₚ kids (bw_root w) N d ∧
      dc_readdir path (on_names <$> f) arg w = Ok ((Z.of_nat (length l), foldl (entry_call N f) arg l), w)
  end.
Proof.
  intros R Hp. pose proof (rep_nest (S (bw_nest w)) _ _ _ _ R) as R1.
  unfold dc_readdir. set (w1 := set_nest _ w) in *.
  assert (∀ (r : Z * X), (rcu_read_unlock ;;; st_ret r) w1 = Ok (r, w)) as Eend.
  { intros r. unfold w1, st_bind, rcu_read_unlock, st_ret. simpl. by destruct w. }
  pose proof (descend_run w1 N T P path (ndepth path) 0 (bw_root w1) R1 Hp ltac:(lia)) as Ed.
  rewrite drop_0, take_ge in Ed by (rewrite length_pnames by done; lia). change (bw_root w1) with (bw_root w) in *.
  destruct (nwalk (bw_root w) N (bw_root w) (pnames path)) as [d |] eqn:Ew.
  2:{ eapply bind_run; [done |]. cbn beta. run gets_run. run Ed. apply Eend. }
  destruct (rep_root _ _ _ _ R) as (rn & Hr & _).
  pose proof (nwalk_dom _ _ _ _ _ ltac:(by eexists) Ew) as Hd.
  destruct (rep_aligned _ _ _ _ R1 d Hd) as [_ H0].
  destruct (child_list w1 N T P R1 d Hd) as (C & b & hs & HC & Hb & Hhs & Hlen & Hperm).
  exists hs. split; [done |].
  destruct (sib_scan_run w1 T (readdir_body f) (λ l x, x = (Z.of_nat (length l), foldl (entry_call N f) arg l))
    C d (C d) hs [] [] (sib_fuel w1) (0, arg) HC eq_refl Hhs Hlen eq_refl) as (x & Ex & ->).
  { intros hs1 t h hs2 x _ Ht ->. eexists. split; [by apply (readdir_body_run w1 N T P R1) |]. simpl.
    rewrite length_app, foldl_app. simpl. f_equal. lia. }
  eapply bind_run; [done |]. cbn beta. run gets_run. run Ed. simpl. destruct (Z.eqb_spec d 0); [done |].
  run (first_run _ bw_sib set_sib C d b set_sib_id HC Hb). run gets_run. eapply bind_run; [exact Ex | apply Eend].
Qed.

(** ** The reverse walk *)

Section climb.
Context w N T P (R : rep w N T P).

Lemma any_unhashed_run latch : Forall (λ t, ∃ h, T !! h = Some t) latch → any_unhashed latch w = Ok (false, w).
Proof.
  induction 1 as [| t latch [h Ht] _ IH]; [done |]. simpl. unfold top_unhashed_rcu.
  run (live_run _ _ _ _ R h t Ht). by run IH.
Qed.

Lemma drop_insert_step (out : list qstr) n q :
  length out = DC_PATH_MAX → (n < DC_PATH_MAX)%nat →
  drop (DC_PATH_MAX - S n) (<[(DC_PATH_MAX - 1 - n)%nat := q]> out) = q :: drop (DC_PATH_MAX - n) out.
Proof.
  intros Hl Hn. replace (DC_PATH_MAX - S n)%nat with (DC_PATH_MAX - 1 - n)%nat by lia.
  erewrite drop_S by (apply list_lookup_insert_eq; lia). f_equal.
  replace (S (DC_PATH_MAX - 1 - n))%nat with (DC_PATH_MAX - n)%nat by lia. by rewrite drop_insert_lt by lia.
Qed.

(** What the climb from [h] leaves. *)
Definition climbed (h : Z) (n : nat) (out : list qstr) (r : (unit + Z * nat * list Z) * list qstr) : Prop :=
  let m := length (npath (bw_root w) N h) in
  length (snd r) = DC_PATH_MAX ∧
  if decide (n + m ≤ DC_PATH_MAX)%nat then
    ∃ latch, fst r = inr (0, (n + m)%nat, latch) ∧ Forall (λ t, ∃ h, T !! h = Some t) latch ∧
      Forall qstr_wf (drop (DC_PATH_MAX - (n + m)) (snd r)) ∧
      qname <$> drop (DC_PATH_MAX - (n + m)) (snd r) =
        npath (bw_root w) N h ++ (qname <$> drop (DC_PATH_MAX - n) out)
  else ∃ k latch, fst r = inr (- ENAMETOOLONG, k, latch).

Lemma climb_tops_run : ∀ fuel h n out latch,
  is_Some (N !! h) → (n ≤ DC_PATH_MAX)%nat → (DC_PATH_MAX < fuel + n)%nat → length out = DC_PATH_MAX →
  Forall qstr_wf (drop (DC_PATH_MAX - n) out) → Forall (λ t, ∃ h, T !! h = Some t) latch →
  ∃ r, climb_tops fuel (bw_root w) h n out latch w = Ok (r, w) ∧ climbed h n out r.
Proof.
  pose proof (r_tree _ _ _ _ R) as Ht.
  induction fuel as [| fuel IH]; intros h n out latch Hh Hn Hf Hsz Hwf Hla; [simpl in Hf; lia |].
  cbn [climb_tops]. destruct (Z.eqb_spec h (bw_root w)) as [-> | Hr].
  { eexists. split; [done |]. unfold climbed. rewrite (npath_root _ _ Ht). cbn [length fst snd].
    rewrite Nat.add_0_r, decide_True by done. split; [done |]. by exists latch. }
  destruct Hh as [hn Hn']. destruct (rep_top _ _ _ _ R h hn Hn') as (t & x & tx & Htop & E).
  pose proof (npath_step _ _ Ht h hn Hn' Hr) as Estep. case_decide as Hfull.
  { eexists. split; [done |]. unfold climbed. rewrite Estep, length_app. cbn [length fst snd].
    split; [done |]. rewrite decide_False by lia. eauto. }
  destruct (entry_ok _ _ _ _ R h hn t x tx Htop Hn' E) as [_ Hok].
  set (out' := <[(DC_PATH_MAX - 1 - n)%nat := d_iname tx]> out).
  assert (drop (DC_PATH_MAX - S n) out' = d_iname tx :: drop (DC_PATH_MAX - n) out) as Edrop
    by (apply drop_insert_step; [done | lia]).
  destruct (IH (n_parent hn) (S n) out' (latch ++ [t])) as (r & Er & Hos & Hc).
  - by eapply tree_parent.
  - lia.
  - lia.
  - unfold out'. by rewrite length_insert.
  - rewrite Edrop. constructor; [apply Hok | done].
  - apply Forall_app. split; [done |]. apply Forall_singleton. eauto.
  - exists r. split.
    + run (named_top_run _ _ _ _ R h t Htop). run (dent_at_run t tx w (en_top _ _ _ _ _ _ E)). unfold top_unhashed_rcu.
      run (live_run _ _ _ _ R h t Htop). run iparent_of_run; [apply (en_top _ _ _ _ _ _ E) | done |].
      rewrite (en_ipar _ _ _ _ _ _ E). exact Er.
    + split; [done |]. rewrite Estep, length_app. cbn [length].
      replace (n + (length (npath (bw_root w) N (n_parent hn)) + 1))%nat
        with (S n + length (npath (bw_root w) N (n_parent hn)))%nat by lia.
      case_decide; [| done]. destruct Hc as (la & E1 & E2 & E3 & E4). exists la. split_and!; [done | done | done |].
      rewrite E4, Edrop, fmap_cons, (en_name _ _ _ _ _ _ E). by rewrite <- (assoc_L (++)).
Qed.
End climb.

Lemma dc_dentry_path_run w N T P d out :
  rep w N T P → is_Some (N !! d) → length (comp out) = DC_PATH_MAX →
  ∃ ret p, dc_dentry_path d out w = Ok ((ret, p), w) ∧
    if decide (length (npath (bw_root w) N d) ≤ DC_PATH_MAX)%nat
    then ret = 0 ∧ path_wf p ∧ pnames p = npath (bw_root w) N d
    else ret = - ENAMETOOLONG.
Proof.
  intros R Hd Hout. pose proof (rep_nest (S (bw_nest w)) _ _ _ _ R) as R1. set (w1 := set_nest _ w) in *.
  destruct (climb_tops_run w1 N T P R1 (S DC_PATH_MAX) d 0 (comp out) []) as ([o cs] & Er & Hsz & Hc);
    [done | lia | lia | done | | constructor |].
  { rewrite Nat.sub_0_r, drop_ge by lia. constructor. }
  cbn [fst snd] in *. change (bw_root w1) with (bw_root w) in *. rewrite Nat.add_0_l in Hc.
  set (m := length (npath (bw_root w) N d)) in *.
  assert (∀ n ret cs', dentry_path_round d (comp out) w1 = Ok (inr (ret, n, cs'), w1) →
    dc_dentry_path d out w = Ok ((if negb (ret =? 0) then (ret, {| ndepth := ndepth out; comp := cs' |})
                                  else (0, {| ndepth := n; comp := comp_memmove n cs' |})), w)) as Hfin.
  { intros n ret cs' Eround. unfold dc_dentry_path. eapply bind_run; [done |]. cbn beta. fold w1.
    assert (wp (iter_upto RETRY_ROUNDS (dentry_path_round d) (comp out)) (λ r w', r = inr (ret, n, cs') ∧ w' = w1) w1) as Hwp.
    { apply wp_iter_first. eapply wp_run; [exact Eround |]. eauto. }
    destruct (wp_inv _ _ _ Hwp) as (r & w' & Eq & -> & ->). run Eq. unfold w1, st_bind, rcu_read_unlock. bsimpl.
    destruct w. by destruct (negb (ret =? 0)). }
  unfold dentry_path_round in Hfin. case_decide as Hm.
  - destruct Hc as (latch & -> & Hla & Hwf & Hnm). do 2 eexists. split.
    + apply (Hfin m 0 cs). run gets_run. run Er. simpl. by run (any_unhashed_run w1 N T P R1 latch Hla).
    + simpl. split; [done |]. apply memmove_path; [done | done | done |].
      etransitivity; [exact Hnm |]. by rewrite Nat.sub_0_r, (drop_ge (comp out)), app_nil_r by lia.
  - destruct Hc as (k & latch & ->). do 2 eexists. split; [apply (Hfin k (- ENAMETOOLONG) cs); run gets_run; by run Er |]. done.
Qed.

(** ** The census *)

Lemma walk_rec_run {X} w N T P (f : Z → list (list Z) → X → X) :
  rep w N T P → ∀ fuel d path arg,
  is_Some (N !! d) → length (comp path) = DC_PATH_MAX → (ndepth path ≤ DC_PATH_MAX)%nat →
  pnames path = npath (bw_root w) N d → (DC_PATH_MAX < fuel + ndepth path)%nat →
  ∃ r, walk_rec fuel (λ id p x, f id (pnames p) x) d path arg w = Ok (r, w) ∧ same_path path (fst r) ∧
    reported (bw_root w) N f arg (λ x, x ∈ subtree (bw_root w) N d) (snd r).
Proof.
  intros R. pose proof (r_tree _ _ _ _ R) as Ht. set (root := bw_root w) in *.
  induction fuel as [| fuel IH]; intros d path arg Hd Hsz Hdep Hnames Hf; [simpl in Hf; lia |].
  pose proof Hd as [n Hn]. destruct (rep_top _ _ _ _ R d n Hn) as (t & x & tx & Htop & E).
  destruct (entry_ok _ _ _ _ R d n t x tx Htop Hn E) as [Hok _].
  pose proof (path_depth root N path d Hnames Hsz Hdep) as Hlen.
  pose proof (reported_self root N Ht f d n path arg Hn Hnames Hsz Hdep) as Hself.
  set (visit := ((0 <? ndepth path)%nat || negb (n_parent n =? d)) && n_pos n) in *.
  set (arg1 := if visit then f (n_id n) (pnames path) arg else arg) in *.
  destruct (child_list w N T P R d Hd) as (C & b & hs & HC & Hb & Hhs & Hfuel & Hperm). fold root in Hperm.
  assert (∀ c, c ∈ hs ↔ c ∈ kids root N d) as Hm by (intros c; by rewrite Hperm).
  assert (NoDup hs) as Hnd by (rewrite Hperm; apply kids_nodup).
  cbn [walk_rec]. set (body := λ (top : Z) (x : dc_path * X), _).
  destruct (sib_scan_run w T body (λ pre y, same_path path (fst y) ∧
    reported root N f arg1 (below_any root N pre) (snd y)) C d (C d) hs [] [] (sib_fuel w) (path, arg1)
    HC eq_refl Hhs Hfuel) as (y & Ey & Hsp & Hrep).
  - split; [done |]. apply reported_nil. by intros z (? & ?%not_elem_of_nil & _).
  - intros pre ct ch rest [p' a'] Hsplit Hct [Hsp Hrep]. cbn [fst snd app] in *.
    assert (ch ∈ kids root N d) as Hch by (apply Hm; rewrite Hsplit; apply elem_of_app; right; left).
    assert (ch ∉ pre) as Hnot.
    { rewrite Hsplit in Hnd. apply NoDup_app in Hnd as (_ & Hnd & _). intros ?. by eapply Hnd; [| left]. }
    assert (∀ a2, reported root N f a' (λ x, x ∈ subtree root N ch) a2 →
      reported root N f arg1 (below_any root N (pre ++ [ch])) a2) as Hext.
    { intros a2 H2. eapply (reported_kid root N Ht f d); [| done | done | exact Hrep | exact H2].
      intros c0 Hc0. apply Hm. rewrite Hsplit. apply elem_of_app. by left. }
    pose proof Hch as (Hchr & chn & Hchn & Hchp)%elem_of_kids. pose proof Hsp as (En & El & _).
    destruct (rep_live _ _ _ _ R ch ct Hct) as (n' & cx & ctx & Hn' & Ec). assert (n' = chn) as -> by congruence.
    assert (body ct (p', a') w = (let! host := host_of_rcu ct in
      if (DC_PATH_MAX <=? ndepth p')%nat then st_ret (p', a')
      else let! tx := dent_at ct in
           let path := {| ndepth := S (ndepth p'); comp := <[ndepth p' := d_iname tx]> (comp p') |} in
           let! x := walk_rec fuel (λ id p x, f id (pnames p) x) host path a' in
           let '(path, arg) := x in
           st_ret ({| ndepth := ndepth path - 1; comp := comp path |}, arg)) w) as -> by done.
    destruct (Nat.leb_spec DC_PATH_MAX (ndepth p')) as [Hfull | Hroom].
    + eexists. split; [by run (host_of_top _ _ _ _ R ch ct Hct) |]. split; [done |]. apply Hext.
      eapply (reported_deep root N Ht f d); [done | lia].
    + destruct (IH ch {| ndepth := S (ndepth p'); comp := <[ndepth p' := d_iname ctx]> (comp p') |} a')
        as ([p2 a2] & E2 & Hsp2 & Hrep2).
      * by eexists.
      * cbn [comp]. rewrite length_insert. lia.
      * cbn [ndepth]. lia.
      * rewrite pnames_push by lia. rewrite (same_path_names _ _ Hsp), Hnames.
        rewrite (npath_step _ _ Ht ch chn) by done. by rewrite Hchp, (en_name _ _ _ _ _ _ Ec).
      * cbn [ndepth]. lia.
      * eexists. split; [run (host_of_top _ _ _ _ R ch ct Hct); run (dent_at_run ct ctx w (en_top _ _ _ _ _ _ Ec));
          by run E2 |]. cbn [fst snd] in *.
        split; [| by apply Hext]. eapply (same_path_pop path p'); [done | lia | exact Hsp | exact Hsp2].
  - exists y. cbn [app] in *. split; [| split; [done | by eapply reported_subtree; [| | exact Hm | exact Hself | exact Hrep]]].
    eapply bind_run.
    { instantiate (1 := w). instantiate (1 := (0 <? ndepth path)%nat || negb (n_parent n =? d)).
      destruct (0 <? ndepth path)%nat; [done |]. run parent_of_run; [apply (en_host _ _ _ _ _ _ E) | done |].
      by rewrite (en_parent _ _ _ _ _ _ E). }
    cbn beta. eapply bind_run.
    { instantiate (1 := w). instantiate (1 := visit). unfold visit.
      destruct ((0 <? ndepth path)%nat || negb (n_parent n =? d)); [| done].
      erewrite node_is_positive_run; [| apply (en_host _ _ _ _ _ _ E) | done]. by rewrite (en_pos _ _ _ _ _ _ E). }
    cbn beta. run (dent_at_run d x w (en_host _ _ _ _ _ _ E)). rewrite (en_id _ _ _ _ _ _ E). fold arg1.
    run (first_run _ bw_sib set_sib C d b set_sib_id HC Hb). run gets_run. exact Ey.
Qed.

(** [dc_walk] reports every object once, with its identity and its path. *)
Lemma dc_walk_run {X} w N T P (f : Z → list (list Z) → X → X) path0 arg :
  rep w N T P → length (comp path0) = DC_PATH_MAX →
  ∃ L, NoDup L ∧ (∀ x, x ∈ L ↔ counted (bw_root w) N x) ∧
    dc_walk (λ id p x, f id (pnames p) x) path0 arg w = Ok (foldl (census_call (bw_root w) N f) arg L, w).
Proof.
  intros R Hsz. pose proof (rep_nest (S (bw_nest w)) _ _ _ _ R) as R1. set (w1 := set_nest _ w) in *.
  destruct (rep_root _ _ _ _ R) as (rn & Hr & _).
  destruct (walk_rec_run w1 N T P f R1 (S DC_PATH_MAX) (bw_root w1) (dc_path_reset path0) arg)
    as (r & Er & _ & Hrep); [by eexists | done | cbn [dc_path_reset ndepth]; lia | | lia |].
  { by rewrite npath_root by apply R1. }
  change (bw_root w1) with (bw_root w) in *.
  destruct (reported_all (bw_root w) N (r_tree _ _ _ _ R) f arg _ Hrep) as (L & Hnd & Hm & Ea).
  exists L. split_and!; [done | done |]. unfold dc_walk. eapply bind_run; [done |]. cbn beta. fold w1.
  run gets_run. run Er. unfold w1, st_bind, rcu_read_unlock, st_ret. bsimpl. rewrite Ea. by destruct w.
Qed.
