(* ===== verification/BlShrinkSpec.v ===== *)
(** The shrinker of the bucket-lock engine: what it frees was childless, settled
    and on the LRU, the rest of the name space stays. *)

From S2P Require Import Prelude Qstr HList Lru World Walk Namespace TreeOps Lifecycle.
From S2P Require Import BlChain BlLists BlLru BlLruSpec BlWorld BlWalk BlOps BlMove BlReclaim.
From S2P Require Import BlInv BlReads BlWalkSpec BlLocks BlRep BlSect.

(** ** The LRU under a shard's lock *)

Definition lru_locked (i : nat) (s : lru_state) (W : gmap Z Z) : Prop :=
  (∃ L, brep s L) ∧ locks s = <[i := 1]> (replicate DC_LRU_NODES 0) ∧ words s = W.

Lemma off_list_shrink i : (i < DC_LRU_NODES)%nat → off_list (DC_LRU_SHRINK i).
Proof.
  intros Hi j Hj E. assert (Z.land (DC_LRU_SHRINK i) DC_LRU_SHRINK_BIT = Z.land (DC_LRU_ON j) DC_LRU_SHRINK_BIT) as E' by (by rewrite E).
  destruct (on_bits j Hj) as (_ & Ej & _). destruct (on_bits i Hi) as (_ & Ei & _).
  unfold DC_LRU_SHRINK in E'. by rewrite Z.land_lor_distr_l, Ei, Ej in E'.
Qed.

Lemma shrink_not_killed i : (i < DC_LRU_NODES)%nat → Z.land (DC_LRU_SHRINK i) DC_LRU_KILL_BIT = 0.
Proof.
  intros Hi. unfold DC_LRU_SHRINK. rewrite Z.land_lor_distr_l. by destruct (on_bits i Hi) as (_ & _ & ->).
Qed.

Section shard.
Context (i : nat) (Hi : (i < DC_LRU_NODES)%nat).

Lemma wp_shard_lock s W : lru_is s W → wp (lru_lock i) (λ _ s', lru_locked i s' W) s.
Proof.
  intros ((L & HL) & Hu & HW). rewrite lru_lock_lock. wp_use wp_lru_lock; [apply HL | done | done |].
  intros _ s1 (Hl1 & Hn1 & Hk1). assert (words s1 = words s) as Hw1 by (by apply words_node).
  split_and!; [exists L; split; [done | rewrite Hw1; apply HL] | by rewrite Hk1, Hu | congruence].
Qed.

Lemma wp_shard_unlock s W : lru_locked i s W → wp (lru_unlock i) (λ _ s', lru_is s' W) s.
Proof.
  intros ((L & HL) & Hk & HW). rewrite lru_unlock_unlock. wp_use wp_lru_unlock; [apply HL | done | done |].
  intros _ s1 (Hl1 & Hn1 & Hu1). assert (words s1 = words s) as Hw1 by (by apply words_node).
  split_and!; [exists L; split; [done | rewrite Hw1; apply HL] | done | congruence].
Qed.

Lemma shard_head s W : lru_locked i s W →
  ∃ o, one_load i s = Ok (o, s) ∧ (lo_head o = 0 ∨ lo_head o ≠ 0 ∧ W !! lo_head o = Some (DC_LRU_ON i)).
Proof.
  intros ((L & [Hl Hw]) & _ & <-). destruct (llists_lookup s L i Hl Hi) as (o & Ho & Hs & _).
  exists o. split; [unfold one_load; by rewrite Ho |]. destruct (L i) as [| d l] eqn:E; [by left | right].
  simpl in Hs. destruct Hs as (-> & H0 & _). split; [done |]. apply Hw. rewrite E. left.
Qed.

Lemma shard_ref s W d f : lru_locked i s W → is_Some (ls_node s !! d) →
  (∀ n, l_prev (f n) = l_prev n ∧ l_next (f n) = l_next n ∧ l_shard (f n) = l_shard n) →
  wp (lnode_store d f) (λ _ s', lru_locked i s' W) s.
Proof.
  intros ((L & HL) & Hk & HW) [n Hn] Hf. eapply wp_run; [by eapply lnode_store_ok |].
  assert (words {| ls_one := ls_one s; ls_node := alter f d (ls_node s) |} = words s) as E.
  { apply words_alter. intros m. apply Hf. }
  split_and!; [| done | congruence]. exists L. split; [| rewrite E; apply HL].
  apply llists_set_node; [apply HL |]. intros m. by destruct (Hf m) as (? & ? & _).
Qed.

Lemma wp_shard_unlink s W d newst :
  lru_locked i s W → W !! d = Some (DC_LRU_ON i) → off_list newst →
  wp (lru_unlink_locked_to i d newst) (λ _ s', lru_locked i s' (<[d := newst]> W)) s.
Proof.
  intros ((L & HL) & Hk & <-) Hd Hoff. rewrite lru_unlink_del. wp_use wp_lru_del_locked; [apply HL | by apply HL |].
  intros _ s1 (L' & Hl1 & Hm & Hw1 & _ & Hk1). split_and!; [| congruence | done]. exists L'. by eapply brep_unlinked.
Qed.

Lemma wp_shard_link s W d v :
  lru_locked i s W → W !! d = Some v → off_list v → d ≠ 0 →
  wp (lru_link_tail_locked i d) (λ _ s', lru_locked i s' (<[d := DC_LRU_ON i]> W)) s.
Proof.
  intros ((L & HL) & Hk & <-) Hd Hoff H0. pose proof (brep_off s L d v HL Hd Hoff) as Hfresh.
  destruct (words_lookup_inv _ _ _ Hd) as (n & Hn & _). unfold lru_link_tail_locked. wp_step. rewrite lru_enqueue_link.
  wp_use wp_lru_link_tail_locked; [apply HL | done | done | done | by eexists |].
  intros _ s1 (Hl1 & Hw1 & _ & Hk1). destruct (words_lookup_inv s1 d v) as (n1 & Hn1 & _); [congruence |].
  eapply wp_run; [by eapply lnode_store_ok |].
  assert (words {| ls_one := ls_one s1; ls_node := alter (set_lshard (DC_LRU_ON i)) d (ls_node s1) |}
          = <[d := DC_LRU_ON i]> (words s)) as Hw2 by (rewrite <- Hw1; by eapply words_set_shard).
  split_and!; [| by rewrite <- Hk, <- Hk1 | done]. eexists. eapply brep_linked; [exact HL | done | done | by apply llists_set_node | done].
Qed.

Lemma wp_shard_rotate s W d :
  lru_locked i s W → W !! d = Some (DC_LRU_ON i) → d ≠ 0 →
  wp (lru_rotate_locked i d) (λ _ s', lru_locked i s' W) s.
Proof.
  intros ((L & HL) & Hk & <-) Hd H0. unfold lru_rotate_locked, lru_link_tail_locked. rewrite lru_unlink_del.
  wp_step. wp_use wp_lru_del_locked; [apply HL | by apply HL |].
  intros _ s1 (L' & Hl1 & Hm & Hw1 & _ & Hk1). rewrite insert_id in Hw1 by done.
  destruct (words_lookup_inv s1 d (DC_LRU_ON i)) as (n1 & Hn1 & _); [congruence |].
  wp_step. rewrite lru_enqueue_link. wp_use wp_lru_link_tail_locked;
    [exact Hl1 | done | by intros j [_ ?]%Hm | done | by eexists |].
  intros _ s2 (Hl2 & Hw2 & _ & Hk2). destruct (words_lookup_inv s2 d (DC_LRU_ON i)) as (n2 & Hn2 & _); [congruence |].
  eapply wp_run; [by eapply lnode_store_ok |].
  assert (words {| ls_one := ls_one s2; ls_node := alter (set_lshard (DC_LRU_ON i)) d (ls_node s2) |} = words s) as Hw3.
  { rewrite (words_set_shard s2 _ d _ n2 Hn2), Hw2, Hw1. by apply insert_id. }
  split_and!; [| by rewrite <- Hk, <- Hk1, <- Hk2 | done]. eexists. split; [by apply llists_set_node |]. rewrite Hw3. intros j x.
  destruct HL as [Hl Hw]. rewrite <- Hw. destruct (decide (i = j)) as [<- | Hne].
  - rewrite fn_lookup_insert, elem_of_app, list_elem_of_singleton, Hm. split; [| destruct (decide (x = d)); tauto].
    intros [[? _] | ->]; [done |]. by apply Hw.
  - rewrite fn_lookup_insert_ne, Hm by done. split; [tauto |]. intros Hx. split; [done |]. intros ->.
    apply Hne. eapply (ll_disj _ _ Hl); [| exact Hx]. by apply Hw.
Qed.

Lemma wp_shard_release s W d v v' :
  lru_locked i s W → W !! d = Some v → off_list v → off_list v' →
  wp (lnode_store d (set_lshard v')) (λ _ s', lru_locked i s' (<[d := v']> W)) s.
Proof.
  intros ((L & HL) & Hk & <-) Hd Hoff Hoff'. destruct (words_lookup_inv _ _ _ Hd) as (n & Hn & _).
  eapply wp_run; [by eapply lnode_store_ok |].
  assert (words {| ls_one := ls_one s; ls_node := alter (set_lshard v') d (ls_node s) |} = <[d := v']> (words s)) as E
    by (by eapply words_set_shard).
  split_and!; [| done | done]. exists L. eapply (brep_words s); eauto. apply llists_set_node; [apply HL | done].
Qed.
End shard.

(** ** Code that does not look at the LRU *)

Class LruBlind {A} (m : M A) : Prop := lru_blind : ∀ s w,
  m (set_lru s w) = match m w with Ok (a, w') => Ok (a, set_lru s w') | Err e => Err e end.

#[export] Instance blind_ret {A} (a : A) : LruBlind (st_ret a).
Proof. done. Qed.
#[export] Instance blind_fault {A} e : LruBlind (st_fault e : M A).
Proof. done. Qed.
#[export] Instance blind_bind {A B} (m : M A) (f : A → M B) :
  LruBlind m → (∀ a, LruBlind (f a)) → LruBlind (st_bind m f).
Proof. intros Hm Hf s w. unfold st_bind. rewrite Hm. destruct (m w) as [[a w'] |]; [apply Hf | done]. Qed.
#[export] Instance blind_hash {A} (m : ST chn A) : LruBlind (on_hash m).
Proof. intros s w. unfold on_hash, st_zoom. bsimpl. by destruct (m (bw_hash w)) as [[? ?] |]. Qed.
#[export] Instance blind_sib {A} (m : ST chn A) : LruBlind (on_sib m).
Proof. intros s w. unfold on_sib, st_zoom. bsimpl. by destruct (m (bw_sib w)) as [[? ?] |]. Qed.
#[export] Instance blind_dent d : LruBlind (dent_at d).
Proof. intros s w. unfold dent_at, st_lookup. bsimpl. by destruct (bw_dent w !! d). Qed.
#[export] Instance blind_bucket p h : LruBlind (bucket_of p h).
Proof. done. Qed.
#[export] Instance blind_read v : LruBlind (bl_read v).
Proof. unfold bl_read. destruct (_ =? _); apply _. Qed.
#[export] Instance blind_if {A} (b : bool) (m1 m2 : M A) :
  LruBlind m1 → LruBlind m2 → LruBlind (if b then m1 else m2).
Proof. by destruct b. Qed.
#[export] Instance blind_iter {X} (f : X → M unit) l : (∀ x, LruBlind (f x)) → LruBlind (st_iter f l).
Proof. intros Hf. induction l; simpl; apply _. Qed.
#[export] Instance blind_lock_head h : LruBlind (lock_head h).
Proof. destruct h; apply _. Qed.
#[export] Instance blind_unlock_head h : LruBlind (unlock_head h).
Proof. destruct h; apply _. Qed.

Lemma blind_evict `{Layout} d : LruBlind (lru_evict_settled d).
Proof. unfold lru_evict_settled, parent_of_rcu, children_empty, bl_lock_n, bl_unlock_n. apply _. Qed.

Lemma blind_children d : LruBlind (children_empty d).
Proof. unfold children_empty. apply _. Qed.

(** Its run with another LRU is its run, with that LRU kept. *)
Lemma wp_blind {A} (m : M A) `{!LruBlind m} s w (Q : A → bworld → Prop) :
  wp m (λ a w', bw_lru w' = bw_lru w → Q a (set_lru s w')) w → wp m Q (set_lru s w).
Proof.
  unfold wp. rewrite lru_blind. pose proof (lru_blind (bw_lru w) w) as E.
  replace (set_lru (bw_lru w) w) with w in E by (by destruct w).
  destruct (m w) as [[a w'] |]; [| done]. injection E as E. intros HQ. apply HQ. by rewrite E.
Qed.

Section evict.
Context `{HL : Layout} `{!LayoutOk HL}.

(** ** The eviction of one entry *)

(** [lru_evict_settled]: the entry stays, or it was childless, is out of the name
    space and still allocated. *)
Lemma wp_evict k w N T d n :
  binv k w N T → N !! d = Some n →
  wp (lru_evict_settled d) (λ r w', bw_root w' = bw_root w ∧ bw_mask w' = bw_mask w ∧ bw_dent w' = bw_dent w ∧
    bw_rcu w' = bw_rcu w ∧
    ((r = - EAGAIN ∧ binv k w' N T) ∨
     (r = 0 ∧ d ≠ bw_root w ∧ kids (bw_root w) N d = [] ∧ sect k w' (delete d N) (delete d T) {[d]} ∅ []))) w.
Proof.
  intros Hi Hn. pose proof (bi_rep _ _ _ _ Hi) as R. destruct (rep_top _ _ _ _ R d n Hn) as (t & x & tx & Ht & E).
  destruct (entry_ok _ _ _ _ R d n t x tx Ht Hn E) as [Hok Htok]. destruct (top_aligned _ _ _ _ R d t Ht) as [_ Ht0].
  assert (∀ r, r = - EAGAIN → wp (st_ret r) (λ r w', bw_root w' = bw_root w ∧ bw_mask w' = bw_mask w ∧
    bw_dent w' = bw_dent w ∧ bw_rcu w' = bw_rcu w ∧ ((r = - EAGAIN ∧ binv k w' N T) ∨
    (r = 0 ∧ d ≠ bw_root w ∧ kids (bw_root w) N d = [] ∧ sect k w' (delete d N) (delete d T) {[d]} ∅ []))) w) as Hno.
  { intros r ->. wp_step. split_and!; try done. by left. }
  unfold lru_evict_settled. wp_step. eapply wp_lookup; [apply (en_host _ _ _ _ _ _ E) |].
  destruct (dtop_val_read w N T ∅ R d t x tx n Ht Hn E) as [Er _]. wp_step. eapply wp_run; [exact Er |].
  destruct (Z.eqb_spec (dtop_val d t) 0) as [E0 | _]; cbn [negb orb]; [| by apply Hno].
  assert (t = d) as ->.
  { unfold dtop_val in E0. destruct (Z.eqb_spec t d); [done |]. contradiction. }
  assert (tx = x) as -> by (pose proof (en_host _ _ _ _ _ _ E); pose proof (en_top _ _ _ _ _ _ E); congruence).
  destruct (Z.eqb_spec (d_fwd x) 0) as [_ | _]; cbn [negb]; [| by apply Hno].
  wp_step. eapply wp_run; [apply (parent_of_run w d x); [apply (en_host _ _ _ _ _ _ E) | done] |].
  rewrite (en_parent _ _ _ _ _ _ E).
  destruct (Z.eqb_spec (n_parent n) 0) as [_ | Hp0]; cbn [orb]; [by apply Hno |].
  destruct (Z.eqb_spec (n_parent n) d) as [_ | Hpd]; [by apply Hno |].
  assert (d ≠ bw_root w) as Hdr.
  { intros ->. destruct (rep_root _ _ _ _ R) as (rn & Hr & Hrp & _). congruence. }
  wp_step. apply wp_gets.
  assert (bucket_index (bw_mask w) (n_parent n) (q_hash (d_iname x)) = node_bucket (bw_mask w) n) as ->.
  { unfold node_bucket. by rewrite <- (en_name _ _ _ _ _ _ E), (qw_hash _ (dk_name _ Hok)). }
  wp_step. eapply wp_sect_lock_n; [by apply sect_binv | |].
  { intros hd. rewrite !elem_of_cons, elem_of_nil. intros Hd. destruct_or! Hd; subst hd; try done;
      [by eapply heads_bucket | eapply heads_child; [exact R |]; by eapply tree_parent; [apply R |] |
       eapply heads_child; [exact R |]; by eexists]. }
  intros w1 Hl1 S1 Hok1. destruct (relock_same _ _ Hl1) as (Em1 & Er1 & _ & Ed1 & El1 & Eq1 & _).
  pose proof (se_rep _ _ _ _ _ _ _ S1) as R1. wp_step. eapply wp_run; [by eapply (live_run w1 N T ∅ R1 d d) |]. cbn iota.
  wp_step. wp_step. eapply wp_run; [apply (children_empty_run w1 N T ∅ R1); by eexists |]. rewrite Er1.
  case_bool_decide as Hk; cbn [negb].
  2:{ wp_step. wp_step. eapply wp_sect_unlock_n; [exact S1 | exact Hok1 |]. intros w2 Hl2 S2.
      destruct (relock_same _ _ Hl2) as (Em2 & Er2 & _ & Ed2 & El2 & Eq2 & _). wp_step.
      split_and!; try congruence. left. split; [done |]. by apply sect_binv. }
  wp_step. eapply wp_lookup; [rewrite Ed1; apply (en_host _ _ _ _ _ _ E) |].
  destruct (dtop_val_read w1 N T ∅ R1 d d x x n Ht Hn) as [Er' _]; [by rewrite Ed1 |].
  wp_step. eapply wp_run; [exact Er' |]. unfold dtop_val at 1. rewrite Z.eqb_refl. cbn [negb]. wp_step. cbn iota.
  apply (wp_assoc _ (λ _, _)). wp_use (wp_withdraw k w1 N T ∅ ∅ _ d n d); [exact S1 | exact Hok1 | done | done | by rewrite Er1 | by rewrite Er1 |].
  intros [] w2 (S2 & Hok2 & Er2 & Em2 & El2 & Ed2 & Eq2). rewrite union_empty_r_L in S2.
  wp_step. eapply wp_sect_unlock_n; [exact S2 | exact Hok2 |]. intros w3 Hl3 S3.
  destruct (relock_same _ _ Hl3) as (Em3 & Er3 & _ & Ed3 & El3 & Eq3 & _). wp_step.
  split_and!; try congruence. right. by split_and!.
Qed.

(** ** One step of the sweep *)

Lemma lru_rep_same D N P s s' : lru_rep D N P s → lru_is s' (words s) → lru_rep D N P s'.
Proof. intros [Hs Hd Hw] Hs'. pose proof Hs' as (_ & _ & E). split; by rewrite E. Qed.

Lemma binv_set_lru k w N T s : binv k w N T → lru_rep (dom (bw_dent w)) N ∅ s → binv k (set_lru s w) N T.
Proof. intros [] Hs. split; bsimpl; try done. by apply rep_set_lru. Qed.

Lemma sect_set_lru k w N T P V hs s :
  sect k w N T P V hs → lru_rep (dom (bw_dent w)) N P s → sect k (set_lru s w) N T P V hs.
Proof. intros [] Hs. split; bsimpl; try done. by apply rep_set_lru. Qed.

(** What is on a list is in the name space. *)
Lemma on_alive D N s d i :
  lru_rep D N ∅ s → (i < DC_LRU_NODES)%nat → words s !! d = Some (DC_LRU_ON i) → is_Some (N !! d).
Proof.
  intros Hlr Hin Hd. pose proof (lr_word _ _ _ _ Hlr d _ Hd) as Hw. unfold word_is in Hw.
  destruct (N !! d) as [n |]; [by eexists |]. destruct Hw as [E | [E | [Hx _]]].
  - by destruct (off_list_off i Hin).
  - by destruct (off_list_dead i Hin).
  - by apply not_elem_of_empty in Hx.
Qed.

(** Entries [K] were evicted, and nothing else changed. *)
Record evicted (k : nat) (w : bworld) (N : nspace) (K : gset Z) (w' : bworld) : Prop := {
  ev_inv : ∃ T, binv k w' (without K N) T;
  ev_root : bw_root w' = bw_root w;
  ev_mask : bw_mask w' = bw_mask w;
  ev_out : bw_root w ∉ K;
  ev_sub : K ⊆ dom N;
}.

Lemma evicted_refl k w N T : binv k w N T → evicted k w N ∅ w.
Proof.
  intros Hi. split; [exists T; by rewrite without_empty | done | done | apply not_elem_of_empty | apply empty_subseteq].
Qed.

Lemma evicted_trans k w N K w1 K' w2 :
  evicted k w N K w1 → evicted k w1 (without K N) K' w2 →
  evicted k w N (K ∪ K') w2 ∧ size (K ∪ K') = (size K + size K')%nat.
Proof.
  intros [_ Hr1 Hm1 Ho1 Hs1] [(T & Hi) Hr2 Hm2 Ho2 Hs2].
  assert (K ## K') as Hd.
  { intros d Hd Hd'. apply Hs2, elem_of_dom in Hd' as [n [_ Hn]%map_lookup_filter_Some]. done. }
  split; [| by apply size_union]. split; [| congruence | congruence | |].
  - exists T. rewrite <- without_without. exact Hi.
  - rewrite Hr1 in Ho2. rewrite elem_of_union. tauto.
  - intros d [? | Hd']%elem_of_union; [by apply Hs1 |].
    apply Hs2, elem_of_dom in Hd' as [n [Hn _]%map_lookup_filter_Some]. apply elem_of_dom. eauto.
Qed.

(** What a step leaves: it freed nothing, or one childless entry. *)
Definition swept (k : nat) (w : bworld) (N : nspace) (r : option Z) (w' : bworld) : Prop :=
  ∃ K, evicted k w N K w' ∧ default 0 r = Z.of_nat (size K) ∧ (size K ≤ 1)%nat.

Lemma wp_swept_none k w w1 N T s r :
  binv (S k) w1 N T → lru_rep (dom (bw_dent w1)) N ∅ s → bw_root w1 = bw_root w → bw_mask w1 = bw_mask w →
  default 0 r = 0 →
  wp (rcu_read_unlock ;;; st_ret r) (swept k w N) (set_lru s w1).
Proof.
  intros Hi Hs Er Em Hr. wp_step. eapply wp_rcu_leave; [apply sect_binv; by apply binv_set_lru |].
  intros S. wp_step. exists ∅. rewrite size_empty. split_and!; [| done | lia].
  apply sect_binv in S. destruct (evicted_refl _ _ _ _ S). by split.
Qed.

(** The victim goes to the shrinker's private state, and comes back or is freed. *)
Lemma wp_shrink_victim k w w1 N T i d s W :
  binv (S k) w1 N T → (i < DC_LRU_NODES)%nat → bw_root w1 = bw_root w → bw_mask w1 = bw_mask w →
  W = words (bw_lru w1) → lru_locked i s W → W !! d = Some (DC_LRU_ON i) → d ≠ 0 →
  wp (on_lru (lru_shrink_move_locked i d) ;;;
      on_lru (lru_unlock i) ;;;
      let! e := lru_evict_settled d in
      if e =? 0 then
        on_lru (lru_lock i) ;;;
        on_lru (lru_shrink_release_locked d) ;;;
        on_lru (lru_unlock i) ;;;
        dc_reclaim d ;;;
        rcu_read_unlock ;;;
        st_ret (Some 1)
      else
        on_lru (lru_lock i) ;;;
        let! n := on_lru (st_lookup ls_node d) in
        if negb (Z.land (l_shard n) DC_LRU_KILL_BIT =? 0) then
          on_lru (lru_shrink_release_locked d) ;;;
          on_lru (lru_unlock i) ;;;
          dc_reclaim d ;;;
          rcu_read_unlock ;;;
          st_ret (Some 1)
        else
          on_lru (lru_link_tail_locked i d) ;;;
          on_lru (lru_unlock i) ;;;
          rcu_read_unlock ;;;
          st_ret (Some 0)) (swept k w N) (set_lru s w1).
Proof.
  intros Hi Hin Er Em EW Hs Hd H0. pose proof (bi_rep _ _ _ _ Hi) as R. pose proof (r_lru _ _ _ _ R) as Hlr.
  assert (is_Some (N !! d)) as [n Hn] by (eapply on_alive; [exact Hlr | exact Hin | by rewrite <- EW]).
  pose proof (off_list_shrink i Hin) as Hsh.
  wp_step. apply wp_zoom. bsimpl. wp_use (wp_shard_unlink i Hin s W d); [exact Hs | done | exact Hsh |]. intros _ s1 Hs1.
  wp_step. apply wp_zoom. bsimpl. wp_use (wp_shard_unlock i); [done | exact Hs1 |]. intros _ s2 Hs2.
  change (set_lru s2 _) with (set_lru s2 w1). wp_step. apply wp_blind; [apply blind_evict |].
  wp_use (wp_evict (S k) w1 N T d n); [done | done |]. intros r w2 (Er2 & Em2 & Ed2 & Eq2 & Hr) El2.
  pose proof (lookup_insert_eq W d (DC_LRU_SHRINK i)) as Hd2.
  destruct Hr as [[-> Hi2] | (-> & Hdr & Hk & S2)].
  - change (- EAGAIN =? 0) with false. cbn iota.
    wp_step. apply wp_zoom. bsimpl. wp_use (wp_shard_lock i); [done | exact Hs2 |]. intros _ s3 Hs3.
    destruct (words_lookup_inv s3 d (DC_LRU_SHRINK i)) as (ln & Hln & Hsw).
    { destruct Hs3 as (_ & _ & ->). exact Hd2. }
    wp_step. apply wp_zoom. bsimpl. eapply wp_lookup; [exact Hln |]. rewrite Hsw, shrink_not_killed by done.
    change (0 =? 0) with true. cbn [negb].
    wp_step. apply wp_zoom. bsimpl. wp_use (wp_shard_link i); [done | exact Hs3 | exact Hd2 | exact Hsh | done |]. intros _ s4 Hs4.
    rewrite insert_insert_eq, insert_id in Hs4 by done.
    wp_step. apply wp_zoom. bsimpl. wp_use (wp_shard_unlock i); [done | exact Hs4 |]. intros _ s5 Hs5.
    change (set_lru s5 _) with (set_lru s5 w2). eapply wp_swept_none; [exact Hi2 | | congruence | congruence | done].
    eapply lru_rep_same; [apply (r_lru _ _ _ _ (bi_rep _ _ _ _ Hi2)) |]. by rewrite El2, <- EW.
  - change (0 =? 0) with true. cbn iota.
    wp_step. apply wp_zoom. bsimpl. wp_use (wp_shard_lock i); [done | exact Hs2 |]. intros _ s3 Hs3.
    wp_step. apply wp_zoom. bsimpl. unfold lru_shrink_release_locked.
    wp_use (wp_shard_release i); [exact Hs3 | exact Hd2 | exact Hsh | apply off_list_dead |]. intros _ s4 Hs4.
    rewrite insert_insert_eq in Hs4.
    wp_step. apply wp_zoom. bsimpl. wp_use (wp_shard_unlock i); [done | exact Hs4 |]. intros _ s5 Hs5.
    change (set_lru s5 _) with (set_lru s5 w2). destruct (rep_node _ _ _ _ d n R Hn) as (x & Hx & Hxok & _ & _ & Hxs & _).
    assert (d ∈ dom (bw_dent w2)) as HdD by (rewrite Ed2; apply elem_of_dom; eauto).
    assert (sect (S k) (set_lru s5 w2) (delete d N) (delete d T) {[d]} ∅ []) as S5.
    { apply sect_set_lru; [done |]. eapply lru_rep_word; [apply (r_lru _ _ _ _ (se_rep _ _ _ _ _ _ _ S2)) | | done |].
      - rewrite El2, <- EW. exact Hs5.
      - unfold word_is. rewrite lookup_delete_eq. by right; left. }
    wp_step. unfold dc_reclaim. wp_use wp_queue_free; [exact S5 | by apply elem_of_singleton | bsimpl; rewrite Ed2; exact Hx | done | done | | | by right |].
    + bsimpl. rewrite Eq2. eapply host_not_queued; [exact R | apply (bi_rcu _ _ _ _ Hi) | exact Hn].
    + bsimpl. destruct Hs5 as (_ & _ & ->). apply lookup_insert_eq.
    + intros [] w6 (S6 & Er6 & Em6 & _). rewrite minus_self in S6.
      wp_step. eapply wp_rcu_leave; [exact S6 |]. intros S7. wp_step. exists {[d]}. rewrite size_singleton. split_and!; [| done | done].
      split; [exists (delete d T) | bsimpl in *; congruence | bsimpl in *; congruence | |].
      * apply sect_binv. replace (without {[d]} N) with (delete d N); [exact S7 |].
        rewrite <- (without_empty N) at 1. rewrite without_delete. by rewrite union_empty_l_L.
      * rewrite <- Er. intros Hd0%elem_of_singleton. congruence.
      * intros y ->%elem_of_singleton. apply elem_of_dom. eauto.
Qed.

Lemma wp_shrink_one k w N T i :
  binv k w N T → (i < DC_LRU_NODES)%nat → wp (shrink_one i) (swept k w N) w.
Proof.
  intros Hi Hin. unfold shrink_one. wp_step. apply wp_mod. pose proof (binv_enter _ _ _ _ Hi) as Hi1.
  set (w1 := set_nest _ w) in *. pose proof (bi_rep _ _ _ _ Hi1) as R. pose proof (r_lru _ _ _ _ R) as Hlr.
  wp_step. apply wp_zoom. wp_use (wp_shard_lock i); [done | apply Hlr |]. intros _ s1 Hs1.
  set (W := words (bw_lru w1)) in *. destruct (shard_head i Hin s1 W Hs1) as (o & Eo & Ho).
  wp_step. apply wp_zoom. bsimpl. eapply wp_run; [exact Eo |]. change (set_lru s1 (set_lru s1 w1)) with (set_lru s1 w1).
  set (d := lo_head o) in *. destruct Ho as [-> | [H0 Hd]].
  { rewrite Z.eqb_refl. wp_step. apply wp_zoom. bsimpl. wp_use (wp_shard_unlock i); [done | exact Hs1 |]. intros _ s2 Hs2.
    eapply (wp_swept_none k w w1 N T s2 None); [done | by eapply lru_rep_same | done | done | done]. }
  destruct (Z.eqb_spec d 0) as [? | _]; [contradiction |].
  destruct (words_lookup_inv s1 d (DC_LRU_ON i)) as (ln & Hln & _).
  { destruct Hs1 as (_ & _ & ->). exact Hd. }
  wp_step. apply wp_zoom. bsimpl. eapply wp_lookup; [exact Hln |]. change (set_lru s1 (set_lru s1 w1)) with (set_lru s1 w1).
  destruct (l_referenced ln); cbn [when].
  - wp_step. apply wp_zoom. bsimpl. wp_use (shard_ref i s1 W d); [done | by eexists | done |]. intros _ s2 Hs2.
    wp_step. apply wp_zoom. bsimpl. wp_use (wp_shard_rotate i Hin s2 W d); [done | done | done |]. intros _ s3 Hs3.
    wp_step. apply wp_zoom. bsimpl. wp_use (wp_shard_unlock i); [done | exact Hs3 |]. intros _ s4 Hs4.
    eapply (wp_swept_none k w w1 N T s4); [done | by eapply lru_rep_same | done | done | done].
  - wp_step. wp_step. wp_step. apply wp_blind; [apply blind_children |].
    assert (is_Some (N !! d)) as Hdn by (by eapply on_alive).
    eapply wp_run; [by apply (children_empty_run w1 N T ∅ R) |]. intros _.
    case_bool_decide as Hk; cbn [negb].
    + by eapply (wp_shrink_victim k w w1 N T i d s1 W).
    + wp_step. apply wp_zoom. bsimpl. unfold lru_unlink_locked.
      wp_use (wp_shard_unlink i Hin s1 W d); [done | done | apply off_list_off |]. intros _ s2 Hs2.
      wp_step. apply wp_zoom. bsimpl. wp_use (wp_shard_unlock i); [done | exact Hs2 |]. intros _ s3 Hs3.
      eapply (wp_swept_none k w w1 N T s3); [done | | done | done | done]. destruct Hdn as [n Hn].
      eapply lru_rep_word; [exact Hlr | exact Hs3 | eapply elem_of_dom; by eapply rep_dom_N |].
      unfold word_is. rewrite Hn. by left.
Qed.

(** ** The sweep *)

Lemma wp_shrink_shard_bl k i nr : (i < DC_LRU_NODES)%nat → ∀ left freed w N T,
  binv k w N T → freed ≤ nr →
  wp (shrink_shard left i nr freed) (λ f w', ∃ K, evicted k w N K w' ∧ f = freed + Z.of_nat (size K) ∧ f ≤ nr) w.
Proof.
  intros Hin. induction left as [| left IH]; intros freed w N T Hi Hf; cbn [shrink_shard];
    (destruct (Z.ltb_spec freed nr) as [Hlt | Hge];
      [| wp_step; exists ∅; rewrite size_empty; split_and!; [by eapply evicted_refl | lia | done]]).
  { wp_step. exists ∅. rewrite size_empty. split_and!; [by eapply evicted_refl | lia | done]. }
  wp_step. wp_use (wp_shrink_one k w N T i); [done | done |]. intros r w1 (K & HK & Hr & Hle).
  destruct r as [m |].
  - change (default 0 (Some m)) with m in Hr. destruct (ev_inv _ _ _ _ _ HK) as [T1 Hi1].
    wp_use (IH (freed + m) w1 (without K N) T1); [done | lia |]. intros f w2 (K' & HK' & -> & Hnr).
    destruct (evicted_trans _ _ _ _ _ _ _ HK HK') as [HKK Hsz]. exists (K ∪ K'). split_and!; [done | lia | done].
  - change (default 0 None) with 0 in Hr. wp_step. exists K. split_and!; [done | lia | done].
Qed.

Lemma wp_shrink_shards_bl k nr : ∀ m i freed w N T,
  binv k w N T → (i + m ≤ DC_LRU_NODES)%nat → freed ≤ nr →
  wp (shrink_shards m i nr freed) (λ f w', ∃ K, evicted k w N K w' ∧ f = freed + Z.of_nat (size K) ∧ f ≤ nr) w.
Proof.
  induction m as [| m IH]; intros i freed w N T Hi Hin Hf; cbn [shrink_shards].
  { wp_step. exists ∅. rewrite size_empty. split_and!; [by eapply evicted_refl | lia | done]. }
  destruct (freed <? nr).
  2:{ wp_step. exists ∅. rewrite size_empty. split_and!; [by eapply evicted_refl | lia | done]. }
  destruct (lr_is _ _ _ _ (r_lru _ _ _ _ (bi_rep _ _ _ _ Hi))) as ((L & [Hl _]) & _ & _).
  destruct (llists_lookup _ L i Hl) as (o & Ho & _); [lia |].
  wp_step. apply wp_zoom. eapply wp_run; [by unfold one_load; rewrite Ho |].
  replace (set_lru (bw_lru w) w) with w by (by destruct w).
  wp_step. wp_use (wp_shrink_shard_bl k i nr); [lia | done | done |]. intros f w1 (K & HK & -> & Hnr).
  destruct (ev_inv _ _ _ _ _ HK) as [T1 Hi1].
  wp_use (IH (S i)); [done | lia | done |]. intros f w2 (K' & HK' & -> & Hnr').
  destruct (evicted_trans _ _ _ _ _ _ _ HK HK') as [HKK Hsz]. exists (K ∪ K'). split_and!; [done | lia | done].
Qed.

Lemma nlru_size k w N T : binv k w N T → length (ls_one (bw_lru w)) = DC_LRU_NODES.
Proof. intros Hi. destruct (lr_is _ _ _ _ (r_lru _ _ _ _ (bi_rep _ _ _ _ Hi))) as ((L & [Hl _]) & _ & _). apply Hl. Qed.

Lemma wp_bl_shrink k w N T nr :
  binv k w N T →
  wp (dc_shrink nr) (λ f w', ∃ K, evicted k w N K w' ∧ f = Z.of_nat (size K) ∧ f ≤ Z.max 0 nr) w.
Proof.
  intros Hi. unfold dc_shrink. destruct (Z.leb_spec nr 0).
  { wp_step. exists ∅. rewrite size_empty. split_and!; [by eapply evicted_refl | done | lia]. }
  wp_step. apply wp_gets. rewrite (nlru_size _ _ _ _ Hi). unfold lru_shrink_range.
  wp_use (wp_shrink_shards_bl k nr); [done | lia | lia |]. intros f w' (K & HK & -> & Hnr). exists K. split_and!; [done | lia | lia].
Qed.

Lemma wp_bl_shrink_local k w N T nr :
  binv k w N T →
  wp (dc_shrink_local nr) (λ f w', ∃ K, evicted k w N K w' ∧ f = Z.of_nat (size K) ∧ f ≤ Z.max 0 nr) w.
Proof.
  intros Hi. unfold dc_shrink_local. destruct (Z.leb_spec nr 0).
  { wp_step. exists ∅. rewrite size_empty. split_and!; [by eapply evicted_refl | done | lia]. }
  wp_step. apply wp_gets. wp_step. apply wp_zoom.
  eapply wp_run; [apply shard_index_run; by eapply nlru_size |]. replace (set_lru (bw_lru w) w) with w by (by destruct w).
  unfold lru_shrink_range. pose proof (lru_nid_lt (bw_node w)).
  wp_use (wp_shrink_shards_bl k nr); [done | lia | lia |]. intros f w' (K & HK & -> & Hnr). exists K. split_and!; [done | lia | lia].
Qed.
End evict.
