(* ===== verification/BlDeadlock.v ===== *)
(** Threads that take their list heads with [bl_lock_n] at the same time.

    The engine's writers block nowhere else while they hold a head: [bl_lock_n] is
    called with no head held, a moving host is claimed before it without waiting,
    and the LRU locks are released before a head is taken.  A thread is the run of
    one critical section: the heads of [lock_order] are taken one by one, each when
    no thread holds it, the section runs, and the heads are released one by one. *)

From stdpp Require Import relations sorting.
From S2P Require Import Prelude BlChain BlWorld BlReclaim BlInv BlLocks.

Inductive thread :=
  | Locking (held todo : list head)
  | Unlocking (held : list head).

#[export] Instance thread_eq_dec : EqDecision thread.
Proof. solve_decision. Defined.

Definition holds (t : thread) : list head :=
  match t with Locking held _ => held | Unlocking held => held end.

Definition finished (t : thread) : Prop := t = Unlocking [].
#[export] Instance finished_dec t : Decision (finished t).
Proof. unfold finished. apply _. Defined.

(** The lock bit of [h] is clear. *)
Definition bit_clear (ts : list thread) (h : head) : Prop := ∀ t, t ∈ ts → h ∉ holds t.

(** One thread moves. *)
Inductive tstep : list thread → list thread → Prop :=
  | step_lock ts i held h todo :
      ts !! i = Some (Locking held (h :: todo)) → bit_clear ts h →
      tstep ts (<[i := Locking (held ++ [h]) todo]> ts)
  | step_work ts i held :
      ts !! i = Some (Locking held []) → tstep ts (<[i := Unlocking held]> ts)
  | step_unlock ts i h held :
      ts !! i = Some (Unlocking (h :: held)) → tstep ts (<[i := Unlocking held]> ts).

Section deadlock.
Context `{HL : Layout} `{!LayoutOk HL}.

(** The threads, each about to lock its batch of heads. *)
Definition start (batches : list (list head)) : list thread :=
  (λ hs, Locking [] (lock_order hs)) <$> batches.

(** What is left to do: a head to take is to be released too. *)
Definition cost (t : thread) : nat :=
  match t with
  | Locking held todo => 2 * length todo + length held + 1
  | Unlocking held => length held
  end.
Definition total (ts : list thread) : nat := sum_list_with cost ts.

Lemma total_insert ts i t t' :
  ts !! i = Some t → (cost t = S (cost t') → total ts = S (total (<[i := t']> ts)))%nat.
Proof.
  revert i. induction ts as [| x ts IH]; intros [| i] Hi Hc; simplify_eq/=; [lia |].
  unfold total in *. simpl. rewrite (IH i); [lia | done | done].
Qed.

(** Every step is progress. *)
Lemma tstep_total ts ts' : tstep ts ts' → total ts = S (total ts').
Proof.
  intros []; (eapply total_insert; [done |]); simpl; rewrite ?length_app; simpl; lia.
Qed.

Lemma total_zero ts : total ts = 0%nat → Forall finished ts.
Proof.
  unfold total. induction ts as [| [held todo | [| h held]] ts IH]; simpl; intros E; [done | lia | | lia].
  constructor; [done | by apply IH].
Qed.

(** The heads a thread has and the heads it is still to take are in address
    order. *)
Definition ordered (t : thread) : Prop :=
  match t with Locking held todo => StronglySorted addr_lt (held ++ todo) | Unlocking _ => True end.

Lemma start_ordered batches : Forall ordered (start batches).
Proof. apply Forall_fmap, Forall_true. intros hs. apply lock_order_sorted. Qed.

Lemma tstep_ordered ts ts' : Forall ordered ts → tstep ts ts' → Forall ordered ts'.
Proof.
  intros Ho Hs. destruct Hs as [ts i held h todo Hi _ | |]; (apply Forall_insert; [done |]); try done.
  apply (Forall_lookup_1 _ _ _ _ Ho) in Hi. simpl in *. by rewrite <- (assoc_L (++)).
Qed.

(** The head a thread waits for. *)
Definition wanted (t : thread) : option head :=
  match t with Locking _ (h :: _) => Some h | _ => None end.

Lemma held_below t h h' : ordered t → h ∈ holds t → wanted t = Some h' → head_addr h < head_addr h'.
Proof.
  destruct t as [held [| x todo] | held]; simpl; [done | | done]. intros Hs Hh [= ->].
  apply list_elem_of_split in Hh as (l1 & l2 & ->). rewrite <- (assoc_L (++)) in Hs.
  apply StronglySorted_app in Hs as (_ & _ & Hs). inversion Hs as [| ? ? _ Hf]; subst.
  rewrite Forall_forall in Hf. apply Hf. apply elem_of_app. right. left.
Qed.

Lemma argmax {A} (f : A → Z) (l : list A) : l ≠ [] → ∃ x, x ∈ l ∧ ∀ y, y ∈ l → f y ≤ f x.
Proof.
  induction l as [| a [| b l] IH]; [done | |]; intros _.
  { exists a. split; [left |]. intros y ->%list_elem_of_singleton. done. }
  destruct IH as (x & Hx & Hmax); [done |]. destruct (Z_le_dec (f a) (f x)).
  - exists x. split; [by right |]. intros y [-> | Hy]%elem_of_cons; [done | by apply Hmax].
  - exists a. split; [left |]. intros y [-> | Hy]%elem_of_cons; [done |]. specialize (Hmax y Hy). lia.
Qed.

(** A thread that is not finished and waits for nothing can move. *)
Lemma unwanted_moves ts t : t ∈ ts → ¬ finished t → wanted t = None → ∃ ts', tstep ts ts'.
Proof.
  intros [i Hi]%list_elem_of_lookup Hf Hw. destruct t as [held [| h todo] | [| h held]]; simpl in *;
    [by eexists; econstructor | done | done | by eexists; eapply step_unlock].
Qed.

(** The thread that waits for the highest head is not blocked. *)
Lemma some_moves ts : Forall ordered ts → ¬ Forall finished ts → ∃ ts', tstep ts ts'.
Proof.
  intros Ho Hnf.
  destruct (decide (Exists (λ t, wanted t = None ∧ ¬ finished t) ts)) as [(t & Ht & Hw & Hf)%Exists_exists | Hall].
  { by eapply unwanted_moves. }
  assert (∀ t, t ∈ ts → ¬ finished t → ∃ h, wanted t = Some h) as Hwait.
  { intros t Ht Hf. destruct (wanted t) as [h |] eqn:E; [by exists h |]. destruct Hall. apply Exists_exists. eauto. }
  apply not_Forall_Exists, Exists_exists in Hnf as (t0 & Ht0 & Hf0); [| apply _].
  destruct (Hwait t0 Ht0 Hf0) as [h0 Hw0].
  destruct (argmax (λ t, head_addr (default h0 (wanted t))) (filter (λ t, ¬ finished t) ts)) as (t & Ht & Hmax).
  { intros E. apply (not_elem_of_nil t0). rewrite <- E. by apply list_elem_of_filter. }
  apply list_elem_of_filter in Ht as [Hf Ht]. destruct (Hwait t Ht Hf) as [h Hw].
  destruct (decide (Forall (λ t', h ∉ holds t') ts)) as [Hc | Hc].
  - apply list_elem_of_lookup in Ht as [i Hi]. destruct t as [held [| h' todo] |]; simplify_eq/=.
    eexists. eapply step_lock; [exact Hi |]. intros t'. revert t'. by apply Forall_forall.
  - apply not_Forall_Exists, Exists_exists in Hc as (t' & Ht' & Hh'); [| apply _]. apply dec_stable in Hh'.
    assert (¬ finished t') as Hf' by (by intros ->; apply not_elem_of_nil in Hh').
    destruct (Hwait t' Ht' Hf') as [h' Hw'].
    pose proof (held_below t' h h' (proj1 (Forall_forall _ _) Ho t' Ht') Hh' Hw') as Hlt.
    specialize (Hmax t' ltac:(by apply list_elem_of_filter)). rewrite Hw, Hw' in Hmax. simpl in Hmax. lia.
Qed.

Lemma run_total n ts ts' : nsteps tstep n ts ts' → (total ts = n + total ts')%nat.
Proof. induction 1 as [| n x y z Hs _ IH]; [done |]. apply tstep_total in Hs. lia. Qed.

Lemma run_ordered n ts ts' : nsteps tstep n ts ts' → Forall ordered ts → Forall ordered ts'.
Proof. induction 1 as [| n x y z Hs _ IH]; [done |]. intros Ho. apply IH. by eapply tstep_ordered. Qed.

(** C35: threads that lock batches of heads with [bl_lock_n] never deadlock, however
    they are scheduled: as long as not all of them have released their heads, one of
    them can move, and after the number of steps given by [total] they all have. *)
Theorem bl_lock_n_no_deadlock batches n ts :
  nsteps tstep n (start batches) ts →
  (n ≤ total (start batches))%nat ∧
  ((n < total (start batches))%nat → ∃ ts', tstep ts ts') ∧
  (n = total (start batches) → Forall finished ts).
Proof.
  intros Hr. pose proof (run_total _ _ _ Hr) as Ht. split; [lia |]. split; intros Hn.
  - apply some_moves; [by eapply run_ordered; [| apply start_ordered] |]. intros Hall.
    assert (total ts = 0%nat) as E; [| lia]. clear -Hall. induction Hall as [| t ts -> _ IH]; [done | exact IH].
  - apply total_zero. lia.
Qed.
End deadlock.

#[local] Existing Instance plain_layout.

(** Three threads over the heads of two buckets and of a directory. *)
Definition three : list (list head) :=
  [[Bucket 3; ChildHead 64; Bucket 3]; [ChildHead 64; Bucket 5]; [Bucket 5; Bucket 3]].

Lemma bl_lock_n_no_deadlock_witness :
  total (start three) = 15%nat ∧
  ∃ ts', tstep (start three) ts'.
Proof.
  split; [reflexivity |].
  apply (bl_lock_n_no_deadlock three 0 (start three)); [constructor | by vm_compute; lia].
Defined.
