(* ===== verification/BlEngine.v ===== *)
(** The theorems of the bucket-lock engine, one per operation, and the small cache
    on which they are tried. *)

From S2P Require Import Prelude Qstr HList Lru World Walk Namespace TreeOps Reclaim Lifecycle.
From S2P Require Import Paths Scene.
From S2P Require Import BlChain BlLists BlRecs BlLru BlLruSpec BlWorld BlWalk BlOps BlMove.
From S2P Require Import BlReclaim.
From S2P Require Import BlInv BlReads BlWalkSpec BlLocks BlRep BlSect BlOpsSpec BlTxn.
From S2P Require Import BlMoveSpec BlRename.
From S2P Require Import BlExchange BlLife.

Section engine.
Context `{HA : Memalign} `{!MemalignOk HA} `{HL : Layout} `{!LayoutOk HL} `{HX : SwTxn} `{!SwTxnOk HX}.

(** [dc_create] of the bucket-lock engine gives a coherent world that holds
    only the root, with the least power of two of buckets not below the number
    asked for. *)
Theorem bl_dc_create_correct node stack nb r :
  0 ≤ nb ≤ 2 ^ 31 → length (q_name stack) = DC_NAME_MAX → posix_memalign ∅ = Some r →
  ∃ w b, dc_create true true true node stack nb = Ok (Some w) ∧
    binv 0 w {[r := root_node r]} {[r := r]} ∧
    bw_root w = r ∧ bw_mask w + 1 = 2 ^ b ∧ nb ≤ 2 ^ b ∧ (b = 0 ∨ 2 ^ (b - 1) < nb).
Proof. intros. by apply dc_create_binv. Qed.

(** [dc_add] of the bucket-lock engine, and its variants, do to the name space
    what the specification says, and leave every lock free and the indexes, the
    LRU and the deferred work coherent. *)
Theorem bl_dc_add_refines k w N T path id isdir pos :
  binv k w N T → path_wf path →
  ∃ ret w', dc_add_typed path id isdir pos w = Ok (ret, w') ∧
    bl_post k w (spec_add_bl (bw_root w) (posix_memalign (dom (bw_dent w))) (pnames path) id isdir pos N) ret w'.
Proof. intros. by eapply wp_inv, wp_bl_add_typed. Qed.

(** [dc_instantiate] of the bucket-lock engine. *)
Theorem bl_dc_instantiate_refines k w N T path id :
  binv k w N T → path_wf path →
  ∃ ret w', dc_instantiate path id w = Ok (ret, w') ∧
    bl_post k w (spec_instantiate (bw_root w) (pnames path) id N) ret w'.
Proof. intros. by eapply wp_inv, wp_bl_instantiate. Qed.

(** [dc_delete] of the bucket-lock engine. *)
Theorem bl_dc_delete_refines k w N T path :
  binv k w N T → path_wf path →
  ∃ ret w', dc_delete path w = Ok (ret, w') ∧
    bl_post k w (spec_delete (bw_root w) (pnames path) N) ret w'.
Proof. intros. by eapply wp_inv, wp_bl_delete. Qed.

(** [dc_unlink] of the bucket-lock engine. *)
Theorem bl_dc_unlink_refines k w N T path :
  binv k w N T → path_wf path →
  ∃ ret w', dc_unlink path w = Ok (ret, w') ∧
    bl_post k w (spec_unlink (bw_root w) (pnames path) N) ret w'.
Proof. intros. by eapply wp_inv, wp_bl_unlink. Qed.

(** C20: [dc_rename] of the bucket-lock engine, where a destination parent that exists is
    a directory (the code does not check it): a shell is stacked on the entry, in one
    transaction, and code and name space are those of the specification; the transaction
    runs out of memory only with a library that can.  Of what may hold the new name only
    a settled negative file is replaced; a negative directory, or a negative whose fold
    is to come, is refused with -EEXIST like a positive entry. *)
Theorem bl_dc_rename_refines k w N T from to :
  binv k w N T → path_wf from → path_wf to → dest_is_dir (bw_root w) N (pnames to) →
  ∃ ret w' commit, dc_rename from to w = Ok (ret, w') ∧ txn_may commit ∧
    bl_post k w (spec_rename_bl (bw_root w) (posix_memalign (dom (bw_dent w))) (settled T) commit
                   (pnames from) (pnames to) N) ret w'.
Proof.
  intros Hi Hf Ht Hd. destruct (wp_inv _ _ _ (wp_bl_rename k w N T from to Hi Hf Ht Hd)) as (ret & w' & E & c & Hp).
  by exists ret, w', c.
Qed.

(** C21: [dc_rename_exchange] of the bucket-lock engine: two shells in one
    transaction. *)
Theorem bl_dc_rename_exchange_refines k w N T a b :
  binv k w N T → path_wf a → path_wf b →
  ∃ ret w' commit, dc_rename_exchange a b w = Ok (ret, w') ∧ txn_may commit ∧
    bl_post k w (spec_exchange_bl (bw_root w) (shells_fit (dom (bw_dent w))) commit (pnames a) (pnames b) N) ret w'.
Proof.
  intros Hi Ha Hb. destruct (wp_inv _ _ _ (wp_bl_rename_exchange k w N T a b Hi Ha Hb)) as (ret & w' & E & c & Hp).
  by exists ret, w', c.
Qed.

(** C22: a grace period does all the work that was queued before it, and only that.  The
    dentries that waited to be freed are gone and no others; every shell that waited for
    its fold names nobody any more and waits to be freed itself, unless the commit of a
    fold is out of memory; a host whose top has changed is its own top again; nothing
    else is queued.  In the name space none of this shows. *)
Theorem bl_rcu_barrier_invisible w N T :
  binv 0 w N T →
  ∃ w' T', rcu_barrier w = Ok (tt, w') ∧ binv 0 w' N T' ∧ bw_root w' = bw_root w ∧
    (∀ d, is_Some (bw_dent w' !! d) ↔ is_Some (bw_dent w !! d) ∧ CbFree d ∉ bw_rcu w) ∧
    (∀ d, CbFold d ∈ bw_rcu w → CbFree d ∈ bw_rcu w' ∧ (∀ h, T' !! h ≠ Some d) ∨ txn_may false) ∧
    (∀ h t, T !! h = Some t → T' !! h = Some t ∨ CbFold t ∈ bw_rcu w ∧ T' !! h = Some h) ∧
    (∀ cb, cb ∈ bw_rcu w' → ∃ d, cb = CbFree d ∧ CbFold d ∈ bw_rcu w).
Proof.
  intros Hi. destruct (wp_inv _ _ _ (wp_bl_barrier_grace w N T Hi)) as ([] & w' & E & (T' & Hi' & G) & Er & _).
  exists w', T'. split_and!; [done.. | apply G | | apply G |].
  - intros d [Hd | ?]%(gr_fold _ _ _ _ _ G); [left | by right]. split; [done |]. by apply (rr_free _ _ _ _ _ (bi_rcu _ _ _ _ Hi') d Hd).
  - intros cb [?%not_elem_of_nil | ?]%(gr_new _ _ _ _ _ G); done.
Qed.

(** C23: [dc_lookup] of the bucket-lock engine gives what the name space says, and
    changes nothing. *)
Theorem bl_dc_lookup_correct k w N T p :
  binv k w N T → path_wf p → dc_lookup p w = Ok (lookup_result N (nwalk (bw_root w) N (bw_root w) (pnames p)), w).
Proof. intros Hi Hp. eapply dc_lookup_run; [apply Hi | done]. Qed.

End engine.

(** ** The theorems at work on a small cache *)

#[local] Existing Instance plain_layout.
#[local] Existing Instance roomy_txn.

Definition bl_scene0 : bworld :=
  match dc_create true true true 3 qstr_zero 5 with Ok (Some w) => w | _ => dcache0 0 1 end.

Lemma bl_scene0_inv : ∃ T, binv 0 bl_scene0 {[64 := root_node 64]} T.
Proof.
  destruct (dc_create_binv 3 qstr_zero 5 64) as (w & b & E & Hi & _);
    [lia | done | by vm_compute | unfold bl_scene0; rewrite E; eauto].
Qed.

Definition bl_run {A} (m : M A) (w : bworld) : bworld := match m w with Ok (_, w') => w' | Err _ => w end.

(** Directories /a and /b, a file /a/x, a negative entry /n; then /a moved below /b,
    which leaves a shell on it. *)
Definition bl_w1 : bworld := bl_run (dc_add p_a 1) bl_scene0.
Definition bl_w2 : bworld := bl_run (dc_add p_b 2) bl_w1.
Definition bl_w3 : bworld := bl_run (dc_add_file p_ax 3) bl_w2.
Definition bl_scene : bworld := bl_run (dc_add_negative p_n) bl_w3.
Definition bl_moved : bworld := bl_run (dc_rename p_a p_ba) bl_scene.

Definition bl_names : nspace :=
  list_to_map [(64, root_node 64); (128, Node 64 [97] 1 true true); (192, Node 64 [98] 2 true true);
               (256, Node 128 [120] 3 false true); (320, Node 64 [110] 0 false false)].

Lemma bl_post_run (m : M Z) w (spec : Z * nspace) N' :
  wp m (bl_post 0 w spec) w → snd spec = N' → ∃ T, binv 0 (bl_run m w) N' T.
Proof. intros (ret & w' & E & H)%wp_inv <-. unfold bl_run. rewrite E. apply H. Qed.

Ltac bl_step H := destruct H as [? H]; eapply bl_post_run; [eapply wp_bl_add_typed; [exact H | path_by_decide] | by vm_compute].

Lemma bl_scene_inv : ∃ T, binv 0 bl_scene bl_names T.
Proof.
  pose proof bl_scene0_inv as H0.
  assert (∃ T, binv 0 bl_w1 (<[128 := Node 64 [97] 1 true true]> {[64 := root_node 64]}) T) as H1 by bl_step H0.
  assert (∃ T, binv 0 bl_w2 (list_to_map [(64, root_node 64); (128, Node 64 [97] 1 true true);
    (192, Node 64 [98] 2 true true)]) T) as H2 by bl_step H1.
  assert (∃ T, binv 0 bl_w3 (list_to_map [(64, root_node 64); (128, Node 64 [97] 1 true true);
    (192, Node 64 [98] 2 true true); (256, Node 128 [120] 3 false true)]) T) as H3 by bl_step H2.
  bl_step H3.
Qed.

Lemma roomy_may commit : txn_may commit → commit = true.
Proof. intros H. apply H. done. Qed.

Lemma bl_dc_create_correct_witness :
  ∃ w, dc_create true true true 3 qstr_zero 5 = Ok (Some w) ∧ bw_mask w = 7.
Proof.
  destruct (bl_dc_create_correct 3 qstr_zero 5 64) as (w & b & E & _); [lia | reflexivity | by vm_compute |].
  exists w. split; [exact E |]. vm_compute in E. by injection E as <-.
Defined.

(** What an operation promises, once its specification is evaluated. *)
Lemma bl_post_is k w spec ret w' z N' :
  bl_post k w spec ret w' → spec = (z, N') → ret = z ∧ ∃ T, binv k w' N' T.
Proof. intros [Hr Hi _ _] ->. done. Qed.

Lemma bl_dc_add_refines_witness :
  ∃ ret w', dc_add_typed p_ay 9 true true bl_scene = Ok (ret, w') ∧ ret = 0 ∧
    ∃ T, binv 0 w' (<[384 := Node 128 [121] 9 true true]> bl_names) T.
Proof.
  destruct bl_scene_inv as [T Hi].
  destruct (bl_dc_add_refines 0 bl_scene bl_names T p_ay 9 true true Hi) as (ret & w' & E & Hp); [path_by_decide |].
  exists ret, w'. split; [exact E |]. eapply bl_post_is; [exact Hp | by vm_compute].
Defined.

Lemma bl_dc_instantiate_refines_witness :
  ∃ ret w', dc_instantiate p_n 9 bl_scene = Ok (ret, w') ∧ ret = 0 ∧
    ∃ T, binv 0 w' (<[320 := Node 64 [110] 9 false true]> bl_names) T.
Proof.
  destruct bl_scene_inv as [T Hi].
  destruct (bl_dc_instantiate_refines 0 bl_scene bl_names T p_n 9 Hi) as (ret & w' & E & Hp); [path_by_decide |].
  exists ret, w'. split; [exact E |]. eapply bl_post_is; [exact Hp | by vm_compute].
Defined.

Lemma bl_dc_delete_refines_witness :
  ∃ ret w', dc_delete p_ax bl_scene = Ok (ret, w') ∧ ret = 0 ∧
    ∃ T, binv 0 w' (<[256 := Node 128 [120] 3 false false]> bl_names) T.
Proof.
  destruct bl_scene_inv as [T Hi].
  destruct (bl_dc_delete_refines 0 bl_scene bl_names T p_ax Hi) as (ret & w' & E & Hp); [path_by_decide |].
  exists ret, w'. split; [exact E |]. eapply bl_post_is; [exact Hp | by vm_compute].
Defined.

Lemma bl_dc_unlink_refines_witness :
  ∃ ret w', dc_unlink p_ax bl_scene = Ok (ret, w') ∧ ret = 0 ∧ ∃ T, binv 0 w' (delete 256 bl_names) T.
Proof.
  destruct bl_scene_inv as [T Hi].
  destruct (bl_dc_unlink_refines 0 bl_scene bl_names T p_ax Hi) as (ret & w' & E & Hp); [path_by_decide |].
  exists ret, w'. split; [exact E |]. eapply bl_post_is; [exact Hp | by vm_compute].
Defined.

Lemma bl_dc_rename_refines_witness :
  ∃ ret w', dc_rename p_a p_ba bl_scene = Ok (ret, w') ∧ ret = 0 ∧
    ∃ T, binv 0 w' (<[128 := Node 192 [97] 1 true true]> bl_names) T.
Proof.
  destruct bl_scene_inv as [T Hi].
  destruct (bl_dc_rename_refines 0 bl_scene bl_names T p_a p_ba Hi) as (ret & w' & c & E & ->%roomy_may & Hp);
    [path_by_decide | path_by_decide | apply dest_dirb_ok; by vm_compute |].
  exists ret, w'. split; [exact E |]. eapply bl_post_is; [exact Hp | by vm_compute].
Defined.

Lemma bl_dc_rename_exchange_refines_witness :
  ∃ ret w', dc_rename_exchange p_ax p_b bl_scene = Ok (ret, w') ∧ ret = 0 ∧
    ∃ T, binv 0 w' (<[256 := Node 64 [98] 3 false true]> (<[192 := Node 128 [120] 2 true true]> bl_names)) T.
Proof.
  destruct bl_scene_inv as [T Hi].
  destruct (bl_dc_rename_exchange_refines 0 bl_scene bl_names T p_ax p_b Hi) as (ret & w' & c & E & ->%roomy_may & Hp);
    [path_by_decide | path_by_decide |].
  exists ret, w'. split; [exact E |]. eapply bl_post_is; [exact Hp | by vm_compute].
Defined.

Definition bl_moved_names : nspace := <[128 := Node 192 [97] 1 true true]> bl_names.

Lemma bl_moved_inv : ∃ T, binv 0 bl_moved bl_moved_names T.
Proof.
  destruct bl_scene_inv as [T Hi].
  destruct (wp_inv _ _ _ (wp_bl_rename 0 bl_scene bl_names T p_a p_ba Hi ltac:(path_by_decide) ltac:(path_by_decide)
    ltac:(apply dest_dirb_ok; by vm_compute))) as (ret & w' & E & c & ->%roomy_may & Hp).
  unfold bl_moved, bl_run. rewrite E. eapply bl_post_is; [exact Hp | by vm_compute].
Qed.

(** After the grace period the moved entry is named by its host again, and its shell, the
    dentry 384, waits to be freed. *)
Lemma bl_rcu_barrier_invisible_witness :
  ∃ w' T', rcu_barrier bl_moved = Ok (tt, w') ∧ binv 0 w' bl_moved_names T' ∧ CbFree 384 ∈ bw_rcu w' ∧ ∀ h, T' !! h ≠ Some 384.
Proof.
  destruct bl_moved_inv as [T Hi].
  destruct (bl_rcu_barrier_invisible bl_moved bl_moved_names T Hi) as (w' & T' & E & Hi' & _ & _ & Hfold & _).
  assert (bw_rcu bl_moved = [CbFold 384]) as Eq by (by vm_compute).
  assert (CbFold 384 ∈ bw_rcu bl_moved) as Hq by (rewrite Eq; by left).
  destruct (Hfold 384 Hq) as [[Hf Hno] | Hm]; [| discriminate (roomy_may _ Hm)].
  exists w', T'. split_and!; [exact E | exact Hi' | exact Hf | exact Hno].
Defined.

(** Through the shell, before the fold. *)
Lemma bl_dc_lookup_correct_witness :
  dc_lookup p_bax bl_moved = Ok ((DC_POSITIVE, Some 256), bl_moved) ∧
  dc_lookup p_ax bl_moved = Ok ((DC_ABSENT, None), bl_moved).
Proof.
  destruct bl_moved_inv as [T Hi]. split.
  - rewrite (bl_dc_lookup_correct 0 bl_moved bl_moved_names T p_bax Hi ltac:(path_by_decide)). by vm_compute.
  - rewrite (bl_dc_lookup_correct 0 bl_moved bl_moved_names T p_ax Hi ltac:(path_by_decide)). by vm_compute.
Defined.
