(* ===== verification/BlHistory.v ===== *)
(** Histories of the bucket-lock engine: any sequence of calls of the API, run from
    [dc_create], is matched step by step by the specification, and never faults. *)

From S2P Require Import Prelude Qstr HList Lru World Walk Namespace TreeOps Paths Reclaim.
From S2P Require Import Lifecycle ReadSpec Api Scene.
From S2P Require Import BlChain BlLists BlRecs BlLru BlLruSpec BlWorld BlWalk BlOps BlMove.
From S2P Require Import BlReclaim.
From S2P Require Import BlInv BlReads BlWalkSpec BlLocks BlRep BlSect BlOpsSpec BlTxn.
From S2P Require Import BlMoveSpec BlRename.
From S2P Require Import BlExchange BlLife BlReadSpec BlShrinkSpec.

Section history.
Context `{HA : Memalign} `{!MemalignOk HA} `{HL : Layout} `{!LayoutOk HL} `{HX : SwTxn} `{!SwTxnOk HX}.

(** The calls run on the engine; [CBarrier] is a grace period. *)
Definition bl_exec (c : call) : M answer :=
  match c with
  | CAdd p id isdir pos => let! z := dc_add_typed p id isdir pos in st_ret (ARet z)
  | CInstantiate p id => let! z := dc_instantiate p id in st_ret (ARet z)
  | CDelete p => let! z := dc_delete p in st_ret (ARet z)
  | CUnlink p => let! z := dc_unlink p in st_ret (ARet z)
  | CRename from to => let! z := dc_rename from to in st_ret (ARet z)
  | CExchange a b => let! z := dc_rename_exchange a b in st_ret (ARet z)
  | CLookup p => let! r := dc_lookup p in st_ret (ALookup r)
  | CLookupDentry p => let! d := dc_lookup_dentry p in st_ret (ADentry d)
  | CReaddir p =>
      let! r := dc_readdir p (Some (λ id q l, l ++ [(id, qname q)])) [] in
      st_ret (AList (fst r) (snd r))
  | CDentryPath d => let! r := dc_dentry_path d path0 in st_ret (APath (fst r) (pnames (snd r)))
  | CCensus => let! l := dc_walk (λ id p l, l ++ [(id, pnames p)]) path0 [] in st_ret (ACensus l)
  | CShrink nr => let! z := dc_shrink nr in st_ret (ARet z)
  | CShrinkLocal nr => let! z := dc_shrink_local nr in st_ret (ARet z)
  | CBarrier => rcu_barrier ;;; st_ret ADone
  end.

(** The specification's steps.  It leaves open what depends on memory, and whether
    a destination was moved there and not yet folded. *)
Inductive bl_step (r : Z) (N : nspace) : call → answer → nspace → Prop :=
  | BAdd p id isdir pos fresh z N' :
      (∀ d, fresh = Some d → N !! d = None) →
      spec_add_bl r fresh (pnames p) id isdir pos N = (z, N') →
      bl_step r N (CAdd p id isdir pos) (ARet z) N'
  | BInstantiate p id z N' :
      spec_instantiate r (pnames p) id N = (z, N') → bl_step r N (CInstantiate p id) (ARet z) N'
  | BDelete p z N' : spec_delete r (pnames p) N = (z, N') → bl_step r N (CDelete p) (ARet z) N'
  | BUnlink p z N' : spec_unlink r (pnames p) N = (z, N') → bl_step r N (CUnlink p) (ARet z) N'
  | BRename from to fresh folded commit z N' :
      txn_may commit →
      spec_rename_bl r fresh folded commit (pnames from) (pnames to) N = (z, N') →
      bl_step r N (CRename from to) (ARet z) N'
  | BExchange a b mem commit z N' :
      txn_may commit →
      spec_exchange_bl r mem commit (pnames a) (pnames b) N = (z, N') →
      bl_step r N (CExchange a b) (ARet z) N'
  | BRead c a : read_step r N c a → bl_step r N c a N
  | BShrink nr K :
      r ∉ K → K ⊆ dom N → Z.of_nat (size K) ≤ Z.max 0 nr →
      bl_step r N (CShrink nr) (ARet (Z.of_nat (size K))) (without K N)
  | BShrinkLocal nr K :
      r ∉ K → K ⊆ dom N → Z.of_nat (size K) ≤ Z.max 0 nr →
      bl_step r N (CShrinkLocal nr) (ARet (Z.of_nat (size K))) (without K N)
  | BBarrier : bl_step r N CBarrier ADone N.

(** The cache holds the name space [N] below [r]. *)
Definition bl_holds (w : bworld) (r : Z) (N : nspace) : Prop := bw_root w = r ∧ ∃ T, binv 0 w N T.

Definition bl_matched (r : Z) (N : nspace) (c : call) (a : answer) (w' : bworld) : Prop :=
  ∃ N', bl_holds w' r N' ∧ bl_step r N c a N'.

Lemma bl_matched_op w N c (m : M Z) (Q : (Z * nspace) → Prop) :
  wp m (λ z w', ∃ spec, Q spec ∧ bl_post 0 w spec z w') w →
  (∀ z N', Q (z, N') → bl_step (bw_root w) N c (ARet z) N') →
  wp (let! z := m in st_ret (ARet z)) (bl_matched (bw_root w) N c) w.
Proof.
  intros Hm Hs. wp_step. eapply wp_mono; [exact Hm |]. intros z w' ([z' N'] & HQ & [-> Hi Hr _]). wp_step.
  exists N'. split; [done | by apply Hs].
Qed.

Lemma bl_matched_fun w N c (m : M Z) spec :
  wp m (bl_post 0 w spec) w → (∀ z N', spec = (z, N') → bl_step (bw_root w) N c (ARet z) N') →
  wp (let! z := m in st_ret (ARet z)) (bl_matched (bw_root w) N c) w.
Proof.
  intros Hm Hs. eapply (bl_matched_op _ _ _ _ (eq spec)); [| intros; by apply Hs].
  eapply wp_mono; [exact Hm |]. eauto.
Qed.

Lemma bl_matched_read {X} w N T c (m : M X) (f : X → answer) x :
  binv 0 w N T → m w = Ok (x, w) → read_step (bw_root w) N c (f x) →
  wp (let! r := m in st_ret (f r)) (bl_matched (bw_root w) N c) w.
Proof.
  intros Hi Hm Hs. wp_step. eapply wp_run; [exact Hm |]. wp_step. exists N. split; [by split; [| exists T] | by constructor].
Qed.

Lemma bl_matched_shrink w N c (m : M Z) nr :
  wp m (λ f w', ∃ K, evicted 0 w N K w' ∧ f = Z.of_nat (size K) ∧ f ≤ Z.max 0 nr) w →
  (∀ K, bw_root w ∉ K → K ⊆ dom N → Z.of_nat (size K) ≤ Z.max 0 nr →
     bl_step (bw_root w) N c (ARet (Z.of_nat (size K))) (without K N)) →
  wp (let! z := m in st_ret (ARet z)) (bl_matched (bw_root w) N c) w.
Proof.
  intros Hm Hs. wp_step. eapply wp_mono; [exact Hm |]. intros f w' (K & [Hi Hr _ Ho Hsub] & -> & Hle). wp_step.
  exists (without K N). split; [done | by apply Hs].
Qed.

Lemma bl_matched_readdir w N T p :
  binv 0 w N T → path_wf p → wp (bl_exec (CReaddir p)) (bl_matched (bw_root w) N (CReaddir p)) w.
Proof.
  intros Hi Hp. pose proof (dc_readdir_run w N T ∅ p (Some (λ id nm l, l ++ [(id, nm)])) [] (bi_rep _ _ _ _ Hi) Hp) as Hr.
  destruct (nwalk _ _ _ _) as [d |] eqn:E.
  - destruct Hr as (l & Hl & Er). eapply (bl_matched_read w N T _ _ (λ r, AList (fst r) (snd r))); [done | exact Er |]. simpl.
    rewrite (foldl_ext_in _ (λ acc x, acc ++ list_entry N x) l []).
    + rewrite (foldl_snoc_bind (list_entry N) l []). by eapply SReaddir.
    + intros acc x _. unfold entry_call, list_entry. destruct (N !! x); [done | by rewrite app_nil_r].
  - eapply (bl_matched_read w N T _ _ (λ r, AList (fst r) (snd r))); [done | exact Hr |]. by constructor.
Qed.

Lemma wp_bl_exec w N T c :
  binv 0 w N T → permitted (bw_root w) N c → wp (bl_exec c) (bl_matched (bw_root w) N c) w.
Proof.
  intros Hi Hc. pose proof (bi_rep _ _ _ _ Hi) as R. destruct c; simpl in Hc.
  - eapply bl_matched_fun; [by eapply wp_bl_add_typed |]. intros z N' E. econstructor; [| exact E].
    intros d Hd%memalign_fresh. destruct (N !! d) eqn:En; [| done]. destruct Hd. apply elem_of_dom.
    eapply rep_dom_N; [done | by eexists].
  - eapply bl_matched_fun; [by eapply wp_bl_instantiate |]. by constructor.
  - eapply bl_matched_fun; [by eapply wp_bl_delete |]. by constructor.
  - eapply bl_matched_fun; [by eapply wp_bl_unlink |]. by constructor.
  - destruct Hc as (? & ? & ?). eapply (bl_matched_op _ _ _ _ (λ spec, ∃ commit, txn_may commit ∧
      spec_rename_bl (bw_root w) (posix_memalign (dom (bw_dent w))) (settled T) commit (pnames from) (pnames to) N = spec)).
    + eapply wp_mono; [by eapply wp_bl_rename |]. intros z w' (commit & Hmay & Hp). eexists. by split; [exists commit |].
    + intros z N' (commit & Hmay & E). by eapply BRename.
  - destruct Hc. eapply (bl_matched_op _ _ _ _ (λ spec, ∃ commit, txn_may commit ∧
      spec_exchange_bl (bw_root w) (shells_fit (dom (bw_dent w))) commit (pnames a) (pnames b) N = spec)).
    + eapply wp_mono; [by eapply wp_bl_rename_exchange |]. intros z w' (commit & Hmay & Hp). eexists. by split; [exists commit |].
    + intros z N' (commit & Hmay & E). by eapply BExchange.
  - eapply (bl_matched_read w N T _ _ ALookup); [done | by eapply dc_lookup_run | constructor].
  - eapply (bl_matched_read w N T _ _ ADentry); [done | by eapply dc_lookup_dentry_run | constructor].
  - by eapply bl_matched_readdir.
  - destruct (dc_dentry_path_run w N T ∅ d path0 R Hc) as (ret & p & E & Hp); [apply path0_sizes |].
    eapply (bl_matched_read w N T _ _ (λ r, APath (fst r) (pnames (snd r)))); [done | exact E |]. simpl.
    case_decide; [destruct Hp as (-> & _ & ->); by constructor | rewrite Hp; constructor; lia].
  - destruct (dc_walk_run w N T ∅ (λ id names l, l ++ [(id, names)]) path0 [] R) as (L & Hnd & HL' & E); [apply path0_sizes |].
    eapply (bl_matched_read w N T _ _ ACensus); [done | exact E |]. rewrite census_collects. by constructor.
  - eapply bl_matched_shrink; [by eapply wp_bl_shrink | by constructor].
  - eapply bl_matched_shrink; [by eapply wp_bl_shrink_local | by constructor].
  - simpl. wp_step. wp_use (wp_bl_barrier w N T); [done |]. intros _ w' (? & Er & _). wp_step.
    exists N. split; [done | apply BBarrier].
Qed.

#[export] Program Instance bucketlock_engine : Engine := {|
  eng_state := bworld;
  eng_exec := bl_exec;
  eng_step := bl_step;
  eng_holds := bl_holds;
|}.
Next Obligation. intros w r N c [<- [T Hi]] Hc. by eapply wp_bl_exec. Qed.

(** C19: every history of the bucket-lock engine, of a caller that keeps to its
    obligations ([permitted]: well-formed paths; a rename only into a parent that is a
    directory, which this engine does not check either; the reverse walk only of a dentry
    that is in the cache), refines its specification.  From a fresh cache of at most 2^31
    buckets no such sequence of calls, grace periods with their folds included, faults;
    the answers are those of a run of the specification, and the engine's state
    represents the name space that run ends in.  In that specification a rename replaces
    a negative file that is settled; onto a negative directory, or a negative file whose
    fold is to come, it answers -EEXIST, as the code does. *)
Theorem bl_history_refines node stack nb r cs :
  0 ≤ nb ≤ 2 ^ 31 → length (q_name stack) = DC_NAME_MAX → posix_memalign ∅ = Some r →
  obeys r {[r := root_node r]} cs →
  ∃ w0 answers w N T, dc_create true true true node stack nb = Ok (Some w0) ∧
    exec_all cs w0 = Ok (answers, w) ∧ binv 0 w N T ∧
    eng_steps r {[r := root_node r]} cs answers N.
Proof.
  intros Hn Hs Hr Ho. destruct (dc_create_binv node stack nb r Hn Hs Hr) as (w0 & b & E & Hi & Er & _).
  destruct (wp_inv _ _ _ (wp_exec_all (E := bucketlock_engine) r cs w0 _ (conj Er (ex_intro _ _ Hi)) Ho))
    as (l & w & E' & N & [_ [T Hi']] & Hs').
  by exists w0, l, w, N, T.
Qed.
End history.

(** A history: two directories and a file, an exchange whose shells a grace period
    folds, a look, an eviction. *)
Definition bl_demo : list call :=
  [CAdd p_a 1 true true; CAdd p_b 2 true true; CAdd p_ax 3 false true; CExchange p_a p_b; CLookup p_bx;
   CBarrier; CLookup p_bx; CShrink 1; CBarrier; CCensus].

Lemma bl_history_refines_witness :
  let _ := plain_layout in let _ := roomy_txn in
  ∃ w0 answers w, dc_create true true true 0 qstr_zero 8 = Ok (Some w0) ∧
    @exec_all bucketlock_engine bl_demo w0 = Ok (answers, w) ∧
    answers !! 4%nat = Some (ALookup (DC_POSITIVE, Some 256)) ∧ answers !! 6%nat = Some (ALookup (DC_POSITIVE, Some 256)).
Proof.
  intros HL HX.
  destruct (bl_history_refines (HL := plain_layout) (HX := roomy_txn) 0 qstr_zero 8 64 bl_demo)
    as (w0 & l & w & N & T & E & E' & _ & _); [lia | reflexivity | by vm_compute | |].
  { unfold bl_demo. simpl. repeat (split; [try path_by_decide; try done; split; path_by_decide | intros ? ? _]). done. }
  exists w0, l, w. split; [exact E |]. split; [exact E' |].
  vm_compute in E. injection E as <-. vm_compute in E'. injection E' as <- <-. done.
Defined.
