(* ===== verification/Qspinlock.v ===== *)
(** dcache_qspinlock.h: the queued spinlock that guards every LRU shard, as the
    programs its threads run at the same time.

    A [prog] is a C function cut at its atomic accesses: [Do] is one access, [Spin]
    a loop that repeats one load until its test holds, [Stop] a call of abort().
    The machine below lets any thread make its next access, in any order; accesses
    are sequentially consistent, so the acquire, release and relaxed annotations of
    the source (and its write barrier and prefetch) do nothing here.

    Any number of locks share the per-thread nodes, as they do in the source: a
    thread may hold several locks and waits for one at a time. *)

From S2P Require Import Prelude.

Notation tid := nat (only parsing).
Notation lockid := nat (only parsing).

(** ** struct dc_qspinlock: one little-endian 32-bit word, by byte and half *)

Definition DC_Q_LOCKED_VAL : Z := 1.
Definition DC_Q_PENDING_VAL : Z := Z.shiftl 1 8.
Definition DC_Q_LOCKED_MASK : Z := 0x000000ff.
Definition DC_Q_PENDING_MASK : Z := 0x0000ff00.
Definition DC_Q_LOCKED_PENDING_MASK : Z := 0x0000ffff.
Definition DC_Q_TAIL_MASK : Z := 0xffff0000.
Definition DC_Q_TAIL_OFFSET : Z := 16.
Definition DC_Q_MAX_NODES : Z := 65535.
Definition DC_Q_PENDING_LOOPS : nat := 512.

Definition load_locked (w : Z) : Z := Z.land w 0xff.
Definition load_tail (w : Z) : Z := Z.shiftr w 16.
Definition store_locked (v w : Z) : Z := Z.lor (Z.land w (Z.lnot 0xff)) v.
Definition store_pending (v w : Z) : Z := Z.lor (Z.land w (Z.lnot 0xff00)) (Z.shiftl v 8).
Definition store_locked_pending (v w : Z) : Z := Z.lor (Z.land w (Z.lnot 0xffff)) v.
Definition store_tail (v w : Z) : Z := Z.lor (Z.land w 0xffff) (Z.shiftl v 16).

(** ** struct dc_qnode and the process-wide state *)

Record dc_qnode := QNode { n_next : option tid; n_locked : Z }.

#[export] Instance dc_qnode_eq_dec : EqDecision dc_qnode.
Proof. solve_decision. Defined.

(** A node is named by its thread: [dc_qnode_me] is [q_node me], and
    [dc_qnode_tail] is [q_tail me]. *)
Record qmem := QMem {
  q_val : lockid → Z;
  q_node : tid → dc_qnode;
  q_tail : tid → Z;
  q_tab : Z → option tid;
  q_count : Z;
}.

Definition set_val (ℓ : lockid) (v : Z) (m : qmem) : qmem :=
  QMem (<[ℓ := v]> (q_val m)) (q_node m) (q_tail m) (q_tab m) (q_count m).
Definition set_node (n : tid) (x : dc_qnode) (m : qmem) : qmem :=
  QMem (q_val m) (<[n := x]> (q_node m)) (q_tail m) (q_tab m) (q_count m).
Definition set_tail (n : tid) (v : Z) (m : qmem) : qmem :=
  QMem (q_val m) (q_node m) (<[n := v]> (q_tail m)) (q_tab m) (q_count m).
Definition set_tab (i : Z) (n : tid) (m : qmem) : qmem :=
  QMem (q_val m) (q_node m) (q_tail m) (<[i := Some n]> (q_tab m)) (q_count m).
Definition set_count (v : Z) (m : qmem) : qmem :=
  QMem (q_val m) (q_node m) (q_tail m) (q_tab m) v.

(** ** Accesses *)

Inductive access : Type → Type :=
  | LoadVal (ℓ : lockid) : access Z
  | CasVal (ℓ : lockid) (expected desired : Z) : access (bool * Z)
  | OrVal (ℓ : lockid) (bits : Z) : access Z
  | LoadLocked (ℓ : lockid) : access Z
  | StoreLocked (ℓ : lockid) (v : Z) : access ()
  | StorePending (ℓ : lockid) (v : Z) : access ()
  | StoreLockedPending (ℓ : lockid) (v : Z) : access ()
  | XchgTail (ℓ : lockid) (v : Z) : access Z
  | NodeLoadNext (n : tid) : access (option tid)
  | NodeLoadLocked (n : tid) : access Z
  | NodeStoreNext (n : option tid) (next : option tid) : access ()
  | NodeStoreLocked (n : option tid) (v : Z) : access ()
  | CountFetchAdd : access Z
  | TabLoad (i : Z) : access (option tid)
  | TabStore (i : Z) (n : tid) : access ()
  | TailLoad (n : tid) : access Z
  | TailStore (n : tid) (v : Z) : access ().

(** [None]: a store through a null pointer. *)
Definition exec {A} (a : access A) (m : qmem) : option (A * qmem) :=
  match a with
  | LoadVal ℓ => Some (q_val m ℓ, m)
  | CasVal ℓ e d =>
      let v := q_val m ℓ in
      if v =? e then Some ((true, v), set_val ℓ d m) else Some ((false, v), m)
  | OrVal ℓ b => Some (q_val m ℓ, set_val ℓ (Z.lor (q_val m ℓ) b) m)
  | LoadLocked ℓ => Some (load_locked (q_val m ℓ), m)
  | StoreLocked ℓ v => Some (tt, set_val ℓ (store_locked v (q_val m ℓ)) m)
  | StorePending ℓ v => Some (tt, set_val ℓ (store_pending v (q_val m ℓ)) m)
  | StoreLockedPending ℓ v => Some (tt, set_val ℓ (store_locked_pending v (q_val m ℓ)) m)
  | XchgTail ℓ v => Some (load_tail (q_val m ℓ), set_val ℓ (store_tail v (q_val m ℓ)) m)
  | NodeLoadNext n => Some (n_next (q_node m n), m)
  | NodeLoadLocked n => Some (n_locked (q_node m n), m)
  | NodeStoreNext n x =>
      n ← n; Some (tt, set_node n (QNode x (n_locked (q_node m n))) m)
  | NodeStoreLocked n v =>
      n ← n; Some (tt, set_node n (QNode (n_next (q_node m n)) v) m)
  | CountFetchAdd => Some (q_count m, set_count (w32 (q_count m + 1)) m)
  | TabLoad i => Some (q_tab m i, m)
  | TabStore i n => Some (tt, set_tab i n m)
  | TailLoad n => Some (q_tail m n, m)
  | TailStore n v => Some (tt, set_tail n v m)
  end.

(** ** Programs *)

Inductive prog (A : Type) : Type :=
  | Ret (r : A)
  | Do {B} (a : access B) (k : B → prog A)
  | Spin {B} (a : access B) (stop : B → bool) (k : B → prog A)
  | Stop.
Arguments Ret {A} r.
Arguments Do {A B} a k.
Arguments Spin {A B} a stop k.
Arguments Stop {A}.

Fixpoint pbind {A B} (p : prog A) (f : A → prog B) : prog B :=
  match p with
  | Ret r => f r
  | Do a k => Do a (λ x, pbind (k x) f)
  | Spin a t k => Spin a t (λ x, pbind (k x) f)
  | Stop => Stop
  end.

Declare Scope prog_scope.
Delimit Scope prog_scope with prog.
Bind Scope prog_scope with prog.
Notation "'let!' x ':=' p 'in' k" := (pbind p (λ x, k)) : prog_scope.
Notation "'do!' x ':=' a 'in' k" := (Do a (λ x, k))
  (at level 200, x name, a at level 100, k at level 200) : prog_scope.
Notation "'spin!' x ':=' a 'until' t 'in' k" := (Spin a t (λ x, k))
  (at level 200, x name, a at level 100, t at level 100, k at level 200) : prog_scope.

Section code.
Local Open Scope prog_scope.
Variable me : tid.

Definition dc_qnode_register : prog Z :=
  do! idx := CountFetchAdd in
  if DC_Q_MAX_NODES <=? idx then Stop else
  do! _ := TabStore idx me in
  let tail := w32 (Z.shiftl (idx + 1) DC_Q_TAIL_OFFSET) in
  do! _ := TailStore me tail in
  Ret tail.

Definition dc_qspin_trylock (ℓ : lockid) : prog Z :=
  do! val := LoadVal ℓ in
  if negb (val =? 0) then Ret 0 else
  do! r := CasVal ℓ val DC_Q_LOCKED_VAL in
  Ret (if r.1 : bool then 1 else 0).

Definition not_null (p : option tid) : bool := match p with Some _ => true | None => false end.

(** The tail of the slow path: [next] is what the node's link showed while the
    thread waited. *)
Definition dc_qspin_pass (next : option tid) : prog () :=
  do! _ := NodeStoreLocked next 1 in Ret tt.

Definition dc_qspin_take (ℓ : lockid) (next : option tid) : prog () :=
  do! _ := StoreLocked ℓ DC_Q_LOCKED_VAL in
  match next with
  | Some _ => dc_qspin_pass next
  | None => spin! next := NodeLoadNext me until not_null in dc_qspin_pass next
  end.

(** From the head of the queue. *)
Definition dc_qspin_head (ℓ : lockid) (tail : Z) (next : option tid) : prog () :=
  spin! val := LoadVal ℓ until (λ v, Z.land v DC_Q_LOCKED_PENDING_MASK =? 0) in
  if Z.land val DC_Q_TAIL_MASK =? tail then
    do! r := CasVal ℓ val DC_Q_LOCKED_VAL in
    if r.1 : bool then Ret tt else dc_qspin_take ℓ next
  else dc_qspin_take ℓ next.

(** Link behind [old] and wait to become the head of the queue. *)
Definition dc_qspin_behind (old : Z) : prog (option tid) :=
  do! prev := TabLoad (Z.shiftr old DC_Q_TAIL_OFFSET - 1) in
  do! _ := NodeStoreNext prev (Some me) in
  spin! _ := NodeLoadLocked me until (λ v, negb (v =? 0)) in
  do! next := NodeLoadNext me in
  Ret next.

(** The [queue:] label, the node's tail known. *)
Definition dc_qspin_enqueue (ℓ : lockid) (tail : Z) : prog () :=
  do! _ := NodeStoreLocked (Some me) 0 in
  do! _ := NodeStoreNext (Some me) None in
  let! r := dc_qspin_trylock ℓ in
  if negb (r =? 0) then Ret tt else
  do! t := XchgTail ℓ (Z.shiftr tail DC_Q_TAIL_OFFSET mod 2 ^ 16) in
  let old := w32 (Z.shiftl t DC_Q_TAIL_OFFSET) in
  let! next := (if negb (Z.land old DC_Q_TAIL_MASK =? 0) then dc_qspin_behind old else Ret None) in
  dc_qspin_head ℓ tail next.

Definition dc_qspin_queue (ℓ : lockid) : prog () :=
  do! t := TailLoad me in
  let! tail := (if negb (t =? 0) then Ret t else dc_qnode_register) in
  dc_qspin_enqueue ℓ tail.

(** The pending waiter takes the lock and clears pending in one store. *)
Definition dc_qspin_take_pending (ℓ : lockid) : prog () :=
  do! _ := StoreLockedPending ℓ DC_Q_LOCKED_VAL in Ret tt.

(** Trylock or become pending. *)
Definition dc_qspin_contend (ℓ : lockid) (val : Z) : prog () :=
  if negb (Z.land val (Z.lnot DC_Q_LOCKED_MASK) =? 0) then dc_qspin_queue ℓ else
  do! val := OrVal ℓ DC_Q_PENDING_VAL in
  if negb (Z.land val (Z.lnot DC_Q_LOCKED_MASK) =? 0) then
    if Z.land val DC_Q_PENDING_MASK =? 0
    then do! _ := StorePending ℓ 0 in dc_qspin_queue ℓ
    else dc_qspin_queue ℓ
  else if negb (Z.land val DC_Q_LOCKED_MASK =? 0)
  then spin! _ := LoadLocked ℓ until (λ v, v =? 0) in dc_qspin_take_pending ℓ
  else dc_qspin_take_pending ℓ.

(** [do val = lock->val; while (val == DC_Q_PENDING_VAL && cnt--)] *)
Fixpoint dc_qspin_handover (ℓ : lockid) (cnt : nat) : prog Z :=
  do! val := LoadVal ℓ in
  if val =? DC_Q_PENDING_VAL
  then match cnt with O => Ret val | S cnt => dc_qspin_handover ℓ cnt end
  else Ret val.

Definition dc_qspin_lock_slowpath (ℓ : lockid) (val : Z) : prog () :=
  let! val := (if val =? DC_Q_PENDING_VAL
               then dc_qspin_handover ℓ DC_Q_PENDING_LOOPS else Ret val) in
  dc_qspin_contend ℓ val.

Definition dc_qspin_lock (ℓ : lockid) : prog () :=
  do! r := CasVal ℓ 0 DC_Q_LOCKED_VAL in
  if r.1 : bool then Ret tt else dc_qspin_lock_slowpath ℓ r.2.

Definition dc_qspin_unlock (ℓ : lockid) : prog () :=
  do! _ := StoreLocked ℓ 0 in Ret tt.
End code.

(** ** Threads that call the lock *)

Inductive call := CLock (ℓ : lockid) | CTry (ℓ : lockid) | CUnlock (ℓ : lockid).

Definition begin (me : tid) (c : call) : prog Z :=
  match c with
  | CLock ℓ => pbind (dc_qspin_lock me ℓ) (λ _, Ret 1)
  | CTry ℓ => dc_qspin_trylock ℓ
  | CUnlock ℓ => pbind (dc_qspin_unlock ℓ) (λ _, Ret 0)
  end.

(** [th_held]: the locks whose critical section the thread is in, from the return
    of the call that took them to the call that releases them. *)
Record qthread := QThread { th_run : option (call * prog Z); th_held : gset lockid }.

Definition enter (c : call) (held : gset lockid) : gset lockid :=
  match c with CUnlock ℓ => held ∖ {[ℓ]} | _ => held end.
Definition leave (c : call) (r : Z) (held : gset lockid) : gset lockid :=
  match c with
  | CLock ℓ => {[ℓ]} ∪ held
  | CTry ℓ => if r =? 0 then held else {[ℓ]} ∪ held
  | CUnlock _ => held
  end.

(** A thread releases only a lock it holds. *)
Definition may_call (c : call) (held : gset lockid) : bool :=
  match c with CUnlock ℓ => bool_decide (ℓ ∈ held) | _ => true end.

Record qstate := QState { q_mem : qmem; q_threads : list qthread; q_aborted : bool }.

Definition advance {A} (p : prog A) (m : qmem) : option (prog A * qmem) :=
  match p with
  | Ret _ | Stop => None
  | Do a k => '(x, m') ← exec a m; Some (k x, m')
  | Spin a stop k => '(x, m') ← exec a m; Some (if stop x then k x else p, m')
  end.

Definition update (i : tid) (t : qthread) (m : qmem) (s : qstate) : qstate :=
  QState m (<[i := t]> (q_threads s)) (q_aborted s).

(** Thread [i] makes a call, or goes on with the one it is in. *)
Inductive event := Begin (i : tid) (c : call) | Go (i : tid).

Definition qstep (e : event) (s : qstate) : option qstate :=
  if q_aborted s then None else
  match e with
  | Begin i c =>
      t ← q_threads s !! i;
      match th_run t with
      | None => if may_call c (th_held t)
                then Some (update i (QThread (Some (c, begin i c)) (enter c (th_held t))) (q_mem s) s)
                else None
      | Some _ => None
      end
  | Go i =>
      t ← q_threads s !! i;
      '(c, p) ← th_run t;
      match p with
      | Ret r => Some (update i (QThread None (leave c r (th_held t))) (q_mem s) s)
      | Stop => Some (QState (q_mem s) (q_threads s) true)
      | _ => '(p', m') ← advance p (q_mem s);
             Some (update i (QThread (Some (c, p')) (th_held t)) m' s)
      end
  end.

Definition qinit (n : nat) : qstate :=
  QState (QMem (λ _, 0) (λ _, QNode None 0) (λ _, 0) (λ _, None) 0)
         (replicate n (QThread None ∅)) false.

Fixpoint qrun (es : list event) (s : qstate) : option qstate :=
  match es with [] => Some s | e :: es => s' ← qstep e s; qrun es s' end.

(** Two threads race for one lock: the first has it, the second waits pending. *)
Example qrun_pending :
  (λ s, (q_val (q_mem s) 0%nat, th_held <$> q_threads s))
    <$> qrun [Begin 0 (CLock 0); Go 0; Go 0; Begin 1 (CLock 0); Go 1; Go 1; Go 1] (qinit 2)
  = Some (257, [{[0%nat]}; ∅]).
Proof. vm_compute. reflexivity. Qed.
