(* ===== verification/QspinInv.v ===== *)
(** The invariant of the queued spinlock: the fields of the lock word, the points
    a thread of [Qspinlock] can be at, and who owns, pends on and queues for each
    lock. *)

From S2P Require Import Prelude Qspinlock.

(** ** The lock word by field *)

Definition word (l p : bool) (t : Z) : Z := Z.lor (Z.shiftl t 16) (Z.b2z l + 256 * Z.b2z p).

Lemma hi_land t m : Z.land (Z.shiftl t 16) m = Z.shiftl (Z.land t (Z.shiftr m 16)) 16.
Proof.
  apply Z.bits_inj'. intros n Hn.
  rewrite Z.land_spec, !Z.shiftl_spec, Z.land_spec by done.
  destruct (decide (n < 16)).
  - by rewrite (Z.testbit_neg_r t (n - 16)) by lia.
  - rewrite Z.shiftr_spec by lia. by replace (n - 16 + 16) with n by lia.
Qed.

Ltac word_calc :=
  rewrite ?Z.land_lor_distr_l, ?hi_land;
  match goal with
  | |- context [Z.shiftr ?m 16] => let c := eval vm_compute in (Z.shiftr m 16) in change (Z.shiftr m 16) with c
  | _ => idtac
  end;
  rewrite ?Z.land_m1_r, ?Z.land_0_r, ?Z.shiftl_0_l.

Section word.
Variables (l p : bool) (t : Z).

Lemma word_store_locked b : store_locked (Z.b2z b) (word l p t) = word b p t.
Proof. unfold store_locked, word. word_calc. by destruct l, p, b; rewrite <- Z.lor_assoc. Qed.

Lemma word_store_pending : store_pending 0 (word l p t) = word l false t.
Proof. unfold store_pending, word. word_calc. by destruct l, p; rewrite <- Z.lor_assoc. Qed.

Lemma word_store_locked_pending :
  store_locked_pending DC_Q_LOCKED_VAL (word l p t) = word true false t.
Proof. unfold store_locked_pending, word. word_calc. by destruct l, p; rewrite <- Z.lor_assoc. Qed.

Lemma word_store_tail t' : store_tail t' (word l p t) = word l p t'.
Proof.
  unfold store_tail, word. word_calc. rewrite Z.lor_0_l, Z.lor_comm. by destruct l, p.
Qed.

Lemma word_or_pending : Z.lor (word l p t) DC_Q_PENDING_VAL = word l true t.
Proof. unfold word. rewrite <- Z.lor_assoc. by destruct l, p. Qed.

Lemma word_load_locked : load_locked (word l p t) = Z.b2z l.
Proof. unfold load_locked, word. word_calc. by destruct l, p. Qed.

Lemma word_load_tail : load_tail (word l p t) = t.
Proof.
  unfold load_tail, word. rewrite Z.shiftr_lor, Z.shiftr_shiftl_l by lia.
  replace (Z.shiftr _ 16) with 0 by (by destruct l, p). rewrite Z.lor_0_r. apply Z.shiftl_0_r.
Qed.

Lemma word_eq_0 : word l p t = 0 → l = false ∧ p = false ∧ t = 0.
Proof.
  unfold word. rewrite Z.lor_eq_0_iff, Z.shiftl_eq_0_iff by lia. by destruct l, p; intros [? ?].
Qed.

Lemma word_locked_mask : Z.land (word l p t) DC_Q_LOCKED_MASK = Z.b2z l.
Proof. apply word_load_locked. Qed.

Lemma word_pending_mask : (Z.land (word l p t) DC_Q_PENDING_MASK =? 0) = negb p.
Proof. unfold word. word_calc. by destruct l, p. Qed.

Lemma word_pending_byte : Z.land (word l p t) DC_Q_PENDING_MASK = if p then DC_Q_PENDING_VAL else 0.
Proof. unfold word. word_calc. by destruct l, p. Qed.

Lemma word_range : 0 ≤ t < 2 ^ 16 → 0 ≤ word l p t < 2 ^ 32.
Proof.
  intros Ht. pose proof word_load_tail as E. unfold load_tail in E.
  rewrite Z.shiftr_div_pow2 in E by lia. pose proof (Z.div_mod (word l p t) (2 ^ 16) ltac:(lia)).
  pose proof (Z.mod_pos_bound (word l p t) (2 ^ 16) ltac:(lia)). lia.
Qed.

Lemma word_lp_mask : (Z.land (word l p t) DC_Q_LOCKED_PENDING_MASK =? 0) = negb l && negb p.
Proof. unfold word. word_calc. by destruct l, p. Qed.

Lemma word_beyond_mask :
  (Z.land (word l p t) (Z.lnot DC_Q_LOCKED_MASK) =? 0) = negb p && (t =? 0).
Proof.
  apply eq_true_iff_eq. rewrite Z.eqb_eq, andb_true_iff, Z.eqb_eq. unfold word. word_calc.
  rewrite Z.lor_eq_0_iff, Z.shiftl_eq_0_iff by lia. by destruct l, p; intuition.
Qed.

Lemma word_tail_mask : 0 ≤ t < 2 ^ 16 → Z.land (word l p t) DC_Q_TAIL_MASK = Z.shiftl t 16.
Proof.
  intros Ht. unfold word. word_calc.
  change 65535 with (Z.ones 16). rewrite Z.land_ones by lia. rewrite Z.mod_small by lia.
  destruct l, p; apply Z.lor_0_r.
Qed.
End word.

(** ** Where a thread is *)

Inductive phase :=
  | Out
  | LCas (ℓ : lockid) | LHand (ℓ : lockid) (cnt : nat) | LOr (ℓ : lockid) | LUndo (ℓ : lockid)
  | LSpin (ℓ : lockid) | LTake (ℓ : lockid) | LRet (ℓ : lockid)
  | QTail (ℓ : lockid) | QReg (ℓ : lockid) | QStop (ℓ : lockid)
  | QTab (ℓ : lockid) (idx : Z) | QSet (ℓ : lockid) (idx : Z)
  | QInit (ℓ : lockid) | QNull (ℓ : lockid) | QLoad (ℓ : lockid) | QCas (ℓ : lockid)
  | QXchg (ℓ : lockid) | QPrev (ℓ : lockid) (old : Z) | QLink (ℓ : lockid) (prev : option tid)
  | QSpin (ℓ : lockid) | QNext (ℓ : lockid) | QHead (ℓ : lockid) (next : option tid)
  | QClaim (ℓ : lockid) (next : option tid) | QTake (ℓ : lockid) (next : option tid)
  | QWait (ℓ : lockid) | QPass (ℓ : lockid) (next : option tid)
  | TLoad (ℓ : lockid) | TCas (ℓ : lockid) | TRet (ℓ : lockid) (r : Z)
  | UStore (ℓ : lockid) | URet (ℓ : lockid).

Definition lock_at (φ : phase) : option lockid :=
  match φ with
  | Out => None
  | LCas ℓ | LHand ℓ _ | LOr ℓ | LUndo ℓ | LSpin ℓ | LTake ℓ | LRet ℓ | QTail ℓ | QReg ℓ | QStop ℓ
  | QTab ℓ _ | QSet ℓ _ | QInit ℓ | QNull ℓ | QLoad ℓ | QCas ℓ | QXchg ℓ | QPrev ℓ _ | QLink ℓ _
  | QSpin ℓ | QNext ℓ | QHead ℓ _ | QClaim ℓ _ | QTake ℓ _ | QWait ℓ | QPass ℓ _
  | TLoad ℓ | TCas ℓ | TRet ℓ _ | UStore ℓ | URet ℓ => Some ℓ
  end.

(** The rest of the call from a point, for thread [me] with [dc_qnode_tail = tail]. *)
Section points.
Local Open Scope prog_scope.
Variables (me : tid) (tail : Z).

Definition rest (φ : phase) : prog () :=
  match φ with
  | LCas ℓ => dc_qspin_lock me ℓ
  | LHand ℓ cnt => pbind (dc_qspin_handover ℓ cnt) (dc_qspin_contend me ℓ)
  | LOr ℓ => dc_qspin_contend me ℓ 0
  | LUndo ℓ => do! _ := StorePending ℓ 0 in dc_qspin_queue me ℓ
  | LSpin ℓ => spin! _ := LoadLocked ℓ until (λ v, v =? 0) in dc_qspin_take_pending ℓ
  | LTake ℓ => dc_qspin_take_pending ℓ
  | QTail ℓ => dc_qspin_queue me ℓ
  | QReg ℓ => pbind (dc_qnode_register me) (dc_qspin_enqueue me ℓ)
  | QStop ℓ => Stop
  | QTab ℓ idx =>
      do! _ := TabStore idx me in
      do! _ := TailStore me (w32 (Z.shiftl (idx + 1) DC_Q_TAIL_OFFSET)) in
      dc_qspin_enqueue me ℓ (w32 (Z.shiftl (idx + 1) DC_Q_TAIL_OFFSET))
  | QSet ℓ idx =>
      do! _ := TailStore me (w32 (Z.shiftl (idx + 1) DC_Q_TAIL_OFFSET)) in
      dc_qspin_enqueue me ℓ (w32 (Z.shiftl (idx + 1) DC_Q_TAIL_OFFSET))
  | QInit ℓ => dc_qspin_enqueue me ℓ tail
  | QNull ℓ =>
      do! _ := NodeStoreNext (Some me) None in
      let! r := dc_qspin_trylock ℓ in
      if negb (r =? 0) then Ret tt else
      do! t := XchgTail ℓ (Z.shiftr tail DC_Q_TAIL_OFFSET mod 2 ^ 16) in
      let old := w32 (Z.shiftl t DC_Q_TAIL_OFFSET) in
      let! next := (if negb (Z.land old DC_Q_TAIL_MASK =? 0) then dc_qspin_behind me old else Ret None) in
      dc_qspin_head me ℓ tail next
  | QLoad ℓ =>
      let! r := dc_qspin_trylock ℓ in
      if negb (r =? 0) then Ret tt else
      do! t := XchgTail ℓ (Z.shiftr tail DC_Q_TAIL_OFFSET mod 2 ^ 16) in
      let old := w32 (Z.shiftl t DC_Q_TAIL_OFFSET) in
      let! next := (if negb (Z.land old DC_Q_TAIL_MASK =? 0) then dc_qspin_behind me old else Ret None) in
      dc_qspin_head me ℓ tail next
  | QCas ℓ =>
      do! r := CasVal ℓ 0 DC_Q_LOCKED_VAL in
      if negb ((if r.1 : bool then 1 else 0) =? 0) then Ret tt else
      do! t := XchgTail ℓ (Z.shiftr tail DC_Q_TAIL_OFFSET mod 2 ^ 16) in
      let old := w32 (Z.shiftl t DC_Q_TAIL_OFFSET) in
      let! next := (if negb (Z.land old DC_Q_TAIL_MASK =? 0) then dc_qspin_behind me old else Ret None) in
      dc_qspin_head me ℓ tail next
  | QXchg ℓ =>
      do! t := XchgTail ℓ (Z.shiftr tail DC_Q_TAIL_OFFSET mod 2 ^ 16) in
      let old := w32 (Z.shiftl t DC_Q_TAIL_OFFSET) in
      let! next := (if negb (Z.land old DC_Q_TAIL_MASK =? 0) then dc_qspin_behind me old else Ret None) in
      dc_qspin_head me ℓ tail next
  | QPrev ℓ old => pbind (dc_qspin_behind me old) (dc_qspin_head me ℓ tail)
  | QLink ℓ prev =>
      do! _ := NodeStoreNext prev (Some me) in
      spin! _ := NodeLoadLocked me until (λ v, negb (v =? 0)) in
      do! next := NodeLoadNext me in dc_qspin_head me ℓ tail next
  | QSpin ℓ =>
      spin! _ := NodeLoadLocked me until (λ v, negb (v =? 0)) in
      do! next := NodeLoadNext me in dc_qspin_head me ℓ tail next
  | QNext ℓ => do! next := NodeLoadNext me in dc_qspin_head me ℓ tail next
  | QHead ℓ next => dc_qspin_head me ℓ tail next
  | QClaim ℓ next =>
      do! r := CasVal ℓ tail DC_Q_LOCKED_VAL in
      if r.1 : bool then Ret tt else dc_qspin_take me ℓ next
  | QTake ℓ next => dc_qspin_take me ℓ next
  | QWait ℓ =>
      spin! next := NodeLoadNext me until not_null in dc_qspin_pass next
  | QPass ℓ next => dc_qspin_pass next
  | UStore ℓ => dc_qspin_unlock ℓ
  | _ => Ret tt
  end.

(** What the thread is running at a point. *)
Definition running (φ : phase) : option (call * prog Z) :=
  match φ with
  | Out => None
  | TLoad ℓ => Some (CTry ℓ, dc_qspin_trylock ℓ)
  | TCas ℓ => Some (CTry ℓ, do! r := CasVal ℓ 0 DC_Q_LOCKED_VAL in Ret (if r.1 : bool then 1 else 0))
  | TRet ℓ r => Some (CTry ℓ, Ret r)
  | UStore ℓ | URet ℓ => Some (CUnlock ℓ, pbind (rest φ) (λ _, Ret 0))
  | _ => ℓ ← lock_at φ; Some (CLock ℓ, pbind (rest φ) (λ _, Ret 1))
  end.
End points.

(** The points that follow, with the access made on the way. *)
Definition contend (ℓ : lockid) (val : Z) : phase :=
  if negb (Z.land val (Z.lnot DC_Q_LOCKED_MASK) =? 0) then QTail ℓ else LOr ℓ.
Definition took (next : option tid) (ℓ : lockid) : phase :=
  match next with Some _ => QPass ℓ next | None => QWait ℓ end.

Definition move (me : tid) (φ : phase) (m : qmem) : option (phase * qmem) :=
  let tail := q_tail m me in
  match φ with
  | Out | LRet _ | QStop _ | TRet _ _ | URet _ => None
  | LCas ℓ =>
      let v := q_val m ℓ in
      if v =? 0 then Some (LRet ℓ, set_val ℓ DC_Q_LOCKED_VAL m)
      else Some (if v =? DC_Q_PENDING_VAL then LHand ℓ DC_Q_PENDING_LOOPS else contend ℓ v, m)
  | LHand ℓ cnt =>
      let v := q_val m ℓ in
      Some (if v =? DC_Q_PENDING_VAL
            then match cnt with O => contend ℓ v | S c => LHand ℓ c end
            else contend ℓ v, m)
  | LOr ℓ =>
      let v := q_val m ℓ in
      Some (if negb (Z.land v (Z.lnot DC_Q_LOCKED_MASK) =? 0)
            then if Z.land v DC_Q_PENDING_MASK =? 0 then LUndo ℓ else QTail ℓ
            else if negb (Z.land v DC_Q_LOCKED_MASK =? 0) then LSpin ℓ else LTake ℓ,
            set_val ℓ (Z.lor v DC_Q_PENDING_VAL) m)
  | LUndo ℓ => Some (QTail ℓ, set_val ℓ (store_pending 0 (q_val m ℓ)) m)
  | LSpin ℓ => Some (if load_locked (q_val m ℓ) =? 0 then LTake ℓ else LSpin ℓ, m)
  | LTake ℓ => Some (LRet ℓ, set_val ℓ (store_locked_pending DC_Q_LOCKED_VAL (q_val m ℓ)) m)
  | QTail ℓ => Some (if negb (tail =? 0) then QInit ℓ else QReg ℓ, m)
  | QReg ℓ =>
      Some (if DC_Q_MAX_NODES <=? q_count m then QStop ℓ else QTab ℓ (q_count m),
            set_count (w32 (q_count m + 1)) m)
  | QTab ℓ idx => Some (QSet ℓ idx, set_tab idx me m)
  | QSet ℓ idx => Some (QInit ℓ, set_tail me (w32 (Z.shiftl (idx + 1) DC_Q_TAIL_OFFSET)) m)
  | QInit ℓ => Some (QNull ℓ, set_node me (QNode (n_next (q_node m me)) 0) m)
  | QNull ℓ => Some (QLoad ℓ, set_node me (QNode None (n_locked (q_node m me))) m)
  | QLoad ℓ => Some (if negb (q_val m ℓ =? 0) then QXchg ℓ else QCas ℓ, m)
  | QCas ℓ =>
      if q_val m ℓ =? 0 then Some (LRet ℓ, set_val ℓ DC_Q_LOCKED_VAL m) else Some (QXchg ℓ, m)
  | QXchg ℓ =>
      let old := w32 (Z.shiftl (load_tail (q_val m ℓ)) DC_Q_TAIL_OFFSET) in
      Some (if negb (Z.land old DC_Q_TAIL_MASK =? 0) then QPrev ℓ old else QHead ℓ None,
            set_val ℓ (store_tail (Z.shiftr tail DC_Q_TAIL_OFFSET mod 2 ^ 16) (q_val m ℓ)) m)
  | QPrev ℓ old => Some (QLink ℓ (q_tab m (Z.shiftr old DC_Q_TAIL_OFFSET - 1)), m)
  | QLink ℓ prev => p ← prev; Some (QSpin ℓ, set_node p (QNode (Some me) (n_locked (q_node m p))) m)
  | QSpin ℓ => Some (if negb (n_locked (q_node m me) =? 0) then QNext ℓ else QSpin ℓ, m)
  | QNext ℓ => Some (QHead ℓ (n_next (q_node m me)), m)
  | QHead ℓ next =>
      let v := q_val m ℓ in
      Some (if Z.land v DC_Q_LOCKED_PENDING_MASK =? 0
            then if Z.land v DC_Q_TAIL_MASK =? tail then QClaim ℓ next else QTake ℓ next
            else QHead ℓ next, m)
  | QClaim ℓ next =>
      if q_val m ℓ =? tail then Some (LRet ℓ, set_val ℓ DC_Q_LOCKED_VAL m) else Some (QTake ℓ next, m)
  | QTake ℓ next => Some (took next ℓ, set_val ℓ (store_locked DC_Q_LOCKED_VAL (q_val m ℓ)) m)
  | QWait ℓ =>
      Some (match n_next (q_node m me) with Some _ => QPass ℓ (n_next (q_node m me)) | None => QWait ℓ end, m)
  | QPass ℓ next => x ← next; Some (LRet ℓ, set_node x (QNode (n_next (q_node m x)) 1) m)
  | TLoad ℓ => Some (if negb (q_val m ℓ =? 0) then TRet ℓ 0 else TCas ℓ, m)
  | TCas ℓ =>
      if q_val m ℓ =? 0 then Some (TRet ℓ 1, set_val ℓ DC_Q_LOCKED_VAL m) else Some (TRet ℓ 0, m)
  | UStore ℓ => Some (URet ℓ, set_val ℓ (store_locked 0 (q_val m ℓ)) m)
  end.

(** The head of the queue sees a word of its own tail alone, when it sees its tail
    and neither byte. *)
Definition claims (tail : Z) (φ : phase) (m : qmem) : Prop :=
  ∀ ℓ next, φ = QHead ℓ next → Z.land (q_val m ℓ) DC_Q_LOCKED_PENDING_MASK = 0 →
  Z.land (q_val m ℓ) DC_Q_TAIL_MASK = tail → q_val m ℓ = tail.

Ltac cases_in H :=
  repeat match type of H with
  | context [if ?b then _ else _] => let E := fresh "E" in destruct b eqn:E
  | context [match ?n with O => _ | S _ => _ end] => destruct n
  | context [match ?x with Some _ => _ | None => _ end] => let E := fresh "E" in destruct x eqn:E
  end.

#[local] Opaque DC_Q_PENDING_LOOPS.

Ltac run_code :=
  repeat (cbn -[dc_qspin_enqueue dc_qspin_head w32 Z.pow Z.land Z.eqb Z.leb];
          try reflexivity; case_match; try congruence).

(** [move] is the program: the access the code makes next leads to the point and
    the memory [move] says. *)
Lemma move_sound me φ m φ' m' c p :
  claims (q_tail m me) φ m → move me φ m = Some (φ', m') →
  running me (q_tail m me) φ = Some (c, p) →
  ∃ p', advance p m = Some (p', m') ∧ running me (q_tail m' me) φ' = Some (c, p').
Proof.
  intros Hcl Hm Hr.
  destruct φ; try done.
  all: try (match goal with x : option nat |- _ => destruct x end); try done.
  all: injection Hr as <- <-; unfold move, contend, took in Hm; cbv zeta in Hm.
  all: cases_in Hm; injection Hm as <- <-.
  all: eexists; split; [| reflexivity]; run_code.
  all: unfold dc_qspin_lock_slowpath, dc_qspin_contend in *; run_code.
  1-2: destruct cnt; run_code.
  - change (q_tail (set_tail me ?v m) me) with (<[me := v]> (q_tail m) me).
    by rewrite fn_lookup_insert.
  - apply negb_false_iff, Z.eqb_eq in H. by rewrite H.
  - by rewrite (Hcl ℓ (Some n) eq_refl (proj1 (Z.eqb_eq _ _) H) (proj1 (Z.eqb_eq _ _) H0)).
  - by rewrite (Hcl ℓ None eq_refl (proj1 (Z.eqb_eq _ _) H) (proj1 (Z.eqb_eq _ _) H0)).
  - unfold not_null in H. by case_match.
  - unfold not_null in H. by case_match.
  - apply negb_false_iff, Z.eqb_eq in H. by rewrite H.
Qed.

(** ** Who owns a lock, pends on it, queues for it *)

Definition owning (φ : phase) : option lockid :=
  match φ with
  | LRet ℓ | QWait ℓ | QPass ℓ _ | UStore ℓ => Some ℓ
  | TRet ℓ r => if r =? 0 then None else Some ℓ
  | _ => None
  end.
Definition pending (φ : phase) : option lockid :=
  match φ with LUndo ℓ | LSpin ℓ | LTake ℓ => Some ℓ | _ => None end.
Definition queued (φ : phase) : option lockid :=
  match φ with
  | QPrev ℓ _ | QLink ℓ _ | QSpin ℓ | QNext ℓ | QHead ℓ _ | QClaim ℓ _ | QTake ℓ _ | QWait ℓ
  | QPass ℓ _ => Some ℓ
  | _ => None
  end.
(** On the way into the queue. *)
Definition joining (φ : phase) : option lockid :=
  match φ with
  | LUndo ℓ | QTail ℓ | QReg ℓ | QStop ℓ | QTab ℓ _ | QSet ℓ _ | QInit ℓ | QNull ℓ | QLoad ℓ | QCas ℓ
  | QXchg ℓ => Some ℓ
  | _ => None
  end.
(** Between seeing the lock free and taking it. *)
Definition taking (φ : phase) : option lockid :=
  match φ with LTake ℓ | QClaim ℓ _ | QTake ℓ _ => Some ℓ | _ => None end.
(** At the head, having given up on taking the lock and the tail in one. *)
Definition wants_next (φ : phase) : option lockid :=
  match φ with QTake ℓ None | QWait ℓ => Some ℓ | _ => None end.

Definition owns (φ : phase) (held : gset lockid) (ℓ : lockid) : Prop :=
  ℓ ∈ held ∨ owning φ = Some ℓ.

Definition some {A} (o : option A) : bool := match o with Some _ => true | None => false end.

Section lock.
Variables (ℓ : lockid) (Φ : tid → phase) (N : tid → dc_qnode) (T : tid → Z).

(** [i] may be at the head. *)
Definition head_ok (i : tid) : Prop :=
  match Φ i with
  | QSpin _ => n_locked (N i) ≠ 0
  | QNext _ | QWait _ => True
  | QHead _ nx | QClaim _ nx | QTake _ nx => nx = None ∨ nx = n_next (N i)
  | QPass _ nx => nx = n_next (N i) ∧ nx ≠ None
  | _ => False
  end.

(** [i] is behind [j]: not linked yet, or linked and waiting. *)
Definition behind (j i : tid) : Prop :=
  n_locked (N i) = 0 ∧
  (n_next (N j) = None ∧ (Φ i = QPrev ℓ (T j) ∨ Φ i = QLink ℓ (Some j))
   ∨ n_next (N j) = Some i ∧ Φ i = QSpin ℓ).

Fixpoint chain (j : tid) (q : list tid) : Prop :=
  match q with
  | [] => n_next (N j) = None
  | i :: q => behind j i ∧ chain i q
  end.

Definition queue_ok (q : list tid) : Prop :=
  match q with [] => True | h :: q => head_ok h ∧ chain h q end.

Definition tail_of (q : list tid) : Z :=
  match last q with Some i => Z.shiftr (T i) 16 | None => 0 end.
End lock.

Record lock_inv (ℓ : lockid) (v : Z) (Φ : tid → phase) (H : tid → gset lockid)
    (N : tid → dc_qnode) (T : tid → Z) (own pnd : option tid) (q : list tid) : Prop := {
  li_val : v = word (some own) (some pnd) (tail_of T q);
  li_own : ∀ i, owns (Φ i) (H i) ℓ ↔ own = Some i;
  li_pnd : ∀ i, pending (Φ i) = Some ℓ ↔ pnd = Some i;
  li_que : ∀ i, queued (Φ i) = Some ℓ ↔ i ∈ q;
  li_nodup : NoDup q;
  li_queue : queue_ok ℓ Φ N T q;
  li_held : ∀ i, Φ i = UStore ℓ → ℓ ∉ H i;
  (* a thread about to take the lock has seen it free, and it is still *)
  li_free : ∀ i, taking (Φ i) = Some ℓ → own = None;
  (* the head is about to take it only while no thread pends in earnest *)
  li_head : ∀ i j, taking (Φ i) = Some ℓ → queued (Φ i) = Some ℓ → pnd = Some j → Φ j = LUndo ℓ;
  (* the head waits for a successor only if one comes *)
  li_more : ∀ i, wants_next (Φ i) = Some ℓ → ∃ j, j ≠ i ∧ (joining (Φ j) = Some ℓ ∨ j ∈ q);
}.

(** ** The node table *)

(** Thread [i] has registered as the [k]-th. *)
Definition registered (regs : list tid) (i : tid) (k : nat) : Prop :=
  regs !! k = Some i ∧ Z.of_nat k < DC_Q_MAX_NODES.

Definition tail_word (k : nat) : Z := Z.shiftl (Z.of_nat k + 1) DC_Q_TAIL_OFFSET.

(** What the point says of the thread's registration. *)
Definition reg_ok (regs : list tid) (tab : Z → option tid) (φ : phase) (t : Z) (i : tid) : Prop :=
  match φ with
  | QReg _ => t = 0 ∧ i ∉ regs
  | QStop _ => t = 0 ∧ DC_Q_MAX_NODES < Z.of_nat (length regs)
  | QTab _ idx => t = 0 ∧ ∃ k, idx = Z.of_nat k ∧ registered regs i k
  | QSet _ idx => t = 0 ∧ ∃ k, idx = Z.of_nat k ∧ registered regs i k ∧ tab idx = Some i
  | QInit _ | QNull _ | QLoad _ | QCas _ | QXchg _ | QPrev _ _ | QLink _ _ | QSpin _ | QNext _
  | QHead _ _ | QClaim _ _ | QTake _ _ | QWait _ | QPass _ _ => t ≠ 0
  | _ => t = 0 → i ∉ regs
  end.

Record reg_inv (n : nat) (regs : list tid) (m : qmem) (Φ : tid → phase) : Prop := {
  ri_nodup : NoDup regs;
  ri_bound : ∀ i, i ∈ regs → (i < n)%nat;
  ri_count : q_count m = Z.of_nat (length regs);
  ri_tail : ∀ i, q_tail m i ≠ 0 →
    ∃ k, registered regs i k ∧ q_tail m i = tail_word k ∧ q_tab m (Z.of_nat k) = Some i;
  ri_point : ∀ i, reg_ok regs (q_tab m) (Φ i) (q_tail m i) i;
}.

(** ** The whole state *)

(** A node is blank when its thread queues. *)
Definition node_ok (φ : phase) (x : dc_qnode) : Prop :=
  match φ with
  | QNull _ => n_locked x = 0
  | QLoad _ | QCas _ | QXchg _ => x = QNode None 0
  | _ => True
  end.

Record qinv (s : qstate) (Φ : tid → phase) (H : tid → gset lockid) (regs : list tid)
    (own pnd : lockid → option tid) (q : lockid → list tid) : Prop := {
  qi_thread : ∀ i t, q_threads s !! i = Some t →
    t = QThread (running i (q_tail (q_mem s) i) (Φ i)) (H i);
  qi_out : ∀ i, q_threads s !! i = None → Φ i = Out ∧ H i = ∅;
  qi_abort : q_aborted s = true → DC_Q_MAX_NODES < Z.of_nat (length (q_threads s));
  qi_node : ∀ i, node_ok (Φ i) (q_node (q_mem s) i);
  qi_reg : reg_inv (length (q_threads s)) regs (q_mem s) Φ;
  qi_lock : ∀ ℓ, lock_inv ℓ (q_val (q_mem s) ℓ) Φ H (q_node (q_mem s)) (q_tail (q_mem s))
                   (own ℓ) (pnd ℓ) (q ℓ);
}.

Definition qsafe (s : qstate) : Prop := ∃ Φ H regs own pnd q, qinv s Φ H regs own pnd q.
