(* ===== verification/QspinSpec.v ===== *)
(** The queued spinlock keeps its invariant: whatever the order in which the
    threads make their accesses, one thread at most owns a lock, and the queue is
    linked from its head to the tail the lock word names. *)

From S2P Require Import Prelude Qspinlock QspinInv.

Ltac at_thread j i :=
  destruct (decide (j = i)) as [-> |]; [rewrite ?fn_lookup_insert | rewrite ?fn_lookup_insert_ne by done].

(** ** The queue's links *)

Section chain.
Variables (ℓ : lockid).

Lemma chain_ext Φ Φ' N N' T T' j q :
  (∀ x, x ∈ q → Φ' x = Φ x) → (∀ x, x ∈ j :: q → N' x = N x ∧ T' x = T x) →
  chain ℓ Φ N T j q → chain ℓ Φ' N' T' j q.
Proof.
  revert j. induction q as [| i q IH]; intros j HΦ HN; simpl.
  - by rewrite (proj1 (HN j ltac:(set_solver))).
  - intros [Hb Hc]. split.
    + unfold behind in *. rewrite (HΦ i) by set_solver.
      destruct (HN i ltac:(set_solver)) as [-> _], (HN j ltac:(set_solver)) as [-> ->]. done.
    + apply IH; [set_solver | set_solver | done].
Qed.

(** A thread behind the head has not been woken. *)
Lemma chain_waits Φ N T j q i :
  chain ℓ Φ N T j q → i ∈ q →
  n_locked (N i) = 0 ∧ (Φ i = QSpin ℓ ∨ ∃ p, p ∈ j :: q ∧ (Φ i = QPrev ℓ (T p) ∨ Φ i = QLink ℓ (Some p))).
Proof.
  revert j. induction q as [| x q IH]; intros j Hc Hi; [set_solver |].
  destruct Hc as [[Hl Hb] Hc]. apply elem_of_cons in Hi as [-> | Hi].
  - split; [done |]. destruct Hb as [[_ Hb] | [_ Hb]]; [right; exists j; set_solver | by left].
  - destruct (IH _ Hc Hi) as [? [? | (p & ? & ?)]]; split; auto. right. exists p. set_solver.
Qed.

Lemma chain_snoc Φ N T j q i z :
  chain ℓ Φ N T j q → last (j :: q) = Some z → n_next (N i) = None → n_locked (N i) = 0 →
  Φ i = QPrev ℓ (T z) → chain ℓ Φ N T j (q ++ [i]).
Proof.
  revert j. induction q as [| x q IH]; intros j Hc Hz Hn Hl HΦ; simpl in *.
  - simplify_eq. split; [split; [done | left; auto] | done].
  - destruct Hc. split; [done |]. by apply IH.
Qed.

(** The thread behind [p] finds it in the table. *)
Lemma chain_found Φ N T j q i p :
  NoDup (j :: q) → chain ℓ Φ N T j q → i ∈ q → Φ i = QPrev ℓ (T p) → p ∈ j :: q →
  (∀ x y, x ∈ j :: q → y ∈ j :: q → T x = T y → x = y) →
  chain ℓ (<[i := QLink ℓ (Some p)]> Φ) N T j q.
Proof.
  revert j. induction q as [| x q IH]; intros j Hnd Hc Hi HΦ Hp Hinj; [set_solver |].
  apply NoDup_cons in Hnd as [Hj Hnd]. destruct Hc as [Hb Hc].
  destruct (decide (i = x)) as [-> | Hx].
  - split.
    + destruct Hb as [Hl [[Hn [E | E]] | [_ E]]]; [| congruence..].
      rewrite HΦ in E. injection E as E. apply Hinj in E; [| done | set_solver]. subst.
      split; [done |]. left. split; [done |]. right. by rewrite fn_lookup_insert.
    + eapply chain_ext; [| done | done]. intros y Hy. rewrite fn_lookup_insert_ne; [done |].
      apply NoDup_cons in Hnd as [? _]. naive_solver.
  - split.
    + unfold behind in *. by rewrite fn_lookup_insert_ne by done.
    + assert (Hi' : i ∈ q) by set_solver.
      destruct (decide (p = j)) as [-> |].
      * exfalso. destruct (chain_waits _ _ _ _ _ _ Hc Hi') as [_ [E | (p & Hp' & [E | E])]]; [congruence | | congruence].
        rewrite HΦ in E. injection E as E. apply Hinj in E; [| set_solver..]. by subst.
      * apply IH; [done.. | set_solver | set_solver].
Qed.

(** The thread behind [p] links itself. *)
Lemma chain_link Φ N T j q i p :
  NoDup (j :: q) → chain ℓ Φ N T j q → i ∈ q → Φ i = QLink ℓ (Some p) →
  p ∈ j :: q ∧ n_next (N p) = None ∧
  chain ℓ (<[i := QSpin ℓ]> Φ) (<[p := QNode (Some i) (n_locked (N p))]> N) T j q.
Proof.
  revert j. induction q as [| x q IH]; intros j Hnd Hc Hi HΦ; [set_solver |].
  apply NoDup_cons in Hnd as [Hj Hnd]. destruct Hc as [Hb Hc].
  destruct (decide (i = x)) as [-> | Hx].
  - destruct Hb as [Hl [[Hn [E | E]] | [_ E]]]; [congruence | | congruence].
    rewrite HΦ in E. injection E as ->.
    apply NoDup_cons in Hnd as [Hx Hnd]. split_and!; [set_solver | done |]. split.
    + split; [| right; by rewrite !fn_lookup_insert].
      rewrite fn_lookup_insert_ne by (intros ->; set_solver). done.
    + eapply chain_ext; [.. | done].
      * intros y Hy. rewrite fn_lookup_insert_ne; [done |]. naive_solver.
      * intros y Hy. rewrite fn_lookup_insert_ne; [done |]. intros ->. set_solver.
  - assert (Hi' : i ∈ q) by set_solver.
    destruct (IH _ Hnd Hc Hi' HΦ) as (Hp & Hpn & IHc). split_and!; [set_solver | done |].
    split; [| done]. assert (p ≠ j) by (intros ->; done).
    destruct Hb as [Hl Hb]. split.
    + destruct (decide (x = p)) as [-> |]; [by rewrite fn_lookup_insert |].
      by rewrite fn_lookup_insert_ne by done.
    + by rewrite !fn_lookup_insert_ne by done.
Qed.

(** The head's node names the next thread, once it is linked. *)
Lemma chain_next Φ N T j q i :
  chain ℓ Φ N T j q → n_next (N j) = Some i → ∃ q', q = i :: q' ∧ Φ i = QSpin ℓ ∧ chain ℓ Φ N T i q'.
Proof.
  destruct q as [| x q]; simpl; [congruence |].
  intros [[_ [[? _] | [? ?]]] ?] ?; [congruence |]. simplify_eq. eauto.
Qed.
End chain.

(** ** Roles *)

Definition idle_at (φ : phase) (ℓ : lockid) : Prop := pending φ ≠ Some ℓ ∧ queued φ ≠ Some ℓ.

Lemma taking_role φ ℓ : taking φ = Some ℓ → pending φ = Some ℓ ∨ queued φ = Some ℓ.
Proof. destruct φ; simpl; auto. Qed.
Lemma wants_next_queued φ ℓ : wants_next φ = Some ℓ → queued φ = Some ℓ.
Proof. destruct φ; simpl; repeat case_match; auto; congruence. Qed.

Lemma idle_not_taking φ ℓ : idle_at φ ℓ → taking φ ≠ Some ℓ.
Proof. intros [? ?] ?%taking_role. naive_solver. Qed.
Lemma idle_not_wanting φ ℓ : idle_at φ ℓ → wants_next φ ≠ Some ℓ.
Proof. intros [? ?] ?%wants_next_queued. naive_solver. Qed.

(** What registration gives the queue: a node's tail fits the word's upper half,
    is never null, and names its thread. *)
Record tails_ok (Φ : tid → phase) (T : tid → Z) : Prop := {
  to_some : ∀ i ℓ, queued (Φ i) = Some ℓ → T i ≠ 0;
  to_range : ∀ i, T i ≠ 0 → 0 < Z.shiftr (T i) 16 < 2 ^ 16;
  to_whole : ∀ i, T i ≠ 0 → Z.shiftl (Z.shiftr (T i) 16) 16 = T i;
  to_inj : ∀ i j, T i ≠ 0 → T i = T j → i = j;
}.

Section lock.
Variables (ℓ : lockid) (v : Z) (Φ : tid → phase) (H : tid → gset lockid).
Variables (N : tid → dc_qnode) (T : tid → Z) (own pnd : option tid) (q : list tid).
Hypothesis L : lock_inv ℓ v Φ H N T own pnd q.

(** Nothing the lock depends on has changed. *)
Lemma lock_inv_quiet Φ' H' N' T' :
  (∀ j, Φ' j = Φ j ∨ idle_at (Φ j) ℓ ∧ idle_at (Φ' j) ℓ ∧ (joining (Φ j) = Some ℓ → joining (Φ' j) = Some ℓ)) →
  (∀ j, owns (Φ' j) (H' j) ℓ ↔ owns (Φ j) (H j) ℓ) →
  (∀ j, Φ' j = UStore ℓ → ℓ ∉ H' j) →
  (∀ j, j ∈ q → N' j = N j ∧ T' j = T j) →
  lock_inv ℓ v Φ' H' N' T' own pnd q.
Proof.
  intros HΦ HH HU HN.
  assert (Hq : ∀ x, x ∈ q → Φ' x = Φ x).
  { intros x Hx. destruct (HΦ x) as [| ([_ Hi] & _)]; [done |]. by apply L in Hx. }
  split.
  - rewrite (li_val _ _ _ _ _ _ _ _ _ L). f_equal. unfold tail_of.
    destruct (last q) eqn:E; [| done]. apply last_Some_elem_of in E. by destruct (HN _ E) as [_ ->].
  - intros i. by rewrite HH, (li_own _ _ _ _ _ _ _ _ _ L).
  - intros i. rewrite <- (li_pnd _ _ _ _ _ _ _ _ _ L).
    destruct (HΦ i) as [-> | ([? ?] & [? ?] & _)]; naive_solver.
  - intros i. rewrite <- (li_que _ _ _ _ _ _ _ _ _ L).
    destruct (HΦ i) as [-> | ([? ?] & [? ?] & _)]; naive_solver.
  - apply L.
  - pose proof (li_queue _ _ _ _ _ _ _ _ _ L) as Hqu. destruct q as [| h r]; [done |].
    destruct Hqu as [Hh Hc]. split.
    + unfold head_ok in *. rewrite Hq by set_solver. by destruct (HN h ltac:(set_solver)) as [-> _].
    + eapply chain_ext; [| | done]; set_solver.
  - done.
  - intros i Hi. destruct (HΦ i) as [E | (_ & Hq' & _)]; [| by apply idle_not_taking in Hq'].
    rewrite E in Hi. by eapply L.
  - intros i j Hi Hqi Hj. destruct (HΦ i) as [E | (_ & Hq' & _)]; [| by apply idle_not_taking in Hq'].
    rewrite E in *. pose proof (li_head _ _ _ _ _ _ _ _ _ L i j Hi Hqi Hj) as Hu.
    destruct (HΦ j) as [-> | ([Hp _] & _)]; [done |]. by rewrite Hu in Hp.
  - intros i Hi. destruct (HΦ i) as [E | (_ & Hq' & _)]; [| by apply idle_not_wanting in Hq'].
    rewrite E in Hi. destruct (li_more _ _ _ _ _ _ _ _ _ L i Hi) as (j & Hj & Hjj).
    exists j. split; [done |]. destruct (HΦ j) as [-> | (_ & _ & ?)]; naive_solver.
Qed.

(** Thread [i] moves, and that is nothing to the lock. *)
Lemma lock_inv_pass_by i φ' N' T' :
  idle_at (Φ i) ℓ → idle_at φ' ℓ → (joining (Φ i) = Some ℓ → joining φ' = Some ℓ) →
  (owning φ' = Some ℓ ↔ owning (Φ i) = Some ℓ) → φ' ≠ UStore ℓ →
  (∀ j, j ≠ i → j ∈ q → N' j = N j ∧ T' j = T j) →
  lock_inv ℓ v (<[i := φ']> Φ) H N' T' own pnd q.
Proof.
  intros Hi Hi' Hj Ho Hu HN. apply lock_inv_quiet.
  - intros j. at_thread j i; [by right | by left].
  - intros j. at_thread j i; [| done]. unfold owns. by rewrite Ho.
  - intros j. at_thread j i; [done |]. apply L.
  - intros j Hjq. apply HN; [| done]. intros ->. by apply L, Hi in Hjq.
Qed.

(** Thread [i] moves, and takes the lock's state with it. *)
Lemma lock_inv_move i φ' v' N' own' pnd' q' :
  v' = word (some own') (some pnd') (tail_of T q') →
  φ' ≠ UStore ℓ →
  (∀ j, j ≠ i → own' = Some j ↔ own = Some j) → (owns φ' (H i) ℓ ↔ own' = Some i) →
  (∀ j, j ≠ i → pnd' = Some j ↔ pnd = Some j) → (pending φ' = Some ℓ ↔ pnd' = Some i) →
  (∀ j, j ≠ i → j ∈ q' ↔ j ∈ q) → (queued φ' = Some ℓ ↔ i ∈ q') →
  NoDup q' → queue_ok ℓ (<[i := φ']> Φ) N' T q' →
  (own' = None ∨ taking φ' ≠ Some ℓ ∧ ∀ j, j ≠ i → taking (Φ j) ≠ Some ℓ) →
  (taking φ' = Some ℓ → queued φ' = Some ℓ → ∀ j, j ≠ i → pnd = Some j → Φ j = LUndo ℓ) →
  (∀ j, j ≠ i → taking (Φ j) = Some ℓ → queued (Φ j) = Some ℓ → pnd' = Some i → φ' = LUndo ℓ) →
  (wants_next φ' = Some ℓ → ∃ j, j ≠ i ∧ (joining (Φ j) = Some ℓ ∨ j ∈ q)) →
  (∀ j, j ≠ i → wants_next (Φ j) = Some ℓ → joining (Φ i) = Some ℓ ∨ i ∈ q →
        joining φ' = Some ℓ ∨ i ∈ q') →
  lock_inv ℓ v' (<[i := φ']> Φ) H N' T own' pnd' q'.
Proof.
  intros Hv Hu Ho Hoi Hp Hpi Hq Hqi Hnd Hqu Hfree Hh Hhi Hw Hwi. split; [done | | | | done | done | | | |].
  - intros j. at_thread j i; [done |]. rewrite Ho by done. apply L.
  - intros j. at_thread j i; [done |]. rewrite Hp by done. apply L.
  - intros j. at_thread j i; [done |]. rewrite Hq by done. apply L.
  - intros j. at_thread j i; [done |]. apply L.
  - intros j. destruct Hfree as [-> | [? Hf]]; [done |]. at_thread j i; [done |].
    intros Hj. by apply Hf in Hj.
  - intros j k. at_thread j i; intros Hj Hqj Hk.
    + at_thread k i; [apply Hpi in Hk; by destruct φ' |]. apply Hh; [done.. |]. by apply Hp.
    + at_thread k i; [by eapply Hhi |]. eapply L; [done.. | by apply Hp].
  - intros j. at_thread j i; intros Hj.
    + destruct (Hw Hj) as (k & Hk & Hkk). exists k. split; [done |].
      rewrite fn_lookup_insert_ne by done. by rewrite Hq.
    + destruct (li_more _ _ _ _ _ _ _ _ _ L j Hj) as (k & Hk & Hkk). exists k. split; [done |].
      at_thread k i; [by eapply Hwi |]. by rewrite Hq.
Qed.

Lemma in_queue j : j ∈ q → queued (Φ j) = Some ℓ.
Proof. apply L. Qed.

(** Behind the head a thread has not passed its wait. *)
Definition past_wait (φ : phase) : Prop :=
  match φ with
  | QNext _ | QHead _ _ | QClaim _ _ | QTake _ _ | QWait _ | QPass _ _ => True
  | _ => False
  end.

Lemma past_wait_head i : queued (Φ i) = Some ℓ → past_wait (Φ i) → ∃ r, q = i :: r.
Proof.
  intros Hi Hp. apply L in Hi. pose proof (li_queue _ _ _ _ _ _ _ _ _ L) as Hqu.
  destruct q as [| h r]; [set_solver |]. destruct Hqu as [_ Hc].
  apply elem_of_cons in Hi as [-> | Hi]; [eauto |].
  destruct (chain_waits _ _ _ _ _ _ _ Hc Hi) as [_ [E | (p & _ & [E | E])]]; by rewrite E in Hp.
Qed.

(** A thread behind the head of the queue is woken by nobody else. *)
Lemma woken_head i : Φ i = QSpin ℓ → n_locked (N i) ≠ 0 → ∃ r, q = i :: r.
Proof.
  intros Hi Hl. assert (Hi' : i ∈ q) by (apply L; by rewrite Hi).
  pose proof (li_queue _ _ _ _ _ _ _ _ _ L) as Hqu.
  destruct q as [| h r]; [set_solver |]. destruct Hqu as [_ Hc].
  apply elem_of_cons in Hi' as [-> | Hi']; [eauto |].
  by destruct (chain_waits _ _ _ _ _ _ _ Hc Hi') as [? _].
Qed.

(** Two threads about to take the lock are one. *)
Lemma taking_unique i j : taking (Φ i) = Some ℓ → taking (Φ j) = Some ℓ → i = j.
Proof.
  assert (Hq : ∀ i, queued (Φ i) = Some ℓ → taking (Φ i) = Some ℓ → ∃ r, q = i :: r).
  { intros k Hk Hk'. apply past_wait_head; [done |]. by destruct (Φ k). }
  intros Hi Hj. destruct (taking_role _ _ Hi) as [Hpi | Hqi], (taking_role _ _ Hj) as [Hpj | Hqj].
  - apply L in Hpi, Hpj. congruence.
  - apply L in Hpi. pose proof (li_head _ _ _ _ _ _ _ _ _ L j i Hj Hqj Hpi) as E. by rewrite E in Hi.
  - apply L in Hpj. pose proof (li_head _ _ _ _ _ _ _ _ _ L i j Hi Hqi Hpj) as E. by rewrite E in Hj.
  - destruct (Hq _ Hqi Hi) as [? E], (Hq _ Hqj Hj) as [? E']. congruence.
Qed.

Lemma queue_ok_other i φ' N' :
  i ∉ q → (∀ x, x ∈ q → N' x = N x) → queue_ok ℓ (<[i := φ']> Φ) N' T q.
Proof.
  intros Hi HN. pose proof (li_queue _ _ _ _ _ _ _ _ _ L) as Hqu.
  assert (HΦ : ∀ x, x ∈ q → <[i := φ']> Φ x = Φ x).
  { intros x Hx. apply fn_lookup_insert_ne. naive_solver. }
  destruct q as [| h r]; [done |]. destruct Hqu as [Hh Hc]. split.
  - unfold head_ok. rewrite HΦ, HN by set_solver. done.
  - eapply chain_ext; [| | done]; set_solver.
Qed.

Lemma keep_free i φ' :
  (taking φ' = Some ℓ → own = None) →
  own = None ∨ taking φ' ≠ Some ℓ ∧ ∀ j, j ≠ i → taking (Φ j) ≠ Some ℓ.
Proof.
  intros Hf. destruct (decide (own = None)) as [| Ho]; [by left | right]. split; [naive_solver |].
  intros j _ Hj. by apply L in Hj.
Qed.

Hypothesis Ht : tails_ok Φ T.

Lemma tail_of_range : q ≠ [] → 0 < tail_of T q < 2 ^ 16.
Proof.
  intros Hq. unfold tail_of. destruct (last q) eqn:E; [| by apply last_None in E].
  apply Ht. eapply Ht. by apply in_queue, last_Some_elem_of.
Qed.

Lemma tail_of_0 : tail_of T q = 0 → q = [].
Proof. intros E. destruct (decide (q = [])); [done |]. apply tail_of_range in n. lia. Qed.

Lemma free_word : v = 0 → own = None ∧ pnd = None ∧ q = [].
Proof.
  intros E. rewrite (li_val _ _ _ _ _ _ _ _ _ L) in E.
  apply word_eq_0 in E as (? & ? & ?%tail_of_0). by destruct own, pnd.
Qed.

(** *** Taking a free lock in one access *)
Lemma lock_inv_take_free i φ' :
  v = 0 → owning φ' = Some ℓ → idle_at φ' ℓ → φ' ≠ UStore ℓ →
  lock_inv ℓ DC_Q_LOCKED_VAL (<[i := φ']> Φ) H N T (Some i) None [].
Proof.
  intros Hv Ho [Hp Hq] Hu. destruct (free_word Hv) as (Eo & Ep & Eq).
  assert (Hno : ∀ j, queued (Φ j) ≠ Some ℓ).
  { intros j Hj%L. rewrite Eq in Hj. by apply elem_of_nil in Hj. }
  apply lock_inv_move; rewrite ?Eo, ?Ep, ?Eq; try done.
  - naive_solver.
  - split; [done |]. intros _. by right.
  - split; [done |]. by intros ?%elem_of_nil.
  - by constructor.
  - right. split; [by apply idle_not_taking |].
    intros j Hj Hjt. apply taking_role in Hjt as [Hjt%L | Hjt]; [congruence | by apply Hno in Hjt].
  - by intros ?%wants_next_queued.
  - intros j _ Hj%wants_next_queued. by apply Hno in Hj.
Qed.

(** *** The pending byte *)
Lemma lock_inv_pend i φ' :
  pnd = None → pending φ' = Some ℓ → idle_at (Φ i) ℓ → owning (Φ i) ≠ Some ℓ →
  (taking φ' = Some ℓ → own = None) → φ' = LUndo ℓ ∨ q = [] → joining (Φ i) ≠ Some ℓ →
  lock_inv ℓ (word (some own) true (tail_of T q)) (<[i := φ']> Φ) H N T own (Some i) q.
Proof.
  intros Ep Hp [Hpi Hqi] Hoi Htk Hu Hji.
  assert (φ' ≠ UStore ℓ) by (by intros ->).
  assert (Hq' : queued φ' = None) by (by destruct φ').
  assert (Ho' : owning φ' = None) by (by destruct φ').
  assert (Hno : ∀ j, queued (Φ j) = Some ℓ → φ' = LUndo ℓ).
  { intros j Hj%L. destruct Hu as [| E]; [done |]. rewrite E in Hj. by apply elem_of_nil in Hj. }
  apply lock_inv_move; rewrite ?Hq'; try done.
  - rewrite <- (li_own _ _ _ _ _ _ _ _ _ L). unfold owns. rewrite Ho'. naive_solver.
  - intros j Hj. rewrite Ep. naive_solver.
  - split; [done |]. intros Hi%L. done.
  - apply L.
  - apply queue_ok_other; [by intros Hi%L | done].
  - by apply keep_free.
  - intros j _ _ Hj. by apply Hno in Hj.
  - intros Hw%wants_next_queued. congruence.
  - intros j _ Hj [? | ?]; [done |]. by right.
Qed.

Lemma lock_inv_undo i :
  Φ i = LUndo ℓ →
  lock_inv ℓ (word (some own) false (tail_of T q)) (<[i := QTail ℓ]> Φ) H N T own None q.
Proof.
  intros Hi. assert (Hp : pnd = Some i) by (apply L; by rewrite Hi).
  assert (Hq : i ∉ q) by (intros Hq%L; by rewrite Hi in Hq).
  apply lock_inv_move; try done.
  - rewrite <- (li_own _ _ _ _ _ _ _ _ _ L), Hi. done.
  - rewrite Hp. naive_solver.
  - apply L.
  - by apply queue_ok_other.
  - by apply keep_free.
  - intros j _ Hj _. by left.
Qed.

Lemma lock_inv_owner_gone i :
  Φ i = LSpin ℓ → own = None → lock_inv ℓ v (<[i := LTake ℓ]> Φ) H N T own pnd q.
Proof.
  intros Hi Ho. assert (Hp : pnd = Some i) by (apply L; by rewrite Hi).
  assert (Hq : i ∉ q) by (intros Hq%L; by rewrite Hi in Hq).
  apply lock_inv_move; try done.
  - apply L.
  - rewrite <- (li_own _ _ _ _ _ _ _ _ _ L), Hi. done.
  - apply L.
  - by apply queue_ok_other.
  - by left.
  - intros j _ Hj Hj' _. pose proof (li_head _ _ _ _ _ _ _ _ _ L _ _ Hj Hj' Hp). congruence.
  - intros j _ _ [Hi' | ?]; [by rewrite Hi in Hi' |]. done.
Qed.

Lemma lock_inv_take_pending i :
  Φ i = LTake ℓ →
  lock_inv ℓ (word true false (tail_of T q)) (<[i := LRet ℓ]> Φ) H N T (Some i) None q.
Proof.
  intros Hi. assert (Hp : pnd = Some i) by (apply L; by rewrite Hi).
  assert (Hq : i ∉ q) by (intros Hq%L; by rewrite Hi in Hq).
  assert (Hti : taking (Φ i) = Some ℓ) by (by rewrite Hi).
  assert (Ho : own = None) by (by eapply L).
  apply lock_inv_move; try done.
  - rewrite Ho. naive_solver.
  - split; [done |]. intros _. by right.
  - rewrite Hp. naive_solver.
  - apply L.
  - by apply queue_ok_other.
  - right. split; [done |]. intros j Hj Hjt. by apply Hj, taking_unique.
  - intros j _ _ [Hi' | ?]; [by rewrite Hi in Hi' |]. by right.
Qed.

Lemma lock_inv_unlock i :
  Φ i = UStore ℓ →
  lock_inv ℓ (word false (some pnd) (tail_of T q)) (<[i := URet ℓ]> Φ) H N T None pnd q.
Proof.
  intros Hi. assert (Ho : own = Some i) by (apply L; right; by rewrite Hi).
  assert (Hq : i ∉ q) by (intros Hq%L; by rewrite Hi in Hq).
  apply lock_inv_move; try done.
  - rewrite Ho. naive_solver.
  - split; [| done]. intros [Hh | ?]; [| done]. by eapply L in Hi.
  - rewrite <- (li_pnd _ _ _ _ _ _ _ _ _ L), Hi. done.
  - apply L.
  - by apply queue_ok_other.
  - by left.
  - intros j _ Hj Hj' E. pose proof (li_head _ _ _ _ _ _ _ _ _ L _ _ Hj Hj' E). congruence.
  - intros j _ _ [Hi' | ?]; [by rewrite Hi in Hi' |]. by right.
Qed.

(** *** The queue *)
Definition entry : phase :=
  match last q with Some z => QPrev ℓ (T z) | None => QHead ℓ None end.

Lemma lock_inv_enqueue i :
  Φ i = QXchg ℓ → N i = QNode None 0 →
  lock_inv ℓ (word (some own) (some pnd) (Z.shiftr (T i) 16)) (<[i := entry]> Φ) H N T own pnd (q ++ [i]).
Proof.
  intros Hi HN. assert (Hq : i ∉ q) by (intros Hq%L; by rewrite Hi in Hq).
  assert (He : entry = QHead ℓ None ∨ ∃ o, entry = QPrev ℓ o).
  { unfold entry. destruct (last q); eauto. }
  apply lock_inv_move; try done.
  - unfold tail_of. by rewrite last_snoc.
  - by destruct He as [-> | [? ->]].
  - rewrite <- (li_own _ _ _ _ _ _ _ _ _ L), Hi. by destruct He as [-> | [? ->]].
  - rewrite <- (li_pnd _ _ _ _ _ _ _ _ _ L), Hi. by destruct He as [-> | [? ->]].
  - set_solver.
  - split; [set_solver |]. intros _. by destruct He as [-> | [? ->]].
  - apply NoDup_app. split_and!; [apply L | set_solver | apply NoDup_singleton].
  - pose proof (queue_ok_other i entry N Hq ltac:(done)) as Hqu. unfold entry in *.
    destruct q as [| h r] eqn:E; simpl.
    + split; [| by rewrite HN]. unfold head_ok. rewrite fn_lookup_insert. by left.
    + destruct Hqu as [Hh Hc]. split; [done |].
      destruct (last (h :: r)) as [z |] eqn:Ez; [| by apply last_None in Ez].
      eapply chain_snoc; [done | done | by rewrite HN.. | by rewrite fn_lookup_insert].
  - apply keep_free. by destruct He as [-> | [? ->]].
  - by destruct He as [-> | [? ->]].
  - intros j _ Hj Hj' E. pose proof (li_head _ _ _ _ _ _ _ _ _ L _ _ Hj Hj' E). congruence.
  - by destruct He as [-> | [? ->]].
  - intros j _ _ _. right. set_solver.
Qed.

(** A thread of the queue goes on in it. *)
Lemma lock_inv_inside i φ' N' :
  queued (Φ i) = Some ℓ → queued φ' = Some ℓ → owning φ' = owning (Φ i) →
  queue_ok ℓ (<[i := φ']> Φ) N' T q →
  (taking φ' = Some ℓ → own = None ∧ ∀ j, pnd = Some j → Φ j = LUndo ℓ) →
  (wants_next φ' = Some ℓ → ∃ j, j ≠ i ∧ (joining (Φ j) = Some ℓ ∨ j ∈ q)) →
  lock_inv ℓ v (<[i := φ']> Φ) H N' T own pnd q.
Proof.
  intros Hi Hi' Ho Hqu Htk Hw.
  assert (Hp : pending (Φ i) = None) by (by destruct (Φ i)).
  assert (Hp' : pending φ' = None) by (by destruct φ').
  apply lock_inv_move; try done.
  - apply L.
  - by intros ->.
  - rewrite <- (li_own _ _ _ _ _ _ _ _ _ L). unfold owns. by rewrite Ho.
  - rewrite <- (li_pnd _ _ _ _ _ _ _ _ _ L). by rewrite Hp, Hp'.
  - rewrite <- (li_que _ _ _ _ _ _ _ _ _ L). by rewrite Hi, Hi'.
  - apply L.
  - apply keep_free. naive_solver.
  - intros Hj _ j _. by apply Htk.
  - intros j _ Hj Hj' E. pose proof (li_head _ _ _ _ _ _ _ _ _ L _ _ Hj Hj' E) as E'.
    by rewrite E' in Hi.
  - intros j _ _ _. right. by apply L.
Qed.

Lemma lock_inv_found i o p :
  Φ i = QPrev ℓ o → T p = o → p ∈ q →
  lock_inv ℓ v (<[i := QLink ℓ (Some p)]> Φ) H N T own pnd q.
Proof.
  intros Hi Hp Hpq. assert (Hiq : i ∈ q) by (apply L; by rewrite Hi).
  apply lock_inv_inside; rewrite ?Hi; try done.
  pose proof (li_queue _ _ _ _ _ _ _ _ _ L) as Hqu. pose proof (li_nodup _ _ _ _ _ _ _ _ _ L) as Hnd.
  assert (Hinj : ∀ x y, x ∈ q → y ∈ q → T x = T y → x = y).
  { intros x y Hx Hy. apply Ht. eapply Ht. by apply in_queue. }
  destruct q as [| h r]; [done |]. destruct Hqu as [Hh Hc].
  assert (i ≠ h) by (intros ->; unfold head_ok in Hh; by rewrite Hi in Hh).
  split; [unfold head_ok in *; by rewrite fn_lookup_insert_ne |].
  eapply chain_found; eauto; [set_solver | by rewrite Hi, Hp].
Qed.

Lemma lock_inv_link i p :
  Φ i = QLink ℓ (Some p) →
  p ∈ q ∧ lock_inv ℓ v (<[i := QSpin ℓ]> Φ) H (<[p := QNode (Some i) (n_locked (N p))]> N) T own pnd q.
Proof.
  intros Hi. assert (Hiq : i ∈ q) by (apply L; by rewrite Hi).
  pose proof (li_queue _ _ _ _ _ _ _ _ _ L) as Hqu. pose proof (li_nodup _ _ _ _ _ _ _ _ _ L) as Hnd.
  assert (p ∈ q ∧ queue_ok ℓ (<[i := QSpin ℓ]> Φ) (<[p := QNode (Some i) (n_locked (N p))]> N) T q) as [? ?];
    [| split; [done |]; apply lock_inv_inside; by rewrite ?Hi].
  destruct q as [| h r]; [by apply elem_of_nil in Hiq |]. destruct Hqu as [Hh Hc].
  assert (Hne : i ≠ h) by (intros ->; unfold head_ok in Hh; by rewrite Hi in Hh).
  assert (Hir : i ∈ r) by set_solver.
  destruct (chain_link ℓ Φ N T h r i p Hnd Hc Hir Hi) as (Hp & Hn & ?).
  split; [done |]. split; [| done].
  unfold head_ok in *. rewrite fn_lookup_insert_ne by done.
  destruct (decide (h = p)) as [-> |]; [| by rewrite fn_lookup_insert_ne].
  rewrite fn_lookup_insert. rewrite Hn in Hh. destruct (Φ p); naive_solver.
Qed.

(** The head goes on. *)
Lemma lock_inv_head i r φ' :
  q = i :: r → queued φ' = Some ℓ → owning φ' = owning (Φ i) → head_ok (<[i := φ']> Φ) N i →
  (taking φ' = Some ℓ → own = None ∧ ∀ j, pnd = Some j → Φ j = LUndo ℓ) →
  (wants_next φ' = Some ℓ → ∃ j, j ≠ i ∧ (joining (Φ j) = Some ℓ ∨ j ∈ q)) →
  lock_inv ℓ v (<[i := φ']> Φ) H N T own pnd q.
Proof.
  intros Eq Hi' Ho Hh Htk Hw.
  apply lock_inv_inside; try done; [apply in_queue; rewrite Eq; set_solver |].
  pose proof (li_queue _ _ _ _ _ _ _ _ _ L) as Hqu. pose proof (li_nodup _ _ _ _ _ _ _ _ _ L) as Hnd.
  rewrite Eq in *. apply NoDup_cons in Hnd as [Hir _]. destruct Hqu as [_ Hc]. split; [done |].
  eapply chain_ext; [| | done]; [| done]. intros x Hx. apply fn_lookup_insert_ne. naive_solver.
Qed.

Lemma tail_other i r : q = i :: r → tail_of T q ≠ Z.shiftr (T i) 16 → ∃ j, j ≠ i ∧ j ∈ q.
Proof.
  intros Eq. pose proof (li_nodup _ _ _ _ _ _ _ _ _ L) as Hnd. rewrite Eq in *.
  destruct r as [| j r]; [done |]. intros _. exists j. apply NoDup_cons in Hnd as [? _].
  split; [intros -> |]; set_solver.
Qed.

Lemma tail_self i r : q = i :: r → tail_of T q = Z.shiftr (T i) 16 → q = [i].
Proof.
  intros Eq E. assert (Hi : i ∈ q) by (rewrite Eq; set_solver).
  unfold tail_of in E. destruct (last q) as [z |] eqn:Hz; [| apply last_None in Hz; congruence].
  assert (Hzi : z = i).
  { apply last_Some_elem_of, in_queue, (to_some _ _ Ht) in Hz. apply in_queue, (to_some _ _ Ht) in Hi.
    apply Ht; [done |]. by rewrite <- (to_whole _ _ Ht z), E, (to_whole _ _ Ht i). }
  subst z. pose proof (li_nodup _ _ _ _ _ _ _ _ _ L) as Hnd. rewrite Eq in *.
  apply NoDup_cons in Hnd as [Hr _]. destruct r as [| j r]; [done |].
  rewrite last_cons_cons in Hz. by apply last_Some_elem_of in Hz.
Qed.

Lemma head_of i : queued (Φ i) = Some ℓ → past_wait (Φ i) → head_ok Φ N i ∧ ∃ r, q = i :: r.
Proof.
  intros Hi Hp. destruct (past_wait_head i Hi Hp) as [r Eq].
  pose proof (li_queue _ _ _ _ _ _ _ _ _ L) as Hqu. rewrite Eq in Hqu. destruct Hqu. eauto.
Qed.

(** The head sees the lock free. *)
Lemma lock_inv_see_free i nx :
  Φ i = QHead ℓ nx → own = None → pnd = None →
  (tail_of T q = Z.shiftr (T i) 16 → lock_inv ℓ v (<[i := QClaim ℓ nx]> Φ) H N T own pnd q) ∧
  (tail_of T q ≠ Z.shiftr (T i) 16 → lock_inv ℓ v (<[i := QTake ℓ nx]> Φ) H N T own pnd q).
Proof.
  intros Hi Ho Hp. destruct (head_of i) as [Hh [r Eq]]; [by rewrite Hi.. |].
  unfold head_ok in Hh. rewrite Hi in Hh.
  split; intros Htl; (eapply lock_inv_head; [done | done | by rewrite Hi | | |]).
  all: try (unfold head_ok; by rewrite fn_lookup_insert).
  all: try (intros _; split; [done |]; intros j E; congruence).
  - done.
  - intros _. destruct (tail_other i r Eq Htl) as (j & ? & ?). eauto.
Qed.

(** The claim of the word fails: somebody queued behind, or pends in passing. *)
Lemma lock_inv_claim_fails i nx :
  Φ i = QClaim ℓ nx → v ≠ T i → lock_inv ℓ v (<[i := QTake ℓ nx]> Φ) H N T own pnd q.
Proof.
  intros Hi Hv. destruct (head_of i) as [Hh [r Eq]]; [by rewrite Hi.. |].
  unfold head_ok in Hh. rewrite Hi in Hh.
  assert (Hti : taking (Φ i) = Some ℓ) by (by rewrite Hi).
  assert (Hqi : queued (Φ i) = Some ℓ) by (by rewrite Hi).
  assert (Ho : own = None) by (by eapply (li_free _ _ _ _ _ _ _ _ _ L)).
  eapply lock_inv_head; [done | done | by rewrite Hi | | |].
  - unfold head_ok. by rewrite fn_lookup_insert.
  - intros _. split; [done |]. intros j. by apply (li_head _ _ _ _ _ _ _ _ _ L i).
  - intros _. destruct (decide (pnd = None)) as [Hp | Hp].
    + edestruct (tail_other i r Eq) as (j & ? & ?); [| eauto]. intros Htl. apply Hv.
      rewrite (li_val _ _ _ _ _ _ _ _ _ L), Ho, Hp, Htl. unfold word. simpl.
      rewrite Z.lor_0_r. by eapply Ht, Ht.
    + apply not_eq_None_Some in Hp as [j Hj].
      pose proof (li_head _ _ _ _ _ _ _ _ _ L i j Hti Hqi Hj) as Hu.
      exists j. split; [congruence |]. left. by rewrite Hu.
Qed.

(** The head is alone and takes the word. *)
Lemma lock_inv_claim i nx :
  Φ i = QClaim ℓ nx → v = T i →
  lock_inv ℓ DC_Q_LOCKED_VAL (<[i := LRet ℓ]> Φ) H N T (Some i) None [].
Proof.
  intros Hi Hv. destruct (head_of i) as [_ [r Eq]]; [by rewrite Hi.. |].
  assert (Hti : taking (Φ i) = Some ℓ) by (by rewrite Hi).
  assert (Hqi : queued (Φ i) = Some ℓ) by (by rewrite Hi).
  assert (Hne : T i ≠ 0) by (by eapply Ht).
  assert (Hw : word (some own) (some pnd) (tail_of T q) = word false false (Z.shiftr (T i) 16)).
  { rewrite <- (li_val _ _ _ _ _ _ _ _ _ L), Hv. unfold word. simpl.
    by rewrite Z.lor_0_r, (to_whole _ _ Ht). }
  assert (Htl : tail_of T q = Z.shiftr (T i) 16).
  { apply (f_equal load_tail) in Hw. by rewrite !word_load_tail in Hw. }
  assert (Ho : own = None) by (by eapply (li_free _ _ _ _ _ _ _ _ _ L)).
  assert (Hp : pnd = None).
  { apply (f_equal (λ w, Z.land w DC_Q_PENDING_MASK =? 0)) in Hw.
    rewrite !word_pending_mask in Hw. by destruct pnd. }
  pose proof (tail_self i r Eq Htl) as Eq'.
  apply lock_inv_move; rewrite ?Ho, ?Hp; try done.
  - naive_solver.
  - split; [done |]. intros _. by right.
  - intros j Hj. rewrite Eq'. set_solver.
  - split; [done |]. by intros ?%elem_of_nil.
  - by constructor.
  - right. split; [done |]. intros j Hj Hjt. by apply Hj, taking_unique.
  - intros j Hj Hjw%wants_next_queued%L. rewrite Eq' in Hjw. set_solver.
Qed.

(** The head takes the locked byte. *)
Lemma lock_inv_take i nx :
  Φ i = QTake ℓ nx →
  lock_inv ℓ (word true (some pnd) (tail_of T q)) (<[i := took nx ℓ]> Φ) H N T (Some i) pnd q.
Proof.
  intros Hi. destruct (head_of i) as [Hh [r Eq]]; [by rewrite Hi.. |].
  assert (Hti : taking (Φ i) = Some ℓ) by (by rewrite Hi).
  assert (Hqi : queued (Φ i) = Some ℓ) by (by rewrite Hi).
  assert (Ho : own = None) by (by eapply (li_free _ _ _ _ _ _ _ _ _ L)).
  assert (Htook : owning (took nx ℓ) = Some ℓ ∧ queued (took nx ℓ) = Some ℓ ∧
                  pending (took nx ℓ) = None ∧ taking (took nx ℓ) = None) by (by destruct nx).
  destruct Htook as (Ho' & Hq' & Hp' & Ht').
  apply lock_inv_move; rewrite ?Ho; try done.
  - by destruct nx.
  - naive_solver.
  - split; [done |]. intros _. by right.
  - rewrite <- (li_pnd _ _ _ _ _ _ _ _ _ L), Hi, Hp'. done.
  - split; [| done]. intros _. by apply L.
  - apply L.
  - pose proof (li_queue _ _ _ _ _ _ _ _ _ L) as Hqu. pose proof (li_nodup _ _ _ _ _ _ _ _ _ L) as Hnd.
    rewrite Eq in *. apply NoDup_cons in Hnd as [Hir _]. destruct Hqu as [_ Hc]. split.
    + unfold head_ok in *. rewrite Hi in Hh. rewrite fn_lookup_insert. destruct nx; naive_solver.
    + eapply chain_ext; [| | done]; [| done]. intros x Hx. apply fn_lookup_insert_ne. naive_solver.
  - right. split; [by rewrite Ht' |]. intros j Hj Hjt. by apply Hj, taking_unique.
  - by rewrite Ht'.
  - intros j Hj Hjt _ _. destruct (Hj (taking_unique _ _ Hjt Hti)).
  - intros Hw. apply (li_more _ _ _ _ _ _ _ _ _ L). rewrite Hi. by destruct nx.
  - intros j _ _ _. right. by apply L.
Qed.

(** The owner hands the queue on to its successor, which sees it is the head. *)
Lemma lock_inv_pass i x :
  Φ i = QPass ℓ (Some x) →
  x ∈ q ∧ lock_inv ℓ v (<[i := LRet ℓ]> Φ) H (<[x := QNode (n_next (N x)) 1]> N) T own pnd (tail q).
Proof.
  intros Hi. destruct (head_of i) as [Hh [r Eq]]; [by rewrite Hi.. |].
  unfold head_ok in Hh. rewrite Hi in Hh. destruct Hh as [Hx _].
  assert (Ho : own = Some i) by (apply L; right; by rewrite Hi).
  pose proof (li_queue _ _ _ _ _ _ _ _ _ L) as Hqu. rewrite Eq in Hqu. destruct Hqu as [_ Hc].
  destruct (chain_next _ _ _ _ _ _ _ Hc (eq_sym Hx)) as (r' & -> & Hxs & Hc').
  pose proof (li_nodup _ _ _ _ _ _ _ _ _ L) as Hnd. rewrite Eq in Hnd.
  apply NoDup_cons in Hnd as [Hir Hnd].
  split; [rewrite Eq; set_solver |]. rewrite Eq. simpl.
  assert (Hix : i ≠ x) by set_solver.
  apply lock_inv_move; try done.
  - rewrite (li_val _ _ _ _ _ _ _ _ _ L). unfold tail_of. by rewrite Eq, last_cons_cons.
  - split; [done |]. intros _. by right.
  - rewrite <- (li_pnd _ _ _ _ _ _ _ _ _ L), Hi. done.
  - intros j Hj. rewrite Eq. set_solver.
  - split.
    + unfold head_ok. rewrite fn_lookup_insert_ne, Hxs, fn_lookup_insert by done. done.
    + apply NoDup_cons in Hnd as [Hxr _].
      assert (HΦ : ∀ y, y ∈ r' → <[i := LRet ℓ]> Φ y = Φ y).
      { intros y Hy. apply fn_lookup_insert_ne. set_solver. }
      destruct r' as [| y r'']; simpl in *; [by rewrite fn_lookup_insert |].
      destruct Hc' as [Hb Hc']. split.
      * unfold behind in *. rewrite HΦ, fn_lookup_insert by set_solver.
        by rewrite fn_lookup_insert_ne by set_solver.
      * eapply chain_ext; [| | done]; [set_solver |].
        intros z Hz. by rewrite fn_lookup_insert_ne by set_solver.
  - right. split; [done |]. intros j Hj Hjt%L. congruence.
  - intros j _ Hj Hj' E. pose proof (li_head _ _ _ _ _ _ _ _ _ L _ _ Hj Hj' E). congruence.
  - intros j Hj Hjw Hor. exfalso. destruct (past_wait_head j) as [r2 E2].
    + by apply wants_next_queued.
    + by destruct (Φ j).
    + congruence.
Qed.
End lock.

(** ** One access *)

Lemma tail_word_hi k : Z.shiftr (tail_word k) 16 = Z.of_nat k + 1.
Proof. unfold tail_word, DC_Q_TAIL_OFFSET. rewrite Z.shiftr_shiftl_l by lia. apply Z.shiftl_0_r. Qed.

Lemma reg_tails n regs m Φ : reg_inv n regs m Φ → tails_ok Φ (q_tail m).
Proof.
  intros R. split.
  - intros i ℓ Hi. pose proof (ri_point _ _ _ _ R i) as Hp. by destruct (Φ i).
  - intros i Hi. destruct (ri_tail _ _ _ _ R i Hi) as (k & [_ ?] & -> & _). rewrite tail_word_hi.
    unfold DC_Q_MAX_NODES in *. lia.
  - intros i Hi. destruct (ri_tail _ _ _ _ R i Hi) as (k & _ & -> & _). by rewrite tail_word_hi.
  - intros i j Hi E. assert (Hj : q_tail m j ≠ 0) by congruence.
    destruct (ri_tail _ _ _ _ R i Hi) as (k & [Hk _] & Ek & _).
    destruct (ri_tail _ _ _ _ R j Hj) as (k' & [Hk' _] & Ek' & _).
    assert (E' : Z.shiftr (tail_word k) 16 = Z.shiftr (tail_word k') 16) by congruence.
    rewrite !tail_word_hi in E'. assert (k = k') by lia. congruence.
Qed.

(** A tail of the lock word leads to its node. *)
Lemma reg_tab n regs m Φ i :
  reg_inv n regs m Φ → q_tail m i ≠ 0 →
  q_tab m (Z.shiftr (q_tail m i) DC_Q_TAIL_OFFSET - 1) = Some i.
Proof.
  intros R Hi. destruct (ri_tail _ _ _ _ R i Hi) as (k & _ & -> & <-).
  unfold DC_Q_TAIL_OFFSET. rewrite tail_word_hi. f_equal. lia.
Qed.

Lemma w32_tail T Φ i : tails_ok Φ T → T i ≠ 0 → w32 (Z.shiftl (Z.shiftr (T i) 16) 16) = T i.
Proof.
  intros Ht Hi. pose proof (to_range _ _ Ht i Hi). unfold w32.
  rewrite Z.mod_small; [by apply Ht |]. rewrite Z.shiftl_mul_pow2 by lia. lia.
Qed.

Section move.
Variables (n : nat) (regs : list tid) (m : qmem) (Φ : tid → phase) (H : tid → gset lockid).
Variables (ℓ : lockid) (own pnd : option tid) (q : list tid).
Hypothesis R : reg_inv n regs m Φ.
Hypothesis L : lock_inv ℓ (q_val m ℓ) Φ H (q_node m) (q_tail m) own pnd q.
Hypothesis Hnode : ∀ i, node_ok (Φ i) (q_node m i).

Let Ht : tails_ok Φ (q_tail m) := reg_tails _ _ _ _ R.

(** The lock after the move of one of its threads. *)
Definition lock_after (i : tid) (φ' : phase) (m' : qmem) : Prop :=
  ∃ own' pnd' q', lock_inv ℓ (q_val m' ℓ) (<[i := φ']> Φ) H (q_node m') (q_tail m') own' pnd' q'.

Lemma quiet_move i φ' m' :
  q_val m' ℓ = q_val m ℓ → idle_at (Φ i) ℓ → idle_at φ' ℓ →
  (joining (Φ i) = Some ℓ → joining φ' = Some ℓ) →
  (owning φ' = Some ℓ ↔ owning (Φ i) = Some ℓ) → φ' ≠ UStore ℓ →
  (∀ j, j ≠ i → q_node m' j = q_node m j ∧ q_tail m' j = q_tail m j) →
  lock_after i φ' m'.
Proof.
  intros Hv ?????? . exists own, pnd, q. rewrite Hv. eapply lock_inv_pass_by; eauto.
Qed.

Lemma take_move i φ' m' :
  q_val m ℓ = 0 → owning φ' = Some ℓ → idle_at φ' ℓ → φ' ≠ UStore ℓ → m' = set_val ℓ DC_Q_LOCKED_VAL m →
  lock_after i φ' m'.
Proof.
  intros Hv ??? ->. exists (Some i), None, []. cbn. rewrite fn_lookup_insert.
  by eapply lock_inv_take_free.
Qed.

Ltac quiet_case := apply quiet_move; [done | by split | by split | done | done | done | try done].

Lemma contend_move i φ' :
  idle_at (Φ i) ℓ → joining (Φ i) ≠ Some ℓ → owning (Φ i) ≠ Some ℓ →
  φ' = QTail ℓ ∨ φ' = LOr ℓ ∨ (∃ c, φ' = LHand ℓ c) → lock_after i φ' m.
Proof.
  intros Hi Hj Ho [-> | [-> | [c ->]]].
  all: apply quiet_move; [done | done | by split | done | split; intros E; [discriminate E | by apply Ho in E] | done | done].
Qed.

Lemma contend_cases v : contend ℓ v = QTail ℓ ∨ contend ℓ v = LOr ℓ ∨ (∃ c, contend ℓ v = LHand ℓ c).
Proof. unfold contend. case_match; auto. Qed.

(** The word, by the lock's state. *)
Lemma val_word : q_val m ℓ = word (some own) (some pnd) (tail_of (q_tail m) q).
Proof. apply L. Qed.

Lemma or_move i φ' m' :
  Φ i = LOr ℓ → move i (LOr ℓ) m = Some (φ', m') → lock_after i φ' m'.
Proof.
  intros Hi Hm. unfold move in Hm. cbv zeta in Hm. injection Hm as <- <-.
  assert (Hidle : idle_at (Φ i) ℓ) by (by rewrite Hi).
  unfold lock_after. cbn. rewrite fn_lookup_insert, val_word, word_or_pending.
  rewrite word_beyond_mask, word_pending_mask, word_locked_mask.
  destruct (decide (pnd = None)) as [Ep | Ep].
  - rewrite Ep. exists own, (Some i), q.
    destruct (Z.eqb_spec (tail_of (q_tail m) q) 0) as [E | E]; cbn.
    + eapply tail_of_0 in E; [| done..].
      eapply lock_inv_pend; try done; rewrite ?Hi; try done; [| | by right]; by destruct (some own) eqn:Eo; destruct own.
    + eapply lock_inv_pend; try done; rewrite ?Hi; try done. by left.
  - assert (Es : some pnd = true) by (by destruct pnd). rewrite Es. cbn. exists own, pnd, q.
    rewrite <- Es, <- val_word.
    eapply lock_inv_pass_by; [done | done | by split | by rewrite Hi | by rewrite Hi | done | done].
Qed.

Lemma xchg_move i φ' m' :
  Φ i = QXchg ℓ → move i (QXchg ℓ) m = Some (φ', m') → lock_after i φ' m'.
Proof.
  intros Hi Hm. unfold move in Hm. cbv zeta in Hm. apply (inj Some), pair_eq in Hm as [<- <-].
  assert (Hti : q_tail m i ≠ 0) by (pose proof (ri_point _ _ _ _ R i) as Hp; by rewrite Hi in Hp).
  assert (HN : q_node m i = QNode None 0) by (pose proof (Hnode i) as Hn; by rewrite Hi in Hn).
  pose proof (to_range _ _ Ht i Hti) as Hr.
  exists own, pnd, (q ++ [i]). cbn. rewrite fn_lookup_insert, val_word, word_store_tail, word_load_tail.
  change DC_Q_TAIL_OFFSET with 16. rewrite (Z.mod_small (Z.shiftr _ 16)) by lia.
  replace (if negb _ then _ else _) with (entry ℓ (q_tail m) q); [by eapply lock_inv_enqueue |].
  unfold entry, tail_of. destruct (last q) as [z |] eqn:Ez; [| done].
  assert (Hz : q_tail m z ≠ 0).
  { eapply Ht, in_queue; [done |]. by apply last_Some_elem_of in Ez. }
  rewrite (w32_tail _ _ _ Ht Hz).
  pose proof (to_range _ _ Ht z Hz). pose proof (word_tail_mask false false (Z.shiftr (q_tail m z) 16)) as Hw.
  unfold word in Hw. cbn in Hw. rewrite Z.lor_0_r, (to_whole _ _ Ht z Hz) in Hw. rewrite Hw by lia.
  apply Z.eqb_neq in Hz. by rewrite Hz.
Qed.

Lemma prev_move i o φ' m' :
  Φ i = QPrev ℓ o → move i (QPrev ℓ o) m = Some (φ', m') → lock_after i φ' m'.
Proof.
  intros Hi Hm. injection Hm as <- <-. exists own, pnd, q.
  assert (Hiq : i ∈ q) by (apply L; by rewrite Hi).
  pose proof (li_queue _ _ _ _ _ _ _ _ _ L) as Hqu.
  assert (∃ p, p ∈ q ∧ o = q_tail m p) as (p & Hp & ->).
  { destruct q as [| h r]; [by apply elem_of_nil in Hiq |]. destruct Hqu as [Hh Hc].
    apply elem_of_cons in Hiq as [-> | Hiq]; [unfold head_ok in Hh; by rewrite Hi in Hh |].
    destruct (chain_waits _ _ _ _ _ _ _ Hc Hiq) as [_ [E | (p & Hp & [E | E])]]; [congruence | | congruence].
    exists p. split; [done | congruence]. }
  assert (Hp0 : q_tail m p ≠ 0) by (eapply Ht, in_queue; done).
  rewrite (reg_tab _ _ _ _ _ R Hp0). by eapply lock_inv_found.
Qed.

Lemma stay_move i φ :
  Φ i = φ → lock_inv ℓ (q_val m ℓ) (<[i := φ]> Φ) H (q_node m) (q_tail m) own pnd q.
Proof.
  intros <-. eapply lock_inv_quiet; [done | | | | done].
  - intros j. left. by at_thread j i.
  - intros j. by at_thread j i.
  - intros j. at_thread j i; apply L.
Qed.

Lemma head_move i nx φ' m' :
  Φ i = QHead ℓ nx → move i (QHead ℓ nx) m = Some (φ', m') → lock_after i φ' m'.
Proof.
  intros Hi Hm. unfold move in Hm. cbv zeta in Hm. injection Hm as <- <-.
  assert (Hti : q_tail m i ≠ 0) by (pose proof (ri_point _ _ _ _ R i) as Hp; by rewrite Hi in Hp).
  assert (Hqi : i ∈ q) by (apply L; by rewrite Hi).
  assert (Hr : 0 < tail_of (q_tail m) q < 2 ^ 16).
  { eapply tail_of_range; [done.. |]. intros E. rewrite E in Hqi. by apply elem_of_nil in Hqi. }
  exists own, pnd, q.
  assert (Elp : (Z.land (q_val m ℓ) DC_Q_LOCKED_PENDING_MASK =? 0) = negb (some own) && negb (some pnd))
    by (rewrite val_word; apply word_lp_mask).
  assert (Etl : Z.land (q_val m ℓ) DC_Q_TAIL_MASK = Z.shiftl (tail_of (q_tail m) q) 16)
    by (rewrite val_word; apply word_tail_mask; lia).
  rewrite Elp, Etl.
  assert (Hstay : lock_inv ℓ (q_val m ℓ) (<[i := QHead ℓ nx]> Φ) H (q_node m) (q_tail m) own pnd q)
    by (by apply stay_move).
  destruct (some own) eqn:Eo; [done |]. destruct (some pnd) eqn:Ep; [done |]. cbn.
  assert (Eo' : own = None) by (by destruct own). assert (Ep' : pnd = None) by (by destruct pnd).
  destruct (lock_inv_see_free _ _ _ _ _ _ _ _ _ L Ht i nx Hi Eo' Ep') as [Hc Hn].
  destruct (Z.eqb_spec (Z.shiftl (tail_of (q_tail m) q) 16) (q_tail m i)) as [E | E].
  - apply Hc. apply (f_equal (λ z, Z.shiftr z 16)) in E. rewrite Z.shiftr_shiftl_l, Z.shiftl_0_r in E by lia.
    done.
  - apply Hn. intros E'. apply E. rewrite E'. by apply Ht.
Qed.

(** The other moves of the queue. *)
Lemma queue_move i φ' m' :
  queued (Φ i) = Some ℓ → move i (Φ i) m = Some (φ', m') → lock_after i φ' m'.
Proof.
  intros Hq Hm. destruct (Φ i) as [| | | | | | | | | | | | | | | | | | ℓ' o | ℓ' p | ℓ' | ℓ' | ℓ' nx | ℓ' nx | ℓ' nx | ℓ' | ℓ' nx | | | | |] eqn:Hi; try done; injection Hq as ->.
  - by eapply prev_move.
  - destruct p as [p |]; [| done]. injection Hm as <- <-.
    destruct (lock_inv_link _ _ _ _ _ _ _ _ _ L Ht i p Hi) as [_ ?]. by exists own, pnd, q.
  - unfold move in Hm. destruct (Z.eqb_spec (n_locked (q_node m i)) 0) as [E | E].
    all: injection Hm as <- <-; exists own, pnd, q.
    1: by apply stay_move.
    destruct (woken_head _ _ _ _ _ _ _ _ _ L i Hi E) as [r Eq].
    eapply lock_inv_head; try done; [by rewrite Hi |]. unfold head_ok. by rewrite fn_lookup_insert.
  - injection Hm as <- <-. exists own, pnd, q.
    destruct (head_of _ _ _ _ _ _ _ _ _ L i) as [_ [r Eq]]; [by rewrite Hi.. |].
    eapply lock_inv_head; try done; [by rewrite Hi |]. unfold head_ok. rewrite fn_lookup_insert. by right.
  - by eapply head_move.
  - unfold move in Hm. destruct (Z.eqb_spec (q_val m ℓ) (q_tail m i)) as [E | E].
    all: injection Hm as <- <-.
    + exists (Some i), None, []. cbn. rewrite fn_lookup_insert. by eapply lock_inv_claim.
    + exists own, pnd, q. by eapply lock_inv_claim_fails.
  - injection Hm as <- <-. exists (Some i), pnd, q. cbn. rewrite fn_lookup_insert, val_word.
    rewrite (word_store_locked _ _ _ true). by eapply lock_inv_take.
  - unfold move in Hm. destruct (n_next (q_node m i)) as [x |] eqn:Ex; injection Hm as <- <-.
    all: exists own, pnd, q.
    2: by apply stay_move.
    destruct (head_of _ _ _ _ _ _ _ _ _ L i) as [_ [r Eq]]; [by rewrite Hi.. |].
    eapply lock_inv_head; try done; [by rewrite Hi |]. unfold head_ok. by rewrite fn_lookup_insert.
  - destruct nx as [x |]; [| done]. injection Hm as <- <-. exists own, pnd, (tail q).
    by destruct (lock_inv_pass _ _ _ _ _ _ _ _ _ L Ht i x Hi) as [_ ?].
Qed.

Lemma pending_move i φ' m' :
  pending (Φ i) = Some ℓ → move i (Φ i) m = Some (φ', m') → lock_after i φ' m'.
Proof.
  intros Hp Hm. destruct (Φ i) eqn:Hi; try done; injection Hp as ->.
  - injection Hm as <- <-. exists own, None, q. cbn. rewrite fn_lookup_insert, val_word, word_store_pending.
    by eapply lock_inv_undo.
  - unfold move in Hm. rewrite val_word, word_load_locked in Hm. injection Hm as <- <-.
    exists own, pnd, q. destruct (some own) eqn:Eo; cbn; [by apply stay_move |].
    eapply lock_inv_owner_gone; try done. by destruct own.
  - injection Hm as <- <-. exists (Some i), None, q. cbn.
    rewrite fn_lookup_insert, val_word, word_store_locked_pending. by eapply lock_inv_take_pending.
Qed.

Lemma lock_move i φ' m' :
  lock_at (Φ i) = Some ℓ → move i (Φ i) m = Some (φ', m') → lock_after i φ' m'.
Proof.
  intros Hl Hm.
  destruct (decide (queued (Φ i) = Some ℓ)); [by apply queue_move |].
  destruct (decide (pending (Φ i) = Some ℓ)); [by apply pending_move |].
  assert (Hidle : idle_at (Φ i) ℓ) by done.
  destruct (Φ i) eqn:Hi; try done; injection Hl as ->.
  - unfold move in Hm. destruct (Z.eqb_spec (q_val m ℓ) 0) as [E | E]; injection Hm as <- <-.
    + by apply take_move.
    + apply contend_move; rewrite ?Hi; try done. case_match; eauto using contend_cases.
  - injection Hm as <- <-. apply contend_move; rewrite ?Hi; try done.
    repeat case_match; eauto using contend_cases.
  - by apply or_move.
  - injection Hm as <- <-. case_match; apply quiet_move; by rewrite ?Hi.
  - injection Hm as <- <-. case_match; apply quiet_move; by rewrite ?Hi.
  - injection Hm as <- <-. apply quiet_move; by rewrite ?Hi.
  - injection Hm as <- <-. apply quiet_move; rewrite ?Hi; try done.
    intros j Hj. cbn. by rewrite fn_lookup_insert_ne.
  - injection Hm as <- <-. apply quiet_move; rewrite ?Hi; try done.
    intros j Hj. cbn. by rewrite fn_lookup_insert_ne.
  - injection Hm as <- <-. apply quiet_move; rewrite ?Hi; try done.
    intros j Hj. cbn. by rewrite fn_lookup_insert_ne.
  - injection Hm as <- <-. case_match; apply quiet_move; by rewrite ?Hi.
  - unfold move in Hm. destruct (Z.eqb_spec (q_val m ℓ) 0) as [E | E]; injection Hm as <- <-.
    + by apply take_move.
    + apply quiet_move; by rewrite ?Hi.
  - by apply xchg_move.
  - injection Hm as <- <-. case_match; apply quiet_move; by rewrite ?Hi.
  - unfold move in Hm. destruct (Z.eqb_spec (q_val m ℓ) 0) as [E | E]; injection Hm as <- <-.
    + by apply take_move.
    + apply quiet_move; by rewrite ?Hi.
  - injection Hm as <- <-. exists None, pnd, q. cbn. rewrite fn_lookup_insert, val_word.
    rewrite (word_store_locked _ _ _ false). by eapply lock_inv_unlock.
Qed.

(** The node an access writes, if it writes one. *)
Definition touched (φ : phase) (i : tid) : option tid :=
  match φ with QInit _ | QNull _ => Some i | QLink _ p => p | QPass _ x => x | _ => None end.

Lemma touched_own i j : lock_at (Φ i) = Some ℓ → touched (Φ i) i = Some j → j = i ∨ queued (Φ j) = Some ℓ.
Proof.
  intros Hl Hj. destruct (Φ i) eqn:Hi; try discriminate Hj; injection Hl as ->; cbn in Hj; subst.
  - left. congruence.
  - left. congruence.
  - right. eapply in_queue; [done |]. by destruct (lock_inv_link _ _ _ _ _ _ _ _ _ L Ht i j Hi).
  - right. eapply in_queue; [done |]. by destruct (lock_inv_pass _ _ _ _ _ _ _ _ _ L Ht i j Hi).
Qed.

End move.

Lemma move_frame i φ m φ' m' ℓ :
  move i φ m = Some (φ', m') → lock_at φ = Some ℓ →
  lock_at φ' = Some ℓ ∧ φ' ≠ UStore ℓ ∧ (∀ ℓ', ℓ' ≠ ℓ → q_val m' ℓ' = q_val m ℓ') ∧
  (∀ j, touched φ i ≠ Some j → q_node m' j = q_node m j) ∧ (∀ j, j ≠ i → q_tail m' j = q_tail m j).
Proof.
  intros Hm Hl. destruct φ; try done; injection Hl as ->.
  all: try (match goal with x : option nat |- _ => destruct x end); try done.
  all: unfold move, contend, took in Hm; cbv zeta in Hm; cases_in Hm; injection Hm as <- <-.
  all: split_and!; [done | done | ..]; intros; cbn in *; by rewrite ?fn_lookup_insert_ne by congruence.
Qed.

Lemma role_at φ ℓ :
  pending φ = Some ℓ ∨ queued φ = Some ℓ ∨ owning φ = Some ℓ ∨ joining φ = Some ℓ → lock_at φ = Some ℓ.
Proof. destruct φ; simpl; try case_match; naive_solver. Qed.
