(* ===== verification/QspinSafe.v ===== *)
(** The queued spinlock in every reachable state: mutual exclusion, no access
    through a null node, the bounds of the lock word and of the node table, and no
    lost wakeup. *)

From S2P Require Import Prelude Qspinlock QspinInv QspinSpec.

(** ** The node table after a move *)

Section reg.
Variables (n : nat) (regs : list tid) (m : qmem) (Φ : tid → phase).
Hypothesis R : reg_inv n regs m Φ.

Lemma reg_point_move m' i φ' :
  q_count m' = q_count m → q_tail m' = q_tail m → q_tab m' = q_tab m →
  reg_ok regs (q_tab m) φ' (q_tail m i) i → reg_inv n regs m' (<[i := φ']> Φ).
Proof.
  intros Hc Ht Htab Hφ. split; rewrite ?Hc, ?Ht, ?Htab; try apply R.
  intros j. at_thread j i; [done | apply R].
Qed.

Lemma registered_inj k k' i : registered regs i k → registered regs i k' → k = k'.
Proof. intros [? _] [? _]. eapply NoDup_lookup; [apply R | done..]. Qed.

Lemma reg_ok_grow tab φ t i j :
  i ≠ j → reg_ok regs tab φ t j → reg_ok (regs ++ [i]) tab φ t j.
Proof.
  intros Hij. assert (Hj : j ∉ regs → j ∉ regs ++ [i]) by set_solver.
  assert (Hk : ∀ k, registered regs j k → registered (regs ++ [i]) j k).
  { intros k [Hk ?]. split; [by apply lookup_app_l_Some | done]. }
  destruct φ; simpl; try naive_solver. rewrite length_app. naive_solver lia.
Qed.

Lemma reg_count_bound i : (i < n)%nat → i ∉ regs → (length regs < n)%nat.
Proof.
  intros Hi Hn. assert (length (i :: regs) ≤ length (seq 0 n))%nat as Hl; [| rewrite length_seq in Hl; simpl in Hl; lia].
  apply submseteq_length, NoDup_submseteq.
  - constructor; [done | apply R].
  - intros x Hx. apply elem_of_seq. apply elem_of_cons in Hx as [-> | Hx]; [lia |].
    apply R in Hx. lia.
Qed.

Lemma reg_length : (length regs ≤ n)%nat.
Proof.
  rewrite <- (length_seq n 0). apply submseteq_length, NoDup_submseteq; [apply R |].
  intros x Hx%R. apply elem_of_seq. lia.
Qed.

Lemma reg_fetch_add i ℓ :
  Φ i = QReg ℓ → (i < n)%nat → Z.of_nat n < 2 ^ 32 →
  reg_inv n (regs ++ [i]) (set_count (w32 (q_count m + 1)) m)
    (<[i := if DC_Q_MAX_NODES <=? q_count m then QStop ℓ else QTab ℓ (q_count m)]> Φ).
Proof.
  intros Hi Hin Hn. pose proof (ri_point _ _ _ _ R i) as Hp. rewrite Hi in Hp. destruct Hp as [Ht0 Hni].
  pose proof (reg_count_bound i Hin Hni) as Hb. pose proof (ri_count _ _ _ _ R) as Hc. split.
  - apply NoDup_app. split_and!; [apply R | set_solver | apply NoDup_singleton].
  - intros j [Hj | Hj]%elem_of_app; [by apply R |]. apply list_elem_of_singleton in Hj. by subst.
  - cbn. rewrite Hc, length_app. unfold w32. rewrite Z.mod_small by lia. simpl. lia.
  - intros j Hj. destruct (ri_tail _ _ _ _ R j Hj) as (k & [Hk ?] & ?). exists k.
    split; [split; [by apply lookup_app_l_Some | done] | done].
  - intros j. at_thread j i; [| apply reg_ok_grow; [done | apply R]]. cbn.
    destruct (Z.leb_spec DC_Q_MAX_NODES (q_count m)); [cbn; rewrite length_app; simpl; split; [done | lia] |]. split; [done |].
    exists (length regs). split; [done |]. split; [| lia].
    rewrite lookup_app_r, Nat.sub_diag by lia. done.
Qed.

Lemma reg_store_tab i ℓ idx :
  Φ i = QTab ℓ idx → reg_inv n regs (set_tab idx i m) (<[i := QSet ℓ idx]> Φ).
Proof.
  intros Hi. pose proof (ri_point _ _ _ _ R i) as Hp. rewrite Hi in Hp. destruct Hp as (Ht0 & k & -> & Hk).
  assert (Htab : ∀ j k', registered regs j k' → q_tab m (Z.of_nat k') = Some j →
                 <[Z.of_nat k := Some i]> (q_tab m) (Z.of_nat k') = Some j).
  { intros j k' Hj Hs. destruct (decide (Z.of_nat k' = Z.of_nat k)) as [E | E].
    - rewrite E, fn_lookup_insert. apply Nat2Z.inj in E. subst. destruct Hj, Hk. congruence.
    - by rewrite fn_lookup_insert_ne. }
  split; try apply R.
  - intros j Hj. destruct (ri_tail _ _ _ _ R j Hj) as (k' & Hk' & ? & ?). exists k'. cbn. auto.
  - intros j. at_thread j i; cbn.
    + split; [done |]. exists k. by rewrite fn_lookup_insert.
    + pose proof (ri_point _ _ _ _ R j) as Hp. destruct (Φ j); simpl in *; try done.
      destruct Hp as (? & k' & -> & ? & ?). eauto 10.
Qed.

Lemma reg_store_tail i ℓ idx :
  Φ i = QSet ℓ idx →
  reg_inv n regs (set_tail i (w32 (Z.shiftl (idx + 1) DC_Q_TAIL_OFFSET)) m) (<[i := QInit ℓ]> Φ).
Proof.
  intros Hi. pose proof (ri_point _ _ _ _ R i) as Hp. rewrite Hi in Hp.
  destruct Hp as (Ht0 & k & -> & Hk & Hs).
  assert (E : w32 (Z.shiftl (Z.of_nat k + 1) DC_Q_TAIL_OFFSET) = tail_word k).
  { unfold w32, tail_word, DC_Q_TAIL_OFFSET. rewrite Z.shiftl_mul_pow2 by lia. rewrite Z.mod_small; [done |].
    destruct Hk. unfold DC_Q_MAX_NODES in *. lia. }
  rewrite E. split; try apply R; cbn.
  - intros j. at_thread j i; [eauto | apply R].
  - intros j. at_thread j i; [| apply R]. cbn. intros E0. pose proof (tail_word_hi k) as Hh.
    rewrite E0, Z.shiftr_0_l in Hh. lia.
Qed.

Lemma reg_move i φ' m' :
  move i (Φ i) m = Some (φ', m') → (i < n)%nat → Z.of_nat n < 2 ^ 32 →
  ∃ regs', reg_inv n regs' m' (<[i := φ']> Φ).
Proof.
  intros Hm Hin Hn. pose proof (ri_point _ _ _ _ R i) as Hp. destruct (Φ i) eqn:Hi; try done.
  8: { unfold move in Hm. injection Hm as <- <-. eexists. by apply reg_fetch_add. }
  8: { injection Hm as <- <-. eexists. by apply reg_store_tab. }
  8: { injection Hm as <- <-. eexists. by apply reg_store_tail. }
  all: try (match goal with x : option nat |- _ => destruct x end); try done.
  all: unfold move, contend, took in Hm; cbv zeta in Hm; cases_in Hm; apply (inj Some), pair_eq in Hm as [<- <-].
  all: exists regs; apply reg_point_move; try done; rewrite ?Hi; try done.
  3-6: by intros ?.
  - apply negb_true_iff, Z.eqb_neq in E. done.
  - apply negb_false_iff, Z.eqb_eq in E. by split; [| apply Hp].
Qed.
End reg.

(** ** Nodes after a move *)

Lemma node_ok_queued φ ℓ x : queued φ = Some ℓ → node_ok φ x.
Proof. by destruct φ. Qed.

Lemma node_ok_move i φ m φ' m' :
  node_ok φ (q_node m i) → move i φ m = Some (φ', m') → node_ok φ' (q_node m' i).
Proof.
  intros Hn Hm. destruct φ; try done.
  all: try (match goal with x : option nat |- _ => destruct x end); try done.
  all: unfold move, contend, took in Hm; cbv zeta in Hm; cases_in Hm; apply (inj Some), pair_eq in Hm as [<- <-]; try done.
  all: cbn in *; rewrite fn_lookup_insert; try done; cbn; by rewrite Hn.
Qed.

(** ** The whole state after a step *)

Section step.
Variables (s : qstate) (Φ : tid → phase) (H : tid → gset lockid) (regs : list tid).
Variables (own pnd : lockid → option tid) (q : lockid → list tid).
Hypothesis Q : qinv s Φ H regs own pnd q.
Hypothesis Hn : Z.of_nat (length (q_threads s)) < 2 ^ 32.

Lemma lookup_bound i t : q_threads s !! i = Some t → (i < length (q_threads s))%nat.
Proof. apply lookup_lt_Some. Qed.

(** The threads once thread [i] is at [φ'] with the locks [h']. *)
Lemma threads_update i φ' h' m' t :
  q_threads s !! i = Some t → (∀ j, j ≠ i → q_tail m' j = q_tail (q_mem s) j) →
  let s' := update i (QThread (running i (q_tail m' i) φ') h') m' s in
  (∀ j t, q_threads s' !! j = Some t → t = QThread (running j (q_tail m' j) (<[i := φ']> Φ j)) (<[i := h']> H j)) ∧
  (∀ j, q_threads s' !! j = None → <[i := φ']> Φ j = Out ∧ <[i := h']> H j = ∅).
Proof.
  intros Hi HT. split; intros j.
  - intros u. cbn. at_thread j i.
    + rewrite list_lookup_insert_eq by (by eapply lookup_bound). congruence.
    + rewrite list_lookup_insert_ne, HT by done. apply Q.
  - cbn. at_thread j i.
    + rewrite list_lookup_insert_eq by (by eapply lookup_bound). done.
    + rewrite list_lookup_insert_ne by done. apply Q.
Qed.

Lemma qsafe_move i t φ' m' :
  q_threads s !! i = Some t → move i (Φ i) (q_mem s) = Some (φ', m') →
  qsafe (update i (QThread (running i (q_tail m' i) φ') (H i)) m' s).
Proof.
  intros Hi Hm. pose proof (lookup_bound _ _ Hi) as Hlt.
  assert (∃ ℓ, lock_at (Φ i) = Some ℓ) as [ℓ Hℓ] by (destruct (Φ i); try done; by eexists).
  destruct (move_frame _ _ _ _ _ _ Hm Hℓ) as (Hℓ' & Hu & Hv & HN & HT).
  pose proof (qi_reg _ _ _ _ _ _ _ Q) as R. pose proof (qi_lock _ _ _ _ _ _ _ Q) as L.
  destruct (reg_move _ _ _ _ R i φ' m' Hm Hlt Hn) as [regs' R'].
  destruct (lock_move _ _ _ _ _ _ _ _ _ R (L ℓ) (qi_node _ _ _ _ _ _ _ Q) i φ' m' Hℓ Hm) as (o' & p' & q' & Lℓ).
  destruct (threads_update i φ' (H i) m' t Hi HT) as [Hth Hout].
  assert (HH : ∀ j, <[i := H i]> H j = H j) by (intros j; by at_thread j i).
  exists (<[i := φ']> Φ), H, regs', (<[ℓ := o']> own), (<[ℓ := p']> pnd), (<[ℓ := q']> q). split.
  - intros j u Hj. rewrite (Hth _ _ Hj), HH. done.
  - intros j Hj. destruct (Hout _ Hj) as [? E]. by rewrite HH in E.
  - cbn. rewrite length_insert. apply Q.
  - intros j. cbn. at_thread j i; [by eapply node_ok_move, Hm; apply Q |].
    destruct (decide (touched (Φ i) i = Some j)) as [E | E].
    + destruct (touched_own _ _ _ _ _ _ _ _ _ R (L ℓ) i j Hℓ E) as [? | Hq]; [done |].
      by eapply node_ok_queued.
    + rewrite HN by done. apply Q.
  - cbn. by rewrite length_insert.
  - intros ℓ2. cbn. destruct (decide (ℓ2 = ℓ)) as [-> | Hne]; [by rewrite !fn_lookup_insert |].
    rewrite !fn_lookup_insert_ne, Hv by done.
    assert (Hat : lock_at (Φ i) ≠ Some ℓ2 ∧ lock_at φ' ≠ Some ℓ2) by (split; congruence).
    destruct Hat as [Hat Hat'].
    eapply lock_inv_pass_by; [apply L | ..].
    + split; intros E; apply Hat, role_at; auto.
    + split; intros E; apply Hat', role_at; auto.
    + intros E. destruct Hat. apply role_at; auto.
    + split; intros E; [destruct Hat' | destruct Hat]; apply role_at; auto.
    + intros ->. simpl in Hℓ'. congruence.
    + intros j Hj Hjq. split; [| by apply HT]. apply HN. intros E.
      destruct (touched_own _ _ _ _ _ _ _ _ _ R (L ℓ) i j Hℓ E) as [? | Hq]; [done |].
      apply (in_queue _ _ _ _ _ _ _ _ _ (L ℓ2)) in Hjq. congruence.
Qed.

(** Thread [i] goes to [φ'] and its locks to [h'] with no access made. *)
Lemma qsafe_quiet i t φ' h' :
  q_threads s !! i = Some t →
  (∀ ℓ, idle_at (Φ i) ℓ ∧ idle_at φ' ℓ) → (∀ ℓ, joining (Φ i) ≠ Some ℓ) →
  (∀ ℓ, owns φ' h' ℓ ↔ owns (Φ i) (H i) ℓ) → (∀ ℓ, φ' = UStore ℓ → ℓ ∉ h') →
  node_ok φ' (q_node (q_mem s) i) →
  reg_ok regs (q_tab (q_mem s)) φ' (q_tail (q_mem s) i) i →
  qsafe (update i (QThread (running i (q_tail (q_mem s) i) φ') h') (q_mem s) s).
Proof.
  intros Hi Hidle Hj Ho Hu Hnd Hr.
  destruct (threads_update i φ' h' (q_mem s) t Hi ltac:(done)) as [Hth Hout].
  exists (<[i := φ']> Φ), (<[i := h']> H), regs, own, pnd, q. split.
  - done.
  - done.
  - cbn. rewrite length_insert. apply Q.
  - intros j. cbn. at_thread j i; [done | apply Q].
  - cbn. rewrite length_insert. apply reg_point_move with (q_mem s); try done. apply Q.
  - intros ℓ. cbn. eapply lock_inv_quiet; [apply Q | ..].
    + intros j. at_thread j i; [| by left]. right. split; [apply Hidle |]. split; [apply Hidle |].
      by intros ?%Hj.
    + intros j. by at_thread j i.
    + intros j. at_thread j i; [apply Hu | apply Q].
    + done.
Qed.
End step.

(** The head of the queue claims a word of its own tail. *)
Lemma qinv_claims s Φ H regs own pnd q i :
  qinv s Φ H regs own pnd q → claims (q_tail (q_mem s) i) (Φ i) (q_mem s).
Proof.
  intros Q ℓ next Hi Hlp Htl. pose proof (qi_lock _ _ _ _ _ _ _ Q ℓ) as L.
  pose proof (li_val _ _ _ _ _ _ _ _ _ L) as Hv. rewrite Hv in *.
  pose proof (reg_tails _ _ _ _ (qi_reg _ _ _ _ _ _ _ Q)) as Ht.
  assert (Hr : 0 < tail_of (q_tail (q_mem s)) (q ℓ) < 2 ^ 16).
  { eapply tail_of_range; [done.. |]. intros E.
    assert (Hq : i ∈ q ℓ) by (apply L; by rewrite Hi). rewrite E in Hq. by apply elem_of_nil in Hq. }
  rewrite word_tail_mask in Htl by lia. apply Z.eqb_eq in Hlp. rewrite word_lp_mask in Hlp.
  rewrite <- Htl. destruct (some (own ℓ)), (some (pnd ℓ)); try done. unfold word. cbn. by rewrite Z.lor_0_r.
Qed.


#[local] Opaque DC_Q_PENDING_LOOPS.

(** A program that makes an access is at a point that has a move. *)
Lemma move_complete i t φ m c p x :
  running i t φ = Some (c, p) → advance p m = Some x → is_Some (move i φ m).
Proof.
  intros Hr Ha. destruct φ; try done.
  all: injection Hr as <- <-; try done.
  all: try (match goal with x : option nat |- _ => destruct x end); try done.
  all: unfold move; cbv zeta; try case_match; eexists; reflexivity.
Qed.

Lemma running_ret i t φ c r :
  running i t φ = Some (c, Ret r) →
  (∃ ℓ, φ = LRet ℓ ∧ c = CLock ℓ) ∨ (∃ ℓ, φ = TRet ℓ r ∧ c = CTry ℓ) ∨ ∃ ℓ, φ = URet ℓ ∧ c = CUnlock ℓ.
Proof.
  destruct φ; try done; intros [= <- E].
  all: try (match goal with n : nat |- _ => destruct n; discriminate E end); try discriminate E.
  all: naive_solver.
Qed.

Lemma running_out i t φ : running i t φ = None → φ = Out.
Proof. by destruct φ. Qed.

Section safe.
Variable (s : qstate).
Hypothesis Hn : Z.of_nat (length (q_threads s)) < 2 ^ 32.

Lemma qsafe_begin i c t :
  qsafe s → q_threads s !! i = Some t → th_run t = None → may_call c (th_held t) = true →
  qsafe (update i (QThread (Some (c, begin i c)) (enter c (th_held t))) (q_mem s) s).
Proof.
  intros (Φ & H & regs & own & pnd & q & Q) Hi Hrun Hmay.
  pose proof (qi_thread _ _ _ _ _ _ _ Q _ _ Hi) as ->. apply running_out in Hrun. cbn in *.
  pose proof (ri_point _ _ _ _ (qi_reg _ _ _ _ _ _ _ Q) i) as Hp. rewrite Hrun in Hp.
  destruct c as [ℓ | ℓ | ℓ]; cbn in *.
  - apply (qsafe_quiet _ _ _ _ _ _ _ Q) with (φ' := LCas ℓ) (t := QThread (running i (q_tail (q_mem s) i) (Φ i)) (H i));
      rewrite ?Hrun; try done; by rewrite <- Hrun.
  - apply (qsafe_quiet _ _ _ _ _ _ _ Q) with (φ' := TLoad ℓ) (t := QThread (running i (q_tail (q_mem s) i) (Φ i)) (H i));
      rewrite ?Hrun; try done; by rewrite <- Hrun.
  - apply (qsafe_quiet _ _ _ _ _ _ _ Q) with (φ' := UStore ℓ) (t := QThread (running i (q_tail (q_mem s) i) (Φ i)) (H i));
      rewrite ?Hrun; try done; try (by rewrite <- Hrun).
    + apply bool_decide_eq_true in Hmay. intros ℓ'. unfold owns. cbn.
      destruct (decide (ℓ' = ℓ)) as [-> |]; set_solver.
    + intros ℓ' [= ->]. set_solver.
Qed.

Lemma qsafe_return i c r t :
  qsafe s → q_threads s !! i = Some t → th_run t = Some (c, Ret r) →
  qsafe (update i (QThread None (leave c r (th_held t))) (q_mem s) s).
Proof.
  intros (Φ & H & regs & own & pnd & q & Q) Hi Hrun.
  pose proof (qi_thread _ _ _ _ _ _ _ Q _ _ Hi) as ->. cbn in *. apply running_ret in Hrun.
  pose proof (ri_point _ _ _ _ (qi_reg _ _ _ _ _ _ _ Q) i) as Hp.
  eapply (qsafe_quiet _ _ _ _ _ _ _ Q) with (φ' := Out); [done | ..].
  all: destruct Hrun as [(ℓ & Hφ & ->) | [(ℓ & Hφ & ->) | (ℓ & Hφ & ->)]]; rewrite Hφ in *; try done.
  - intros ℓ'. unfold owns. cbn. set_solver.
  - intros ℓ'. unfold owns. cbn. case_match; set_solver.
Qed.

Lemma qsafe_stop i c t :
  qsafe s → q_threads s !! i = Some t → th_run t = Some (c, Stop) →
  qsafe (QState (q_mem s) (q_threads s) true).
Proof.
  intros (Φ & H & regs & own & pnd & q & Q) Hi Hrun.
  pose proof (qi_thread _ _ _ _ _ _ _ Q _ _ Hi) as ->. cbn in *.
  assert (∃ ℓ, Φ i = QStop ℓ) as [ℓ Hφ].
  { destruct (Φ i) eqn:E; try done; apply (inj Some), pair_eq in Hrun as [_ E'].
    all: try (match goal with n : nat |- _ => destruct n; discriminate E' end); try discriminate E'.
    eauto. }
  pose proof (qi_reg _ _ _ _ _ _ _ Q) as R. pose proof (ri_point _ _ _ _ R i) as Hp.
  rewrite Hφ in Hp. destruct Hp as [_ Hp].
  exists Φ, H, regs, own, pnd, q. split; try apply Q. intros _. cbn.
  pose proof (reg_length _ _ _ _ R). lia.
Qed.

Lemma qsafe_access i c p p' m' t :
  qsafe s → q_threads s !! i = Some t → th_run t = Some (c, p) → advance p (q_mem s) = Some (p', m') →
  qsafe (update i (QThread (Some (c, p')) (th_held t)) m' s).
Proof.
  intros (Φ & H & regs & own & pnd & q & Q) Hi Hrun Ha.
  pose proof (qi_thread _ _ _ _ _ _ _ Q _ _ Hi) as ->. cbn in *.
  destruct (move_complete _ _ _ _ _ _ _ Hrun Ha) as [[φ' m2] Hm].
  destruct (move_sound i (Φ i) (q_mem s) φ' m2 c p) as (p2 & Ha2 & Hr2); [by eapply qinv_claims | done | done |].
  rewrite Ha in Ha2. injection Ha2 as <- <-. rewrite <- Hr2. by eapply qsafe_move.
Qed.

Lemma qsafe_step e s' : qsafe s → qstep e s = Some s' → qsafe s'.
Proof.
  intros Hs. unfold qstep. destruct (q_aborted s); [done |]. destruct e as [i c | i]; cbn.
  - destruct (q_threads s !! i) as [t |] eqn:Hi; [| done]. cbn.
    destruct (th_run t) eqn:Hr; [done |]. destruct (may_call _ _) eqn:Hc; [| done].
    intros [= <-]. by apply qsafe_begin.
  - destruct (q_threads s !! i) as [t |] eqn:Hi; [| done]. cbn.
    destruct (th_run t) as [[c p] |] eqn:Hr; [| done]. cbn.
    destruct p as [r | B a k | B a k |] eqn:Ep.
    + intros [= <-]. by apply qsafe_return.
    + destruct (advance _ _) as [[p' m'] |] eqn:Ha; [| done]. cbn. intros [= <-].
      by eapply qsafe_access.
    + destruct (advance _ _) as [[p' m'] |] eqn:Ha; [| done]. cbn. intros [= <-].
      by eapply qsafe_access.
    + intros [= <-]. by eapply qsafe_stop.
Qed.
End safe.

(** ** Reachable states *)

Lemma qsafe_init n : qsafe (qinit n).
Proof.
  exists (λ _, Out), (λ _, ∅), [], (λ _, None), (λ _, None), (λ _, []). split; cbn.
  - intros i t [-> _]%lookup_replicate. done.
  - done.
  - done.
  - done.
  - split; cbn; try done; [constructor | by intros ? ?%elem_of_nil | set_solver].
  - intros ℓ. split; cbn; try done.
    + intros i. split; [by intros [?%not_elem_of_empty | ?] | done].
    + intros i. split; [done | by intros ?%elem_of_nil].
    + constructor.
Qed.

(** A point with no move is a return or the abort: the queue's pointers are there. *)
Lemma qinv_move_defined s Φ H regs own pnd q i c p :
  qinv s Φ H regs own pnd q → running i (q_tail (q_mem s) i) (Φ i) = Some (c, p) →
  is_Some (move i (Φ i) (q_mem s)) ∨ p = Stop ∨ ∃ r, p = Ret r.
Proof.
  intros Q Hr. pose proof (qi_lock _ _ _ _ _ _ _ Q) as L.
  assert (Hlink : ∀ ℓ, Φ i ≠ QLink ℓ None).
  { intros ℓ Hi. assert (Hq : i ∈ q ℓ) by (apply L; by rewrite Hi).
    pose proof (li_queue _ _ _ _ _ _ _ _ _ (L ℓ)) as Hqu.
    destruct (q ℓ) as [| h r]; [by apply elem_of_nil in Hq |]. destruct Hqu as [Hh Hc].
    apply elem_of_cons in Hq as [-> | Hq]; [unfold head_ok in Hh; by rewrite Hi in Hh |].
    destruct (chain_waits _ _ _ _ _ _ _ Hc Hq) as [_ [E | (x & _ & [E | E])]]; congruence. }
  assert (Hpass : ∀ ℓ, Φ i ≠ QPass ℓ None).
  { intros ℓ Hi. destruct (head_of _ _ _ _ _ _ _ _ _ (L ℓ) i) as [Hh _]; [by rewrite Hi.. |].
    unfold head_ok in Hh. rewrite Hi in Hh. naive_solver. }
  destruct (Φ i) eqn:E; try done.
  all: try (injection Hr as <- <-; right; by eauto).
  all: try (match goal with x : option nat |- _ => destruct x end); try (by edestruct Hlink); try (by edestruct Hpass).
  all: left; unfold move; cbv zeta; try case_match; eexists; reflexivity.
Qed.

Lemma qstep_length e s s' : qstep e s = Some s' → length (q_threads s') = length (q_threads s).
Proof.
  unfold qstep. destruct (q_aborted s); [done |]. destruct e as [i c | i]; cbn.
  all: destruct (q_threads s !! i) as [t |]; [| done]; cbn; destruct (th_run t) as [[c' p] |]; try done; cbn.
  - case_match; [| done]. intros [= <-]. apply length_insert.
  - destruct p; [| destruct (advance _ _) as [[??] |]; [| done].. |]; intros [= <-]; cbn; by rewrite ?length_insert.
Qed.

Lemma qrun_safe es : ∀ s s',
  Z.of_nat (length (q_threads s)) < 2 ^ 32 → qsafe s → qrun es s = Some s' →
  qsafe s' ∧ length (q_threads s') = length (q_threads s).
Proof.
  induction es as [| e es IH]; intros s s' Hn Hs; cbn; [by intros [= <-] |].
  destruct (qstep e s) as [s1 |] eqn:E; [| done]. cbn. intros Hr.
  pose proof (qstep_length _ _ _ E) as Hl. rewrite <- Hl. apply IH; [by rewrite Hl | | done].
  by eapply qsafe_step.
Qed.

Section reachable.
Variables (n : nat) (es : list event) (s : qstate).
Hypothesis Hn : Z.of_nat n < 2 ^ 32.
Hypothesis Hrun : qrun es (qinit n) = Some s.

Lemma reachable_safe : qsafe s ∧ length (q_threads s) = n.
Proof.
  destruct (qrun_safe es (qinit n) s) as [? Hl]; [| apply qsafe_init | done |].
  - cbn. by rewrite length_replicate.
  - split; [done |]. rewrite Hl. apply length_replicate.
Qed.
End reachable.

(** C36: Mutual exclusion: two threads inside the critical section of one lock are one
    thread. *)
Theorem qspin_mutual_exclusion n es s i j ti tj ℓ :
  Z.of_nat n < 2 ^ 32 → qrun es (qinit n) = Some s →
  q_threads s !! i = Some ti → q_threads s !! j = Some tj →
  ℓ ∈ th_held ti → ℓ ∈ th_held tj → i = j.
Proof.
  intros Hn Hrun. destruct (reachable_safe n es s Hn Hrun) as [(Φ & H & regs & own & pnd & q & Q) _]. intros Hi Hj.
  pose proof (qi_thread _ _ _ _ _ _ _ Q _ _ Hi) as ->. pose proof (qi_thread _ _ _ _ _ _ _ Q _ _ Hj) as ->.
  cbn. intros Hhi Hhj. pose proof (qi_lock _ _ _ _ _ _ _ Q ℓ) as L.
  assert (Ei : own ℓ = Some i) by (apply L; by left). assert (Ej : own ℓ = Some j) by (apply L; by left).
  congruence.
Qed.

(** C39: A thread inside a call always has a next step: it never follows a null node. *)
Theorem qspin_progress n es s i t c p :
  Z.of_nat n < 2 ^ 32 → qrun es (qinit n) = Some s →
  q_aborted s = false → q_threads s !! i = Some t → th_run t = Some (c, p) → ∃ s', qstep (Go i) s = Some s'.
Proof.
  intros Hn Hrun. destruct (reachable_safe n es s Hn Hrun) as [(Φ & H & regs & own & pnd & q & Q) _]. intros Ha Hi Hr.
  pose proof (qi_thread _ _ _ _ _ _ _ Q _ _ Hi) as E.
  unfold qstep. rewrite Ha, Hi. cbn. rewrite Hr. cbn.
  rewrite E in Hr. cbn in Hr.
  destruct (qinv_move_defined _ _ _ _ _ _ _ _ _ _ Q Hr) as [[[φ' m'] Hm] | [-> | [r ->]]]; [| by eexists..].
  destruct (move_sound i (Φ i) (q_mem s) φ' m' c p) as (p2 & Ha2 & _); [by eapply qinv_claims | done | done |].
  destruct p; try (by eexists); rewrite Ha2; by eexists.
Qed.

(** C38: The lock word and the node table keep to their widths: the locked and pending
    bytes are flags, the tail is null or names a registered thread by its place in
    the table, and only a process with more threads than the tail can name aborts. *)
Theorem qspin_bounds n es s ℓ :
  Z.of_nat n < 2 ^ 32 → qrun es (qinit n) = Some s →
  let v := q_val (q_mem s) ℓ in
  0 ≤ v < 2 ^ 32 ∧
  load_locked v ∈ [0; DC_Q_LOCKED_VAL] ∧ Z.land v DC_Q_PENDING_MASK ∈ [0; DC_Q_PENDING_VAL] ∧
  (load_tail v = 0 ∨ ∃ i, q_tab (q_mem s) (load_tail v - 1) = Some i ∧
                          q_tail (q_mem s) i = Z.shiftl (load_tail v) DC_Q_TAIL_OFFSET) ∧
  0 ≤ q_count (q_mem s) ≤ Z.of_nat n ∧
  (q_aborted s = true → DC_Q_MAX_NODES < Z.of_nat n).
Proof.
  intros Hn Hrun. destruct (reachable_safe n es s Hn Hrun) as [(Φ & H & regs & own & pnd & q & Q) Hl]. cbv zeta.
  pose proof (qi_lock _ _ _ _ _ _ _ Q ℓ) as L. pose proof (qi_reg _ _ _ _ _ _ _ Q) as R.
  pose proof (reg_tails _ _ _ _ R) as Ht.
  rewrite (li_val _ _ _ _ _ _ _ _ _ L), word_load_locked, word_load_tail, word_pending_byte.
  assert (Hr : 0 ≤ tail_of (q_tail (q_mem s)) (q ℓ) < 2 ^ 16).
  { destruct (decide (q ℓ = [])) as [E | E]; [rewrite E; done |].
    pose proof (tail_of_range _ _ _ _ _ _ _ _ _ L Ht E). lia. }
  split_and!.
  - by apply word_range.
  - by apply word_range.
  - destruct (some (own ℓ)); set_solver.
  - destruct (some (pnd ℓ)); set_solver.
  - unfold tail_of. destruct (last (q ℓ)) as [i |] eqn:Ei; [right | by left]. exists i.
    assert (Hi : q_tail (q_mem s) i ≠ 0).
    { eapply Ht, in_queue; [done |]. by apply last_Some_elem_of in Ei. }
    split; [by apply (reg_tab _ _ _ _ _ R) | symmetry; by apply Ht].
  - rewrite (ri_count _ _ _ _ R). lia.
  - rewrite (ri_count _ _ _ _ R). pose proof (reg_length _ _ _ _ R). lia.
  - rewrite <- Hl. apply Q.
Qed.

(** The thread makes the load of a loop it does not leave. *)
Definition spins (m : qmem) (t : qthread) : bool :=
  match th_run t with
  | Some (_, Spin a stop _) => match exec a m with Some (x, _) => negb (stop x) | None => false end
  | _ => false
  end.

(** The points of a thread that is outside or spins in vain. *)
Definition stuck (m : qmem) (i : tid) (φ : phase) : Prop :=
  match φ with
  | Out => True
  | LSpin ℓ => load_locked (q_val m ℓ) ≠ 0
  | QSpin _ => n_locked (q_node m i) = 0
  | QHead ℓ _ => Z.land (q_val m ℓ) DC_Q_LOCKED_PENDING_MASK ≠ 0
  | QWait _ => n_next (q_node m i) = None
  | _ => False
  end.

Lemma spins_stuck m i φ h :
  let t := QThread (running i (q_tail m i) φ) h in
  th_run t = None ∨ spins m t = true → stuck m i φ.
Proof.
  cbv zeta. unfold spins. destruct φ; cbn; intros [E | E]; try done.
  all: try (match goal with n : nat |- _ => destruct n; discriminate E end).
  - apply negb_true_iff, Z.eqb_neq in E. done.
  - by apply negb_true_iff, negb_false_iff, Z.eqb_eq in E.
  - by apply negb_true_iff, Z.eqb_neq in E.
  - unfold not_null in E. by case_match.
Qed.

(** A lock all of whose threads are stuck: the head does not wait for its successor,
    and the lock is not free with a thread waiting. *)
Section stuck.
Variables (ℓ : lockid) (m : qmem) (Φ : tid → phase) (H : tid → gset lockid).
Variables (own pnd : option tid) (q : list tid).
Hypothesis L : lock_inv ℓ (q_val m ℓ) Φ H (q_node m) (q_tail m) own pnd q.
Hypothesis Hst : ∀ j, stuck m j (Φ j).

Lemma stuck_no_wait j : Φ j ≠ QWait ℓ.
Proof.
  intros Ej. destruct (head_of _ _ _ _ _ _ _ _ _ L j) as [_ [r Eq]]; [by rewrite Ej.. |].
  pose proof (Hst j) as Hj. rewrite Ej in Hj. cbn in Hj.
  pose proof (li_queue _ _ _ _ _ _ _ _ _ L) as Hqu. rewrite Eq in Hqu. destruct Hqu as [_ Hc].
  destruct (li_more _ _ _ _ _ _ _ _ _ L j) as (k & Hk & [Hjk | Hkq]); [by rewrite Ej | |].
  - pose proof (Hst k) as Hs. by destruct (Φ k).
  - rewrite Eq in Hkq. destruct r as [| x r]; [set_solver |].
    destruct Hc as [[_ [[_ [E | E]] | [? _]]] _]; [| | congruence]; pose proof (Hst x) as Hs; by rewrite E in Hs.
Qed.

Lemma stuck_free i : own = None → lock_at (Φ i) ≠ Some ℓ.
Proof.
  intros Eo Hi. pose proof (li_val _ _ _ _ _ _ _ _ _ L) as Hv. rewrite Eo in Hv. cbn in Hv.
  assert (Hspin : ∀ k, Φ k ≠ LSpin ℓ).
  { intros k Ek. pose proof (Hst k) as Hk. rewrite Ek in Hk. cbn in Hk.
    by rewrite Hv, word_load_locked in Hk. }
  assert (Hhead : ∀ k nx, Φ k ≠ QHead ℓ nx).
  { intros k nx Ek. pose proof (Hst k) as Hk. rewrite Ek in Hk. cbn in Hk.
    destruct (decide (pnd = None)) as [Ep | Ep].
    - apply Hk. apply Z.eqb_eq. by rewrite Hv, Ep, word_lp_mask.
    - apply not_eq_None_Some in Ep as [p Ep]. pose proof (Hst p) as Hp. apply L in Ep.
      destruct (Φ p) eqn:Ep'; try done. injection Ep as ->. by eapply Hspin. }
  pose proof (Hst i) as Hs. destruct (Φ i) eqn:Ei; try done; injection Hi as ->.
  - by eapply Hspin.
  - assert (Hq : i ∈ q) by (apply L; by rewrite Ei).
    pose proof (li_queue _ _ _ _ _ _ _ _ _ L) as Hqu.
    destruct q as [| h r] eqn:Eq; [by apply elem_of_nil in Hq |]. destruct Hqu as [Hh _].
    assert (Hqh : queued (Φ h) = Some ℓ) by (apply L; set_solver).
    pose proof (Hst h) as Hsh. unfold head_ok in Hh.
    destruct (Φ h) eqn:Eh; try done; injection Hqh as ->; [by eapply Hhead |].
    assert (own = Some h) by (apply L; right; by rewrite Eh). congruence.
  - by eapply Hhead.
  - assert (own = Some i) by (apply L; right; by rewrite Ei). congruence.
Qed.

Lemma stuck_held i : lock_at (Φ i) = Some ℓ → ∃ j, ℓ ∈ H j.
Proof.
  intros Hi. destruct (decide (own = None)) as [Eo | Eo]; [by apply stuck_free in Hi |].
  apply not_eq_None_Some in Eo as [j Eo]. apply L in Eo as [Hj | Hj]; [eauto |]. exfalso.
  pose proof (Hst j) as Hsj. destruct (Φ j) eqn:Ej; try done. injection Hj as ->. by eapply stuck_no_wait.
Qed.
End stuck.

(** C37: No wakeup is lost: when every thread inside a call spins, a thread that waits for
    a lock waits for one that some thread holds. *)
Theorem qspin_no_lost_wakeup n es s i t ℓ p :
  Z.of_nat n < 2 ^ 32 → qrun es (qinit n) = Some s →
  (∀ j u, q_threads s !! j = Some u → th_run u = None ∨ spins (q_mem s) u = true) →
  q_threads s !! i = Some t → th_run t = Some (CLock ℓ, p) →
  ∃ j u, q_threads s !! j = Some u ∧ ℓ ∈ th_held u.
Proof.
  intros Hn Hrun. destruct (reachable_safe n es s Hn Hrun) as [(Φ & H & regs & own & pnd & q & Q) _]. intros Hall Hi Hr.
  assert (Hst : ∀ j, stuck (q_mem s) j (Φ j)).
  { intros j. destruct (q_threads s !! j) as [u |] eqn:Hj.
    - pose proof (qi_thread _ _ _ _ _ _ _ Q _ _ Hj) as E. destruct (Hall _ _ Hj) as [Hu | Hu].
      + eapply (spins_stuck _ _ _ (H j)). left. by rewrite E in Hu.
      + eapply (spins_stuck _ _ _ (H j)). right. by rewrite E in Hu.
    - destruct (qi_out _ _ _ _ _ _ _ Q _ Hj) as [-> _]. done. }
  pose proof (qi_thread _ _ _ _ _ _ _ Q _ _ Hi) as Et. rewrite Et in Hr. cbn in Hr.
  destruct (stuck_held ℓ _ _ _ _ _ _ (qi_lock _ _ _ _ _ _ _ Q ℓ) Hst i) as [j Hj].
  { destruct (Φ i); try done; injection Hr as -> _; done. }
  destruct (q_threads s !! j) as [u |] eqn:Hju.
  - exists j, u. split; [done |]. by rewrite (qi_thread _ _ _ _ _ _ _ Q _ _ Hju).
  - destruct (qi_out _ _ _ _ _ _ _ Q _ Hju) as [_ E]. rewrite E in Hj. by apply not_elem_of_empty in Hj.
Qed.

(** ** A contended lock: thread 0 holds it, 1 pends, 2 heads the queue, 3 is behind. *)

Definition q_script : list event :=
  [Begin 0 (CLock 7); Go 0; Go 0; Begin 1 (CLock 7); Go 1; Go 1; Begin 2 (CLock 7)] ++
  replicate 10 (Go 2) ++ [Begin 3 (CLock 7)] ++ replicate 11 (Go 3).

Definition q_scene : qstate := default (qinit 4) (qrun q_script (qinit 4)).

Lemma q_scene_run : qrun q_script (qinit 4) = Some q_scene.
Proof.
  assert (E : some (qrun q_script (qinit 4)) = true) by (vm_compute; reflexivity).
  unfold q_scene. by destruct (qrun q_script (qinit 4)).
Defined.

(** Thread [i] of the scene and what is true of it. *)
Lemma q_scene_thread i (P : qthread → bool) :
  P <$> q_threads q_scene !! i = Some true → ∃ t, q_threads q_scene !! i = Some t ∧ P t = true.
Proof. intros (t & E & Ht)%fmap_Some. eauto. Defined.

Lemma qspin_mutual_exclusion_witness :
  ∃ t, q_threads q_scene !! 0%nat = Some t ∧ 7%nat ∈ th_held t ∧
       ∀ j tj, q_threads q_scene !! j = Some tj → 7%nat ∈ th_held tj → 0%nat = j.
Proof.
  destruct (q_scene_thread 0 (λ t, bool_decide (7%nat ∈ th_held t))) as (t & Ht & Hh); [vm_compute; reflexivity |].
  apply bool_decide_eq_true in Hh. exists t. split; [done |]. split; [done |]. intros j tj Hj Hj'.
  exact (qspin_mutual_exclusion 4 q_script q_scene 0 j t tj 7 ltac:(done) q_scene_run Ht Hj Hh Hj').
Defined.

Definition in_call (t : qthread) : bool := match th_run t with Some _ => true | None => false end.

Lemma qspin_progress_witness : ∃ s', qstep (Go 3) q_scene = Some s'.
Proof.
  destruct (q_scene_thread 3 in_call) as (t & Ht & Hc); [vm_compute; reflexivity |].
  unfold in_call in Hc. destruct (th_run t) as [[c p] |] eqn:Er; [| discriminate Hc].
  apply (qspin_progress 4 q_script q_scene 3 t c p ltac:(done) q_scene_run); [vm_compute; reflexivity | done | done].
Defined.

Lemma qspin_bounds_witness :
  load_locked (q_val (q_mem q_scene) 7) ∈ [0; DC_Q_LOCKED_VAL] ∧ load_tail (q_val (q_mem q_scene) 7) = 2.
Proof.
  split; [apply (qspin_bounds 4 q_script q_scene 7 ltac:(done) q_scene_run) | vm_compute; reflexivity].
Defined.

Definition waits_for (ℓ : lockid) (t : qthread) : bool :=
  match th_run t with Some (CLock ℓ', _) => (ℓ' =? ℓ)%nat | _ => false end.

Lemma qspin_no_lost_wakeup_witness :
  ∃ j u, q_threads q_scene !! j = Some u ∧ 7%nat ∈ th_held u.
Proof.
  destruct (q_scene_thread 3 (waits_for 7)) as (t & Ht & Hc); [vm_compute; reflexivity |].
  unfold waits_for in Hc. destruct (th_run t) as [[[ℓ | |] p] |] eqn:Er; try discriminate Hc.
  apply Nat.eqb_eq in Hc. subst ℓ.
  apply (qspin_no_lost_wakeup 4 q_script q_scene 3 t 7 p ltac:(done) q_scene_run); [| done | done].
  intros j u Hj.
  assert (Hall : forallb (λ u, negb (in_call u) || spins (q_mem q_scene) u) (q_threads q_scene) = true)
    by (vm_compute; reflexivity).
  rewrite forallb_forall in Hall. apply list_elem_of_lookup_2, list_elem_of_In, Hall in Hj.
  unfold in_call in Hj. destruct (th_run u); [right; done | by left].
Defined.
