(* ===== verification/Mount.v ===== *)
(** The count of mountpoints (dcache_mount.h) of the bucket-lock engine, built with
    -DDC_MOUNT_COUNT: a dentry with a mountpoint at or below it has a [dc_mnt], found
    by the dentry in a table of locked buckets, that says how many.

    The state is the engine's world with, beside it, what that build adds: the word
    d_mnt of every dentry, the count objects and the table.  The bucket chains are
    liburcu's hlists, lists here. *)

From S2P Require Import Prelude Qstr HList Lru World Walk BlChain BlLru BlWorld BlWalk BlOps BlMove.

Definition EBUSY : Z := 16.
Definition ESTALE : Z := 116.

Definition DC_MNT_HERE : Z := 1.
Definition DC_MNT_COUNTED : Z := 2.
Definition DC_MNT_HASH_BITS : Z := 8.
Definition DC_MNT_TRIES_MAX : positive := 1048576.

Record dc_mnt := Mnt {
  m_host : Z;
  m_count : Z;                  (* the transacted slot: the count, shifted *)
  m_pins : Z;
  m_dead : bool;
  m_shadow : Z;
}.

(** The counters of [dc_mount_stats]. *)
Record dc_mount_stats := MStat {
  s_mounts : Z; s_umounts : Z; s_moves : Z; s_frozen : Z; s_again : Z; s_waits : Z; s_objs : Z;
  s_find_again : Z;
}.

Record mworld := MWorld {
  mw_bw : bworld;
  mw_flag : gmap Z Z;           (* d_mnt; a dentry is allocated with 0 *)
  mw_obj : gmap Z dc_mnt;
  mw_bkt : Z → list Z;          (* the chain of each bucket *)
  mw_held : gset Z;             (* the buckets whose lock is held *)
  mw_rcu : list Z;              (* objects that wait for [mnt_free_cb] *)
  mw_stat : dc_mount_stats;
}.

Definition set_bw x w := MWorld x (mw_flag w) (mw_obj w) (mw_bkt w) (mw_held w) (mw_rcu w) (mw_stat w).
Definition set_flag x w := MWorld (mw_bw w) x (mw_obj w) (mw_bkt w) (mw_held w) (mw_rcu w) (mw_stat w).
Definition set_obj x w := MWorld (mw_bw w) (mw_flag w) x (mw_bkt w) (mw_held w) (mw_rcu w) (mw_stat w).
Definition set_bkt x w := MWorld (mw_bw w) (mw_flag w) (mw_obj w) x (mw_held w) (mw_rcu w) (mw_stat w).
Definition set_held x w := MWorld (mw_bw w) (mw_flag w) (mw_obj w) (mw_bkt w) x (mw_rcu w) (mw_stat w).
Definition set_mrcu x w := MWorld (mw_bw w) (mw_flag w) (mw_obj w) (mw_bkt w) (mw_held w) x (mw_stat w).
Definition set_stat x w := MWorld (mw_bw w) (mw_flag w) (mw_obj w) (mw_bkt w) (mw_held w) (mw_rcu w) x.

(** Compute the projections of an updated world. *)
Ltac msimpl :=
  cbn [mw_bw mw_flag mw_obj mw_bkt mw_held mw_rcu mw_stat
       set_bw set_flag set_obj set_bkt set_held set_mrcu set_stat].
Tactic Notation "msimpl" "in" "*" :=
  cbn [mw_bw mw_flag mw_obj mw_bkt mw_held mw_rcu mw_stat
       set_bw set_flag set_obj set_bkt set_held set_mrcu set_stat] in *.

Abbreviation MM := (ST mworld).

Definition on_bw {A} : M A → MM A := st_zoom mw_bw set_bw.

(** ** Statistics *)

Definition stat_mounts f s := MStat (f (s_mounts s)) (s_umounts s) (s_moves s) (s_frozen s) (s_again s) (s_waits s) (s_objs s) (s_find_again s).
Definition stat_umounts f s := MStat (s_mounts s) (f (s_umounts s)) (s_moves s) (s_frozen s) (s_again s) (s_waits s) (s_objs s) (s_find_again s).
Definition stat_moves f s := MStat (s_mounts s) (s_umounts s) (f (s_moves s)) (s_frozen s) (s_again s) (s_waits s) (s_objs s) (s_find_again s).
Definition stat_frozen f s := MStat (s_mounts s) (s_umounts s) (s_moves s) (f (s_frozen s)) (s_again s) (s_waits s) (s_objs s) (s_find_again s).
Definition stat_again f s := MStat (s_mounts s) (s_umounts s) (s_moves s) (s_frozen s) (f (s_again s)) (s_waits s) (s_objs s) (s_find_again s).
Definition stat_waits f s := MStat (s_mounts s) (s_umounts s) (s_moves s) (s_frozen s) (s_again s) (f (s_waits s)) (s_objs s) (s_find_again s).
Definition stat_objs f s := MStat (s_mounts s) (s_umounts s) (s_moves s) (s_frozen s) (s_again s) (s_waits s) (f (s_objs s)) (s_find_again s).
Definition stat_find_again f s := MStat (s_mounts s) (s_umounts s) (s_moves s) (s_frozen s) (s_again s) (s_waits s) (s_objs s) (f (s_find_again s)).

Definition DC_MNT_STAT_INC (field : (Z → Z) → dc_mount_stats → dc_mount_stats) : MM unit :=
  st_mod (λ w, set_stat (field (λ z, w64 (z + 1)) (mw_stat w)) w).
Definition DC_MNT_STAT_DEC (field : (Z → Z) → dc_mount_stats → dc_mount_stats) : MM unit :=
  st_mod (λ w, set_stat (field (λ z, w64 (z - 1)) (mw_stat w)) w).

(** ** Flags *)

Definition d_mnt (host : Z) : MM Z :=
  on_bw (dent_at host) ;;; st_gets (λ w, default 0 (mw_flag w !! host)).
Definition d_mnt_store (host : Z) (f : Z → Z) : MM unit :=
  on_bw (dent_at host) ;;;
  st_mod (λ w, set_flag (<[host := f (default 0 (mw_flag w !! host))]> (mw_flag w)) w).
Definition d_mnt_or (host bits : Z) : MM unit := d_mnt_store host (λ v, Z.lor v bits).
Definition d_mnt_and_not (host bits : Z) : MM unit := d_mnt_store host (λ v, Z.land v (Z.lnot bits)).

Definition mnt_counted (host : Z) : MM bool :=
  let! v := d_mnt host in st_ret (negb (Z.land v DC_MNT_COUNTED =? 0)).
Definition mnt_here (host : Z) : MM bool :=
  let! v := d_mnt host in st_ret (negb (Z.land v DC_MNT_HERE =? 0)).
Definition mnt_move_counted (host : Z) : MM bool := mnt_counted host.

(** ** The table *)

Definition mnt_ptr (n : Z) : Z := w64 (Z.shiftl n 1).

Definition mnt_at (m : Z) : MM dc_mnt := st_lookup mw_obj m.
Definition mnt_store (m : Z) (f : dc_mnt → dc_mnt) : MM unit := λ w,
  match mw_obj w !! m with
  | Some x => Ok (tt, set_obj (<[m := f x]> (mw_obj w)) w)
  | None => Err BadPtr
  end.

Definition mnt_read (m : Z) : MM Z :=
  let! x := mnt_at m in
  let! v := on_bw (bl_read (m_count x)) in
  st_ret (Z.shiftr v 1).

Definition set_pins z x := Mnt (m_host x) (m_count x) z (m_dead x) (m_shadow x).
Definition set_dead b x := Mnt (m_host x) (m_count x) (m_pins x) b (m_shadow x).
Definition set_shadow z x := Mnt (m_host x) (m_count x) (m_pins x) (m_dead x) z.
Definition set_count z x := Mnt (m_host x) z (m_pins x) (m_dead x) (m_shadow x).

(** The number of the bucket. *)
Definition mnt_bkt (host : Z) : Z :=
  Z.shiftr (w64 (Z.shiftr host 6 * 0x9e3779b97f4a7c15)) (64 - DC_MNT_HASH_BITS).

Definition mnt_bkt_lock (b : Z) : MM unit := λ w,
  if decide (b ∈ mw_held w) then Err Deadlock else Ok (tt, set_held ({[b]} ∪ mw_held w) w).
Definition mnt_bkt_unlock (b : Z) : MM unit := st_mod (λ w, set_held (mw_held w ∖ {[b]}) w).

Fixpoint mnt_scan (host : Z) (l : list Z) : MM Z :=
  match l with
  | [] => st_ret 0
  | m :: l =>
      let! x := mnt_at m in
      if m_host x =? host then st_ret m else mnt_scan host l
  end.

Definition mnt_find_rcu (host : Z) : MM Z :=
  let! l := st_gets (λ w, mw_bkt w (mnt_bkt host)) in mnt_scan host l.

(** The object of [host], pinned, or 0. *)
Definition mnt_pin (host : Z) : MM Z :=
  let b := mnt_bkt host in
  mnt_bkt_lock b ;;;
  let! m := mnt_find_rcu host in
  when (negb (m =? 0)) (mnt_store m (λ x, set_pins (w64 (m_pins x + 1)) x)) ;;;
  mnt_bkt_unlock b ;;;
  st_ret m.

(** [free]: of an object that is allocated. *)
Definition mnt_free (m : Z) : MM unit :=
  mnt_at m ;;; st_mod (λ w, set_obj (delete m (mw_obj w)) w).

(** [calloc] of a [struct dc_mnt]: a block that is not in use, or NULL. *)
Class Calloc := calloc : gset Z → option Z.
Class CallocOk (C : Calloc) := {
  calloc_fresh : ∀ live m, calloc live = Some m → m ∉ live;
  calloc_nonzero : ∀ live m, calloc live = Some m → m ≠ 0;
}.

Section alloc.
Context `{Calloc}.

(** One round of [mnt_get], with the object made in the last. *)
Definition mnt_get_round (host fresh : Z) : MM (Z + Z) :=
  let b := mnt_bkt host in
  mnt_bkt_lock b ;;;
  let! m := mnt_find_rcu host in
  let! r :=
    (if (m =? 0) && negb (fresh =? 0) then
       st_mod (λ w, set_bkt (<[b := fresh :: mw_bkt w b]> (mw_bkt w)) w) ;;;
       DC_MNT_STAT_INC stat_objs ;;;
       st_ret (fresh, 0)
     else
       when (negb (m =? 0)) (mnt_store m (λ x, set_pins (w64 (m_pins x + 1)) x)) ;;;
       st_ret (m, fresh)) in
  let '(m, fresh) := r in
  mnt_bkt_unlock b ;;;
  if negb (m =? 0) then
    when (negb (fresh =? 0)) (mnt_free fresh) ;;;
    st_ret (inr m)
  else
    let! live := st_gets (λ w, dom (mw_obj w)) in
    match calloc live with
    | None => st_ret (inr 0)
    | Some a =>
        st_mod (λ w, set_obj (<[a := Mnt host (mnt_ptr 0) 1 false 0]> (mw_obj w)) w) ;;;
        st_ret (inl a)
    end.

Definition mnt_get (host : Z) : MM Z :=
  let! r := iter_upto RETRY_ROUNDS (mnt_get_round host) 0 in
  match r with inr m => st_ret m | inl _ => st_fault NoFuel end.
End alloc.

(** Runs a grace period after the object left its chain. *)
Definition mnt_free_cb (m : Z) : MM unit := mnt_free m.

Definition mnt_unpin_locked (m : Z) : MM unit :=
  let! x := mnt_at m in
  let pins := w64 (m_pins x - 1) in
  mnt_store m (set_pins pins) ;;;
  let! gone := (if (pins =? 0) && negb (m_dead x)
                then let! v := mnt_read m in st_ret (v =? 0) else st_ret false) in
  when gone
    (d_mnt_and_not (m_host x) DC_MNT_COUNTED ;;;
     let b := mnt_bkt (m_host x) in
     st_mod (λ w, set_bkt (<[b := filter (λ y, y ≠ m) (mw_bkt w b)]> (mw_bkt w)) w) ;;;
     mnt_store m (set_dead true) ;;;
     DC_MNT_STAT_DEC stat_objs ;;;
     st_mod (λ w, set_mrcu (mw_rcu w ++ [m]) w)).

Definition mnt_unpin (m : Z) : MM unit :=
  let! x := mnt_at m in
  let b := mnt_bkt (m_host x) in
  mnt_bkt_lock b ;;;
  mnt_unpin_locked m ;;;
  mnt_bkt_unlock b.

Definition mnt_wait : MM unit := DC_MNT_STAT_INC stat_waits.

(** ** Freezing an ancestor *)

Definition mnt_freeze_round (a : Z) (first : bool) (_ : unit) : MM (unit + Z) :=
  let! p := on_bw (parent_of_rcu a) in
  on_bw (lock_head (ChildHead p)) ;;;
  let! p' := on_bw (parent_of_rcu a) in
  if negb (p' =? p) then
    on_bw (unlock_head (ChildHead p)) ;;;
    st_ret (inl tt)
  else
    let! alive := (if first then on_bw (entry_alive a) else st_ret true) in
    if negb alive then
      on_bw (unlock_head (ChildHead p)) ;;;
      st_ret (inr 0)
    else
      d_mnt_or a DC_MNT_COUNTED ;;;
      on_bw (unlock_head (ChildHead p)) ;;;
      DC_MNT_STAT_INC stat_frozen ;;;
      st_ret (inr p).

(** The parent of [a], or 0 when [a] is gone. *)
Definition mnt_freeze (a : Z) (first : bool) : MM Z :=
  let! root := st_gets (λ w, bw_root (mw_bw w)) in
  if a =? root then
    d_mnt_or a DC_MNT_COUNTED ;;; st_ret a
  else
    let! counted := mnt_counted a in
    if counted : bool then on_bw (parent_of_rcu a)
    else
      let! r := iter_upto RETRY_ROUNDS (mnt_freeze_round a first) tt in
      match r with inr p => st_ret p | inl _ => st_fault NoFuel end.

(** ** One operation's set *)

Record mnt_ent := Ent {
  e_host : Z;
  e_up : Z;                     (* its parent then; NULL: not to be checked *)
  e_m : Z;
  e_by : Z;
  e_self : bool;
}.

Record mnt_shift := Shift {
  ms_e : list mnt_ent;          (* e[0 .. n-1] *)
  ms_cap : nat;
  ms_b : list Z;                (* the buckets to hold, in order *)
  ms_active : bool;
  ms_locked : bool;
  ms_tries : Z;
  ms_for_a : Z; ms_for_b : Z;
  ms_self_a : Z; ms_self_b : Z;
  ms_c_a : Z; ms_c_b : Z;
}.

Definition MNT_SHIFT_INIT : mnt_shift := Shift [] 0 [] false false 0 0 0 0 0 0 0.

Definition set_e x s := Shift x (ms_cap s) (ms_b s) (ms_active s) (ms_locked s) (ms_tries s)
  (ms_for_a s) (ms_for_b s) (ms_self_a s) (ms_self_b s) (ms_c_a s) (ms_c_b s).
Definition set_cap x s := Shift (ms_e s) x (ms_b s) (ms_active s) (ms_locked s) (ms_tries s)
  (ms_for_a s) (ms_for_b s) (ms_self_a s) (ms_self_b s) (ms_c_a s) (ms_c_b s).
Definition set_b x s := Shift (ms_e s) (ms_cap s) x (ms_active s) (ms_locked s) (ms_tries s)
  (ms_for_a s) (ms_for_b s) (ms_self_a s) (ms_self_b s) (ms_c_a s) (ms_c_b s).
Definition set_active x s := Shift (ms_e s) (ms_cap s) (ms_b s) x (ms_locked s) (ms_tries s)
  (ms_for_a s) (ms_for_b s) (ms_self_a s) (ms_self_b s) (ms_c_a s) (ms_c_b s).
Definition set_locked x s := Shift (ms_e s) (ms_cap s) (ms_b s) (ms_active s) x (ms_tries s)
  (ms_for_a s) (ms_for_b s) (ms_self_a s) (ms_self_b s) (ms_c_a s) (ms_c_b s).
Definition set_tries x s := Shift (ms_e s) (ms_cap s) (ms_b s) (ms_active s) (ms_locked s) x
  (ms_for_a s) (ms_for_b s) (ms_self_a s) (ms_self_b s) (ms_c_a s) (ms_c_b s).
Definition set_for a b s := Shift (ms_e s) (ms_cap s) (ms_b s) (ms_active s) (ms_locked s) (ms_tries s)
  a b (ms_self_a s) (ms_self_b s) (ms_c_a s) (ms_c_b s).
Definition set_selves a b ca cb s := Shift (ms_e s) (ms_cap s) (ms_b s) (ms_active s) (ms_locked s)
  (ms_tries s) (ms_for_a s) (ms_for_b s) a b ca cb.

(** Does [realloc] to so many elements succeed? *)
Class Realloc := { realloc_e : nat → bool; realloc_b : nat → bool }.

Section shift.
Context `{Realloc}.

(** [realloc] of [e], then of [b]; the capacity is noted when both are there. *)
Definition mnt_shift_push (s : mnt_shift) (host m delta up : Z) (self : bool) : MM (Z * mnt_shift) :=
  let full := bool_decide (length (ms_e s) = ms_cap s) in
  let cap := (if bool_decide (ms_cap s = 0) then 16 else 2 * ms_cap s)%nat in
  if full && negb (realloc_e cap && realloc_b cap) then st_ret (- ENOMEM, s)
  else
    let s := if full then set_cap cap s else s in
    st_ret (0, set_e (ms_e s ++ [Ent host up m delta self]) s).

Definition mnt_shift_enter (s : mnt_shift) : MM mnt_shift :=
  st_ret (if ms_active s then s else set_active true s).

Definition mnt_shift_unlock (s : mnt_shift) : MM mnt_shift :=
  if negb (ms_locked s) then st_ret s
  else
    st_iter mnt_bkt_unlock (ms_b s) ;;;
    st_ret (set_locked false s).

Definition mnt_drop_ent (s : mnt_shift) (e : mnt_ent) : MM unit :=
  if e_m e =? 0 then st_ret tt
  else
    let! x := mnt_at (e_m e) in
    if ms_locked s && bool_decide (mnt_bkt (m_host x) ∈ ms_b s)
    then mnt_unpin_locked (e_m e) else mnt_unpin (e_m e).

Definition mnt_shift_drop (s : mnt_shift) : MM mnt_shift :=
  st_iter (mnt_drop_ent s) (ms_e s) ;;;
  st_ret (set_selves 0 0 0 0 (set_for 0 0 (set_e [] s))).

Definition mnt_shift_done (s : mnt_shift) : MM mnt_shift := mnt_shift_drop s.

(** The arrays are freed and forgotten. *)
Definition mnt_shift_end (s : mnt_shift) : MM mnt_shift :=
  let! s := mnt_shift_drop s in
  let! s := mnt_shift_unlock s in
  st_ret (set_cap 0 (set_active false s)).

(** Where [b] goes in the array of buckets, once. *)
Fixpoint bkt_insert (b : Z) (l : list Z) : list Z :=
  match l with
  | [] => [b]
  | x :: l' => if x <? b then x :: bkt_insert b l' else if x =? b then x :: l' else b :: x :: l'
  end.

(** The entries whose buckets an operation holds. *)
Definition ent_counts (e : mnt_ent) : bool :=
  negb (e_m e =? 0) && (negb (e_by e =? 0) || e_self e).

Definition shift_buckets (l : list mnt_ent) : list Z :=
  foldl (λ b e, if ent_counts e then bkt_insert (mnt_bkt (e_host e)) b else b) [] l.

(** [for (i = 0; i < n && ok; i++)]: is each still where it was noted? *)
Fixpoint shift_valid (l : list mnt_ent) : MM bool :=
  match l with
  | [] => st_ret true
  | e :: l =>
      if e_up e =? 0 then shift_valid l
      else
        let! p := on_bw (parent_of_rcu (e_host e)) in
        if p =? e_up e then shift_valid l else st_ret false
  end.

(** What moves: the count that was read, and a count if it has the flag. *)
Definition self_valid (for_ self c : Z) : MM bool :=
  if for_ =? 0 then st_ret true
  else
    let! counted := mnt_counted for_ in
    if negb (bool_decide (counted = negb (self =? 0))) then st_ret false
    else if self =? 0 then st_ret true
    else let! v := mnt_read self in st_ret (v =? c).

Definition mnt_shift_lock (s : mnt_shift) : MM (bool * mnt_shift) :=
  let s := set_b (shift_buckets (ms_e s)) s in
  st_iter mnt_bkt_lock (ms_b s) ;;;
  let s := set_locked true s in
  let! ok := shift_valid (ms_e s) in
  let! oka := self_valid (ms_for_a s) (ms_self_a s) (ms_c_a s) in
  let! okb := self_valid (ms_for_b s) (ms_self_b s) (ms_c_b s) in
  if ok && oka && okb then st_ret (true, s)
  else
    let! s := mnt_shift_unlock s in st_ret (false, s).
End shift.

(** ** The commit of counts *)

(** A record of a transaction: the object, its old slot and the new one. *)
Record mrec := MRec { mr_m : Z; mr_old : Z; mr_new : Z }.

Definition mrec_ready (w : mworld) (r : mrec) : Prop :=
  m_count <$> mw_obj w !! mr_m r = Some (mr_old r).
Definition mrec_apply (r : mrec) (w : mworld) : mworld :=
  set_obj (alter (set_count (mr_new r)) (mr_m r) (mw_obj w)) w.
Definition mrecs_apply (l : list mrec) (w : mworld) : mworld := foldl (λ w r, mrec_apply r w) w l.
Definition mtxn_ready (w : mworld) (l : list mrec) : Prop :=
  NoDup (mr_m <$> l) ∧ Forall (mrec_ready w) l.

(** [urcu_txn_commit_sw] of a transaction with the records of counts. *)
Class MntTxn := mnt_commit_sw : list mrec → mworld → txn_status * mworld.
Class MntTxnOk (T : MntTxn) := mnt_commit_ok : ∀ l w,
  mtxn_ready w l →
  mnt_commit_sw l w = (STATUS_OK, mrecs_apply l w) ∨
  mnt_commit_sw l w = (STATUS_MEMORY_ERROR, w).

Definition mnt_record_ent (e : mnt_ent) : MM (list mrec) :=
  if (e_m e =? 0) || (e_by e =? 0) then st_ret []
  else
    let! v := mnt_read (e_m e) in
    st_ret (if v + e_by e <? 0 then [] else [MRec (e_m e) (mnt_ptr v) (mnt_ptr (v + e_by e))]).

Fixpoint shift_records (l : list mnt_ent) : MM (list mrec) :=
  match l with
  | [] => st_ret []
  | e :: l =>
      let! r := mnt_record_ent e in
      let! rs := shift_records l in
      st_ret (r ++ rs)
  end.

Definition mnt_shift_record (s : mnt_shift) : MM (list mrec) := shift_records (ms_e s).

Definition mnt_shift_commit `{MntTxn} (s : mnt_shift) : MM Z :=
  let! r := iter_upto RETRY_ROUNDS (λ _,
    let! l := mnt_shift_record s in
    let! st := (λ w, Ok (mnt_commit_sw l w)) in
    st_ret (if decide (st = STATUS_ABORT) then inl tt else inr st)) tt in
  match r with
  | inl _ => st_fault NoFuel
  | inr st => st_ret (if decide (st = STATUS_OK) then 0 else - ENOMEM)
  end.

(** ** Step 1 of a move: which counts change *)

Definition set_eup p e := Ent (e_host e) p (e_m e) (e_by e) (e_self e).
Definition set_em m e := Ent (e_host e) (e_up e) m (e_by e) (e_self e).
Definition set_eby z e := Ent (e_host e) (e_up e) (e_m e) z (e_self e).

(** [e[i]] rewritten, for [lo <= i < hi]. *)
Definition ent_range (lo hi : nat) (f : mnt_ent → mnt_ent) (l : list mnt_ent) : list mnt_ent :=
  take lo l ++ (f <$> take (hi - lo) (drop lo l)) ++ drop hi l.

Section moves.
Context `{Calloc} `{Realloc}.

(** Who is above [a]: the code, the set, and the hops that are left. *)
Fixpoint chains_old (hops : nat) (s : mnt_shift) (a d bar_a bar_b : Z) : MM (Z * mnt_shift * nat) :=
  if (a =? bar_a) || (a =? bar_b) then st_ret (1, s, hops)
  else match hops with
  | O => st_ret (1, s, O)
  | S hops =>
      let! root := st_gets (λ w, bw_root (mw_bw w)) in
      let! p := (if a =? root then st_ret 0 else on_bw (parent_of_rcu a)) in
      let! r := mnt_shift_push s a 0 (- d) p false in
      let '(ret, s) := r in
      if negb (ret =? 0) then st_ret (- ENOMEM, s, hops)
      else if p =? 0 then st_ret (0, s, hops)
      else chains_old hops s p d bar_a bar_b
  end.

(** The place of [a] among [e[old0 .. nold-1]]. *)
Definition old_place (s : mnt_shift) (old0 nold : nat) (a : Z) : option nat :=
  Nat.add old0 <$> (fst <$> list_find (λ e, e_host e = a) (take (nold - old0) (drop old0 (ms_e s)))).

(** The ancestors of [a] that are not among them: the code, the set and the place of
    the first that is. *)
Fixpoint chains_new (hops old0 nold : nat) (s : mnt_shift) (a d bar_a bar_b : Z) (first : bool)
  : MM (Z * mnt_shift * nat) :=
  match old_place s old0 nold a with
  | Some i => st_ret (0, s, i)
  | None =>
      if (a =? bar_a) || (a =? bar_b) then st_ret (1, s, O)
      else match hops with
      | O => st_ret (1, s, O)
      | S hops =>
          let! m := mnt_get a in
          if m =? 0 then st_ret (- ENOMEM, s, O)
          else
            let! r := mnt_shift_push s a m d 0 false in
            let '(ret, s) := r in
            if negb (ret =? 0) then mnt_unpin m ;;; st_ret (- ENOMEM, s, O)
            else
              let! p := mnt_freeze a first in
              if p =? 0 then st_ret (- ENOENT, s, O)
              else
                let s := set_e (alter (set_eup p) (length (ms_e s) - 1)%nat (ms_e s)) s in
                chains_new hops old0 nold s p d bar_a bar_b false
      end
  end.

(** [for (i = lo; i < lo + n; i++)]: pin what has an object; [true] when all have. *)
Fixpoint chains_pin (n lo : nat) (s : mnt_shift) : MM (bool * mnt_shift) :=
  match n with
  | O => st_ret (true, s)
  | S n =>
      match ms_e s !! lo with
      | None => st_fault BadPtr
      | Some e =>
          let! m := mnt_pin (e_host e) in
          let s := set_e (alter (set_em m) lo (ms_e s)) s in
          if m =? 0 then st_ret (false, s) else chains_pin n (S lo) s
      end
  end.

Definition mnt_shift_chains (s : mnt_shift) (from to d bar_a bar_b : Z) : MM (Z * mnt_shift) :=
  let old0 := length (ms_e s) in
  let! r := chains_old DC_LOOP_MAX s from d bar_a bar_b in
  let '(ret, s, hops) := r in
  if negb (ret =? 0) then st_ret (ret, s)
  else
    let nold := length (ms_e s) in
    let! r := chains_new (hops + DC_LOOP_MAX) old0 nold s to d bar_a bar_b true in
    let '(ret, s, shared) := r in
    if negb (ret =? 0) then st_ret (ret, s)
    else
      let s := set_e (ent_range shared nold (λ e, set_eup 0 (set_eby 0 e)) (ms_e s)) s in
      let! r := chains_pin (shared - old0) old0 s in
      let '(ok, s) := r in
      st_ret (if ok then 0 else 1, s).

(** What moves: the code, its object (or 0) and the count read off it. *)
Definition mnt_shift_self (s : mnt_shift) (host parent : Z) : MM (Z * mnt_shift * Z * Z) :=
  let! m := mnt_pin host in
  if m =? 0 then st_ret (0, s, 0, 0)
  else
    let! c := mnt_read m in
    let! r := mnt_shift_push s host m 0 parent true in
    let '(ret, s) := r in
    if negb (ret =? 0) then mnt_unpin m ;;; st_ret (- ENOMEM, s, 0, c)
    else st_ret (0, s, m, c).

Definition mnt_begin (s : mnt_shift) : MM mnt_shift :=
  let! s := mnt_shift_drop s in
  when (negb (ms_tries s =? 0)) (DC_MNT_STAT_INC stat_again) ;;;
  st_ret (set_tries (ms_tries s + 1) s).

(** A code of 1 or more is "look again": the set is empty and the code 0. *)
Definition mnt_fail (ret : Z) (s : mnt_shift) : MM (Z * mnt_shift) :=
  let! s := mnt_shift_drop s in
  st_ret (if ret <? 0 then ret else 0, s).

Definition mnt_move_begin (s : mnt_shift) (host from to : Z) : MM (Z * mnt_shift) :=
  let! s := mnt_shift_enter s in
  let! s := mnt_begin s in
  if Z.pos DC_MNT_TRIES_MAX <? ms_tries s then st_ret (- ESTALE, s)
  else
    let! r := mnt_shift_self s host from in
    let '(ret, s, self, c) := r in
    let s := set_selves self (ms_self_b s) c (ms_c_b s) s in
    let! r := (if (ret =? 0) && negb (c =? 0)
               then mnt_shift_chains s from to c host 0 else st_ret (ret, s)) in
    let '(ret, s) := r in
    if negb (ret =? 0) then mnt_fail ret s
    else st_ret (0, set_for host (ms_for_b s) s).

Definition mnt_xchg_begin (s : mnt_shift) (ha hb pa pb : Z) : MM (Z * mnt_shift) :=
  let! s := mnt_shift_enter s in
  let! s := mnt_begin s in
  if Z.pos DC_MNT_TRIES_MAX <? ms_tries s then st_ret (- ESTALE, s)
  else
    let! r := mnt_shift_self s ha pa in
    let '(ret, s, self, ca) := r in
    let s := set_selves self (ms_self_b s) ca (ms_c_b s) s in
    let! r := (if ret =? 0 then
                 let! r := mnt_shift_self s hb pb in
                 let '(ret, s, self, cb) := r in
                 st_ret (ret, set_selves (ms_self_a s) self (ms_c_a s) cb s)
               else st_ret (ret, s)) in
    let '(ret, s) := r in
    let ca := ms_c_a s in
    let cb := ms_c_b s in
    let! r := (if (ret =? 0) && (cb <? ca) then mnt_shift_chains s pa pb (ca - cb) ha hb
               else if (ret =? 0) && (ca <? cb) then mnt_shift_chains s pb pa (cb - ca) ha hb
               else st_ret (ret, s)) in
    let '(ret, s) := r in
    if negb (ret =? 0) then mnt_fail ret s
    else st_ret (0, set_for ha hb s).
End moves.

(** ** The operations *)

(** The host that [path] names (0: none) and its parent. *)
Fixpoint mnt_resolve_loop (path : dc_path) (k i : nat) (d p : Z) : M (Z * Z) :=
  match k with
  | O => st_ret (d, p)
  | S k =>
      if d =? 0 then st_ret (d, p)
      else
        let! name := comp_at path i in
        let! c := txn_child_lookup_rcu d name in
        mnt_resolve_loop path k (S i) c d
  end.

Definition mnt_resolve (path : dc_path) : M (Z * Z) :=
  let! root := st_gets bw_root in
  mnt_resolve_loop path (ndepth path) 0 root root.

(** Every try but the first is after something moved. *)
Definition MNT_ROUNDS : positive := Pos.succ DC_MNT_TRIES_MAX.

Section ops.
Context `{Layout} `{Calloc} `{Realloc} `{MntTxn}.

(** The way up from the parent of the mountpoint, frozen and pinned: the code and
    the set.  A way up that is not circular passes every dentry once. *)
Fixpoint mount_climb (fuel : nat) (s : mnt_shift) (a : Z) : MM (Z * mnt_shift) :=
  match fuel with
  | O => st_fault NoFuel
  | S fuel =>
      let! m := mnt_get a in
      if m =? 0 then st_ret (- ENOMEM, s)
      else
        let! r := mnt_shift_push s a m 1 0 false in
        let '(ret, s) := r in
        if negb (ret =? 0) then mnt_unpin m ;;; st_ret (- ENOMEM, s)
        else
          let! p := mnt_freeze a false in
          let! root := st_gets (λ w, bw_root (mw_bw w)) in
          if a =? root then st_ret (0, s)
          else mount_climb fuel (set_e (alter (set_eup p) (length (ms_e s) - 1)%nat (ms_e s)) s) p
  end.

Definition climb_fuel (w : mworld) : nat := S (size (bw_dent (mw_bw w))).

(** Under the buckets of the set: the mount itself. *)
Definition mount_commit (host : Z) (s : mnt_shift) : MM Z :=
  let! here := mnt_here host in
  let! ret := (if here : bool then st_ret (- EBUSY) else mnt_shift_commit s) in
  when (ret =? 0)
    (d_mnt_or host DC_MNT_HERE ;;;
     DC_MNT_STAT_INC stat_mounts) ;;;
  st_ret ret.

(** The mountpoint is frozen under its bucket and its parent's child head: [None]
    is "look for the top again". *)
Definition mount_freeze (host parent top : Z) (name : qstr) : MM (option Z) :=
  let! bucket := on_bw (bucket_of parent (q_hash name)) in
  let! heads := on_bw (bl_lock_n [Bucket bucket; ChildHead parent]) in
  let! marked := on_bw (on_hash (bl_marked top)) in
  let! pos := (if marked : bool then st_ret false else on_bw (node_is_positive host)) in
  if marked || negb pos then
    on_bw (bl_unlock_n heads) ;;;
    st_ret (if marked : bool then None else Some (- ENOENT))
  else
    d_mnt_or host DC_MNT_COUNTED ;;;
    on_bw (bl_unlock_n heads) ;;;
    st_ret (Some 0).

Definition mount_round (name : qstr) (host : Z) (s : mnt_shift) : MM (mnt_shift + Z * mnt_shift) :=
  let! s := mnt_begin s in
  if Z.pos DC_MNT_TRIES_MAX <? ms_tries s then st_ret (inr (- ESTALE, s))
  else if host =? 0 then st_ret (inr (- ENOENT, s))
  else
    let! parent := on_bw (parent_of_rcu host) in
    let! top := on_bw (find_top_rcu parent name) in
    let! h := (if top =? 0 then st_ret 0 else on_bw (host_of_rcu top)) in
    if (top =? 0) || negb (h =? host) then st_ret (inr (- ENOENT, s))
    else
      let! here := mnt_here host in
      if here : bool then st_ret (inr (- EBUSY, s))
      else
        let! m := mnt_get host in
        if m =? 0 then st_ret (inr (- ENOMEM, s))
        else
          let! r := mnt_shift_push s host m 1 parent true in
          let '(ret, s) := r in
          if negb (ret =? 0) then mnt_unpin m ;;; st_ret (inr (- ENOMEM, s))
          else
            let! fr := mount_freeze host parent top name in
            match fr with
            | None => st_ret (inl s)
            | Some ret =>
                if negb (ret =? 0) then st_ret (inr (ret, s))
                else
                  let! fuel := st_gets climb_fuel in
                  let! r := mount_climb fuel s parent in
                  let '(ret, s) := r in
                  if negb (ret =? 0) then st_ret (inr (ret, s))
                  else
                    let! r := mnt_shift_lock s in
                    let '(ok, s) := r in
                    if negb ok then st_ret (inl s)
                    else
                      let! ret := mount_commit host s in
                      st_ret (inr (ret, s))
            end.

Definition dc_mount (path : dc_path) : MM Z :=
  if decide (ndepth path = 0)%nat then st_ret (- EINVAL)
  else
    let! name := on_bw (comp_at path (ndepth path - 1)) in
    let! s := mnt_shift_enter MNT_SHIFT_INIT in
    on_bw rcu_read_lock ;;;
    let! r := on_bw (mnt_resolve path) in
    let! r := iter_upto MNT_ROUNDS (mount_round name (fst r)) s in
    match r with
    | inl _ => st_fault NoFuel
    | inr (ret, s) =>
        on_bw rcu_read_unlock ;;;
        let! s := mnt_shift_end s in
        st_ret ret
    end.

(** The way up from the mountpoint: [torn], the code and the set. *)
Fixpoint umount_climb (hops : nat) (host : Z) (s : mnt_shift) (a : Z) : MM (bool * Z * mnt_shift) :=
  let! m := mnt_pin a in
  let! root := st_gets (λ w, bw_root (mw_bw w)) in
  let! p := (if a =? root then st_ret 0 else on_bw (parent_of_rcu a)) in
  if m =? 0 then st_ret (true, 0, s)
  else match hops with
  | O => mnt_unpin m ;;; st_ret (true, 0, s)
  | S hops =>
      let! r := mnt_shift_push s a m (-1) p (a =? host) in
      let '(ret, s) := r in
      if negb (ret =? 0) then mnt_unpin m ;;; st_ret (false, - ENOMEM, s)
      else if p =? 0 then st_ret (false, 0, s)
      else umount_climb hops host s p
  end.

Definition umount_commit (host : Z) (s : mnt_shift) : MM Z :=
  let! here := mnt_here host in
  let! ret := (if negb here then st_ret (- EINVAL) else mnt_shift_commit s) in
  when (ret =? 0)
    (d_mnt_and_not host DC_MNT_HERE ;;;
     DC_MNT_STAT_INC stat_umounts) ;;;
  st_ret ret.

Definition umount_round (host : Z) (s : mnt_shift) : MM (mnt_shift + Z * mnt_shift) :=
  let! s := mnt_begin s in
  if Z.pos DC_MNT_TRIES_MAX <? ms_tries s then st_ret (inr (- ESTALE, s))
  else if host =? 0 then st_ret (inr (- ENOENT, s))
  else
    let! here := mnt_here host in
    if negb here then st_ret (inr (- EINVAL, s))
    else
      let! r := umount_climb DC_LOOP_MAX host s host in
      let '(torn, ret, s) := r in
      if negb (ret =? 0) then st_ret (inr (ret, s))
      else if torn : bool then st_ret (inl s)
      else
        let! r := mnt_shift_lock s in
        let '(ok, s) := r in
        if negb ok then st_ret (inl s)
        else
          let! ret := umount_commit host s in
          st_ret (inr (ret, s)).

Definition dc_umount (path : dc_path) : MM Z :=
  let! s := mnt_shift_enter MNT_SHIFT_INIT in
  on_bw rcu_read_lock ;;;
  let! r := on_bw (mnt_resolve path) in
  let! r := iter_upto MNT_ROUNDS (umount_round (fst r)) s in
  match r with
  | inl _ => st_fault NoFuel
  | inr (ret, s) =>
      on_bw rcu_read_unlock ;;;
      let! s := mnt_shift_end s in
      st_ret ret
  end.

Definition dc_mount_count (path : dc_path) : MM Z :=
  on_bw rcu_read_lock ;;;
  let! r := on_bw (mnt_resolve path) in
  let d := fst r in
  let! v := (if d =? 0 then st_ret (- ENOENT)
             else
               let! counted := mnt_counted d in
               if negb counted then st_ret 0
               else
                 let! m := mnt_find_rcu d in
                 if m =? 0 then st_ret 0 else mnt_read m) in
  on_bw rcu_read_unlock ;;;
  st_ret v.
End ops.

(** *** The search for a mountpoint *)

Definition ELOOP : Z := 40.
Definition DC_MNT_CLIMB_MAX : nat := 4 * DC_PATH_MAX.

(** How the climb of [mnt_below_rcu] ends. *)
Inductive below_end :=
  | TooDeep
  | Removed
  | Stale
  | Reached (below : bool) (latch : list Z).

(** The way up by the tops that name each entry, each confirmed in the index. *)
Fixpoint below_climb (room : nat) (root h : Z) (latch : list Z) : M below_end :=
  let! dc_root := st_gets bw_root in
  if h =? root then st_ret (Reached true latch)
  else if h =? dc_root then st_ret (Reached false latch)
  else match room with
  | O => st_ret TooDeep
  | S room =>
      let! top := named_top_rcu h in
      let! unhashed := top_unhashed_rcu top in
      if unhashed : bool then
        let! alive := entry_alive h in
        st_ret (if alive : bool then Stale else Removed)
      else
        let! p := iparent_of top in
        below_climb room root p (latch ++ [top])
  end.

(** [for (k = 0; k < n; k++)]: is one of them unhashed now? *)
Fixpoint latch_stale (l : list Z) : M bool :=
  match l with
  | [] => st_ret false
  | t :: l =>
      let! u := top_unhashed_rcu t in
      let! r := latch_stale l in
      st_ret (u || r)
  end.

Definition mnt_below_round (host root : Z) (_ : unit) : M (unit + Z) :=
  let! e := below_climb DC_MNT_CLIMB_MAX root host [] in
  match e with
  | TooDeep => st_ret (inr (-1))
  | Removed => st_ret (inr 0)
  | Stale => st_ret (inl tt)
  | Reached below latch =>
      let! stale := latch_stale latch in
      st_ret (if stale : bool then inl tt else inr (Z.b2z below))
  end.

Definition mnt_below_rcu (host root : Z) : M Z :=
  let! r := iter_upto RETRY_ROUNDS (mnt_below_round host root) tt in
  match r with inr v => st_ret v | inl _ => st_fault NoFuel end.

(** Does [h] count a mountpoint now? *)
Definition mnt_some (h : Z) : MM bool :=
  let! counted := mnt_counted h in
  let! m := (if counted : bool then mnt_find_rcu h else st_ret 0) in
  if m =? 0 then st_ret false
  else let! v := mnt_read m in st_ret (0 <? v).

(** The first child that counts one, or 0: the loop over the child list. *)
Fixpoint find_kid (fuel : nat) (n : Z) : MM Z :=
  match fuel with
  | O => st_fault NoFuel
  | S fuel =>
      if n =? 0 then st_ret 0
      else
        let! h := on_bw (host_of_rcu n) in
        let! some := mnt_some h in
        if some : bool then st_ret h
        else
          let! next := on_bw (on_sib (bl_hlist_next_rcu n)) in
          find_kid fuel next
  end.

(** Down to a mountpoint; 0 where the way ends short. *)
Fixpoint find_down (hops : nat) (cur : Z) : MM Z :=
  if cur =? 0 then st_ret 0
  else
    let! here := mnt_here cur in
    if here : bool then st_ret cur
    else match hops with
    | O => st_ret cur
    | S hops =>
        let! first := on_bw (on_sib (bl_hlist_first_rcu cur)) in
        let! fuel := st_gets (λ w, sib_fuel (mw_bw w)) in
        let! next := find_kid fuel first in
        find_down hops next
    end.

(** The code and *[id]. *)
Definition mount_find_round (top : Z) (_ : unit) : MM (unit + Z * Z) :=
  let! counted := mnt_counted top in
  let! m := (if counted : bool then mnt_find_rcu top else st_ret 0) in
  let! v := (if m =? 0 then st_ret 0 else mnt_read m) in
  if (m =? 0) || (v =? 0) then st_ret (inr (0, 0))
  else
    let! cur := find_down DC_LOOP_MAX top in
    let! below := (if cur =? 0 then st_ret 0 else on_bw (mnt_below_rcu cur top)) in
    let! here := (if negb (cur =? 0) && (0 <? below) then mnt_here cur else st_ret false) in
    if here : bool then
      let! x := on_bw (dent_at cur) in
      st_ret (inr (1, d_id x))
    else if below <? 0 then st_ret (inr (- ELOOP, 0))
    else
      DC_MNT_STAT_INC stat_find_again ;;;
      st_ret (inl tt).

Definition dc_mount_find (path : dc_path) : MM (Z * Z) :=
  on_bw rcu_read_lock ;;;
  let! r := on_bw (mnt_resolve path) in
  let top := fst r in
  if top =? 0 then
    on_bw rcu_read_unlock ;;;
    st_ret (- ENOENT, 0)
  else
    let! r := iter_upto RETRY_ROUNDS (mount_find_round top) tt in
    match r with
    | inl _ => st_fault NoFuel
    | inr v => on_bw rcu_read_unlock ;;; st_ret v
    end.

(** *** The audit *)

Definition mnt_buckets : list Z := Z.of_nat <$> seq 0 (Z.to_nat (2 ^ DC_MNT_HASH_BITS)).

(** [f] for every object of the table. *)
Fixpoint mnt_each {A} (f : Z → A → MM A) (l : list Z) (a : A) : MM A :=
  match l with
  | [] => st_ret a
  | m :: l => let! a := f m a in mnt_each f l a
  end.
Fixpoint bkt_each {A} (f : Z → A → MM A) (bs : list Z) (a : A) : MM A :=
  match bs with
  | [] => st_ret a
  | b :: bs =>
      let! l := st_gets (λ w, mw_bkt w b) in
      let! a := mnt_each f l a in
      bkt_each f bs a
  end.

(** From a mountpoint up: one more in the shadow of every ancestor that counts. *)
Fixpoint shadow_climb (hops : nat) (a bad : Z) : MM Z :=
  let! am := mnt_find_rcu a in
  (if am =? 0 then st_ret tt else mnt_store am (λ x, set_shadow (m_shadow x + 1) x)) ;;;
  let bad := if am =? 0 then bad + 1 else bad in
  let! root := st_gets (λ w, bw_root (mw_bw w)) in
  match hops with
  | O => st_ret bad
  | S hops =>
      if a =? root then st_ret bad
      else let! p := on_bw (parent_of_rcu a) in shadow_climb hops p bad
  end.

(** One object of the last pass: the objects seen and the faults found. *)
Definition check_object (m : Z) (acc : Z * Z) : MM (Z * Z) :=
  let '(nobj, bad) := acc in
  let! v := mnt_read m in
  let! x := mnt_at m in
  let! counted := mnt_counted (m_host x) in
  let good := (v =? m_shadow x) && (0 <? v) && (m_pins x =? 0) && counted in
  st_ret (nobj + 1, if good then bad else bad + 1).

Definition dc_mount_check : MM Z :=
  on_bw rcu_read_lock ;;;
  let! _ := bkt_each (λ m u, mnt_store m (set_shadow 0) ;;; st_ret u) mnt_buckets tt in
  let! bad := bkt_each (λ m bad,
    let! x := mnt_at m in
    let! here := mnt_here (m_host x) in
    if negb here then st_ret bad else shadow_climb DC_LOOP_MAX (m_host x) bad) mnt_buckets 0 in
  let! r := bkt_each check_object mnt_buckets (0, bad) in
  let '(nobj, bad) := r in
  let! objs := st_gets (λ w, s_objs (mw_stat w)) in
  on_bw rcu_read_unlock ;;;
  st_ret (if negb (nobj =? objs) then bad + 1 else bad).

(** *** The end of the table, and its statistics *)

Fixpoint destroy_chain (l : list Z) : MM unit :=
  match l with
  | [] => st_ret tt
  | m :: l =>
      mnt_free m ;;;                    (* after next = n->next *)
      destroy_chain l
  end.

(** Quiescent teardown: what is still mounted has a count. *)
Definition mnt_destroy : MM unit :=
  st_iter (λ b, let! l := st_gets (λ w, mw_bkt w b) in destroy_chain l) mnt_buckets ;;;
  st_mod (set_bkt (λ _, [])).

(** A grace period: the engine's callbacks and the table's, which share nothing. *)
Definition mnt_barrier `{Layout} `{SwTxn} : MM unit :=
  on_bw rcu_barrier ;;;
  let! l := st_gets mw_rcu in
  st_mod (set_mrcu []) ;;;
  st_iter mnt_free_cb l.

(** [dc_destroy] of this build, up to the dentries, which [free_subtree] frees next. *)
Definition mnt_teardown `{Layout} `{SwTxn} : MM unit :=
  mnt_barrier ;;;
  mnt_barrier ;;;
  mnt_destroy.

Definition dc_mount_stats_read : MM dc_mount_stats := st_gets mw_stat.

(** *** What a rename does with the counts

    The part that this build adds to the loop of [stack_shell], for a move of [host]
    to another directory: [mv] is the engine's own part of the transaction, committed
    together with the records of the counts, or [None] when the commit is out of
    memory and nothing is published. *)

Section carry.
Context `{Calloc} `{Realloc}.

Definition carry_commit (mv : bworld → option bworld) (l : list mrec) : MM bool := λ w,
  match mv (mw_bw w) with
  | Some bw => Ok (true, mrecs_apply l (set_bw bw w))
  | None => Ok (false, w)
  end.

Definition carry_round (host from to : Z) (mv : bworld → option bworld) (s : mnt_shift)
  : MM (mnt_shift + Z * mnt_shift) :=
  let! counted := mnt_move_counted host in
  let! r := (if negb counted then st_ret (true, s)
             else if negb (ms_for_a s =? host) then st_ret (false, s) else mnt_shift_lock s) in
  let '(go, s) := r in
  if negb go then
    let! r := mnt_move_begin s host from to in
    let '(ret, s) := r in
    st_ret (if negb (ret =? 0) then inr (ret, s) else inl s)
  else
    let! l := (if ms_locked s then mnt_shift_record s else st_ret []) in
    let! ok := carry_commit mv l in
    let! s := (if ms_locked s then
                 let! s := (if ok && (negb (ms_c_a s =? 0) || negb (ms_c_b s =? 0))
                            then DC_MNT_STAT_INC stat_moves ;;; mnt_shift_done s
                            else st_ret s) in
                 mnt_shift_unlock s
               else st_ret s) in
    st_ret (inr (if ok : bool then 0 else - ENOMEM, s)).

Definition mnt_carry (host from to : Z) (mv : bworld → option bworld) : MM Z :=
  let! r := iter_upto RETRY_ROUNDS (carry_round host from to mv) MNT_SHIFT_INIT in
  match r with
  | inl _ => st_fault NoFuel
  | inr (ret, s) => let! _ := mnt_shift_end s in st_ret ret
  end.

(** The same for the exchange of [ha], in [pa], with [hb], in [pb]. *)
Definition swap_round (ha hb pa pb : Z) (mv : bworld → option bworld) (s : mnt_shift)
  : MM (mnt_shift + Z * mnt_shift) :=
  let! ca := mnt_move_counted ha in
  let! cb := (if ca : bool then st_ret true else mnt_move_counted hb) in
  let! r := (if negb cb then st_ret (true, s)
             else if negb ((ms_for_a s =? ha) && (ms_for_b s =? hb)) then st_ret (false, s)
             else mnt_shift_lock s) in
  let '(go, s) := r in
  if negb go then
    let! r := mnt_xchg_begin s ha hb pa pb in
    let '(ret, s) := r in
    st_ret (if negb (ret =? 0) then inr (ret, s) else inl s)
  else
    let! l := (if ms_locked s then mnt_shift_record s else st_ret []) in
    let! ok := carry_commit mv l in
    let! s := (if ms_locked s then
                 when (ok && (negb (ms_c_a s =? 0) || negb (ms_c_b s =? 0))) (DC_MNT_STAT_INC stat_moves) ;;;
                 let! s := (if ok : bool then mnt_shift_done s else st_ret s) in
                 mnt_shift_unlock s
               else st_ret s) in
    st_ret (inr (if ok : bool then 0 else - ENOMEM, s)).

Definition mnt_swap (ha hb pa pb : Z) (mv : bworld → option bworld) : MM Z :=
  let! r := iter_upto RETRY_ROUNDS (swap_round ha hb pa pb mv) MNT_SHIFT_INIT in
  match r with
  | inl _ => st_fault NoFuel
  | inr (ret, s) => let! _ := mnt_shift_end s in st_ret ret
  end.
End carry.

(** *** Removal: [dc_delete] and [dc_unlink] of this build *)

Section delete.
Context `{Layout}.

(** One round of the loop, as [BlOps.delete_round] with the test of the flags. *)
Definition mnt_delete_round (parent : Z) (name : qstr) (bucket : Z) (isdir_locked : Z) : MM (Z + Z) :=
  let! top := on_bw (find_top_rcu parent name) in
  if top =? 0 then st_ret (inr (- ENOENT))
  else
    on_bw (if negb (isdir_locked =? 0) then bl_lock2 (Bucket bucket) (ChildHead isdir_locked)
           else lock_head (Bucket bucket)) ;;;
    let! marked := on_bw (on_hash (bl_marked top)) in
    if marked : bool then
      on_bw (if negb (isdir_locked =? 0) then bl_unlock2 (Bucket bucket) (ChildHead isdir_locked)
             else unlock_head (Bucket bucket)) ;;;
      st_ret (inl 0)
    else
      let! host := on_bw (host_of_rcu top) in
      let! hx := on_bw (dent_at host) in
      let unlock := (if d_isdir hx then bl_unlock2 (Bucket bucket) (ChildHead host)
                     else unlock_head (Bucket bucket)) in
      if d_isdir hx && negb (host =? isdir_locked) then
        on_bw (unlock_head (Bucket bucket)) ;;;
        st_ret (inl host)
      else
        let! counted := mnt_counted host in
        if counted : bool then
          let! here := mnt_here host in
          on_bw unlock ;;;
          if here : bool then st_ret (inr (- EBUSY))
          else mnt_wait ;;; st_ret (inl 0)
        else
          let! empty := (if d_isdir hx then on_bw (children_empty host) else st_ret true) in
          if negb empty then
            on_bw (bl_unlock2 (Bucket bucket) (ChildHead host)) ;;;
            st_ret (inr (- ENOTEMPTY))
          else
            let! ret := on_bw (dc_set_negative host true 0) in
            on_bw unlock ;;;
            st_ret (inr ret).

(** ... and of [dc_unlink], as [BlOps.unlink_round]: here the children are looked for
    first. *)
Definition mnt_unlink_round (parent : Z) (name : qstr) (bucket : Z) (_ : unit) : MM (unit + (Z + Z * Z)) :=
  let! top := on_bw (find_top_rcu parent name) in
  if top =? 0 then st_ret (inr (inl (- ENOENT)))
  else
    let! host := on_bw (host_of_rcu top) in
    let! empty := on_bw (children_empty host) in
    if negb empty then st_ret (inr (inl (- ENOTEMPTY)))
    else
      let! hx := on_bw (dent_at host) in
      let heads := [Bucket bucket; ChildHead parent] ++ (if d_isdir hx then [ChildHead host] else []) in
      let! heads := on_bw (bl_lock_n heads) in
      let! marked := on_bw (on_hash (bl_marked top)) in
      if marked : bool then
        on_bw (bl_unlock_n heads) ;;;
        st_ret (inl tt)
      else
        let! counted := mnt_counted host in
        if counted : bool then
          let! here := mnt_here host in
          on_bw (bl_unlock_n heads) ;;;
          if here : bool then st_ret (inr (inl (- EBUSY)))
          else mnt_wait ;;; st_ret (inl tt)
        else
          let! empty := on_bw (children_empty host) in
          if negb empty then
            on_bw (bl_unlock_n heads) ;;;
            st_ret (inr (inl (- ENOTEMPTY)))
          else
            on_bw (on_hash (bl_hlist_del_locked top)) ;;;
            on_bw (on_sib (bl_hlist_del_locked top)) ;;;
            on_bw (bl_unlock_n heads) ;;;
            st_ret (inr (inr (top, host))).

Definition mnt_delete (path : dc_path) : MM Z :=
  if decide (ndepth path = 0)%nat then st_ret (- EISDIR)
  else
    on_bw rcu_read_lock ;;;
    let! parent := on_bw (resolve path (ndepth path - 1)) in
    if parent =? 0 then on_bw rcu_read_unlock ;;; st_ret (- ENOENT)
    else
      let! name := on_bw (comp_at path (ndepth path - 1)) in
      let! bucket := on_bw (bucket_of parent (q_hash name)) in
      let! r := iter_upto RETRY_ROUNDS (mnt_delete_round parent name bucket) 0 in
      match r with
      | inl _ => st_fault NoFuel
      | inr ret => on_bw rcu_read_unlock ;;; st_ret ret
      end.

Definition mnt_unlink (path : dc_path) : MM Z :=
  if decide (ndepth path = 0)%nat then st_ret (- EINVAL)
  else
    let! parent := on_bw (resolve path (ndepth path - 1)) in
    if parent =? 0 then st_ret (- ENOENT)
    else
      let! name := on_bw (comp_at path (ndepth path - 1)) in
      let! bucket := on_bw (bucket_of parent (q_hash name)) in
      on_bw rcu_read_lock ;;;
      let! r := iter_upto RETRY_ROUNDS (mnt_unlink_round parent name bucket) tt in
      match r with
      | inl _ => st_fault NoFuel
      | inr (inl ret) => on_bw rcu_read_unlock ;;; st_ret ret
      | inr (inr (top, host)) =>
          let settled := top =? host in
          let! can_free := on_bw (on_lru (lru_del_can_free host true)) in
          on_bw (when (negb settled) (on_lru (lru_del top))) ;;;
          on_bw rcu_read_unlock ;;;
          on_bw (when can_free (dc_free_host host)) ;;;
          st_ret 0
      end.
End delete.
