(* ===== verification/MountRep.v ===== *)
(** The table of mount counts: what it holds, and what each of its operations does.

    [A] and [C] give the object and the count of every dentry that has one (an object
    that is allocated is one of these or waits for its grace period), [Z0] the
    dentries whose object is pinned, [F] those with DC_MNT_COUNTED, [P] the
    mountpoints, [B] the buckets that are locked. *)

From S2P Require Import Prelude Qstr HList Lru World Walk Namespace BlChain BlLru BlWorld BlWalk.
From S2P Require Import BlOps BlMove BlInv BlReads BlWalkSpec BlLocks BlRep BlSect Mount.

(** The word d_mnt. *)
Definition flag_word (here counted : bool) : Z := Z.b2z here + 2 * Z.b2z counted.

Record mrep (w : mworld) (A C : gmap Z Z) (Z0 F P B : gset Z) : Prop := {
  mr_dom : dom A = dom C;
  mr_obj : ∀ h m c, A !! h = Some m → C !! h = Some c →
    m ≠ 0 ∧ 0 ≤ c < 2 ^ 62 ∧
    ∃ sh, mw_obj w !! m = Some (Mnt h (2 * c) (Z.b2z (bool_decide (h ∈ Z0))) false sh);
  mr_bkt : ∀ b m, m ∈ mw_bkt w b ↔ ∃ h, A !! h = Some m ∧ mnt_bkt h = b;
  mr_nodup : ∀ b, NoDup (mw_bkt w b);
  mr_flag : ∀ h, default 0 (mw_flag w !! h) = flag_word (bool_decide (h ∈ P)) (bool_decide (h ∈ F));
  mr_held : mw_held w = B;
  mr_counted : F ⊆ dom C;
  mr_pinned : Z0 ⊆ dom C;
  mr_objs : s_objs (mw_stat w) = w64 (Z.of_nat (size C));
  mr_queue : NoDup (mw_rcu w);
  mr_queued : ∀ m, m ∈ mw_rcu w → ∀ h, A !! h ≠ Some m;
  mr_live : ∀ m, m ∈ dom (mw_obj w) ↔ (∃ h, A !! h = Some m) ∨ m ∈ mw_rcu w;
}.

(** The engine between operations, with its table. *)
Record minv (k : nat) (w : mworld) (r : Z) (N : nspace) (T : gmap Z Z) (hs : list head) (A C : gmap Z Z)
    (Z0 F P B : gset Z) : Prop := {
  mi_bw : sect k (mw_bw w) N T ∅ ∅ hs;
  mi_root : bw_root (mw_bw w) = r;
  mi_rep : mrep w A C Z0 F P B;
  mi_hosts : dom C ⊆ dom N;
  mi_points : P ⊆ dom N;
}.

Lemma set_bw_id w : set_bw (mw_bw w) w = w.
Proof. by destruct w. Qed.

Lemma on_bw_run {X} (m : M X) w a : m (mw_bw w) = Ok (a, mw_bw w) → on_bw m w = Ok (a, w).
Proof. apply zoom_run. intros s. apply set_bw_id. Qed.

Lemma flag_here b c : negb (Z.land (flag_word b c) DC_MNT_HERE =? 0) = b.
Proof. by destruct b, c. Qed.
Lemma flag_counted b c : negb (Z.land (flag_word b c) DC_MNT_COUNTED =? 0) = c.
Proof. by destruct b, c. Qed.
Lemma flag_set_counted b c : Z.lor (flag_word b c) DC_MNT_COUNTED = flag_word b true.
Proof. by destruct b, c. Qed.
Lemma flag_set_here b c : Z.lor (flag_word b c) DC_MNT_HERE = flag_word true c.
Proof. by destruct b, c. Qed.
Lemma flag_clear_counted b c : Z.land (flag_word b c) (Z.lnot DC_MNT_COUNTED) = flag_word b false.
Proof. by destruct b, c. Qed.
Lemma flag_clear_here b c : Z.land (flag_word b c) (Z.lnot DC_MNT_HERE) = flag_word false c.
Proof. by destruct b, c. Qed.

Lemma mnt_ptr_eq c : 0 ≤ c < 2 ^ 62 → mnt_ptr c = 2 * c.
Proof.
  intros Hc. unfold mnt_ptr, w64. rewrite Z.shiftl_mul_pow2 by lia. rewrite Z.mod_small by lia. lia.
Qed.

Section rep.
Variables (k : nat) (w : mworld) (r : Z) (N : nspace) (T : gmap Z Z) (hs : list head) (A C : gmap Z Z).
Variables (Z0 F P B : gset Z).
Hypothesis I : minv k w r N T hs A C Z0 F P B.

Lemma mi_dent h : is_Some (N !! h) → ∃ x, bw_dent (mw_bw w) !! h = Some x.
Proof.
  intros [n Hn]. destruct (rep_top _ _ _ _ (se_rep _ _ _ _ _ _ _ (mi_bw _ _ _ _ _ _ _ _ _ _ _ _ I)) h n Hn)
    as (t & x & tx & _ & E). exists x. apply (en_host _ _ _ _ _ _ E).
Qed.

(** *** Reads *)

Lemma d_mnt_run h : is_Some (N !! h) →
  d_mnt h w = Ok (flag_word (bool_decide (h ∈ P)) (bool_decide (h ∈ F)), w).
Proof.
  intros Hh. destruct (mi_dent h Hh) as [x Hx]. unfold d_mnt.
  eapply bind_run; [apply on_bw_run, dent_at_run, Hx |]. cbn beta. rewrite gets_run.
  by rewrite (mr_flag _ _ _ _ _ _ _ (mi_rep _ _ _ _ _ _ _ _ _ _ _ _ I)).
Qed.

Lemma mnt_counted_run h : is_Some (N !! h) → mnt_counted h w = Ok (bool_decide (h ∈ F), w).
Proof. intros Hh. unfold mnt_counted. run d_mnt_run; [done |]. unfold st_ret. by rewrite flag_counted. Qed.

Lemma mnt_here_run h : is_Some (N !! h) → mnt_here h w = Ok (bool_decide (h ∈ P), w).
Proof. intros Hh. unfold mnt_here. run d_mnt_run; [done |]. unfold st_ret. by rewrite flag_here. Qed.

Lemma obj_of h m : A !! h = Some m →
  ∃ c sh, C !! h = Some c ∧ m ≠ 0 ∧ 0 ≤ c < 2 ^ 62 ∧
    mw_obj w !! m = Some (Mnt h (2 * c) (Z.b2z (bool_decide (h ∈ Z0))) false sh).
Proof.
  intros Hm. pose proof (mi_rep _ _ _ _ _ _ _ _ _ _ _ _ I) as R.
  assert (is_Some (C !! h)) as [c Hc].
  { apply elem_of_dom. rewrite <- (mr_dom _ _ _ _ _ _ _ R). apply elem_of_dom. by eexists. }
  destruct (mr_obj _ _ _ _ _ _ _ R h m c Hm Hc) as (? & ? & sh & ?). eauto 10.
Qed.

(** An object is one dentry's. *)
Lemma obj_inj h h' m : A !! h = Some m → A !! h' = Some m → h = h'.
Proof. intros (c & sh & _ & _ & _ & E)%obj_of (c' & sh' & _ & _ & _ & E')%obj_of. congruence. Qed.

Lemma mnt_scan_run h l :
  (∀ m, m ∈ l → ∃ h', A !! h' = Some m) →
  mnt_scan h l w = Ok (match A !! h with Some m => if decide (m ∈ l) then m else 0 | None => 0 end, w).
Proof.
  induction l as [| m l IH]; intros Hl; simpl; [by destruct (A !! h) |].
  destruct (Hl m ltac:(set_solver)) as [h' Hm]. destruct (obj_of h' m Hm) as (c & sh & _ & _ & _ & E).
  eapply bind_run; [unfold mnt_at, st_lookup; by rewrite E |]. cbn beta iota. cbn [m_host].
  destruct (Z.eqb_spec h' h) as [-> | Hne].
  - rewrite Hm. rewrite decide_True by set_solver. done.
  - rewrite IH by set_solver. destruct (A !! h) as [m' |] eqn:Hm'; [| done].
    destruct (decide (m' = m)) as [-> |]; [by destruct Hne; eapply obj_inj |].
    f_equal. f_equal. destruct (decide (m' ∈ l)); [rewrite decide_True by set_solver | rewrite decide_False by set_solver]; done.
Qed.

Lemma mnt_find_run h : mnt_find_rcu h w = Ok (default 0 (A !! h), w).
Proof.
  unfold mnt_find_rcu. run gets_run. pose proof (mi_rep _ _ _ _ _ _ _ _ _ _ _ _ I) as R.
  rewrite mnt_scan_run.
  - destruct (A !! h) as [m |] eqn:Hm; [| done]. rewrite decide_True; [done |].
    apply (mr_bkt _ _ _ _ _ _ _ R). eauto.
  - intros m Hm. apply (mr_bkt _ _ _ _ _ _ _ R) in Hm as (h' & ? & _). eauto.
Qed.

Lemma bl_read_count c bw : bl_read (2 * c) bw = Ok (2 * c, bw).
Proof.
  unfold bl_read, URCU_TXN_TAG. rewrite land_1_mod. rewrite Z.mul_comm, Z.mod_mul by lia. done.
Qed.

Lemma mnt_read_run h m c : A !! h = Some m → C !! h = Some c → mnt_read m w = Ok (c, w).
Proof.
  intros Hm Hc. destruct (obj_of h m Hm) as (c' & sh & Hc' & _ & _ & E). simplify_eq.
  unfold mnt_read. eapply bind_run; [unfold mnt_at, st_lookup; by rewrite E |]. cbn beta iota. cbn [m_count].
  eapply bind_run; [apply on_bw_run, bl_read_count |]. cbn beta. unfold st_ret.
  rewrite Z.shiftr_div_pow2 by lia. change (2 ^ 1) with 2. by rewrite Z.mul_comm, Z.div_mul by lia.
Qed.

Lemma mnt_at_run h m : A !! h = Some m → ∃ x, mnt_at m w = Ok (x, w) ∧ m_host x = h.
Proof.
  intros Hm. destruct (obj_of h m Hm) as (c & sh & _ & _ & _ & E).
  eexists. unfold mnt_at, st_lookup. rewrite E. by split.
Qed.
End rep.

(** ** Updates *)

Section update.
Variables (k : nat) (w : mworld) (r : Z) (N : nspace) (T : gmap Z Z) (hs : list head) (A C : gmap Z Z).
Variables (Z0 F P B : gset Z).
Hypothesis I : minv k w r N T hs A C Z0 F P B.

Lemma minv_set_held B' : minv k (set_held B' w) r N T hs A C Z0 F P B'.
Proof. destruct I as [? ? [] ? ?]. split; try done; by split. Qed.

(** Counters that nothing depends on. *)
Lemma minv_stat x : s_objs x = s_objs (mw_stat w) → minv k (set_stat x w) r N T hs A C Z0 F P B.
Proof. intros E. destruct I as [? ? [] ? ?]. split; try done. split; try done. msimpl. by rewrite E. Qed.

Lemma minv_set_bw x T' k' hs' : sect k' x N T' ∅ ∅ hs' → bw_root x = r → minv k' (set_bw x w) r N T' hs' A C Z0 F P B.
Proof. intros ? ?. destruct I as [? ? [] ? ?]. split; try done; by split. Qed.

Lemma minv_objs O' C' Z0' :
  dom O' = dom (mw_obj w) → dom C' = dom C → Z0' ⊆ dom C →
  (∀ h m c, A !! h = Some m → C' !! h = Some c →
     0 ≤ c < 2 ^ 62 ∧ ∃ sh, O' !! m = Some (Mnt h (2 * c) (Z.b2z (bool_decide (h ∈ Z0'))) false sh)) →
  minv k (set_obj O' w) r N T hs A C' Z0' F P B.
Proof.
  intros HdO Hd Hz HO. destruct I as [Hb Hr R Hh HP]. split; msimpl; [done | done | | by rewrite Hd | done].
  destruct R. split; msimpl; rewrite ?Hd, ?HdO; try done.
  - intros h m c Hm Hc. destruct (HO h m c Hm Hc) as [? ?]. split; [| done].
    destruct (obj_of _ _ _ _ _ _ _ _ _ _ _ _ I h m Hm) as (? & ? & _ & ? & _). done.
  - rewrite mr_objs0. f_equal. f_equal. by rewrite <- !size_dom, Hd.
Qed.

Lemma minv_flag h v (f : Z → Z) F' P' :
  v = f (flag_word (bool_decide (h ∈ P)) (bool_decide (h ∈ F))) →
  v = flag_word (bool_decide (h ∈ P')) (bool_decide (h ∈ F')) →
  (∀ h', h' ≠ h → (h' ∈ P' ↔ h' ∈ P) ∧ (h' ∈ F' ↔ h' ∈ F)) → F' ⊆ dom C → P' ⊆ dom N →
  minv k (set_flag (<[h := f (default 0 (mw_flag w !! h))]> (mw_flag w)) w) r N T hs A C Z0 F' P' B.
Proof.
  intros Hv Hv' Ho HF HP. destruct I as [Hb Hr R Hh _]. split; msimpl; try done.
  destruct R. split; msimpl; try done. intros h'. destruct (decide (h' = h)) as [-> |].
  - rewrite lookup_insert_eq. simpl. by rewrite mr_flag0, <- Hv.
  - rewrite lookup_insert_ne by done. rewrite mr_flag0. destruct (Ho h'); [done |].
    f_equal; by apply bool_decide_ext.
Qed.

Lemma wp_bkt_lock_eq b (Q : unit → mworld → Prop) :
  b ∉ B → Q tt (set_held ({[b]} ∪ B) w) → wp (mnt_bkt_lock b) Q w.
Proof.
  intros Hb HQ. unfold wp, mnt_bkt_lock.
  pose proof (mr_held _ _ _ _ _ _ _ (mi_rep _ _ _ _ _ _ _ _ _ _ _ _ I)) as E. rewrite E.
  by rewrite decide_False by done.
Qed.

Lemma wp_bkt_lock b (Q : unit → mworld → Prop) :
  b ∉ B → (∀ w', minv k w' r N T hs A C Z0 F P ({[b]} ∪ B) → Q tt w') → wp (mnt_bkt_lock b) Q w.
Proof. intros Hb HQ. apply wp_bkt_lock_eq; [done |]. apply HQ, minv_set_held. Qed.

Lemma wp_bkt_unlock b (Q : unit → mworld → Prop) :
  (∀ w', minv k w' r N T hs A C Z0 F P (B ∖ {[b]}) → Q tt w') → wp (mnt_bkt_unlock b) Q w.
Proof.
  intros HQ. apply wp_mod, HQ.
  pose proof (mr_held _ _ _ _ _ _ _ (mi_rep _ _ _ _ _ _ _ _ _ _ _ _ I)) as E. rewrite E. apply minv_set_held.
Qed.

Lemma wp_d_mnt_store h f F' P' (Q : unit → mworld → Prop) :
  is_Some (N !! h) →
  f (flag_word (bool_decide (h ∈ P)) (bool_decide (h ∈ F))) =
    flag_word (bool_decide (h ∈ P')) (bool_decide (h ∈ F')) →
  (∀ h', h' ≠ h → (h' ∈ P' ↔ h' ∈ P) ∧ (h' ∈ F' ↔ h' ∈ F)) → F' ⊆ dom C → P' ⊆ dom N →
  (∀ w', minv k w' r N T hs A C Z0 F' P' B → Q tt w') → wp (d_mnt_store h f) Q w.
Proof.
  intros Hh Hf Ho HF HP HQ. destruct (mi_dent _ _ _ _ _ _ _ _ _ _ _ _ I h Hh) as [x Hx].
  unfold d_mnt_store. wp_step. eapply wp_run; [apply on_bw_run, dent_at_run, Hx |].
  apply wp_mod, HQ. by eapply minv_flag.
Qed.

Lemma wp_flag_counted h (Q : unit → mworld → Prop) :
  is_Some (N !! h) → h ∈ dom C →
  (∀ w', minv k w' r N T hs A C Z0 ({[h]} ∪ F) P B → Q tt w') → wp (d_mnt_or h DC_MNT_COUNTED) Q w.
Proof.
  intros Hh Hc. pose proof (mr_counted _ _ _ _ _ _ _ (mi_rep _ _ _ _ _ _ _ _ _ _ _ _ I)).
  pose proof (mi_points _ _ _ _ _ _ _ _ _ _ _ _ I). apply wp_d_mnt_store; [done | | set_solver | set_solver | done].
  rewrite flag_set_counted. f_equal. rewrite bool_decide_eq_true_2; [done | set_solver].
Qed.

Lemma wp_flag_here h (Q : unit → mworld → Prop) :
  is_Some (N !! h) →
  (∀ w', minv k w' r N T hs A C Z0 F ({[h]} ∪ P) B → Q tt w') → wp (d_mnt_or h DC_MNT_HERE) Q w.
Proof.
  intros Hh. pose proof (mr_counted _ _ _ _ _ _ _ (mi_rep _ _ _ _ _ _ _ _ _ _ _ _ I)).
  pose proof (mi_points _ _ _ _ _ _ _ _ _ _ _ _ I). apply elem_of_dom in Hh as Hd.
  apply wp_d_mnt_store; [done | | set_solver | done | set_solver].
  rewrite flag_set_here. f_equal. rewrite bool_decide_eq_true_2; [done | set_solver].
Qed.

Lemma wp_clear_here h (Q : unit → mworld → Prop) :
  is_Some (N !! h) →
  (∀ w', minv k w' r N T hs A C Z0 F (P ∖ {[h]}) B → Q tt w') → wp (d_mnt_and_not h DC_MNT_HERE) Q w.
Proof.
  intros Hh. pose proof (mr_counted _ _ _ _ _ _ _ (mi_rep _ _ _ _ _ _ _ _ _ _ _ _ I)).
  pose proof (mi_points _ _ _ _ _ _ _ _ _ _ _ _ I).
  apply wp_d_mnt_store; [done | | set_solver | done | set_solver].
  rewrite flag_clear_here. f_equal. rewrite bool_decide_eq_false_2; [done | set_solver].
Qed.

(** *** Pinning *)

Lemma wp_pins_store h m c Z0' (f : dc_mnt → dc_mnt) (Q : unit → mworld → Prop) :
  A !! h = Some m → C !! h = Some c → Z0' ⊆ dom C →
  (∀ h', h' ≠ h → (h' ∈ Z0' ↔ h' ∈ Z0)) →
  (∀ sh, f (Mnt h (2 * c) (Z.b2z (bool_decide (h ∈ Z0))) false sh) =
         Mnt h (2 * c) (Z.b2z (bool_decide (h ∈ Z0'))) false sh) →
  (∀ w', minv k w' r N T hs A C Z0' F P B → Q tt w') → wp (mnt_store m f) Q w.
Proof.
  intros Hm Hc Hz Ho Hf HQ. destruct (obj_of _ _ _ _ _ _ _ _ _ _ _ _ I h m Hm) as (c' & sh & Hc' & _ & _ & E).
  simplify_eq. unfold wp, mnt_store. rewrite E. apply HQ, minv_objs; [by eapply dom_insert_lookup_L | done | done |].
  intros h' m' c' Hm' Hc2. destruct (obj_of _ _ _ _ _ _ _ _ _ _ _ _ I h' m' Hm') as (c2 & sh' & ? & _ & ? & E').
  simplify_eq. split; [done |]. destruct (decide (h' = h)) as [-> |].
  - simplify_eq. exists sh. rewrite lookup_insert_eq, Hf. done.
  - exists sh'. rewrite lookup_insert_ne by (intros <-; by destruct n; eapply obj_inj). rewrite E'.
    do 3 f_equal. f_equal. symmetry. by apply bool_decide_ext, Ho.
Qed.

Lemma wp_pin_store h m (Q : unit → mworld → Prop) :
  A !! h = Some m → h ∉ Z0 →
  (∀ w', minv k w' r N T hs A C ({[h]} ∪ Z0) F P B → Q tt w') →
  wp (mnt_store m (λ x, set_pins (w64 (m_pins x + 1)) x)) Q w.
Proof.
  intros Hm Hz HQ. destruct (obj_of _ _ _ _ _ _ _ _ _ _ _ _ I h m Hm) as (c & sh & Hc & _ & _ & _).
  pose proof (mr_pinned _ _ _ _ _ _ _ (mi_rep _ _ _ _ _ _ _ _ _ _ _ _ I)).
  assert (h ∈ dom C) by (by apply elem_of_dom_2 in Hc).
  eapply (wp_pins_store h m c); [done | done | | | | exact HQ]; [set_solver | set_solver |].
  intros sh'. unfold set_pins. cbn. rewrite bool_decide_eq_false_2 by done.
  rewrite bool_decide_eq_true_2 by set_solver. done.
Qed.

(** *** Objects come and go *)

(** A chain is read past an object that is not in the table yet. *)
Lemma mnt_scan_fresh a x h l v :
  mw_obj w !! a = None → mnt_scan h l w = Ok (v, w) →
  mnt_scan h l (set_obj (<[a := x]> (mw_obj w)) w) = Ok (v, set_obj (<[a := x]> (mw_obj w)) w).
Proof.
  intros Ha. induction l as [| m l IH]; simpl; [by intros [= <-] |].
  unfold mnt_at, st_lookup, st_bind. msimpl. destruct (mw_obj w !! m) as [y |] eqn:E; [| done].
  rewrite lookup_insert_ne by congruence. rewrite E. destruct (m_host y =? h); [by intros [= <-] | done].
Qed.

Lemma minv_insert h a sh :
  is_Some (N !! h) → A !! h = None → a ≠ 0 → mw_obj w !! a = None →
  minv k (set_stat (stat_objs (λ z, w64 (z + 1)) (mw_stat w))
            (set_bkt (<[mnt_bkt h := a :: mw_bkt w (mnt_bkt h)]> (mw_bkt w))
            (set_obj (<[a := Mnt h 0 1 false sh]> (mw_obj w)) w)))
    r N T hs (<[h := a]> A) (<[h := 0]> C) ({[h]} ∪ Z0) F P B.
Proof.
  intros Hh Hn Ha Ho. assert (Hfresh : ∀ h', A !! h' ≠ Some a).
  { intros h' (c & s & _ & _ & _ & E)%(obj_of _ _ _ _ _ _ _ _ _ _ _ _ I). congruence. }
  destruct I as [Hb Hr R Hd HP].
  assert (HnC : C !! h = None).
  { apply not_elem_of_dom. rewrite <- (mr_dom _ _ _ _ _ _ _ R). by apply not_elem_of_dom. }
  apply elem_of_dom in Hh.
  split; msimpl; [done | done | | rewrite dom_insert; set_solver | done]. destruct R. split; msimpl; try done.
  - by rewrite !dom_insert_L, mr_dom0.
  - intros h' m c. destruct (decide (h' = h)) as [-> |].
    + rewrite !lookup_insert_eq. intros [= <-] [= <-]. split; [done |]. split; [lia |]. exists sh.
      rewrite bool_decide_eq_true_2 by set_solver. by rewrite lookup_insert_eq.
    + rewrite !(lookup_insert_ne _ h) by done. intros Hm Hc. destruct (mr_obj0 h' m c Hm Hc) as (? & ? & sh' & E).
      split; [done |]. split; [done |]. exists sh'. rewrite lookup_insert_ne by congruence. rewrite E. do 3 f_equal. f_equal.
      apply bool_decide_ext. set_solver.
  - intros b m. destruct (decide (b = mnt_bkt h)) as [-> | Hb'].
    + rewrite fn_lookup_insert, elem_of_cons, mr_bkt0. split.
      * intros [-> | (h' & ? & ?)]; [exists h; by rewrite lookup_insert_eq |].
        exists h'. rewrite lookup_insert_ne by congruence. done.
      * intros (h' & Hm & E). destruct (decide (h' = h)) as [-> |].
        -- rewrite lookup_insert_eq in Hm. left. congruence.
        -- rewrite lookup_insert_ne in Hm by done. right. eauto.
    + rewrite fn_lookup_insert_ne, mr_bkt0 by done. split; intros (h' & Hm & E); exists h'.
      * rewrite lookup_insert_ne by congruence. done.
      * rewrite lookup_insert_ne in Hm by congruence. done.
  - intros b. destruct (decide (b = mnt_bkt h)) as [-> | Hb'].
    + rewrite fn_lookup_insert. constructor; [| done]. intros (h' & ? & _)%mr_bkt0. by eapply Hfresh.
    + by rewrite fn_lookup_insert_ne.
  - rewrite dom_insert. set_solver.
  - rewrite dom_insert. set_solver.
  - rewrite map_size_insert_None by done. unfold stat_objs. cbn [s_objs]. rewrite mr_objs0. unfold w64.
    rewrite Zplus_mod_idemp_l. f_equal. lia.
  - intros m Hm h'. destruct (decide (h' = h)) as [-> |]; [| rewrite lookup_insert_ne by done; by apply mr_queued0].
    rewrite lookup_insert_eq. intros [= ->]. apply not_elem_of_dom in Ho. apply Ho, mr_live0. by right.
  - intros m. rewrite dom_insert, elem_of_union, elem_of_singleton, mr_live0. split.
    + intros [-> | [[h' Hm] | ?]]; [left; exists h; by rewrite lookup_insert_eq | left; exists h' | by right].
      rewrite lookup_insert_ne by congruence. done.
    + intros [[h' [[<- <-] | [_ Hm]]%lookup_insert_Some] | ?]; eauto.
Qed.

Lemma minv_remove h m x :
  A !! h = Some m → C !! h = Some 0 → mw_obj w !! m = Some x → h ∉ F →
  minv k (set_mrcu (mw_rcu w ++ [m]) (set_stat (stat_objs (λ z, w64 (z - 1)) (mw_stat w))
            (set_obj (<[m := set_dead true x]> (mw_obj w))
            (set_bkt (<[mnt_bkt h := filter (λ y, y ≠ m) (mw_bkt w (mnt_bkt h))]> (mw_bkt w)) w))))
    r N T hs (delete h A) (delete h C) (Z0 ∖ {[h]}) F P B.
Proof.
  intros Hm Hc Hx HF. destruct I as [Hb Hr R Hd HP].
  split; msimpl; [done | done | | rewrite dom_delete; set_solver | done]. destruct R. split; msimpl; try done.
  - by rewrite !dom_delete_L, mr_dom0.
  - intros h' m' c'. rewrite !lookup_delete_Some. intros [Hne Hm'] [_ Hc'].
    destruct (mr_obj0 h' m' c' Hm' Hc') as (? & ? & sh' & E). split; [done |]. split; [done |]. exists sh'.
    rewrite lookup_insert_ne by (intros <-; destruct Hne; by eapply (obj_inj _ _ _ _ _ _ _ _ _ _ _ _ I)).
    rewrite E. do 3 f_equal. f_equal. apply bool_decide_ext. set_solver.
  - intros b m'. destruct (decide (b = mnt_bkt h)) as [-> | Hb'].
    + rewrite fn_lookup_insert, list_elem_of_filter, mr_bkt0. split.
      * intros (Hne & h' & Hm' & E). exists h'. rewrite lookup_delete_ne by congruence. done.
      * intros (h' & (Hne & Hm')%lookup_delete_Some & E). split; [| eauto].
        intros ->. destruct Hne. by eapply (obj_inj _ _ _ _ _ _ _ _ _ _ _ _ I).
    + rewrite fn_lookup_insert_ne, mr_bkt0 by done. split; intros (h' & Hm' & E); exists h'.
      * rewrite lookup_delete_ne by congruence. done.
      * by apply lookup_delete_Some in Hm' as [_ ?].
  - intros b. destruct (decide (b = mnt_bkt h)) as [-> | Hb'].
    + rewrite fn_lookup_insert. by apply NoDup_filter.
    + by rewrite fn_lookup_insert_ne.
  - rewrite dom_delete. set_solver.
  - rewrite dom_delete. set_solver.
  - unfold stat_objs. cbn [s_objs]. rewrite mr_objs0. unfold w64. rewrite Zminus_mod_idemp_l. f_equal.
    rewrite <- (insert_delete_id C h 0) at 1 by done. rewrite map_size_insert_None by (by rewrite lookup_delete_eq).
    lia.
  - apply NoDup_app. split_and!; [done | | apply NoDup_singleton].
    intros y Hy ->%list_elem_of_singleton. by apply (mr_queued0 m Hy h).
  - intros y [Hy | ->%list_elem_of_singleton]%elem_of_app h' [Hne Hm']%lookup_delete_Some; [by eapply mr_queued0 |].
    destruct Hne. by eapply (obj_inj _ _ _ _ _ _ _ _ _ _ _ _ I).
  - intros y. rewrite (dom_insert_lookup_L (mw_obj w) m) by (by eexists). rewrite mr_live0, elem_of_app, list_elem_of_singleton. split.
    + intros [[h' Hy] | ?]; [| by eauto]. destruct (decide (h' = h)) as [-> |]; [right; right; congruence |].
      left. exists h'. by rewrite lookup_delete_ne.
    + intros [[h' [_ Hy]%lookup_delete_Some] | [? | ->]]; eauto.
Qed.
End update.

(** ** Pin, get, unpin *)

Lemma relock_set (b : Z) (B : gset Z) : b ∉ B → ({[b]} ∪ B) ∖ {[b]} = B.
Proof. set_solver. Qed.

Lemma not_elem_of_minus (h : Z) (F : gset Z) : h ∉ F ∖ {[h]}.
Proof. set_solver. Qed.
Lemma minus_twice (h : Z) (Z0 : gset Z) : Z0 ∖ {[h]} ∖ {[h]} = Z0 ∖ {[h]}.
Proof. set_solver. Qed.

Section table.
Variables (k : nat) (r : Z) (N : nspace) (T : gmap Z Z) (hs : list head).

Lemma wp_mnt_pin w A C Z0 F P B h (Q : Z → mworld → Prop) :
  minv k w r N T hs A C Z0 F P B → mnt_bkt h ∉ B → h ∉ Z0 →
  (∀ m w', A !! h = Some m → minv k w' r N T hs A C ({[h]} ∪ Z0) F P B → Q m w') →
  (∀ w', A !! h = None → minv k w' r N T hs A C Z0 F P B → Q 0 w') →
  wp (mnt_pin h) Q w.
Proof.
  intros I Hb Hz HS HN. unfold mnt_pin. wp_step. eapply wp_bkt_lock; [done | done |]. intros w1 I1.
  wp_step. eapply wp_run; [by eapply mnt_find_run |]. wp_step.
  destruct (A !! h) as [m |] eqn:Hm; simpl.
  - destruct (obj_of _ _ _ _ _ _ _ _ _ _ _ _ I1 h m Hm) as (c & sh & _ & Hm0 & _).
    apply wp_when; [intros _ | intros E; apply negb_false_iff, Z.eqb_eq in E; done].
    eapply wp_pin_store; [done | done | done |]. intros w2 I2.
    wp_step. eapply wp_bkt_unlock; [done |]. intros w3 I3. rewrite relock_set in I3 by done. wp_step. by apply HS.
  - apply wp_ret. wp_step. eapply wp_bkt_unlock; [done |]. intros w3 I3. rewrite relock_set in I3 by done.
    wp_step. by apply HN.
Qed.

Lemma wp_mnt_unpin_locked w A C Z0 F P B h m c (Q : unit → mworld → Prop) :
  minv k w r N T hs A C Z0 F P B → A !! h = Some m → C !! h = Some c → h ∈ Z0 →
  (c ≠ 0 → ∀ w', minv k w' r N T hs A C (Z0 ∖ {[h]}) F P B → Q tt w') →
  (c = 0 → ∀ w', minv k w' r N T hs (delete h A) (delete h C) (Z0 ∖ {[h]}) (F ∖ {[h]}) P B → Q tt w') →
  wp (mnt_unpin_locked m) Q w.
Proof.
  intros I Hm Hc Hz Hkeep Hgo. destruct (obj_of _ _ _ _ _ _ _ _ _ _ _ _ I h m Hm) as (c' & sh & ? & Hm0 & Hc' & E).
  simplify_eq. assert (Hh : is_Some (N !! h)).
  { apply elem_of_dom, (mi_hosts _ _ _ _ _ _ _ _ _ _ _ _ I), elem_of_dom. by eexists. }
  unfold mnt_unpin_locked. wp_step. eapply wp_run; [unfold mnt_at, st_lookup; by rewrite E |].
  cbn [m_pins m_dead m_host]. rewrite bool_decide_eq_true_2 by done. change (w64 (Z.b2z true - 1)) with 0.
  wp_step. eapply (wp_pins_store _ _ _ _ _ _ _ _ _ _ _ _ I h m c (Z0 ∖ {[h]})); [done | done | | | |].
  { pose proof (mr_pinned _ _ _ _ _ _ _ (mi_rep _ _ _ _ _ _ _ _ _ _ _ _ I)). set_solver. }
  { set_solver. }
  { intros sh'. unfold set_pins. cbn. rewrite bool_decide_eq_false_2 by set_solver. done. }
  intros w1 I1. cbn [andb negb Z.eqb]. wp_step. wp_step. eapply wp_run; [by eapply mnt_read_run |]. wp_step.
  apply wp_when; intros Ec.
  - apply Z.eqb_eq in Ec. subst c. wp_step.
    pose proof (mr_counted _ _ _ _ _ _ _ (mi_rep _ _ _ _ _ _ _ _ _ _ _ _ I1)) as HF.
    pose proof (mi_points _ _ _ _ _ _ _ _ _ _ _ _ I1) as HP.
    eapply (wp_d_mnt_store _ _ _ _ _ _ _ _ _ _ _ _ I1 h _ (F ∖ {[h]}) P); [done | | set_solver | set_solver | done |].
    { rewrite flag_clear_counted. f_equal. rewrite bool_decide_eq_false_2; [done | set_solver]. }
    intros w2 I2. wp_step. wp_step. wp_step.
    destruct (obj_of _ _ _ _ _ _ _ _ _ _ _ _ I2 h m Hm) as (c2 & sh2 & ? & _ & _ & E2).
    unfold wp at 1, mnt_store. msimpl. rewrite E2. unfold DC_MNT_STAT_DEC. wp_steps. msimpl.
    apply (Hgo eq_refl).
    pose proof (minv_remove _ _ _ _ _ _ _ _ _ _ _ _ I2 h m _ Hm Hc E2 (not_elem_of_minus h F)) as I3.
    rewrite minus_twice in I3. exact I3.
  - apply Z.eqb_neq in Ec. by apply Hkeep.
Qed.

Lemma wp_mnt_unpin w A C Z0 F P B h m c (Q : unit → mworld → Prop) :
  minv k w r N T hs A C Z0 F P B → A !! h = Some m → C !! h = Some c → h ∈ Z0 → mnt_bkt h ∉ B →
  (c ≠ 0 → ∀ w', minv k w' r N T hs A C (Z0 ∖ {[h]}) F P B → Q tt w') →
  (c = 0 → ∀ w', minv k w' r N T hs (delete h A) (delete h C) (Z0 ∖ {[h]}) (F ∖ {[h]}) P B → Q tt w') →
  wp (mnt_unpin m) Q w.
Proof.
  intros I Hm Hc Hz Hb Hkeep Hgo. unfold mnt_unpin.
  destruct (mnt_at_run _ _ _ _ _ _ _ _ _ _ _ _ I h m Hm) as (x & Ex & Eh).
  wp_step. eapply wp_run; [done |]. rewrite Eh. wp_step. eapply wp_bkt_lock; [done | done |]. intros w1 I1.
  wp_step. eapply wp_mnt_unpin_locked; [done | done | done | done | |].
  - intros Ec w2 I2. eapply wp_bkt_unlock; [done |]. intros w3 I3. rewrite relock_set in I3 by done. by apply Hkeep.
  - intros Ec w2 I2. eapply wp_bkt_unlock; [done |]. intros w3 I3. rewrite relock_set in I3 by done. by apply Hgo.
Qed.

Section get.
Context `{HC : Calloc} `{!CallocOk HC}.

Lemma wp_mnt_get w A C Z0 F P B h (Q : Z → mworld → Prop) :
  minv k w r N T hs A C Z0 F P B → is_Some (N !! h) → mnt_bkt h ∉ B → h ∉ Z0 →
  (∀ m w' A', m ≠ 0 → A ⊆ A' → A' !! h = Some m →
     minv k w' r N T hs A' (C ∪ {[h := 0]}) ({[h]} ∪ Z0) F P B → Q m w') →
  (∀ w', (∃ live, calloc live = None) → minv k w' r N T hs A C Z0 F P B → Q 0 w') →
  wp (mnt_get h) Q w.
Proof.
  intros I Hh Hb Hz HS HN. unfold mnt_get. wp_step.
  set (Q' := λ m w', wp (st_ret m) Q w').
  enough (rounds (mnt_get_round h) Q' 1 0 w) as Hr.
  { eapply wp_mono; [by apply (wp_iter_rounds RETRY_ROUNDS) |]. intros [a | m] w' H'; [| done].
    destruct H' as [Hlt _]. exfalso. assert (1 < Pos.to_nat RETRY_ROUNDS)%nat; [| lia].
    apply (Pos2Nat.inj_lt 1). done. }
  assert (Hset : ∀ w1 fresh, minv k w1 r N T hs A C Z0 F P B → A !! h = None → fresh ≠ 0 → mw_obj w1 !! fresh = None →
    wp (mnt_get_round h fresh) (λ r w', match r with inr m => Q' m w' | inl _ => False end)
      (set_obj (<[fresh := Mnt h 0 1 false 0]> (mw_obj w1)) w1)).
  { intros w1 fresh I1 Hm Hf Ho. unfold mnt_get_round. wp_step.
    pose proof (minv_set_held _ _ _ _ _ _ _ _ _ _ _ _ I1 ({[mnt_bkt h]} ∪ B)) as I2.
    unfold mnt_bkt_lock at 1, wp at 1. msimpl. rewrite (mr_held _ _ _ _ _ _ _ (mi_rep _ _ _ _ _ _ _ _ _ _ _ _ I1)).
    rewrite decide_False by done. set (w2 := set_held ({[mnt_bkt h]} ∪ B) w1) in I2.
    change (set_held _ (set_obj _ w1)) with (set_obj (<[fresh := Mnt h 0 1 false 0]> (mw_obj w2)) w2).
    wp_step. eapply wp_run.
    { unfold mnt_find_rcu. run gets_run. eapply mnt_scan_fresh; [done |]. exact (mnt_find_run _ _ _ _ _ _ _ _ _ _ _ _ I2 h). }
    rewrite Hm. simpl default.
    apply Z.eqb_neq in Hf as Ef. rewrite Ef. cbn [Z.eqb negb andb]. wp_step. unfold DC_MNT_STAT_INC. wp_steps.
    pose proof (minv_insert _ _ _ _ _ _ _ _ _ _ _ _ I2 h fresh 0 Hh Hm Hf Ho) as I3. msimpl in *.
    eapply wp_bkt_unlock; [exact I3 |]. intros w4 I4. rewrite relock_set in I4 by done.
    rewrite Ef. cbn [negb Z.eqb]. unfold when. wp_steps. apply HS with (A' := <[h := fresh]> A); [done | | by rewrite lookup_insert_eq |].
    - by apply insert_subseteq.
    - replace (C ∪ {[h := 0]}) with (<[h := 0]> C); [done |].
      assert (HnC : C !! h = None).
      { apply not_elem_of_dom. rewrite <- (mr_dom _ _ _ _ _ _ _ (mi_rep _ _ _ _ _ _ _ _ _ _ _ _ I)). by apply not_elem_of_dom. }
      rewrite insert_union_singleton_r by done. done. }
  simpl. unfold mnt_get_round at 1. wp_step. eapply wp_bkt_lock; [done | done |]. intros w1 I1.
  wp_step. eapply wp_run; [by eapply mnt_find_run |]. destruct (A !! h) as [m |] eqn:Hm; simpl default.
  - destruct (obj_of _ _ _ _ _ _ _ _ _ _ _ _ I1 h m Hm) as (c & sh & Hc & Hm0 & _).
    apply Z.eqb_neq in Hm0 as Em. rewrite Em. cbn [negb andb]. wp_step. wp_step.
    eapply wp_pin_store; [done | done | done |]. intros w2 I2. wp_step. wp_step.
    eapply wp_bkt_unlock; [done |]. intros w3 I3. rewrite relock_set in I3 by done. rewrite Em. cbn [negb].
    unfold when. cbn [negb Z.eqb]. wp_steps. apply HS with (A' := A); [done | done | done |].
    replace (C ∪ {[h := 0]}) with C; [done |].
    symmetry. apply map_eq. intros i. rewrite lookup_union. destruct (C !! i) eqn:Ei; [by destruct ({[h := 0]} !! i) |].
    rewrite lookup_singleton_ne by congruence. done.
  - cbn [Z.eqb negb andb]. unfold when. wp_steps.
    eapply wp_bkt_unlock; [done |]. intros w3 I3. rewrite relock_set in I3 by done.
    cbn [Z.eqb negb]. wp_steps. destruct (calloc (dom (mw_obj w3))) as [a |] eqn:Ea.
    + wp_steps. pose proof (calloc_fresh _ _ Ea) as Hfr. pose proof (calloc_nonzero _ _ Ea) as Ha0.
      apply not_elem_of_dom in Hfr. by apply Hset.
    + wp_step. unfold Q'. wp_step. apply HN; [by eexists | done].
Qed.
End get.
End table.
