(* ===== verification/MountSet.v ===== *)
(** The set of an operation on mount counts: working it out (freeze), taking its
    buckets, committing its changes and letting go of it. *)

From S2P Require Import Prelude Qstr HList Lru World Walk Namespace TreeOps BlChain BlLru BlWorld BlWalk.
From S2P Require Import BlOps BlMove BlInv BlReads BlWalkSpec BlLocks BlRep BlSect Mount MountRep.
From Stdlib Require Import Sorted.

(** ** Reads of the engine, and its locks *)

Section engine.
Variables (k : nat) (w : mworld) (r : Z) (N : nspace) (T : gmap Z Z) (hs : list head) (A C : gmap Z Z).
Variables (Z0 F P B : gset Z).
Hypothesis I : minv k w r N T hs A C Z0 F P B.

Lemma mi_brep : rep (mw_bw w) N T ∅.
Proof. apply (mi_bw _ _ _ _ _ _ _ _ _ _ _ _ I). Qed.

Lemma mi_tree : tree r N.
Proof. rewrite <- (mi_root _ _ _ _ _ _ _ _ _ _ _ _ I). apply (r_tree _ _ _ _ mi_brep). Qed.

Lemma mi_root_dom : is_Some (N !! r).
Proof. destruct (t_root _ _ mi_tree) as (n & Hn & _). by eexists. Qed.

Lemma mi_parent h n : N !! h = Some n → on_bw (parent_of_rcu h) w = Ok (n_parent n, w).
Proof.
  intros Hn. destruct (rep_node _ _ _ _ h n mi_brep Hn) as (x & Hx & Hok & _ & _ & _ & <-).
  by apply on_bw_run, parent_of_run.
Qed.

Lemma mi_alive h : is_Some (N !! h) → on_bw (entry_alive h) w = Ok (true, w).
Proof. intros Hh. eapply on_bw_run, entry_alive_run; [apply mi_brep | done]. Qed.

Lemma mi_heads_child h : is_Some (N !! h) → heads_ok (mw_bw w) [ChildHead h].
Proof. intros Hh x ->%list_elem_of_singleton. eapply heads_child; [apply mi_brep | done]. Qed.
End engine.

Section locks.
Context `{HL : Layout} `{!LayoutOk HL}.
Variables (k : nat) (r : Z) (N : nspace) (T : gmap Z Z) (A C : gmap Z Z) (Z0 F P B : gset Z).
Abbreviation mi hs w := (minv k w r N T hs A C Z0 F P B).

Lemma mi_relock hs hs' w bw : mi hs w → relock (mw_bw w) bw → sect k bw N T ∅ ∅ hs' → mi hs' (set_bw bw w).
Proof.
  intros I Hl S. apply (minv_set_bw _ _ _ _ _ _ _ _ _ _ _ _ I); [done |].
  destruct (relock_same _ _ Hl) as (_ & -> & _). apply I.
Qed.

Lemma wp_mi_lock w x (Q : unit → mworld → Prop) :
  mi [] w → heads_ok (mw_bw w) [x] → (∀ w', mi [x] w' → heads_ok (mw_bw w') [x] → Q tt w') →
  wp (on_bw (lock_head x)) Q w.
Proof.
  intros I Hh HQ. apply wp_zoom. eapply wp_sect_lock1; [apply I | done |].
  intros bw Hl S Hok. apply HQ; [by eapply mi_relock | done].
Qed.

Lemma wp_mi_unlock w x (Q : unit → mworld → Prop) :
  mi [x] w → heads_ok (mw_bw w) [x] → (∀ w', mi [] w' → heads_ok (mw_bw w') [x] → Q tt w') → wp (on_bw (unlock_head x)) Q w.
Proof.
  intros I Hh HQ. apply wp_zoom. eapply wp_sect_unlock1; [apply I | done |].
  intros bw Hl S. apply HQ; [by eapply mi_relock |]. eapply relock_heads; [apply I | done | done].
Qed.

Lemma wp_mi_lock2 w x y (Q : unit → mworld → Prop) :
  mi [] w → heads_ok (mw_bw w) [x; y] → (∀ w', mi [x; y] w' → heads_ok (mw_bw w') [x; y] → Q tt w') →
  wp (on_bw (bl_lock2 x y)) Q w.
Proof.
  intros I Hh HQ. apply wp_zoom. eapply wp_sect_lock2; [apply I | done |].
  intros bw Hl S Hok. apply HQ; [by eapply mi_relock | done].
Qed.

Lemma wp_mi_unlock2 w x y (Q : unit → mworld → Prop) :
  mi [x; y] w → heads_ok (mw_bw w) [x; y] → (∀ w', mi [] w' → heads_ok (mw_bw w') [x; y] → Q tt w') → wp (on_bw (bl_unlock2 x y)) Q w.
Proof.
  intros I Hh HQ. apply wp_zoom. eapply wp_sect_unlock2; [apply I | done |].
  intros bw Hl S. apply HQ; [by eapply mi_relock |]. eapply relock_heads; [apply I | done | done].
Qed.

Lemma wp_mi_lock_n w l (Q : list head → mworld → Prop) :
  mi [] w → heads_ok (mw_bw w) l →
  (∀ w', mi l w' → heads_ok (mw_bw w') l → Q (sort_heads l) w') → wp (on_bw (bl_lock_n l)) Q w.
Proof.
  intros I Hh HQ. apply wp_zoom. eapply wp_sect_lock_n; [apply I | done |].
  intros bw Hl S Hok. apply HQ; [by eapply mi_relock | done].
Qed.

Lemma wp_mi_unlock_n w l (Q : unit → mworld → Prop) :
  mi l w → heads_ok (mw_bw w) l → (∀ w', mi [] w' → Q tt w') → wp (on_bw (bl_unlock_n (sort_heads l))) Q w.
Proof.
  intros I Hh HQ. apply wp_zoom. eapply wp_sect_unlock_n; [apply I | done |].
  intros bw Hl S. eapply HQ, mi_relock; done.
Qed.
End locks.

(** ** Freezing *)

(** A loop that is left in its first round. *)
Lemma wp_once {W X Y V} p (body : X → ST W (X + Y)) a (f : Y → ST W V) (Q : V → W → Prop) w :
  wp (body a) (λ r w', ∃ b, r = inr b ∧ wp (f b) Q w') w →
  wp (let! r := iter_upto p body a in match r with inl _ => st_fault NoFuel | inr b => f b end) Q w.
Proof.
  intros H. apply wp_bind, wp_iter_first. eapply wp_mono; [exact H |]. intros r w' (b & -> & Hf). eauto.
Qed.


Lemma wp_mnt_freeze k r N T w A C Z0 F P B h n first (Q : Z → mworld → Prop) :
  minv k w r N T [] A C Z0 F P B → N !! h = Some n → h ∈ dom C →
  (∀ w', minv k w' r N T [] A C Z0 ({[h]} ∪ F) P B → Q (n_parent n) w') →
  wp (mnt_freeze h first) Q w.
Proof.
  intros I Hn Hc HQ. pose proof (mi_tree _ _ _ _ _ _ _ _ _ _ _ _ I) as Ht.
  assert (Hh : is_Some (N !! h)) by (by eexists).
  unfold mnt_freeze. wp_step. wp_step. rewrite (mi_root _ _ _ _ _ _ _ _ _ _ _ _ I).
  destruct (Z.eqb_spec h r) as [-> | Hne].
  { wp_step. eapply wp_flag_counted; [done | done | done |]. intros w1 I1. wp_step.
    destruct (t_root _ _ Ht) as (rn & Hrn & Ep & _).
    assert (rn = n) as -> by congruence. rewrite <- Ep. by apply HQ. }
  wp_step. eapply wp_run; [by eapply mnt_counted_run |]. case_bool_decide as HF.
  { eapply wp_run; [by eapply mi_parent |]. apply HQ. by rewrite subseteq_union_1_L by set_solver. }
  assert (Hp : is_Some (N !! n_parent n)) by (eapply tree_parent; done).
  apply wp_once. unfold mnt_freeze_round.
  wp_step. eapply wp_run; [by eapply mi_parent |]. wp_step. eapply wp_mi_lock; [done | by eapply mi_heads_child |]. intros w1 I1 _.
  wp_step. eapply wp_run; [by eapply mi_parent |]. rewrite Z.eqb_refl. cbn [negb].
  wp_step. eapply (wp_run _ _ _ true); [destruct first; [by eapply mi_alive | done] |]. cbn [negb].
  wp_step. eapply wp_flag_counted; [done | done | done |]. intros w2 I2.
  wp_step. eapply wp_mi_unlock; [done | by eapply mi_heads_child |]. intros w3 I3 _. unfold DC_MNT_STAT_INC. wp_steps.
  eexists. split; [done |]. wp_step. apply HQ, minv_stat; done.
Qed.

(** ** Letting go of a set *)

Definition pinned (l : list mnt_ent) : list Z := e_host <$> filter (λ e, e_m e ≠ 0) l.

(** What is left of the counts when the pins of [X] are gone. *)
Definition settle (X : gset Z) (C : gmap Z Z) : gmap Z Z := filter (λ hc, hc.1 ∉ X ∨ hc.2 ≠ 0) C.

(** The pinned entries of a set have the object of their host. *)
Record ents_ok (A : gmap Z Z) (Z0 : gset Z) (l : list mnt_ent) : Prop := {
  eo_nodup : NoDup (pinned l);
  eo_obj : ∀ e, e ∈ l → e_m e ≠ 0 → A !! e_host e = Some (e_m e) ∧ e_host e ∈ Z0;
}.

(** The buckets that are locked while the set [s] is in use. *)
Definition shift_held (s : mnt_shift) : gset Z := if ms_locked s then list_to_set (ms_b s) else ∅.

Lemma settle_keep h c X C : C !! h = Some c → c ≠ 0 → settle ({[h]} ∪ X) C = settle X C.
Proof.
  intros Hc H0. apply map_eq. intros i. apply option_eq. intros v. unfold settle.
  rewrite !map_lookup_filter_Some. simpl. split; intros [Hi H]; split; try done.
  - destruct H; [left; set_solver | by right].
  - destruct (decide (i = h)) as [-> |]; [right; congruence |]. destruct H; [left; set_solver | by right].
Qed.

Lemma settle_drop h X C : C !! h = Some 0 → settle ({[h]} ∪ X) C = settle X (delete h C).
Proof.
  intros Hc. apply map_eq. intros i. apply option_eq. intros v. unfold settle.
  rewrite !map_lookup_filter_Some, lookup_delete_Some. simpl. split.
  - intros [Hi H]. assert (h ≠ i) by (intros <-; destruct H; [set_solver | congruence]).
    split; [done |]. destruct H; [left; set_solver | by right].
  - intros [[Hne Hi] H]. split; [done |]. destruct H; [left; set_solver | by right].
Qed.

Lemma settle_none C : settle ∅ C = C.
Proof. apply map_filter_id. intros i x _. left. set_solver. Qed.

Lemma settle_dom X C : dom (settle X C) ⊆ dom C.
Proof. apply dom_filter_subseteq. Qed.

Lemma settle_flag h X F (C : gmap Z Z) :
  C !! h = Some 0 → F ∖ {[h]} ∩ dom (settle X (delete h C)) = F ∩ dom (settle ({[h]} ∪ X) C).
Proof.
  intros Hc. rewrite (settle_drop h X C Hc).
  assert (h ∉ dom (settle X (delete h C))); [| set_solver].
  intros Hh%settle_dom. rewrite dom_delete in Hh. set_solver.
Qed.

Lemma minus_cons (h : Z) (X Y : gset Z) : X ∖ ({[h]} ∪ Y) = X ∖ {[h]} ∖ Y.
Proof. set_solver. Qed.

Lemma pinned_cons e l : e_m e ≠ 0 → pinned (e :: l) = e_host e :: pinned l.
Proof. intros H. unfold pinned. by rewrite filter_cons_True. Qed.
Lemma pinned_skip e l : e_m e = 0 → pinned (e :: l) = pinned l.
Proof. intros H. unfold pinned. rewrite filter_cons_False; [done |]. by intros []. Qed.
Lemma pinned_app l l' : pinned (l ++ l') = pinned l ++ pinned l'.
Proof. unfold pinned. by rewrite filter_app, fmap_app. Qed.
Lemma elem_of_pinned h l : h ∈ pinned l ↔ ∃ e, e ∈ l ∧ e_host e = h ∧ e_m e ≠ 0.
Proof.
  unfold pinned. rewrite list_elem_of_fmap. setoid_rewrite list_elem_of_filter. naive_solver.
Qed.

Lemma ents_ok_tail A A' Z0 e l :
  ents_ok A Z0 (e :: l) → (∀ h, h ≠ e_host e → A' !! h = A !! h) →
  e_m e ≠ 0 → ents_ok A' (Z0 ∖ {[e_host e]}) l.
Proof.
  intros [Hnd Ho] HA Hm. rewrite (pinned_cons e l Hm) in Hnd. apply NoDup_cons in Hnd as [Hni Hnd].
  split; [done |]. intros e' He' Hm'. destruct (Ho e' ltac:(by right) Hm') as [HA' Hz].
  assert (e_host e' ≠ e_host e) by (intros E; apply Hni; rewrite <- E; apply elem_of_pinned; eauto).
  rewrite HA by done. split; [done |]. set_solver.
Qed.

Section drop.
Variables (k : nat) (r : Z) (N : nspace) (T : gmap Z Z) (hs : list head) (P : gset Z).

Lemma wp_drop_ent s w A C Z0 F e c (Q : unit → mworld → Prop) :
  minv k w r N T hs A C Z0 F P (shift_held s) → e_m e ≠ 0 → A !! e_host e = Some (e_m e) →
  C !! e_host e = Some c → e_host e ∈ Z0 →
  (c ≠ 0 → ∀ w', minv k w' r N T hs A C (Z0 ∖ {[e_host e]}) F P (shift_held s) → Q tt w') →
  (c = 0 → ∀ w', minv k w' r N T hs (delete (e_host e) A) (delete (e_host e) C) (Z0 ∖ {[e_host e]})
     (F ∖ {[e_host e]}) P (shift_held s) → Q tt w') →
  wp (mnt_drop_ent s e) Q w.
Proof.
  intros I H0 Hm Hc Hz Hkeep Hgo. unfold mnt_drop_ent. apply Z.eqb_neq in H0 as ->.
  destruct (mnt_at_run _ _ _ _ _ _ _ _ _ _ _ _ I _ _ Hm) as (x & Ex & Eh).
  wp_step. eapply wp_run; [done |]. rewrite Eh.
  destruct (ms_locked s && bool_decide _) eqn:E.
  - by eapply wp_mnt_unpin_locked.
  - eapply wp_mnt_unpin; try done. unfold shift_held. destruct (ms_locked s); [| set_solver].
    simpl in E. apply bool_decide_eq_false in E. by rewrite elem_of_list_to_set.
Qed.

Lemma wp_drop_ents s l : ∀ w A C Z0 F (Q : unit → mworld → Prop),
  minv k w r N T hs A C Z0 F P (shift_held s) → ents_ok A Z0 l →
  (∀ w' A', A' ⊆ A →
     minv k w' r N T hs A' (settle (list_to_set (pinned l)) C) (Z0 ∖ list_to_set (pinned l))
       (F ∩ dom (settle (list_to_set (pinned l)) C)) P (shift_held s) → Q tt w') →
  wp (st_iter (mnt_drop_ent s) l) Q w.
Proof.
  induction l as [| e l IH]; intros w A C Z0 F Q I Hok HQ; simpl.
  { apply wp_ret, (HQ w A); [done |]. simpl. rewrite settle_none, difference_empty_L.
    rewrite subseteq_intersection_1_L; [done |].
    apply (mr_counted _ _ _ _ _ _ _ (mi_rep _ _ _ _ _ _ _ _ _ _ _ _ I)). }
  wp_step. destruct (decide (e_m e = 0)) as [E0 | H0].
  { unfold mnt_drop_ent. rewrite (proj2 (Z.eqb_eq _ _) E0). wp_step. rewrite (pinned_skip e l E0) in HQ.
    eapply IH; [done | | done]. destruct Hok as [Hnd Ho]. rewrite (pinned_skip e l E0) in Hnd.
    split; [done |]. intros e' He'. apply Ho. by right. }
  destruct (eo_obj _ _ _ Hok e ltac:(by left) H0) as [Hm Hz]. rewrite (pinned_cons e l H0) in HQ. simpl in HQ.
  destruct (obj_of _ _ _ _ _ _ _ _ _ _ _ _ I _ _ Hm) as (c & _ & Hc & _).
  eapply (wp_drop_ent s w A C Z0 F e c); [done | done | done | done | done | |]; intros Ec w1 I1.
  - eapply IH; [exact I1 | by eapply ents_ok_tail |]. intros w2 A2 HA I2. apply (HQ w2 A2); [done |].
    rewrite (settle_keep _ c _ _ Hc Ec). by rewrite minus_cons.
  - subst c. eapply IH; [exact I1 | eapply ents_ok_tail; [done | | done]; intros; by rewrite lookup_delete_ne |].
    intros w2 A2 HA I2. apply (HQ w2 A2); [etrans; [exact HA | apply delete_subseteq] |].
    rewrite <- (settle_flag _ _ _ _ Hc), (settle_drop _ _ _ Hc), minus_cons. done.
Qed.
End drop.

(** ** The buckets of a set *)

Lemma bkt_insert_elem b l x : x ∈ bkt_insert b l ↔ x = b ∨ x ∈ l.
Proof.
  induction l as [| y l IH]; simpl; [set_solver |].
  destruct (Z.ltb_spec y b); [rewrite !elem_of_cons, IH; naive_solver |].
  destruct (Z.eqb_spec y b) as [-> |]; rewrite !elem_of_cons; naive_solver.
Qed.

Lemma bkt_insert_sorted b l : StronglySorted Z.lt l → StronglySorted Z.lt (bkt_insert b l).
Proof.
  induction 1 as [| y l Hs IH Hy]; simpl; [by repeat constructor |].
  destruct (Z.ltb_spec y b); [| destruct (Z.eqb_spec y b); [by constructor |]].
  - constructor; [done |]. apply Forall_forall. intros x [-> | Hx]%bkt_insert_elem; [done |].
    by eapply Forall_forall in Hy.
  - constructor; [by constructor |]. constructor; [lia |]. eapply Forall_impl; [exact Hy |]. simpl. lia.
Qed.

Lemma sorted_nodup l : StronglySorted Z.lt l → NoDup l.
Proof.
  induction 1 as [| y l Hs IH Hy]; constructor; [| done]. intros Hin. eapply Forall_forall in Hy; [| done]. lia.
Qed.

(** In the order of the addresses, each once. *)
Lemma shift_buckets_sorted l : StronglySorted Z.lt (shift_buckets l).
Proof.
  unfold shift_buckets. enough (∀ b, StronglySorted Z.lt b → StronglySorted Z.lt
    (foldl (λ b e, if ent_counts e then bkt_insert (mnt_bkt (e_host e)) b else b) b l)) as H by (apply H; constructor).
  induction l as [| e l IH]; intros b Hb; simpl; [done |]. apply IH.
  destruct (ent_counts e); [by apply bkt_insert_sorted | done].
Qed.

Section lock.
Variables (k : nat) (r : Z) (N : nspace) (T : gmap Z Z) (hs : list head) (A C : gmap Z Z) (Z0 F P : gset Z).
Abbreviation mi B w := (minv k w r N T hs A C Z0 F P B).

Lemma wp_lock_buckets bs : ∀ w B (Q : unit → mworld → Prop),
  mi B w → NoDup bs → (∀ b, b ∈ bs → b ∉ B) →
  (∀ w', mi (list_to_set bs ∪ B) w' → Q tt w') → wp (st_iter mnt_bkt_lock bs) Q w.
Proof.
  induction bs as [| b bs IH]; intros w B Q I Hnd HB HQ; simpl.
  { apply wp_ret, HQ. simpl. by rewrite union_empty_l_L. }
  apply NoDup_cons in Hnd as [Hb Hnd]. wp_step. eapply wp_bkt_lock; [done | apply HB; by left |]. intros w1 I1.
  eapply IH; [done | done | |].
  - intros b' Hb' [->%elem_of_singleton | ?]%elem_of_union; [done |]. eapply HB; [by right | done].
  - intros w2 I2. apply HQ. simpl. rewrite (union_comm_L {[b]}), <- union_assoc_L. done.
Qed.

Lemma wp_unlock_buckets bs : ∀ w B (Q : unit → mworld → Prop),
  mi B w → (∀ w', mi (B ∖ list_to_set bs) w' → Q tt w') → wp (st_iter mnt_bkt_unlock bs) Q w.
Proof.
  induction bs as [| b bs IH]; intros w B Q I HQ; simpl.
  { apply wp_ret, HQ. simpl. by rewrite difference_empty_L. }
  wp_step. eapply wp_bkt_unlock; [done |]. intros w1 I1. eapply IH; [done |].
  intros w2 I2. apply HQ. simpl. by rewrite minus_cons.
Qed.

(** The parents that a set noted. *)
Definition ups_ok (l : list mnt_ent) : Prop :=
  ∀ e, e ∈ l → e_up e ≠ 0 → ∃ n, N !! e_host e = Some n ∧ n_parent n = e_up e.

Lemma shift_valid_run l w B : mi B w → ups_ok l → shift_valid l w = Ok (true, w).
Proof.
  intros I. induction l as [| e l IH]; intros Hu; simpl; [done |].
  destruct (Z.eqb_spec (e_up e) 0) as [E | E]; [apply IH; intros e' He'; apply Hu; by right |].
  destruct (Hu e ltac:(by left) E) as (n & Hn & Ep).
  eapply bind_run; [by eapply mi_parent |]. rewrite Ep, Z.eqb_refl. apply IH. intros e' He'. apply Hu. by right.
Qed.

(** What is known of the host that moves. *)
Definition self_ok (for_ self c : Z) : Prop :=
  for_ = 0 ∨
  is_Some (N !! for_) ∧ (for_ ∈ F ↔ self ≠ 0) ∧ (self ≠ 0 → A !! for_ = Some self ∧ C !! for_ = Some c).

Lemma self_valid_run for_ self c w B : mi B w → self_ok for_ self c → self_valid for_ self c w = Ok (true, w).
Proof.
  intros I [-> | (Hh & HF & Ho)]; [done |]. unfold self_valid. destruct (Z.eqb_spec for_ 0); [done |].
  eapply bind_run; [by eapply mnt_counted_run |]. cbn beta.
  destruct (Z.eqb_spec self 0) as [E | E].
  - rewrite (bool_decide_eq_false_2 (for_ ∈ F)) by naive_solver. done.
  - rewrite (bool_decide_eq_true_2 (for_ ∈ F)) by naive_solver. cbn [negb]. rewrite bool_decide_eq_true_2 by done.
    cbn [negb]. destruct (Ho E) as [Hm Hc]. eapply bind_run; [by eapply mnt_read_run |]. cbn beta.
    by rewrite Z.eqb_refl.
Qed.

Lemma wp_mnt_shift_lock s w (Q : bool * mnt_shift → mworld → Prop) :
  mi ∅ w → ups_ok (ms_e s) → self_ok (ms_for_a s) (ms_self_a s) (ms_c_a s) →
  self_ok (ms_for_b s) (ms_self_b s) (ms_c_b s) →
  (let s' := set_locked true (set_b (shift_buckets (ms_e s)) s) in
   ∀ w', mi (shift_held s') w' → Q (true, s') w') →
  wp (mnt_shift_lock s) Q w.
Proof.
  intros I Hu Ha Hb HQ. unfold mnt_shift_lock. wp_step. cbn [ms_b set_b].
  eapply wp_lock_buckets; [done | apply sorted_nodup, shift_buckets_sorted | set_solver |].
  rewrite union_empty_r_L. intros w1 I1.
  wp_step. eapply wp_run; [by eapply shift_valid_run |].
  wp_step. eapply wp_run; [by eapply self_valid_run |].
  wp_step. eapply wp_run; [by eapply self_valid_run |]. cbn [andb]. wp_step. by apply HQ.
Qed.

Lemma wp_mnt_shift_unlock s w (Q : mnt_shift → mworld → Prop) :
  mi (shift_held s) w → (∀ w', mi ∅ w' → Q (set_locked false s) w') → wp (mnt_shift_unlock s) Q w.
Proof.
  intros I HQ. unfold mnt_shift_unlock, shift_held in *. destruct (ms_locked s) eqn:E; cbn [negb].
  - wp_step. eapply wp_unlock_buckets; [done |]. intros w1 I1. wp_step. apply HQ.
    by rewrite difference_diag_L in I1.
  - wp_step. replace s with (set_locked false s) at 1 by (destruct s; cbn in *; by subst). by apply HQ.
Qed.
End lock.

(** ** The commit *)

(** The counts with the changes of a set made. *)
Fixpoint bump (l : list mnt_ent) (C : gmap Z Z) : gmap Z Z :=
  match l with
  | [] => C
  | e :: l => bump l (if e_m e =? 0 then C else alter (Z.add (e_by e)) (e_host e) C)
  end.

(** The change that a set makes to the count of [h]. *)
Fixpoint by_of (l : list mnt_ent) (h : Z) : Z :=
  match l with
  | [] => 0
  | e :: l => (if decide (e_m e ≠ 0 ∧ e_host e = h) then e_by e else 0) + by_of l h
  end.

Lemma bump_lookup l : ∀ C h, bump l C !! h = (λ c, c + by_of l h) <$> C !! h.
Proof.
  induction l as [| e l IH]; intros C h; simpl.
  { destruct (C !! h); simpl; [f_equal; lia | done]. }
  rewrite IH. destruct (Z.eqb_spec (e_m e) 0) as [E | E].
  { rewrite decide_False by naive_solver. destruct (C !! h); simpl; [f_equal; lia | done]. }
  destruct (decide (e_host e = h)) as [<- | Hne].
  - rewrite lookup_alter_eq, decide_True by done. destruct (C !! e_host e); simpl; [f_equal; lia | done].
  - rewrite lookup_alter_ne, decide_False by naive_solver. destruct (C !! h); simpl; [f_equal; lia | done].
Qed.

Lemma bump_dom l C : dom (bump l C) = dom C.
Proof. apply set_eq. intros h. rewrite !elem_of_dom, bump_lookup. destruct (C !! h); simpl; naive_solver. Qed.

(** The records that a set gives. *)
Definition recs1 (C : gmap Z Z) (e : mnt_ent) : list mrec :=
  if (e_m e =? 0) || (e_by e =? 0) then []
  else let v := default 0 (C !! e_host e) in [MRec (e_m e) (2 * v) (2 * (v + e_by e))].
Fixpoint recs (C : gmap Z Z) (l : list mnt_ent) : list mrec :=
  match l with
  | [] => []
  | e :: l => recs1 C e ++ recs C l
  end.

Lemma recs_ext C C' l : (∀ e, e ∈ l → e_m e ≠ 0 → C !! e_host e = C' !! e_host e) → recs C l = recs C' l.
Proof.
  induction l as [| e l IH]; intros H; simpl; [done |]. f_equal; [| apply IH; intros; apply H; [by right | done]].
  unfold recs1. destruct (Z.eqb_spec (e_m e) 0); [done |]. by rewrite (H e ltac:(by left)).
Qed.

Lemma recs_objs C l x : x ∈ recs C l → ∃ e, e ∈ l ∧ e_m e ≠ 0 ∧ mr_m x = e_m e ∧ mr_old x = 2 * default 0 (C !! e_host e).
Proof.
  induction l as [| e l IH]; simpl; [by intros ?%not_elem_of_nil |]. intros [H | H]%elem_of_app.
  - revert H. unfold recs1. destruct (Z.eqb_spec (e_m e) 0); [by intros ?%not_elem_of_nil |].
    destruct (e_by e =? 0); simpl; [by intros ?%not_elem_of_nil |].
    intros ->%list_elem_of_singleton. exists e. split_and!; [by left | done..].
  - destruct (IH H) as (e' & ? & ?). exists e'. split; [by right | done].
Qed.

(** The counts stay in range. *)
Definition by_ok (C : gmap Z Z) (l : list mnt_ent) : Prop :=
  ∀ e, e ∈ l → e_m e ≠ 0 → ∃ c, C !! e_host e = Some c ∧ 0 ≤ c + e_by e < 2 ^ 62.

Lemma alter_zero h (C : gmap Z Z) : alter (Z.add 0) h C = C.
Proof.
  apply map_eq. intros i. destruct (decide (h = i)) as [-> |]; [| by rewrite lookup_alter_ne].
  rewrite lookup_alter_eq. by destruct (C !! i).
Qed.

Section commit.
Variables (k : nat) (r : Z) (N : nspace) (T : gmap Z Z) (hs : list head) (A : gmap Z Z) (Z0 F P B : gset Z).
Abbreviation mi C w := (minv k w r N T hs A C Z0 F P B).

Lemma shift_records_run C l w : mi C w → ents_ok A Z0 l → by_ok C l → shift_records l w = Ok (recs C l, w).
Proof.
  intros I Hok Hby. induction l as [| e l IH]; simpl; [done |].
  assert (ents_ok A Z0 l) as Hok'.
  { destruct Hok as [Hnd Ho]. split; [| intros e' He'; apply Ho; by right].
    destruct (decide (e_m e = 0)) as [E | E]; [by rewrite pinned_skip in Hnd |].
    rewrite pinned_cons in Hnd by done. by apply NoDup_cons in Hnd as [_ ?]. }
  assert (by_ok C l) as Hby' by (intros e' He'; apply Hby; by right).
  assert (mnt_record_ent e w = Ok (recs1 C e, w)) as E1; [| eapply bind_run; [exact E1 |]; cbn beta].
  2:{ eapply bind_run; [by apply IH |]. done. }
  unfold mnt_record_ent, recs1. destruct (Z.eqb_spec (e_m e) 0) as [| H0]; [done |].
  destruct (e_by e =? 0); cbn [orb]; [done |].
  destruct (Hby e ltac:(by left) H0) as (c & Hc & Hr). destruct (eo_obj _ _ _ Hok e ltac:(by left) H0) as [Hm _].
  eapply bind_run; [by eapply mnt_read_run |]. cbn beta. rewrite (proj2 (Z.ltb_ge _ _)) by lia.
  destruct (obj_of _ _ _ _ _ _ _ _ _ _ _ _ I _ _ Hm) as (c' & _ & Hc' & _ & Hcr & _). simplify_eq.
  rewrite Hc. simpl. unfold st_ret. by rewrite !mnt_ptr_eq by lia.
Qed.

Lemma recs_nodup C l w : mi C w → ents_ok A Z0 l → NoDup (mr_m <$> recs C l).
Proof.
  intros I. induction l as [| e l IH]; intros [Hnd Ho]; simpl; [constructor |].
  assert (∀ e', e' ∈ l → e_m e' ≠ 0 → A !! e_host e' = Some (e_m e') ∧ e_host e' ∈ Z0) as Ho'
    by (intros e' He'; apply Ho; by right).
  unfold recs1. destruct (Z.eqb_spec (e_m e) 0) as [E | E].
  { rewrite pinned_skip in Hnd by done. by apply IH. }
  rewrite pinned_cons in Hnd by done. apply NoDup_cons in Hnd as [Hni Hnd].
  destruct (e_by e =? 0); simpl; [by apply IH |]. constructor; [| by apply IH].
  intros (x & Ex & Hx)%list_elem_of_fmap. apply recs_objs in Hx as (e' & He' & H0' & Em & _). apply Hni.
  apply elem_of_pinned. exists e'. split_and!; [done | | done].
  destruct (Ho' e' He' H0') as [HA' _]. destruct (Ho e ltac:(by left) E) as [HA _].
  eapply (obj_inj _ _ _ _ _ _ _ _ _ _ _ _ I); [exact HA' |]. by rewrite <- Em, <- Ex.
Qed.

Lemma recs_ready C l w : mi C w → ents_ok A Z0 l → mtxn_ready w (recs C l).
Proof.
  intros I Hok. split; [by eapply recs_nodup |]. apply Forall_forall. intros x Hx.
  apply recs_objs in Hx as (e & He & H0 & Em & Eo). destruct (eo_obj _ _ _ Hok e He H0) as [HA _].
  destruct (obj_of _ _ _ _ _ _ _ _ _ _ _ _ I _ _ HA) as (c & sh & Hc & _ & _ & E).
  unfold mrec_ready. rewrite Em, E, Eo, Hc. done.
Qed.

Lemma mrec_apply_inv C w h m c d o :
  mi C w → A !! h = Some m → C !! h = Some c → 0 ≤ c + d < 2 ^ 62 →
  mi (alter (Z.add d) h C) (mrec_apply (MRec m o (2 * (c + d))) w).
Proof.
  intros I Hm Hc Hr. unfold mrec_apply. cbn [mr_m mr_new]. eapply minv_objs; [exact I | by rewrite dom_alter_L | by rewrite dom_alter_L | |].
  { apply (mr_pinned _ _ _ _ _ _ _ (mi_rep _ _ _ _ _ _ _ _ _ _ _ _ I)). }
  intros h' m' c' Hm' Hc'. destruct (obj_of _ _ _ _ _ _ _ _ _ _ _ _ I h' m' Hm') as (c2 & sh & Hc2 & _ & Hr2 & E).
  destruct (decide (h = h')) as [<- | Hne].
  - simplify_eq. rewrite lookup_alter_eq, Hc in Hc'. simpl in Hc'. simplify_eq. split; [lia |].
    exists sh. rewrite lookup_alter_eq, E. simpl. unfold set_count. simpl. do 2 f_equal. lia.
  - rewrite lookup_alter_ne in Hc' by done. simplify_eq. split; [done |]. exists sh.
    rewrite lookup_alter_ne; [done |]. intros <-. destruct Hne. by eapply (obj_inj _ _ _ _ _ _ _ _ _ _ _ _ I).
Qed.

Lemma mrecs_apply_inv l : ∀ C w,
  mi C w → ents_ok A Z0 l → by_ok C l → mi (bump l C) (mrecs_apply (recs C l) w).
Proof.
  induction l as [| e l IH]; intros C w I Hok Hby; simpl; [done |]. destruct Hok as [Hnd Ho].
  assert (∀ e', e' ∈ l → e_m e' ≠ 0 → A !! e_host e' = Some (e_m e') ∧ e_host e' ∈ Z0) as Ho'
    by (intros e' He'; apply Ho; by right).
  assert (by_ok C l) as Hby' by (intros e' He'; apply Hby; by right).
  unfold recs1. destruct (Z.eqb_spec (e_m e) 0) as [E | E].
  { rewrite pinned_skip in Hnd by done. by apply IH. }
  rewrite pinned_cons in Hnd by done. apply NoDup_cons in Hnd as [Hni Hnd].
  destruct (Hby e ltac:(by left) E) as (c & Hc & Hr). destruct (Ho e ltac:(by left) E) as [HA _].
  destruct (Z.eqb_spec (e_by e) 0) as [-> | Eb].
  { rewrite alter_zero. by apply IH. }
  assert (∀ e', e' ∈ l → e_m e' ≠ 0 → e_host e' ≠ e_host e) as Hne.
  { intros e' He' H0' Eh. apply Hni. rewrite <- Eh. apply elem_of_pinned. eauto. }
  unfold mrecs_apply. cbn [orb app foldl]. rewrite Hc. simpl default.
  rewrite (recs_ext C (alter (Z.add (e_by e)) (e_host e) C)).
  2:{ intros e' He' H0'. rewrite lookup_alter_ne; [done |]. intros Eh. by apply (Hne e' He' H0'). }
  apply IH; [by apply mrec_apply_inv | done |]. intros e' He' H0'.
  destruct (Hby' e' He' H0') as (c' & Hc' & ?). exists c'. split; [| done].
  rewrite lookup_alter_ne; [done |]. intros Eh. by apply (Hne e' He' H0').
Qed.

Context `{HT : MntTxn} `{!MntTxnOk HT}.

Lemma wp_mnt_shift_commit C s w (Q : Z → mworld → Prop) :
  mi C w → ents_ok A Z0 (ms_e s) → by_ok C (ms_e s) →
  (∀ w', mi (bump (ms_e s) C) w' → Q 0 w') → (∀ w', (∃ l w, fst (mnt_commit_sw l w) = STATUS_MEMORY_ERROR) → mi C w' → Q (- ENOMEM) w') →
  wp (mnt_shift_commit s) Q w.
Proof.
  intros I Hok Hby HQ HE. unfold mnt_shift_commit. apply wp_once.
  wp_step. eapply wp_run; [by eapply shift_records_run |]. wp_step.
  destruct (mnt_commit_ok (recs C (ms_e s)) w ltac:(by eapply recs_ready)) as [E | E].
  - eapply wp_run; [by rewrite E |]. wp_step. eexists. split; [done |]. wp_step.
    by apply HQ, mrecs_apply_inv.
  - eapply wp_run; [by rewrite E |]. wp_step. eexists. split; [done |]. wp_step.
    apply HE; [| done]. eexists _, _. by rewrite E.
Qed.
End commit.
