(* ===== verification/MountSpec.v ===== *)
(** What the mount table promises: every dentry's count is the number of mountpoints at
    or below it, and a dentry has a count object and the flag exactly when that number is
    not zero; and an operation that is under way: its set, its pins, and how it ends.
    Then what both arms read of the engine, the way down a path and the way up to where a
    search began; and what a move does to the counts: it changes those of the ancestors
    of the one parent that the other has not. *)

From S2P Require Import Prelude Qstr HList Lru World Walk Namespace TreeOps Paths BlChain BlLru BlWorld BlWalk BlOps.
From S2P Require Import BlMove BlInv BlReads BlWalkSpec BlLocks BlRep BlSect Mount MountRep MountSet.

(** * Counts *)

(** ** The specification *)

(** The mountpoints at or below [h], and their number. *)
Definition points_below (r : Z) (N : nspace) (P : gset Z) (h : Z) : gset Z :=
  filter (λ p, subdir r N p h = true) P.
Definition mcount (r : Z) (N : nspace) (P : gset Z) (h : Z) : Z := Z.of_nat (size (points_below r N P h)).

(** The counts that the table holds. *)
Definition counts (r : Z) (N : nspace) (P : gset Z) : gmap Z Z :=
  map_imap (λ h _, if mcount r N P h =? 0 then None else Some (mcount r N P h)) N.

(** The engine between operations, its table exact. *)
Definition mquiet (k : nat) (w : mworld) (r : Z) (N : nspace) (T : gmap Z Z) (P : gset Z) : Prop :=
  ∃ A, minv k w r N T [] A (counts r N P) ∅ (dom (counts r N P)) P ∅.

(** A path with no component is no mountpoint's; the rest as for the file system's
    [mount]: one mountpoint in one place, on something that exists. *)
Definition mount_spec (r : Z) (N : nspace) (P : gset Z) (names : list (list Z)) : Z * gset Z :=
  match names, nwalk r N r names with
  | [], _ => (- EINVAL, P)
  | _, None => (- ENOENT, P)
  | _, Some h =>
      if decide (h ∈ P) then (- EBUSY, P)
      else if default false (n_pos <$> N !! h) then (0, {[h]} ∪ P) else (- ENOENT, P)
  end.

Definition umount_spec (r : Z) (N : nspace) (P : gset Z) (names : list (list Z)) : Z * gset Z :=
  match nwalk r N r names with
  | None => (- ENOENT, P)
  | Some h => if decide (h ∈ P) then (0, P ∖ {[h]}) else (- EINVAL, P)
  end.

Definition mount_count_spec (r : Z) (N : nspace) (P : gset Z) (names : list (list Z)) : Z :=
  match nwalk r N r names with
  | None => - ENOENT
  | Some h => mcount r N P h
  end.

(** *** The counts of a name space *)

Section counts.
Variables (r : Z) (N : nspace).
Hypothesis Ht : tree r N.

Lemma counts_lookup P h c :
  counts r N P !! h = Some c ↔ is_Some (N !! h) ∧ c = mcount r N P h ∧ c ≠ 0.
Proof.
  unfold counts. rewrite map_lookup_imap. destruct (N !! h) as [n |] eqn:Hn; simpl.
  - destruct (Z.eqb_spec (mcount r N P h) 0) as [E | E]; [split; [done | intros (_ & -> & ?); congruence] |].
    split; [intros [= <-]; eauto | by intros (_ & -> & _)].
  - split; [done | by intros [[? ?] _]].
Qed.

Lemma counts_default P h : is_Some (N !! h) → default 0 (counts r N P !! h) = mcount r N P h.
Proof.
  intros Hh. destruct (counts r N P !! h) as [c |] eqn:E; simpl.
  - by apply counts_lookup in E as (_ & -> & _).
  - destruct (decide (mcount r N P h = 0)) as [-> | Hne]; [done |].
    assert (counts r N P !! h = Some (mcount r N P h)) by (by apply counts_lookup). congruence.
Qed.

Lemma points_below_spec P h p : p ∈ points_below r N P h ↔ p ∈ P ∧ subdir r N p h = true.
Proof. unfold points_below. rewrite elem_of_filter. naive_solver. Qed.

Lemma mcount_nonneg P h : 0 ≤ mcount r N P h.
Proof. unfold mcount. lia. Qed.

Lemma mcount_size P h : P ⊆ dom N → mcount r N P h ≤ Z.of_nat (size N).
Proof.
  intros HP. unfold mcount. apply inj_le. rewrite <- size_dom. apply subseteq_size.
  intros p [Hp _]%points_below_spec. by apply HP.
Qed.

Lemma subdir_upto p h l : upto r N p l → subdir r N p h = true ↔ h ∈ l.
Proof. intros Hl. by rewrite (subdir_spec r N p h l Ht Hl), bool_decide_eq_true. Qed.

(** A mountpoint is counted by what is above it. *)
Lemma mcount_add P p l h :
  upto r N p l → p ∉ P → mcount r N ({[p]} ∪ P) h = mcount r N P h + (if decide (h ∈ l) then 1 else 0).
Proof.
  intros Hl Hp. unfold mcount. pose proof (subdir_upto p h l Hl) as Hs.
  assert (p ∉ points_below r N P h) as Hn by (by intros [? _]%points_below_spec).
  destruct (decide (h ∈ l)) as [Hh | Hh].
  - replace (points_below r N ({[p]} ∪ P) h) with ({[p]} ∪ points_below r N P h).
    { rewrite size_union by set_solver. rewrite size_singleton. lia. }
    apply set_eq. intros x. rewrite elem_of_union, !points_below_spec, elem_of_union, elem_of_singleton. naive_solver.
  - replace (points_below r N ({[p]} ∪ P) h) with (points_below r N P h); [lia |].
    apply set_eq. intros x. rewrite !points_below_spec, elem_of_union, elem_of_singleton. naive_solver.
Qed.

Lemma mcount_remove P p l h :
  upto r N p l → p ∈ P → mcount r N (P ∖ {[p]}) h = mcount r N P h - (if decide (h ∈ l) then 1 else 0).
Proof.
  intros Hl Hp. assert (p ∉ P ∖ {[p]}) as Hn by set_solver.
  pose proof (mcount_add (P ∖ {[p]}) p l h Hl Hn) as E.
  replace ({[p]} ∪ P ∖ {[p]}) with P in E; [lia |].
  apply set_eq. intros x. rewrite elem_of_union, elem_of_difference, elem_of_singleton.
  destruct (decide (x = p)); naive_solver.
Qed.

(** What is above a mountpoint counts it. *)
Lemma mcount_above P p l h : upto r N p l → p ∈ P → h ∈ l → 1 ≤ mcount r N P h.
Proof.
  intros Hl Hp Hh. pose proof (mcount_remove P p l h Hl Hp) as E. rewrite decide_True in E by done.
  pose proof (mcount_nonneg (P ∖ {[p]}) h). lia.
Qed.
End counts.

(** *** What is left when a set is let go of *)

Definition zeros (X : gset Z) : gmap Z Z := gset_to_gmap 0 X.

Lemma zeros_lookup (C : gmap Z Z) X h :
  (C ∪ zeros X) !! h = if decide (h ∈ X) then Some (default 0 (C !! h)) else C !! h.
Proof.
  rewrite lookup_union. unfold zeros. destruct (decide (h ∈ X)) as [Hh | Hh].
  - rewrite (proj2 (lookup_gset_to_gmap_Some 0 X h 0)) by done. by destruct (C !! h).
  - rewrite (proj2 (lookup_gset_to_gmap_None 0 X h)) by done. by destruct (C !! h).
Qed.

Lemma zeros_dom (C : gmap Z Z) X : dom (C ∪ zeros X) = dom C ∪ X.
Proof. unfold zeros. by rewrite dom_union_L, dom_gset_to_gmap. Qed.

Lemma zeros_add (C : gmap Z Z) X h : C ∪ zeros X ∪ {[h := 0]} = C ∪ zeros ({[h]} ∪ X).
Proof.
  apply map_eq. intros i. rewrite lookup_union, !zeros_lookup. destruct (decide (i = h)) as [-> |].
  - rewrite lookup_singleton_eq, (decide_True (P := h ∈ _ ∪ _)) by set_solver.
    destruct (decide (h ∈ X)); [by destruct (C !! h) |]. by destruct (C !! h).
  - rewrite lookup_singleton_ne by done. rewrite (right_id_L None _).
    destruct (decide (i ∈ X)); [rewrite decide_True by set_solver | rewrite decide_False by set_solver]; done.
Qed.

Lemma zeros_known (C : gmap Z Z) X h : h ∈ dom C → C ∪ zeros ({[h]} ∪ X) = C ∪ zeros X.
Proof.
  intros [c Hc]%elem_of_dom. apply map_eq. intros i. rewrite !zeros_lookup. destruct (decide (i = h)) as [-> |].
  - rewrite decide_True by set_solver. rewrite Hc. by destruct (decide (h ∈ X)).
  - destruct (decide (i ∈ X)); [rewrite decide_True by set_solver | rewrite decide_False by set_solver]; done.
Qed.

Lemma zeros_forget (C : gmap Z Z) X h : h ∉ X → C !! h = None → delete h (C ∪ zeros ({[h]} ∪ X)) = C ∪ zeros X.
Proof.
  intros Hx Hc. apply map_eq. intros i. destruct (decide (i = h)) as [-> |].
  - rewrite lookup_delete_eq, zeros_lookup, decide_False by done. done.
  - rewrite lookup_delete_ne, !zeros_lookup by done.
    destruct (decide (i ∈ X)); [rewrite decide_True by set_solver | rewrite decide_False by set_solver]; done.
Qed.

Lemma settle_failed r N P X : settle X (counts r N P ∪ zeros X) = counts r N P.
Proof.
  apply map_eq. intros h. apply option_eq. intros c. unfold settle.
  rewrite map_lookup_filter_Some, zeros_lookup. simpl. destruct (decide (h ∈ X)).
  - split.
    + intros [[= <-] [? | H]]; [done |]. destruct (counts r N P !! h) eqn:E; [| done]. done.
    + intros E. rewrite E. split; [done |]. right. by apply counts_lookup in E as (_ & _ & ?).
  - split; [by intros [? _] | auto].
Qed.

Lemma settle_done r N N' P P' l X :
  (∀ h, is_Some (N' !! h) ↔ is_Some (N !! h)) → X ⊆ dom N →
  (∀ h, is_Some (N !! h) → mcount r N' P' h = mcount r N P h + by_of l h) →
  (∀ h, h ∉ X → by_of l h = 0) →
  settle X (bump l (counts r N P ∪ zeros X)) = counts r N' P'.
Proof.
  intros Hd HX Hc Hby. apply map_eq. intros h. apply option_eq. intros c. unfold settle.
  rewrite map_lookup_filter_Some, bump_lookup, zeros_lookup, counts_lookup, Hd. simpl.
  destruct (decide (h ∈ X)) as [Hx | Hx].
  - assert (is_Some (N !! h)) as Hh by (by apply elem_of_dom, HX). simpl.
    rewrite (counts_default r N P h Hh), <- (Hc h Hh). split; [intros [[= <-] [? | ?]]; [done |]; eauto |].
    intros (_ & -> & ?). split; [done | by right].
  - rewrite (Hby h Hx). split.
    + intros [E _]. destruct (counts r N P !! h) as [v |] eqn:Ev; [| done]. simpl in E. simplify_eq.
      apply counts_lookup in Ev as (Hh & -> & ?). rewrite (Hc h Hh), (Hby h Hx). split_and!; [done | lia | lia].
    + intros (Hh & -> & Hne). rewrite (Hc h Hh), (Hby h Hx) in *.
      assert (counts r N P !! h = Some (mcount r N P h)) as -> by (apply counts_lookup; split_and!; [done | done | lia]).
      simpl. split; [f_equal; lia | by left].
Qed.

(** * Paths down and up *)

Section paths.
Variables (w : bworld) (N : nspace) (T : gmap Z Z) (P : gset Z).
Hypothesis R : rep w N T P.
Abbreviation r := (bw_root w).

Lemma mnt_resolve_loop_run path n : ∀ i d p,
  path_wf path → (i + n)%nat = ndepth path → d ≠ 0 →
  ∃ p', mnt_resolve_loop path n i d p w = Ok ((default 0 (nwalk r N d (drop i (pnames path))), p'), w).
Proof.
  induction n as [| n IH]; intros i d p Hp Hi Hd; simpl.
  { rewrite drop_ge by (rewrite length_pnames by done; lia). by eexists. }
  destruct (Z.eqb_spec d 0); [done |]. destruct (path_comp_is_Some path i Hp ltac:(lia)) as (q & Hq & Hqw).
  rewrite (drop_S _ _ _ (pnames_lookup path i q ltac:(lia) Hq)). simpl.
  unfold st_bind. rewrite (comp_at_run path i q) by done. rewrite (child_lookup_run _ _ _ _ R d q Hqw).
  destruct (child r N d (qname q)) as [h |] eqn:Ec; simpl.
  - apply IH; [done | lia |]. by apply (child_nonzero _ _ _ _ R) in Ec.
  - destruct n; simpl; eauto.
Qed.

Lemma bl_mnt_resolve_run path :
  path_wf path → ∃ p, mnt_resolve path w = Ok ((default 0 (nwalk r N r (pnames path)), p), w).
Proof.
  intros Hp. destruct (rep_root _ _ _ _ R) as (rn & Hrn & _).
  destruct (rep_aligned _ _ _ _ R r ltac:(by eexists)) as [_ Hr0].
  destruct (mnt_resolve_loop_run path (ndepth path) 0 r r) as [p Ep]; [done | lia | done |]. by exists p.
Qed.

(** *** Is a dentry below another? *)

Definition latched (l : list Z) : Prop := Forall (λ t, ∃ h, T !! h = Some t) l.

Lemma below_climb_run a p l : upto r N p l → a ∈ l → ∀ room latch,
  (length l ≤ S room)%nat → latched latch →
  ∃ latch', below_climb room a p latch w = Ok (Reached true latch', w) ∧ latched latch'.
Proof.
  intros Hl. induction Hl as [| p n l Hn Hr Hl IH]; intros Ha room latch Hf Hla.
  { apply list_elem_of_singleton in Ha as ->. exists latch. split; [| done].
    destruct room; cbn [below_climb]; (eapply bind_run; [apply gets_run |]); cbn beta; by rewrite Z.eqb_refl. }
  destruct (decide (p = a)) as [-> | Hne].
  { exists latch. split; [| done]. destruct room; cbn [below_climb]; (eapply bind_run; [apply gets_run |]); cbn beta; by rewrite Z.eqb_refl. }
  apply elem_of_cons in Ha as [-> | Ha]; [done |].
  destruct room as [| room]; [destruct (upto_head _ _ _ _ Hl) as [? ->]; simpl in Hf; lia |]. simpl in Hf.
  destruct (rep_top _ _ _ _ R p n Hn) as (t & x & tx & Htop & E). destruct (entry_ok _ _ _ _ R p n t x tx Htop Hn E) as [_ Hok].
  destruct (IH Ha room (latch ++ [t])) as (latch' & El & Hl'); [lia | |].
  { apply Forall_app. split; [done |]. apply Forall_singleton. eauto. }
  exists latch'. split; [| done]. cbn [below_climb]. eapply bind_run; [apply gets_run |]. cbn beta.
  rewrite (proj2 (Z.eqb_neq p a) Hne), (proj2 (Z.eqb_neq p r) Hr).
  eapply bind_run; [by eapply named_top_run |]. cbn beta.
  eapply bind_run; [by eapply live_run |]. cbn beta iota.
  eapply bind_run; [eapply iparent_of_run; [apply (en_top _ _ _ _ _ _ E) | done] |]. cbn beta.
  by rewrite (en_ipar _ _ _ _ _ _ E).
Qed.

Lemma latch_stale_run l : latched l → latch_stale l w = Ok (false, w).
Proof.
  induction 1 as [| t l (h & Ht) _ IH]; cbn [latch_stale]; [done |].
  eapply bind_run; [eapply live_run; [exact R | exact Ht] |]. cbn beta. eapply bind_run; [exact IH |]. done.
Qed.

Lemma mnt_below_run a p l :
  upto r N p l → a ∈ l → (length l ≤ S DC_MNT_CLIMB_MAX)%nat → mnt_below_rcu p a w = Ok (1, w).
Proof.
  intros Hl Ha Hd. destruct (below_climb_run a p l Hl Ha DC_MNT_CLIMB_MAX []) as (la & E & Hla); [done | constructor |].
  enough (wp (mnt_below_rcu p a) (λ v w', v = 1 ∧ w' = w) w) as (v & w' & Ev & -> & ->)%wp_inv by done.
  apply wp_once. unfold mnt_below_round. wp_step. eapply wp_run; [exact E |]. cbn iota. wp_step.
  eapply wp_run; [by apply latch_stale_run |]. wp_step. eexists. split; [done |]. by wp_step.
Qed.
End paths.

(** A dentry that counts a mountpoint and is none has a child that does. *)
Lemma counting_child r N P h : tree r N → P ⊆ dom N → mcount r N P h ≠ 0 → h ∉ P →
  ∃ c n, N !! c = Some n ∧ c ≠ r ∧ n_parent n = h ∧ mcount r N P c ≠ 0.
Proof.
  intros Ht HP Hc Hp. destruct (set_choose_or_empty (points_below r N P h)) as [[p Hin] | E].
  2:{ destruct Hc. unfold mcount. apply leibniz_equiv in E. by rewrite E. }
  apply points_below_spec in Hin as [HpP Hs].
  destruct (t_up _ _ Ht p) as [l Hl]; [by apply elem_of_dom, HP |].
  apply (subdir_upto r N Ht p h l Hl) in Hs.
  assert (∃ c n, c ∈ l ∧ N !! c = Some n ∧ c ≠ r ∧ n_parent n = h) as (c & n & Hcl & Hn & Hr & Hpar).
  { assert (p ≠ h) as Hne by (by intros ->). clear -Hl Hs Hne. induction Hl as [| d m l Hd Hdr Hl IH].
    - apply list_elem_of_singleton in Hs. congruence.
    - apply elem_of_cons in Hs as [-> | Hs]; [done |]. destruct (decide (n_parent m = h)) as [E | E].
      + exists d, m. split_and!; [by left | done..].
      + destruct (IH Hs E) as (c & n & ? & ?). exists c, n. split; [by right | done]. }
  exists c, n. split_and!; [done | done | done |]. pose proof (mcount_above r N Ht P p l c Hl HpP Hcl). lia.
Qed.

(** A mountpoint below a child is below its parent. *)
Lemma points_below_child r N P x n p : tree r N → P ⊆ dom N → N !! x = Some n → x ≠ r →
  p ∈ points_below r N P x → p ∈ points_below r N P (n_parent n).
Proof.
  intros Ht HP Hn Hr [HpP Hs]%points_below_spec. apply points_below_spec. split; [done |].
  destruct (t_up _ _ Ht p) as [lp Hlp]; [by apply elem_of_dom, HP |].
  apply (subdir_upto r N Ht p _ lp Hlp) in Hs. apply (subdir_upto r N Ht p _ lp Hlp).
  destruct (upto_suffix _ _ _ _ _ Hlp Hs) as (l' & Hl' & [y ->]). apply elem_of_app. right.
  inversion Hl' as [| d m l'' Hm Hdr Hl'' E1 E2]; [congruence |]. right. assert (m = n) as -> by congruence.
  destruct (upto_head _ _ _ _ Hl'') as [? ->]. by left.
Qed.

(** What counts a mountpoint is not deeper than all of them. *)
Lemma counting_depth r N P h l depth : tree r N → P ⊆ dom N → mcount r N P h ≠ 0 → upto r N h l →
  (∀ p l, p ∈ P → upto r N p l → (length l ≤ depth)%nat) → (length l ≤ depth)%nat.
Proof.
  intros Ht HP Hc Hl Hd. destruct (set_choose_or_empty (points_below r N P h)) as [[p Hp] | E].
  2:{ destruct Hc. unfold mcount. apply leibniz_equiv in E. by rewrite E. }
  apply points_below_spec in Hp as [HpP Hs]. destruct (t_up _ _ Ht p) as [lp Hlp]; [by apply elem_of_dom, HP |].
  apply (subdir_upto r N Ht p h lp Hlp) in Hs. destruct (upto_suffix _ _ _ _ _ Hlp Hs) as (l' & Hl' & Hsuf%suffix_length).
  rewrite (upto_det _ _ _ _ _ Hl' Hl) in Hsuf. pose proof (Hd p lp HpP Hlp). lia.
Qed.

(** The child list of a dentry that counts a mountpoint and is none: its first child
    that counts one. *)
Lemma counting_kid r N P h hs : tree r N → P ⊆ dom N → mcount r N P h ≠ 0 → h ∉ P → hs ≡ₚ kids r N h →
  ∃ i x n, list_find (λ x, mcount r N P x ≠ 0) hs = Some (i, x) ∧ N !! x = Some n ∧ x ≠ r ∧ n_parent n = h ∧ mcount r N P x ≠ 0.
Proof.
  intros Ht HP Hc Hh Hperm. assert (Hkids : ∀ x, x ∈ hs ↔ x ≠ r ∧ ∃ m, N !! x = Some m ∧ n_parent m = h).
  { intros x. rewrite Hperm. apply elem_of_kids. }
  destruct (counting_child r N P h Ht HP Hc Hh) as (c & n & Hn & Hcr & Hpar & Hcc).
  destruct (list_find (λ x, mcount r N P x ≠ 0) hs) as [[i x] |] eqn:Ef.
  2:{ exfalso. apply list_find_None in Ef. eapply Forall_forall in Ef; [apply Ef, Hcc |]. apply Hkids. eauto. }
  apply list_find_Some in Ef as Ef'. destruct Ef' as (Hix & Hxc & _). apply list_elem_of_lookup_2 in Hix.
  apply Hkids in Hix as (Hxr & m & Hm & Hmp). by exists i, x, m.
Qed.

(** * Counts of a move *)

Section move.
Variables (r : Z) (N N' : nspace) (P : gset Z) (h from to : Z) (n n' : node) (lf lt : list Z).
Hypothesis Ht : tree r N.
Hypothesis Ht' : tree r N'.
Hypothesis Hr : h ≠ r.
Hypothesis Hn : N !! h = Some n.
Hypothesis Hn' : N' !! h = Some n'.
Hypothesis Hsame : ∀ x, x ≠ h → N' !! x = N !! x.
Hypothesis Hfrom : n_parent n = from.
Hypothesis Hto : n_parent n' = to.
Hypothesis Hlf : upto r N from lf.
Hypothesis Hlt : upto r N to lt.
Hypothesis Hcyc : h ∉ lt.
Hypothesis HP : P ⊆ dom N.

Lemma upto_outside p l : upto r N p l → h ∉ l → upto r N' p l.
Proof.
  induction 1 as [| d m l Hd Hdr Hl IH]; intros Hh; [constructor |].
  econstructor; [rewrite Hsame; [done | intros ->; apply Hh; by left] | done |]. apply IH. intros ?. apply Hh. by right.
Qed.

Lemma upto_inside p l : upto r N p l → h ∈ l →
  ∃ pre, l = pre ++ h :: lf ∧ upto r N' p (pre ++ h :: lt) ∧ ∀ x, x ∈ pre ++ [h] → ∃ lx, upto r N x lx ∧ h ∈ lx.
Proof.
  induction 1 as [| d m l Hd Hdr Hl IH]; intros Hh; [by apply list_elem_of_singleton in Hh |].
  assert (upto r N d (d :: l)) as Hup by (by econstructor).
  destruct (decide (d = h)) as [-> | Hne].
  - exists []. assert (m = n) as -> by congruence. rewrite Hfrom in Hl. rewrite (upto_det _ _ _ _ _ Hl Hlf).
    split_and!; [done | | by intros x ->%list_elem_of_singleton; eauto].
    simpl. econstructor; [done | done |]. rewrite Hto. by apply upto_outside.
  - pose proof Hh as Hh'. apply elem_of_cons in Hh' as [-> | Hh']; [done |]. destruct (IH Hh') as (pre & -> & Hl' & Hx).
    exists (d :: pre). split_and!; [done | simpl; econstructor; [by rewrite Hsame | done | done] |].
    intros x [-> | ?]%elem_of_cons; [| by apply Hx]. by eexists.
Qed.

(** Where [x] is above a mountpoint, before and after. *)
Lemma above_moved p x :
  is_Some (N !! p) →
  subdir r N' p x = if subdir r N p h
                    then bool_decide (x ∈ lt) || (subdir r N p x && negb (bool_decide (x ∈ lf)))
                    else subdir r N p x.
Proof.
  intros Hp. destruct (t_up _ _ Ht p Hp) as [l Hl]. rewrite !(subdir_spec r N p _ l Ht Hl).
  case_bool_decide as Hh.
  - destruct (upto_inside p l Hl Hh) as (pre & El & Hl' & Hin). rewrite (subdir_spec r N' p x _ Ht' Hl'), El.
    rewrite <- bool_decide_not, <- bool_decide_and, <- bool_decide_or. apply bool_decide_ext.
    assert (∀ y, y ∈ pre ++ [h] → y ∉ lf) as Hd.
    { pose proof (upto_nodup _ _ _ _ Hl) as Hnd. rewrite El in Hnd.
      replace (pre ++ h :: lf) with ((pre ++ [h]) ++ lf) in Hnd by (by rewrite <- app_assoc).
      apply NoDup_app in Hnd as (_ & Hd & _). done. }
    rewrite !elem_of_app, !elem_of_cons. rewrite <- list_elem_of_singleton in *.
    specialize (Hd x). rewrite elem_of_app in Hd. naive_solver.
  - apply upto_outside in Hl as Hl'; [| done]. by rewrite (subdir_spec r N' p x l Ht' Hl').
Qed.
Lemma above_old p x : is_Some (N !! p) → subdir r N p h = true → x ∈ lf → subdir r N p x = true.
Proof.
  intros Hp Hh Hx. destruct (t_up _ _ Ht p Hp) as [l Hl]. rewrite (subdir_upto r N Ht p h l Hl) in Hh.
  apply (subdir_upto r N Ht p x l Hl). destruct (upto_inside p l Hl Hh) as (pre & -> & _).
  apply elem_of_app. right. by right.
Qed.

Lemma above_new p x :
  is_Some (N !! p) → subdir r N p h = true → x ∈ lt → x ∉ lf → subdir r N p x = false.
Proof.
  intros Hp Hh Hx Hxf. destruct (t_up _ _ Ht p Hp) as [l Hl]. rewrite (subdir_upto r N Ht p h l Hl) in Hh.
  rewrite (subdir_spec r N p x l Ht Hl). apply bool_decide_eq_false_2. intros Hxl.
  destruct (upto_inside p l Hl Hh) as (pre & -> & _ & Hin).
  destruct (Hin x) as (lx & Hlx & Hhx).
  { rewrite elem_of_app, elem_of_cons in Hxl. rewrite elem_of_app, list_elem_of_singleton. naive_solver. }
  destruct (upto_suffix _ _ _ _ _ Hlt Hx) as (lx' & Hlx' & [y E]).
  rewrite (upto_det _ _ _ _ _ Hlx' Hlx) in E. apply Hcyc. rewrite E. apply elem_of_app. by right.
Qed.

(** Every mountpoint that moves leaves the counts above [from] and comes to those above
    [to]; from the first that both have upwards nothing changes. *)
Lemma mcount_moved x :
  mcount r N' P x = mcount r N P x + (if decide (x ∈ lt) then mcount r N P h else 0)
                    - (if decide (x ∈ lf) then mcount r N P h else 0).
Proof.
  assert (Hs : ∀ p, p ∈ P → is_Some (N !! p)) by (intros p Hp; by apply elem_of_dom, HP).
  set (D := points_below r N P h).
  assert (HD : ∀ p, p ∈ D ↔ p ∈ P ∧ subdir r N p h = true) by (intros p; apply points_below_spec).
  assert (HX : ∀ p, p ∈ points_below r N P x ↔ p ∈ P ∧ subdir r N p x = true) by (intros p; apply points_below_spec).
  assert (HX' : ∀ p, p ∈ points_below r N' P x ↔ p ∈ P ∧ subdir r N' p x = true) by (intros p; apply points_below_spec).
  unfold mcount. fold D. destruct (decide (x ∈ lt)) as [Hxt | Hxt], (decide (x ∈ lf)) as [Hxf | Hxf].
  - enough (points_below r N' P x = points_below r N P x) as -> by lia. apply set_eq. intros p. rewrite HX, HX'.
    split; intros [Hp H]; (split; [done |]); specialize (Hs p Hp); rewrite above_moved in *; try done;
      destruct (subdir r N p h) eqn:E; try done; [by apply above_old | by rewrite bool_decide_eq_true_2].
  - assert (points_below r N' P x = points_below r N P x ∪ D) as ->; [| rewrite size_union; [lia |]].
    + apply set_eq. intros p. rewrite elem_of_union, HX, HX', HD. split.
      * intros [Hp H]. rewrite above_moved in H by (by apply Hs). destruct (subdir r N p h); [by right | by left].
      * intros [[Hp H] | [Hp H]]; (split; [done |]); rewrite above_moved by (by apply Hs).
        -- rewrite H. rewrite (bool_decide_eq_true_2 (x ∈ lt)) by done. by destruct (subdir r N p h).
        -- by rewrite H, bool_decide_eq_true_2.
    + intros p [Hp H]%HX [_ H']%HD. rewrite (above_new p x) in H; [done | by apply Hs | done..].
  - assert (points_below r N P x = points_below r N' P x ∪ D) as ->; [| rewrite size_union; [lia |]].
    + apply set_eq. intros p. rewrite elem_of_union, HX, HX', HD. split.
      * intros [Hp H]. rewrite above_moved by (by apply Hs). destruct (subdir r N p h) eqn:E; [by right | by left].
      * intros [[Hp H] | [Hp H]]; (split; [done |]).
        -- rewrite above_moved in H by (by apply Hs). destruct (subdir r N p h) eqn:E; [| done].
           apply above_old; [by apply Hs | done..].
        -- apply above_old; [by apply Hs | done..].
    + intros p [Hp H]%HX' [_ H']%HD. rewrite above_moved, H' in H by (by apply Hs).
      rewrite bool_decide_eq_false_2, (bool_decide_eq_true_2 (x ∈ lf)), andb_false_r in H by done. done.
  - enough (points_below r N' P x = points_below r N P x) as -> by lia. apply set_eq. intros p. rewrite HX, HX'.
    assert (p ∈ P → subdir r N' p x = subdir r N p x) as E; [| naive_solver]. intros Hp.
    rewrite above_moved by (by apply Hs). rewrite !bool_decide_eq_false_2 by done. rewrite andb_true_r.
    by destruct (subdir r N p h).
Qed.
End move.
