(* ===== verification/MountClimb.v ===== *)
(** An operation on mount counts that is under way: its set grows by an ancestor at a
    time, and whichever way it ends nothing is left behind. *)

From S2P Require Import Prelude Qstr HList Lru World Walk Namespace TreeOps BlChain BlLru BlWorld BlWalk.
From S2P Require Import BlOps BlMove BlInv BlReads BlWalkSpec BlLocks BlRep BlSect Mount MountRep MountSet MountSpec.

(** What a set keeps while it grows. *)
Definition rest (s : mnt_shift) :=
  (ms_locked s, (ms_for_a s, ms_self_a s, ms_c_a s), (ms_for_b s, ms_self_b s, ms_c_b s)).

Lemma rest_locked s s' : rest s' = rest s → ms_locked s' = ms_locked s.
Proof. unfold rest. congruence. Qed.

Definition pins (s : mnt_shift) : gset Z := list_to_set (pinned (ms_e s)).

Section climb.
Context `{HC : Calloc} `{!CallocOk HC} `{HR : Realloc}.
Variables (k : nat) (r : Z) (N : nspace) (T : gmap Z Z) (P : gset Z).
Abbreviation C0 := (counts r N P).

(** The set [s] is pinned, no bucket is held; the dentries of [G] are frozen. *)
Record started (w : mworld) (s : mnt_shift) (G : gset Z) : Prop := Started {
  st_inv : ∃ A F, minv k w r N T [] A (C0 ∪ zeros (pins s)) (pins s) F P ∅ ∧ dom C0 ∪ G ⊆ F ∧
    ents_ok A (pins s) (ms_e s);
  st_ups : ups_ok N (ms_e s);
  st_locked : ms_locked s = false;
}.

(** [h] has been pinned and is not in the set yet. *)
Definition half (w : mworld) (s : mnt_shift) (G : gset Z) (h m : Z) : Prop :=
  ms_locked s = false ∧ ups_ok N (ms_e s) ∧ h ∉ pins s ∧ m ≠ 0 ∧
  ∃ A F, minv k w r N T [] A (C0 ∪ zeros ({[h]} ∪ pins s)) ({[h]} ∪ pins s) F P ∅ ∧ dom C0 ∪ G ⊆ F ∧
    A !! h = Some m ∧ ents_ok A ({[h]} ∪ pins s) (ms_e s).

Lemma ents_ok_mono A A' Z0 Z0' l : ents_ok A Z0 l → A ⊆ A' → Z0 ⊆ Z0' → ents_ok A' Z0' l.
Proof.
  intros [Hnd Ho] HA HZ. split; [done |]. intros e He H0. destruct (Ho e He H0) as [? ?].
  split; [by eapply lookup_weaken | by apply HZ].
Qed.

Lemma subset_cons (h : Z) (X : gset Z) : X ⊆ {[h]} ∪ X.
Proof. set_solver. Qed.

Lemma wp_started_get w s G h (Q : Z → mworld → Prop) :
  started w s G → is_Some (N !! h) → h ∉ pins s →
  (∀ m w', half w' s G h m → Q m w') →
  (∀ w', (∃ live, calloc live = None) → started w' s G → Q 0 w') →
  wp (mnt_get h) Q w.
Proof.
  intros [(A & F & I & HF & Hok) Hu Hl] Hh Hx HS HN.
  eapply wp_mnt_get; [exact _ | exact I | done | set_solver | done | |].
  - intros m w' A' Hm HA HA' I'. rewrite zeros_add in I'. apply HS. split_and!; [done..|].
    exists A', F. split_and!; [done | done | done |]. eapply ents_ok_mono; [done | done | apply subset_cons].
  - intros w' Hf I'. apply HN; [done |]. split; [by exists A, F | done | done].
Qed.

(** ... of one that has a count. *)
Lemma wp_started_pin w s G h (Q : Z → mworld → Prop) :
  started w s G → h ∈ dom C0 → h ∉ pins s → (∀ m w', half w' s G h m → Q m w') → wp (mnt_pin h) Q w.
Proof.
  intros [(A & F & I & HF & Hok) Hu Hl] Hh Hx HS. eapply wp_mnt_pin; [exact I | set_solver | done | |].
  - intros m w' HA I'. destruct (obj_of _ _ _ _ _ _ _ _ _ _ _ _ I h m HA) as (_ & _ & _ & Hm0 & _).
    apply HS. split_and!; [done..|]. exists A, F. rewrite (zeros_known _ _ _ Hh).
    split_and!; [done | done | done |]. eapply ents_ok_mono; [done | done | apply subset_cons].
  - intros w' HA _. exfalso. apply not_elem_of_dom in HA. apply HA.
    rewrite (mr_dom _ _ _ _ _ _ _ (mi_rep _ _ _ _ _ _ _ _ _ _ _ _ I)), zeros_dom. by apply elem_of_union_l.
Qed.

Lemma minus_cons_self (h : Z) (X : gset Z) : h ∉ X → ({[h]} ∪ X) ∖ {[h]} = X.
Proof. set_solver. Qed.
Lemma subset_minus (h : Z) (X F : gset Z) : X ⊆ F → h ∉ X → X ⊆ F ∖ {[h]}.
Proof. set_solver. Qed.

(** A pin that is given back: the set is as it was. *)
Lemma wp_half_unpin w s G h m (Q : unit → mworld → Prop) :
  half w s G h m → h ∉ G → (∀ w', started w' s G → Q tt w') → wp (mnt_unpin m) Q w.
Proof.
  intros (Hl & Hu & Hx & Hm0 & A & F & I & HF & Hm & Hok) HG HQ.
  assert (Hc : (C0 ∪ zeros ({[h]} ∪ pins s)) !! h = Some (default 0 (C0 !! h))).
  { by rewrite zeros_lookup, decide_True by set_solver. }
  assert (Hne : ∀ e, e ∈ ms_e s → e_m e ≠ 0 → e_host e ∈ pins s ∧ h ≠ e_host e).
  { intros e He H0. assert (e_host e ∈ pins s); [| by split; [| intros ->]].
    apply elem_of_list_to_set, elem_of_pinned. eauto. }
  eapply wp_mnt_unpin; [exact I | done | exact Hc | set_solver | set_solver | |]; intros Ec w' I'; apply HQ;
    rewrite minus_cons_self in I' by done.
  - split; [| done | done]. exists A, F. rewrite zeros_known in I'.
    + split_and!; [done | done |]. split; [apply Hok |]. intros e He H0. split; [by apply Hok | by apply Hne].
    + apply elem_of_dom. destruct (C0 !! h); [by eexists | done].
  - assert (C0 !! h = None) as Hn.
    { destruct (C0 !! h) as [c |] eqn:E; [| done]. apply counts_lookup in E as (_ & _ & ?). done. }
    rewrite zeros_forget in I' by done. split; [| done | done]. exists (delete h A), (F ∖ {[h]}).
    split_and!; [done | apply subset_minus; [done |] |].
    + intros [[? ?]%elem_of_dom | ?]%elem_of_union; [congruence | done].
    + split; [apply Hok |]. intros e He H0. rewrite lookup_delete_ne by (by apply Hne).
      split; [by apply Hok | by apply Hne].
Qed.

(** The set grows. *)
Definition pushed (s s' : mnt_shift) (e : mnt_ent) : Prop := ms_e s' = ms_e s ++ [e] ∧ rest s' = rest s.

Lemma wp_push w s h m d up self (Q : Z * mnt_shift → mworld → Prop) :
  (∀ s', pushed s s' (Ent h up m d self) → Q (0, s') w) →
  ((∃ n, realloc_e n && realloc_b n = false) → Q (- ENOMEM, s) w) →
  wp (mnt_shift_push s h m d up self) Q w.
Proof.
  intros HQ HE. unfold mnt_shift_push. destruct (_ && negb _) eqn:E.
  - apply andb_true_iff in E as [_ E]. apply negb_true_iff in E. apply wp_ret, HE. by eexists.
  - apply wp_ret, HQ. by destruct (bool_decide (length (ms_e s) = ms_cap s)).
Qed.

Lemma pushed_pinned s s' e : pushed s s' e → e_m e ≠ 0 → pinned (ms_e s') = pinned (ms_e s) ++ [e_host e].
Proof. intros [-> _] H0. by rewrite pinned_app, (pinned_cons e []) by done. Qed.

Lemma pushed_pins s s' e : pushed s s' e → e_m e ≠ 0 → pins s' = {[e_host e]} ∪ pins s.
Proof.
  intros Hp H0. unfold pins. rewrite (pushed_pinned s s' e Hp H0), list_to_set_app_L. simpl. set_solver.
Qed.

Lemma half_pushed w s s' G h m d up self :
  half w s G h m → pushed s s' (Ent h up m d self) →
  (up ≠ 0 → ∃ n, N !! h = Some n ∧ n_parent n = up) → started w s' G.
Proof.
  intros (Hl & Hu & Hx & Hm0 & A & F & I & HF & Hm & Hok) Hp Hup.
  pose proof (pushed_pins _ _ _ Hp Hm0) as Epins. cbn [e_host] in Epins.
  destruct Hp as [Ee El%rest_locked]. split; [| | by rewrite El].
  - exists A, F. rewrite Epins. split_and!; [done | done |]. rewrite Ee. split.
    + rewrite pinned_app, (pinned_cons _ []) by done. cbn [e_host]. apply NoDup_app. split_and!; [apply Hok | | by apply NoDup_singleton].
      intros x Hx' ->%list_elem_of_singleton. apply Hx. by apply elem_of_list_to_set.
    + intros e [He | ->%list_elem_of_singleton]%elem_of_app H0; [by apply Hok |]. cbn. split; [done | set_solver].
  - intros e. rewrite Ee. intros [He | ->%list_elem_of_singleton]%elem_of_app; [by apply Hu |]. apply Hup.
Qed.

(** Freezing what is pinned. *)
Lemma wp_started_freeze w s G h n first (Q : Z → mworld → Prop) :
  started w s G → N !! h = Some n → h ∈ pins s →
  (∀ w', started w' s ({[h]} ∪ G) → Q (n_parent n) w') → wp (mnt_freeze h first) Q w.
Proof.
  intros [(A & F & I & HF & Hok) Hu Hl] Hn Hx HQ. eapply wp_mnt_freeze; [exact I | done | |].
  - rewrite zeros_dom. by apply elem_of_union_r.
  - intros w' I'. apply HQ. split; [| done | done]. exists A, ({[h]} ∪ F). split_and!; [done | set_solver | done].
Qed.

(** The parent of the newest is noted. *)
Lemma alter_last {X} (f : X → X) l e : alter f (length (l ++ [e]) - 1)%nat (l ++ [e]) = l ++ [f e].
Proof.
  rewrite length_app. simpl. rewrite Nat.add_sub. induction l as [| x l IH]; [done |].
  simpl. by rewrite <- IH.
Qed.

Lemma started_note w s G l e p :
  started w s G → ms_e s = l ++ [e] → (p ≠ 0 → ∃ n, N !! e_host e = Some n ∧ n_parent n = p) →
  started w (set_e (l ++ [set_eup p e]) s) G.
Proof.
  intros [(A & F & I & HF & Hok) Hu Hl] Ee Hp.
  assert (Ep : pinned (l ++ [set_eup p e]) = pinned (ms_e s)).
  { rewrite Ee, !pinned_app. f_equal. destruct (decide (e_m e = 0)).
    - by rewrite !pinned_skip.
    - by rewrite !pinned_cons. }
  assert (pins (set_e (l ++ [set_eup p e]) s) = pins s) as Es by (unfold pins; cbn [ms_e set_e]; by rewrite Ep).
  split; [| | done].
  - exists A, F. rewrite Es. split_and!; [done | done |]. cbn [ms_e set_e]. rewrite Ee in Hok. split.
    + rewrite Ep, Ee. apply Hok.
    + intros e' [He | ->%list_elem_of_singleton]%elem_of_app H0.
      * apply Hok; [apply elem_of_app; by left | done].
      * apply (eo_obj _ _ _ Hok e); [apply elem_of_app; right; by apply list_elem_of_singleton | done].
  - intros e'. cbn [ms_e set_e]. intros [He | ->%list_elem_of_singleton]%elem_of_app; [| done].
    apply Hu. rewrite Ee. apply elem_of_app. by left.
Qed.
End climb.
