(* ===== verification/MountOps.v ===== *)
(** The operations of the mount table: mount, unmount and the reader of a count leave
    the table exact and give what the specification says. *)

From S2P Require Import Prelude Qstr HList Lru World Walk Namespace TreeOps Paths BlChain BlLru BlWorld BlWalk.
From S2P Require Import BlOps BlMove BlInv BlReads BlWalkSpec BlLocks BlRep BlSect Mount MountRep MountSet MountSpec.
From S2P Require Import MountClimb.

(** ** Around an operation *)

(** An operation that is about to end: what its set leaves is exact. *)
Definition closing (k : nat) (w : mworld) (r : Z) (N : nspace) (T : gmap Z Z) (P : gset Z) (s : mnt_shift) : Prop :=
  ∃ A C F, minv k w r N T [] A C (pins s) F P (shift_held s) ∧ ents_ok A (pins s) (ms_e s) ∧
    settle (pins s) C = counts r N P ∧ dom (counts r N P) ⊆ F.

Section around.
Variables (r : Z) (N : nspace) (T : gmap Z Z).

Lemma wp_mnt_shift_drop k w P A C F s (Q : mnt_shift → mworld → Prop) :
  minv k w r N T [] A C (pins s) F P (shift_held s) → ents_ok A (pins s) (ms_e s) →
  (∀ w' A', minv k w' r N T [] A' (settle (pins s) C) ∅ (F ∩ dom (settle (pins s) C)) P (shift_held s) →
     Q (set_selves 0 0 0 0 (set_for 0 0 (set_e [] s))) w') →
  wp (mnt_shift_drop s) Q w.
Proof.
  intros I Hok HQ. unfold mnt_shift_drop. wp_step. eapply wp_drop_ents; [exact I | done |].
  intros w1 A1 _ I1. wp_step. fold (pins s) in I1. rewrite difference_diag_L in I1. by eapply HQ.
Qed.

Lemma wp_mnt_shift_end k w P s (Q : mnt_shift → mworld → Prop) :
  closing k w r N T P s → (∀ s' w', mquiet k w' r N T P → Q s' w') → wp (mnt_shift_end s) Q w.
Proof.
  intros (A & C & F & I & Hok & Hs & HF) HQ. unfold mnt_shift_end. wp_step.
  eapply wp_mnt_shift_drop; [done | done |]. rewrite Hs.
  intros w1 A1 I1. wp_step. eapply wp_mnt_shift_unlock; [exact I1 |]. intros w2 I2. wp_step. apply HQ.
  exists A1. replace (F ∩ dom (counts r N P)) with (dom (counts r N P)) in I2; [done |].
  apply set_eq. intros x. rewrite elem_of_intersection. split; [intros Hx; split; [by apply HF | done] | by intros []].
Qed.

Lemma started_closing k w P s G : started k r N T P w s G → closing k w r N T P s.
Proof.
  intros [(A & F & I & HF & Hok) Hu Hl]. exists A, (counts r N P ∪ zeros (pins s)), F.
  unfold shift_held. rewrite Hl. split_and!; [done | done | apply settle_failed | set_solver].
Qed.

Lemma quiet_started k w P s : mquiet k w r N T P → ms_e s = [] → ms_locked s = false → started k r N T P w s ∅.
Proof.
  intros [A I] He Hl. assert (pins s = ∅) as Ep by (unfold pins; by rewrite He). split; [| | done].
  - exists A, (dom (counts r N P)). rewrite Ep. unfold zeros. rewrite gset_to_gmap_empty, (right_id_L ∅ _).
    split_and!; [done | set_solver |]. rewrite He. split; [constructor | by intros ? ?%not_elem_of_nil].
  - rewrite He. by intros ? ?%not_elem_of_nil.
Qed.

Lemma started_mono k w P s G G' : started k r N T P w s G → G' ⊆ G → started k r N T P w s G'.
Proof. intros [(A & F & I & HF & Hok) Hu Hl] HG. split; [| done | done]. exists A, F. split_and!; [done | set_solver | done]. Qed.

(** *** Read sections *)

Lemma mi_nest k k' w A C Z0 F P B :
  minv k w r N T [] A C Z0 F P B → minv k' (set_bw (set_nest k' (mw_bw w)) w) r N T [] A C Z0 F P B.
Proof.
  intros I. apply (minv_set_bw _ _ _ _ _ _ _ _ _ _ _ _ I); [| apply I]. destruct (mi_bw _ _ _ _ _ _ _ _ _ _ _ _ I).
  split; bsimpl; [by apply rep_nest | done ..].
Qed.

Lemma wp_mnt_enter k w P (Q : unit → mworld → Prop) :
  mquiet k w r N T P → (∀ w', mquiet (S k) w' r N T P → Q tt w') → wp (on_bw rcu_read_lock) Q w.
Proof.
  intros [A I] HQ. apply wp_zoom. unfold rcu_read_lock. wp_step. apply HQ. exists A.
  rewrite (se_nest _ _ _ _ _ _ _ (mi_bw _ _ _ _ _ _ _ _ _ _ _ _ I)). by eapply mi_nest.
Qed.

Lemma wp_mi_leave k w A C Z0 F P B (Q : unit → mworld → Prop) :
  minv (S k) w r N T [] A C Z0 F P B → (∀ w', minv k w' r N T [] A C Z0 F P B → Q tt w') →
  wp (on_bw rcu_read_unlock) Q w.
Proof.
  intros I HQ. apply wp_zoom. unfold wp, rcu_read_unlock.
  rewrite (se_nest _ _ _ _ _ _ _ (mi_bw _ _ _ _ _ _ _ _ _ _ _ _ I)). by eapply HQ, mi_nest.
Qed.

Lemma wp_closing_leave k w P s (Q : unit → mworld → Prop) :
  closing (S k) w r N T P s → (∀ w', closing k w' r N T P s → Q tt w') → wp (on_bw rcu_read_unlock) Q w.
Proof.
  intros (A & C & F & I & Hok & Hs & HF) HQ. eapply wp_mi_leave; [exact I |]. intros w' I'. apply HQ. by exists A, C, F.
Qed.

(** *** Paths *)

Lemma mnt_resolve_run k w P path :
  mquiet k w r N T P → path_wf path →
  ∃ p, on_bw (mnt_resolve path) w = Ok ((default 0 (nwalk r N r (pnames path)), p), w).
Proof.
  intros [A I] Hp. pose proof (mi_brep _ _ _ _ _ _ _ _ _ _ _ _ I) as R.
  destruct (bl_mnt_resolve_run _ _ _ _ R path Hp) as [p E]. rewrite (mi_root _ _ _ _ _ _ _ _ _ _ _ _ I) in E.
  exists p. by apply on_bw_run.
Qed.

Lemma nwalk_known k w P names h :
  mquiet k w r N T P → nwalk r N r names = Some h → h ≠ 0 ∧ ∃ n, N !! h = Some n.
Proof.
  intros [A I] Hw. pose proof (mi_brep _ _ _ _ _ _ _ _ _ _ _ _ I) as R.
  assert (is_Some (N !! h)) as Hh by (eapply nwalk_dom; [apply (mi_root_dom _ _ _ _ _ _ _ _ _ _ _ _ I) | done]).
  split; [by apply (rep_aligned _ _ _ _ R h) | done].
Qed.
End around.

(** A request for memory that is refused. *)
Definition mem_fails `{Calloc} `{Realloc} `{MntTxn} : Prop :=
  (∃ live, calloc live = None) ∨ (∃ n, realloc_e n && realloc_b n = false) ∨
  (∃ l w, fst (mnt_commit_sw l w) = STATUS_MEMORY_ERROR).

(** What an operation promises: its code and the mountpoints it leaves, the table exact
    for them; or, for want of memory, nothing has changed. *)
Definition mount_post `{Calloc} `{Realloc} `{MntTxn} (k : nat) (r : Z) (N : nspace) (T : gmap Z Z) (P : gset Z)
    (spec : Z * gset Z) (ret : Z) (w' : mworld) : Prop :=
  (ret = fst spec ∧ mquiet k w' r N T (snd spec)) ∨ (ret = - ENOMEM ∧ mem_fails ∧ mquiet k w' r N T P).

Section ops.
Context `{HL : Layout} `{!LayoutOk HL} `{HC : Calloc} `{!CallocOk HC} `{HR : Realloc} `{HT : MntTxn} `{!MntTxnOk HT}.
Variables (k : nat) (r : Z) (N : nspace) (T : gmap Z Z) (P : gset Z).

(** ... before it has let go of its set. *)
Definition round_post (spec : Z * gset Z) (x : mnt_shift + Z * mnt_shift) (w' : mworld) : Prop :=
  ∃ ret s', x = inr (ret, s') ∧
    (ret = fst spec ∧ closing (S k) w' r N T (snd spec) s' ∨
     ret = - ENOMEM ∧ mem_fails ∧ closing (S k) w' r N T P s').

Lemma wp_after_round spec s body w :
  wp (body s) (round_post spec) w →
  wp (let! x := iter_upto MNT_ROUNDS body s in
      match x with
      | inl _ => st_fault NoFuel
      | inr (ret, s') => on_bw rcu_read_unlock ;;; let! _ := mnt_shift_end s' in st_ret ret
      end) (mount_post k r N T P spec) w.
Proof.
  intros H. apply wp_bind, wp_iter_first. eapply wp_mono; [exact H |]. intros x w' (ret & s' & -> & Hc).
  exists (ret, s'). split; [done |]. wp_step.
  destruct Hc as [(-> & Hc) | (-> & Hm & Hc)]; (eapply wp_closing_leave; [exact Hc |]); intros w1 Hc1;
    wp_step; (eapply wp_mnt_shift_end; [exact Hc1 |]); intros s2 w2 Hq; wp_step; [by left | by right].
Qed.

(** *** The way up of a mount *)

Lemma rest_set_e l s : rest (set_e l s) = rest s.
Proof. done. Qed.

Lemma wp_mount_climb l : ∀ fuel a s G w (Q : Z * mnt_shift → mworld → Prop),
  upto r N a l → (length l ≤ fuel)%nat → started (S k) r N T P w s G → G ⊆ pins s →
  (∀ x, x ∈ l → x ∉ pins s) →
  (∀ w' s' l', started (S k) r N T P w' s' (G ∪ list_to_set l) → ms_e s' = ms_e s ++ l' → e_host <$> l' = l →
     Forall (λ e, e_by e = 1 ∧ e_m e ≠ 0) l' → rest s' = rest s → Q (0, s') w') →
  (∀ w' s', mem_fails → closing (S k) w' r N T P s' → Q (- ENOMEM, s') w') →
  wp (mount_climb fuel s a) Q w.
Proof.
  induction l as [| a' l IH]; intros fuel a s G w Q Hup Hf Hst HG Hx HQ HE; [by inversion Hup |].
  destruct fuel as [| fuel]; [simpl in Hf; lia |]. simpl in Hf.
  assert (a' = a) as -> by (apply upto_head in Hup as [? [= -> _]]; done).
  destruct (st_inv _ _ _ _ _ _ _ _ Hst) as (A & F & I & _). pose proof (mi_root_dom _ _ _ _ _ _ _ _ _ _ _ _ I) as Hr.
  assert (is_Some (N !! a)) as [n Hn] by (eapply upto_dom; [exact Hr | exact Hup | by left]).
  assert (Hax : a ∉ pins s) by (apply Hx; by left).
  cbn [mount_climb]. wp_step. eapply wp_started_get; [exact Hst | by eexists | done | |].
  2:{ intros w' Hm Hs'. cbn [Z.eqb]. wp_step. apply HE; [by left | by eapply started_closing]. }
  intros m w1 Hh. assert (m ≠ 0) as Hm by (by destruct Hh as (_ & _ & _ & ? & _)).
  rewrite (proj2 (Z.eqb_neq m 0) Hm). wp_step. apply wp_push.
  2:{ intros Hm'. change (negb (- ENOMEM =? 0)) with true. cbn iota. wp_step. eapply wp_half_unpin; [exact Hh | set_solver |]. intros w2 Hs2. wp_step.
      apply HE; [right; by left | by eapply started_closing]. }
  intros s1 Hp. cbn [negb Z.eqb]. pose proof (half_pushed _ _ _ _ _ _ _ _ _ _ _ _ _ _ Hh Hp ltac:(done)) as Hs1.
  pose proof (pushed_pins _ _ _ Hp Hm) as Epins. cbn [e_host] in Epins. destruct Hp as [Ee Er].
  wp_step. eapply wp_started_freeze; [exact Hs1 | exact Hn | set_solver |]. intros w2 Hs2.
  wp_step. wp_step. destruct (st_inv _ _ _ _ _ _ _ _ Hs2) as (A2 & F2 & I2 & _).
  rewrite (mi_root _ _ _ _ _ _ _ _ _ _ _ _ I2). inversion Hup as [E1 E2 | d n' l0 Hn' Hne Hup' E1 E2].
  - subst. rewrite Z.eqb_refl. wp_step. eapply HQ; [| exact Ee | done | | exact Er].
    + eapply started_mono; [exact Hs2 | set_solver].
    + by repeat constructor.
  - subst d l0. assert (n' = n) as -> by congruence. rewrite (proj2 (Z.eqb_neq a r) Hne). rewrite Ee, alter_last.
    pose proof (started_note _ _ _ _ _ _ _ _ _ _ (n_parent n) Hs2 Ee ltac:(intros _; by exists n)) as Hs3.
    set (e := set_eup (n_parent n) (Ent a 0 m 1 false)) in *.
    assert (Epins3 : pins (set_e (ms_e s ++ [e]) s1) = {[a]} ∪ pins s).
    { unfold pins. cbn [ms_e set_e]. rewrite pinned_app, (pinned_cons e []) by done.
      rewrite list_to_set_app_L. simpl. set_solver. }
    eapply IH; [exact Hup' | lia | exact Hs3 | | | |].
    + rewrite Epins3. set_solver.
    + intros x Hxl. rewrite Epins3. intros [->%elem_of_singleton | Hxp]%elem_of_union.
      * by eapply (upto_parent_avoid r N a n).
      * eapply Hx; [by right | done].
    + intros w3 s3 l' Hs4 El Eh Hby Er'. cbn [ms_e set_e] in El.
      eapply (HQ w3 s3 (e :: l')).
      * eapply started_mono; [exact Hs4 | set_solver].
      * by rewrite El, <- app_assoc.
      * by rewrite fmap_cons, Eh.
      * by constructor.
      * by rewrite Er', rest_set_e.
    + done.
Qed.
(** *** The mountpoint itself *)

Lemma wp_flag_frame h b w (Q : unit → mworld → Prop) :
  wp (d_mnt_or h b) (λ u w', mw_bw w' = mw_bw w → Q u w') w → wp (d_mnt_or h b) Q w.
Proof.
  unfold d_mnt_or, d_mnt_store, wp, on_bw, st_zoom, st_bind, dent_at, st_lookup.
  destruct (bw_dent (mw_bw w) !! h); [| done]. simpl. intros HQ. apply HQ. done.
Qed.

Lemma wp_mount_freeze w s G h n t q (Q : option Z → mworld → Prop) :
  started (S k) r N T P w s G → N !! h = Some n → T !! h = Some t → h ∈ pins s →
  (∀ w', n_pos n = true → started (S k) r N T P w' s ({[h]} ∪ G) → Q (Some 0) w') →
  (∀ w', n_pos n = false → started (S k) r N T P w' s G → Q (Some (- ENOENT)) w') →
  wp (mount_freeze h (n_parent n) t q) Q w.
Proof.
  intros [(A & F & I & HF & Hok) Hu Hl] Hn Ht Hx HQ HE. unfold mount_freeze.
  pose proof (mi_brep _ _ _ _ _ _ _ _ _ _ _ _ I) as R.
  assert (Hpar : is_Some (N !! n_parent n)) by (eapply tree_parent; [apply (mi_tree _ _ _ _ _ _ _ _ _ _ _ _ I) | done]).
  wp_step. unfold bucket_of. apply wp_zoom. wp_step. rewrite set_bw_id. wp_step.
  eapply wp_mi_lock_n; [exact I | |].
  { intros x [-> | ->%list_elem_of_singleton]%elem_of_cons; [by eapply heads_bucket | by eapply heads_child]. }
  intros w1 I1 Hok1. pose proof (mi_brep _ _ _ _ _ _ _ _ _ _ _ _ I1) as R1.
  wp_step. eapply wp_run; [by eapply on_bw_run, live_run |]. cbn iota.
  destruct (rep_node _ _ _ _ h n R1 Hn) as (x & Hx1 & Hxok & _ & Epos & _).
  wp_step. eapply wp_run; [by eapply on_bw_run, node_is_positive_run |]. rewrite Epos. cbn [orb].
  destruct (n_pos n) eqn:En; cbn [negb].
  - wp_step. apply wp_flag_frame. eapply wp_flag_counted; [exact I1 | by eexists | rewrite zeros_dom; by apply elem_of_union_r |].
    intros w2 I2 Ebw. wp_step. eapply wp_mi_unlock_n; [exact I2 | by rewrite Ebw |].
    intros w3 I3. wp_step. apply HQ; [done |]. split; [| done | done]. exists A, ({[h]} ∪ F).
    split_and!; [done | set_solver | done].
  - wp_step. eapply wp_mi_unlock_n; [exact I1 | done |]. intros w2 I2. wp_step. apply HE; [done |].
    split; [| done | done]. by exists A, F.
Qed.
(** *** A set whose changes are all [d] *)

Lemma by_of_all d l h :
  Forall (λ e, e_by e = d ∧ e_m e ≠ 0) l → NoDup (e_host <$> l) →
  by_of l h = if decide (h ∈ e_host <$> l) then d else 0.
Proof.
  induction 1 as [| e l [Hd Hm] Hl IH]; intros Hnd; [done |]. rewrite fmap_cons in Hnd |- *.
  apply NoDup_cons in Hnd as [Hni Hnd]. simpl. rewrite (IH Hnd). destruct (decide (e_host e = h)) as [<- | Hne].
  - rewrite decide_True by done. rewrite (decide_False (P := _ ∈ e_host <$> l)) by done.
    rewrite decide_True by (by left). lia.
  - rewrite decide_False by naive_solver. destruct (decide (h ∈ e_host <$> l)).
    + rewrite decide_True by (by right). lia.
    + rewrite decide_False by (rewrite elem_of_cons; naive_solver). lia.
Qed.

Lemma pinned_all d l : Forall (λ e, e_by e = d ∧ e_m e ≠ 0) l → pinned l = e_host <$> l.
Proof. induction 1 as [| e l [_ Hm] Hl IH]; [done |]. by rewrite pinned_cons, IH. Qed.

(** The set [s] changes by [d] the counts of [l], and is locked. *)
Record full (w : mworld) (s : mnt_shift) (l : list Z) (d : Z) (A : gmap Z Z) (F : gset Z) : Prop := {
  fu_inv : minv (S k) w r N T [] A (counts r N P ∪ zeros (pins s)) (pins s) F P (shift_held s);
  fu_flags : dom (counts r N P) ∪ list_to_set l ⊆ F;
  fu_ents : ents_ok A (pins s) (ms_e s);
  fu_hosts : e_host <$> ms_e s = l;
  fu_by : Forall (λ e, e_by e = d ∧ e_m e ≠ 0) (ms_e s);
  fu_nodup : NoDup l;
  fu_dom : ∀ h, h ∈ l → is_Some (N !! h);
}.

Lemma full_closing w s l d A F : full w s l d A F → closing (S k) w r N T P s.
Proof.
  intros [I HF Hok _ _ _ _]. exists A, (counts r N P ∪ zeros (pins s)), F.
  split_and!; [done | done | apply settle_failed | set_solver].
Qed.

Lemma full_lock w s l d (Q : bool * mnt_shift → mworld → Prop) :
  started (S k) r N T P w s (list_to_set l) → ms_for_a s = 0 → ms_for_b s = 0 →
  e_host <$> ms_e s = l → Forall (λ e, e_by e = d ∧ e_m e ≠ 0) (ms_e s) → NoDup l →
  (∀ h, h ∈ l → is_Some (N !! h)) →
  (∀ s' w' A F, full w' s' l d A F → Q (true, s') w') → wp (mnt_shift_lock s) Q w.
Proof.
  intros [(A & F & I & HF & Hok) Hu Hl] Ha Hb Eh Hby Hnd Hd HQ.
  eapply wp_mnt_shift_lock; [exact I | done | by left | by left |]. intros s' w' I'. apply (HQ s' w' A F). by split.
Qed.

(** The changes are committed: the table is exact for the mountpoints that follow. *)
Lemma full_done w s l d A F P' :
  full w s l d A F →
  (∀ h, is_Some (N !! h) → mcount r N P' h = mcount r N P h + (if decide (h ∈ l) then d else 0)) →
  ∀ w', minv (S k) w' r N T [] A (bump (ms_e s) (counts r N P ∪ zeros (pins s))) (pins s) F P' (shift_held s) →
  closing (S k) w' r N T P' s.
Proof.
  intros [_ HF Hok Eh Hby Hnd Hd] Hc w' I'. exists A, (bump (ms_e s) (counts r N P ∪ zeros (pins s))), F.
  assert (Ep : pins s = list_to_set l) by (unfold pins; by rewrite (pinned_all d _ Hby), Eh).
  assert (Hb : ∀ h, by_of (ms_e s) h = if decide (h ∈ l) then d else 0).
  { intros h. rewrite <- Eh. apply by_of_all; [done | by rewrite Eh]. }
  assert (Hs : settle (pins s) (bump (ms_e s) (counts r N P ∪ zeros (pins s))) = counts r N P').
  { apply settle_done; [done | | |].
    - intros h. rewrite Ep, elem_of_list_to_set. intros Hh. by apply elem_of_dom, Hd.
    - intros h Hh. by rewrite Hb, Hc.
    - intros h. rewrite Ep, elem_of_list_to_set, Hb. intros Hh. by rewrite decide_False. }
  split_and!; [done | done | done |].
  intros h [c (Hh & -> & Hne)%counts_lookup]%elem_of_dom. apply HF, elem_of_union.
  destruct (decide (h ∈ l)) as [Hl | Hl]; [right; by apply elem_of_list_to_set | left].
  apply elem_of_dom. exists (mcount r N P h). apply counts_lookup.
  rewrite (Hc h Hh), (decide_False (P := h ∈ l)) in Hne by done. split_and!; [done | done | lia].
Qed.

Lemma full_by_ok w s l d A F :
  full w s l d A F → (∀ h, h ∈ l → 0 ≤ mcount r N P h + d < 2 ^ 62) →
  by_ok (counts r N P ∪ zeros (pins s)) (ms_e s).
Proof.
  intros [_ HF Hok Eh Hby Hnd Hd] Hr e He H0.
  assert (e_host e ∈ l) as Hl by (rewrite <- Eh; apply list_elem_of_fmap; eauto).
  exists (mcount r N P (e_host e)). split.
  - rewrite zeros_lookup, decide_True.
    + by rewrite counts_default by (by apply Hd).
    + unfold pins. apply elem_of_list_to_set, elem_of_pinned. eauto.
  - eapply Forall_forall in Hby as [-> _]; [| done]. by apply Hr.
Qed.

Lemma wp_mount_commit w s l h A F (Q : Z → mworld → Prop) :
  full w s l 1 A F → upto r N h l → h ∉ P → Z.of_nat (size N) < 2 ^ 62 →
  (∀ w', closing (S k) w' r N T ({[h]} ∪ P) s → Q 0 w') →
  (∀ w', mem_fails → closing (S k) w' r N T P s → Q (- ENOMEM) w') →
  wp (mount_commit h s) Q w.
Proof.
  intros HF Hup Hh Hsz HQ HE. pose proof (fu_inv _ _ _ _ _ _ HF) as I.
  pose proof (mi_tree _ _ _ _ _ _ _ _ _ _ _ _ I) as Ht.
  assert (Hhd : is_Some (N !! h)) by (apply (fu_dom _ _ _ _ _ _ HF); apply upto_head in Hup as [? ->]; by left).
  assert (Hadd : ∀ x, mcount r N ({[h]} ∪ P) x = mcount r N P x + (if decide (x ∈ l) then 1 else 0))
    by (intros x; by apply mcount_add).
  unfold mount_commit. wp_step. eapply wp_run; [by eapply mnt_here_run |]. rewrite bool_decide_eq_false_2 by done.
  wp_step. eapply wp_mnt_shift_commit; [exact _ | exact I | apply HF | eapply full_by_ok; [exact HF |] | |].
  { intros x Hx. specialize (Hadd x). rewrite decide_True in Hadd by done. rewrite <- Hadd.
    pose proof (mcount_nonneg r N ({[h]} ∪ P) x). split; [done |].
    eapply Z.le_lt_trans; [apply mcount_size | done].
    pose proof (mi_points _ _ _ _ _ _ _ _ _ _ _ _ I). apply elem_of_dom in Hhd. set_solver. }
  - intros w1 I1. wp_step. cbn [when Z.eqb]. wp_step. eapply wp_flag_here; [exact I1 | done |]. intros w2 I2.
    unfold DC_MNT_STAT_INC. wp_step. wp_step. apply HQ. eapply full_done; [exact HF | by intros x _ |].
    by apply minv_stat.
  - intros w1 Hm I1. wp_step. change (- ENOMEM =? 0) with false. cbn [when]. wp_step. wp_step. apply HE; [by do 2 right |].
    eapply full_closing. destruct HF. by split.
Qed.
(** *** [dc_mount] *)

(** The set of an operation that begins. *)
Definition s_init : mnt_shift := set_tries 1 (set_active true MNT_SHIFT_INIT).

Lemma mnt_begin_run w : mnt_begin (set_active true MNT_SHIFT_INIT) w = Ok (s_init, w).
Proof. done. Qed.

Lemma rest_for s : rest s = rest s_init → ms_for_a s = 0 ∧ ms_for_b s = 0.
Proof. unfold rest. cbn. intros [=]. done. Qed.

(** The rest of a round, from the mountpoint that was found. *)
Lemma wp_mount_found w h n t q l :
  mquiet (S k) w r N T P → N !! h = Some n → T !! h = Some t → h ≠ r → h ∉ P → upto r N h l →
  Z.of_nat (size N) < 2 ^ 62 →
  wp (let! m := mnt_get h in
      if m =? 0 then st_ret (inr (- ENOMEM, s_init))
      else
        let! r := mnt_shift_push s_init h m 1 (n_parent n) true in
        let '(ret, s) := r in
        if negb (ret =? 0) then mnt_unpin m ;;; st_ret (inr (- ENOMEM, s))
        else
          let! fr := mount_freeze h (n_parent n) t q in
          match fr with
          | None => st_ret (inl s)
          | Some ret =>
              if negb (ret =? 0) then st_ret (inr (ret, s))
              else
                let! fuel := st_gets climb_fuel in
                let! r := mount_climb fuel s (n_parent n) in
                let '(ret, s) := r in
                if negb (ret =? 0) then st_ret (inr (ret, s))
                else
                  let! r := mnt_shift_lock s in
                  let '(ok, s) := r in
                  if negb ok then st_ret (inl s)
                  else let! ret := mount_commit h s in st_ret (inr (ret, s))
          end) (round_post (if n_pos n then (0, {[h]} ∪ P) else (- ENOENT, P))) w.
Proof.
  intros Hq Hn Ht Hr Hh Hup Hsz.
  pose proof (quiet_started _ _ _ _ _ _ s_init Hq eq_refl eq_refl) as Hs. destruct Hq as [A0 I0].
  pose proof (mi_root_dom _ _ _ _ _ _ _ _ _ _ _ _ I0) as Hrd.
  inversion Hup as [| h' n' l' Hn' _ Hup' E1 E2]; [done |]. subst h' l. assert (n' = n) as -> by congruence.
  wp_step. eapply wp_started_get; [exact Hs | by eexists | unfold pins; cbn; set_solver | |].
  2:{ intros w' Hm Hs'. cbn [Z.eqb]. wp_step. eexists _, _. split; [done |]. right.
      split_and!; [done | by left | by eapply started_closing]. }
  intros m w1 Hf. assert (m ≠ 0) as Hm by (by destruct Hf as (_ & _ & _ & ? & _)).
  rewrite (proj2 (Z.eqb_neq m 0) Hm). wp_step. apply wp_push.
  2:{ intros Hm'. change (negb (- ENOMEM =? 0)) with true. cbn iota. wp_step.
      eapply wp_half_unpin; [exact Hf | set_solver |]. intros w2 Hs2. wp_step. eexists _, _. split; [done |]. right.
      split_and!; [done | right; by left | by eapply started_closing]. }
  intros s1 Hp. cbn [negb Z.eqb].
  pose proof (half_pushed _ _ _ _ _ _ _ _ _ _ _ _ _ _ Hf Hp ltac:(intros _; by exists n)) as Hs1.
  pose proof (pushed_pins _ _ _ Hp Hm) as Epins. cbn [e_host] in Epins. destruct Hp as [Ee Er].
  change (pins s_init) with (∅ : gset Z) in Epins.
  wp_step. eapply wp_mount_freeze; [exact Hs1 | exact Hn | exact Ht | set_solver | |].
  2:{ intros w2 En Hs2. rewrite En. change (negb (- ENOENT =? 0)) with true. cbn iota. wp_step. eexists _, _. split; [done |]. left. split; [done | by eapply started_closing]. }
  intros w2 En Hs2. rewrite En. cbn [negb Z.eqb]. wp_step. wp_step.
  destruct (st_inv _ _ _ _ _ _ _ _ Hs2) as (A2 & F2 & I2 & _).
  wp_step. eapply (wp_mount_climb l'); [exact Hup' | | exact Hs2 | set_solver | | |].
  { transitivity (size N); [by eapply upto_length |]. unfold climb_fuel. transitivity (size (bw_dent (mw_bw w2))); [| lia].
    rewrite <- !size_dom. apply subseteq_size. intros x Hx%elem_of_dom.
    destruct (mi_dent _ _ _ _ _ _ _ _ _ _ _ _ I2 x Hx) as [y Hy]. apply elem_of_dom. by exists y. }
  { intros x Hx. rewrite Epins. intros [->%elem_of_singleton | ?]%elem_of_union; [| set_solver].
    by eapply (upto_parent_avoid r N h n). }
  2:{ intros w3 s3 Hm' Hc. change (negb (- ENOMEM =? 0)) with true. cbn iota. wp_step. eexists _, _. split; [done |].
      right. by split_and!. }
  intros w3 s3 l2 Hs3 E3 Eh Hby Er3. cbn [negb Z.eqb]. rewrite Ee in E3. cbn [ms_e s_init set_tries set_active MNT_SHIFT_INIT app] in E3.
  wp_step. eapply (full_lock w3 s3 (h :: l') 1).
  - eapply started_mono; [exact Hs3 |]. simpl. set_solver.
  - apply rest_for. congruence.
  - apply rest_for. congruence.
  - rewrite E3. by rewrite fmap_cons, Eh.
  - rewrite E3. by constructor.
  - by eapply upto_nodup.
  - intros x Hx. eapply upto_dom; [exact Hrd | exact Hup | done].
  - intros s4 w4 A F HF. cbn [negb]. wp_step. eapply wp_mount_commit; [exact HF | done | done | done | |].
    + intros w5 Hc. wp_step. eexists _, _. split; [done |]. by left.
    + intros w5 Hm' Hc. wp_step. eexists _, _. split; [done |]. by right.
Qed.
Lemma wp_mount_round w q names p h :
  mquiet (S k) w r N T P → nwalk r N r names = Some p → child r N p (qname q) = Some h → qstr_wf q →
  Z.of_nat (size N) < 2 ^ 62 →
  wp (mount_round q h (set_active true MNT_SHIFT_INIT))
    (round_post (if decide (h ∈ P) then (- EBUSY, P)
                 else if default false (n_pos <$> N !! h) then (0, {[h]} ∪ P) else (- ENOENT, P))) w.
Proof.
  intros Hq Hp Hc Hqw Hsz. pose proof Hq as [A I]. pose proof (mi_brep _ _ _ _ _ _ _ _ _ _ _ _ I) as R.
  pose proof (mi_tree _ _ _ _ _ _ _ _ _ _ _ _ I) as Htr. pose proof (mi_root _ _ _ _ _ _ _ _ _ _ _ _ I) as Er.
  apply child_Some_1 in Hc as Hc'. destruct Hc' as (Hr & n & Hn & En & Enm).
  destruct (rep_aligned _ _ _ _ R h ltac:(by eexists)) as [_ H0].
  unfold mount_round. wp_step. eapply wp_run; [apply mnt_begin_run |].
  change (Z.pos DC_MNT_TRIES_MAX <? ms_tries s_init) with false. cbn iota. rewrite (proj2 (Z.eqb_neq h 0) H0).
  wp_step. eapply wp_run; [by eapply mi_parent |]. wp_step.
  destruct (find_top_cases _ _ _ _ (n_parent n) q R Hqw) as [[Ec _] | (h' & n' & t & Ec & Hn' & Ht & Ht0 & _ & _ & _ & Ef)];
    rewrite Er, En, Hc in Ec; simplify_eq.
  eapply wp_run; [by apply on_bw_run |]. rewrite (proj2 (Z.eqb_neq t 0) Ht0).
  wp_step. eapply wp_run; [by eapply on_bw_run, host_of_top |]. rewrite Z.eqb_refl. cbn [orb negb].
  wp_step. eapply wp_run; [eapply mnt_here_run; [exact I | by eexists] |]. case_bool_decide as HP.
  { rewrite (decide_True (P := _ ∈ P)) by done. wp_step. eexists _, _. split; [done |]. left. split; [done |].
    eapply started_closing, quiet_started; done. }
  rewrite (decide_False (P := _ ∈ P)) by done. rewrite Hn. cbn [fmap option_fmap option_map default].
  destruct (t_up _ _ Htr _ (mk_is_Some _ _ Hn)) as [l Hl]. by eapply wp_mount_found.
Qed.
(** *** [dc_umount] *)

Lemma wp_umount_climb host l : ∀ hops a s w (Q : bool * Z * mnt_shift → mworld → Prop),
  upto r N a l → (length l ≤ hops)%nat → started (S k) r N T P w s ∅ →
  (∀ x, x ∈ l → x ∉ pins s ∧ x ∈ dom (counts r N P)) →
  (∀ w' s' l', started (S k) r N T P w' s' ∅ → ms_e s' = ms_e s ++ l' → e_host <$> l' = l →
     Forall (λ e, e_by e = -1 ∧ e_m e ≠ 0) l' → rest s' = rest s → Q (false, 0, s') w') →
  (∀ w' s', mem_fails → closing (S k) w' r N T P s' → Q (false, - ENOMEM, s') w') →
  wp (umount_climb hops host s a) Q w.
Proof.
  induction l as [| a' l IH]; intros hops a s w Q Hup Hf Hst Hx HQ HE; [by inversion Hup |].
  destruct hops as [| hops]; [simpl in Hf; lia |]. simpl in Hf.
  assert (a' = a) as -> by (apply upto_head in Hup as [? [= -> _]]; done).
  destruct (Hx a ltac:(by left)) as [Hax Hac].
  cbn [umount_climb]. wp_step. eapply wp_started_pin; [exact Hst | done | done |]. intros m w1 Hh.
  assert (m ≠ 0) as Hm by (by destruct Hh as (_ & _ & _ & ? & _)). pose proof Hh as (_ & _ & _ & _ & A & F & I & _).
  pose proof (mi_brep _ _ _ _ _ _ _ _ _ _ _ _ I) as R. pose proof (mi_root_dom _ _ _ _ _ _ _ _ _ _ _ _ I) as Hrd.
  pose proof (mi_tree _ _ _ _ _ _ _ _ _ _ _ _ I) as Htr.
  assert (is_Some (N !! a)) as [n Hn] by (eapply upto_dom; [exact Hrd | exact Hup | by left]).
  wp_step. wp_step. rewrite (mi_root _ _ _ _ _ _ _ _ _ _ _ _ I). rewrite (proj2 (Z.eqb_neq m 0) Hm).
  wp_step. eapply (wp_run _ _ _ (if a =? r then 0 else n_parent n)); [destruct (a =? r); [done | by eapply mi_parent] |].
  wp_step. apply wp_push.
  2:{ intros Hm'. change (negb (- ENOMEM =? 0)) with true. cbn iota. wp_step.
      eapply wp_half_unpin; [exact Hh | set_solver |]. intros w2 Hs2. wp_step.
      apply HE; [right; by left | by eapply started_closing]. }
  intros s1 Hp. cbn [negb Z.eqb]. pose proof (half_pushed _ _ _ _ _ _ _ _ _ _ _ _ _ _ Hh Hp) as Hs1.
  specialize (Hs1 ltac:(destruct (Z.eqb_spec a r); [done | by exists n])).
  pose proof (pushed_pins _ _ _ Hp Hm) as Epins. cbn [e_host] in Epins. destruct Hp as [Ee Er].
  inversion Hup as [E1 E2 | d n' l0 Hn' Hne Hup' E1 E2].
  - subst. rewrite Z.eqb_refl in *. cbn [Z.eqb]. wp_step. eapply HQ; [exact Hs1 | exact Ee | done | | exact Er].
    by repeat constructor.
  - subst d l0. assert (n' = n) as -> by congruence. rewrite (proj2 (Z.eqb_neq a r) Hne) in *.
    destruct (rep_aligned _ _ _ _ R _ (tree_parent _ _ _ _ Htr Hn)) as [_ Hp0]. rewrite (proj2 (Z.eqb_neq _ _) Hp0).
    eapply IH; [exact Hup' | lia | exact Hs1 | | | done].
    + intros x Hxl. destruct (Hx x ltac:(by right)) as [Hxp Hxc]. split; [| done]. rewrite Epins.
      intros [->%elem_of_singleton | ?]%elem_of_union; [| done]. by eapply (upto_parent_avoid r N a n).
    + intros w3 s3 l' Hs3 El Eh Hby Er'. eapply (HQ w3 s3 (_ :: l')); [exact Hs3 | | | | congruence].
      * by rewrite El, Ee, <- app_assoc.
      * by rewrite fmap_cons, Eh.
      * by constructor.
Qed.

Lemma wp_umount_commit w s l h A F (Q : Z → mworld → Prop) :
  full w s l (-1) A F → upto r N h l → h ∈ P → Z.of_nat (size N) < 2 ^ 62 →
  (∀ w', closing (S k) w' r N T (P ∖ {[h]}) s → Q 0 w') →
  (∀ w', mem_fails → closing (S k) w' r N T P s → Q (- ENOMEM) w') →
  wp (umount_commit h s) Q w.
Proof.
  intros HF Hup Hh Hsz HQ HE. pose proof (fu_inv _ _ _ _ _ _ HF) as I.
  pose proof (mi_tree _ _ _ _ _ _ _ _ _ _ _ _ I) as Ht. pose proof (mi_points _ _ _ _ _ _ _ _ _ _ _ _ I) as HP.
  assert (Hhd : is_Some (N !! h)) by (by apply elem_of_dom, HP).
  assert (Hsub : ∀ x, mcount r N (P ∖ {[h]}) x = mcount r N P x + (if decide (x ∈ l) then -1 else 0)).
  { intros x. rewrite (mcount_remove r N Ht P h l x Hup Hh). destruct (decide (x ∈ l)); lia. }
  unfold umount_commit. wp_step. eapply wp_run; [by eapply mnt_here_run |]. rewrite bool_decide_eq_true_2 by done.
  cbn [negb]. wp_step. eapply wp_mnt_shift_commit; [exact _ | exact I | apply HF | eapply full_by_ok; [exact HF |] | |].
  { intros x Hx. pose proof (mcount_above r N Ht P h l x Hup Hh Hx). pose proof (mcount_size r N P x HP). lia. }
  - intros w1 I1. wp_step. cbn [when Z.eqb]. wp_step. eapply wp_clear_here; [exact I1 | done |]. intros w2 I2.
    unfold DC_MNT_STAT_INC. wp_step. wp_step. apply HQ. eapply full_done; [exact HF | by intros x _ |].
    by apply minv_stat.
  - intros w1 Hm I1. wp_step. change (- ENOMEM =? 0) with false. cbn [when]. wp_step. wp_step. apply HE; [by do 2 right |].
    eapply full_closing. destruct HF. by split.
Qed.

Lemma wp_umount_round w h l :
  mquiet (S k) w r N T P → upto r N h l → (length l ≤ DC_LOOP_MAX)%nat → h ≠ 0 → Z.of_nat (size N) < 2 ^ 62 →
  is_Some (N !! h) →
  wp (umount_round h (set_active true MNT_SHIFT_INIT))
    (round_post (if decide (h ∈ P) then (0, P ∖ {[h]}) else (- EINVAL, P))) w.
Proof.
  intros Hq Hup Hlen H0 Hsz Hh. pose proof (quiet_started _ _ _ _ _ _ s_init Hq eq_refl eq_refl) as Hs.
  destruct Hq as [A I]. pose proof (mi_tree _ _ _ _ _ _ _ _ _ _ _ _ I) as Ht.
  pose proof (mi_root_dom _ _ _ _ _ _ _ _ _ _ _ _ I) as Hrd.
  unfold umount_round. wp_step. eapply wp_run; [apply mnt_begin_run |].
  change (Z.pos DC_MNT_TRIES_MAX <? ms_tries s_init) with false. cbn iota. rewrite (proj2 (Z.eqb_neq h 0) H0).
  wp_step. eapply wp_run; [by eapply mnt_here_run |]. case_bool_decide as HP; cbn [negb].
  2:{ rewrite (decide_False (P := _ ∈ P)) by done. wp_step. eexists _, _. split; [done |]. left. split; [done |].
      by eapply started_closing. }
  rewrite (decide_True (P := _ ∈ P)) by done.
  assert (Hdom : ∀ x, x ∈ l → is_Some (N !! x)) by (intros x Hx; eapply upto_dom; [exact Hrd | exact Hup | done]).
  assert (Hl : ∀ x, x ∈ l → x ∈ dom (counts r N P)).
  { intros x Hx. apply elem_of_dom. exists (mcount r N P x). apply counts_lookup. split_and!; [by apply Hdom | done |].
    pose proof (mcount_above r N Ht P h l x Hup HP Hx). lia. }
  wp_step. eapply (wp_umount_climb h l); [exact Hup | done | exact Hs | | |].
  { intros x Hx. split; [change (pins s_init) with (∅ : gset Z); set_solver | by apply Hl]. }
  2:{ intros w2 s2 Hm Hc. change (negb (- ENOMEM =? 0)) with true. cbn iota. wp_step. eexists _, _. split; [done |].
      right. by split_and!. }
  intros w2 s2 l2 Hs2 E2 Eh Hby Er. cbn [negb Z.eqb]. change (ms_e s_init) with (@nil mnt_ent) in E2.
  wp_step. eapply (full_lock w2 s2 l (-1)); [| by apply rest_for | by apply rest_for | by rewrite E2 | by rewrite E2 |
    by eapply upto_nodup | done |].
  - destruct Hs2 as [(A2 & F2 & I2 & HF2 & Hok2) Hu2 Hl2]. split; [| done | done]. exists A2, F2.
    split_and!; [done | | done]. intros x [Hx | Hx%elem_of_list_to_set]%elem_of_union; apply HF2, elem_of_union_l;
      [done | by apply Hl].
  - intros s4 w4 A4 F4 HF. cbn [negb]. wp_step. eapply wp_umount_commit; [exact HF | done | done | done | |].
    + intros w5 Hc. wp_step. eexists _, _. split; [done |]. by left.
    + intros w5 Hm' Hc. wp_step. eexists _, _. split; [done |]. by right.
Qed.
End ops.

Section theorems.
Context `{HL : Layout} `{!LayoutOk HL} `{HC : Calloc} `{!CallocOk HC} `{HR : Realloc} `{HT : MntTxn} `{!MntTxnOk HT}.
Variables (k : nat) (r : Z) (N : nspace) (T : gmap Z Z) (P : gset Z).

Theorem dc_mount_correct w path :
  mquiet k w r N T P → path_wf path → Z.of_nat (size N) < 2 ^ 62 →
  wp (dc_mount path) (mount_post k r N T P (mount_spec r N P (pnames path))) w.
Proof.
  intros Hq Hp Hsz. unfold dc_mount. destruct (decide (ndepth path = 0%nat)) as [E0 | H0].
  { wp_step. left. pose proof (length_pnames path Hp) as El. rewrite E0 in El. apply nil_length_inv in El.
    unfold mount_spec. rewrite El. simpl. done. }
  destruct (path_split path Hp H0) as (q & Hcq & Hqw & Hwalk & _). pose proof (pnames_nonempty path Hp H0) as Hne.
  wp_step. eapply wp_run; [by apply on_bw_run, comp_at_run |]. wp_step. eapply wp_run; [done |].
  wp_step. eapply wp_mnt_enter; [exact Hq |]. intros w1 Hq1.
  destruct (mnt_resolve_run _ _ _ _ _ _ path Hq1 Hp) as [p' Ep]. wp_step. eapply wp_run; [exact Ep |]. cbn [fst].
  apply wp_after_round. unfold mount_spec. specialize (Hwalk r N).
  destruct (pnames path) as [| nm names] eqn:Enm; [done |]. cbn match.
  destruct (nwalk r N r (nm :: names)) as [h |] eqn:Ew; cbn [default].
  - symmetry in Hwalk. apply bind_Some in Hwalk as (p & Hpw & Hc). by eapply wp_mount_round.
  - unfold mount_round. wp_step. eapply wp_run; [apply mnt_begin_run |].
    change (Z.pos DC_MNT_TRIES_MAX <? ms_tries s_init) with false. cbn [Z.eqb]. cbn iota. wp_step.
    eexists _, _. split; [done |]. left. split; [done |]. eapply started_closing, quiet_started; done.
Qed.
Theorem dc_umount_correct w path :
  mquiet k w r N T P → path_wf path → Z.of_nat (size N) < 2 ^ 62 →
  wp (dc_umount path) (mount_post k r N T P (umount_spec r N P (pnames path))) w.
Proof.
  intros Hq Hp Hsz. unfold dc_umount. wp_step. eapply wp_run; [done |].
  wp_step. eapply wp_mnt_enter; [exact Hq |]. intros w1 Hq1.
  destruct (mnt_resolve_run _ _ _ _ _ _ path Hq1 Hp) as [p' Ep]. wp_step. eapply wp_run; [exact Ep |]. cbn [fst].
  apply wp_after_round. unfold umount_spec. destruct (nwalk r N r (pnames path)) as [h |] eqn:Ew; cbn [default].
  - destruct (nwalk_known _ _ _ _ _ _ _ h Hq1 Ew) as (H0 & n & Hn). destruct (Hq1) as [A I].
    pose proof (mi_tree _ _ _ _ _ _ _ _ _ _ _ _ I) as Ht. destruct (t_up _ _ Ht h ltac:(by eexists)) as [l Hl].
    eapply (wp_umount_round _ _ _ _ _ _ _ l); [done | done | | done | done | by eexists].
    rewrite (npath_length _ _ Ht h l Hl), (npath_nwalk _ _ Ht _ h Ew), length_pnames by done.
    pose proof (pw_depth path Hp). unfold DC_LOOP_MAX, DC_PATH_MAX in *. lia.
  - unfold umount_round. wp_step. eapply wp_run; [apply mnt_begin_run |].
    change (Z.pos DC_MNT_TRIES_MAX <? ms_tries s_init) with false. cbn [Z.eqb]. cbn iota. wp_step.
    eexists _, _. split; [done |]. left. split; [done |]. eapply started_closing, quiet_started; done.
Qed.

Theorem dc_mount_count_correct w path :
  mquiet k w r N T P → path_wf path →
  wp (dc_mount_count path) (λ v w', v = mount_count_spec r N P (pnames path) ∧ mquiet k w' r N T P) w.
Proof.
  intros Hq Hp. unfold dc_mount_count. wp_step. eapply wp_mnt_enter; [exact Hq |]. intros w1 Hq1.
  destruct (mnt_resolve_run _ _ _ _ _ _ path Hq1 Hp) as [p' Ep]. wp_step. eapply wp_run; [exact Ep |]. cbn [fst].
  pose proof Hq1 as [A I]. unfold mount_count_spec.
  wp_step. eapply (wp_run _ _ _ (match nwalk r N r (pnames path) with Some h => mcount r N P h | None => - ENOENT end)).
  2:{ wp_step. eapply wp_mi_leave; [exact I |]. intros w2 I2. wp_step. split; [done | by exists A]. }
  destruct (nwalk r N r (pnames path)) as [h |] eqn:Ew; cbn [default]; [| done].
  destruct (nwalk_known _ _ _ _ _ _ _ h Hq1 Ew) as (H0 & n & Hn). change (id h) with h. rewrite (proj2 (Z.eqb_neq h 0) H0).
  eapply bind_run; [eapply mnt_counted_run; [exact I | by eexists] |]. cbn beta.
  rewrite <- (counts_default r N P h) by (by eexists). pose proof (mr_dom _ _ _ _ _ _ _ (mi_rep _ _ _ _ _ _ _ _ _ _ _ _ I)) as Hd.
  destruct (counts r N P !! h) as [c |] eqn:Ec; case_bool_decide as Hb; cbn [negb default].
  - assert (is_Some (A !! h)) as [m Hm] by (apply elem_of_dom; by rewrite Hd).
    eapply bind_run; [by eapply mnt_find_run |]. rewrite Hm. change (default 0 (Some m)) with m. cbn beta.
    destruct (obj_of _ _ _ _ _ _ _ _ _ _ _ _ I h m Hm) as (_ & _ & _ & Hm0 & _). rewrite (proj2 (Z.eqb_neq m 0) Hm0).
    by eapply mnt_read_run.
  - destruct Hb. by apply elem_of_dom_2 in Ec.
  - apply elem_of_dom in Hb as [? ?]. congruence.
  - done.
Qed.
End theorems.
