(* ===== verification/MountChains.v ===== *)
(** The set of a move or an exchange: the object of what moves, and the ancestors of the
    parents on both sides up to the first they share.  What a set is that makes the table
    exact for another name space. *)

From S2P Require Import Prelude Qstr HList Lru World Walk Namespace TreeOps Paths BlChain BlLists BlLru BlWorld BlWalk.
From S2P Require Import BlOps BlMove BlInv BlReads BlWalkSpec BlLocks BlRep BlSect Mount MountRep MountSet MountSpec.
From S2P Require Import MountClimb MountOps.

(** ** The set of a move *)

(** What is noted of the ancestors [l] of the parent that is left. *)
Fixpoint olds (d : Z) (l : list Z) : list mnt_ent :=
  match l with
  | [] => []
  | a :: l' => Ent a (hd0 l') 0 (- d) false :: olds d l'
  end.

Lemma olds_length d l : length (olds d l) = length l.
Proof. induction l as [| a l IH]; simpl; [done | by rewrite IH]. Qed.

Lemma olds_hosts d l : e_host <$> olds d l = l.
Proof. induction l as [| a l IH]; [done |]. cbn [olds]. by rewrite fmap_cons, IH. Qed.

Lemma olds_free d l e : e ∈ olds d l → e_m e = 0 ∧ e_by e = - d.
Proof.
  induction l as [| a l IH]; [by intros ?%not_elem_of_nil |]. simpl.
  intros [-> | H]%elem_of_cons; [done | by apply IH].
Qed.

Lemma olds_find d l a i : NoDup l → l !! i = Some a → fst <$> list_find (λ e, e_host e = a) (olds d l) = Some i.
Proof.
  revert i. induction l as [| b l IH]; intros i Hnd Hi; [done |]. apply NoDup_cons in Hnd as [Hb Hnd]. simpl.
  destruct (decide (b = a)) as [-> | Hne].
  - destruct i as [| i]; [done |]. simpl in Hi. by apply list_elem_of_lookup_2 in Hi.
  - destruct i as [| i]; [by injection Hi as -> |]. specialize (IH i Hnd Hi).
    destruct (list_find _ (olds d l)) as [[j e] |]; simpl in *; [| done]. by injection IH as ->.
Qed.

Lemma olds_not_found d l a : a ∉ l → list_find (λ e, e_host e = a) (olds d l) = None.
Proof.
  intros Ha. apply list_find_None, Forall_forall. intros e He Ee. apply Ha. rewrite <- Ee, <- (olds_hosts d l).
  apply list_elem_of_fmap. eauto.
Qed.

(** The place that is looked for among the entries of the old chain. *)
Lemma old_place_eq s e0 os rest a :
  ms_e s = e0 ++ os ++ rest →
  old_place s (length e0) (length (e0 ++ os)) a =
    Nat.add (length e0) <$> (fst <$> list_find (λ e, e_host e = a) os).
Proof.
  intros E. unfold old_place. rewrite E. rewrite length_app.
  replace (length e0 + length os - length e0)%nat with (length os) by lia. by rewrite drop_app_length, take_app_length.
Qed.

(** A loop that is left in its second round at the latest. *)
Lemma wp_twice {W X Y V} (body : X → ST W (X + Y)) a (f : Y → ST W V) (Q : V → W → Prop) w :
  wp (body a) (λ x w', match x with
    | inr b => wp (f b) Q w'
    | inl a' => wp (body a') (λ x w', match x with inr b => wp (f b) Q w' | inl _ => False end) w'
    end) w →
  wp (let! x := iter_upto RETRY_ROUNDS body a in
      match x with inl _ => st_fault NoFuel | inr b => f b end) Q w.
Proof.
  intros H. apply wp_bind. eapply wp_mono; [apply (wp_iter_rounds RETRY_ROUNDS body (λ b w', wp (f b) Q w') 1) |].
  - eapply wp_mono; [exact H |]. by intros [a' | b] w' H'.
  - intros [a' | b] w' Hr; [| done]. destruct Hr as [Hle _]. exfalso. revert Hle.
    assert (1 < Pos.to_nat RETRY_ROUNDS)%nat by (apply (Pos2Nat.inj_lt 1); done). lia.
Qed.

Section chains.
Context `{HL : Layout} `{!LayoutOk HL} `{HC : Calloc} `{!CallocOk HC} `{HR : Realloc} `{HT : MntTxn} `{!MntTxnOk HT}.
Variables (k : nat) (r : Z) (N : nspace) (T : gmap Z Z) (P : gset Z).
Abbreviation st := (started k r N T P).

(** An entry that is not pinned. *)
Lemma started_plain w s s' G e :
  st w s G → pushed s s' e → e_m e = 0 →
  (e_up e ≠ 0 → ∃ n, N !! e_host e = Some n ∧ n_parent n = e_up e) → st w s' G.
Proof.
  intros [(A & F & I & HF & Hok) Hu Hl] [Ee Er%rest_locked] H0 Hup.
  assert (Epn : pinned (ms_e s') = pinned (ms_e s)) by (rewrite Ee, pinned_app, (pinned_skip e []) by done; by rewrite app_nil_r).
  assert (Ep : pins s' = pins s) by (unfold pins; by rewrite Epn).
  split; [| | congruence].
  - exists A, F. rewrite Ep. split_and!; [done | done |]. split; [rewrite Epn; apply Hok |].
    rewrite Ee. intros e' [He | ->%list_elem_of_singleton]%elem_of_app; [by apply Hok | done].
  - rewrite Ee. intros e' [He | ->%list_elem_of_singleton]%elem_of_app; [by apply Hu | done].
Qed.

Lemma wp_chains_old d bar bar' l : ∀ hops s a w G (Q : Z * mnt_shift * nat → mworld → Prop),
  upto r N a l → (length l ≤ hops)%nat → st w s G → bar ∉ l → bar' ∉ l → (∀ x, x ∈ l → x ≠ 0) →
  (∀ s', st w s' G → ms_e s' = ms_e s ++ olds d l → rest s' = rest s → Q (0, s', (hops - length l)%nat) w) →
  (∀ s' j, mem_fails → closing k w r N T P s' → Q (- ENOMEM, s', j) w) →
  wp (chains_old hops s a d bar bar') Q w.
Proof.
  induction l as [| a' l IH]; intros hops s a w G Q Hup Hf Hst Hbar Hbar' H0 HQ HE; [by inversion Hup |].
  assert (a' = a) as -> by (apply upto_head in Hup as [? [= -> _]]; done).
  destruct hops as [| hops]; [simpl in Hf; lia |]. simpl in Hf. cbn [chains_old].
  rewrite (proj2 (Z.eqb_neq a bar)), (proj2 (Z.eqb_neq a bar')) by (intros ->; (by apply Hbar; left) || (by apply Hbar'; left)). cbn [orb].
  destruct (st_inv _ _ _ _ _ _ _ _ Hst) as (A & F & I & _). pose proof (mi_root_dom _ _ _ _ _ _ _ _ _ _ _ _ I) as Hrd.
  assert (is_Some (N !! a)) as [n Hn] by (eapply upto_dom; [exact Hrd | exact Hup | by left]).
  wp_step. wp_step. rewrite (mi_root _ _ _ _ _ _ _ _ _ _ _ _ I).
  assert (Hhd : (if a =? r then 0 else n_parent n) = hd0 l).
  { inversion Hup as [E1 E2 | d' n' l0 Hn' Hne Hup' E1 E2]; [by rewrite Z.eqb_refl |].
    rewrite (proj2 (Z.eqb_neq a r) Hne). assert (n' = n) as -> by congruence.
    destruct (upto_head _ _ _ _ Hup') as [l' ->]. done. }
  wp_step. eapply (wp_run _ _ _ (if a =? r then 0 else n_parent n)); [destruct (a =? r); [done | by eapply mi_parent] |].
  rewrite Hhd. wp_step. apply wp_push.
  2:{ intros Hm. change (negb (- ENOMEM =? 0)) with true. cbn iota. wp_step.
      apply HE; [right; by left | by eapply started_closing]. }
  intros s1 Hp. cbn [negb Z.eqb].
  assert (st w s1 G) as Hs1.
  { eapply started_plain; [exact Hst | exact Hp | done |]. cbn [e_up e_host]. rewrite <- Hhd.
    destruct (a =? r); [done | by exists n]. }
  destruct Hp as [Ee Er]. inversion Hup as [E1 E2 | d' n' l0 Hn' Hne Hup' E1 E2].
  - subst l. subst a. change (hd0 [] =? 0) with true. cbn iota. wp_step. cbn [length] in HQ. rewrite Nat.sub_succ, Nat.sub_0_r in HQ.
    by apply HQ.
  - subst d' l0. assert (n' = n) as -> by congruence. rewrite (proj2 (Z.eqb_neq a r) Hne) in Hhd. rewrite <- Hhd.
    assert (n_parent n ≠ 0) as Hp0 by (apply H0; right; destruct (upto_head _ _ _ _ Hup') as [? ->]; by left).
    rewrite (proj2 (Z.eqb_neq _ _) Hp0).
    eapply IH; [exact Hup' | lia | exact Hs1 | by intros ?; apply Hbar; right | by intros ?; apply Hbar'; right | by intros x Hx; apply H0; right | | done].
    intros s2 Hs2 E2' Er2. apply (HQ s2); [done | | congruence]. rewrite E2', Ee, <- app_assoc. simpl. by rewrite <- Hhd.
Qed.
(** The ancestors of the parent that is entered, up to the first of the old chain. *)
Lemma wp_chains_new d bar bar' e0 lf i lt : ∀ hops s a first w G news (Q : Z * mnt_shift * nat → mworld → Prop),
  upto r N a (lt ++ drop i lf) → (i < length lf)%nat → NoDup lf → (length lt ≤ hops)%nat →
  (∀ x, x ∈ lt → x ∉ lf ∧ x ≠ bar ∧ x ≠ bar' ∧ x ∉ pins s) →
  st w s G → G ⊆ pins s → ms_e s = e0 ++ olds d lf ++ news →
  (∀ w' s' l', st w' s' (G ∪ list_to_set lt) → ms_e s' = ms_e s ++ l' → e_host <$> l' = lt →
     Forall (λ e, e_by e = d ∧ e_m e ≠ 0) l' → rest s' = rest s → Q (0, s', (length e0 + i)%nat) w') →
  (∀ w' s' j, mem_fails → closing k w' r N T P s' → Q (- ENOMEM, s', j) w') →
  wp (chains_new hops (length e0) (length (e0 ++ olds d lf)) s a d bar bar' first) Q w.
Proof.
  induction lt as [| a' lt IH]; intros hops s a first w G news Q Hup Hi Hnd Hf Hx Hst HG Es HQ HE.
  { destruct (lookup_lt_is_Some_2 lf i Hi) as [b Hb]. rewrite (drop_S _ _ _ Hb) in Hup. simpl in Hup.
    destruct (upto_head _ _ _ _ Hup) as [? [= -> _]].
    destruct hops; cbn [chains_new]; rewrite (old_place_eq s e0 (olds d lf) news a Es), (olds_find d lf a i Hnd Hb); cbn [fmap option_fmap option_map];
      wp_step; apply (HQ w s []); [| by rewrite app_nil_r | done | done | done | | by rewrite app_nil_r | done | done | done];
      (eapply started_mono; [exact Hst | set_solver]). }
  assert (a' = a) as -> by (apply upto_head in Hup as [? [= -> _]]; done).
  destruct hops as [| hops]; [simpl in Hf; lia |]. simpl in Hf. cbn [chains_new].
  destruct (Hx a ltac:(by left)) as (Hxf & Hxb & Hxb' & Hxp).
  rewrite (old_place_eq s e0 (olds d lf) news a Es), (olds_not_found d lf a Hxf). cbn [fmap option_fmap option_map].
  destruct (st_inv _ _ _ _ _ _ _ _ Hst) as (A & F & I & _). pose proof (mi_root_dom _ _ _ _ _ _ _ _ _ _ _ _ I) as Hrd.
  pose proof (mi_brep _ _ _ _ _ _ _ _ _ _ _ _ I) as R. pose proof (mi_tree _ _ _ _ _ _ _ _ _ _ _ _ I) as Htr.
  assert (is_Some (N !! a)) as [n Hn] by (eapply upto_dom; [exact Hrd | exact Hup | by left]).
  rewrite (proj2 (Z.eqb_neq a bar) Hxb), (proj2 (Z.eqb_neq a bar') Hxb'). cbn [orb].
  wp_step. eapply wp_started_get; [exact Hst | by eexists | done | |].
  2:{ intros w' Hm Hs'. cbn [Z.eqb]. wp_step. apply HE; [by left | by eapply started_closing]. }
  intros m w1 Hh. assert (m ≠ 0) as Hm by (by destruct Hh as (_ & _ & _ & ? & _)).
  rewrite (proj2 (Z.eqb_neq m 0) Hm). wp_step. apply wp_push.
  2:{ intros Hm'. change (negb (- ENOMEM =? 0)) with true. cbn iota. wp_step.
      eapply wp_half_unpin; [exact Hh | set_solver |]. intros w2 Hs2. wp_step.
      apply HE; [right; by left | by eapply started_closing]. }
  intros s1 Hp. cbn [negb Z.eqb]. pose proof (half_pushed _ _ _ _ _ _ _ _ _ _ _ _ _ _ Hh Hp ltac:(done)) as Hs1.
  pose proof (pushed_pins _ _ _ Hp Hm) as Epins. cbn [e_host] in Epins. destruct Hp as [Ee Er].
  wp_step. eapply wp_started_freeze; [exact Hs1 | exact Hn | set_solver |]. intros w2 Hs2.
  destruct (rep_aligned _ _ _ _ R _ (tree_parent _ _ _ _ Htr Hn)) as [_ Hp0]. rewrite (proj2 (Z.eqb_neq _ _) Hp0).
  rewrite Ee, alter_last.
  pose proof (started_note _ _ _ _ _ _ _ _ _ _ (n_parent n) Hs2 Ee ltac:(intros _; by exists n)) as Hs3.
  set (e := set_eup (n_parent n) (Ent a 0 m d false)) in *.
  assert (Epins3 : pins (set_e (ms_e s ++ [e]) s1) = {[a]} ∪ pins s).
  { unfold pins. cbn [ms_e set_e]. rewrite pinned_app, (pinned_cons e []) by done.
    rewrite list_to_set_app_L. simpl. set_solver. }
  assert (Hup' : upto r N (n_parent n) (lt ++ drop i lf)).
  { inversion Hup as [E1 E2 | d' n' l0 Hn' Hne Hup' E1 E2]; [| congruence]. exfalso.
    assert (drop i lf = []) as E by (by destruct lt). apply (f_equal length) in E. rewrite length_drop in E. simpl in E. lia. }
  eapply (IH hops _ _ _ _ _ (news ++ [e])); [exact Hup' | done | done | lia | | exact Hs3 | rewrite Epins3; set_solver | | | done].
  - intros x Hxl. destruct (Hx x ltac:(by right)) as (? & ? & ? & ?). split_and!; [done | done | done |]. rewrite Epins3.
    intros [->%elem_of_singleton | ?]%elem_of_union; [| done]. apply upto_nodup in Hup.
    simpl in Hup. apply NoDup_cons in Hup as [Hup _]. apply Hup, elem_of_app. by left.
  - cbn [ms_e set_e]. rewrite Es, <- !app_assoc. done.
  - intros w3 s3 l' Hs4 El Eh Hby Er'. cbn [ms_e set_e] in El. eapply (HQ w3 s3 (e :: l')).
    + eapply started_mono; [exact Hs4 | set_solver].
    + by rewrite El, <- app_assoc.
    + by rewrite fmap_cons, Eh.
    + by constructor.
    + rewrite Er', rest_set_e. done.
Qed.
(** Entries that are not pinned are rewritten. *)
Lemma started_rewrite w s G l :
  st w s G → pinned l = pinned (ms_e s) → (∀ e, e ∈ l → e_m e ≠ 0 → e ∈ ms_e s) → ups_ok N l → st w (set_e l s) G.
Proof.
  intros [(A & F & I & HF & Hok) Hu Hl] Ep Hin Hup.
  assert (pins (set_e l s) = pins s) as Es by (unfold pins; cbn [ms_e set_e]; by rewrite Ep).
  split; [| done | done]. exists A, F. rewrite Es. split_and!; [done | done |]. cbn [ms_e set_e].
  split; [rewrite Ep; apply Hok |]. intros e He H0. apply Hok; [by apply Hin | done].
Qed.

Lemma half_alter w s G h m pre e post :
  half k r N T P w s G h m → ms_e s = pre ++ e :: post → e_host e = h → e_m e = 0 →
  st w (set_e (pre ++ set_em m e :: post) s) G.
Proof.
  intros (Hl & Hu & Hx & Hm0 & A & F & I & HF & Hm & Hok) Es Eh E0.
  assert (Hold : pinned (ms_e s) = pinned pre ++ pinned post) by (rewrite Es, pinned_app, (pinned_skip e post) by done; done).
  assert (Hnew : pinned (pre ++ set_em m e :: post) = pinned pre ++ h :: pinned post).
  { rewrite pinned_app, (pinned_cons (set_em m e)) by done. cbn [set_em e_host]. by rewrite Eh. }
  assert (Ep : pins (set_e (pre ++ set_em m e :: post) s) = {[h]} ∪ pins s).
  { unfold pins. cbn [ms_e set_e]. rewrite Hnew, Hold, !list_to_set_app_L. simpl. set_solver. }
  split; [| | done].
  - exists A, F. rewrite Ep. split_and!; [done | done |]. cbn [ms_e set_e]. split.
    + rewrite Hnew. rewrite <- Permutation_middle. constructor; [| rewrite <- Hold; apply Hok].
      rewrite <- Hold. intros ?. apply Hx. by apply elem_of_list_to_set.
    + intros e' [He | [-> | He]%elem_of_cons]%elem_of_app H0.
      * apply Hok; [rewrite Es; apply elem_of_app; by left | done].
      * cbn [set_em e_host e_m]. rewrite Eh. split; [done | set_solver].
      * apply Hok; [rewrite Es; apply elem_of_app; right; by right | done].
  - cbn [ms_e set_e]. intros e' [He | [-> | He]%elem_of_cons]%elem_of_app.
    + apply Hu. rewrite Es. apply elem_of_app. by left.
    + apply (Hu e). rewrite Es. apply elem_of_app. right. by left.
    + apply Hu. rewrite Es. apply elem_of_app. right. by right.
Qed.

Lemma alter_middle {X} (f : X → X) pre e post : alter f (length pre) (pre ++ e :: post) = pre ++ f e :: post.
Proof. induction pre as [| x pre IH]; [done |]. simpl. by rewrite <- IH. Qed.

(** The old chain below the shared ancestor is pinned. *)
Lemma wp_chains_pin d os : ∀ pre post s w G (Q : bool * mnt_shift → mworld → Prop),
  ms_e s = pre ++ os ++ post → Forall (λ e, e_by e = d ∧ e_m e = 0) os → NoDup (e_host <$> os) →
  (∀ e, e ∈ os → e_host e ∈ dom (counts r N P) ∧ e_host e ∉ pins s) → st w s G →
  (∀ w' s' os', st w' s' G → ms_e s' = pre ++ os' ++ post → e_host <$> os' = e_host <$> os →
     Forall (λ e, e_by e = d ∧ e_m e ≠ 0) os' → rest s' = rest s → Q (true, s') w') →
  wp (chains_pin (length os) (length pre) s) Q w.
Proof.
  induction os as [| e os IH]; intros pre post s w G Q Es Hby Hnd Hx Hst HQ.
  { cbn [length chains_pin]. wp_step. by apply (HQ w s []). }
  apply Forall_cons in Hby as [[Ed E0] Hby]. rewrite fmap_cons in Hnd. apply NoDup_cons in Hnd as [Hni Hnd].
  destruct (Hx e ltac:(by left)) as [Hc Hp]. cbn [length chains_pin]. cbn [app] in Es.
  rewrite Es at 1. rewrite list_lookup_middle by done.
  wp_step. eapply wp_started_pin; [exact Hst | done | done |]. intros m w1 Hh.
  assert (m ≠ 0) as Hm by (by destruct Hh as (_ & _ & _ & ? & _)). rewrite (proj2 (Z.eqb_neq m 0) Hm).
  rewrite Es, alter_middle.
  pose proof (half_alter _ _ _ _ _ _ _ _ Hh Es eq_refl E0) as Hs1.
  set (s1 := set_e (pre ++ set_em m e :: os ++ post) s) in *.
  replace (S (length pre)) with (length (pre ++ [set_em m e])) by (rewrite length_app; simpl; lia).
  assert (pins s1 ⊆ {[e_host e]} ∪ pins s) as Hpins.
  { unfold pins, s1. cbn [ms_e set_e]. rewrite Es, !pinned_app, (pinned_cons (set_em m e)), (pinned_skip e) by done.
    rewrite !list_to_set_app_L. cbn [set_em e_host list_to_set]. set_solver. }
  eapply (IH (pre ++ [set_em m e]) post s1 w1 G); [| done | done | | exact Hs1 |].
  - unfold s1. cbn [ms_e set_e]. by rewrite <- app_assoc.
  - intros e' He'. destruct (Hx e' ltac:(by right)) as [? ?]. split; [done |].
    intros [E%elem_of_singleton | ?]%Hpins%elem_of_union; [| done].
    apply Hni. rewrite <- E. apply list_elem_of_fmap. eauto.
  - intros w' s' os' Hs' E' Eh' Hby' Er'. apply (HQ w' s' (set_em m e :: os')).
    + done.
    + by rewrite E', <- app_assoc.
    + rewrite !fmap_cons, Eh'. done.
    + by constructor.
    + by rewrite Er'.
Qed.
(** The first ancestor that two dentries share. *)
Lemma shared_split from lf a lt :
  upto r N from lf → upto r N a lt →
  ∃ lt' i, lt = lt' ++ drop i lf ∧ (i < length lf)%nat ∧ ∀ x, x ∈ lt' → x ∉ lf.
Proof.
  intros Hf. assert (Hin : ∀ x lx, upto r N x lx → x ∈ lf → ∃ lt' i, lx = lt' ++ drop i lf ∧ (i < length lf)%nat ∧
    ∀ y, y ∈ lt' → y ∉ lf).
  { intros x lx Hx Hxf. destruct (upto_suffix _ _ _ _ _ Hf Hxf) as (l' & Hl' & [pre E]).
    rewrite (upto_det _ _ _ _ _ Hx Hl'). exists [], (length pre). rewrite E, drop_app_length, length_app.
    split_and!; [done | | by intros ? ?%not_elem_of_nil]. destruct (upto_head _ _ _ _ Hl') as [? ->]. simpl. lia. }
  induction 1 as [| a n l Hn Hr Hl IH].
  - apply (Hin r); [constructor |]. clear -Hf. induction Hf as [| d n l Hn Hr Hl IH]; [by left | by right].
  - destruct (decide (a ∈ lf)) as [Ha | Ha]; [apply (Hin a); [by econstructor | done] |].
    destruct IH as (lt' & i & -> & Hi & Hx). exists (a :: lt'), i. split_and!; [done | done |].
    intros x [-> | ?]%elem_of_cons; [done | by apply Hx].
Qed.

(** What the chains of a move add to a set: the old ancestors lose [d], the new ones get
    it, and those that both have are noted and no more. *)
Record chains_ents (d : Z) (old new : list Z) (l : list mnt_ent) : Prop := {
  ce_split : ∃ os zs news, l = os ++ zs ++ news ∧
    e_host <$> os = old ∧ Forall (λ e, e_by e = - d ∧ e_m e ≠ 0) os ∧
    Forall (λ e, e_by e = 0 ∧ e_m e = 0 ∧ e_up e = 0) zs ∧
    e_host <$> news = new ∧ Forall (λ e, e_by e = d ∧ e_m e ≠ 0) news;
}.

Lemma ent_range_eq e0 os news i :
  (i ≤ length os)%nat →
  ent_range (length e0 + i) (length (e0 ++ os)) (λ e, set_eup 0 (set_eby 0 e)) (e0 ++ os ++ news) =
  e0 ++ take i os ++ ((λ e, set_eup 0 (set_eby 0 e)) <$> drop i os) ++ news.
Proof.
  intros Hi. unfold ent_range. rewrite length_app.
  replace (length e0 + length os - (length e0 + i))%nat with (length os - i)%nat by lia.
  rewrite take_app_add, drop_app_add, drop_app_add, drop_app_length, take_app_le, <- !app_assoc by done.
  rewrite drop_app_le by done. rewrite take_app_le by (rewrite length_drop; lia).
  rewrite (take_ge (drop i os)) by (rewrite length_drop; lia). done.
Qed.

Lemma pinned_none l : Forall (λ e, e_m e = 0) l → pinned l = [].
Proof. induction 1 as [| e l H0 _ IH]; [done |]. by rewrite pinned_skip. Qed.

(** What becomes of the old chain: the part below the shared ancestor, and the rest. *)
Abbreviation os := (λ c lf i, take i (olds c lf)).
Abbreviation zs := (λ c lf i, (λ e, set_eup 0 (set_eby 0 e)) <$> drop i (olds c lf)).

Lemma olds_below c lf i : Forall (λ e, e_by e = - c ∧ e_m e = 0) (os c lf i).
Proof. apply Forall_forall. intros e He. destruct (olds_free c lf e) as [? ?]; [eapply subseteq_take, He | done]. Qed.

Lemma olds_above c lf i : Forall (λ e, e_by e = 0 ∧ e_m e = 0 ∧ e_up e = 0) (zs c lf i).
Proof.
  apply Forall_forall. intros e (e' & -> & He')%list_elem_of_fmap. cbn. split_and!; [done | | done].
  eapply olds_free, subseteq_drop, He'.
Qed.

Lemma olds_pinned c lf i : pinned (olds c lf) = [] ∧ pinned (os c lf i) = [] ∧ pinned (zs c lf i) = [].
Proof.
  split_and!; apply pinned_none.
  - apply Forall_forall. intros e He. by apply (olds_free c lf).
  - eapply Forall_impl; [apply olds_below | naive_solver].
  - eapply Forall_impl; [apply olds_above | naive_solver].
Qed.

Lemma chains_rewritten c lf i w s G e0 news :
  st w s G → ms_e s = e0 ++ olds c lf ++ news →
  st w (set_e (e0 ++ os c lf i ++ zs c lf i ++ news) s) G.
Proof.
  intros Hs Es. destruct (olds_pinned c lf i) as (P1 & P2 & P3). apply started_rewrite; [done | | |].
  - by rewrite Es, !pinned_app, P1, P2, P3.
  - intros e He H0. rewrite Es. rewrite !elem_of_app in He. rewrite !elem_of_app. destruct He as [? | [He | [He | ?]]]; [by left | | | by right; right].
    + destruct (proj1 (Forall_forall _ _) (olds_below c lf i) e He) as [_ ?]. congruence.
    + destruct (proj1 (Forall_forall _ _) (olds_above c lf i) e He) as (_ & ? & _). congruence.
  - intros e He. rewrite !elem_of_app in He. destruct He as [He | [He | [He | He]]].
    + apply (st_ups _ _ _ _ _ _ _ _ Hs). rewrite Es. apply elem_of_app. by left.
    + apply (st_ups _ _ _ _ _ _ _ _ Hs). rewrite Es, !elem_of_app. right. left. eapply subseteq_take, He.
    + destruct (proj1 (Forall_forall _ _) (olds_above c lf i) e He) as (_ & _ & ->). done.
    + apply (st_ups _ _ _ _ _ _ _ _ Hs). rewrite Es, !elem_of_app. by do 2 right.
Qed.

Lemma wp_mnt_shift_chains s w G h h' to c lf lt i from (Q : Z * mnt_shift → mworld → Prop) :
  st w s G → G ⊆ pins s → upto r N from lf → upto r N to (lt ++ drop i lf) → (i < length lf)%nat →
  (length lf ≤ DC_LOOP_MAX)%nat → (length lt ≤ DC_LOOP_MAX)%nat →
  h ∉ lf → h' ∉ lf → (∀ x, x ∈ lt → x ∉ lf ∧ x ≠ h ∧ x ≠ h' ∧ x ∉ pins s) → (∀ x, x ∈ lf → x ∉ pins s ∧ x ∈ dom (counts r N P)) →
  (∀ w' s' l', st w' s' (G ∪ list_to_set lt) → ms_e s' = ms_e s ++ l' → chains_ents c (take i lf) lt l' →
     rest s' = rest s → Q (0, s') w') →
  (∀ w' s', mem_fails → closing k w' r N T P s' → Q (- ENOMEM, s') w') →
  wp (mnt_shift_chains s from to c h h') Q w.
Proof.
  intros Hst HG Hlf Hlt Hi Hd1 Hd2 Hh Hh' Hx Hold HQ HE. pose proof (upto_nodup _ _ _ _ Hlf) as Hnd.
  destruct (st_inv _ _ _ _ _ _ _ _ Hst) as (A & F & I & _). pose proof (mi_root_dom _ _ _ _ _ _ _ _ _ _ _ _ I) as Hrd.
  pose proof (mi_brep _ _ _ _ _ _ _ _ _ _ _ _ I) as R.
  unfold mnt_shift_chains. wp_step. eapply (wp_chains_old c h h' lf); [exact Hlf | done | exact Hst | done | done | | |].
  { intros x Hxf. apply (rep_aligned _ _ _ _ R x). eapply upto_dom; [exact Hrd | exact Hlf | done]. }
  2:{ intros s1 j Hm Hc. change (negb (- ENOMEM =? 0)) with true. cbn iota. wp_step. by apply HE. }
  intros s1 Hs1 E1 Er1. cbn [negb Z.eqb].
  assert (Hp1 : pins s1 = pins s).
  { unfold pins. rewrite E1, pinned_app, (pinned_none (olds c lf)), app_nil_r; [done |].
    apply Forall_forall. intros e He. by apply (olds_free c lf). }
  wp_step. rewrite E1. eapply (wp_chains_new c h h' (ms_e s) lf i lt _ s1 to true w G []); [exact Hlt | done | done | | | exact Hs1 | | | |].
  { lia. }
  { by rewrite Hp1. }
  { by rewrite Hp1. }
  { by rewrite E1, app_nil_r. }
  2:{ intros w2 s2 j Hm Hc. change (negb (- ENOMEM =? 0)) with true. cbn iota. wp_step. by apply HE. }
  intros w2 s2 news Hs2 E2 Eh2 Hby2 Er2. cbn [negb Z.eqb]. rewrite E1, <- app_assoc in E2.
  rewrite E2, ent_range_eq by (rewrite olds_length; lia).
  pose proof (chains_rewritten c lf i _ _ _ _ _ Hs2 E2) as Hs3. destruct (olds_pinned c lf i) as (_ & Po & Pz).
  assert (Eos : e_host <$> os c lf i = take i lf) by (by rewrite fmap_take, olds_hosts).
  replace (length (ms_e s) + i - length (ms_e s))%nat with (length (os c lf i)).
  2:{ rewrite length_take, olds_length. lia. }
  assert (Hp3 : pins (set_e (ms_e s ++ os c lf i ++ zs c lf i ++ news) s2) = pins s ∪ list_to_set lt).
  { unfold pins. cbn [ms_e set_e]. rewrite !pinned_app, Po, Pz, (pinned_all c news Hby2), Eh2. simpl. by rewrite list_to_set_app_L. }
  wp_step. eapply (wp_chains_pin (- c) (os c lf i) (ms_e s) (zs c lf i ++ news)); [done | apply olds_below | | | exact Hs3 |].
  - rewrite Eos. eapply sublist_NoDup; [done | apply sublist_take].
  - intros e He. assert (e_host e ∈ lf) as Hel.
    { eapply (subseteq_take i). rewrite <- Eos. apply list_elem_of_fmap. eauto. }
    destruct (Hold _ Hel) as [Hn1 Hn2]. split; [done |]. rewrite Hp3.
    intros [? | Hl%elem_of_list_to_set]%elem_of_union; [done |]. by destruct (Hx _ Hl) as [? _].
  - intros w4 s4 os' Hs4 E4 Eh4 Hby4 Er4. wp_step. eapply HQ; [exact Hs4 | exact E4 | |].
    + split. exists os', (zs c lf i), news. split_and!; [done | by rewrite Eh4 | done | apply olds_above | done..].
    + rewrite Er4, rest_set_e, Er2. done.
Qed.
End chains.

(** ** The changes of a move *)

Lemma by_of_app l l' x : by_of (l ++ l') x = by_of l x + by_of l' x.
Proof. induction l as [| e l IH]; simpl; [done |]. rewrite IH. lia. Qed.

Lemma by_of_plain l x : Forall (λ e, e_m e = 0) l → by_of l x = 0.
Proof. induction 1 as [| e l H0 _ IH]; [done |]. simpl. rewrite IH, decide_False by naive_solver. lia. Qed.

Lemma chains_by_of d old new l x :
  chains_ents d old new l → NoDup old → NoDup new →
  by_of l x = (if decide (x ∈ new) then d else 0) - (if decide (x ∈ old) then d else 0).
Proof.
  intros [(os & zs & news & -> & <- & Hos & Hz & <- & Hnews)] Hno Hnn. rewrite !by_of_app.
  rewrite (by_of_all (- d) os x Hos Hno), (by_of_all d news x Hnews Hnn), (by_of_plain zs).
  - destruct (decide (x ∈ e_host <$> os)), (decide (x ∈ e_host <$> news)); lia.
  - eapply Forall_impl; [exact Hz | naive_solver].
Qed.

Lemma chains_pinned d old new l : chains_ents d old new l → pinned l = old ++ new.
Proof.
  intros [(os & zs & news & -> & <- & Hos & Hz & <- & Hnews)].
  rewrite !pinned_app, (pinned_all (- d) os Hos), (pinned_all d news Hnews), (pinned_none zs); [done |].
  eapply Forall_impl; [exact Hz | naive_solver].
Qed.

Lemma started_ext k r N T P w s s' G :
  started k r N T P w s G → ms_e s' = ms_e s → ms_locked s' = ms_locked s → started k r N T P w s' G.
Proof.
  intros [(A & F & I & HF & Hok) Hu Hl] Ee El. assert (pins s' = pins s) as Ep by (unfold pins; by rewrite Ee).
  split; [| by rewrite Ee | congruence]. exists A, F. by rewrite Ep, Ee.
Qed.

(** A set that is let go of. *)
Definition dropped (s : mnt_shift) : mnt_shift := set_selves 0 0 0 0 (set_for 0 0 (set_e [] s)).

Lemma wp_closing_drop k w r N T P s (Q : mnt_shift → mworld → Prop) :
  closing k w r N T P s → (∀ w', closing k w' r N T P (dropped s) → Q (dropped s) w') → wp (mnt_shift_drop s) Q w.
Proof.
  intros (A & C & F & I & Hok & Hs & HF) HQ. eapply wp_mnt_shift_drop; [exact I | done |]. rewrite Hs.
  intros w1 A1 I1. apply HQ. exists A1, (counts r N P), (F ∩ dom (counts r N P)).
  assert (pins (dropped s) = ∅) as -> by done. rewrite settle_none. split_and!; [exact I1 | | done |].
  - split; [constructor | by intros ? ?%not_elem_of_nil].
  - intros x Hx. apply elem_of_intersection. split; [by apply HF | done].
Qed.

Lemma wp_closing_unlock k w r N T P s (Q : mnt_shift → mworld → Prop) :
  closing k w r N T P s → (∀ w', closing k w' r N T P (set_locked false s) → Q (set_locked false s) w') →
  wp (mnt_shift_unlock s) Q w.
Proof.
  intros (A & C & F & I & Hok & Hs & HF) HQ. eapply wp_mnt_shift_unlock; [exact I |]. intros w1 I1. apply HQ.
  exists A, C, F. by split_and!.
Qed.

Lemma wp_mnt_fail k r N T P ret w s (Q : Z * mnt_shift → mworld → Prop) :
  ret < 0 → closing k w r N T P s → (∀ w' s', closing k w' r N T P s' → Q (ret, s') w') → wp (mnt_fail ret s) Q w.
Proof.
  intros Hr Hc HQ. unfold mnt_fail. wp_step. eapply wp_closing_drop; [exact Hc |]. intros w1 Hc1. wp_step.
  rewrite (proj2 (Z.ltb_lt _ _) Hr). by apply HQ.
Qed.

(** What is above a dentry with a count has one. *)
Lemma counted_above r N P h l x :
  tree r N → P ⊆ dom N → upto r N h l → x ∈ l → mcount r N P h ≠ 0 → x ∈ dom (counts r N P).
Proof.
  intros Ht HP Hl Hx Hc. destruct (set_choose_or_empty (points_below r N P h)) as [[p Hp] | E].
  2:{ destruct Hc. unfold mcount. apply leibniz_equiv in E. by rewrite E. }
  apply points_below_spec in Hp as [Hp Hs]. destruct (t_up _ _ Ht p) as [lp Hlp]; [by apply elem_of_dom, HP |].
  apply (subdir_upto r N Ht p h lp Hlp) in Hs. destruct (upto_suffix _ _ _ _ _ Hlp Hs) as (l' & Hl' & [pre ->]).
  rewrite (upto_det _ _ _ _ _ Hl' Hl) in *.
  assert (is_Some (N !! x)) as Hxs.
  { destruct (t_root _ _ Ht) as (rn & Hrn & _). eapply upto_dom; [by eexists | exact Hl | done]. }
  apply elem_of_dom. exists (mcount r N P x). apply counts_lookup. split_and!; [done | done |].
  pose proof (mcount_above r N Ht P p (pre ++ l) x Hlp Hp ltac:(apply elem_of_app; by right)). lia.
Qed.

(** From the first that both sides have upwards nothing changes. *)
Lemma sides_split (lf lt : list Z) i (v x : Z) :
  NoDup lf → (∀ y, y ∈ lt → y ∉ lf) →
  (if decide (x ∈ lt ++ drop i lf) then v else 0) - (if decide (x ∈ lf) then v else 0) =
  (if decide (x ∈ lt) then v else 0) - (if decide (x ∈ take i lf) then v else 0).
Proof.
  intros Hnd Hnew. rewrite <- (take_drop i lf) in Hnd. apply NoDup_app in Hnd as (_ & Hdis & _).
  specialize (Hdis x). specialize (Hnew x).
  assert (x ∈ lf ↔ x ∈ take i lf ∨ x ∈ drop i lf) as Hf by (rewrite <- elem_of_app, take_drop; done).
  assert (x ∈ lt ++ drop i lf ↔ x ∈ lt ∨ x ∈ drop i lf) as Hl by apply elem_of_app.
  repeat case_decide; try lia; exfalso; naive_solver.
Qed.

(** ** What moves *)

Section self.
Context `{HL : Layout} `{!LayoutOk HL} `{HC : Calloc} `{!CallocOk HC} `{HR : Realloc} `{HT : MntTxn} `{!MntTxnOk HT}.
Variables (k : nat) (r : Z) (N : nspace) (T : gmap Z Z) (P : gset Z).
Abbreviation st := (started k r N T P).

Lemma wp_started_absent w s G h (Q : Z → mworld → Prop) :
  st w s G → h ∉ dom (counts r N P) → h ∉ pins s → (∀ w', st w' s G → Q 0 w') → wp (mnt_pin h) Q w.
Proof.
  intros [(A & F & I & HF & Hok) Hu Hl] Hh Hx HS. eapply wp_mnt_pin; [exact I | set_solver | done | |].
  - intros m w' HA _. exfalso. apply elem_of_dom_2 in HA.
    rewrite (mr_dom _ _ _ _ _ _ _ (mi_rep _ _ _ _ _ _ _ _ _ _ _ _ I)), zeros_dom in HA. set_solver.
  - intros w' _ I'. apply HS. split; [by exists A, F | done | done].
Qed.

(** Its object, if there is a mountpoint at or below it, pinned and put in the set. *)
Lemma wp_mnt_shift_self w s G h n (Q : Z * mnt_shift * Z * Z → mworld → Prop) :
  st w s G → N !! h = Some n → h ∉ pins s → h ∉ G →
  (mcount r N P h = 0 → ∀ w', st w' s G → Q (0, s, 0, 0) w') →
  (mcount r N P h ≠ 0 → ∀ w' s' m, m ≠ 0 → st w' s' G → pushed s s' (Ent h (n_parent n) m 0 true) →
     Q (0, s', m, mcount r N P h) w') →
  (∀ w' c, mem_fails → st w' s G → Q (- ENOMEM, s, 0, c) w') →
  wp (mnt_shift_self s h (n_parent n)) Q w.
Proof.
  intros Hs Hn Hx HG H0 HS HE. unfold mnt_shift_self.
  destruct (decide (mcount r N P h = 0)) as [Hc | Hc].
  - wp_step. eapply wp_started_absent; [exact Hs | | done |].
    { intros [v (_ & -> & ?)%counts_lookup]%elem_of_dom. done. }
    intros w1 Hs1. cbn [Z.eqb]. wp_step. by apply H0.
  - wp_step. eapply wp_started_pin; [exact Hs | | done |].
    { apply elem_of_dom. eexists. apply counts_lookup. split_and!; [by eexists | done | done]. }
    intros m w1 Hh. assert (m ≠ 0) as Hm by (by destruct Hh as (_ & _ & _ & ? & _)). rewrite (proj2 (Z.eqb_neq m 0) Hm).
    wp_step. eapply (wp_run _ _ _ (mcount r N P h)).
    { destruct Hh as (_ & _ & _ & _ & A & F & I & _ & HA & _). eapply mnt_read_run; [exact I | exact HA |].
      rewrite zeros_lookup, decide_True, counts_default; [done | by eexists | set_solver]. }
    wp_step. apply wp_push.
    + intros s1 Hp. cbn [negb Z.eqb]. wp_step. apply HS; [done | done | | done].
      eapply half_pushed; [exact Hh | exact Hp | intros _; by exists n].
    + intros Hm'. change (negb (- ENOMEM =? 0)) with true. cbn iota. wp_step.
      eapply wp_half_unpin; [exact Hh | done |]. intros w2 Hs2. wp_step. apply HE; [right; by left | done].
Qed.

(** ... and what the set is then. *)
Definition self_ents (h : Z) (n : node) (m : Z) : list mnt_ent :=
  if m =? 0 then [] else [Ent h (n_parent n) m 0 true].
Record grown (s s' : mnt_shift) (h : Z) (n : node) (m : Z) : Prop := {
  gr_ents : ms_e s' = ms_e s ++ self_ents h n m;
  gr_rest : rest s' = rest s;
  gr_none : m = 0 ↔ mcount r N P h = 0;
}.

Lemma wp_self_grown w s G h n (Q : Z * mnt_shift * Z * Z → mworld → Prop) :
  st w s G → N !! h = Some n → h ∉ pins s → h ∉ G →
  (∀ w' s' m, st w' s' G → grown s s' h n m → Q (0, s', m, mcount r N P h) w') →
  (∀ w' c, mem_fails → st w' s G → Q (- ENOMEM, s, 0, c) w') →
  wp (mnt_shift_self s h (n_parent n)) Q w.
Proof.
  intros Hs Hn Hx HG HQ HE. eapply wp_mnt_shift_self; [exact Hs | exact Hn | done | done | | | exact HE].
  - intros Hc w1 Hs1. specialize (HQ w1 s 0 Hs1). rewrite Hc in HQ. apply HQ. split; [by rewrite app_nil_r | done | done].
  - intros Hc w1 s1 m Hm Hs1 [Ee Er]. apply HQ; [done |]. split; [| done | done].
    unfold self_ents. by rewrite (proj2 (Z.eqb_neq m 0) Hm).
Qed.
End self.

(** ** The commit *)

Lemma wp_regroup {S X Y V} (m : ST S X) (f : X → ST S Y) (g : Y → ST S V) (Q : V → S → Prop) s :
  wp (let! x := m in f x) (λ y s', wp (g y) Q s') s → wp (let! x := m in let! y := f x in g y) Q s.
Proof. unfold wp, st_bind. destruct (m s) as [[x s1] |]; [| done]. by destruct (f x s1) as [[y s2] |]. Qed.

(** The engine's part of the commit, from any state of the cache that stands for [N]. *)
Definition mover_ok (k : nat) (r : Z) (N N' : nspace) (T : gmap Z Z) (mv : bworld → option bworld) : Prop :=
  ∀ bw, sect k bw N T ∅ ∅ [] → bw_root bw = r →
    match mv bw with Some bw' => (∃ T', sect k bw' N' T' ∅ ∅ []) ∧ bw_root bw' = r | None => True end.

(** ... and its commit is out of memory. *)
Definition mover_fails (k : nat) (N : nspace) (T : gmap Z Z) (mv : bworld → option bworld) : Prop :=
  ∃ bw, sect k bw N T ∅ ∅ [] ∧ mv bw = None.

(** The set [s] is what changes between [N] and [N']: the counts of [old] lose [d], those
    of [new] get it; what moves is pinned and keeps its own. *)
Record moveset (r : Z) (N N' : nspace) (P : gset Z) (d : Z) (old new : list Z) (s : mnt_shift) : Prop := {
  ms_dom : ∀ x, is_Some (N' !! x) ↔ is_Some (N !! x);
  ms_points : P ⊆ dom N;
  ms_size : Z.of_nat (size N) < 2 ^ 62;
  ms_pos : 0 ≤ d;
  ms_count : ∀ x, mcount r N' P x =
    mcount r N P x + (if decide (x ∈ new) then d else 0) - (if decide (x ∈ old) then d else 0);
  ms_nodup : NoDup (old ++ new);
  ms_known : ∀ x, x ∈ old ++ new → is_Some (N !! x);
  ms_ents : ∃ selves l, ms_e s = selves ++ l ∧ chains_ents d old new l ∧
    Forall (λ e, e_by e = 0 ∧ e_m e ≠ 0 ∧ is_Some (N !! e_host e) ∧ e_host e ∉ old ++ new) selves;
}.

Section moveset.
Context `{HL : Layout} `{!LayoutOk HL}.
Variables (k : nat) (r : Z) (N N' : nspace) (T : gmap Z Z) (P : gset Z) (d : Z) (old new : list Z) (s : mnt_shift).
Hypothesis HS : moveset r N N' P d old new s.

Lemma by_of_zero l x : Forall (λ e, e_by e = 0) l → by_of l x = 0.
Proof. induction 1 as [| e l H0 _ IH]; [done |]. simpl. rewrite IH, H0. destruct (decide _); lia. Qed.

Lemma moveset_by_of x : by_of (ms_e s) x = (if decide (x ∈ new) then d else 0) - (if decide (x ∈ old) then d else 0).
Proof.
  destruct (ms_ents _ _ _ _ _ _ _ _ HS) as (selves & l & -> & Hce & Hse).
  destruct (proj1 (NoDup_app _ _) (ms_nodup _ _ _ _ _ _ _ _ HS)) as (Ho & _ & Hn).
  rewrite by_of_app, (chains_by_of _ _ _ _ x Hce Ho Hn), by_of_zero; [lia |].
  eapply Forall_impl; [exact Hse | naive_solver].
Qed.

Lemma moveset_pins x : x ∈ pins s → is_Some (N !! x).
Proof.
  destruct (ms_ents _ _ _ _ _ _ _ _ HS) as (selves & l & E & Hce & Hse). unfold pins.
  rewrite E, pinned_app, (chains_pinned _ _ _ _ Hce), elem_of_list_to_set, elem_of_app.
  intros [(e & He & <- & _)%elem_of_pinned | Hx]; [| by apply (ms_known _ _ _ _ _ _ _ _ HS)].
  by destruct (proj1 (Forall_forall _ _) Hse e He) as (_ & _ & ? & _).
Qed.

Lemma moveset_listed x : x ∈ old ++ new → x ∈ pins s.
Proof.
  intros Hx. destruct (ms_ents _ _ _ _ _ _ _ _ HS) as (selves & l & E & Hce & Hse). unfold pins.
  rewrite E, pinned_app, (chains_pinned _ _ _ _ Hce). apply elem_of_list_to_set, elem_of_app. by right.
Qed.

Lemma moveset_by e : e ∈ ms_e s → e_m e ≠ 0 → e_by e = by_of (ms_e s) (e_host e).
Proof.
  rewrite moveset_by_of. destruct (ms_ents _ _ _ _ _ _ _ _ HS) as (selves & l & -> & Hce & Hse).
  destruct (proj1 (NoDup_app _ _) (ms_nodup _ _ _ _ _ _ _ _ HS)) as (_ & Hdis & _).
  intros [He | He]%elem_of_app H0.
  - destruct (proj1 (Forall_forall _ _) Hse e He) as (-> & _ & _ & Hx). rewrite elem_of_app in Hx.
    rewrite !decide_False by naive_solver. done.
  - destruct Hce as [(os & zs & news & -> & <- & Hos & Hz & <- & Hnews)]. rewrite !elem_of_app in He.
    destruct He as [He | [He | He]].
    + assert (e_host e ∈ e_host <$> os) as Hh by (apply list_elem_of_fmap; eauto).
      rewrite decide_False, decide_True by (done || by apply Hdis).
      destruct (proj1 (Forall_forall _ _) Hos e He) as [-> _]. lia.
    + by destruct (proj1 (Forall_forall _ _) Hz e He) as (_ & ? & _).
    + assert (e_host e ∈ e_host <$> news) as Hh by (apply list_elem_of_fmap; eauto).
      rewrite decide_True, decide_False by (done || intros ?; by eapply Hdis).
      destruct (proj1 (Forall_forall _ _) Hnews e He) as [-> _]. lia.
Qed.

Lemma moveset_count x : mcount r N' P x = mcount r N P x + by_of (ms_e s) x.
Proof. rewrite moveset_by_of, (ms_count _ _ _ _ _ _ _ _ HS). lia. Qed.

Lemma moveset_by_ok : by_ok (counts r N P ∪ zeros (pins s)) (ms_e s).
Proof.
  intros e He H0. assert (Hp : e_host e ∈ pins s) by (apply elem_of_list_to_set, elem_of_pinned; eauto).
  exists (mcount r N P (e_host e)). split.
  - rewrite zeros_lookup, decide_True, counts_default by (done || by apply moveset_pins). done.
  - rewrite (moveset_by e He H0), <- moveset_count. split; [apply mcount_nonneg |].
    pose proof (ms_dom _ _ _ _ _ _ _ _ HS) as Hdom. pose proof (ms_size _ _ _ _ _ _ _ _ HS).
    eapply Z.le_lt_trans; [apply mcount_size |].
    + intros x Hx%(ms_points _ _ _ _ _ _ _ _ HS). apply elem_of_dom, Hdom. by apply elem_of_dom.
    + replace (size N') with (size N); [done |]. rewrite <- !size_dom. f_equal. apply set_eq. intros x.
      rewrite !elem_of_dom. symmetry. apply Hdom.
Qed.

Lemma moveset_closing w A F T' :
  dom (counts r N P) ∪ list_to_set new ⊆ F → ents_ok A (pins s) (ms_e s) →
  minv k w r N' T' [] A (bump (ms_e s) (counts r N P ∪ zeros (pins s))) (pins s) F P (shift_held s) →
  closing k w r N' T' P s.
Proof.
  intros HF Hok I. pose proof (ms_dom _ _ _ _ _ _ _ _ HS) as Hdom. eexists A, _, F. split_and!; [exact I | done | |].
  - apply settle_done; [done | intros x Hx; by apply elem_of_dom, moveset_pins | by intros x _; apply moveset_count |].
    intros x Hx. rewrite moveset_by_of.
    rewrite !decide_False; [done | |]; intros ?; apply Hx, moveset_listed, elem_of_app; auto.
  - intros x [v (Hx & -> & Hv)%counts_lookup]%elem_of_dom. apply HF, elem_of_union.
    destruct (decide (x ∈ new)) as [Hl | Hl]; [right; by apply elem_of_list_to_set | left].
    apply elem_of_dom. exists (mcount r N P x). apply counts_lookup. apply Hdom in Hx. split_and!; [done | done |].
    pose proof (mcount_nonneg r N' P x) as Hnn. pose proof (ms_pos _ _ _ _ _ _ _ _ HS).
    rewrite (ms_count _ _ _ _ _ _ _ _ HS), (decide_False (P := _ ∈ new)) in Hnn, Hv by done.
    destruct (decide (x ∈ old)); lia.
Qed.

Lemma minv_moved w bw T' A C Z0 F B :
  (∀ x, is_Some (N' !! x) ↔ is_Some (N !! x)) →
  minv k w r N T [] A C Z0 F P B → sect k bw N' T' ∅ ∅ [] → bw_root bw = r →
  minv k (set_bw bw w) r N' T' [] A C Z0 F P B.
Proof.
  intros Hdom [Hb Hr R Hd HP] S Er. split; msimpl; [done | done | by destruct R | |].
  - intros x Hx%Hd. apply elem_of_dom, Hdom. by apply elem_of_dom.
  - intros x Hx%HP. apply elem_of_dom, Hdom. by apply elem_of_dom.
Qed.

Lemma mnt_commit_cases mv w l (Q : bool → mworld → Prop) A C Z0 F B :
  mover_ok k r N N' T mv → minv k w r N T [] A C Z0 F P B →
  (∀ bw T', sect k bw N' T' ∅ ∅ [] → bw_root bw = r → Q true (mrecs_apply l (set_bw bw w))) →
  (mover_fails k N T mv → Q false w) → wp (carry_commit mv l) Q w.
Proof.
  intros Hmv I HQ HE. unfold wp, carry_commit.
  specialize (Hmv (mw_bw w) (mi_bw _ _ _ _ _ _ _ _ _ _ _ _ I) (mi_root _ _ _ _ _ _ _ _ _ _ _ _ I)).
  destruct (mv (mw_bw w)) as [bw |] eqn:E; [destruct Hmv as ((T' & S) & Er); by eapply HQ | apply HE].
  exists (mw_bw w). split; [apply I | done].
Qed.

(** The records of the set and the engine's own, in one commit. *)
Lemma wp_moveset_commit mv w A F (Q : bool → mworld → Prop) :
  mover_ok k r N N' T mv → dom (counts r N P) ∪ list_to_set new ⊆ F → ents_ok A (pins s) (ms_e s) →
  minv k w r N T [] A (counts r N P ∪ zeros (pins s)) (pins s) F P (shift_held s) →
  (∀ w' T', closing k w' r N' T' P s → Q true w') →
  (mover_fails k N T mv → closing k w r N T P s → Q false w) →
  wp (let! l := mnt_shift_record s in carry_commit mv l) Q w.
Proof.
  intros Hmv HF Hok I HQ HE. pose proof moveset_by_ok as Hby. wp_step. unfold mnt_shift_record.
  eapply wp_run; [by eapply shift_records_run |]. eapply mnt_commit_cases; [exact Hmv | exact I | |].
  - intros bw T' S Er. pose proof (minv_moved _ _ _ _ _ _ _ _ (ms_dom _ _ _ _ _ _ _ _ HS) I S Er) as I2.
    apply (HQ _ T'), (moveset_closing _ A F); [done | done |]. by eapply mrecs_apply_inv.
  - intros Hf. apply HE; [done |]. exists A, (counts r N P ∪ zeros (pins s)), F.
    split_and!; [done | done | apply settle_failed | set_solver].
Qed.
End moveset.

Lemma closing_stat k w r N T P s x :
  closing k w r N T P s → s_objs x = s_objs (mw_stat w) → closing k (set_stat x w) r N T P s.
Proof. intros (A & C & F & I & H) Hx. exists A, C, F. split; [by apply minv_stat | done]. Qed.

(** What a move or an exchange leaves, once its code is known: the table is exact for the
    name space that was published. *)
Section post.
Context `{HC : Calloc} `{HR : Realloc} `{HT : MntTxn}.
Variables (k : nat) (r : Z) (N N' : nspace) (T : gmap Z Z) (P : gset Z) (mv : bworld → option bworld).

Definition carry_post (ret : Z) (w' : mworld) : Prop :=
  ret = 0 ∧ (∃ T', mquiet k w' r N' T' P) ∨
  ret = - ENOMEM ∧ (mem_fails ∨ mover_fails k N T mv) ∧ mquiet k w' r N T P.
Definition carry_end (x : mnt_shift + Z * mnt_shift) (w' : mworld) : Prop :=
  ∃ ret s', x = inr (ret, s') ∧
    (ret = 0 ∧ (∃ T', closing k w' r N' T' P s') ∨
     ret = - ENOMEM ∧ (mem_fails ∨ mover_fails k N T mv) ∧ closing k w' r N T P s').

Lemma wp_carry_end x w : carry_end x w →
  match x with inr (ret, s) => wp (let! _ := mnt_shift_end s in st_ret ret) carry_post w | inl _ => False end.
Proof.
  intros (ret & s' & -> & [(-> & T' & Hc) | (-> & Hm & Hc)]); wp_step; (eapply wp_mnt_shift_end; [exact Hc |]);
    intros s2 w2 Hq2; wp_step; [left; eauto | by right].
Qed.
End post.
