(* ===== verification/MountCarry.v ===== *)
(** A move takes its mountpoints with it: the set of a move, worked out and committed. *)

From S2P Require Import Prelude Qstr HList Lru World Walk Namespace TreeOps Paths BlChain BlLists BlLru BlWorld BlWalk.
From S2P Require Import BlOps BlMove BlInv BlReads BlWalkSpec BlLocks BlRep BlSect Mount MountRep MountSet MountSpec.
From S2P Require Import MountClimb MountOps MountChains.

(** ** The move *)

(** [N'] is [N] with [h] moved from the directory [from] to the directory [to], which
    is not below it. *)
Record moves (r : Z) (N N' : nspace) (h from to : Z) : Prop := {
  mv_tree : tree r N;
  mv_tree' : tree r N';
  mv_root : h ≠ r;
  mv_old : n_parent <$> N !! h = Some from;
  mv_new : n_parent <$> N' !! h = Some to;
  mv_same : ∀ x, x ≠ h → N' !! x = N !! x;
  mv_to : is_Some (N !! to);
  mv_cycle : subdir r N to h = false;
}.

Section carry.
Context `{HL : Layout} `{!LayoutOk HL} `{HC : Calloc} `{!CallocOk HC} `{HR : Realloc} `{HT : MntTxn} `{!MntTxnOk HT}.
Variables (k : nat) (r : Z) (N N' : nspace) (T : gmap Z Z) (P : gset Z) (h from to : Z) (lf lt : list Z) (i : nat).
Variables (mv : bworld → option bworld).
Hypothesis HM : moves r N N' h from to.
Hypothesis Hlf : upto r N from lf.
Hypothesis Hlt : upto r N to (lt ++ drop i lf).
Hypothesis Hi : (i < length lf)%nat.
Hypothesis Hnew : ∀ x, x ∈ lt → x ∉ lf.
Hypothesis Hd1 : (length lf ≤ DC_LOOP_MAX)%nat.
Hypothesis Hd2 : (length lt ≤ DC_LOOP_MAX)%nat.
Hypothesis Hsz : Z.of_nat (size N) < 2 ^ 62.
Hypothesis Hmv : mover_ok k r N N' T mv.
Abbreviation c := (mcount r N P h).

Lemma carry_host : ∃ n, N !! h = Some n ∧ n_parent n = from.
Proof. pose proof (mv_old _ _ _ _ _ _ HM). destruct (N !! h) as [n |]; [| done]. simplify_eq/=. eauto. Qed.

Lemma carry_above : upto r N h (h :: lf).
Proof. destruct carry_host as (n & Hn & E). econstructor; [exact Hn | apply HM | by rewrite E]. Qed.

Lemma carry_avoid : h ∉ lf ∧ h ∉ lt.
Proof.
  split; [pose proof (upto_nodup _ _ _ _ carry_above) as H; by apply NoDup_cons in H as [? _] |].
  intros Hh. pose proof (mv_cycle _ _ _ _ _ _ HM) as H. rewrite (subdir_spec r N to h _ (mv_tree _ _ _ _ _ _ HM) Hlt) in H.
  apply bool_decide_eq_false in H. apply H, elem_of_app. by left.
Qed.

Lemma carry_new_nodup : NoDup lt.
Proof. pose proof (upto_nodup _ _ _ _ Hlt) as H. by apply NoDup_app in H as [? _]. Qed.

Lemma carry_dom x : is_Some (N' !! x) ↔ is_Some (N !! x).
Proof.
  destruct (decide (x = h)) as [-> | Hne]; [| by rewrite (mv_same _ _ _ _ _ _ HM)].
  pose proof (mv_old _ _ _ _ _ _ HM). pose proof (mv_new _ _ _ _ _ _ HM).
  destruct (N !! h), (N' !! h); try done; split; by eexists.
Qed.

Lemma carry_count x : P ⊆ dom N →
  mcount r N' P x = mcount r N P x + (if decide (x ∈ lt) then c else 0) - (if decide (x ∈ take i lf) then c else 0).
Proof.
  intros HP. destruct carry_host as (n & Hn & En). pose proof (mv_new _ _ _ _ _ _ HM) as Hn'.
  destruct (N' !! h) as [n' |] eqn:En'; [| done]. simplify_eq/=.
  rewrite (mcount_moved r N N' P h (n_parent n) (n_parent n') n n' lf (lt ++ drop i lf)); try done; try apply HM.
  2:{ pose proof (mv_cycle _ _ _ _ _ _ HM) as H. rewrite (subdir_spec r N _ h _ (mv_tree _ _ _ _ _ _ HM) Hlt) in H.
      by apply bool_decide_eq_false in H. }
  pose proof (sides_split lf lt i c x (upto_nodup _ _ _ _ Hlf) Hnew). lia.
Qed.
Lemma carry_counted x : P ⊆ dom N → c ≠ 0 → x ∈ h :: lf → x ∈ dom (counts r N P).
Proof. intros HP Hc Hx. by eapply counted_above; [apply HM | | apply carry_above | |]. Qed.

(** Step 1: the set of the move. *)
Lemma wp_mnt_move_begin w (Q : Z * mnt_shift → mworld → Prop) :
  mquiet k w r N T P → c ≠ 0 →
  (∀ w' s' m l', started k r N T P w' s' (list_to_set lt) → ms_e s' = Ent h from m 0 true :: l' → m ≠ 0 →
     chains_ents c (take i lf) lt l' → ms_for_a s' = h → ms_self_a s' = m → ms_c_a s' = c → ms_for_b s' = 0 →
     Q (0, s') w') →
  (∀ w' s', mem_fails → closing k w' r N T P s' → Q (- ENOMEM, s') w') →
  wp (mnt_move_begin MNT_SHIFT_INIT h from to) Q w.
Proof.
  intros Hq Hc HQ HE. pose proof (quiet_started _ _ _ _ _ _ s_init Hq eq_refl eq_refl) as Hs. destruct Hq as [A0 I0].
  pose proof (mi_points _ _ _ _ _ _ _ _ _ _ _ _ I0) as HP. destruct carry_host as (n & Hn & En). destruct carry_avoid as [Ha1 Ha2].
  destruct (rep_aligned _ _ _ _ (mi_brep _ _ _ _ _ _ _ _ _ _ _ _ I0) h ltac:(by eexists)) as [_ H0].
  assert (Hnz : ∀ x, x ∈ lf ∨ x ∈ lt → x ≠ 0).
  { intros x Hx. apply (rep_aligned _ _ _ _ (mi_brep _ _ _ _ _ _ _ _ _ _ _ _ I0)).
    pose proof (mi_root_dom _ _ _ _ _ _ _ _ _ _ _ _ I0). destruct Hx; [eapply (upto_dom r N) in Hlf | eapply (upto_dom r N) in Hlt]; eauto.
    apply elem_of_app. by left. }
  unfold mnt_move_begin. wp_step. eapply wp_run; [done |]. wp_step. eapply wp_run; [apply mnt_begin_run |].
  change (Z.pos DC_MNT_TRIES_MAX <? ms_tries s_init) with false. cbn iota. rewrite <- En.
  wp_step. eapply wp_mnt_shift_self; [exact Hs | exact Hn | set_solver | set_solver | done | |].
  2:{ intros w1 c1 Hm Hs1. wp_step. change (- ENOMEM =? 0) with false. cbn [andb]. wp_step. cbn [negb].
      eapply wp_mnt_fail; [done | eapply started_closing, started_ext; [exact Hs1 | done | done] |].
      intros w3 s3 Hc3. by apply HE. }
  intros _ w1 s1 m Hm Hs1 Hp. wp_step.
  pose proof (pushed_pins _ _ _ Hp Hm) as Epins. cbn [e_host] in Epins. change (pins s_init) with (∅ : gset Z) in Epins.
  destruct Hp as [Ee Er]. change (ms_e s_init) with (@nil mnt_ent) in Ee. cbn [app] in Ee.
  rewrite (proj2 (Z.eqb_neq c 0) Hc). cbn [andb negb Z.eqb].
  set (s2 := set_selves m (ms_self_b s1) c (ms_c_b s1) s1).
  assert (started k r N T P w1 s2 ∅) as Hs2 by (by eapply started_ext).
  change (pins s1) with (pins s2) in Epins. rewrite En.
  eapply (wp_mnt_shift_chains k r N T P s2 w1 ∅ h 0 to c lf lt i from); [exact Hs2 | set_solver | exact Hlf | exact Hlt | done | done | done | done | | | | |].
  - intros Hx. by destruct (Hnz 0 (or_introl Hx)).
  - intros x Hx. rewrite Epins. split_and!; [by apply Hnew | by intros -> | by apply Hnz; right | set_solver].
  - intros x Hx. rewrite Epins. split; [set_solver |]. apply carry_counted; [done | done | by right].
  - intros w3 s3 l3 Hs3 E3 Hce Er3. cbn [negb Z.eqb]. wp_step. apply rest_for in Er as [_ Eb]. unfold rest in Er3. cbn in Er3.
    apply (HQ w3 _ m l3); [eapply started_ext; [eapply started_mono; [exact Hs3 | set_solver] | done | done] | | done | done | done | | | ];
      [| cbn; congruence..].
    cbn [ms_e set_for]. rewrite E3. change (ms_e s2) with (ms_e s1). by rewrite Ee, En.
  - intros w3 s3 Hm' Hc3. change (negb (- ENOMEM =? 0)) with true. cbn iota.
    eapply wp_mnt_fail; [done | exact Hc3 |]. intros w4 s4 Hc4. by apply HE.
Qed.

(** Nothing mounted below: no count changes. *)
Lemma carry_uncounted : P ⊆ dom N → c = 0 → counts r N' P = counts r N P.
Proof.
  intros HP Hc. apply map_eq. intros x. apply option_eq. intros v. rewrite !counts_lookup, carry_dom, carry_count, Hc by done.
  destruct (decide (x ∈ lt)), (decide (x ∈ take i lf)); by rewrite Z.add_0_r, Z.sub_0_r.
Qed.

Lemma wp_carry_plain w : mquiet k w r N T P → c = 0 → wp (carry_round h from to mv MNT_SHIFT_INIT) (carry_end k r N N' T P mv) w.
Proof.
  intros [A I] Hc. destruct carry_host as (n & Hn & En). pose proof (mi_points _ _ _ _ _ _ _ _ _ _ _ _ I) as HP.
  unfold carry_round. wp_step. eapply wp_run; [eapply mnt_counted_run; [exact I | by eexists] |].
  rewrite bool_decide_eq_false_2 by (intros [v (_ & -> & ?)%counts_lookup]%elem_of_dom; done). cbn [negb].
  wp_steps. cbn [negb ms_locked MNT_SHIFT_INIT]. wp_steps. eapply mnt_commit_cases; [exact Hmv | exact I | |].
  - intros bw T' S Er. wp_steps. eexists _, _. split; [done |]. left. split; [done |]. exists T'.
    eapply started_closing, quiet_started; [| done | done]. exists A. rewrite (carry_uncounted HP Hc).
    by eapply minv_moved; [apply carry_dom | ..].
  - intros Hf. wp_steps. eexists _, _. split; [done |]. right. split_and!; [done | by right |].
    eapply started_closing, quiet_started; [| done | done]. by exists A.
Qed.

(** The set of the move, in the words of the specification. *)
Lemma carry_set s m l' :
  P ⊆ dom N → ms_e s = Ent h from m 0 true :: l' → m ≠ 0 → chains_ents c (take i lf) lt l' →
  moveset r N N' P c (take i lf) lt s.
Proof.
  intros HP Es Hm Hce. destruct carry_avoid as [Ha1 Ha2]. destruct (t_root _ _ (mv_tree _ _ _ _ _ _ HM)) as (rn & Hrn & _).
  assert (Htf : ∀ x, x ∈ take i lf → x ∈ lf) by (intros x; apply subseteq_take).
  split; [apply carry_dom | done | done | apply mcount_nonneg | by intros x; apply carry_count | | |].
  - apply NoDup_app. split_and!; [| by intros x ? ?%Hnew; apply Htf in H | apply carry_new_nodup].
    eapply sublist_NoDup; [exact (upto_nodup _ _ _ _ Hlf) | apply sublist_take].
  - intros x [Hx | Hx]%elem_of_app.
    + eapply upto_dom; [by eexists | exact Hlf | by apply Htf].
    + eapply upto_dom; [by eexists | exact Hlt | apply elem_of_app; by left].
  - exists [Ent h from m 0 true], l'. split_and!; [done | done |]. apply Forall_singleton. cbn. split_and!; [done | done | |].
    + destruct carry_host as (n & Hn & _). by eexists.
    + intros [?%Htf | ?]%elem_of_app; done.
Qed.

(** Step 2 and 3: the buckets, the second look, the commit. *)
Lemma wp_carry_locked w s m l' :
  started k r N T P w s (list_to_set lt) → c ≠ 0 → ms_e s = Ent h from m 0 true :: l' → m ≠ 0 →
  chains_ents c (take i lf) lt l' → ms_for_a s = h → ms_self_a s = m → ms_c_a s = c → ms_for_b s = 0 →
  wp (carry_round h from to mv s) (carry_end k r N N' T P mv) w.
Proof.
  intros [(A & F & I & HF & Hok) Hu Hl] Hc Es Hm Hce Ea Eself Eca Eb. destruct carry_host as (n & Hn & En).
  pose proof (mi_points _ _ _ _ _ _ _ _ _ _ _ _ I) as HP.
  pose proof (carry_counted h HP Hc ltac:(by left)) as Hhc.
  assert (HA : A !! h = Some m) by (apply (eo_obj _ _ _ Hok (Ent h from m 0 true)); [rewrite Es; by left | done]).
  assert (HhF : h ∈ F) by (apply HF, elem_of_union; by left).
  unfold carry_round. wp_step. eapply wp_run; [eapply mnt_counted_run; [exact I | by eexists] |].
  rewrite bool_decide_eq_true_2 by done. rewrite Ea, Z.eqb_refl. cbn [negb].
  assert (Hpin : h ∈ pins s).
  { unfold pins. apply elem_of_list_to_set, elem_of_pinned. exists (Ent h from m 0 true). rewrite Es. split; [by left | done]. }
  wp_step. eapply wp_mnt_shift_lock; [exact I | exact Hu | | by left |].
  { rewrite Ea, Eself, Eca. right. split_and!; [by eexists | done |]. intros _. split; [done |].
    rewrite zeros_lookup, decide_True, counts_default by (done || by eexists). done. }
  intros s1 w1 I1. cbn [negb].
  assert (El : ms_locked s1 = true) by done. assert (Ec1 : ms_c_a s1 = c) by done. rewrite El, Ec1.
  pose proof (carry_set s1 m l' HP Es Hm Hce) as HS. apply wp_regroup.
  eapply (wp_moveset_commit k r N N' T P); [exact HS | exact Hmv | exact HF | exact Hok | exact I1 | |].
  - intros w2 T' Hc2. rewrite (proj2 (Z.eqb_neq c 0) Hc). cbn [andb negb orb].
    wp_step. wp_step. wp_step. unfold DC_MNT_STAT_INC. wp_step.
    unfold mnt_shift_done. eapply wp_closing_drop; [by eapply closing_stat |].
    intros w4 Hc4. eapply wp_closing_unlock; [exact Hc4 |]. intros w5 Hc5. wp_step.
    eexists _, _. split; [done |]. left. split; [done |]. by exists T'.
  - intros Hf Hc2. cbn [andb]. wp_step. wp_step. eapply wp_closing_unlock; [exact Hc2 |].
    intros w5 Hc5. wp_step. eexists _, _. split; [done |]. right. split_and!; [done | by right | done].
Qed.

Lemma wp_mnt_carry w : mquiet k w r N T P → wp (mnt_carry h from to mv) (carry_post k r N N' T P mv) w.
Proof.
  intros Hq. unfold mnt_carry. apply wp_twice.
  pose proof (wp_carry_end k r N N' T P mv) as Hend.
  destruct (decide (c = 0)) as [Hc | Hc].
  - eapply wp_mono; [by apply wp_carry_plain |]. intros [s' | [ret s']] w' H; apply Hend in H; done.
  - pose proof Hq as [A I]. destruct carry_host as (n & Hn & En). pose proof (mi_points _ _ _ _ _ _ _ _ _ _ _ _ I) as HP.
    unfold carry_round at 1. wp_step. eapply wp_run; [eapply mnt_counted_run; [exact I | by eexists] |].
    rewrite bool_decide_eq_true_2 by (apply carry_counted; [done | done | by left]). cbn [negb].
    destruct (rep_aligned _ _ _ _ (mi_brep _ _ _ _ _ _ _ _ _ _ _ _ I) h ltac:(by eexists)) as [_ H0].
    change (ms_for_a MNT_SHIFT_INIT) with 0. rewrite (proj2 (Z.eqb_neq 0 h)) by done. cbn [negb]. wp_step. wp_step. cbn [negb].
    wp_step. eapply wp_mnt_move_begin; [exact Hq | done | |].
    + intros w' s' m l' Hs' Es Hm Hce Ea Eself Eca Eb. cbn [negb Z.eqb]. wp_step.
      eapply wp_mono; [by eapply wp_carry_locked |]. intros [s2 | [ret s2]] w2 H; apply Hend in H; done.
    + intros w' s' Hm Hcl. change (negb (- ENOMEM =? 0)) with true. cbn iota. wp_step.
      apply (Hend (inr (- ENOMEM, s'))). eexists _, _. split; [done |]. right. split_and!; [done | by left | done].
Qed.
End carry.
