(* ===== verification/MountSwap.v ===== *)
(** An exchange takes its mountpoints with it: the side with the larger count gives the
    difference to the other. *)

From S2P Require Import Prelude Qstr HList Lru World Walk Namespace TreeOps Paths Moves BlChain BlLists BlLru BlWorld BlWalk.
From S2P Require Import BlOps BlMove BlInv BlReads BlWalkSpec BlLocks BlRep BlSect Mount MountRep MountSet MountSpec.
From S2P Require Import MountClimb MountOps MountChains.

(** ** The counts after an exchange *)

(** Names do not matter to a count. *)
Lemma mcount_parents r N N' P x :
  tree r N → tree r N' → P ⊆ dom N → (∀ y, n_parent <$> N' !! y = n_parent <$> N !! y) →
  mcount r N' P x = mcount r N P x.
Proof.
  intros Ht Ht' HP E. unfold mcount. do 2 f_equal. apply set_eq. intros p. rewrite !points_below_spec.
  split; intros [Hp Hs]; (split; [done |]); (destruct (t_up _ _ Ht p) as [l Hl]; [by apply elem_of_dom, HP |]);
    assert (upto r N' p l) as Hl' by (eapply upto_frame; [| exact Hl]; intros; apply E);
    rewrite (subdir_spec r N p x l Ht Hl), (subdir_spec r N' p x l Ht' Hl') in *; done.
Qed.

Lemma counts_parents r N N' P :
  tree r N → tree r N' → P ⊆ dom N → (∀ y, n_parent <$> N' !! y = n_parent <$> N !! y) →
  counts r N' P = counts r N P.
Proof.
  intros Ht Ht' HP E. apply map_eq. intros x. apply option_eq. intros v. rewrite !counts_lookup, (mcount_parents r N N') by done.
  assert (is_Some (N' !! x) ↔ is_Some (N !! x)) as ->; [| done].
  specialize (E x). destruct (N !! x), (N' !! x); try done; split; by eexists.
Qed.

(** A name that no child has. *)
Lemma name_free r N p : tree r N → ∃ nm, child r N p nm = None.
Proof.
  intros Ht. destruct (exist_fresh (map_to_set (λ _ n, n_name n) N : gset (list Z))) as [nm Hnm].
  exists nm. apply child_None. intros d (_ & n & Hn & _ & E). apply Hnm.
  apply elem_of_map_to_set. eauto.
Qed.

Section swapped.
Variables (r : Z) (N N' : nspace) (P : gset Z) (ha hb : Z) (an bn : node) (la lb : list Z).
Hypothesis Ht : tree r N.
Hypothesis Ht' : tree r N'.
Hypothesis HP : P ⊆ dom N.
Hypothesis Hsw : swapped r N N' ha hb an bn.
Hypothesis Hla : upto r N (n_parent an) la.
Hypothesis Hlb : upto r N (n_parent bn) lb.
Abbreviation ca := (mcount r N P ha).
Abbreviation cb := (mcount r N P hb).

Lemma swap_avoid : ha ∉ la ∧ ha ∉ lb ∧ hb ∉ la ∧ hb ∉ lb.
Proof.
  destruct Hsw as [Ha Hb Hne Hra Hrb Hab Hba _]. split_and!; [| by apply Hab | by apply Hba |].
  - by eapply (upto_parent_avoid r N ha an).
  - by eapply (upto_parent_avoid r N hb bn).
Qed.

(** One move, and then the other. *)
Lemma mcount_swapped x :
  mcount r N' P x = mcount r N P x + (if decide (x ∈ lb) then ca - cb else 0)
                    - (if decide (x ∈ la) then ca - cb else 0).
Proof.
  destruct swap_avoid as (Haa & Hab & Hba & Hbb). pose proof Hsw as [Ha Hb Hne Hra Hrb _ _ EN].
  destruct (name_free r N (n_parent bn) Ht) as [nm Hnm]. destruct (tree_parent _ _ _ _ Ht Hb) as [pbn Hpb].
  set (N1 := <[ha := moved an (n_parent bn) nm]> N).
  assert (Ht1 : tree r N1) by (by eapply tree_move; eauto).
  assert (Hin : ∀ y l, upto r N y l → ha ∉ l → upto r N1 y l).
  { intros y l Hl Hh. eapply (upto_outside r N N1 ha); [| exact Hl | exact Hh]. intros z Hz. unfold N1. by rewrite lookup_insert_ne. }
  assert (Hb1 : N1 !! hb = Some bn) by (unfold N1; by rewrite lookup_insert_ne).
  assert (Hc1 : ∀ y, mcount r N1 P y = mcount r N P y + (if decide (y ∈ lb) then ca else 0) - (if decide (y ∈ la) then ca else 0)).
  { intros y. eapply (mcount_moved r N N1 P ha (n_parent an) (n_parent bn) an (moved an (n_parent bn) nm)); try done.
    - unfold N1. by rewrite lookup_insert_eq.
    - intros z Hz. unfold N1. by rewrite lookup_insert_ne. }
  destruct (name_free r N1 (n_parent an) Ht1) as [nm2 Hnm2].
  assert (is_Some (N1 !! n_parent an)) as [pan Hpa].
  { destruct (tree_parent _ _ _ _ Ht Ha) as [q Hq]. unfold N1. destruct (decide (n_parent an = ha)) as [-> |]; [by rewrite lookup_insert_eq |].
    rewrite lookup_insert_ne by done. by eexists. }
  set (N2 := <[hb := moved bn (n_parent an) nm2]> N1).
  pose proof (Hin _ _ Hla Haa) as Hla1. pose proof (Hin _ _ Hlb Hab) as Hlb1.
  assert (Ht2 : tree r N2) by (by eapply tree_move; eauto).
  assert (HP1 : P ⊆ dom N1) by (unfold N1; rewrite dom_insert_L; set_solver).
  assert (HP2 : P ⊆ dom N2) by (unfold N2; rewrite dom_insert_L; set_solver).
  rewrite (mcount_parents r N2 N'); [| done | done | done |].
  2:{ intros y. rewrite EN. unfold N2, N1.
      destruct (decide (y = ha)) as [-> |]; [| destruct (decide (y = hb)) as [-> |]];
        by repeat (rewrite lookup_insert_eq || rewrite lookup_insert_ne by done). }
  rewrite (mcount_moved r N1 N2 P hb (n_parent bn) (n_parent an) bn (moved bn (n_parent an) nm2) lb la); try done.
  2:{ unfold N2. by rewrite lookup_insert_eq. }
  2:{ intros z Hz. unfold N2. by rewrite lookup_insert_ne. }
  rewrite !Hc1, (decide_False (P := hb ∈ lb)), (decide_False (P := hb ∈ la)) by done.
  destruct (decide (x ∈ lb)), (decide (x ∈ la)); lia.
Qed.
End swapped.

(** ** The set of an exchange *)

Section swap.
Context `{HL : Layout} `{!LayoutOk HL} `{HC : Calloc} `{!CallocOk HC} `{HR : Realloc} `{HT : MntTxn} `{!MntTxnOk HT}.
Variables (k : nat) (r : Z) (N N' : nspace) (T : gmap Z Z) (P : gset Z).
Abbreviation st := (started k r N T P).

(** One side gives what it has more than the other. *)
Section give.
Variables (h g : Z) (hn gn : node) (lh lg : list Z) (ba bb : Z).
Hypothesis Ht : tree r N.
Hypothesis Ht' : tree r N'.
Hypothesis HP : P ⊆ dom N.
Hypothesis Hsw : swapped r N N' h g hn gn.
Hypothesis Hlh : upto r N (n_parent hn) lh.
Hypothesis Hlg : upto r N (n_parent gn) lg.
Hypothesis Hd1 : (length lh ≤ DC_LOOP_MAX)%nat.
Hypothesis Hd2 : (length lg ≤ DC_LOOP_MAX)%nat.
Hypothesis Hsz : Z.of_nat (size N) < 2 ^ 62.
Hypothesis Hba : ba ∉ lh ∧ ba ∉ lg.
Hypothesis Hbb : bb ∉ lh ∧ bb ∉ lg.
Hypothesis Hmore : mcount r N P g < mcount r N P h.
Abbreviation d := (mcount r N P h - mcount r N P g).

Lemma swap_dom x : is_Some (N' !! x) ↔ is_Some (N !! x).
Proof.
  destruct Hsw as [Hh Hg Hne _ _ _ _ ->]. destruct (decide (x = h)) as [-> |]; [by rewrite lookup_insert_eq, Hh |].
  rewrite lookup_insert_ne by done. destruct (decide (x = g)) as [-> |]; [by rewrite lookup_insert_eq, Hg |].
  by rewrite lookup_insert_ne.
Qed.

Lemma wp_swap_chains w s (Q : Z * mnt_shift → mworld → Prop) :
  st w s ∅ → Forall (λ e, e_by e = 0 ∧ e_m e ≠ 0 ∧ (e_host e = h ∨ e_host e = g)) (ms_e s) →
  (∀ w' s' l' old new, st w' s' (list_to_set new) → ms_e s' = ms_e s ++ l' → moveset r N N' P d old new s' →
     chains_ents d old new l' → (∀ x, x ∈ old ++ new → x ∈ lh ++ lg) → rest s' = rest s → Q (0, s') w') →
  (∀ w' s', mem_fails → closing k w' r N T P s' → Q (- ENOMEM, s') w') →
  wp (mnt_shift_chains s (n_parent hn) (n_parent gn) d ba bb) Q w.
Proof.
  intros Hs Hse HQ HE. destruct (swap_avoid r N N' h g hn gn lh lg Hsw Hlh Hlg) as (Hhh & Hhg & Hgh & Hgg).
  destruct (shared_split r N _ _ _ _ Hlh Hlg) as (lt & i & Elg & Hi & Hnew).
  assert (Htg : ∀ x, x ∈ lt → x ∈ lg) by (intros x Hx; rewrite Elg; apply elem_of_app; by left).
  assert (Hth : ∀ x, x ∈ take i lh → x ∈ lh) by (intros x; apply subseteq_take).
  assert (Hpins : ∀ x, x ∈ pins s → x = h ∨ x = g).
  { intros x (e & He & <- & _)%elem_of_list_to_set%elem_of_pinned. by apply (proj1 (Forall_forall _ _) Hse e He). }
  assert (Hout : ∀ x, x ∈ lh ∨ x ∈ lg → x ∉ pins s) by (intros x Hx [-> | ->]%Hpins; naive_solver).
  destruct (t_root _ _ Ht) as (rn & Hrn & _). pose proof (mcount_nonneg r N P g) as Hg0.
  rewrite Elg in Hlg, Hd2. rewrite length_app in Hd2.
  eapply (wp_mnt_shift_chains k r N T P s w ∅ ba bb (n_parent gn) d lh lt i); [exact Hs | set_solver | exact Hlh | exact Hlg | done | done | lia | apply Hba | apply Hbb | | | | exact HE].
  - intros x Hx. split_and!; [by apply Hnew | intros ->; by apply Hba, Htg | intros ->; by apply Hbb, Htg | apply Hout; right; by apply Htg].
  - intros x Hx. split; [apply Hout; by left |]. eapply (counted_above r N P h (h :: lh)); [done | done | | by right | lia].
    econstructor; [apply Hsw | apply Hsw | done].
  - intros w1 s1 l' Hs1 Es1 Hce Er1.
    assert (Hin : ∀ x, x ∈ take i lh ++ lt → x ∈ lh ++ lg) by (intros x; rewrite !elem_of_app; naive_solver).
    apply (HQ w1 s1 l' (take i lh) lt); [eapply started_mono; [exact Hs1 | set_solver] | done | | done | done | done].
    split; [apply swap_dom | done | done | lia | | | |].
    + intros x. rewrite (mcount_swapped r N N' P h g hn gn lh (lt ++ drop i lh)) by done.
      pose proof (sides_split lh lt i d x (upto_nodup _ _ _ _ Hlh) Hnew). lia.
    + apply NoDup_app. split_and!; [eapply sublist_NoDup; [exact (upto_nodup _ _ _ _ Hlh) | apply sublist_take] | |].
      * intros x Hx Hl. by apply (Hnew x Hl), Hth.
      * pose proof (upto_nodup _ _ _ _ Hlg) as Hnd. by apply NoDup_app in Hnd as [? _].
    + intros x [Hx | Hx]%elem_of_app; (eapply upto_dom; [by eexists | |]); [exact Hlh | by apply Hth | exact Hlg | apply elem_of_app; by left].
    + exists (ms_e s), l'. split_and!; [done | done |]. eapply Forall_impl; [exact Hse |]. intros e (? & ? & He).
      split_and!; [done | done | |].
      * destruct Hsw as [? ? _ _ _ _ _ _], He as [-> | ->]; by eexists.
      * intros Hx%Hin%elem_of_app. rewrite Elg in Hx, Hhg, Hgg. destruct He as [E | E]; rewrite E in Hx; naive_solver.
Qed.
End give.

Variables (ha hb : Z) (an bn : node) (la lb : list Z) (mv : bworld → option bworld).
Hypothesis Ht : tree r N.
Hypothesis Ht' : tree r N'.
Hypothesis Hsw : swapped r N N' ha hb an bn.
Hypothesis Hla : upto r N (n_parent an) la.
Hypothesis Hlb : upto r N (n_parent bn) lb.
Hypothesis Hd1 : (length la ≤ DC_LOOP_MAX)%nat.
Hypothesis Hd2 : (length lb ≤ DC_LOOP_MAX)%nat.
Hypothesis Hsz : Z.of_nat (size N) < 2 ^ 62.
Hypothesis Hmv : mover_ok k r N N' T mv.
Abbreviation ca := (mcount r N P ha).
Abbreviation cb := (mcount r N P hb).

(** What is known of a side under the set [s]: its object, if it has a count. *)
Definition side (s : mnt_shift) (h m : Z) : Prop :=
  (m = 0 ↔ mcount r N P h = 0) ∧ (m = 0 → h ∉ pins s) ∧
  (m ≠ 0 → ∃ e, e ∈ ms_e s ∧ e_host e = h ∧ e_m e = m).

Record swapset (w : mworld) (s : mnt_shift) : Prop := {
  ws_set : ∃ d old new, st w s (list_to_set new) ∧ moveset r N N' P d old new s;
  ws_for : ms_for_a s = ha ∧ ms_for_b s = hb;
  ws_counts : ms_c_a s = ca ∧ ms_c_b s = cb;
  ws_a : side s ha (ms_self_a s);
  ws_b : side s hb (ms_self_b s);
}.

(** The two objects, then the chains. *)
Lemma side_kept s s' h m l' d old new :
  ms_e s' = ms_e s ++ l' → chains_ents d old new l' → h ∉ old ++ new → side s h m → side s' h m.
Proof.
  intros E Hce Hx (H1 & H2 & H3). split_and!; [done | |].
  - intros Hm. unfold pins. rewrite E, pinned_app, (chains_pinned _ _ _ _ Hce), list_to_set_app_L.
    intros [Hp | Hp%elem_of_list_to_set]%elem_of_union; [| done]. by apply (H2 Hm).
  - intros Hm. destruct (H3 Hm) as (e & He & ?). exists e. split; [rewrite E; apply elem_of_app; by left | done].
Qed.

Lemma elem_of_self_ents h n m e : e ∈ self_ents h n m ↔ m ≠ 0 ∧ e = Ent h (n_parent n) m 0 true.
Proof.
  unfold self_ents. destruct (Z.eqb_spec m 0) as [E | E].
  - split; [by intros ?%not_elem_of_nil | naive_solver].
  - rewrite list_elem_of_singleton. naive_solver.
Qed.

Lemma selves_sides ma mb s :
  ms_e s = self_ents ha an ma ++ self_ents hb bn mb → (ma = 0 ↔ ca = 0) → (mb = 0 ↔ cb = 0) →
  side s ha ma ∧ side s hb mb ∧
  Forall (λ e, e_by e = 0 ∧ e_m e ≠ 0 ∧ (e_host e = ha ∨ e_host e = hb)) (ms_e s).
Proof.
  intros Es Ha Hb. pose proof (sw_ne _ _ _ _ _ _ _ Hsw) as Hne.
  assert (Hin : ∀ e, e ∈ ms_e s ↔ ma ≠ 0 ∧ e = Ent ha (n_parent an) ma 0 true ∨ mb ≠ 0 ∧ e = Ent hb (n_parent bn) mb 0 true).
  { intros e. by rewrite Es, elem_of_app, !elem_of_self_ents. }
  assert (Hp : ∀ x, x ∈ pins s → ma ≠ 0 ∧ x = ha ∨ mb ≠ 0 ∧ x = hb).
  { intros x (e & He%Hin & <- & _)%elem_of_list_to_set%elem_of_pinned. destruct He as [[? ->] | [? ->]]; auto. }
  split_and!.
  - split_and!; [done | by intros -> [[? _] | [_ ?]]%Hp |]. intros Hm. eexists. split; [apply Hin; by left | done].
  - split_and!; [done | by intros -> [[_ ?] | [? _]]%Hp |]. intros Hm. eexists. split; [apply Hin; by right | done].
  - apply Forall_forall. intros e [[? ->] | [? ->]]%Hin; cbn; auto.
Qed.

Lemma swapset_for w s d old new :
  st w s (list_to_set new) → moveset r N N' P d old new s → ms_c_a s = ca → ms_c_b s = cb →
  side s ha (ms_self_a s) → side s hb (ms_self_b s) → swapset w (set_for ha hb s).
Proof.
  intros Hs HM Ea Eb Ha Hb. split; [| done | done | exact Ha | exact Hb].
  exists d, old, new. split; [by eapply started_ext |]. by destruct HM.
Qed.

(** No difference: nothing but the two objects. *)
Lemma moveset_even s :
  P ⊆ dom N → ca = cb → Forall (λ e, e_by e = 0 ∧ e_m e ≠ 0 ∧ (e_host e = ha ∨ e_host e = hb)) (ms_e s) →
  moveset r N N' P 0 [] [] s.
Proof.
  intros HP Ec Hse. split; [by eapply swap_dom | done | done | done | | constructor | by intros x ?%not_elem_of_nil |].
  - intros x. rewrite (mcount_swapped r N N' P ha hb an bn la lb), Ec, Z.sub_diag by done.
    by destruct (decide (x ∈ la)), (decide (x ∈ lb)).
  - exists (ms_e s), []. split_and!; [by rewrite app_nil_r | |].
    + split. exists [], [], []. by split_and!.
    + eapply Forall_impl; [exact Hse |]. intros e (? & ? & He). split_and!; [done | done | | by intros ?%not_elem_of_nil].
      destruct Hsw as [? ? _ _ _ _ _ _], He as [-> | ->]; by eexists.
Qed.

Lemma wp_xchg_chains w s (Q : Z * mnt_shift → mworld → Prop) :
  P ⊆ dom N → st w s ∅ → Forall (λ e, e_by e = 0 ∧ e_m e ≠ 0 ∧ (e_host e = ha ∨ e_host e = hb)) (ms_e s) →
  ms_c_a s = ca → ms_c_b s = cb → side s ha (ms_self_a s) → side s hb (ms_self_b s) →
  (∀ w' s', swapset w' (set_for ha hb s') → Q (0, s') w') →
  (∀ w' s', mem_fails → closing k w' r N T P s' → Q (- ENOMEM, s') w') →
  wp (if cb <? ca then mnt_shift_chains s (n_parent an) (n_parent bn) (ca - cb) ha hb
      else if ca <? cb then mnt_shift_chains s (n_parent bn) (n_parent an) (cb - ca) ha hb
      else st_ret (0, s)) Q w.
Proof.
  intros HP Hs Hse Ea Eb Hsa Hsb HQ HE. destruct (swap_avoid r N N' ha hb an bn la lb Hsw Hla Hlb) as (Haa & Hab & Hba & Hbb).
  assert (Hend : ∀ w' s' l' d old new, st w' s' (list_to_set new) → ms_e s' = ms_e s ++ l' → moveset r N N' P d old new s' →
    chains_ents d old new l' → (∀ x, x ∈ old ++ new → x ∈ la ∨ x ∈ lb) → rest s' = rest s → Q (0, s') w').
  { intros w1 s1 l' d old new Hs1 Es1 HM Hce Hin Er. unfold rest in Er. injection Er as _ _ Es Ec _ Es' Ec'.
    eapply HQ, swapset_for; [exact Hs1 | exact HM | congruence | congruence | |];
      [rewrite Es | rewrite Es']; (eapply side_kept; [exact Es1 | exact Hce | intros Hx%Hin; naive_solver | done]). }
  destruct (Z.ltb_spec cb ca) as [Hlt | Hge]; [| destruct (Z.ltb_spec ca cb) as [Hlt | Hge']].
  - eapply (wp_swap_chains ha hb an bn la lb ha hb); try done. intros w1 s1 l' old new Hs1 Es1 HM Hce Hin Er.
    eapply Hend; [exact Hs1 | exact Es1 | exact HM | exact Hce | | done]. intros x Hx. by apply elem_of_app, Hin.
  - eapply (wp_swap_chains hb ha bn an lb la ha hb); try done.
    + by apply swapped_sym.
    + eapply Forall_impl; [exact Hse |]. intros e (? & ? & [? | ?]); auto.
    + intros w1 s1 l' old new Hs1 Es1 HM Hce Hin Er.
      eapply Hend; [exact Hs1 | exact Es1 | exact HM | exact Hce | | done]. intros x Hx%Hin%elem_of_app. naive_solver.
  - wp_step. eapply HQ, swapset_for; [| apply moveset_even; [done | lia | exact Hse] | done..].
    eapply started_mono; [exact Hs | set_solver].
Qed.

(** Step 1: the set of the exchange. *)
Lemma wp_mnt_xchg_begin w (Q : Z * mnt_shift → mworld → Prop) :
  mquiet k w r N T P → (∀ w' s', swapset w' s' → Q (0, s') w') →
  (∀ w' s', mem_fails → closing k w' r N T P s' → Q (- ENOMEM, s') w') →
  wp (mnt_xchg_begin MNT_SHIFT_INIT ha hb (n_parent an) (n_parent bn)) Q w.
Proof.
  intros Hq HQ HE. pose proof (quiet_started _ _ _ _ _ _ s_init Hq eq_refl eq_refl) as Hs. destruct Hq as [A0 I0].
  pose proof (mi_points _ _ _ _ _ _ _ _ _ _ _ _ I0) as HP. pose proof Hsw as [Ha Hb Hne _ _ _ _ _].
  assert (Hfail : ∀ w' s' s2, mem_fails → st w' s' ∅ → ms_e s2 = ms_e s' → ms_locked s2 = ms_locked s' →
    wp (mnt_fail (- ENOMEM) s2) Q w').
  { intros w1 s1 s2 Hm Hs1 E1 E2. eapply wp_mnt_fail; [done | eapply started_closing, started_ext; [exact Hs1 | done | done] |].
    intros w2 s3 Hc. by apply HE. }
  unfold mnt_xchg_begin. wp_step. eapply wp_run; [done |]. wp_step. eapply wp_run; [apply mnt_begin_run |].
  change (Z.pos DC_MNT_TRIES_MAX <? ms_tries s_init) with false. cbn iota.
  wp_step. eapply wp_self_grown; [exact Hs | exact Ha | set_solver | set_solver | |].
  2:{ intros w1 c1 Hm Hs1. wp_step. change (- ENOMEM =? 0) with false. cbn iota. wp_step. change (- ENOMEM =? 0) with false. cbn [andb]. wp_step. wp_step. by eapply Hfail. }
  intros w1 s1 ma Hs1 [E1 R1 Z1]. cbn [Z.eqb]. wp_step. wp_step.
  change (ms_e s_init) with (@nil mnt_ent) in E1. cbn [app] in E1.
  eapply wp_self_grown; [by eapply started_ext | exact Hb | | set_solver | |].
  { change (hb ∉ pins s1). intros (e & He & E & _)%elem_of_list_to_set%elem_of_pinned. rewrite E1 in He.
    apply elem_of_self_ents in He as [_ ->]. done. }
  2:{ intros w2 c2 Hm Hs2. wp_step. change (- ENOMEM =? 0) with false. cbn [andb]. wp_step. wp_step. by eapply Hfail. }
  intros w2 s2 mb Hs2 [E2 R2 Z2]. wp_step. cbn [ms_e set_selves] in E2. rewrite E1 in E2. unfold rest in R1, R2. cbn in R2.
  cbn [Z.eqb andb ms_c_a ms_c_b set_selves ms_self_a].
  set (s3 := set_selves (ms_self_a s2) mb (ms_c_a s2) cb s2).
  assert (Eca : ms_c_a s2 = ca) by congruence. assert (Esa : ms_self_a s2 = ma) by congruence. rewrite Eca.
  destruct (selves_sides ma mb s3 E2 Z1 Z2) as (Hsa & Hsb & Hse).
  wp_step. apply wp_xchg_chains; [done | by eapply started_ext | done | done | done | by rewrite <- Esa in Hsa | done | |].
  - intros w3 s4 Hws. cbn [negb Z.eqb]. wp_step. by apply HQ.
  - intros w3 s4 Hm Hc. change (negb (- ENOMEM =? 0)) with true. cbn iota.
    eapply wp_mnt_fail; [done | exact Hc |]. intros w4 s5 Hc4. by apply HE.
Qed.

Lemma swap_counted h x : P ⊆ dom N → N !! h = Some x → h ∈ dom (counts r N P) ↔ mcount r N P h ≠ 0.
Proof.
  intros HP Hh. rewrite elem_of_dom. split; [by intros [v (_ & -> & ?)%counts_lookup] |].
  intros Hc. eexists. apply counts_lookup. split_and!; [by eexists | done | done].
Qed.

(** Nothing mounted on either side: no count changes. *)
Lemma swap_uncounted : P ⊆ dom N → ca = 0 → cb = 0 → counts r N' P = counts r N P.
Proof.
  intros HP Ha Hb. apply map_eq. intros x. apply option_eq. intros v.
  rewrite !counts_lookup, (swap_dom ha hb an bn), (mcount_swapped r N N' P ha hb an bn la lb), Ha, Hb by done.
  destruct (decide (x ∈ lb)), (decide (x ∈ la)); by rewrite Z.add_0_r, Z.sub_0_r.
Qed.

Lemma wp_swap_plain w :
  mquiet k w r N T P → ca = 0 → cb = 0 →
  wp (swap_round ha hb (n_parent an) (n_parent bn) mv MNT_SHIFT_INIT) (carry_end k r N N' T P mv) w.
Proof.
  intros [A I] Hca Hcb. pose proof Hsw as [Ha Hb _ _ _ _ _ _]. pose proof (mi_points _ _ _ _ _ _ _ _ _ _ _ _ I) as HP.
  unfold swap_round. wp_step. eapply wp_run; [eapply mnt_counted_run; [exact I | by eexists] |].
  rewrite bool_decide_eq_false_2 by (rewrite (swap_counted ha an) by done; naive_solver).
  wp_step. eapply wp_run; [eapply mnt_counted_run; [exact I | by eexists] |].
  rewrite bool_decide_eq_false_2 by (rewrite (swap_counted hb bn) by done; naive_solver). cbn [negb].
  wp_steps. cbn [negb ms_locked MNT_SHIFT_INIT]. wp_steps. eapply mnt_commit_cases; [exact Hmv | exact I | |].
  - intros bw T' S Er. wp_steps. eexists _, _. split; [done |]. left. split; [done |]. exists T'.
    eapply started_closing, quiet_started; [| done | done]. exists A. rewrite (swap_uncounted HP Hca Hcb).
    by eapply minv_moved; [by eapply swap_dom | ..].
  - intros Hf. wp_steps. eexists _, _. split; [done |]. right. split_and!; [done | by right |].
    eapply started_closing, quiet_started; [| done | done]. by exists A.
Qed.

(** A side under the buckets of the set. *)
Lemma side_ok s A F h x m c C :
  P ⊆ dom N → N !! h = Some x → side s h m → c = mcount r N P h →
  dom (counts r N P) ⊆ F → F ⊆ dom C → C = counts r N P ∪ zeros (pins s) → ents_ok A (pins s) (ms_e s) →
  (h ∈ F ↔ mcount r N P h ≠ 0) ∧ self_ok N A C F h m c.
Proof.
  intros HP Hx (H1 & H2 & H3) -> HF HFC -> Hok. pose proof (swap_counted h x HP Hx) as Hcd.
  assert (HhF : h ∈ F ↔ mcount r N P h ≠ 0).
  { split; [| intros ?; by apply HF, Hcd]. intros Hh E. apply HFC in Hh. rewrite zeros_dom in Hh.
    apply elem_of_union in Hh as [?%Hcd | ?]; [done |]. by apply H2; [apply H1 |]. }
  split; [done |]. right. split_and!; [by eexists | rewrite HhF, H1; done |]. intros Hm.
  destruct (H3 Hm) as (e & He & <- & <-). destruct (eo_obj _ _ _ Hok e He Hm) as [? ?]. split; [done |].
  rewrite zeros_lookup, decide_True, counts_default by (done || by eexists). done.
Qed.

(** Step 2 and 3: the buckets, the second look, the commit. *)
Lemma wp_swap_locked w s :
  swapset w s → ca ≠ 0 ∨ cb ≠ 0 →
  wp (swap_round ha hb (n_parent an) (n_parent bn) mv s) (carry_end k r N N' T P mv) w.
Proof.
  intros [(d & old & new & [(A & F & I & HF & Hok) Hu Hl] & HM) [Efa Efb] [Eca Ecb] Hsa Hsb] Hc.
  pose proof Hsw as [Ha Hb _ _ _ _ _ _]. pose proof (mi_points _ _ _ _ _ _ _ _ _ _ _ _ I) as HP.
  pose proof (mr_counted _ _ _ _ _ _ _ (mi_rep _ _ _ _ _ _ _ _ _ _ _ _ I)) as HFC.
  assert (HF' : dom (counts r N P) ⊆ F) by (clear -HF; set_solver).
  destruct (side_ok s A F ha an (ms_self_a s) (ms_c_a s) _ HP Ha Hsa Eca HF' HFC eq_refl Hok) as [HaF Hva].
  destruct (side_ok s A F hb bn (ms_self_b s) (ms_c_b s) _ HP Hb Hsb Ecb HF' HFC eq_refl Hok) as [HbF Hvb].
  unfold swap_round. wp_step. eapply wp_run; [eapply mnt_counted_run; [exact I | by eexists] |].
  wp_step. eapply (wp_run _ _ _ true).
  { case_bool_decide as HhF; [done |]. erewrite mnt_counted_run; [| exact I | by eexists].
    rewrite bool_decide_eq_true_2; [done |]. apply HbF. rewrite HaF in HhF. naive_solver. }
  rewrite Efa, Efb, !Z.eqb_refl. cbn [negb andb].
  wp_step. eapply wp_mnt_shift_lock; [exact I | exact Hu | by rewrite Efa | by rewrite Efb |].
  intros s1 w1 I1. cbn [negb].
  assert (El : ms_locked s1 = true) by done. assert (Ec1 : ms_c_a s1 = ca) by done. assert (Ec2 : ms_c_b s1 = cb) by done.
  rewrite El, Ec1, Ec2. assert (HM1 : moveset r N N' P d old new s1) by (by destruct HM). apply wp_regroup.
  eapply (wp_moveset_commit k r N N' T P); [exact HM1 | exact Hmv | exact HF | exact Hok | exact I1 | |].
  - intros w2 T' Hc2. assert (negb (ca =? 0) || negb (cb =? 0) = true) as ->.
    { destruct (Z.eqb_spec ca 0), (Z.eqb_spec cb 0); naive_solver. }
    cbn [andb when]. wp_step. wp_step. unfold DC_MNT_STAT_INC. wp_step. wp_step.
    unfold mnt_shift_done. eapply wp_closing_drop; [by eapply closing_stat |].
    intros w4 Hc4. eapply wp_closing_unlock; [exact Hc4 |]. intros w5 Hc5. wp_step.
    eexists _, _. split; [done |]. left. split; [done |]. by exists T'.
  - intros Hf Hc2. cbn [andb when]. wp_step. wp_step. wp_step. wp_step. wp_step. eapply wp_closing_unlock; [exact Hc2 |].
    intros w5 Hc5. wp_step. eexists _, _. split; [done |]. right. split_and!; [done | by right | done].
Qed.

Lemma wp_mnt_swap w :
  mquiet k w r N T P → wp (mnt_swap ha hb (n_parent an) (n_parent bn) mv) (carry_post k r N N' T P mv) w.
Proof.
  intros Hq. unfold mnt_swap. apply wp_twice. pose proof (wp_carry_end k r N N' T P mv) as Hend.
  destruct (decide (ca = 0 ∧ cb = 0)) as [[Hca Hcb] | Hc].
  { eapply wp_mono; [by apply wp_swap_plain |]. intros [s' | [ret s']] w' H; apply Hend in H; done. }
  assert (ca ≠ 0 ∨ cb ≠ 0) as Hc' by (destruct (decide (ca = 0)); naive_solver).
  pose proof Hq as [A I]. pose proof Hsw as [Ha Hb _ _ _ _ _ _]. pose proof (mi_points _ _ _ _ _ _ _ _ _ _ _ _ I) as HP.
  unfold swap_round at 1. wp_step. eapply wp_run; [eapply mnt_counted_run; [exact I | by eexists] |].
  wp_step. eapply (wp_run _ _ _ true).
  { case_bool_decide as HhF; [done |]. erewrite mnt_counted_run; [| exact I | by eexists].
    rewrite (swap_counted ha an) in HhF by done. rewrite bool_decide_eq_true_2; [done |]. apply (swap_counted hb bn); [done | done | naive_solver]. }
  destruct (rep_aligned _ _ _ _ (mi_brep _ _ _ _ _ _ _ _ _ _ _ _ I) ha ltac:(by eexists)) as [_ H0].
  change (ms_for_a MNT_SHIFT_INIT) with 0. rewrite (proj2 (Z.eqb_neq 0 ha)) by done. cbn [negb andb]. wp_step. wp_step. cbn [negb].
  wp_step. eapply wp_mnt_xchg_begin; [exact Hq | |].
  - intros w' s' Hs'. cbn [negb Z.eqb]. wp_step.
    eapply wp_mono; [by eapply wp_swap_locked |]. intros [s2 | [ret s2]] w2 H; apply Hend in H; done.
  - intros w' s' Hm Hcl. change (negb (- ENOMEM =? 0)) with true. cbn iota. wp_step.
    apply (Hend (inr (- ENOMEM, s'))). eexists _, _. split; [done |]. right. split_and!; [done | by left | done].
Qed.
End swap.
