(* ===== verification/MountRemove.v ===== *)
(** Removal with mountpoints: what is not counted is removed as in the engine without the
    table, a mountpoint stays. *)

From S2P Require Import Prelude Qstr HList Lru World Walk Namespace TreeOps Paths BlChain BlLists BlLru BlWorld BlWalk.
From S2P Require Import BlOps BlMove BlInv BlReads BlWalkSpec BlLocks BlRep BlSect BlOpsSpec Mount MountRep MountSet MountSpec.
From S2P Require Import MountClimb MountOps MountChains MountSwap.

(** ** Code that runs as in the engine *)

Lemma set_bw_bw x y w : set_bw x (set_bw y w) = set_bw x w.
Proof. done. Qed.

Lemma sim_ret {X} (a : X) w : st_ret a w = on_bw (st_ret a) w.
Proof. unfold on_bw, st_zoom, st_ret. by rewrite set_bw_id. Qed.

Lemma sim_fault {X} e w : (st_fault e : MM X) w = on_bw (st_fault e) w.
Proof. done. Qed.

Lemma sim_bind {X Y} (m : M X) (f : X → M Y) (f' : X → MM Y) w :
  (∀ a bw, m (mw_bw w) = Ok (a, bw) → f' a (set_bw bw w) = on_bw (f a) (set_bw bw w)) →
  (let! x := on_bw m in f' x) w = on_bw (let! x := m in f x) w.
Proof.
  intros H. unfold st_bind, on_bw, st_zoom in *. destruct (m (mw_bw w)) as [[a bw] |]; [| done].
  rewrite (H a bw eq_refl). cbn [mw_bw set_bw]. by destruct (f a bw) as [[b bw'] |].
Qed.

Lemma sim_skip {X Y} (m : MM X) (f : X → MM Y) a w : m w = Ok (a, w) → (let! x := m in f x) w = f a w.
Proof. intros E. unfold st_bind. by rewrite E. Qed.

Lemma wp_ok {S X} (m : ST S X) (Q : X → S → Prop) s a s' : wp m Q s → m s = Ok (a, s') → Q a s'.
Proof. unfold wp. intros H E. by rewrite E in H. Qed.

(** A loop whose rounds run as in the engine does. *)
Section loop.
Context {X Y : Type} (body : X → M (X + Y)) (body' : X → MM (X + Y)) (J : X → mworld → Prop).
Hypothesis Hround : ∀ a w, J a w → body' a w = on_bw (body a) w ∧
  ∀ a' bw, body a (mw_bw w) = Ok (inl a', bw) → J a' (set_bw bw w).

Lemma sim_iter p : ∀ a w, J a w →
  iter_upto p body' a w = on_bw (iter_upto p body a) w ∧
  ∀ a' bw, iter_upto p body a (mw_bw w) = Ok (inl a', bw) → J a' (set_bw bw w).
Proof.
  assert (Hstep : ∀ (g : X → M (X + Y)) (g' : X → MM (X + Y)) (h : X → M (X + Y)) (h' : X → MM (X + Y)),
    (∀ a w, J a w → g' a w = on_bw (g a) w ∧ ∀ a' bw, g a (mw_bw w) = Ok (inl a', bw) → J a' (set_bw bw w)) →
    (∀ a w, J a w → h' a w = on_bw (h a) w ∧ ∀ a' bw, h a (mw_bw w) = Ok (inl a', bw) → J a' (set_bw bw w)) →
    ∀ a w, J a w →
      (let! r := g' a in match r with inl a' => h' a' | inr b => st_ret (inr b) end) w =
      on_bw (let! r := g a in match r with inl a' => h a' | inr b => st_ret (inr b) end) w ∧
      ∀ a' bw, (let! r := g a in match r with inl a' => h a' | inr b => st_ret (inr b) end) (mw_bw w) = Ok (inl a', bw) →
        J a' (set_bw bw w)).
  { intros g g' h h' Hg Hh a w Hj. destruct (Hg a w Hj) as [Eg Hg']. unfold st_bind, on_bw, st_zoom in *. rewrite Eg.
    destruct (g a (mw_bw w)) as [[[a1 | b] bw] |] eqn:E1; [| by rewrite sim_ret; split; [| discriminate] | by split; [| discriminate]].
    destruct (Hh a1 _ (Hg' a1 bw eq_refl)) as [Eh Hh']. rewrite Eh. cbn [mw_bw set_bw] in *.
    split; [by destruct (h a1 bw) as [[? ?] |] |]. intros a' bw' E. apply (Hh' _ _ E). }
  induction p as [p IH | p IH |]; cbn [iter_upto].
  - apply Hstep; [done |]. by apply Hstep.
  - by apply Hstep.
  - done.
Qed.
End loop.

Lemma sim_run {X Y} (m : M X) (f : X → M Y) (f' : X → MM Y) a w :
  m (mw_bw w) = Ok (a, mw_bw w) → f' a w = on_bw (f a) w →
  (let! x := on_bw m in f' x) w = on_bw (let! x := m in f x) w.
Proof. intros E H. apply sim_bind. intros a' bw E'. rewrite E in E'. injection E' as <- <-. by rewrite set_bw_id. Qed.

Lemma bind_ok {S X Y} (m : ST S X) (f : X → ST S Y) b s s' :
  (let! x := m in f x) s = Ok (b, s') → ∃ a s1, m s = Ok (a, s1) ∧ f a s1 = Ok (b, s').
Proof. unfold st_bind. destruct (m s) as [[a s1] |]; [eauto | done]. Qed.

Lemma sim_then {X Y} (m : M X) (m' : MM X) (f : X → M Y) (f' : X → MM Y) w :
  m' w = on_bw m w → (∀ a bw, m (mw_bw w) = Ok (a, bw) → f' a (set_bw bw w) = on_bw (f a) (set_bw bw w)) →
  (let! x := m' in f' x) w = on_bw (let! x := m in f x) w.
Proof. intros E H. rewrite <- (sim_bind m f f' w H). unfold st_bind. by rewrite E. Qed.

(** ** What is removed has no count *)

Lemma upto_leaf r N h p l : kids r N h = [] → upto r N p l → h ∈ l → p ≠ h → h = r.
Proof.
  rewrite kids_nil. intros Hk. induction 1 as [| d n l Hn Hr Hl IH]; intros Hh Hne; [by apply list_elem_of_singleton in Hh |].
  apply elem_of_cons in Hh as [-> | Hh]; [done |]. apply IH; [done |]. intros E. by eapply Hk.
Qed.

Lemma mcount_leaf r N P h :
  tree r N → P ⊆ dom N → h ≠ r → kids r N h = [] → h ∉ P → mcount r N P h = 0.
Proof.
  intros Ht HP Hr Hk Hh. unfold mcount. replace (points_below r N P h) with (∅ : gset Z); [done |].
  symmetry. apply set_eq. intros p. rewrite points_below_spec. split; [| set_solver]. intros [Hp Hs].
  destruct (t_up _ _ Ht p) as [l Hl]; [by apply elem_of_dom, HP |]. apply (subdir_upto r N Ht p h l Hl) in Hs.
  destruct (decide (p = h)) as [-> | Hne]; [done |]. by destruct Hr; eapply upto_leaf.
Qed.

Lemma mcount_unlinked r N P h x :
  tree r N → P ⊆ dom N → h ≠ r → kids r N h = [] → h ∉ P → mcount r (delete h N) P x = mcount r N P x.
Proof.
  intros Ht HP Hr Hk Hh. pose proof (tree_remove r N h Ht Hr Hk) as Ht'. unfold mcount. do 2 f_equal.
  apply set_eq. intros p. rewrite !points_below_spec.
  split; intros [Hp Hs]; (split; [done |]); (destruct (t_up _ _ Ht p) as [l Hl]; [by apply elem_of_dom, HP |]);
    assert (upto r (delete h N) p l) as Hl' by (eapply upto_frame; [| exact Hl]; intros y Hy _; rewrite lookup_delete_ne; [done |];
      intros <-; destruct (decide (p = h)) as [-> |]; [done |]; by destruct Hr; eapply upto_leaf);
    rewrite (subdir_spec r N p x l Ht Hl), (subdir_spec r _ p x l Ht' Hl') in *; done.
Qed.

(** *** The table of the name space without it *)
Lemma counts_unlinked r N P h :
  tree r N → P ⊆ dom N → h ≠ r → kids r N h = [] → h ∉ P → counts r (delete h N) P = counts r N P.
Proof.
  intros Ht HP Hr Hk Hh. apply map_eq. intros x. apply option_eq. intros v.
  rewrite !counts_lookup, mcount_unlinked by done. split; intros (Hx & Hv & H0); split_and!; try done.
  - by apply lookup_delete_is_Some in Hx as [_ Hx].
  - apply lookup_delete_is_Some. split; [| done]. intros <-. rewrite Hv in H0. by rewrite mcount_leaf in H0.
Qed.

Lemma mquiet_bw k r N N' T T' P w bw :
  mquiet k w r N T P → binv k bw N' T' → bw_root bw = r → counts r N' P = counts r N P →
  P ⊆ dom N' → mquiet k (set_bw bw w) r N' T' P.
Proof.
  intros [A I] Hi Er Ec HP. exists A. destruct I as [Hb Hr R Hd HP0]. rewrite Ec. split; msimpl; [by apply sect_binv | done | by destruct R | | done].
  rewrite <- Ec. intros x [v (Hx & _)%counts_lookup]%elem_of_dom. by apply elem_of_dom.
Qed.

(** ** [dc_unlink] *)

Definition mnt_unlink_spec (r : Z) (P : gset Z) (names : list (list Z)) (N : nspace) : Z * nspace :=
  match nwalk r N r names with
  | Some d => if decide (d ∈ P ∧ names ≠ [] ∧ kids r N d = []) then (- EBUSY, N) else spec_unlink r names N
  | None => spec_unlink r names N
  end.

Section unlink.
Context `{HL : Layout} `{!LayoutOk HL}.
Variables (k : nat) (r : Z) (N : nspace) (T : gmap Z Z) (P : gset Z) (p b : Z) (q : qstr).
Hypothesis Hq : qstr_wf q.
Hypothesis Hp : is_Some (N !! p).

Definition ready (w : mworld) : Prop := mquiet k w r N T P ∧ is_Some (hbit (mw_bw w) (Bucket b)).

Lemma unlink_heads w h isdir : ready w → is_Some (N !! h) →
  heads_ok (mw_bw w) ([Bucket b; ChildHead p] ++ (if isdir : bool then [ChildHead h] else [])).
Proof.
  intros [[A I] Hb] Hh x Hx. pose proof (mi_brep _ _ _ _ _ _ _ _ _ _ _ _ I) as R.
  assert (is_Some (hbit (mw_bw w) (ChildHead p)) ∧ is_Some (hbit (mw_bw w) (ChildHead h))) as [H1 H2]
    by (split; (eapply heads_child; [exact R | done])).
  destruct isdir; rewrite ?app_nil_r in Hx; simpl in Hx; rewrite !elem_of_cons, elem_of_nil in Hx; destruct_or! Hx; by subst.
Qed.

(** The heads are locked, nothing else has changed. *)
Lemma unlink_locked w hs hs' bw A F Z0 C :
  minv k w r N T [] A C Z0 F P ∅ → heads_ok (mw_bw w) hs → bl_lock_n hs (mw_bw w) = Ok (hs', bw) →
  minv k (set_bw bw w) r N T hs A C Z0 F P ∅.
Proof.
  intros I Hok E. apply (wp_ok _ (λ _ bw, minv k (set_bw bw w) r N T hs A C Z0 F P ∅) _ _ _) in E; [exact E |].
  eapply wp_sect_lock_n; [apply I | done |].
  intros bw' Hl S _. by eapply mi_relock.
Qed.

Lemma unlink_round_same w :
  ready w → (∀ h, child r N p (qname q) = Some h → kids r N h = [] → h ∉ P) →
  mnt_unlink_round p q b tt w = on_bw (unlink_round p q b tt) w.
Proof.
  intros Hr Hleaf. pose proof Hr as [[A I] Hb]. pose proof (mi_brep _ _ _ _ _ _ _ _ _ _ _ _ I) as R.
  pose proof (mi_root _ _ _ _ _ _ _ _ _ _ _ _ I) as Er. pose proof (mi_tree _ _ _ _ _ _ _ _ _ _ _ _ I) as Htr.
  unfold mnt_unlink_round, unlink_round.
  destruct (find_top_cases _ _ _ _ p q R Hq) as [[Ec Ef] | (h & n & t & Ec & Hn & Ht & Ht0 & Hhr & _ & _ & Ef)];
    (eapply sim_run; [exact Ef |]); [apply sim_ret |]. rewrite Er in Ec, Hhr. rewrite (proj2 (Z.eqb_neq t 0) Ht0).
  eapply sim_run; [by eapply host_of_top |]. eapply sim_run; [apply (children_empty_run _ _ _ _ R); by eexists |].
  rewrite Er. case_bool_decide as Hk; cbn [negb]; [| apply sim_ret].
  destruct (rep_node _ _ _ _ h n R Hn) as (hx & Hhx & _). eapply sim_run; [by apply dent_at_run |].
  apply sim_bind. intros hs bw El.
  pose proof (unlink_locked _ _ _ _ _ _ _ _ I (unlink_heads w h (d_isdir hx) Hr ltac:(by eexists)) El) as I1.
  pose proof (mi_brep _ _ _ _ _ _ _ _ _ _ _ _ I1) as R1. set (w1 := set_bw bw w) in *.
  eapply sim_run; [by eapply live_run |]. cbn iota.
  rewrite (sim_skip (mnt_counted h) _ false).
  2:{ rewrite (mnt_counted_run _ _ _ _ _ _ _ _ _ _ _ _ I1) by (by eexists). rewrite bool_decide_eq_false_2; [done |].
      intros [v (_ & -> & Hv)%counts_lookup]%elem_of_dom. apply Hv, mcount_leaf; [done | apply I | done | done | by apply Hleaf]. }
  apply sim_bind. intros e bw2 _. destruct (negb e); [apply sim_bind; intros [] bw3 _; apply sim_ret |].
  do 3 (apply sim_bind; intros [] ? _). apply sim_ret.
Qed.

Lemma unlink_round_once w a bw : ready w → unlink_round p q b tt (mw_bw w) ≠ Ok (inl a, bw).
Proof.
  intros Hr E. pose proof Hr as [[A I] Hb]. pose proof (mi_brep _ _ _ _ _ _ _ _ _ _ _ _ I) as R. unfold unlink_round in E.
  apply bind_ok in E as (t & bw1 & Ef & E).
  destruct (find_top_cases _ _ _ _ p q R Hq) as [[Ec Ef'] | (h & n & t' & Ec & Hn & Ht & Ht0 & Hhr & _ & _ & Ef')];
    rewrite Ef' in Ef; injection Ef as <- <-; [done |]. rewrite (proj2 (Z.eqb_neq _ 0) Ht0) in E.
  apply bind_ok in E as (h' & bw1 & Eh & E). erewrite host_of_top in Eh by done. injection Eh as <- <-.
  apply bind_ok in E as (e & bw1 & Ee & E). rewrite (children_empty_run _ _ _ _ R) in Ee by (by eexists). injection Ee as <- <-.
  case_bool_decide; cbn [negb] in E; [| done].
  apply bind_ok in E as (hx & bw1 & Ex & E). destruct (rep_node _ _ _ _ h n R Hn) as (hx' & Hhx & _).
  rewrite (dent_at_run _ _ _ Hhx) in Ex. injection Ex as <- <-.
  apply bind_ok in E as (hs & bw1 & El & E).
  pose proof (unlink_locked _ _ _ _ _ _ _ _ I (unlink_heads w h (d_isdir hx') Hr ltac:(by eexists)) El) as I1.
  pose proof (mi_brep _ _ _ _ _ _ _ _ _ _ _ _ I1) as R1. cbn [mw_bw set_bw] in R1.
  apply bind_ok in E as (mk & bw2 & Em & E). erewrite live_run in Em by done. injection Em as <- <-.
  apply bind_ok in E as (e & bw2 & _ & E). destruct (negb e).
  { by apply bind_ok in E as ([] & bw3 & _ & E). }
  by do 3 apply bind_ok in E as ([] & ? & _ & E).
Qed.

(** A mountpoint stays. *)
Lemma wp_unlink_busy w h :
  ready w → child r N p (qname q) = Some h → kids r N h = [] → h ∈ P →
  wp (mnt_unlink_round p q b tt) (λ x w', x = inr (inl (- EBUSY)) ∧ mquiet k w' r N T P) w.
Proof.
  intros Hr Hc Hk HhP. pose proof Hr as [[A I] Hb]. pose proof (mi_brep _ _ _ _ _ _ _ _ _ _ _ _ I) as R.
  pose proof (mi_root _ _ _ _ _ _ _ _ _ _ _ _ I) as Er. pose proof (mi_tree _ _ _ _ _ _ _ _ _ _ _ _ I) as Htr.
  unfold mnt_unlink_round. wp_step.
  destruct (find_top_cases _ _ _ _ p q R Hq) as [[Ec _] | (h' & n & t & Ec & Hn & Ht & Ht0 & Hhr & _ & _ & Ef)];
    rewrite Er, Hc in Ec; [done |]. injection Ec as <-.
  eapply wp_run; [by apply on_bw_run |]. rewrite (proj2 (Z.eqb_neq t 0) Ht0).
  wp_step. eapply wp_run; [by eapply on_bw_run, host_of_top |].
  wp_step. eapply wp_run; [apply on_bw_run, (children_empty_run _ _ _ _ R); by eexists |].
  rewrite Er, bool_decide_eq_true_2 by done. cbn [negb].
  destruct (rep_node _ _ _ _ h n R Hn) as (hx & Hhx & _). wp_step. eapply wp_run; [by eapply on_bw_run, dent_at_run |].
  wp_step. eapply wp_mi_lock_n; [exact I | by apply unlink_heads; [| by eexists] |]. intros w1 I1 Hok1.
  pose proof (mi_brep _ _ _ _ _ _ _ _ _ _ _ _ I1) as R1.
  wp_step. eapply wp_run; [by eapply on_bw_run, live_run |]. cbn iota.
  wp_step. eapply wp_run; [eapply mnt_counted_run; [exact I1 | by eexists] |].
  rewrite bool_decide_eq_true_2.
  2:{ destruct (t_up _ _ Htr h ltac:(by eexists)) as [l Hl]. destruct (upto_head _ _ _ _ Hl) as [l' El].
      pose proof (mcount_above r N Htr P h l h Hl HhP ltac:(rewrite El; by left)).
      apply elem_of_dom. eexists. apply counts_lookup. split_and!; [by eexists | done | lia]. }
  wp_step. eapply wp_run; [eapply mnt_here_run; [exact I1 | by eexists] |]. rewrite bool_decide_eq_true_2 by done.
  wp_step. eapply wp_mi_unlock_n; [exact I1 | done |]. intros w2 I2. wp_step. split; [done | by exists A].
Qed.
End unlink.

(** ** [dc_delete] *)

Definition mnt_delete_spec (r : Z) (P : gset Z) (names : list (list Z)) (N : nspace) : Z * nspace :=
  match names, nwalk r N r names with
  | [], _ => (- EISDIR, N)
  | _, Some d => if decide (d ∈ P) then (- EBUSY, N) else spec_delete r names N
  | _, None => (- ENOENT, N)
  end.

Section delete.
Context `{HL : Layout} `{!LayoutOk HL}.
Variables (k : nat) (r : Z) (N : nspace) (T : gmap Z Z) (P : gset Z) (p b : Z) (q : qstr).
Hypothesis Hq : qstr_wf q.
Abbreviation ok := (ready k r N T P b).

(** The test of the flags, of a dentry with a count. *)
Lemma wp_delete_keep h hs w A (U : M unit) (rest : MM (Z + Z)) (Q : Z + Z → mworld → Prop) :
  is_Some (N !! h) → h ∈ dom (counts r N P) → minv k w r N T hs A (counts r N P) ∅ (dom (counts r N P)) P ∅ →
  (∀ Q' : unit → mworld → Prop, (∀ w2, minv k w2 r N T [] A (counts r N P) ∅ (dom (counts r N P)) P ∅ →
     is_Some (hbit (mw_bw w2) (Bucket b)) → Q' tt w2) → wp (on_bw U) Q' w) →
  (∀ w', ok w' → Q (if decide (h ∈ P) then inr (- EBUSY) else inl 0) w') →
  wp (let! counted := mnt_counted h in
      if counted : bool then
        let! here := mnt_here h in
        on_bw U ;;;
        if here : bool then st_ret (inr (- EBUSY)) else mnt_wait ;;; st_ret (inl 0)
      else rest) Q w.
Proof.
  intros Hh Hc I HU HQ. wp_step. eapply wp_run; [eapply mnt_counted_run; [exact I | done] |]. rewrite bool_decide_eq_true_2 by done.
  wp_step. eapply wp_run; [eapply mnt_here_run; [exact I | done] |]. wp_step. apply HU. intros w2 I2 Hb2.
  case_bool_decide as HhP; [rewrite decide_True in HQ by done | rewrite decide_False in HQ by done; unfold mnt_wait, DC_MNT_STAT_INC];
    wp_steps; apply HQ; (split; [exists A; done || by apply minv_stat | done]).
Qed.

(** A dentry with a count: its mountpoint keeps it, and a count without one is waited
    for. *)
Lemma wp_delete_counted h n a w :
  N !! h = Some n → child r N p (qname q) = Some h → mcount r N P h ≠ 0 → (a = 0 ∨ a = h ∧ n_dir n = true) → ok w →
  wp (mnt_delete_round p q b a) (λ x w', ok w' ∧
    x = (if n_dir n && negb (h =? a) then inl h else if decide (h ∈ P) then inr (- EBUSY) else inl 0)) w.
Proof.
  intros Hn Hc Hcount Ha [[A I] Hb]. pose proof (mi_brep _ _ _ _ _ _ _ _ _ _ _ _ I) as R.
  pose proof (mi_root _ _ _ _ _ _ _ _ _ _ _ _ I) as Er.
  destruct (rep_aligned _ _ _ _ R h ltac:(by eexists)) as [_ H0].
  assert (Hheads : heads_ok (mw_bw w) [Bucket b; ChildHead h]).
  { intros y [-> | ->%list_elem_of_singleton]%elem_of_cons; [done | eapply heads_child; [done | by eexists]]. }
  assert (HhF : h ∈ dom (counts r N P)).
  { apply elem_of_dom. eexists. apply counts_lookup. split_and!; [by eexists | done | done]. }
  unfold mnt_delete_round. wp_step.
  destruct (find_top_cases _ _ _ _ p q R Hq) as [[Ec _] | (h' & n' & t & Ec & Hn' & Ht & Ht0 & _ & _ & _ & Ef)];
    rewrite Er, Hc in Ec; [done |]. injection Ec as <-.
  eapply wp_run; [by apply on_bw_run |]. rewrite (proj2 (Z.eqb_neq t 0) Ht0).
  destruct Ha as [-> | [-> Hdir]].
  - cbn [negb Z.eqb]. wp_step. eapply wp_mi_lock; [exact I | intros y ->%list_elem_of_singleton; apply Hheads; by left |]. intros w1 I1 Hok1.
    pose proof (mi_brep _ _ _ _ _ _ _ _ _ _ _ _ I1) as R1.
    wp_step. eapply wp_run; [by eapply on_bw_run, live_run |]. cbn iota.
    wp_step. eapply wp_run; [by eapply on_bw_run, host_of_top |].
    destruct (rep_node _ _ _ _ h n R1 Hn) as (x & Hx & _ & Ed & _).
    wp_step. eapply wp_run; [by eapply on_bw_run, dent_at_run |]. rewrite Ed, (proj2 (Z.eqb_neq h 0) H0).
    destruct (n_dir n); cbn [andb negb].
    + wp_step. eapply wp_mi_unlock; [exact I1 | done |]. intros w2 I2 Hok2. wp_step.
      split; [| done]. split; [by exists A | apply Hok2; by left].
    + eapply wp_delete_keep; [by eexists | done | exact I1 | | by intros w2 H2].
      intros Q' HQ'. eapply wp_mi_unlock; [exact I1 | done |]. intros w2 I2 Hok2. apply HQ'; [done | apply Hok2; by left].
  - rewrite (proj2 (Z.eqb_neq h 0) H0), Z.eqb_refl, Hdir. cbn [negb andb]. wp_step. eapply wp_mi_lock2; [exact I | done |]. intros w1 I1 Hok1.
    pose proof (mi_brep _ _ _ _ _ _ _ _ _ _ _ _ I1) as R1.
    wp_step. eapply wp_run; [by eapply on_bw_run, live_run |]. cbn iota.
    wp_step. eapply wp_run; [by eapply on_bw_run, host_of_top |].
    destruct (rep_node _ _ _ _ h n R1 Hn) as (x & Hx & _ & Ed & _).
    wp_step. eapply wp_run; [by eapply on_bw_run, dent_at_run |]. rewrite Ed, Hdir, Z.eqb_refl. cbn [andb negb].
    eapply wp_delete_keep; [by eexists | done | exact I1 | | by intros w2 H2].
    intros Q' HQ'. eapply wp_mi_unlock2; [exact I1 | done |]. intros w2 I2 Hok2. apply HQ'; [done | apply Hok2; by left].
Qed.

(** A dentry without one: as in the engine. *)
Lemma delete_locked w h a bw A F Z0 C :
  minv k w r N T [] A C Z0 F P ∅ → is_Some (hbit (mw_bw w) (Bucket b)) → is_Some (N !! h) → (a = 0 ∨ a = h) →
  (if negb (a =? 0) then bl_lock2 (Bucket b) (ChildHead a) else lock_head (Bucket b)) (mw_bw w) = Ok (tt, bw) →
  minv k (set_bw bw w) r N T ([Bucket b] ++ if a =? 0 then [] else [ChildHead a]) A C Z0 F P ∅ ∧
  heads_ok bw [Bucket b; ChildHead h].
Proof.
  intros I Hb Hh Ha E. pose proof (mi_brep _ _ _ _ _ _ _ _ _ _ _ _ I) as R.
  assert (Hheads : heads_ok (mw_bw w) [Bucket b; ChildHead h]).
  { intros y [-> | ->%list_elem_of_singleton]%elem_of_cons; [done | by eapply heads_child]. }
  apply (wp_ok _ (λ _ bw, minv k (set_bw bw w) r N T ([Bucket b] ++ if a =? 0 then [] else [ChildHead a]) A C Z0 F P ∅ ∧
    heads_ok bw [Bucket b; ChildHead h]) _ _ _) in E; [exact E |].
  destruct (Z.eqb_spec a 0) as [Ea | Ea]; cbn [negb].
  - eapply wp_sect_lock1; [apply I | intros y ->%list_elem_of_singleton; done |].
    intros bw' Hl S _. split; [by eapply mi_relock | by eapply relock_heads].
  - destruct Ha as [-> | ->]; [done |]. eapply wp_sect_lock2; [apply I | done |].
    intros bw' Hl S _. split; [by eapply mi_relock | by eapply relock_heads].
Qed.

Definition going (a : Z) (w : mworld) : Prop := ok w ∧ (a = 0 ∨ child r N p (qname q) = Some a).

Lemma delete_round_same a w :
  going a w → (∀ h, child r N p (qname q) = Some h → mcount r N P h = 0) →
  mnt_delete_round p q b a w = on_bw (delete_round p q b a) w.
Proof.
  intros [[[A I] Hb] Ha] Hnone. pose proof (mi_brep _ _ _ _ _ _ _ _ _ _ _ _ I) as R.
  pose proof (mi_root _ _ _ _ _ _ _ _ _ _ _ _ I) as Er. unfold mnt_delete_round, delete_round.
  destruct (find_top_cases _ _ _ _ p q R Hq) as [[Ec Ef] | (h & n & t & Ec & Hn & Ht & Ht0 & _ & _ & _ & Ef)];
    (eapply sim_run; [exact Ef |]); [apply sim_ret |]. rewrite Er in Ec. rewrite (proj2 (Z.eqb_neq t 0) Ht0).
  apply sim_bind. intros [] bw El.
  destruct (delete_locked w h a bw _ _ _ _ I Hb ltac:(by eexists) ltac:(naive_solver congruence) El) as [I1 _].
  pose proof (mi_brep _ _ _ _ _ _ _ _ _ _ _ _ I1) as R1. set (w1 := set_bw bw w) in *.
  eapply sim_run; [by eapply live_run |]. cbn iota. eapply sim_run; [by eapply host_of_top |].
  destruct (rep_node _ _ _ _ h n R1 Hn) as (hx & Hhx & _). eapply sim_run; [by apply dent_at_run |].
  destruct (d_isdir hx && negb (h =? a)); [apply sim_bind; intros [] ? _; apply sim_ret |].
  rewrite (sim_skip (mnt_counted h) _ false).
  2:{ rewrite (mnt_counted_run _ _ _ _ _ _ _ _ _ _ _ _ I1) by (by eexists). rewrite bool_decide_eq_false_2; [done |].
      intros [v (_ & -> & Hv)%counts_lookup]%elem_of_dom. by apply Hv, Hnone. }
  eapply sim_then; [destruct (d_isdir hx); [done | apply sim_ret] |]. intros e bw2 _.
  destruct (negb e); [apply sim_bind; intros [] bw3 _; apply sim_ret |].
  do 2 (apply sim_bind; intros ? ? _). apply sim_ret.
Qed.

Lemma delete_round_again a a' w bw :
  going a w → delete_round p q b a (mw_bw w) = Ok (inl a', bw) → going a' (set_bw bw w).
Proof.
  intros [[[A I] Hb] Ha] E. pose proof (mi_brep _ _ _ _ _ _ _ _ _ _ _ _ I) as R.
  pose proof (mi_root _ _ _ _ _ _ _ _ _ _ _ _ I) as Er. unfold delete_round in E. apply bind_ok in E as (t & bw1 & Ef & E).
  destruct (find_top_cases _ _ _ _ p q R Hq) as [[Ec Ef'] | (h & n & t' & Ec & Hn & Ht & Ht0 & _ & _ & _ & Ef')];
    rewrite Ef' in Ef; injection Ef as <- <-; [done |]. rewrite Er in Ec. rewrite (proj2 (Z.eqb_neq _ 0) Ht0) in E.
  apply bind_ok in E as ([] & bw1 & El & E).
  destruct (delete_locked w h a bw1 _ _ _ _ I Hb ltac:(by eexists) ltac:(naive_solver congruence) El) as [I1 Hok1].
  pose proof (mi_brep _ _ _ _ _ _ _ _ _ _ _ _ I1) as R1. cbn [mw_bw set_bw] in R1.
  apply bind_ok in E as (mk & bw2 & Em & E). erewrite live_run in Em by done. injection Em as <- <-.
  apply bind_ok in E as (h' & bw2 & Eh & E). erewrite host_of_top in Eh by done. injection Eh as <- <-.
  apply bind_ok in E as (hx & bw2 & Ex & E). destruct (rep_node _ _ _ _ h n R1 Hn) as (hx' & Hhx & _).
  rewrite (dent_at_run _ _ _ Hhx) in Ex. injection Ex as <- <-.
  destruct (d_isdir hx' && negb (h =? a)) eqn:Ed.
  - apply bind_ok in E as ([] & bw2 & Eu & E). injection E as <- <-. split; [| by right].
    assert (a = 0) as ->.
    { destruct Ha as [-> | Ha]; [done |]. rewrite Ec in Ha. injection Ha as <-. rewrite Z.eqb_refl, andb_false_r in Ed. done. }
    apply (wp_ok _ (λ _ bw, ok (set_bw bw w)) _ _ _) in Eu; [exact Eu |].
    eapply wp_sect_unlock1; [apply I1 | intros y ->%list_elem_of_singleton; apply Hok1; by left |].
    intros bw3 Hl3 S3. split.
    + exists A. change (set_bw bw3 w) with (set_bw bw3 (set_bw bw1 w)). by eapply mi_relock.
    + eapply (relock_heads _ _ _ _ _ _ R1 Hl3 Hok1). by left.
  - apply bind_ok in E as (e & bw2 & _ & E). destruct (negb e).
    { by apply bind_ok in E as ([] & bw3 & _ & E). }
    by do 2 apply bind_ok in E as (? & ? & _ & E).
Qed.
End delete.

Lemma spec_delete_cases r names N :
  tree r N → snd (spec_delete r names N) = N ∨
  ∃ d n, N !! d = Some n ∧ d ≠ r ∧
    snd (spec_delete r names N) = <[d := Node (n_parent n) (n_name n) (n_id n) (n_dir n) false]> N.
Proof.
  intros Ht. unfold spec_delete. destruct names as [| nm nms]; [by left |].
  destruct (nwalk r N r (nm :: nms)) as [d |] eqn:Ew; cbn [mbind option_bind]; [| by left].
  destruct (N !! d) as [n |] eqn:Hn; cbn [mbind option_bind]; [| by left].
  destruct (negb (n_pos n)); [by left |]. destruct (_ && _); [by left |]. right. exists d, n. split_and!; [done | | done].
  by eapply (nwalk_not_root r N (nm :: nms)).
Qed.

(** ** The whole calls *)

Section whole.
Context `{HL : Layout} `{!LayoutOk HL}.
Variables (k : nat) (r : Z) (N : nspace) (T : gmap Z Z) (P : gset Z) (w : mworld) (path : dc_path).
Hypothesis Hw : mquiet k w r N T P.
Hypothesis Hp : path_wf path.

Lemma quiet_binv k' w' : mquiet k' w' r N T P → binv k' (mw_bw w') N T ∧ bw_root (mw_bw w') = r ∧ P ⊆ dom N ∧ tree r N.
Proof.
  intros [A I]. split_and!; [apply sect_binv, I | apply I | apply I |]. by apply (mi_tree _ _ _ _ _ _ _ _ _ _ _ _ I).
Qed.

(** The parent, found without a change of the table. *)
Definition found (k' : nat) (p : Z) (w' : mworld) : Prop :=
  mquiet k' w' r N T P ∧
  nwalk r N r (take (ndepth path - 1) (pnames path)) = (if p =? 0 then None else Some p) ∧
  (p ≠ 0 → is_Some (N !! p)).

Lemma wp_resolved k' w' : mquiet k' w' r N T P → wp (on_bw (resolve path (ndepth path - 1))) (found k') w'.
Proof.
  intros Hq. destruct (quiet_binv _ _ Hq) as (Hi & Er & HP & _). apply wp_zoom.
  apply (wp_resolve_parent k' _ N T path); [done | done | |]; rewrite Er.
  - intros bw1 Hi1 Er1 _ _ Hn. split_and!; [| by rewrite Hn | done]. by eapply mquiet_bw.
  - intros bw1 p1 pn Hi1 Er1 _ _ Hn Hpn _ Hp0. unfold found. rewrite (proj2 (Z.eqb_neq p1 0) Hp0).
    split_and!; [by eapply mquiet_bw | done | by eexists].
Qed.

Lemma resolved k' w' p bw :
  mquiet k' w' r N T P → resolve path (ndepth path - 1) (mw_bw w') = Ok (p, bw) → found k' p (set_bw bw w').
Proof.
  intros Hq E. apply (wp_ok (on_bw (resolve path (ndepth path - 1))) (found k') w' p); [by apply wp_resolved |].
  unfold on_bw, st_zoom. by rewrite E.
Qed.

Lemma entered k' w' bw :
  mquiet k' w' r N T P → rcu_read_lock (mw_bw w') = Ok (tt, bw) → mquiet (S k') (set_bw bw w') r N T P.
Proof.
  intros Hq E. apply (wp_ok (on_bw rcu_read_lock) (λ _ w, mquiet (S k') w r N T P) w' tt).
  - by eapply wp_mnt_enter.
  - unfold on_bw, st_zoom. by rewrite E.
Qed.

Lemma wp_mnt_enter_mask k' w' (Q : unit → mworld → Prop) :
  mquiet k' w' r N T P → (∀ w2, mquiet (S k') w2 r N T P → bw_mask (mw_bw w2) = bw_mask (mw_bw w') → Q tt w2) →
  wp (on_bw rcu_read_lock) Q w'.
Proof.
  intros Hq HQ. apply wp_zoom. unfold rcu_read_lock. wp_step. apply HQ; [| done].
  by eapply entered.
Qed.

Lemma mnt_unlink_same :
  (∀ h, pnames path ≠ [] → nwalk r N r (pnames path) = Some h → kids r N h = [] → h ∉ P) →
  mnt_unlink path w = on_bw (dc_unlink path) w.
Proof.
  intros Hleaf. unfold mnt_unlink, dc_unlink. destruct (decide (ndepth path = 0)%nat) as [H0 | H0]; [apply sim_ret |].
  destruct (path_split path Hp H0) as (q & Hq & Hqw & Hn & _).
  assert (pnames path ≠ []) as Hne by (by apply pnames_nonempty). specialize (λ h, Hleaf h Hne). rewrite Hn in Hleaf.
  apply sim_bind. intros p bw E. destruct (resolved k w p bw Hw E) as (Hw1 & Ew & Hpn). rewrite Ew in Hleaf.
  set (w1 := set_bw bw w) in *. destruct (Z.eqb_spec p 0) as [_ | Hp0]; [apply sim_ret |]. specialize (Hpn Hp0).
  eapply sim_run; [by apply comp_at_run |]. eapply sim_run; [done |]. rewrite (qw_hash q Hqw).
  apply sim_bind. intros [] bw1 E1. pose proof (entered k w1 bw1 Hw1 E1) as Hw2. destruct Hw2 as [A2 I2].
  assert (Em : bw_mask bw1 = bw_mask (mw_bw w1)) by (unfold rcu_read_lock in E1; injection E1 as <-; done). rewrite <- Em.
  set (w2 := set_bw bw1 w1) in *. set (b := bucket_index _ _ _).
  assert (ready (S k) r N T P b w2) as Hr.
  { split; [by exists A2 |]. exact (heads_bucket _ _ _ _ p _ (mi_brep _ _ _ _ _ _ _ _ _ _ _ _ I2)). }
  cbn [mbind option_bind] in Hleaf.
  destruct (sim_iter (unlink_round p q b) (mnt_unlink_round p q b) (λ _ w, ready (S k) r N T P b w)) with (p := RETRY_ROUNDS)
    (a := tt) (w := w2) as [Es _]; [| done |].
  { intros [] w3 Hr3. split; [by eapply unlink_round_same |]. intros a' bw3 E3. by eapply unlink_round_once in E3. }
  eapply sim_then; [exact Es |]. intros [? | [e | [t h]]] bw3 _; [done | |].
  - apply sim_bind. intros [] bw4 _. apply sim_ret.
  - apply sim_bind. intros cf bw4 _. do 3 (apply sim_bind; intros [] ? _). apply sim_ret.
Qed.

Lemma wp_mnt_unlink :
  wp (mnt_unlink path) (λ ret w', ret = fst (mnt_unlink_spec r P (pnames path) N) ∧
    ∃ T', mquiet k w' r (snd (mnt_unlink_spec r P (pnames path) N)) T' P) w.
Proof.
  destruct (quiet_binv _ _ Hw) as (Hi & Er & HP & Htr).
  assert (Hplain : (∀ h, pnames path ≠ [] → nwalk r N r (pnames path) = Some h → kids r N h = [] → h ∉ P) →
    wp (mnt_unlink path) (λ ret w', ret = fst (spec_unlink r (pnames path) N) ∧
      ∃ T', mquiet k w' r (snd (spec_unlink r (pnames path) N)) T' P) w).
  { intros Hleaf. unfold wp. rewrite mnt_unlink_same by done. apply wp_zoom. rewrite <- Er.
    eapply wp_mono; [by eapply wp_bl_unlink |]. intros ret bw [-> [T' Hi'] Er' _]. split; [done |]. exists T'. rewrite Er in *.
    unfold spec_unlink in *. destruct (pnames path) as [| nm nms] eqn:En; [by eapply mquiet_bw |].
    destruct (nwalk r N r (nm :: nms)) as [d |] eqn:Ew; [| by eapply mquiet_bw].
    case_bool_decide as Hk; cbn [negb fst snd] in *; [| by eapply mquiet_bw].
    assert (d ≠ r) as Hdr by (by eapply (nwalk_not_root r N (nm :: nms))). specialize (Hleaf d ltac:(done) eq_refl Hk).
    eapply mquiet_bw; [done | done | done | by apply counts_unlinked |]. rewrite dom_delete_L. set_solver. }
  unfold mnt_unlink_spec. destruct (nwalk r N r (pnames path)) as [d |] eqn:Ew; [| by apply Hplain].
  case_decide as Hd; [| apply Hplain; intros h Hne [= <-] Hk Hh; by apply Hd].
  clear Hplain. destruct Hd as (HdP & Hne & Hk). assert (ndepth path ≠ 0)%nat as H0 by (intros E; apply Hne; unfold pnames; by rewrite E).
  destruct (path_split path Hp H0) as (q & Hq & Hqw & Hn & _). rewrite Hn in Ew.
  unfold mnt_unlink. rewrite decide_False by done. wp_step. eapply wp_mono; [by apply wp_resolved |]. intros p w1 (Hw1 & Ep & Hpn).
  rewrite Ep in Ew. destruct (Z.eqb_spec p 0) as [_ | Hp0]; [done |]. cbn [mbind option_bind] in Ew. specialize (Hpn Hp0).
  wp_step. eapply wp_run; [by apply on_bw_run, comp_at_run |]. wp_step. eapply wp_run; [by apply on_bw_run |]. rewrite (qw_hash q Hqw).
  wp_step. eapply wp_mnt_enter_mask; [exact Hw1 |]. intros w2 Hw2 Em. rewrite <- Em. set (b := bucket_index _ _ _).
  wp_step. eapply wp_iter_first, wp_mono; [eapply (wp_unlink_busy (S k) r N T P p b q); [done | done | | done | done | done] |].
  { destruct Hw2 as [A2 I2]. split; [by exists A2 |]. exact (heads_bucket _ _ _ _ p _ (mi_brep _ _ _ _ _ _ _ _ _ _ _ _ I2)). }
  intros x w3 [-> [A3 I3]]. eexists. split; [done |]. cbn beta iota. wp_step. eapply wp_mi_leave; [exact I3 |]. intros w4 I4. wp_step.
  split; [done |]. exists T. by exists A3.
Qed.

Lemma mnt_delete_same :
  (∀ h, pnames path ≠ [] → nwalk r N r (pnames path) = Some h → mcount r N P h = 0) →
  mnt_delete path w = on_bw (dc_delete path) w.
Proof.
  intros Hnone. unfold mnt_delete, dc_delete. destruct (decide (ndepth path = 0)%nat) as [H0 | H0]; [apply sim_ret |].
  destruct (path_split path Hp H0) as (q & Hq & Hqw & Hn & _).
  assert (pnames path ≠ []) as Hne by (by apply pnames_nonempty). specialize (λ h, Hnone h Hne). rewrite Hn in Hnone.
  apply sim_bind. intros [] bw0 E0. pose proof (entered k w bw0 Hw E0) as Hw0. set (w0 := set_bw bw0 w) in *.
  apply sim_bind. intros p bw E. destruct (resolved (S k) w0 p bw Hw0 E) as (Hw1 & Ew & Hpn). rewrite Ew in Hnone.
  set (w1 := set_bw bw w0) in *. destruct (Z.eqb_spec p 0) as [_ | Hp0]; [apply sim_bind; intros [] ? _; apply sim_ret |].
  eapply sim_run; [by apply comp_at_run |]. eapply sim_run; [done |]. rewrite (qw_hash q Hqw). set (b := bucket_index _ _ _).
  assert (ready (S k) r N T P b w1) as Hr.
  { destruct Hw1 as [A1 I1]. split; [by exists A1 |]. exact (heads_bucket _ _ _ _ p _ (mi_brep _ _ _ _ _ _ _ _ _ _ _ _ I1)). }
  cbn [mbind option_bind] in Hnone.
  destruct (sim_iter (delete_round p q b) (mnt_delete_round p q b) (going (S k) r N T P p b q)) with (p := RETRY_ROUNDS)
    (a := 0) (w := w1) as [Es _]; [| by split; [| left] |].
  { intros a w3 Hr3. split; [by eapply delete_round_same |]. intros a' bw3. by eapply delete_round_again. }
  eapply sim_then; [exact Es |]. intros [? | e] bw3 _; [done |]. apply sim_bind. intros [] bw4 _. apply sim_ret.
Qed.

Lemma wp_mnt_delete :
  (∀ h, nwalk r N r (pnames path) = Some h → h ∉ P → mcount r N P h = 0) →
  wp (mnt_delete path) (λ ret w', ret = fst (mnt_delete_spec r P (pnames path) N) ∧
    ∃ T', mquiet k w' r (snd (mnt_delete_spec r P (pnames path) N)) T' P) w.
Proof.
  intros Hnone. destruct (quiet_binv _ _ Hw) as (Hi & Er & HP & Htr).
  assert (Hplain : (∀ h, pnames path ≠ [] → nwalk r N r (pnames path) = Some h → mcount r N P h = 0) →
    wp (mnt_delete path) (λ ret w', ret = fst (spec_delete r (pnames path) N) ∧
      ∃ T', mquiet k w' r (snd (spec_delete r (pnames path) N)) T' P) w).
  { intros Hno. unfold wp. rewrite mnt_delete_same by done. apply wp_zoom. rewrite <- Er.
    eapply wp_mono; [by eapply wp_bl_delete |]. intros ret bw [-> [T' Hi'] Er' _]. split; [done |]. exists T'. rewrite Er in *.
    destruct (spec_delete_cases r (pnames path) N Htr) as [E | (d & n & Hn & Hdr & E)]; rewrite E in *; [by eapply mquiet_bw |].
    pose proof (tree_set_attrs r N d n (n_id n) (n_dir n) false Htr Hn Hdr) as Ht'. eapply mquiet_bw; [done | done | done | | rewrite dom_insert_L; set_solver].
    apply counts_parents; [done.. |]. intros y.
    destruct (decide (y = d)) as [-> |]; [by rewrite lookup_insert_eq, Hn | by rewrite lookup_insert_ne]. }
  unfold mnt_delete_spec. destruct (pnames path) as [| nm nms] eqn:En; [by apply Hplain |]. rewrite <- En in *.
  destruct (nwalk r N r (pnames path)) as [d |] eqn:Ew.
  2:{ specialize (Hplain ltac:(done)). unfold spec_delete in Hplain. rewrite En, <- En, Ew in Hplain. done. }
  case_decide as Hd; [| apply Hplain; intros h _ [= <-]; by apply Hnone]. clear Hplain.
  assert (ndepth path ≠ 0)%nat as H0 by (intros E; unfold pnames in En; by rewrite E in En).
  destruct (path_split path Hp H0) as (q & Hq & Hqw & Hn & _). rewrite Hn in Ew.
  unfold mnt_delete. rewrite decide_False by done. wp_step. eapply wp_mnt_enter; [exact Hw |]. intros w0 Hw0.
  wp_step. eapply wp_mono; [by apply wp_resolved |]. intros p w1 (Hw1 & Ep & Hpn).
  rewrite Ep in Ew. destruct (Z.eqb_spec p 0) as [_ | Hp0]; [done |]. cbn [mbind option_bind] in Ew.
  wp_step. eapply wp_run; [by apply on_bw_run, comp_at_run |]. wp_step. eapply wp_run; [by apply on_bw_run |]. rewrite (qw_hash q Hqw).
  set (b := bucket_index _ _ _).
  assert (Hr : ready (S k) r N T P b w1).
  { destruct Hw1 as [A1 I1]. split; [by exists A1 |]. exact (heads_bucket _ _ _ _ p _ (mi_brep _ _ _ _ _ _ _ _ _ _ _ _ I1)). }
  pose proof (child_Some_1 _ _ _ _ _ Ew) as (Hdr & n & Hdn & _).
  assert (mcount r N P d ≠ 0) as Hc.
  { destruct (t_up _ _ Htr d ltac:(by eexists)) as [l Hl]. destruct (upto_head _ _ _ _ Hl) as [l' El].
    pose proof (mcount_above r N Htr P d l d Hl Hd ltac:(rewrite El; by left)). lia. }
  assert (Hend : ∀ w2, ready (S k) r N T P b w2 → wp (on_bw rcu_read_unlock ;;; st_ret (- EBUSY))
    (λ ret w', ret = fst (- EBUSY, N) ∧ ∃ T', mquiet k w' r (snd (- EBUSY, N)) T' P) w2).
  { intros w2 [[A2 I2] _]. wp_step. eapply wp_mi_leave; [exact I2 |]. intros w3 I3. wp_step. split; [done |]. exists T. by exists A2. }
  apply wp_twice. eapply wp_mono; [exact (wp_delete_counted (S k) r N T P p b q Hqw d n 0 w1 Hdn Ew Hc (or_introl eq_refl) Hr) |].
  intros x w2 [Hr2 ->]. destruct (n_dir n) eqn:Ed; cbn [andb]; [| rewrite decide_True by done; by apply Hend].
  destruct (Z.eqb_spec d 0) as [E0 | _]; cbn [negb]; [rewrite decide_True by done; by apply Hend |].
  eapply wp_mono; [exact (wp_delete_counted (S k) r N T P p b q Hqw d n d w2 Hdn Ew Hc (or_intror (conj eq_refl Ed)) Hr2) |].
  intros x w3 [Hr3 ->]. rewrite Z.eqb_refl, andb_false_r, decide_True by done. by apply Hend.
Qed.
End whole.

