(* ===== verification/MountFind.v ===== *)
(** The search for a mountpoint: down through the children that have a count, and the
    check that what was found is below where the search began. *)

From S2P Require Import Prelude Qstr HList Lru World Walk Namespace TreeOps Paths BlChain BlLists BlLru BlWorld BlWalk.
From S2P Require Import BlOps BlMove BlInv BlReads BlWalkSpec BlReadSpec BlLocks BlRep BlSect Mount MountRep MountSet.
From S2P Require Import MountSpec MountClimb MountOps.

(** What the search hands back: a mountpoint at or below [h] when there is one. *)
Definition mount_find_spec (r : Z) (N : nspace) (P : gset Z) (names : list (list Z)) (res : Z * Z) : Prop :=
  match nwalk r N r names with
  | None => res = (- ENOENT, 0)
  | Some h =>
      if mcount r N P h =? 0 then res = (0, 0)
      else ∃ p n, p ∈ points_below r N P h ∧ N !! p = Some n ∧ res = (1, n_id n)
  end.

Section find.
Variables (k : nat) (w : mworld) (r : Z) (N : nspace) (T : gmap Z Z) (P : gset Z).
Hypothesis Hq : mquiet k w r N T P.

Lemma mq_rep : rep (mw_bw w) N T ∅.
Proof. destruct Hq as [A I]. apply (mi_brep _ _ _ _ _ _ _ _ _ _ _ _ I). Qed.
Lemma mq_root : bw_root (mw_bw w) = r.
Proof. destruct Hq as [A I]. apply I. Qed.
Lemma mq_tree : tree r N.
Proof. destruct Hq as [A I]. apply (mi_tree _ _ _ _ _ _ _ _ _ _ _ _ I). Qed.
Lemma mq_points : P ⊆ dom N.
Proof. destruct Hq as [A I]. apply I. Qed.

(** The object of a dentry and its count. *)
Lemma mnt_count_run h : is_Some (N !! h) →
  ∃ m, (let! counted := mnt_counted h in if counted : bool then mnt_find_rcu h else st_ret 0) w = Ok (m, w) ∧
    (m = 0 ↔ mcount r N P h = 0) ∧ (m ≠ 0 → mnt_read m w = Ok (mcount r N P h, w)).
Proof.
  intros Hh. destruct Hq as [A I]. pose proof (mr_dom _ _ _ _ _ _ _ (mi_rep _ _ _ _ _ _ _ _ _ _ _ _ I)) as Hd.
  pose proof (counts_default r N P h Hh) as Hc. destruct (counts r N P !! h) as [c |] eqn:Ec; simpl in Hc.
  - apply counts_lookup in Ec as Ec'. destruct Ec' as (_ & _ & Hne).
    assert (h ∈ dom (counts r N P)) as Hin by (apply elem_of_dom; by eexists).
    assert (is_Some (A !! h)) as [m Hm] by (apply elem_of_dom; by rewrite Hd).
    destruct (obj_of _ _ _ _ _ _ _ _ _ _ _ _ I h m Hm) as (_ & _ & _ & Hm0 & _).
    exists m. split_and!; [| by rewrite <- Hc |].
    + eapply bind_run; [by eapply mnt_counted_run |]. cbn beta. rewrite bool_decide_eq_true_2 by done.
      erewrite mnt_find_run by exact I. by rewrite Hm.
    + intros _. rewrite <- Hc. by eapply mnt_read_run.
  - exists 0. split_and!; [| by rewrite <- Hc | done].
    eapply bind_run; [by eapply mnt_counted_run |]. cbn beta. rewrite bool_decide_eq_false_2; [done |].
    by rewrite elem_of_dom, Ec; intros [? ?].
Qed.

Lemma mnt_some_run h : is_Some (N !! h) → mnt_some h w = Ok (negb (mcount r N P h =? 0), w).
Proof.
  intros Hh. destruct (mnt_count_run h Hh) as (m & E & Hz & Hr). unfold mnt_some.
  unfold st_bind in E |- *. destruct (mnt_counted h w) as [[b w1] | e]; [| done]. cbn beta iota in E |- *. rewrite E.
  destruct (Z.eqb_spec m 0) as [-> | Hm].
  - rewrite (proj2 (Z.eqb_eq _ _) (proj1 Hz eq_refl)). done.
  - rewrite (Hr Hm). assert (mcount r N P h ≠ 0) as Hne by (by intros ?%Hz).
    rewrite (proj2 (Z.eqb_neq _ _) Hne). pose proof (mcount_nonneg r N P h). unfold st_ret. repeat f_equal. lia.
Qed.

(** The scan of the children. *)
Lemma find_kid_run C d ts hs : ∀ ts0 fuel,
  chain_has (bw_sib (mw_bw w)) C → C d = ts0 ++ ts → Forall2 (stands_for T) ts hs → (length ts < fuel)%nat →
  Forall (λ h, is_Some (N !! h)) hs →
  find_kid fuel (hd0 ts) w = Ok (default 0 (snd <$> list_find (λ h, mcount r N P h ≠ 0) hs), w).
Proof.
  intros ts0 fuel HC E Hts. revert ts0 fuel E. induction Hts as [| t h ts hs Ht Hts IH]; intros ts0 fuel E Hf Hh;
    (destruct fuel as [| fuel]; [simpl in Hf; lia |]); [done |].
  apply Forall_cons in Hh as [Hh Hhs].
  assert (t ≠ 0) as H0.
  { intros ->. apply (ci_nonzero _ _ _ _ HC d). rewrite E. apply elem_of_app. right. by left. }
  cbn [find_kid]. unfold hd0. simpl. destruct (Z.eqb_spec t 0); [done |].
  eapply bind_run; [by eapply on_bw_run, host_of_top; [apply mq_rep |] |]. cbn beta.
  eapply bind_run; [by apply mnt_some_run |]. cbn beta.
  destruct (Z.eqb_spec (mcount r N P h) 0) as [Ec | Ec]; cbn [negb].
  - rewrite decide_False by naive_solver.
    eapply bind_run; [by eapply on_bw_run, (next_run _ bw_sib set_sib C d ts0 t ts set_sib_id HC E) |]. cbn beta.
    rewrite (IH (ts0 ++ [t]) fuel); [| by rewrite E, <- app_assoc | simpl in Hf; lia | done].
    by destruct (list_find _ hs) as [[i x] |].
  - rewrite decide_True by done. done.
Qed.

(** *** The search *)

(** How deep the mountpoints are. *)
Variable depth : nat.
Hypothesis Hdepth : ∀ p l, p ∈ P → upto r N p l → (length l ≤ depth)%nat.

Lemma find_down_run hops : ∀ h l,
  upto r N h l → is_Some (N !! h) → mcount r N P h ≠ 0 → (depth ≤ length l + hops)%nat →
  ∃ p, find_down hops h w = Ok (p, w) ∧ p ∈ points_below r N P h.
Proof.
  pose proof mq_tree as Ht. pose proof mq_rep as R. pose proof mq_points as HP. pose proof Hq as [A I].
  induction hops as [| hops IH]; intros h l Hl Hh Hc Hd;
    (destruct (rep_aligned _ _ _ _ R h Hh) as [_ H0]); cbn [find_down]; rewrite (proj2 (Z.eqb_neq h 0) H0);
    (destruct (decide (h ∈ P)) as [HhP | HhP];
      [exists h; split; [eapply bind_run; [by eapply mnt_here_run |]; cbn beta; by rewrite bool_decide_eq_true_2
        | apply points_below_spec; split; [done |]; apply (subdir_upto r N Ht h h l Hl);
          destruct (upto_head _ _ _ _ Hl) as [? ->]; by left] |]).
  - exfalso. destruct (counting_child r N P h Ht HP Hc HhP) as (c & n & Hn & Hcr & Hpar & Hcc).
    assert (upto r N c (c :: l)) as Hlc by (econstructor; [exact Hn | done | by rewrite Hpar]).
    pose proof (counting_depth r N P c _ depth Ht HP Hcc Hlc Hdepth). simpl in *. lia.
  - destruct (child_list (mw_bw w) N T ∅ R h Hh) as (C & b & hs & HC & Hb & Hts & Hfuel & Hperm).
    rewrite mq_root in Hperm.
    destruct (counting_kid r N P h hs Ht HP Hc HhP Hperm) as (i & x & m & Ef & Hm & Hxr & Hmp & Hxc).
    destruct (IH x (x :: l)) as (p & Ep & Hp); [by econstructor; [exact Hm | done | rewrite Hmp] | by eexists | done | simpl; lia |].
    exists p. split; [| rewrite <- Hmp; by eapply points_below_child].
    eapply bind_run; [by eapply mnt_here_run |]. cbn beta. rewrite bool_decide_eq_false_2 by done.
    eapply bind_run; [by eapply on_bw_run, (first_run _ bw_sib set_sib C h b set_sib_id HC Hb) |]. cbn beta.
    eapply bind_run; [apply gets_run |]. cbn beta.
    eapply bind_run; [eapply (find_kid_run C h (C h) hs []); [done | done | done | done |] |].
    { apply Forall_forall. intros y Hy. rewrite Hperm in Hy. apply elem_of_kids in Hy as (_ & m' & ? & _). by eexists. }
    rewrite Ef. exact Ep.
Qed.

Lemma mount_find_run h : is_Some (N !! h) → depth = S DC_MNT_CLIMB_MAX →
  ∃ res, mount_find_round h tt w = Ok (inr res, w) ∧
    if mcount r N P h =? 0 then res = (0, 0)
    else ∃ p n, p ∈ points_below r N P h ∧ N !! p = Some n ∧ res = (1, n_id n).
Proof.
  intros Hh Hd. destruct (mnt_count_run h Hh) as (m & E & Hz & Hr). unfold mount_find_round.
  destruct (decide (mcount r N P h = 0)) as [Hc | Hc].
  - rewrite (proj2 (Z.eqb_eq _ _) Hc). exists (0, 0). split; [| done]. apply Hz in Hc as ->.
    unfold st_bind in E |- *. destruct (mnt_counted h w) as [[b w1] | e]; [| done]. cbn beta iota in E |- *. by rewrite E.
  - rewrite (proj2 (Z.eqb_neq _ _) Hc). assert (m ≠ 0) as Hm by (by intros ?%Hz).
    destruct (t_up _ _ mq_tree h Hh) as [l Hl].
    destruct (find_down_run DC_LOOP_MAX h l Hl Hh Hc) as (p & Ep & Hp).
    { rewrite Hd. unfold DC_LOOP_MAX, DC_MNT_CLIMB_MAX, DC_PATH_MAX. lia. }
    apply points_below_spec in Hp as Hp'. destruct Hp' as [HpP Hs]. pose proof (mq_points p HpP) as [n Hn]%elem_of_dom.
    destruct (t_up _ _ mq_tree p ltac:(by eexists)) as [lp Hlp]. apply (subdir_upto r N mq_tree p h lp Hlp) in Hs.
    pose proof (Hdepth p lp HpP Hlp) as Hlen. rewrite Hd in Hlen.
    destruct (rep_aligned _ _ _ _ mq_rep p ltac:(by eexists)) as [_ Hp0].
    destruct (rep_top _ _ _ _ mq_rep p n Hn) as (t & x & tx & _ & En).
    assert (on_bw (mnt_below_rcu p h) w = Ok (1, w)) as Eb
      by (apply on_bw_run, (mnt_below_run (mw_bw w) N T ∅ mq_rep h p lp); [by rewrite mq_root | done | done]).
    destruct Hq as [A I].
    exists (1, n_id n). split; [| by exists p, n].
    unfold st_bind in E. unfold st_bind at 1. destruct (mnt_counted h w) as [[b w1] | e]; [| done]. cbn beta iota in E |- *.
    eapply bind_run; [exact E |]. cbn beta. rewrite (proj2 (Z.eqb_neq m 0) Hm). eapply bind_run; [by apply Hr |]. cbn beta. rewrite (proj2 (Z.eqb_neq _ _) Hc). cbn [orb].
    eapply bind_run; [exact Ep |]. cbn beta. rewrite (proj2 (Z.eqb_neq p 0) Hp0). eapply bind_run; [exact Eb |]. cbn [negb andb Z.ltb Z.compare].
    eapply bind_run; [eapply mnt_here_run; [exact I | by eexists] |]. cbn beta. rewrite bool_decide_eq_true_2 by done.
    eapply bind_run; [apply on_bw_run, dent_at_run, (en_host _ _ _ _ _ _ En) |]. cbn beta. by rewrite (en_id _ _ _ _ _ _ En).
Qed.
End find.

Lemma wp_dc_mount_find k w r N T P path :
  mquiet k w r N T P → path_wf path →
  (∀ p l, p ∈ P → upto r N p l → (length l ≤ S DC_MNT_CLIMB_MAX)%nat) →
  wp (dc_mount_find path) (λ res w', mount_find_spec r N P (pnames path) res ∧ mquiet k w' r N T P) w.
Proof.
  intros Hq Hp Hd. unfold dc_mount_find. wp_step. eapply wp_mnt_enter; [exact Hq |]. intros w1 Hq1.
  destruct (mnt_resolve_run _ _ _ _ _ _ path Hq1 Hp) as [p' Ep]. wp_step. eapply wp_run; [exact Ep |]. cbn [fst].
  unfold mount_find_spec. pose proof Hq1 as [A I].
  destruct (nwalk r N r (pnames path)) as [h |] eqn:Ew; cbn [default from_option].
  - change (id h) with h. destruct (nwalk_known _ _ _ _ _ _ _ h Hq1 Ew) as (H0 & n & Hn). rewrite (proj2 (Z.eqb_neq h 0) H0).
    destruct (mount_find_run (S k) w1 r N T P Hq1 _ Hd h ltac:(by eexists) eq_refl) as (res & E & Hres).
    apply wp_once. eapply wp_run; [exact E |]. eexists. split; [done |].
    wp_step. eapply wp_mi_leave; [exact I |]. intros w2 I2. wp_step. split; [done | by exists A].
  - cbn [Z.eqb]. wp_step. eapply wp_mi_leave; [exact I |]. intros w2 I2. wp_step. split; [done | by exists A].
Qed.
