(* ===== verification/MountCheck.v ===== *)
(** The audit of the mount table: counting again from the mountpoints up finds nothing
    wrong with a table that is exact. *)

From S2P Require Import Prelude Qstr HList Lru World Walk Namespace TreeOps Paths BlChain BlLists BlLru BlWorld BlWalk.
From S2P Require Import BlOps BlMove BlInv BlReads BlWalkSpec BlLocks BlRep BlSect Mount MountRep MountSet MountSpec.
From S2P Require Import MountClimb MountOps.

(** ** A pass over the objects *)

Section pass.
Context {X : Type} (f : Z → X → MM X) (K : Z → list Z) (J : list Z → X → mworld → Prop).
Hypothesis Jtable : ∀ l a w, J l a w → mw_bkt w = K.

Lemma wp_mnt_each L l : ∀ pre post a w (Q : X → mworld → Prop),
  (∀ pre m post a w, L = pre ++ m :: post → J pre a w → wp (f m a) (J (pre ++ [m])) w) →
  L = pre ++ l ++ post → J pre a w → (∀ a' w', J (pre ++ l) a' w' → Q a' w') → wp (mnt_each f l a) Q w.
Proof.
  induction l as [| m l IH]; intros pre post a w Q Hf HL Hj HQ; cbn [mnt_each].
  { wp_step. apply HQ. by rewrite app_nil_r. }
  wp_step. eapply wp_mono; [eapply Hf; [exact HL | done] |]. intros a1 w1 Hj1.
  eapply (IH (pre ++ [m]) post); [done | by rewrite HL, <- app_assoc | done |].
  intros a2 w2. rewrite <- app_assoc. apply HQ.
Qed.

Lemma wp_bkt_each L bs : ∀ pre a w (Q : X → mworld → Prop),
  (∀ pre m post a w, L = pre ++ m :: post → J pre a w → wp (f m a) (J (pre ++ [m])) w) →
  L = pre ++ concat (K <$> bs) → J pre a w → (∀ a' w', J L a' w' → Q a' w') → wp (bkt_each f bs a) Q w.
Proof.
  induction bs as [| b bs IH]; intros pre a w Q Hf HL Hj HQ; cbn [bkt_each].
  { wp_step. apply HQ. by rewrite HL; simpl; rewrite app_nil_r. }
  wp_step. wp_step. wp_step. rewrite (Jtable _ _ _ Hj). cbn [fmap list_fmap concat] in HL.
  eapply (wp_mnt_each L (K b) pre (concat (K <$> bs))); [done | done | done |]. intros a1 w1 Hj1.
  eapply (IH (pre ++ K b)); [done | by rewrite HL, <- app_assoc | done | done].
Qed.
End pass.

Lemma mnt_bkt_in h : mnt_bkt h ∈ mnt_buckets.
Proof.
  unfold mnt_buckets. apply list_elem_of_fmap. exists (Z.to_nat (mnt_bkt h)).
  assert (0 ≤ mnt_bkt h < 2 ^ DC_MNT_HASH_BITS) as Hr.
  { unfold mnt_bkt, w64. set (v := (_ mod _)%Z). assert (0 ≤ v < 2 ^ 64) by (apply Z.mod_pos_bound; lia).
    rewrite Z.shiftr_div_pow2 by (unfold DC_MNT_HASH_BITS; lia). unfold DC_MNT_HASH_BITS. change (64 - 8) with 56.
    split; [apply Z.div_pos; lia | apply Z.div_lt_upper_bound; lia]. }
  split; [lia |]. apply elem_of_seq. unfold DC_MNT_HASH_BITS in *. lia.
Qed.

Lemma mnt_buckets_nodup : NoDup mnt_buckets.
Proof. apply (NoDup_fmap_2 _), NoDup_seq. Qed.

(** ** The objects of the table *)

Definition shadow_of (w : mworld) (m : Z) : option Z := m_shadow <$> mw_obj w !! m.

Lemma elem_of_chains (K : Z → list Z) bs m : m ∈ concat (K <$> bs) ↔ ∃ b, b ∈ bs ∧ m ∈ K b.
Proof.
  induction bs as [| b bs IH]; cbn [fmap list_fmap concat].
  - split; [by intros ?%not_elem_of_nil | by intros (b & ?%not_elem_of_nil & _)].
  - rewrite elem_of_app. setoid_rewrite elem_of_cons. rewrite IH. naive_solver.
Qed.

Section table.
Variables (k : nat) (r : Z) (N : nspace) (T : gmap Z Z) (A C : gmap Z Z) (F P : gset Z).
Abbreviation mi w := (minv k w r N T [] A C ∅ F P ∅).

Lemma objects_nodup w : mi w → NoDup (concat (mw_bkt w <$> mnt_buckets)).
Proof.
  intros I. pose proof (mi_rep _ _ _ _ _ _ _ _ _ _ _ _ I) as R.
  assert (∀ bs, NoDup bs → NoDup (concat (mw_bkt w <$> bs))) as H; [| apply H, mnt_buckets_nodup].
  induction 1 as [| b bs Hb _ IH]; [constructor |]. cbn [fmap list_fmap concat]. apply NoDup_app.
  split_and!; [apply (mr_nodup _ _ _ _ _ _ _ R) | | exact IH].
  intros m (h & Hm & Eb)%(mr_bkt _ _ _ _ _ _ _ R) (b' & Hb' & Hl)%elem_of_chains.
  apply (mr_bkt _ _ _ _ _ _ _ R) in Hl as (h' & Hm' & Eb').
  pose proof (obj_inj _ _ _ _ _ _ _ _ _ _ _ _ I h h' m Hm Hm') as <-. congruence.
Qed.

(** Every object is on one chain, once. *)
Lemma objects_spec w : mi w → concat (mw_bkt w <$> mnt_buckets) ≡ₚ snd <$> map_to_list A.
Proof.
  intros I. pose proof (mi_rep _ _ _ _ _ _ _ _ _ _ _ _ I) as R. apply NoDup_Permutation.
  - by apply objects_nodup.
  - apply NoDup_fmap_2_strong; [| apply NoDup_map_to_list].
    intros [h m] [h' m'] Hh%elem_of_map_to_list Hh'%elem_of_map_to_list E. simpl in E. subst m'.
    by rewrite (obj_inj _ _ _ _ _ _ _ _ _ _ _ _ I h h' m Hh Hh').
  - intros m. rewrite elem_of_chains, list_elem_of_fmap. split.
    + intros (b & _ & (h & Hm & _)%(mr_bkt _ _ _ _ _ _ _ R)). exists (h, m). split; [done | by apply elem_of_map_to_list].
    + intros ([h m'] & -> & Hm%elem_of_map_to_list). exists (mnt_bkt h). split; [apply mnt_bkt_in |].
      apply (mr_bkt _ _ _ _ _ _ _ R). eauto.
Qed.

Lemma objects_host w m : mi w → m ∈ concat (mw_bkt w <$> mnt_buckets) → ∃ h, A !! h = Some m.
Proof.
  intros I. rewrite (objects_spec w I), list_elem_of_fmap. intros ([h m'] & -> & Hm%elem_of_map_to_list). eauto.
Qed.

(** A shadow is written, nothing else changes. *)
Lemma wp_shadow w h m s (g : Z → Z) (Q : unit → mworld → Prop) :
  mi w → A !! h = Some m → shadow_of w m = Some s →
  (∀ w', mi w' → mw_bkt w' = mw_bkt w → shadow_of w' m = Some (g s) →
     (∀ m', m' ≠ m → shadow_of w' m' = shadow_of w m') → Q tt w') →
  wp (mnt_store m (λ x, set_shadow (g (m_shadow x)) x)) Q w.
Proof.
  intros I Hm Hs HQ. destruct (obj_of _ _ _ _ _ _ _ _ _ _ _ _ I h m Hm) as (c & sh & Hc & _ & _ & E).
  unfold shadow_of in Hs. rewrite E in Hs. simpl in Hs. injection Hs as ->.
  unfold wp, mnt_store. rewrite E. apply HQ; [| done | |].
  - eapply minv_objs; [exact I | by eapply dom_insert_lookup_L | done | set_solver |]. intros h' m' c' Hm' Hc'.
    destruct (obj_of _ _ _ _ _ _ _ _ _ _ _ _ I h' m' Hm') as (c2 & sh' & Hc2 & _ & Hr & E'). simplify_eq. split; [done |].
    destruct (decide (m' = m)) as [-> | Hne].
    + exists (g s). rewrite lookup_insert_eq. rewrite E in E'. by simplify_eq.
    + exists sh'. by rewrite lookup_insert_ne.
  - unfold shadow_of. msimpl. by rewrite lookup_insert_eq.
  - intros m' Hne. unfold shadow_of. msimpl. by rewrite lookup_insert_ne.
Qed.

Lemma shadow_is w h m : mi w → A !! h = Some m → ∃ s, shadow_of w m = Some s.
Proof.
  intros I Hm. destruct (obj_of _ _ _ _ _ _ _ _ _ _ _ _ I h m Hm) as (c & sh & _ & _ & _ & E).
  exists sh. unfold shadow_of. by rewrite E.
Qed.

(** From a mountpoint up: one more in every shadow. *)
Lemma wp_shadow_climb l : ∀ hops a bad w (Q : Z → mworld → Prop),
  mi w → upto r N a l → (length l ≤ S hops)%nat → (∀ x, x ∈ l → is_Some (A !! x)) →
  (∀ w', mi w' → mw_bkt w' = mw_bkt w →
     (∀ x m s, A !! x = Some m → shadow_of w m = Some s →
        shadow_of w' m = Some (s + if decide (x ∈ l) then 1 else 0)) → Q bad w') →
  wp (shadow_climb hops a bad) Q w.
Proof.
  induction l as [| a' l IH]; intros hops a bad w Q I Hup Hf HA HQ; [by inversion Hup |].
  assert (a' = a) as -> by (apply upto_head in Hup as [? [= -> _]]; done).
  destruct (HA a ltac:(by left)) as [m Hm]. destruct (obj_of _ _ _ _ _ _ _ _ _ _ _ _ I a m Hm) as (_ & _ & _ & Hm0 & _).
  destruct (shadow_is w a m I Hm) as [s Hs]. pose proof (mi_root_dom _ _ _ _ _ _ _ _ _ _ _ _ I) as Hrd.
  assert (is_Some (N !! a)) as [n Hn] by (eapply upto_dom; [exact Hrd | exact Hup | by left]).
  assert (Hstep : ∀ w1, mi w1 → mw_bkt w1 = mw_bkt w → shadow_of w1 m = Some (s + 1) →
    (∀ m', m' ≠ m → shadow_of w1 m' = shadow_of w m') →
    wp (let! root := st_gets (λ w, bw_root (mw_bw w)) in
        match hops with
        | O => st_ret bad
        | S hops => if a =? root then st_ret bad
                    else let! p := on_bw (parent_of_rcu a) in shadow_climb hops p bad
        end) Q w1).
  { intros w1 I1 Ek Hs1 Ho1. wp_step. wp_step. rewrite (mi_root _ _ _ _ _ _ _ _ _ _ _ _ I1).
    assert (Hx : ∀ x m' s', A !! x = Some m' → shadow_of w m' = Some s' →
      shadow_of w1 m' = Some (s' + if decide (x = a) then 1 else 0)).
    { intros x m' s' Hx Hs'. destruct (decide (x = a)) as [-> | Hne].
      - simplify_eq. by rewrite Hs1.
      - rewrite Ho1, Hs'; [f_equal; lia |]. intros ->. destruct Hne. by eapply (obj_inj _ _ _ _ _ _ _ _ _ _ _ _ I). }
    inversion Hup as [E1 E2 | d n' l0 Hn' Hne Hup' E1 E2].
    - subst. rewrite Z.eqb_refl. destruct hops; wp_step; apply HQ; try done; intros x m' s' Hxa Hs'; rewrite (Hx x m' s') by done;
        do 2 f_equal; apply decide_ext; by rewrite list_elem_of_singleton.
    - subst d l0. assert (n' = n) as -> by congruence. rewrite (proj2 (Z.eqb_neq a r) Hne).
      destruct hops as [| hops]; [destruct (upto_head _ _ _ _ Hup') as [? ->]; simpl in Hf; lia |]. simpl in Hf.
      wp_step. eapply wp_run; [by eapply mi_parent |].
      eapply IH; [exact I1 | exact Hup' | lia | by intros x ?; apply HA; right |]. intros w2 I2 Ek2 Hsh2.
      apply HQ; [done | congruence |]. intros x m' s' Hxa Hs'. rewrite (Hsh2 x m' _ Hxa (Hx x m' s' Hxa Hs')).
      pose proof (upto_parent_avoid r N a n l Hn Hne Hup') as Hav. f_equal.
      destruct (decide (x = a)) as [-> | Hxne].
      + rewrite (decide_False (P := a ∈ l)) by done. rewrite (decide_True (P := a ∈ a :: l)) by (by left). lia.
      + destruct (decide (x ∈ l)).
        * rewrite (decide_True (P := x ∈ a :: l)) by (by right). lia.
        * rewrite (decide_False (P := x ∈ a :: l)) by (by rewrite elem_of_cons; intros [? | ?]). lia. }
  destruct hops; cbn [shadow_climb]; (wp_step; eapply wp_run; [by eapply mnt_find_run |]); rewrite Hm;
    change (default 0 (Some m)) with m; rewrite (proj2 (Z.eqb_neq m 0) Hm0); wp_step;
    (eapply (wp_shadow w a m s (λ z, z + 1)); [done | done | done |]); exact Hstep.
Qed.
End table.

(** ** The audit *)

Section audit.
Variables (k : nat) (r : Z) (N : nspace) (T : gmap Z Z) (A : gmap Z Z) (P : gset Z) (K : Z → list Z).
Abbreviation C := (counts r N P).
Abbreviation mi w := (minv k w r N T [] A C ∅ (dom C) P ∅).
Abbreviation L := (concat (K <$> mnt_buckets)).
Hypothesis Hdepth : ∀ p l, p ∈ P → upto r N p l → (length l ≤ S DC_LOOP_MAX)%nat.

(** The mountpoints whose objects have been seen. *)
Definition seen (pre : list Z) : gset Z :=
  filter (λ p, match A !! p with Some m => bool_decide (m ∈ pre) | None => false end = true) P.

Lemma elem_of_seen pre p : p ∈ seen pre ↔ p ∈ P ∧ ∃ m, A !! p = Some m ∧ m ∈ pre.
Proof.
  unfold seen. rewrite elem_of_filter. destruct (A !! p) as [m |]; [rewrite bool_decide_eq_true |]; naive_solver.
Qed.

(** The first pass. *)
Definition cleared (pre : list Z) (_ : unit) (w : mworld) : Prop :=
  mi w ∧ mw_bkt w = K ∧ ∀ m, m ∈ pre → shadow_of w m = Some 0.

Lemma wp_clear pre m post u w :
  L = pre ++ m :: post → cleared pre u w →
  wp ((λ m u, mnt_store m (set_shadow 0) ;;; st_ret u) m u) (cleared (pre ++ [m])) w.
Proof.
  intros HL (I & Ek & Hs). destruct (objects_host _ _ _ _ _ _ _ _ w m I) as [h Hm].
  { rewrite Ek, HL. apply elem_of_app. right. by left. }
  destruct (shadow_is _ _ _ _ _ _ _ _ w h m I Hm) as [s Hsm].
  wp_step. eapply (wp_shadow _ _ _ _ _ _ _ _ w h m s (λ _, 0)); [done | done | done |].
  intros w1 I1 Ek1 Hs1 Ho1. wp_step. split_and!; [done | congruence |].
  intros m' [Hm' | ->%list_elem_of_singleton]%elem_of_app; [| done].
  destruct (decide (m' = m)) as [-> |]; [done |]. rewrite Ho1 by done. by apply Hs.
Qed.

(** The second: the shadows count the mountpoints seen. *)
Definition shadowed (pre : list Z) (bad : Z) (w : mworld) : Prop :=
  mi w ∧ mw_bkt w = K ∧ bad = 0 ∧ ∀ x m, A !! x = Some m → shadow_of w m = Some (mcount r N (seen pre) x).

Lemma seen_other pre m h : (∀ p, A !! p = Some m → p = h) → h ∉ P → seen (pre ++ [m]) = seen pre.
Proof.
  intros Hinj Hh. apply set_eq. intros p. rewrite !elem_of_seen. setoid_rewrite elem_of_app.
  setoid_rewrite list_elem_of_singleton. split; [| naive_solver].
  intros (Hp & m' & Hm' & [? | ->]); [eauto |]. apply Hinj in Hm' as ->. done.
Qed.

Lemma seen_point pre m h : (∀ p, A !! p = Some m → p = h) → A !! h = Some m → h ∈ P →
  seen (pre ++ [m]) = {[h]} ∪ seen pre.
Proof.
  intros Hinj Hm Hh. apply set_eq. intros p. rewrite elem_of_union, elem_of_singleton, !elem_of_seen.
  setoid_rewrite elem_of_app. setoid_rewrite list_elem_of_singleton. split; [| naive_solver].
  intros (Hp & m' & Hm' & [? | ->]); [eauto |]. left. by apply Hinj.
Qed.

Lemma wp_count_point pre m post bad w :
  L = pre ++ m :: post → shadowed pre bad w →
  wp ((λ m bad, let! x := mnt_at m in let! here := mnt_here (m_host x) in
       if negb here then st_ret bad else shadow_climb DC_LOOP_MAX (m_host x) bad) m bad) (shadowed (pre ++ [m])) w.
Proof.
  intros HL (I & Ek & Eb & Hs). pose proof (mi_tree _ _ _ _ _ _ _ _ _ _ _ _ I) as Ht.
  pose proof (mi_points _ _ _ _ _ _ _ _ _ _ _ _ I) as HP. pose proof (mi_rep _ _ _ _ _ _ _ _ _ _ _ _ I) as R.
  destruct (objects_host _ _ _ _ _ _ _ _ w m I) as [h Hm].
  { rewrite Ek, HL. apply elem_of_app. right. by left. }
  assert (Hinj : ∀ p, A !! p = Some m → p = h) by (intros p Hp; by eapply (obj_inj _ _ _ _ _ _ _ _ _ _ _ _ I)).
  destruct (mnt_at_run _ _ _ _ _ _ _ _ _ _ _ _ I h m Hm) as (x & Ex & Eh).
  assert (is_Some (N !! h)) as Hh.
  { apply elem_of_dom, (mi_hosts _ _ _ _ _ _ _ _ _ _ _ _ I). rewrite <- (mr_dom _ _ _ _ _ _ _ R). by apply elem_of_dom; eexists. }
  wp_step. eapply wp_run; [exact Ex |]. rewrite Eh. wp_step. eapply wp_run; [by eapply mnt_here_run |].
  case_bool_decide as HhP; cbn [negb].
  2:{ wp_step. unfold shadowed. by rewrite (seen_other pre m h). }
  destruct (t_up _ _ Ht h Hh) as [l Hl].
  eapply wp_shadow_climb; [exact I | exact Hl | by eapply Hdepth | |].
  { intros y Hy. apply elem_of_dom. rewrite (mr_dom _ _ _ _ _ _ _ R). apply elem_of_dom. exists (mcount r N P y). apply counts_lookup.
    pose proof (mcount_above r N Ht P h l y Hl HhP Hy). split_and!; [| done | lia].
    eapply upto_dom; [apply (mi_root_dom _ _ _ _ _ _ _ _ _ _ _ _ I) | exact Hl | done]. }
  intros w1 I1 Ek1 Hs1. split_and!; [done | congruence | done |]. intros y m' Hy. rewrite (Hs1 y m' _ Hy (Hs y m' Hy)).
  rewrite (seen_point pre m h Hinj Hm HhP). f_equal. symmetry. apply mcount_add; [done | done |].
  rewrite elem_of_seen. intros (_ & m2 & Hm2 & Hin). rewrite Hm in Hm2. injection Hm2 as <-.
  assert (NoDup L) as Hnd.
  { rewrite <- Ek. by eapply objects_nodup. }
  rewrite HL in Hnd. apply NoDup_app in Hnd as (_ & Hd & _). eapply Hd; [exact Hin | by left].
Qed.

Lemma seen_all w : mi w → mw_bkt w = K → seen L = P.
Proof.
  intros I Ek. pose proof (mi_rep _ _ _ _ _ _ _ _ _ _ _ _ I) as R. pose proof (mi_tree _ _ _ _ _ _ _ _ _ _ _ _ I) as Ht.
  apply set_eq. intros p. rewrite elem_of_seen. split; [by intros [? _] |]. intros Hp. split; [done |].
  assert (is_Some (N !! p)) as Hn by (by apply elem_of_dom, (mi_points _ _ _ _ _ _ _ _ _ _ _ _ I)).
  destruct (t_up _ _ Ht p Hn) as [l Hl]. destruct (upto_head _ _ _ _ Hl) as [l' El].
  assert (is_Some (A !! p)) as [m Hm].
  { apply elem_of_dom. rewrite (mr_dom _ _ _ _ _ _ _ R). apply elem_of_dom. exists (mcount r N P p). apply counts_lookup.
    pose proof (mcount_above r N Ht P p l p Hl Hp ltac:(rewrite El; by left)). split_and!; [done | done | lia]. }
  exists m. split; [done |]. apply elem_of_chains. exists (mnt_bkt p). split; [apply mnt_bkt_in |]. rewrite <- Ek.
  apply (mr_bkt _ _ _ _ _ _ _ R). eauto.
Qed.

Lemma objects_count w : mi w → mw_bkt w = K → length L = size C.
Proof.
  intros I <-. rewrite (Permutation_length (objects_spec _ _ _ _ _ _ _ _ w I)), length_fmap, length_map_to_list.
  rewrite <- !size_dom. by rewrite (mr_dom _ _ _ _ _ _ _ (mi_rep _ _ _ _ _ _ _ _ _ _ _ _ I)).
Qed.

(** The third: every object holds what its shadow says. *)
Definition checked (pre : list Z) (acc : Z * Z) (w : mworld) : Prop :=
  mi w ∧ mw_bkt w = K ∧ acc = (Z.of_nat (length pre), 0) ∧
  ∀ x m, A !! x = Some m → shadow_of w m = Some (mcount r N P x).

Lemma wp_check_object pre m post acc w :
  L = pre ++ m :: post → checked pre acc w → wp (check_object m acc) (checked (pre ++ [m])) w.
Proof.
  intros HL (I & Ek & -> & Hs). destruct (objects_host _ _ _ _ _ _ _ _ w m I) as [h Hm].
  { rewrite Ek, HL. apply elem_of_app. right. by left. }
  destruct (obj_of _ _ _ _ _ _ _ _ _ _ _ _ I h m Hm) as (c & sh & Hc & _ & _ & E).
  pose proof (Hs h m Hm) as Hsh. unfold shadow_of in Hsh. rewrite E in Hsh. injection Hsh as ->.
  pose proof (proj1 (counts_lookup _ _ _ _ _) Hc) as (Hh & -> & Hne). pose proof (mcount_nonneg r N P h).
  unfold check_object. wp_step. eapply wp_run; [by eapply mnt_read_run |].
  wp_step. eapply wp_run; [unfold mnt_at, st_lookup; by rewrite E |]. cbn [m_host m_shadow m_pins].
  wp_step. eapply wp_run; [by eapply mnt_counted_run |]. rewrite Z.eqb_refl, (proj2 (Z.ltb_lt 0 _)) by lia.
  rewrite (bool_decide_eq_true_2 (h ∈ dom C)) by (by apply elem_of_dom; eexists).
  wp_step. split_and!; [done | done | | done]. rewrite length_app. cbn [length andb Z.b2z Z.eqb]. f_equal. lia.
Qed.

Lemma wp_audit w :
  mi w → mw_bkt w = K → Z.of_nat (size N) < 2 ^ 62 →
  wp (let! _ := bkt_each (λ m u, mnt_store m (set_shadow 0) ;;; st_ret u) mnt_buckets tt in
      let! bad := bkt_each (λ m bad,
        let! x := mnt_at m in
        let! here := mnt_here (m_host x) in
        if negb here then st_ret bad else shadow_climb DC_LOOP_MAX (m_host x) bad) mnt_buckets 0 in
      bkt_each check_object mnt_buckets (0, bad))
    (λ acc w', mi w' ∧ acc = (s_objs (mw_stat w'), 0)) w.
Proof.
  intros I Ek Hsz. wp_step.
  apply (wp_bkt_each _ K cleared ltac:(by intros ??? (_ & ? & _)) L mnt_buckets []); [exact wp_clear | done | |].
  { split_and!; [done | done |]. by intros ? ?%not_elem_of_nil. }
  intros u w1 (I1 & Ek1 & Hs1). wp_step.
  apply (wp_bkt_each _ K shadowed ltac:(by intros ??? (_ & ? & _)) L mnt_buckets []); [exact wp_count_point | done | |].
  { split_and!; [done | done | done |]. intros x m Hm. rewrite Hs1.
    - f_equal. unfold mcount. replace (points_below r N (seen []) x) with (∅ : gset Z); [done |]. symmetry. apply set_eq. intros p.
      rewrite points_below_spec, elem_of_seen. split; [| set_solver]. by intros [(_ & m' & _ & ?%not_elem_of_nil) _].
    - apply elem_of_chains. exists (mnt_bkt x). split; [apply mnt_bkt_in |]. rewrite <- Ek1.
      apply (mr_bkt _ _ _ _ _ _ _ (mi_rep _ _ _ _ _ _ _ _ _ _ _ _ I1)). eauto. }
  intros bad w2 (I2 & Ek2 & -> & Hs2). rewrite (seen_all w2 I2 Ek2) in Hs2.
  apply (wp_bkt_each _ K checked ltac:(by intros ??? (_ & ? & _)) L mnt_buckets []); [exact wp_check_object | done | done |].
  intros acc w3 (I3 & Ek3 & -> & _). split; [done |]. f_equal.
  rewrite (mr_objs _ _ _ _ _ _ _ (mi_rep _ _ _ _ _ _ _ _ _ _ _ _ I3)), (objects_count w3 I3 Ek3).
  assert (size C ≤ size N)%nat.
  { rewrite <- !size_dom. apply subseteq_size, (mi_hosts _ _ _ _ _ _ _ _ _ _ _ _ I3). }
  unfold w64. rewrite Z.mod_small by lia. done.
Qed.
End audit.

Lemma wp_bind_inv {S A B} (m : ST S A) (f : A → ST S B) Q s :
  wp (st_bind m f) Q s → wp m (λ a s', wp (f a) Q s') s.
Proof. unfold wp, st_bind. by destruct (m s) as [[a s']|]. Qed.

Lemma wp_dc_mount_check k w r N T P :
  mquiet k w r N T P → Z.of_nat (size N) < 2 ^ 62 →
  (∀ p l, p ∈ P → upto r N p l → (length l ≤ S DC_LOOP_MAX)%nat) →
  wp dc_mount_check (λ bad w', bad = 0 ∧ mquiet k w' r N T P) w.
Proof.
  intros Hq Hs Hd. unfold dc_mount_check. wp_step. eapply wp_mnt_enter; [exact Hq |]. intros w1 [A I1].
  pose proof (wp_audit (S k) r N T A P (mw_bkt w1) Hd w1 I1 eq_refl Hs) as H.
  apply wp_bind_inv in H. wp_step. eapply wp_mono; [exact H |]. cbn beta. intros u w2 H2.
  apply wp_bind_inv in H2. wp_step. eapply wp_mono; [exact H2 |]. cbn beta. intros bad w3 H3.
  wp_step. eapply wp_mono; [exact H3 |]. cbn beta. intros acc w4 [I4 ->]. wp_step. wp_step.
  wp_step. eapply wp_mi_leave; [exact I4 |]. intros w5 I5. wp_step. rewrite Z.eqb_refl. split; [done | by exists A].
Qed.
