(* ===== verification/MountEngine.v ===== *)
(** The mount table of the bucket-lock engine, as its users see it: mount, unmount, count
    and find refine their specification, a move and an exchange take their mountpoints
    with them, a removal leaves mountpoints alone; and a removal that never ends. *)

From S2P Require Import Prelude Qstr HList Lru World Walk Namespace TreeOps Paths BlChain BlLists BlLru BlWorld BlWalk.
From S2P Require Import BlOps BlMove BlReclaim BlInv BlReads BlWalkSpec BlLocks BlRep BlSect BlOpsSpec BlTxn BlRename.
From S2P Require Import Reclaim Scene BlEngine Mount MountRep MountSet MountSpec MountClimb MountOps MountCarry.
From S2P Require Import Moves MountChains MountSwap MountFind MountCheck MountRemove BlExchange.

(** A cache with an empty table. *)
Definition mnt_new (bw : bworld) : mworld := MWorld bw ∅ ∅ (λ _, []) ∅ [] (MStat 0 0 0 0 0 0 0 0).

Lemma counts_none r N : counts r N ∅ = ∅.
Proof.
  apply map_eq. intros h. apply option_eq. intros c. rewrite counts_lookup, lookup_empty.
  split; [| done]. intros (_ & -> & H). destruct H. unfold mcount.
  replace (points_below r N ∅ h) with (∅ : gset Z); [done |]. symmetry. apply set_eq. intros p.
  rewrite points_below_spec. set_solver.
Qed.

Lemma mnt_new_quiet k bw N T : binv k bw N T → mquiet k (mnt_new bw) (bw_root bw) N T ∅.
Proof.
  intros Hi. exists ∅. rewrite counts_none, dom_empty_L. split; [by apply sect_binv | done | | set_solver | set_solver].
  split; try done.
  - intros b m. split; [by intros ?%not_elem_of_nil | by intros (h & H & _)].
  - intros b. constructor.
  - constructor.
  - intros m. split; [set_solver | by intros [[h ?] | ?%not_elem_of_nil]].
Qed.

Section engine.
Context `{HL : Layout} `{!LayoutOk HL} `{HC : Calloc} `{!CallocOk HC} `{HR : Realloc} `{HT : MntTxn} `{!MntTxnOk HT}.

(** C25: [dc_mount] always returns, with the code of the specification: -EINVAL for the
    root, -ENOENT for a name that is absent or negative, -EBUSY on a mountpoint, 0
    otherwise; and it leaves the table exact, every dentry's count the number of
    mountpoints at or below it, no object and no flag left behind, no bucket held.  When
    memory runs out on the way it is -ENOMEM and nothing has changed. *)
Theorem dc_mount_refines k w r N T P path :
  mquiet k w r N T P → path_wf path → Z.of_nat (size N) < 2 ^ 62 →
  ∃ ret w', dc_mount path w = Ok (ret, w') ∧ mount_post k r N T P (mount_spec r N P (pnames path)) ret w'.
Proof. intros Hq Hp Hs. apply wp_inv. by apply dc_mount_correct. Qed.

(** C26: [dc_umount] always returns: -ENOENT for an absent name, -EINVAL for what is no
    mountpoint, 0 otherwise, the mountpoint gone from the counts of everything above it
    and the objects that count nothing any more taken away with their flags. *)
Theorem dc_umount_refines k w r N T P path :
  mquiet k w r N T P → path_wf path → Z.of_nat (size N) < 2 ^ 62 →
  ∃ ret w', dc_umount path w = Ok (ret, w') ∧ mount_post k r N T P (umount_spec r N P (pnames path)) ret w'.
Proof. intros Hq Hp Hs. apply wp_inv. by apply dc_umount_correct. Qed.

(** [dc_mount_count] gives the number of mountpoints at or below the dentry that the
    path names, -ENOENT if there is none. *)
Theorem dc_mount_count_refines k w r N T P path :
  mquiet k w r N T P → path_wf path →
  ∃ v w', dc_mount_count path w = Ok (v, w') ∧ v = mount_count_spec r N P (pnames path) ∧ mquiet k w' r N T P.
Proof. intros Hq Hp. apply wp_inv. by apply dc_mount_count_correct. Qed.

(** [dc_mount_find] always returns: -ENOENT for an absent name, 0 when nothing at or
    below the path is a mountpoint, otherwise 1 and the id of a mountpoint that is. *)
Theorem dc_mount_find_refines k w r N T P path :
  mquiet k w r N T P → path_wf path →
  (∀ p l, p ∈ P → upto r N p l → (length l ≤ S DC_MNT_CLIMB_MAX)%nat) →
  ∃ res w', dc_mount_find path w = Ok (res, w') ∧ mount_find_spec r N P (pnames path) res ∧ mquiet k w' r N T P.
Proof. intros Hq Hp Hd. apply wp_inv. by apply wp_dc_mount_find. Qed.

(** The audit [dc_mount_check], which counts again from the mountpoints up, finds no
    fault in the table that the operations leave: every object holds the number that it
    counts, is pinned by nothing and flagged, and as many are hashed as are accounted. *)
Theorem dc_mount_check_clean k w r N T P :
  mquiet k w r N T P → Z.of_nat (size N) < 2 ^ 62 →
  (∀ p l, p ∈ P → upto r N p l → (length l ≤ S DC_LOOP_MAX)%nat) →
  ∃ w', dc_mount_check w = Ok (0, w') ∧ mquiet k w' r N T P.
Proof.
  intros Hq Hs Hd. destruct (wp_inv _ _ _ (wp_dc_mount_check k w r N T P Hq Hs Hd)) as (bad & w' & E & -> & Hq'). eauto.
Qed.

(** C27: a move of a dentry to another directory, committed with the changes of the
    counts, leaves the table exact for the name space after the move: the ancestors of
    the old parent below the first shared one have lost the mountpoints that moved, those
    of the new parent have got them, the others are as they were.  A move that fails for
    want of memory has changed neither the name space nor the table. *)
Theorem mnt_carry_exact k w r N N' T P h from to lf lt mv :
  mquiet k w r N T P → moves r N N' h from to → upto r N from lf → upto r N to lt →
  (length lf ≤ DC_LOOP_MAX)%nat → (length lt ≤ DC_LOOP_MAX)%nat → Z.of_nat (size N) < 2 ^ 62 →
  mover_ok k r N N' T mv →
  ∃ ret w', mnt_carry h from to mv w = Ok (ret, w') ∧
    (ret = 0 ∧ (∃ T', mquiet k w' r N' T' P) ∨
     ret = - ENOMEM ∧ (mem_fails ∨ mover_fails k N T mv) ∧ mquiet k w' r N T P).
Proof.
  intros Hq HM Hf Ht Hd1 Hd2 Hs Hmv. apply wp_inv.
  destruct (shared_split _ _ _ _ _ _ Hf Ht) as (lt' & i & -> & Hi & Hnew).
  rewrite length_app in Hd2. by eapply (wp_mnt_carry k r N N' T P h from to lf lt' i mv); try done; lia.
Qed.

(** C28: the exchange of two dentries, neither above the other, committed with the
    difference of their counts, leaves the table exact for the name space after it: the
    side that had more mountpoints has lost the difference, the other has got it, and
    from the first ancestor that both have upwards nothing has changed.  Without memory
    neither the name space nor the table has. *)
Theorem mnt_swap_exact k w r N N' T P ha hb an bn la lb mv :
  mquiet k w r N T P → swapped r N N' ha hb an bn → upto r N (n_parent an) la → upto r N (n_parent bn) lb →
  (length la ≤ DC_LOOP_MAX)%nat → (length lb ≤ DC_LOOP_MAX)%nat → Z.of_nat (size N) < 2 ^ 62 →
  mover_ok k r N N' T mv →
  ∃ ret w', mnt_swap ha hb (n_parent an) (n_parent bn) mv w = Ok (ret, w') ∧
    (ret = 0 ∧ (∃ T', mquiet k w' r N' T' P) ∨
     ret = - ENOMEM ∧ (mem_fails ∨ mover_fails k N T mv) ∧ mquiet k w' r N T P).
Proof.
  intros Hq Hs Ha Hb Hd1 Hd2 Hsz Hmv. apply wp_inv. pose proof Hq as [A I]. pose proof (mi_tree _ _ _ _ _ _ _ _ _ _ _ _ I) as Ht.
  eapply wp_mnt_swap; try done. pose proof Hs as [? ? ? ? ? Hab Hba ->]. eapply tree_exchange; eauto.
Qed.

(** C33: [dc_unlink] with the table: a mountpoint without children stays (-EBUSY); every
    other call, that of a mountpoint with children (-ENOTEMPTY, which the code tests
    first) included, answers as in the engine without the table and takes the same leaf
    out of the name space, for which the table, untouched, is still exact. *)
Theorem mnt_unlink_refines k w r N T P path :
  mquiet k w r N T P → path_wf path →
  ∃ ret w', mnt_unlink path w = Ok (ret, w') ∧ ret = fst (mnt_unlink_spec r P (pnames path) N) ∧
    ∃ T', mquiet k w' r (snd (mnt_unlink_spec r P (pnames path) N)) T' P.
Proof. intros Hq Hp. apply wp_inv. by eapply wp_mnt_unlink. Qed.

(** [dc_delete] with the table, of anything but a directory that is above a mountpoint
    and is none: a mountpoint stays (-EBUSY), the rest is as in the engine. *)
Theorem mnt_delete_refines k w r N T P path :
  mquiet k w r N T P → path_wf path →
  (∀ h, nwalk r N r (pnames path) = Some h → h ∉ P → mcount r N P h = 0) →
  ∃ ret w', mnt_delete path w = Ok (ret, w') ∧ ret = fst (mnt_delete_spec r P (pnames path) N) ∧
    ∃ T', mquiet k w' r (snd (mnt_delete_spec r P (pnames path) N)) T' P.
Proof. intros Hq Hp Hn. apply wp_inv. by eapply wp_mnt_delete. Qed.
End engine.

(** ** A removal that waits for itself

    [dc_delete] of this build looks at DC_MNT_COUNTED before it looks for children, and
    takes the flag without DC_MNT_HERE for an operation under way, which it waits for.  On
    a directory with a mountpoint below it the flag stays. *)

Section livelock.
Context `{HL : Layout} `{!LayoutOk HL}.
Variables (k : nat) (r : Z) (N : nspace) (T : gmap Z Z) (P : gset Z) (q : qstr) (h : Z) (n : node).
Hypothesis Hq : qstr_wf q.
Hypothesis Hn : N !! h = Some n.
Hypothesis Hname : n_name n = qname q.
Hypothesis Hr : h ≠ r.
Hypothesis Hdir : n_dir n = true.
Hypothesis Hpoint : h ∉ P.
Hypothesis Hcount : mcount r N P h ≠ 0.
Abbreviation mask w := (bw_mask (mw_bw w)).

Lemma delete_waits b a w :
  (a = 0 ∨ a = h) ∧ ready k r N T P b w →
  wp (mnt_delete_round (n_parent n) q b a) (λ x w', ∃ a', x = inl a' ∧ ((a' = 0 ∨ a' = h) ∧ ready k r N T P b w')) w.
Proof.
  intros [Ha Hr']. pose proof Hr' as [[A I] _].
  assert (child r N (n_parent n) (qname q) = Some h) as Hc.
  { apply child_Some; [apply (mi_tree _ _ _ _ _ _ _ _ _ _ _ _ I) |]. split; [done |]. by exists n. }
  eapply wp_mono; [apply (wp_delete_counted k r N T P (n_parent n) b q Hq h n a w Hn Hc Hcount); [naive_solver | done] |].
  intros x w' [Hr2 ->]. rewrite Hdir, decide_False by done. destruct (negb (h =? a)); eauto.
Qed.

(** The loop of [dc_delete], given any number of rounds. *)
Lemma delete_loops w rounds :
  mquiet k w r N T P →
  ∃ a w', iter_upto rounds
    (mnt_delete_round (n_parent n) q (bucket_index (bw_mask (mw_bw w)) (n_parent n) (q_hash q))) 0 w = Ok (inl a, w') ∧
    mquiet k w' r N T P.
Proof.
  intros [A I]. set (b := bucket_index _ _ _).
  assert (ready k r N T P b w) as Hr'.
  { split; [by exists A |]. exact (heads_bucket _ _ _ _ _ _ (mi_brep _ _ _ _ _ _ _ _ _ _ _ _ I)). }
  destruct (wp_inv _ _ _ (wp_iter_never (mnt_delete_round (n_parent n) q b) (λ a w, (a = 0 ∨ a = h) ∧ ready k r N T P b w) rounds 0 w
    (delete_waits b) (conj (or_introl eq_refl) Hr'))) as (x & w' & E & a & -> & _ & Hq' & _).
  by exists a, w'.
Qed.
End livelock.

Section removal.
Context `{HA : Memalign} `{!MemalignOk HA} `{HL : Layout} `{!LayoutOk HL} `{HX : SwTxn} `{!SwTxnOk HX}.

(** What counts mountpoints below it without being one is a positive directory in use. *)
Lemma counted_in_use k w r N T P h n :
  mquiet k w r N T P → N !! h = Some n → h ∉ P → mcount r N P h ≠ 0 →
  n_dir n = true ∧ n_pos n = true ∧ kids r N h ≠ [].
Proof.
  intros Hq Hn HP Hc. pose proof Hq as [A I]. destruct (quiet_binv r N T P k w Hq) as (Hi & Er & HPd & Ht).
  destruct (counting_child r N P h Ht HPd Hc HP) as (c & m & Hm & Hcr & Hpar & _).
  pose proof (r_typed _ _ _ _ (bi_rep _ _ _ _ Hi)) as Hty. rewrite Er in Hty.
  destruct (Hty c m n Hcr Hm ltac:(by rewrite Hpar)) as [Hd Hp]. split_and!; [done | done |].
  intros E. assert (c ∈ kids r N h) as Hk by (apply elem_of_kids; eauto). rewrite E in Hk. by apply not_elem_of_nil in Hk.
Qed.

(** C34: on what is no mountpoint itself but has one below it, not the root, [dc_delete] of
    the build without the table answers -ENOTEMPTY, and the loop of [dc_delete] in this
    build never ends, however many rounds it is given: it finds the flag, lets go, waits
    and looks again, with nothing changed. *)
Theorem mnt_delete_never_ends k w r N T P path q h n rounds :
  mquiet k w r N T P → path_wf path → comp path !! (ndepth path - 1)%nat = Some q →
  nwalk r N r (pnames path) = Some h → N !! h = Some n → h ≠ r → h ∉ P → mcount r N P h ≠ 0 →
  (∃ a w', iter_upto rounds
     (mnt_delete_round (n_parent n) q (bucket_index (bw_mask (mw_bw w)) (n_parent n) (q_hash q))) 0 w = Ok (inl a, w') ∧
     mquiet k w' r N T P) ∧
  (∃ bw' T', dc_delete path (mw_bw w) = Ok (- ENOTEMPTY, bw') ∧ binv k bw' N T').
Proof.
  intros Hq Hp Hcq Hw Hn Hr HP Hc. destruct (counted_in_use k w r N T P h n Hq Hn HP Hc) as (Hd & Hpos & Hk).
  destruct (quiet_binv r N T P k w Hq) as (Hi & Er & HPd & Ht).
  assert (pnames path ≠ []) as Hne by (intros E; rewrite E in Hw; simpl in Hw; congruence). split.
  - assert (ndepth path ≠ 0)%nat as H0 by (intros E; apply Hne; unfold pnames; by rewrite E).
    destruct (path_split path Hp H0) as (q' & Hcq' & Hqw & Hsp & _). assert (q' = q) as -> by congruence.
    rewrite Hsp in Hw. apply bind_Some in Hw as (p & _ & Hch). apply child_Some in Hch as [_ (n' & Hn' & Hpar & Hname)]; [| done].
    assert (n' = n) as -> by congruence. by apply (delete_loops k r N T P q h n).
  - destruct (wp_inv _ _ _ (wp_bl_delete k (mw_bw w) N T path Hi Hp)) as (ret & bw' & E & Hpost).
    rewrite Er in Hpost. unfold spec_delete in Hpost. destruct (pnames path) as [| nm nms]; [done |].
    rewrite Hw in Hpost. cbn [mbind option_bind] in Hpost. rewrite Hn in Hpost. cbn [mbind option_bind] in Hpost.
    rewrite Hpos, Hd, bool_decide_false in Hpost by done. cbn [negb andb] in Hpost.
    destruct Hpost as [Hret [T' Hi'] _ _]. cbn [fst snd] in *. subst ret. by exists bw', T'.
Qed.
End removal.

(** ** The theorems at work on a small cache *)

#[local] Existing Instance plain_layout.
#[local] Existing Instance roomy_txn.

#[local] Instance plain_calloc : Calloc := λ live, Some (1 + foldr Z.max 0 (elements live)).
#[local] Instance plain_calloc_ok : CallocOk plain_calloc.
Proof.
  assert (∀ l m, m ∈ l → m ≤ foldr Z.max 0 l) as Hmax.
  { intros l m. induction l as [| x l IH]; [by intros ?%not_elem_of_nil |]. simpl.
    intros [-> | ?%IH]%elem_of_cons; lia. }
  assert (∀ l, 0 ≤ foldr Z.max 0 l) as Hpos by (intros l; induction l; simpl; lia).
  split; intros live m [= <-].
  - intros H%elem_of_elements%Hmax. lia.
  - specialize (Hpos (elements live)). lia.
Qed.
#[local] Instance plain_realloc : Realloc := {| realloc_e _ := true; realloc_b _ := true |}.
#[local] Instance plain_mnt_txn : MntTxn := λ l w, (STATUS_OK, mrecs_apply l w).
#[local] Instance plain_mnt_txn_ok : MntTxnOk plain_mnt_txn.
Proof. intros l w _. by left. Qed.

Definition ret_of {A} (x : res (A * mworld)) : option A := match x with Ok (a, _) => Some a | Err _ => None end.
Definition mnt_run {A} (m : MM A) (w : mworld) : mworld := match m w with Ok (_, w') => w' | Err _ => w end.

(** A mountpoint at /a/x. *)
Definition m_scene0 : mworld := mnt_new bl_scene.
Definition m_scene : mworld := mnt_run (dc_mount p_ax) m_scene0.

Lemma m_scene0_quiet : ∃ T, mquiet 0 m_scene0 64 bl_names T ∅.
Proof. destruct bl_scene_inv as [T Hi]. exists T. by apply (mnt_new_quiet 0 bl_scene). Qed.

Lemma mount_post_is k r N T P spec ret w' z P' :
  mount_post k r N T P spec ret w' → spec = (z, P') → ret = z → z ≠ - ENOMEM → mquiet k w' r N T P'.
Proof. intros [[_ H] | [-> _]] -> <-; [done | by intros []]. Qed.

Lemma m_scene_quiet : ∃ T, mquiet 0 m_scene 64 bl_names T {[256]}.
Proof.
  destruct m_scene0_quiet as [T Hq]. exists T.
  destruct (wp_inv _ _ _ (dc_mount_correct 0 64 bl_names T ∅ m_scene0 p_ax Hq ltac:(path_by_decide) ltac:(done))) as (ret & w' & E & Hp).
  assert (ret_of (dc_mount p_ax m_scene0) = Some 0) as Er by (by vm_compute). rewrite E in Er. injection Er as ->.
  unfold m_scene, mnt_run. rewrite E. eapply mount_post_is; [exact Hp | by vm_compute | done | done].
Qed.

Lemma dc_mount_refines_witness :
  ∃ ret w' T, dc_mount p_ax m_scene0 = Ok (ret, w') ∧ ret = 0 ∧ mquiet 0 w' 64 bl_names T {[256]}.
Proof.
  destruct m_scene0_quiet as [T Hq].
  destruct (dc_mount_refines 0 m_scene0 64 bl_names T ∅ p_ax Hq) as (ret & w' & E & Hp); [path_by_decide | done |].
  assert (ret_of (dc_mount p_ax m_scene0) = Some 0) as Er by (by vm_compute). rewrite E in Er. injection Er as ->.
  exists 0, w', T. split_and!; [exact E | done |]. eapply mount_post_is; [exact Hp | by vm_compute | done | done].
Defined.

Lemma dc_umount_refines_witness :
  ∃ ret w' T, dc_umount p_ax m_scene = Ok (ret, w') ∧ ret = 0 ∧ mquiet 0 w' 64 bl_names T ∅.
Proof.
  destruct m_scene_quiet as [T Hq].
  destruct (dc_umount_refines 0 m_scene 64 bl_names T {[256]} p_ax Hq) as (ret & w' & E & Hp); [path_by_decide | done |].
  assert (ret_of (dc_umount p_ax m_scene) = Some 0) as Er by (by vm_compute). rewrite E in Er. injection Er as ->.
  exists 0, w', T. split_and!; [exact E | done |]. eapply mount_post_is; [exact Hp | by vm_compute | done | done].
Defined.

Lemma dc_mount_count_refines_witness :
  ∃ w', dc_mount_count p_a m_scene = Ok (1, w').
Proof.
  destruct m_scene_quiet as [T Hq].
  destruct (dc_mount_count_refines 0 m_scene 64 bl_names T {[256]} p_a Hq) as (v & w' & E & Hv & _); [path_by_decide |].
  exists w'. rewrite E, Hv. do 2 f_equal.
Defined.

(** The one mountpoint is two steps below the root. *)
Lemma m_scene_depth p l : p ∈ ({[256]} : gset Z) → upto 64 bl_names p l → (length l ≤ 3)%nat.
Proof.
  intros ->%elem_of_singleton. intros H.
  assert (upto 64 bl_names 256 [256; 128; 64]) as H'.
  { econstructor; [by vm_compute | done |]. econstructor; [by vm_compute | done | constructor]. }
  rewrite (upto_det _ _ _ _ _ H H'). simpl. lia.
Qed.

Lemma dc_mount_find_refines_witness : ∃ w' i, dc_mount_find p_a m_scene = Ok (1, i, w').
Proof.
  destruct m_scene_quiet as [T Hq].
  destruct (dc_mount_find_refines 0 m_scene 64 bl_names T {[256]} p_a Hq) as (res & w' & E & Hs & _); [path_by_decide | |].
  { intros p l Hp Hl. pose proof (m_scene_depth p l Hp Hl). unfold DC_MNT_CLIMB_MAX, DC_PATH_MAX. lia. }
  destruct Hs as (p & n & _ & _ & ->). exists w', (n_id n). exact E.
Defined.

Lemma dc_mount_check_clean_witness : ∃ w', dc_mount_check m_scene = Ok (0, w').
Proof.
  destruct m_scene_quiet as [T Hq].
  destruct (dc_mount_check_clean 0 m_scene 64 bl_names T {[256]} Hq) as (w' & E & _); [done | | by exists w'].
  intros p l Hp Hl. pose proof (m_scene_depth p l Hp Hl). unfold DC_LOOP_MAX. lia.
Defined.

(** /a, with its mountpoint, moved below /b by the engine's own [dc_rename]. *)
Definition m_mover (bw : bworld) : option bworld :=
  match dc_rename p_a p_ba bw with Ok (0, bw') => Some bw' | _ => None end.

Lemma m_mover_ok T : mover_ok 0 64 bl_names bl_moved_names T m_mover.
Proof.
  intros bw S Er. unfold m_mover.
  destruct (wp_inv _ _ _ (wp_bl_rename 0 bw bl_names T p_a p_ba ltac:(by apply sect_binv) ltac:(path_by_decide) ltac:(path_by_decide)
    ltac:(rewrite Er; apply dest_dirb_ok; by vm_compute))) as (ret & bw' & E & cm & Hc & Hp).
  apply roomy_may in Hc as ->. rewrite E. pose proof (bp_root _ _ _ _ _ Hp) as Hr. rewrite Er in Hp.
  revert Hp. generalize (settled T). intros sT. destruct (posix_memalign (dom (bw_dent bw))) as [d |]; intros Hp.
  - destruct (bl_post_is _ _ _ _ _ 0 bl_moved_names Hp) as [-> [T' Hi]]; [by vm_compute |].
    split; [exists T'; by apply sect_binv | congruence].
  - destruct (bl_post_is _ _ _ _ _ (- ENOMEM) bl_names Hp) as [-> _]; [by vm_compute |]. done.
Qed.

Lemma m_moves : moves 64 bl_names bl_moved_names 128 64 192.
Proof.
  destruct bl_scene_inv as [T Hi]. destruct bl_moved_inv as [T' Hi'].
  split; [apply (r_tree _ _ _ _ (bi_rep _ _ _ _ Hi)) | apply (r_tree _ _ _ _ (bi_rep _ _ _ _ Hi')) | done | by vm_compute |
    by vm_compute | | by eexists | by vm_compute].
  intros x Hx. unfold bl_moved_names. by rewrite lookup_insert_ne.
Qed.

Lemma mnt_carry_exact_witness :
  ∃ w' T', mnt_carry 128 64 192 m_mover m_scene = Ok (0, w') ∧ mquiet 0 w' 64 bl_moved_names T' {[256]}.
Proof.
  destruct m_scene_quiet as [T Hq].
  destruct (mnt_carry_exact 0 m_scene 64 bl_names bl_moved_names T {[256]} 128 64 192 [64] [192; 64] m_mover Hq m_moves)
    as (ret & w' & E & H); [constructor | | by vm_compute; lia | by vm_compute; lia | done | apply m_mover_ok |].
  { econstructor; [by vm_compute | done | constructor]. }
  assert (ret_of (mnt_carry 128 64 192 m_mover m_scene) = Some 0) as Er by (by vm_compute). rewrite E in Er. injection Er as ->.
  destruct H as [[_ [T' Hq']] | [H _]]; [| discriminate H]. exists w', T'. split; [exact E | exact Hq'].
Defined.

(** /a/x, the mountpoint, exchanged with /b by the engine's own [dc_rename_exchange]. *)
Definition m_swapped_names : nspace := <[256 := Node 64 [98] 3 false true]> (<[192 := Node 128 [120] 2 true true]> bl_names).
Definition m_swapper (bw : bworld) : option bworld :=
  match dc_rename_exchange p_ax p_b bw with Ok (0, bw') => Some bw' | _ => None end.

Lemma m_swapper_ok T : mover_ok 0 64 bl_names m_swapped_names T m_swapper.
Proof.
  intros bw S Er. unfold m_swapper.
  destruct (wp_inv _ _ _ (wp_bl_rename_exchange 0 bw bl_names T p_ax p_b ltac:(by apply sect_binv) ltac:(path_by_decide)
    ltac:(path_by_decide))) as (ret & bw' & E & cm & Hc & Hp).
  apply roomy_may in Hc as ->. rewrite E. pose proof (bp_root _ _ _ _ _ Hp) as Hr. rewrite Er in Hp.
  revert Hp. destruct (shells_fit (dom (bw_dent bw))); intros Hp.
  - destruct (bl_post_is _ _ _ _ _ 0 m_swapped_names Hp) as [-> [T' Hi]]; [by vm_compute |].
    split; [exists T'; by apply sect_binv | congruence].
  - destruct (bl_post_is _ _ _ _ _ (- ENOMEM) bl_names Hp) as [-> _]; [by vm_compute |]. done.
Qed.

Lemma m_swapped : swapped 64 bl_names m_swapped_names 256 192 (Node 128 [120] 3 false true) (Node 64 [98] 2 true true).
Proof.
  split; [by vm_compute | by vm_compute | done | done | done | | | done].
  - intros l H. inversion H; [set_solver | done].
  - intros l H. cbn [n_parent] in H.
    assert (upto 64 bl_names 128 [128; 64]) as H' by (econstructor; [by vm_compute | done | constructor]).
    rewrite (upto_det _ _ _ _ _ H H'). set_solver.
Qed.

Lemma mnt_swap_exact_witness :
  ∃ w' T', mnt_swap 256 192 128 64 m_swapper m_scene = Ok (0, w') ∧ mquiet 0 w' 64 m_swapped_names T' {[256]}.
Proof.
  destruct m_scene_quiet as [T Hq].
  destruct (mnt_swap_exact 0 m_scene 64 bl_names m_swapped_names T {[256]} 256 192 _ _ [128; 64] [64] m_swapper Hq m_swapped)
    as (ret & w' & E & H); [| constructor | by vm_compute; lia | by vm_compute; lia | done | apply m_swapper_ok |].
  { econstructor; [by vm_compute | done | constructor]. }
  cbn [n_parent] in E.
  assert (ret_of (mnt_swap 256 192 128 64 m_swapper m_scene) = Some 0) as Er by (by vm_compute). rewrite E in Er. injection Er as ->.
  destruct H as [[_ [T' Hq']] | [H _]]; [| discriminate H]. exists w', T'. split; [exact E | exact Hq'].
Defined.

Lemma mnt_delete_never_ends_witness :
  (∃ a w', iter_upto 1000 (mnt_delete_round 64 (default qstr_zero (comp p_a !! 0%nat))
      (bucket_index (bw_mask (mw_bw m_scene)) 64 (q_hash (default qstr_zero (comp p_a !! 0%nat))))) 0 m_scene = Ok (inl a, w')) ∧
  ∃ bw', dc_delete p_a (mw_bw m_scene) = Ok (- ENOTEMPTY, bw').
Proof.
  destruct m_scene_quiet as [T Hq].
  destruct (mnt_delete_never_ends 0 m_scene 64 bl_names T {[256]} p_a (default qstr_zero (comp p_a !! 0%nat)) 128
    (Node 64 [97] 1 true true) 1000%positive Hq) as [(a & w' & E & _) (bw' & T' & E' & _)];
    [path_by_decide | by vm_compute | by vm_compute | by vm_compute | done | by by_decide | by vm_compute |].
  split; [by exists a, w' | by exists bw'].
Defined.

Lemma mnt_unlink_refines_witness : ∃ w', mnt_unlink p_ax m_scene = Ok (- EBUSY, w').
Proof.
  destruct m_scene_quiet as [T Hq].
  destruct (mnt_unlink_refines 0 m_scene 64 bl_names T {[256]} p_ax Hq) as (ret & w' & E & Hr & _); [path_by_decide |].
  exists w'. rewrite E, Hr. do 2 f_equal.
Defined.

Lemma mnt_delete_refines_witness :
  ∃ ret w' T', mnt_delete p_b m_scene = Ok (ret, w') ∧ ret = 0 ∧
    mquiet 0 w' 64 (<[192 := Node 64 [98] 2 true false]> bl_names) T' {[256]}.
Proof.
  destruct m_scene_quiet as [T Hq].
  destruct (mnt_delete_refines 0 m_scene 64 bl_names T {[256]} p_b Hq) as (ret & w' & E & Hr & T' & Hq'); [path_by_decide | |].
  { assert (nwalk 64 bl_names 64 (pnames p_b) = Some 192) as -> by (by vm_compute). intros h [= <-] _. by vm_compute. }
  exists ret, w', T'. split_and!; [exact E | rewrite Hr; by vm_compute |].
  assert (snd (mnt_delete_spec 64 {[256]} (pnames p_b) bl_names) = <[192 := Node 64 [98] 2 true false]> bl_names) as <- by (by vm_compute).
  exact Hq'.
Defined.
