(* ===== verification/MountHistory.v ===== *)
(** The end of count objects: one that left the table is freed a grace period later, the
    others when the cache is destroyed, each of them once.  And histories of the
    bucket-lock engine with the mount table: any sequence of mounts, unmounts, counts,
    searches and audits, with the engine's own calls between them, is matched step by
    step by the name space and the mountpoints in it. *)

From S2P Require Import Prelude Qstr HList Lru World Walk Reclaim Namespace TreeOps Paths Lifecycle Api Scene BlChain.
From S2P Require Import BlLists BlLru BlWorld BlWalk BlOps BlMove BlReclaim BlInv BlReads BlWalkSpec BlLocks BlRep BlSect BlOpsSpec.
From S2P Require Import BlTxn BlMoveSpec BlLife BlEngine BlHistory Mount MountRep MountSet MountSpec MountClimb MountOps MountChains MountSwap MountRemove.
From S2P Require Import MountFind MountCheck MountEngine.

(** * The life of a count object *)

(** The objects [l] are freed, nothing else changes. *)
Definition freed (l : list Z) (w w' : mworld) : Prop :=
  ∃ O, w' = set_obj O w ∧ ∀ m, O !! m = if decide (m ∈ l) then None else mw_obj w !! m.

Lemma freed_nil w : freed [] w w.
Proof. exists (mw_obj w). split; [by destruct w |]. intros m. by rewrite decide_False by apply not_elem_of_nil. Qed.

Lemma freed_app l l' w w1 w2 : freed l w w1 → freed l' w1 w2 → freed (l ++ l') w w2.
Proof.
  intros (O1 & -> & H1) (O2 & -> & H2). exists O2. split; [done |]. intros m. rewrite H2. msimpl. rewrite H1.
  destruct (decide (m ∈ l')), (decide (m ∈ l)), (decide (m ∈ l ++ l')); set_solver.
Qed.

Lemma mnt_free_run m w : m ∈ dom (mw_obj w) → ∃ w', mnt_free m w = Ok (tt, w') ∧ freed [m] w w'.
Proof.
  intros [x Hx]%elem_of_dom. unfold mnt_free, mnt_at, st_lookup, st_bind, st_mod. rewrite Hx. eexists. split; [done |].
  eexists. split; [done |]. intros m'. destruct (decide (m' ∈ [m])) as [->%list_elem_of_singleton | Hne].
  - by rewrite lookup_delete_eq.
  - rewrite lookup_delete_ne; [done |]. intros ->. apply Hne, list_elem_of_singleton. done.
Qed.

Lemma frees_run l : ∀ w, NoDup l → (∀ m, m ∈ l → m ∈ dom (mw_obj w)) →
  ∃ w', st_iter mnt_free l w = Ok (tt, w') ∧ freed l w w'.
Proof.
  induction l as [| m l IH]; intros w Hnd Hl; simpl; [exists w; split; [done | apply freed_nil] |].
  apply NoDup_cons in Hnd as [Hm Hnd]. destruct (mnt_free_run m w ltac:(apply Hl; by left)) as (w1 & E1 & F1).
  destruct (IH w1 Hnd) as (w2 & E2 & F2).
  { intros y Hy. destruct F1 as (O & -> & HO). msimpl. apply elem_of_dom. rewrite HO, decide_False.
    - apply elem_of_dom, Hl. by right.
    - intros ->%list_elem_of_singleton. done. }
  exists w2. split; [by eapply bind_run |]. exact (freed_app [m] l w w1 w2 F1 F2).
Qed.

Lemma destroy_chain_frees l : destroy_chain l = st_iter mnt_free l.
Proof. induction l as [| m l IH]; simpl; [done | by rewrite IH]. Qed.

Lemma destroy_buckets_run bs : ∀ w,
  NoDup (concat (mw_bkt w <$> bs)) → (∀ m, m ∈ concat (mw_bkt w <$> bs) → m ∈ dom (mw_obj w)) →
  ∃ w', st_iter (λ b, let! l := st_gets (λ w, mw_bkt w b) in destroy_chain l) bs w = Ok (tt, w') ∧
    freed (concat (mw_bkt w <$> bs)) w w'.
Proof.
  induction bs as [| b bs IH]; intros w Hnd Hl; simpl; [exists w; split; [done | apply freed_nil] |].
  simpl in Hnd, Hl. apply NoDup_app in Hnd as (Hnd & Hdis & Hnd').
  destruct (frees_run (mw_bkt w b) w Hnd) as (w1 & E1 & F1).
  { intros m Hm. apply Hl, elem_of_app. by left. }
  assert (Eb : mw_bkt w1 = mw_bkt w) by (by destruct F1 as (O & -> & _)).
  destruct (IH w1) as (w2 & E2 & F2).
  { by rewrite Eb. }
  { rewrite Eb. intros m Hm. destruct F1 as (O & -> & HO). msimpl. apply elem_of_dom. rewrite HO, decide_False.
    - apply elem_of_dom, Hl, elem_of_app. by right.
    - intros Hm'. by eapply Hdis. }
  exists w2. split.
  - eapply bind_run; [| exact E2]. eapply bind_run; [apply gets_run |]. cbn beta. by rewrite destroy_chain_frees.
  - rewrite Eb in F2. by eapply freed_app.
Qed.

Section life.
Context `{HL : Layout} `{!LayoutOk HL} `{HX : SwTxn} `{!SwTxnOk HX}.

Lemma mquiet_freed k r N T P w w' :
  mquiet k w r N T P → freed (mw_rcu w) (set_mrcu [] w) w' → mquiet k w' r N T P ∧ mw_rcu w' = [].
Proof.
  intros [A [Hb Hr R Hd HP]] (O & -> & HO). msimpl in *. split; [| done]. exists A. split; msimpl; try done.
  assert (Hin : ∀ h m, A !! h = Some m → m ∉ mw_rcu w) by (intros h m Hm Hq; by eapply (mr_queued _ _ _ _ _ _ _ R)).
  destruct R. split; msimpl; try done.
  - intros h m c Hm Hc. rewrite HO, decide_False by (by eapply Hin). by apply mr_obj.
  - constructor.
  - by intros m ?%not_elem_of_nil.
  - intros m. rewrite elem_of_dom, HO. destruct (decide (m ∈ mw_rcu w)) as [Hm | Hm].
    + split; [by intros [? ?] |]. intros [[h Hh] | ?%not_elem_of_nil]; [by destruct (Hin h m Hh) | done].
    + rewrite <- elem_of_dom, mr_live. split; [intros [? | ?]; [by left | done] |].
      intros [? | ?%not_elem_of_nil]; [by left | done].
Qed.

Lemma wp_mnt_barrier w r N T P :
  mquiet 0 w r N T P → wp mnt_barrier (λ _ w', (∃ T', mquiet 0 w' r N T' P) ∧ mw_rcu w' = []) w.
Proof.
  intros Hq. destruct (quiet_binv r N T P 0 w Hq) as (Hi & Er & HP & Ht). unfold mnt_barrier. wp_step. apply wp_zoom.
  eapply wp_mono; [by eapply wp_bl_barrier |]. intros [] bw ([T' Hi'] & Er' & _).
  assert (Hq1 : mquiet 0 (set_bw bw w) r N T' P) by (by eapply mquiet_bw; [| | rewrite Er', Er | |]).
  wp_step. apply wp_gets. wp_step. apply wp_mod. msimpl.
  pose proof Hq1 as [A I]. pose proof (mi_rep _ _ _ _ _ _ _ _ _ _ _ _ I) as R.
  destruct (frees_run (mw_rcu w) (set_mrcu [] (set_bw bw w))) as (w' & E & F).
  { apply (mr_queue _ _ _ _ _ _ _ R). }
  { intros m Hm. apply (mr_live _ _ _ _ _ _ _ R). by right. }
  eapply wp_run; [exact E |]. destruct (mquiet_freed _ _ _ _ _ _ _ Hq1 F). eauto.
Qed.

Lemma wp_mnt_destroy k w r N T P :
  mquiet k w r N T P → mw_rcu w = [] → wp mnt_destroy (λ _ w', mw_obj w' = ∅) w.
Proof.
  intros [A I] Eq. pose proof (mi_rep _ _ _ _ _ _ _ _ _ _ _ _ I) as R. unfold mnt_destroy. wp_step.
  destruct (destroy_buckets_run mnt_buckets w) as (w' & E & (O & -> & HO)).
  { by eapply objects_nodup. }
  { intros m Hm. apply (mr_live _ _ _ _ _ _ _ R). left. by eapply objects_host. }
  eapply wp_run; [exact E |]. apply wp_mod. msimpl. apply map_eq. intros m. rewrite HO, lookup_empty.
  destruct (decide _) as [| Hno]; [done |]. apply not_elem_of_dom. rewrite (mr_live _ _ _ _ _ _ _ R), Eq.
  intros [[h Hh] | ?%not_elem_of_nil]; [| done]. apply Hno. rewrite (objects_spec _ _ _ _ _ _ _ _ w I).
  apply list_elem_of_fmap. exists (h, m). split; [done | by apply elem_of_map_to_list].
Qed.

(** Two grace periods and [mnt_destroy] leave no count object allocated. *)
Lemma wp_mnt_teardown w r N T P :
  mquiet 0 w r N T P → wp mnt_teardown (λ _ w', mw_obj w' = ∅) w.
Proof.
  intros Hq. unfold mnt_teardown. wp_step. eapply wp_mono; [by eapply wp_mnt_barrier |]. intros [] w1 [[T1 Hq1] _].
  wp_step. eapply wp_mono; [by eapply wp_mnt_barrier |]. intros [] w2 [[T2 Hq2] E2]. by eapply wp_mnt_destroy.
Qed.
End life.

(** * Histories *)

Inductive mcall :=
  | MEng (c : call)
  | MMount (p : dc_path)
  | MUmount (p : dc_path)
  | MCount (p : dc_path)
  | MFind (p : dc_path)
  | MCheck.

Inductive manswer :=
  | MAns (a : answer)
  | MRet (z : Z)
  | MFound (r : Z * Z).

(** The engine's calls that have no code of the table in them. *)
Definition plain_call (c : call) : bool :=
  match c with
  | CAdd _ _ _ _ | CInstantiate _ _ | CLookup _ | CLookupDentry _ | CReaddir _ | CDentryPath _ | CCensus => true
  | CBarrier | CDelete _ | CUnlink _ | CRename _ _ | CExchange _ _ | CShrink _ | CShrinkLocal _ => false
  end.

(** ** What does not touch a mountpoint leaves the counts *)

Section neutral.
Variables (r : Z) (N : nspace) (P : gset Z).
Hypothesis Ht : tree r N.
Hypothesis HP : P ⊆ dom N.

Lemma counts_added d n : N !! d = None → tree r (<[d := n]> N) → counts r (<[d := n]> N) P = counts r N P.
Proof.
  intros Hd Ht'. assert (Hup : ∀ p, p ∈ P → ∃ l, upto r N p l ∧ upto r (<[d := n]> N) p l ∧ d ∉ l).
  { intros p Hp. destruct (t_up _ _ Ht p) as [l Hl]; [by apply elem_of_dom, HP |].
    destruct (t_root _ _ Ht) as (rn & Hrn & _).
    assert (d ∉ l) as Hdl by (intros H; destruct (upto_dom r N p l d) as [? ?]; [by eexists | done | done | congruence]).
    exists l. split_and!; [done | | done]. eapply upto_frame; [| exact Hl]. intros x Hx _.
    rewrite lookup_insert_ne; [done |]. by intros ->. }
  assert (Hc : ∀ x, mcount r (<[d := n]> N) P x = mcount r N P x).
  { intros x. unfold mcount. do 2 f_equal. apply set_eq. intros p. rewrite !points_below_spec.
    split; intros [Hp Hs]; (split; [done |]); destruct (Hup p Hp) as (l & Hl & Hl' & _);
      rewrite (subdir_spec r N p x l Ht Hl), (subdir_spec r _ p x l Ht' Hl') in *; done. }
  apply map_eq. intros x. apply option_eq. intros v. rewrite !counts_lookup, Hc.
  destruct (decide (x = d)) as [-> | Hne]; [| by rewrite lookup_insert_ne].
  assert (mcount r N P d = 0) as E.
  { unfold mcount. replace (points_below r N P d) with (∅ : gset Z); [done |]. symmetry. apply set_eq. intros p.
    rewrite points_below_spec. split; [| set_solver]. intros [Hp Hs]. destruct (Hup p Hp) as (l & Hl & _ & Hdl).
    by apply (subdir_upto r N Ht p d l Hl) in Hs. }
  rewrite E. split; [by intros (_ & -> & ?) | by intros (_ & -> & ?)].
Qed.

Lemma plain_neutral `{HX : SwTxn} c a N' :
  plain_call c = true → bl_step r N c a N' → tree r N' → counts r N' P = counts r N P ∧ P ⊆ dom N'.
Proof.
  intros Hc Hs Ht'. destruct Hs as [p id isdir pos fresh z N' Hf E | p id z N' E | | | | | | | |]; try done.
  - unfold spec_add_bl in E. destruct (split_last _) as [[dirn nm] |]; [| by simplify_eq].
    destruct (p0 ← _; _) as [[p' pn] |]; [| by simplify_eq]. destruct (negb (n_dir pn)); [by simplify_eq |].
    destruct (child _ _ _ _), fresh as [d |]; try by simplify_eq. destruct (negb (n_pos pn)); simplify_eq; [done |].
    split; [by apply counts_added; [apply Hf |] |]. rewrite dom_insert_L. set_solver.
  - unfold spec_instantiate in E. destruct (pnames p); [by simplify_eq |]. destruct (d ← _; _) as [[d n] |] eqn:Ed; [| by simplify_eq].
    destruct (n_pos n); simplify_eq; [done |].
    destruct (nwalk _ _ _ _) as [d' |]; cbn [mbind option_bind] in Ed; [| done].
    destruct (N !! d') as [n' |] eqn:Hn; cbn [mbind option_bind] in Ed; [| done]. simplify_eq.
    split; [| rewrite dom_insert_L; set_solver]. apply counts_parents; [done | done | done |]. intros y.
    destruct (decide (y = d)) as [-> |]; [by rewrite lookup_insert_eq, Hn | by rewrite lookup_insert_ne].
Qed.
End neutral.

(** ** Calls and steps *)

Section history.
Context `{HA : Memalign} `{!MemalignOk HA} `{HL : Layout} `{!LayoutOk HL} `{HX : SwTxn} `{!SwTxnOk HX}.
Context `{HC : Calloc} `{!CallocOk HC} `{HR : Realloc} `{HT : MntTxn} `{!MntTxnOk HT}.

Definition mnt_exec (c : mcall) : MM manswer :=
  match c with
  | MEng (CDelete p) => let! z := mnt_delete p in st_ret (MAns (ARet z))
  | MEng (CUnlink p) => let! z := mnt_unlink p in st_ret (MAns (ARet z))
  | MEng CBarrier => mnt_barrier ;;; st_ret (MAns ADone)
  | MEng c => let! a := on_bw (bl_exec c) in st_ret (MAns a)
  | MMount p => let! z := dc_mount p in st_ret (MRet z)
  | MUmount p => let! z := dc_umount p in st_ret (MRet z)
  | MCount p => let! z := dc_mount_count p in st_ret (MRet z)
  | MFind p => let! x := dc_mount_find p in st_ret (MFound x)
  | MCheck => let! z := dc_mount_check in st_ret (MRet z)
  end.

(** The name space and its mountpoints: what each call answers and leaves.  Memory may
    fail a mount or an unmount, which then has changed nothing. *)
Inductive mnt_step (r : Z) (N : nspace) (P : gset Z) : mcall → manswer → nspace → gset Z → Prop :=
  | MSEng c a N' : plain_call c = true → bl_step r N c a N' → mnt_step r N P (MEng c) (MAns a) N' P
  | MSDelete p z N' :
      mnt_delete_spec r P (pnames p) N = (z, N') → mnt_step r N P (MEng (CDelete p)) (MAns (ARet z)) N' P
  | MSUnlink p z N' :
      mnt_unlink_spec r P (pnames p) N = (z, N') → mnt_step r N P (MEng (CUnlink p)) (MAns (ARet z)) N' P
  | MSBarrier : mnt_step r N P (MEng CBarrier) (MAns ADone) N P
  | MSMount p z P' : mount_spec r N P (pnames p) = (z, P') → mnt_step r N P (MMount p) (MRet z) N P'
  | MSMountMem p : mem_fails → mnt_step r N P (MMount p) (MRet (- ENOMEM)) N P
  | MSUmount p z P' : umount_spec r N P (pnames p) = (z, P') → mnt_step r N P (MUmount p) (MRet z) N P'
  | MSUmountMem p : mem_fails → mnt_step r N P (MUmount p) (MRet (- ENOMEM)) N P
  | MSCount p : mnt_step r N P (MCount p) (MRet (mount_count_spec r N P (pnames p))) N P
  | MSFind p x : mount_find_spec r N P (pnames p) x → mnt_step r N P (MFind p) (MFound x) N P
  | MSCheck : mnt_step r N P MCheck (MRet 0) N P.

(** What a caller owes: as without the table; no removal of a directory that is above a
    mountpoint and none itself; mountpoints within the depths that a search and an audit
    climb. *)
Definition within (r : Z) (N : nspace) (P : gset Z) (depth : nat) : Prop :=
  ∀ p l, p ∈ P → upto r N p l → (length l ≤ S depth)%nat.

Definition mnt_permitted (r : Z) (N : nspace) (P : gset Z) (c : mcall) : Prop :=
  match c with
  | MEng (CDelete p) => path_wf p ∧ ∀ h, nwalk r N r (pnames p) = Some h → h ∉ P → mcount r N P h = 0
  | MEng (CUnlink p) => path_wf p
  | MEng CBarrier => True
  | MEng c => plain_call c = true ∧ permitted r N c
  | MMount p | MUmount p => path_wf p ∧ Z.of_nat (size N) < 2 ^ 62
  | MCount p => path_wf p
  | MFind p => path_wf p ∧ within r N P DC_MNT_CLIMB_MAX
  | MCheck => Z.of_nat (size N) < 2 ^ 62 ∧ within r N P DC_LOOP_MAX
  end.

Definition mnt_matched (r : Z) (N : nspace) (P : gset Z) (c : mcall) (a : manswer) (w' : mworld) : Prop :=
  ∃ N' P' T', mquiet 0 w' r N' T' P' ∧ mnt_step r N P c a N' P'.

Lemma wp_plain_call r N T P w c :
  mquiet 0 w r N T P → plain_call c = true → permitted r N c →
  wp (let! a := on_bw (bl_exec c) in st_ret (MAns a)) (mnt_matched r N P (MEng c)) w.
Proof.
  intros Hq Hc Hp. destruct (quiet_binv r N T P 0 w Hq) as (Hi & Er & HP & Ht). wp_step. apply wp_zoom.
  eapply wp_mono; [eapply wp_bl_exec; [exact Hi | by rewrite Er] |]. rewrite Er.
  intros a bw (N' & [Er' [T' Hi']] & Hs). wp_step.
  pose proof (r_tree _ _ _ _ (bi_rep _ _ _ _ Hi')) as Ht'. rewrite Er' in Ht'.
  destruct (plain_neutral r N P Ht HP c a N' Hc Hs Ht') as [Ec HP'].
  exists N', P, T'. split; [by eapply mquiet_bw | by constructor].
Qed.

Lemma wp_mount_call r N T P w c (m : MM Z) spec :
  wp m (mount_post 0 r N T P spec) w → (∀ z P', spec = (z, P') → mnt_step r N P c (MRet z) N P') →
  (mem_fails → mnt_step r N P c (MRet (- ENOMEM)) N P) → wp (let! z := m in st_ret (MRet z)) (mnt_matched r N P c) w.
Proof.
  intros Hm Hs Hf. wp_step. eapply wp_mono; [exact Hm |]. destruct spec as [z P']. intros ret w' [[-> Hq] | (-> & Hmf & Hq)]; wp_step.
  - exists N, P', T. split; [done | by apply Hs].
  - exists N, P, T. split; [done | by apply Hf].
Qed.

Lemma wp_mnt_exec r N T P w c :
  mquiet 0 w r N T P → mnt_permitted r N P c → wp (mnt_exec c) (mnt_matched r N P c) w.
Proof.
  intros Hq Hp. destruct c as [c | p | p | p | p |]; simpl in Hp.
  - destruct c; try (destruct Hp as [? ?]; by eapply wp_plain_call); simpl.
    + destruct Hp as [Hp Hn]. wp_step. eapply wp_mono; [by eapply wp_mnt_delete |]. intros z w' (-> & T' & Hq'). wp_step.
      eexists _, P, T'. split; [exact Hq' |]. apply MSDelete. by destruct (mnt_delete_spec _ _ _ _).
    + wp_step. eapply wp_mono; [by eapply wp_mnt_unlink |]. intros z w' (-> & T' & Hq'). wp_step.
      eexists _, P, T'. split; [exact Hq' |]. apply MSUnlink. by destruct (mnt_unlink_spec _ _ _ _).
    + wp_step. eapply wp_mono; [by eapply wp_mnt_barrier |]. intros [] w' [[T' Hq'] _]. wp_step.
      exists N, P, T'. split; [done | apply MSBarrier].
  - destruct Hp. eapply wp_mount_call; [by apply dc_mount_correct | by constructor | by constructor].
  - destruct Hp. eapply wp_mount_call; [by apply dc_umount_correct | by constructor | by constructor].
  - simpl. wp_step. eapply wp_mono; [by eapply dc_mount_count_correct |]. intros z w' [-> Hq']. wp_step.
    exists N, P, T. split; [done | constructor].
  - destruct Hp as [Hp Hd]. simpl. wp_step. eapply wp_mono; [by eapply wp_dc_mount_find |]. intros x w' [Hx Hq']. wp_step.
    exists N, P, T. split; [done | by constructor].
  - destruct Hp as [Hs Hd]. simpl. wp_step. eapply wp_mono; [by eapply wp_dc_mount_check |]. intros z w' [-> Hq']. wp_step.
    exists N, P, T. split; [done | constructor].
Qed.

(** ** Histories *)

Fixpoint mnt_exec_all (cs : list mcall) : MM (list manswer) :=
  match cs with
  | [] => st_ret []
  | c :: cs' => let! a := mnt_exec c in let! l := mnt_exec_all cs' in st_ret (a :: l)
  end.

Inductive mnt_steps (r : Z) : nspace → gset Z → list mcall → list manswer → nspace → gset Z → Prop :=
  | MSNil N P : mnt_steps r N P [] [] N P
  | MSCons N P c a N' P' cs l N'' P'' :
      mnt_step r N P c a N' P' → mnt_steps r N' P' cs l N'' P'' → mnt_steps r N P (c :: cs) (a :: l) N'' P''.

Fixpoint mnt_obeys (r : Z) (N : nspace) (P : gset Z) (cs : list mcall) : Prop :=
  match cs with
  | [] => True
  | c :: cs' => mnt_permitted r N P c ∧ ∀ a N' P', mnt_step r N P c a N' P' → mnt_obeys r N' P' cs'
  end.

Lemma wp_mnt_exec_all r cs : ∀ w N T P,
  mquiet 0 w r N T P → mnt_obeys r N P cs →
  wp (mnt_exec_all cs) (λ l w', ∃ N' P' T', mquiet 0 w' r N' T' P' ∧ mnt_steps r N P cs l N' P') w.
Proof.
  induction cs as [| c cs IH]; intros w N T P Hq Ho; simpl.
  { wp_step. exists N, P, T. split; [done | constructor]. }
  destruct Ho as [Hc Ho]. wp_step. eapply wp_mono; [by eapply wp_mnt_exec |]. intros a w1 (N1 & P1 & T1 & Hq1 & Hs1).
  wp_step. eapply wp_mono; [eapply (IH w1 N1 T1 P1); [done | by eapply Ho] |]. intros l w2 (N2 & P2 & T2 & Hq2 & Hs2). wp_step.
  exists N2, P2, T2. split; [done |]. by econstructor.
Qed.

(** A caller that makes well-formed paths and removes with [dc_unlink] keeps to its
    obligations as long as the tree is small. *)
Definition modest (c : mcall) : Prop :=
  match c with
  | MEng (CAdd p _ _ _) | MEng (CInstantiate p _) | MEng (CUnlink p) | MEng (CLookup p) | MEng (CLookupDentry p)
  | MEng (CReaddir p) | MMount p | MUmount p | MCount p | MFind p => path_wf p
  | MEng CCensus | MEng CBarrier | MCheck => True
  | MEng _ => False
  end.

Lemma mnt_step_size r N P c a N' P' :
  modest c → mnt_step r N P c a N' P' → is_Some (N !! r) → is_Some (N' !! r) ∧ (size N' ≤ S (size N))%nat.
Proof.
  intros Hm Hs Hr. destruct Hs as [c a N' Hc Hs | | p z N' E | | | | | | | |]; try (split; [done | lia]).
  - assert (Hins : ∀ d n, is_Some (<[d := n]> N !! r) ∧ (size (<[d := n]> N) ≤ S (size N))%nat).
    { intros d n. split; [apply lookup_insert_is_Some; destruct (decide (d = r)); auto |].
      destruct (N !! d) eqn:Hd; [rewrite map_size_insert_Some by (by eexists) | rewrite map_size_insert_None by done]; lia. }
    destruct Hs as [p id isdir pos fresh z N' Hf E | p id z N' E | | | | | | | |]; try (done || (split; [done | lia])).
    + unfold spec_add_bl in E. repeat case_match; simplify_eq; (apply Hins || (split; [done | lia])).
    + unfold spec_instantiate in E. repeat case_match; simplify_eq; (apply Hins || (split; [done | lia])).
  - done.
  - assert (Hdel : ∀ names z N', spec_unlink r names N = (z, N') → is_Some (N' !! r) ∧ (size N' ≤ S (size N))%nat).
    { intros names z' N2 E2. unfold spec_unlink in E2. destruct names as [| nm nms]; [simplify_eq; split; [done | lia] |].
      destruct (nwalk r N r (nm :: nms)) as [d |] eqn:Ew; [| simplify_eq; split; [done | lia]].
      destruct (negb _); simplify_eq; [split; [done | lia] |]. apply (nwalk_not_root r N (nm :: nms)) in Ew; [| done].
      rewrite lookup_delete_ne by done. split; [done |]. rewrite map_size_delete. destruct (N !! d); simpl; lia. }
    unfold mnt_unlink_spec in E. repeat case_match; simplify_eq; (by eapply Hdel) || (split; [done | lia]).
Qed.

Lemma modest_obeys r cs : ∀ N P,
  is_Some (N !! r) → Forall modest cs → (size N + length cs ≤ DC_MNT_CLIMB_MAX)%nat → mnt_obeys r N P cs.
Proof.
  induction cs as [| c cs IH]; intros N P Hr Hcs Hsz; [done |]. apply Forall_cons in Hcs as [Hc Hcs]. simpl in Hsz.
  assert (DC_MNT_CLIMB_MAX ≤ DC_LOOP_MAX)%nat as Hle by (unfold DC_MNT_CLIMB_MAX, DC_PATH_MAX, DC_LOOP_MAX; lia).
  assert (Hw : ∀ depth, (DC_MNT_CLIMB_MAX ≤ depth)%nat → within r N P depth).
  { intros depth Hd p l _ Hl. pose proof (upto_length r N p l Hr Hl). lia. }
  assert (Hs62 : Z.of_nat (size N) < 2 ^ 62) by (unfold DC_MNT_CLIMB_MAX, DC_PATH_MAX in Hsz; lia).
  split; [destruct c as [[] | | | | |]; simpl in *; try done; naive_solver |].
  intros a N' P' Hs. destruct (mnt_step_size _ _ _ _ _ _ _ Hc Hs Hr). apply IH; [done | done | lia].
Qed.

(** C24: histories of the engine with its mount table refine the name space with
    mountpoints.  From a fresh cache, a caller that keeps to its obligations
    ([mnt_permitted]) can run any sequence of mounts, unmounts, counts, searches, audits,
    additions, removals, reads and grace periods: none faults, every answer is that of a
    run of the specification, and at the end the table counts for every dentry the
    mountpoints at or below it.  The obligations: well-formed paths; the reverse walk
    only of a dentry in the cache; no [dc_delete] of what is no mountpoint but has one
    below it, which would never return; mountpoints no deeper than a search
    (DC_MNT_CLIMB_MAX) or an audit (DC_LOOP_MAX) climbs when one runs; fewer than 2^62
    dentries.  Destroying the cache then frees every count object, those that wait for a
    grace period and those still in the table, each of them once. *)
Theorem mnt_history_refines node stack nb r cs :
  0 ≤ nb ≤ 2 ^ 31 → length (q_name stack) = DC_NAME_MAX → posix_memalign ∅ = Some r →
  mnt_obeys r {[r := root_node r]} ∅ cs →
  ∃ bw answers w N P T w', dc_create true true true node stack nb = Ok (Some bw) ∧
    mnt_exec_all cs (mnt_new bw) = Ok (answers, w) ∧ mquiet 0 w r N T P ∧
    mnt_steps r {[r := root_node r]} ∅ cs answers N P ∧
    mnt_teardown w = Ok (tt, w') ∧ mw_obj w' = ∅.
Proof.
  intros Hn Hs Hr Ho. destruct (dc_create_binv node stack nb r Hn Hs Hr) as (bw & b & E & Hi & Er & _).
  pose proof (mnt_new_quiet 0 bw _ _ Hi) as Hq. rewrite Er in Hq.
  destruct (wp_inv _ _ _ (wp_mnt_exec_all r cs _ _ _ _ Hq Ho)) as (l & w & E' & N & P & T & Hq' & Hs').
  destruct (wp_inv _ _ _ (wp_mnt_teardown w r N T P Hq')) as ([] & w' & E'' & Ho'). by exists bw, l, w, N, P, T, w'.
Qed.
End history.

#[local] Existing Instance plain_calloc_ok.
#[local] Existing Instance plain_mnt_txn_ok.

(** A file mounted on, counted, found and audited; it cannot be removed until it is
    unmounted. *)
Definition mnt_demo : list mcall :=
  [MEng (CAdd p_a 1 true true); MEng (CAdd p_b 2 true true); MEng (CAdd p_ax 3 false true); MMount p_ax; MCount p_a; MFind p_a;
   MCheck; MEng (CUnlink p_ax); MUmount p_ax; MEng CBarrier; MEng (CUnlink p_ax); MMount p_b; MCount p_a; MCheck].

Lemma mnt_history_refines_witness :
  let _ := plain_layout in let _ := roomy_txn in let _ := plain_calloc in let _ := plain_realloc in let _ := plain_mnt_txn in
  ∃ bw answers w w', dc_create true true true 0 qstr_zero 8 = Ok (Some bw) ∧
    mnt_exec_all mnt_demo (mnt_new bw) = Ok (answers, w) ∧ mnt_teardown w = Ok (tt, w') ∧ mw_obj w' = ∅ ∧
    drop 3 answers = [MRet 0; MRet 1; MFound (1, 3); MRet 0; MAns (ARet (- EBUSY)); MRet 0; MAns ADone; MAns (ARet 0); MRet 0; MRet 0; MRet 0].
Proof.
  intros HL HX HC HR HT.
  destruct (mnt_history_refines (HL := plain_layout) (HX := roomy_txn) (HC := plain_calloc) (HR := plain_realloc) (HT := plain_mnt_txn)
    0 qstr_zero 8 64 mnt_demo) as (bw & l & w & N & P & T & w' & E & E' & _ & _ & E'' & Ho); [lia | reflexivity | by vm_compute | |].
  { apply modest_obeys; [by eexists | unfold mnt_demo; repeat (apply Forall_cons; split; [first [exact I | cbn [modest]; path_by_decide] |]); by apply Forall_nil | by vm_compute; lia]. }
  exists bw, l, w, w'. split; [exact E |]. split; [exact E' |]. split; [exact E'' |]. split; [exact Ho |]. clear E'' Ho.
  vm_compute in E. injection E as <-. vm_compute in E'. injection E' as <- <-. done.
Defined.
