(* ===== verification/MountInline.v ===== *)
(** The other arm of the count of mountpoints (dcache_mount_inline.h), built with
    -DDC_MOUNT_INLINE: the count is a field of the dentry, so there is nothing to
    allocate, pin or hash, and it is its own flag.  Those who change a count hold one
    lock; a move adds its count above the new parent before its commit and takes it from
    above the old one after.

    The functions have the names of the other arm, here with [inl_] before them. *)

From S2P Require Import Prelude Qstr HList Lru World Walk BlChain BlLru BlWorld BlWalk BlOps BlMove BlReclaim Mount.

Record iworld := IWorld {
  iw_bw : bworld;
  iw_here : gmap Z Z;           (* d_mnt; a dentry is allocated with 0 *)
  iw_n : gmap Z Z;              (* d_mnt_n *)
  iw_shadow : gmap Z Z;         (* d_mnt_shadow *)
  iw_lock : bool;               (* mnt_lock is held *)
  iw_list : list Z;             (* mnt_list: the hosts of its records *)
  iw_recs : nat;                (* the [dc_mnt_here] that are allocated *)
  iw_sum : Z;
  iw_stat : dc_mount_stats;
}.

Definition set_ibw x w := IWorld x (iw_here w) (iw_n w) (iw_shadow w) (iw_lock w) (iw_list w) (iw_recs w) (iw_sum w) (iw_stat w).
Definition set_ihere x w := IWorld (iw_bw w) x (iw_n w) (iw_shadow w) (iw_lock w) (iw_list w) (iw_recs w) (iw_sum w) (iw_stat w).
Definition set_in x w := IWorld (iw_bw w) (iw_here w) x (iw_shadow w) (iw_lock w) (iw_list w) (iw_recs w) (iw_sum w) (iw_stat w).
Definition set_ishadow x w := IWorld (iw_bw w) (iw_here w) (iw_n w) x (iw_lock w) (iw_list w) (iw_recs w) (iw_sum w) (iw_stat w).
Definition set_ilock x w := IWorld (iw_bw w) (iw_here w) (iw_n w) (iw_shadow w) x (iw_list w) (iw_recs w) (iw_sum w) (iw_stat w).
Definition set_ilist x w := IWorld (iw_bw w) (iw_here w) (iw_n w) (iw_shadow w) (iw_lock w) x (iw_recs w) (iw_sum w) (iw_stat w).
Definition set_irecs x w := IWorld (iw_bw w) (iw_here w) (iw_n w) (iw_shadow w) (iw_lock w) (iw_list w) x (iw_sum w) (iw_stat w).
Definition set_isum x w := IWorld (iw_bw w) (iw_here w) (iw_n w) (iw_shadow w) (iw_lock w) (iw_list w) (iw_recs w) x (iw_stat w).
Definition set_istat x w := IWorld (iw_bw w) (iw_here w) (iw_n w) (iw_shadow w) (iw_lock w) (iw_list w) (iw_recs w) (iw_sum w) x.

(** Compute the projections of an updated world. *)
Ltac isimpl :=
  cbn [iw_bw iw_here iw_n iw_shadow iw_lock iw_list iw_recs iw_sum iw_stat
       set_ibw set_ihere set_in set_ishadow set_ilock set_ilist set_irecs set_isum set_istat].
Tactic Notation "isimpl" "in" "*" :=
  cbn [iw_bw iw_here iw_n iw_shadow iw_lock iw_list iw_recs iw_sum iw_stat
       set_ibw set_ihere set_in set_ishadow set_ilock set_ilist set_irecs set_isum set_istat] in *.

Abbreviation IM := (ST iworld).

Definition on_ibw {A} : M A → IM A := st_zoom iw_bw set_ibw.

(** A [long]. *)
Definition s64 (z : Z) : Z := (z + 2 ^ 63) mod 2 ^ 64 - 2 ^ 63.

Definition INL_STAT_INC (field : (Z → Z) → dc_mount_stats → dc_mount_stats) : IM unit :=
  st_mod (λ w, set_istat (field (λ z, w64 (z + 1)) (iw_stat w)) w).
Definition INL_STAT_DEC (field : (Z → Z) → dc_mount_stats → dc_mount_stats) : IM unit :=
  st_mod (λ w, set_istat (field (λ z, w64 (z - 1)) (iw_stat w)) w).

(** ** Counts and flags *)

Definition inl_mnt_n (host : Z) : IM Z :=
  on_ibw (dent_at host) ;;; st_gets (λ w, default 0 (iw_n w !! host)).

Definition inl_mnt_counted (host : Z) : IM bool :=
  let! n := inl_mnt_n host in st_ret (negb (n =? 0)).

Definition inl_mnt_here (host : Z) : IM bool :=
  on_ibw (dent_at host) ;;;
  let! v := st_gets (λ w, default 0 (iw_here w !! host)) in
  st_ret (negb (Z.land v DC_MNT_HERE =? 0)).

Definition inl_here_store (host : Z) (f : Z → Z) : IM unit :=
  on_ibw (dent_at host) ;;;
  st_mod (λ w, set_ihere (<[host := f (default 0 (iw_here w !! host))]> (iw_here w)) w).

Definition inl_mnt_move_counted (host : Z) : IM bool := inl_mnt_counted host.

(** [pthread_mutex_lock]; nobody is there to release a mutex that is held. *)
Definition inl_mnt_lock : IM unit := λ w,
  if iw_lock w then Err Deadlock else Ok (tt, set_ilock true w).
Definition inl_mnt_unlock : IM unit := st_mod (set_ilock false).

Definition inl_mnt_wait : IM unit :=
  INL_STAT_INC stat_waits ;;;
  inl_mnt_lock ;;;
  inl_mnt_unlock.

Definition inl_mnt_bump (a n : Z) : IM unit :=
  on_ibw (dent_at a) ;;;
  let! old := st_gets (λ w, default 0 (iw_n w !! a)) in
  let v := s64 (old + n) in
  st_mod (λ w, set_in (<[a := v]> (iw_n w)) w) ;;;
  st_mod (λ w, set_isum (s64 (iw_sum w + n)) w) ;;;
  if (0 <? n) && (v =? n) then INL_STAT_INC stat_objs
  else if (n <? 0) && (v =? 0) then INL_STAT_DEC stat_objs
  else st_ret tt.

(** ** Up the tree *)

(** Lock the child head of [a]'s parent, which a move of [a] holds. *)
Definition inl_lock_round (a : Z) (_ : unit) : IM (unit + Z) :=
  let! p := on_ibw (parent_of_rcu a) in
  on_ibw (lock_head (ChildHead p)) ;;;
  let! p' := on_ibw (parent_of_rcu a) in
  if p' =? p then st_ret (inr p)
  else
    on_ibw (unlock_head (ChildHead p)) ;;;
    st_ret (inl tt).

Definition inl_lock_parent (a : Z) : IM Z :=
  let! r := iter_upto RETRY_ROUNDS (inl_lock_round a) tt in
  match r with inr p => st_ret p | inl _ => st_fault NoFuel end.

(** The loop of [mnt_add_up], at [a]; where it comes to [bar] it takes back what it has
    added, up to there. *)
Fixpoint inl_add_up_loop (fuel : nat) (from n stop : Z) (check_alive : bool) (bar : Z) (hook : bool) (a : Z) : IM Z :=
  match fuel with
  | O => st_fault NoFuel
  | S fuel =>
      if a =? stop then st_ret 0
      else if a =? bar then
        inl_add_up_loop fuel from (- n) a false 0 false from ;;;
        st_ret (- EINVAL)
      else
        let! root := st_gets (λ w, bw_root (iw_bw w)) in
        if a =? root then
          inl_mnt_bump a n ;;;
          when hook (INL_STAT_INC stat_frozen) ;;;
          st_ret 0
        else
          let! p := inl_lock_parent a in
          let! alive := (if check_alive && (a =? from) then on_ibw (entry_alive a) else st_ret true) in
          if negb alive then
            on_ibw (unlock_head (ChildHead p)) ;;;
            st_ret (- ENOENT)
          else
            inl_mnt_bump a n ;;;
            on_ibw (unlock_head (ChildHead p)) ;;;
            when hook (INL_STAT_INC stat_frozen) ;;;
            inl_add_up_loop fuel from n stop check_alive bar hook p
  end.

(** Once up and once back. *)
Definition add_up_fuel (w : iworld) : nat := 2 * S (S (size (bw_dent (iw_bw w)))).

Definition inl_mnt_add_up (from n stop : Z) (check_alive : bool) (bar : Z) (hook : bool) : IM Z :=
  let! fuel := st_gets add_up_fuel in
  inl_add_up_loop fuel from n stop check_alive bar hook from.

(** ** What a move carries *)

Record inl_shift := IShift {
  is_held : bool;
  is_locked : bool;
  is_added : bool;
  is_for_a : Z; is_for_b : Z;
  is_c_a : Z; is_c_b : Z;
  is_from : Z; is_to : Z;
  is_n : Z;
}.

Definition INL_SHIFT_INIT : inl_shift := IShift false false false 0 0 0 0 0 0 0.

Definition set_iheld x s := IShift x (is_locked s) (is_added s) (is_for_a s) (is_for_b s) (is_c_a s) (is_c_b s) (is_from s) (is_to s) (is_n s).
Definition set_ilocked x s := IShift (is_held s) x (is_added s) (is_for_a s) (is_for_b s) (is_c_a s) (is_c_b s) (is_from s) (is_to s) (is_n s).
Definition set_iadded x s := IShift (is_held s) (is_locked s) x (is_for_a s) (is_for_b s) (is_c_a s) (is_c_b s) (is_from s) (is_to s) (is_n s).
Definition set_ifor a b s := IShift (is_held s) (is_locked s) (is_added s) a b (is_c_a s) (is_c_b s) (is_from s) (is_to s) (is_n s).
Definition set_ic a b s := IShift (is_held s) (is_locked s) (is_added s) (is_for_a s) (is_for_b s) a b (is_from s) (is_to s) (is_n s).
Definition set_imove f t n s := IShift (is_held s) (is_locked s) (is_added s) (is_for_a s) (is_for_b s) (is_c_a s) (is_c_b s) f t n.

(** On what is above [to], before the commit. *)
Definition inl_shift_add (s : inl_shift) (from to n bar : Z) (check : bool) : IM (Z * inl_shift) :=
  let s := set_imove from to n s in
  let! ret := inl_mnt_add_up to n 0 check bar true in
  st_ret (ret, if ret =? 0 then set_iadded true s else s).

(** The operation did not happen. *)
Definition inl_shift_undo (s : inl_shift) : IM inl_shift :=
  let! s := (if is_added s then
               inl_mnt_add_up (is_to s) (- is_n s) 0 false 0 false ;;;
               st_ret (set_iadded false s)
             else st_ret s) in
  st_ret (set_ic 0 0 (set_ifor 0 0 s)).

(** The lock, once for the operation. *)
Definition inl_shift_hold (s : inl_shift) : IM inl_shift :=
  if is_held s then st_ret s else inl_mnt_lock ;;; st_ret (set_iheld true s).

Definition inl_move_begin (s : inl_shift) (host from to : Z) : IM (Z * inl_shift) :=
  let! s := inl_shift_hold s in
  let! s := inl_shift_undo s in
  let! c := inl_mnt_n host in
  let s := set_ic c (is_c_b s) s in
  let! r := (if negb (c =? 0) then inl_shift_add s from to c host true else st_ret (0, s)) in
  let '(ret, s) := r in
  st_ret (ret, if ret =? 0 then set_ifor host (is_for_b s) s else s).

Definition inl_xchg_begin (s : inl_shift) (ha hb pa pb : Z) : IM (Z * inl_shift) :=
  let! s := inl_shift_hold s in
  let! s := inl_shift_undo s in
  let! ca := inl_mnt_n ha in
  let! cb := inl_mnt_n hb in
  let s := set_ic ca cb s in
  let! r := (if cb <? ca then inl_shift_add s pa pb (ca - cb) ha false
             else if ca <? cb then inl_shift_add s pb pa (cb - ca) hb false
             else st_ret (0, s)) in
  let '(ret, s) := r in
  st_ret (ret, if ret =? 0 then set_ifor ha hb s else s).

(** Nothing to take and nothing to look at again. *)
Definition inl_shift_lock (s : inl_shift) : IM (bool * inl_shift) := st_ret (true, set_ilocked true s).
Definition inl_shift_unlock (s : inl_shift) : IM inl_shift := st_ret (set_ilocked false s).

(** The move has committed. *)
Definition inl_shift_done (s : inl_shift) : IM inl_shift :=
  let! s := (if is_added s then
               inl_mnt_add_up (is_from s) (- is_n s) 0 false 0 false ;;;
               st_ret (set_iadded false s)
             else st_ret s) in
  st_ret (set_ifor 0 0 s).

Definition inl_shift_end (s : inl_shift) : IM inl_shift :=
  if negb (is_held s) then st_ret s
  else
    let! s := inl_shift_undo s in
    inl_mnt_unlock ;;;
    st_ret (set_iheld false s).

(** ** Mount and unmount *)

(** Does [malloc] of one more [dc_mnt_here] succeed? *)
Class HereMem := malloc_here : nat → bool.

Definition inl_here_free : IM unit := st_mod (λ w, set_irecs (iw_recs w - 1)%nat w).

(** The mountpoint counts itself, under its bucket and its parent's child head: [None]
    is "look for the top again". *)
Definition inl_mount_self `{Layout} (host parent top : Z) (name : qstr) : IM (option Z) :=
  let! bucket := on_ibw (bucket_of parent (q_hash name)) in
  let! heads := on_ibw (bl_lock_n [Bucket bucket; ChildHead parent]) in
  let! marked := on_ibw (on_hash (bl_marked top)) in
  let! pos := (if marked : bool then st_ret false else on_ibw (node_is_positive host)) in
  if marked || negb pos then
    on_ibw (bl_unlock_n heads) ;;;
    st_ret (if marked : bool then None else Some (- ENOENT))
  else
    inl_mnt_bump host 1 ;;;
    on_ibw (bl_unlock_n heads) ;;;
    st_ret (Some 0).

(** One round of the loop: the code and the parent. *)
Definition inl_mount_round `{Layout} (name : qstr) (host : Z) (_ : unit) : IM (unit + Z * Z) :=
  if host =? 0 then st_ret (inr (- ENOENT, 0))
  else
    let! parent := on_ibw (parent_of_rcu host) in
    let! top := on_ibw (find_top_rcu parent name) in
    let! h := (if top =? 0 then st_ret 0 else on_ibw (host_of_rcu top)) in
    if (top =? 0) || negb (h =? host) then st_ret (inr (- ENOENT, 0))
    else
      let! here := inl_mnt_here host in
      if here : bool then st_ret (inr (- EBUSY, 0))
      else
        let! r := inl_mount_self host parent top name in
        st_ret (match r with None => inl tt | Some ret => inr (ret, parent) end).

(** What follows once the mountpoint counts itself: the flag comes last. *)
Definition inl_mount_up (host parent : Z) : IM unit :=
  inl_mnt_add_up parent 1 0 false 0 true ;;;
  inl_here_store host (λ v, Z.lor v DC_MNT_HERE) ;;;
  st_mod (λ w, set_ilist (host :: iw_list w) w) ;;;
  INL_STAT_INC stat_mounts.

Definition inl_dc_mount `{Layout} `{HereMem} (path : dc_path) : IM Z :=
  let! recs := st_gets iw_recs in
  let here := malloc_here recs in
  when here (st_mod (set_irecs (S recs))) ;;;
  if bool_decide (ndepth path = 0)%nat || negb here then
    when here inl_here_free ;;;
    st_ret (if bool_decide (ndepth path = 0)%nat then - EINVAL else - ENOMEM)
  else
    let! name := on_ibw (comp_at path (ndepth path - 1)) in
    inl_mnt_lock ;;;
    on_ibw rcu_read_lock ;;;
    let! r := on_ibw (mnt_resolve path) in
    let host := fst r in
    let! r := iter_upto RETRY_ROUNDS (inl_mount_round name host) tt in
    match r with
    | inl _ => st_fault NoFuel
    | inr (ret, parent) =>
        when (ret =? 0) (inl_mount_up host parent) ;;;
        on_ibw rcu_read_unlock ;;;
        inl_mnt_unlock ;;;
        when (negb (ret =? 0)) inl_here_free ;;;
        st_ret ret
    end.

(** The last record of the list that is [host]'s, taken out: the list, and was there
    one? *)
Fixpoint del_last (host : Z) (l : list Z) : list Z * bool :=
  match l with
  | [] => ([], false)
  | h :: l =>
      let '(l', found) := del_last host l in
      if found then (h :: l', true) else if h =? host then (l, true) else (h :: l, false)
  end.

Definition inl_dc_umount (path : dc_path) : IM Z :=
  inl_mnt_lock ;;;
  on_ibw rcu_read_lock ;;;
  let! r := on_ibw (mnt_resolve path) in
  let host := fst r in
  let! r :=
    (if host =? 0 then st_ret (- ENOENT, false)
     else
       let! here := inl_mnt_here host in
       if negb here then st_ret (- EINVAL, false)
       else
         inl_here_store host (λ v, Z.land v (Z.lnot DC_MNT_HERE)) ;;;
         inl_mnt_add_up host (-1) 0 false 0 false ;;;
         let! l := st_gets iw_list in
         let '(l', found) := del_last host l in
         st_mod (set_ilist l') ;;;
         INL_STAT_INC stat_umounts ;;;
         st_ret (0, found)) in
  let '(ret, found) := r in
  on_ibw rcu_read_unlock ;;;
  inl_mnt_unlock ;;;
  when found inl_here_free ;;;
  st_ret ret.

Definition inl_dc_mount_count (path : dc_path) : IM Z :=
  on_ibw rcu_read_lock ;;;
  let! r := on_ibw (mnt_resolve path) in
  let! v := (if fst r =? 0 then st_ret (- ENOENT) else inl_mnt_n (fst r)) in
  on_ibw rcu_read_unlock ;;;
  st_ret v.

(** ** What a rename and an exchange do with the counts

    As [carry_round] and [swap_round] of the other arm: [mv] is the engine's own
    commit, which here has no count in it. *)

Definition inl_commit (mv : bworld → option bworld) : IM bool := λ w,
  match mv (iw_bw w) with
  | Some bw => Ok (true, set_ibw bw w)
  | None => Ok (false, w)
  end.

Definition inl_carry_round (host from to : Z) (mv : bworld → option bworld) (s : inl_shift)
  : IM (inl_shift + Z * inl_shift) :=
  let! counted := inl_mnt_move_counted host in
  let! r := (if negb counted then st_ret (true, s)
             else if negb (is_for_a s =? host) then st_ret (false, s) else inl_shift_lock s) in
  let '(go, s) := r in
  if negb go then
    let! r := inl_move_begin s host from to in
    let '(ret, s) := r in
    st_ret (if negb (ret =? 0) then inr (ret, s) else inl s)
  else
    let! ok := inl_commit mv in
    let! s := (if is_locked s then
                 let! s := (if ok && (negb (is_c_a s =? 0) || negb (is_c_b s =? 0))
                            then INL_STAT_INC stat_moves ;;; inl_shift_done s
                            else st_ret s) in
                 inl_shift_unlock s
               else st_ret s) in
    st_ret (inr (if ok : bool then 0 else - ENOMEM, s)).

Definition inl_carry (host from to : Z) (mv : bworld → option bworld) : IM Z :=
  let! r := iter_upto RETRY_ROUNDS (inl_carry_round host from to mv) INL_SHIFT_INIT in
  match r with
  | inl _ => st_fault NoFuel
  | inr (ret, s) => let! _ := inl_shift_end s in st_ret ret
  end.

Definition inl_swap_round (ha hb pa pb : Z) (mv : bworld → option bworld) (s : inl_shift)
  : IM (inl_shift + Z * inl_shift) :=
  let! ca := inl_mnt_move_counted ha in
  let! cb := (if ca : bool then st_ret true else inl_mnt_move_counted hb) in
  let! r := (if negb cb then st_ret (true, s)
             else if negb ((is_for_a s =? ha) && (is_for_b s =? hb)) then st_ret (false, s)
             else inl_shift_lock s) in
  let '(go, s) := r in
  if negb go then
    let! r := inl_xchg_begin s ha hb pa pb in
    let '(ret, s) := r in
    st_ret (if negb (ret =? 0) then inr (ret, s) else inl s)
  else
    let! ok := inl_commit mv in
    let! s := (if is_locked s then
                 when (ok && (negb (is_c_a s =? 0) || negb (is_c_b s =? 0))) (INL_STAT_INC stat_moves) ;;;
                 let! s := (if ok : bool then inl_shift_done s else st_ret s) in
                 inl_shift_unlock s
               else st_ret s) in
    st_ret (inr (if ok : bool then 0 else - ENOMEM, s)).

Definition inl_swap (ha hb pa pb : Z) (mv : bworld → option bworld) : IM Z :=
  let! r := iter_upto RETRY_ROUNDS (inl_swap_round ha hb pa pb mv) INL_SHIFT_INIT in
  match r with
  | inl _ => st_fault NoFuel
  | inr (ret, s) => let! _ := inl_shift_end s in st_ret ret
  end.

(** ** The audit *)

Definition inl_shadow_store (a : Z) (f : Z → Z) : IM unit :=
  on_ibw (dent_at a) ;;;
  st_mod (λ w, set_ishadow (<[a := f (default 0 (iw_shadow w !! a))]> (iw_shadow w)) w).

(** One dentry of a pass: the faults and the total. *)
Definition inl_check_at (pass : nat) (a : Z) (acc : Z * Z) : IM (Z * Z) :=
  let '(bad, total) := acc in
  on_ibw (dent_at a) ;;;
  let! sh := st_gets (λ w, default 0 (iw_shadow w !! a)) in
  match pass with
  | 0%nat => inl_shadow_store a (λ z, s64 (z + 1)) ;;; st_ret (bad, s64 (total + 1))
  | 1%nat =>
      if 0 <? sh then
        let! n := inl_mnt_n a in
        inl_shadow_store a (λ z, s64 (- z)) ;;;
        st_ret (if negb (n =? sh) then s64 (bad + 1) else bad, total)
      else st_ret acc
  | _ => inl_shadow_store a (λ _, 0) ;;; st_ret acc
  end.

Fixpoint inl_check_climb (pass hops : nat) (a : Z) (acc : Z * Z) : IM (Z * Z) :=
  let! acc := inl_check_at pass a acc in
  let! root := st_gets (λ w, bw_root (iw_bw w)) in
  match hops with
  | O => st_ret acc
  | S hops =>
      if a =? root then st_ret acc
      else let! p := on_ibw (parent_of_rcu a) in inl_check_climb pass hops p acc
  end.

Fixpoint inl_check_pass (pass : nat) (l : list Z) (acc : Z * Z) : IM (Z * Z) :=
  match l with
  | [] => st_ret acc
  | h :: l =>
      let! acc := inl_check_climb pass DC_LOOP_MAX h acc in
      inl_check_pass pass l acc
  end.

Definition inl_dc_mount_check : IM Z :=
  inl_mnt_lock ;;;
  on_ibw rcu_read_lock ;;;
  let! l := st_gets iw_list in
  let! acc := inl_check_pass 0 l (0, 0) in
  let! acc := inl_check_pass 1 l acc in
  let! acc := inl_check_pass 2 l acc in
  let '(bad, total) := acc in
  let! sum := st_gets iw_sum in
  on_ibw rcu_read_unlock ;;;
  inl_mnt_unlock ;;;
  st_ret (if negb (sum =? total) then s64 (bad + 1) else bad).

(** Teardown: the records of what is still mounted. *)
Definition inl_mnt_destroy : IM unit :=
  let! l := st_gets iw_list in
  st_iter (λ _, inl_here_free) l ;;;
  st_mod (set_ilist []).

(** The counters, of which the sets worked out again are none here. *)
Definition inl_dc_mount_stats : IM dc_mount_stats :=
  let! s := st_gets iw_stat in
  st_ret (MStat (s_mounts s) (s_umounts s) (s_moves s) (s_frozen s) 0 (s_waits s) (s_objs s) (s_find_again s)).

(** ** The search *)

(** The first child that counts a mountpoint, or 0. *)
Fixpoint inl_find_kid (fuel : nat) (n : Z) : IM Z :=
  match fuel with
  | O => st_fault NoFuel
  | S fuel =>
      if n =? 0 then st_ret 0
      else
        let! h := on_ibw (host_of_rcu n) in
        let! v := inl_mnt_n h in
        if 0 <? v then st_ret h
        else
          let! next := on_ibw (on_sib (bl_hlist_next_rcu n)) in
          inl_find_kid fuel next
  end.

Fixpoint inl_find_down (hops : nat) (cur : Z) : IM Z :=
  if cur =? 0 then st_ret 0
  else
    let! here := inl_mnt_here cur in
    if here : bool then st_ret cur
    else match hops with
    | O => st_ret cur
    | S hops =>
        let! first := on_ibw (on_sib (bl_hlist_first_rcu cur)) in
        let! fuel := st_gets (λ w, sib_fuel (iw_bw w)) in
        let! next := inl_find_kid fuel first in
        inl_find_down hops next
    end.

Definition inl_find_round (top : Z) (_ : unit) : IM (unit + Z * Z) :=
  let! v := inl_mnt_n top in
  if v =? 0 then st_ret (inr (0, 0))
  else
    let! cur := inl_find_down DC_LOOP_MAX top in
    let! below := (if cur =? 0 then st_ret 0 else on_ibw (mnt_below_rcu cur top)) in
    let! here := (if negb (cur =? 0) && (0 <? below) then inl_mnt_here cur else st_ret false) in
    if here : bool then
      let! x := on_ibw (dent_at cur) in
      st_ret (inr (1, d_id x))
    else if below <? 0 then st_ret (inr (- ELOOP, 0))
    else
      INL_STAT_INC stat_find_again ;;;
      st_ret (inl tt).

(** The code and *[id]. *)
Definition inl_dc_mount_find (path : dc_path) : IM (Z * Z) :=
  on_ibw rcu_read_lock ;;;
  let! r := on_ibw (mnt_resolve path) in
  let top := fst r in
  if top =? 0 then
    on_ibw rcu_read_unlock ;;;
    st_ret (- ENOENT, 0)
  else
    let! r := iter_upto RETRY_ROUNDS (inl_find_round top) tt in
    match r with
    | inl _ => st_fault NoFuel
    | inr v => on_ibw rcu_read_unlock ;;; st_ret v
    end.
