(* ===== verification/MountInlineRep.v ===== *)
(** What a state of the inline arm holds, and what the primitive steps do to it: the
    count of every dentry, the mountpoints, the list that the audit goes by, and the sum
    of all counts. *)

From S2P Require Import Prelude Qstr HList Lru World Walk Namespace TreeOps Paths BlChain BlLru BlWorld BlWalk.
From S2P Require Import BlOps BlMove BlInv BlReads BlWalkSpec BlLocks BlRep BlSect Mount MountRep MountSet MountSpec.
From S2P Require Import MountInline.

(** ** Words and sums *)

Lemma s64_id z : - 2 ^ 63 ≤ z < 2 ^ 63 → s64 z = z.
Proof. intros Hz. unfold s64. rewrite Z.mod_small by lia. lia. Qed.

Lemma s64_add z n : s64 (s64 z + n) = s64 (z + n).
Proof.
  unfold s64. f_equal. replace ((z + 2 ^ 63) mod 2 ^ 64 - 2 ^ 63 + n + 2 ^ 63) with ((z + 2 ^ 63) mod 2 ^ 64 + n) by lia.
  rewrite Zplus_mod_idemp_l. f_equal. lia.
Qed.

Definition zsum (l : list Z) : Z := foldr Z.add 0 l.

(** All counts, added up. *)
Definition ctotal (N : nspace) (c : Z → Z) : Z := zsum (c <$> elements (dom N)).

(** [n] more on every dentry of [l]. *)
Definition cadd (n : Z) (l : list Z) (c : Z → Z) (h : Z) : Z := c h + (if decide (h ∈ l) then n else 0).

Lemma zsum_ext (c c' : Z → Z) l : (∀ h, h ∈ l → c h = c' h) → zsum (c <$> l) = zsum (c' <$> l).
Proof.
  induction l as [| h l IH]; intros E; [done |]. cbn [fmap list_fmap zsum foldr]. rewrite (E h) by (by left). f_equal.
  apply IH. intros y Hy. apply E. by right.
Qed.

Lemma zsum_cadd n a (c : Z → Z) l :
  NoDup l → zsum (cadd n [a] c <$> l) = zsum (c <$> l) + (if decide (a ∈ l) then n else 0).
Proof.
  induction 1 as [| h l Hh Hl IH]; [done |]. cbn [fmap list_fmap zsum foldr]. fold (zsum (cadd n [a] c <$> l)) (zsum (c <$> l)).
  rewrite IH. unfold cadd. destruct (decide (h = a)) as [-> | Hne].
  - rewrite decide_True by (by apply list_elem_of_singleton). rewrite decide_False, decide_True by (done || by left). lia.
  - rewrite decide_False by (by rewrite list_elem_of_singleton).
    destruct (decide (a ∈ l)); [rewrite decide_True by (by right) | rewrite decide_False by (by rewrite elem_of_cons; intros [? | ?])]; lia.
Qed.

Lemma ctotal_ext N c c' : (∀ h, c h = c' h) → ctotal N c = ctotal N c'.
Proof. intros E. apply zsum_ext. intros h _. apply E. Qed.

Lemma ctotal_dom N N' c : dom N' = dom N → ctotal N' c = ctotal N c.
Proof. intros E. unfold ctotal. by rewrite E. Qed.

Lemma ctotal_cadd N n a c : is_Some (N !! a) → ctotal N (cadd n [a] c) = ctotal N c + n.
Proof.
  intros Ha. unfold ctotal. rewrite zsum_cadd by apply NoDup_elements. rewrite decide_True; [done |].
  by apply elem_of_elements, elem_of_dom.
Qed.

Lemma cadd_cons n a l c h : a ∉ l → cadd n l (cadd n [a] c) h = cadd n (a :: l) c h.
Proof.
  intros Ha. unfold cadd. destruct (decide (h = a)) as [-> | Hne].
  - rewrite decide_True by (by apply list_elem_of_singleton). rewrite decide_False, decide_True by (done || by left). lia.
  - rewrite decide_False by (by rewrite list_elem_of_singleton).
    destruct (decide (h ∈ l)); [rewrite decide_True by (by right) | rewrite decide_False by (by rewrite elem_of_cons; intros [? | ?])]; lia.
Qed.

Lemma cadd_undo n l c h : cadd (- n) l (cadd n l c) h = c h.
Proof. unfold cadd. destruct (decide (h ∈ l)); lia. Qed.

(** ** The invariant *)

Record iinv (k : nat) (w : iworld) (r : Z) (N : nspace) (T : gmap Z Z) (hs : list head) (c : Z → Z) (P : gset Z)
    (L : list Z) (m : nat) (lk : bool) : Prop := {
  ii_bw : sect k (iw_bw w) N T ∅ ∅ hs;
  ii_root : bw_root (iw_bw w) = r;
  ii_n : ∀ h, default 0 (iw_n w !! h) = c h;
  ii_here : ∀ h, default 0 (iw_here w !! h) = Z.b2z (bool_decide (h ∈ P));
  ii_points : P ⊆ dom N;
  ii_list : iw_list w = L;
  ii_recs : iw_recs w = m;
  ii_lock : iw_lock w = lk;
  ii_shadow : ∀ h, default 0 (iw_shadow w !! h) = 0;
  ii_sum : iw_sum w = s64 (ctotal N c);
}.

Lemma set_ibw_id w : set_ibw (iw_bw w) w = w.
Proof. by destruct w. Qed.

Lemma on_ibw_run {X} (m : M X) w a : m (iw_bw w) = Ok (a, iw_bw w) → on_ibw m w = Ok (a, w).
Proof. apply zoom_run. intros s. apply set_ibw_id. Qed.

Section inv.
Variables (k : nat) (w : iworld) (r : Z) (N : nspace) (T : gmap Z Z) (hs : list head) (c : Z → Z) (P : gset Z).
Variables (L : list Z) (m : nat) (lk : bool).
Hypothesis I : iinv k w r N T hs c P L m lk.

Lemma ii_rep : rep (iw_bw w) N T ∅.
Proof. apply (ii_bw _ _ _ _ _ _ _ _ _ _ _ I). Qed.
Lemma ii_tree : tree r N.
Proof. rewrite <- (ii_root _ _ _ _ _ _ _ _ _ _ _ I). apply (r_tree _ _ _ _ ii_rep). Qed.
Lemma ii_root_dom : is_Some (N !! r).
Proof. destruct (t_root _ _ ii_tree) as (n & Hn & _). by eexists. Qed.

Lemma ii_dent h : is_Some (N !! h) → ∃ x, on_ibw (dent_at h) w = Ok (x, w).
Proof.
  intros [n Hn]. destruct (rep_node _ _ _ _ h n ii_rep Hn) as (x & Hx & _). exists x. by apply on_ibw_run, dent_at_run.
Qed.

Lemma ii_parent h n : N !! h = Some n → on_ibw (parent_of_rcu h) w = Ok (n_parent n, w).
Proof.
  intros Hn. destruct (rep_node _ _ _ _ h n ii_rep Hn) as (x & Hx & Hok & _ & _ & _ & <-).
  by apply on_ibw_run, parent_of_run.
Qed.

Lemma ii_alive h : is_Some (N !! h) → on_ibw (entry_alive h) w = Ok (true, w).
Proof. intros Hh. eapply on_ibw_run, entry_alive_run; [apply ii_rep | done]. Qed.

Lemma ii_heads_child h : is_Some (N !! h) → heads_ok (iw_bw w) [ChildHead h].
Proof. intros Hh x ->%list_elem_of_singleton. eapply heads_child; [apply ii_rep | done]. Qed.

Lemma inl_mnt_n_run h : is_Some (N !! h) → inl_mnt_n h w = Ok (c h, w).
Proof.
  intros [x Hx]%ii_dent. unfold inl_mnt_n. eapply bind_run; [exact Hx |]. cbn beta. rewrite gets_run.
  by rewrite (ii_n _ _ _ _ _ _ _ _ _ _ _ I).
Qed.

Lemma inl_counted_run h : is_Some (N !! h) → inl_mnt_counted h w = Ok (negb (c h =? 0), w).
Proof. intros Hh. unfold inl_mnt_counted. eapply bind_run; [by apply inl_mnt_n_run |]. done. Qed.

Lemma inl_here_run h : is_Some (N !! h) → inl_mnt_here h w = Ok (bool_decide (h ∈ P), w).
Proof.
  intros [x Hx]%ii_dent. unfold inl_mnt_here. eapply bind_run; [exact Hx |]. cbn beta. eapply bind_run; [apply gets_run |].
  rewrite (ii_here _ _ _ _ _ _ _ _ _ _ _ I). by case_bool_decide.
Qed.

Lemma iinv_ext c' : (∀ h, c h = c' h) → iinv k w r N T hs c' P L m lk.
Proof.
  intros E. destruct I. split; try done; [intros h; by rewrite ii_n0, E |]. by rewrite ii_sum0, (ctotal_ext N c c').
Qed.

Lemma iinv_bw k' bw T' hs' : sect k' bw N T' ∅ ∅ hs' → bw_root bw = r → iinv k' (set_ibw bw w) r N T' hs' c P L m lk.
Proof. intros ? ?. destruct I. by split. Qed.

Lemma iinv_stat x : iinv k (set_istat x w) r N T hs c P L m lk.
Proof. destruct I. by split. Qed.

Lemma iinv_lock x : iinv k (set_ilock x w) r N T hs c P L m x.
Proof. destruct I. by split. Qed.

Lemma iinv_list x : iinv k (set_ilist x w) r N T hs c P x m lk.
Proof. destruct I. by split. Qed.

Lemma iinv_recs x : iinv k (set_irecs x w) r N T hs c P L x lk.
Proof. destruct I. by split. Qed.

(** *** One count *)

Lemma wp_inl_bump a n (Q : unit → iworld → Prop) :
  is_Some (N !! a) → - 2 ^ 63 ≤ c a + n < 2 ^ 63 →
  (∀ w', iinv k w' r N T hs (cadd n [a] c) P L m lk → iw_bw w' = iw_bw w → Q tt w') → wp (inl_mnt_bump a n) Q w.
Proof.
  intros Ha Hr HQ. destruct (ii_dent a Ha) as [x Hx]. unfold inl_mnt_bump. wp_step. eapply wp_run; [exact Hx |].
  wp_step. apply wp_gets. rewrite (ii_n _ _ _ _ _ _ _ _ _ _ _ I), s64_id by done. wp_step. wp_step. wp_step. wp_step.
  set (w1 := set_isum _ _).
  assert (I1 : iinv k w1 r N T hs (cadd n [a] c) P L m lk).
  { subst w1. destruct I. split; isimpl; try done.
    - intros h. unfold cadd. destruct (decide (h = a)) as [-> | Hne].
      + rewrite lookup_insert_eq, decide_True by (by apply list_elem_of_singleton). done.
      + rewrite lookup_insert_ne, ii_n0 by done. rewrite decide_False by (by rewrite list_elem_of_singleton). lia.
    - by rewrite ii_sum0, s64_add, ctotal_cadd. }
  assert (∀ x, iinv k (set_istat x w1) r N T hs (cadd n [a] c) P L m lk) as Hst by (intros x1; destruct I1; by split).
  destruct (_ && _); [unfold INL_STAT_INC; wp_step; by apply HQ |].
  destruct (_ && _); [unfold INL_STAT_DEC; wp_step; by apply HQ |].
  wp_step. by apply HQ.
Qed.
End inv.

(** *** The engine's locks and read sections *)

Section locks.
Context `{HL : Layout} `{!LayoutOk HL}.
Variables (k : nat) (r : Z) (N : nspace) (T : gmap Z Z) (c : Z → Z) (P : gset Z) (L : list Z) (m : nat) (lk : bool).
Abbreviation ii k hs w := (iinv k w r N T hs c P L m lk).

Lemma ii_relock hs hs' w bw : ii k hs w → relock (iw_bw w) bw → sect k bw N T ∅ ∅ hs' → ii k hs' (set_ibw bw w).
Proof.
  intros I Hl S. apply (iinv_bw _ _ _ _ _ _ _ _ _ _ _ I); [done |].
  destruct (relock_same _ _ Hl) as (_ & -> & _). apply I.
Qed.

Lemma wp_ii_lock w x (Q : unit → iworld → Prop) :
  ii k [] w → heads_ok (iw_bw w) [x] → (∀ w', ii k [x] w' → heads_ok (iw_bw w') [x] → Q tt w') →
  wp (on_ibw (lock_head x)) Q w.
Proof.
  intros I Hh HQ. apply wp_zoom. eapply wp_sect_lock1; [apply I | done |].
  intros bw Hl S Hok. apply HQ; [by eapply ii_relock | done].
Qed.

Lemma wp_ii_unlock w x (Q : unit → iworld → Prop) :
  ii k [x] w → heads_ok (iw_bw w) [x] → (∀ w', ii k [] w' → Q tt w') → wp (on_ibw (unlock_head x)) Q w.
Proof.
  intros I Hh HQ. apply wp_zoom. eapply wp_sect_unlock1; [apply I | done |]. intros bw Hl S. by eapply HQ, ii_relock.
Qed.

Lemma wp_ii_lock_n w l (Q : list head → iworld → Prop) :
  ii k [] w → heads_ok (iw_bw w) l →
  (∀ w', ii k l w' → heads_ok (iw_bw w') l → Q (sort_heads l) w') → wp (on_ibw (bl_lock_n l)) Q w.
Proof.
  intros I Hh HQ. apply wp_zoom. eapply wp_sect_lock_n; [apply I | done |].
  intros bw Hl S Hok. apply HQ; [by eapply ii_relock | done].
Qed.

Lemma wp_ii_unlock_n w l (Q : unit → iworld → Prop) :
  ii k l w → heads_ok (iw_bw w) l → (∀ w', ii k [] w' → Q tt w') → wp (on_ibw (bl_unlock_n (sort_heads l))) Q w.
Proof.
  intros I Hh HQ. apply wp_zoom. eapply wp_sect_unlock_n; [apply I | done |]. intros bw Hl S. by eapply HQ, ii_relock.
Qed.

Lemma ii_nest k' w : ii k [] w → ii k' [] (set_ibw (set_nest k' (iw_bw w)) w).
Proof.
  intros I. apply (iinv_bw _ _ _ _ _ _ _ _ _ _ _ I); [| apply I]. destruct (ii_bw _ _ _ _ _ _ _ _ _ _ _ I).
  split; bsimpl; [by apply rep_nest | done ..].
Qed.

Lemma wp_ii_enter w (Q : unit → iworld → Prop) :
  ii k [] w → (∀ w', ii (S k) [] w' → Q tt w') → wp (on_ibw rcu_read_lock) Q w.
Proof.
  intros I HQ. apply wp_zoom. unfold rcu_read_lock. wp_step. apply HQ.
  rewrite (se_nest _ _ _ _ _ _ _ (ii_bw _ _ _ _ _ _ _ _ _ _ _ I)). by eapply ii_nest.
Qed.
End locks.

Lemma wp_ii_leave k r N T c P L m lk w (Q : unit → iworld → Prop) :
  iinv (S k) w r N T [] c P L m lk → (∀ w', iinv k w' r N T [] c P L m lk → Q tt w') → wp (on_ibw rcu_read_unlock) Q w.
Proof.
  intros I HQ. apply wp_zoom. unfold wp, rcu_read_unlock.
  rewrite (se_nest _ _ _ _ _ _ _ (ii_bw _ _ _ _ _ _ _ _ _ _ _ I)). by eapply HQ, ii_nest.
Qed.

(** ** Up the tree *)

Section add_up.
Context `{HL : Layout} `{!LayoutOk HL}.
Variables (k : nat) (r : Z) (N : nspace) (T : gmap Z Z) (P : gset Z) (L : list Z) (m : nat) (lk : bool).
Abbreviation ii c w := (iinv k w r N T [] c P L m lk).

(** The next dentry up is reached with its parent's child head locked. *)
Lemma wp_inl_lock_parent c w a n (Q : Z → iworld → Prop) :
  ii c w → N !! a = Some n →
  (∀ w', iinv k w' r N T [ChildHead (n_parent n)] c P L m lk → heads_ok (iw_bw w') [ChildHead (n_parent n)] → Q (n_parent n) w') →
  wp (inl_lock_parent a) Q w.
Proof.
  intros I Hn HQ. pose proof (tree_parent _ _ _ _ (ii_tree _ _ _ _ _ _ _ _ _ _ _ I) Hn) as Hp.
  apply wp_once. unfold inl_lock_round. wp_step. eapply wp_run; [by eapply ii_parent |].
  wp_step. eapply wp_ii_lock; [exact I | by eapply ii_heads_child |]. intros w1 I1 Hok1.
  wp_step. eapply wp_run; [by eapply ii_parent |]. rewrite Z.eqb_refl. wp_step. eexists. split; [done |]. wp_step. by apply HQ.
Qed.

Lemma wp_when_frozen (hook : bool) c w (Q : unit → iworld → Prop) :
  ii c w → (∀ w', ii c w' → Q tt w') → wp (when hook (INL_STAT_INC stat_frozen)) Q w.
Proof.
  intros I HQ. apply wp_when; intros _; [| by apply HQ]. unfold INL_STAT_INC. wp_step. by apply HQ, iinv_stat.
Qed.

(** From [a] up through [pre], which has neither the end nor the bar in it. *)
Lemma wp_add_up_part from n stop check bar hook pre : ∀ fuel a post c w (Q : Z → iworld → Prop),
  ii c w → upto r N a (pre ++ post) → stop ∉ pre → bar ∉ pre → (length pre < fuel)%nat →
  (∀ h, h ∈ pre → - 2 ^ 63 ≤ c h + n < 2 ^ 63) →
  (∀ w', post = [] → ii (cadd n pre c) w' → Q 0 w') →
  (∀ w' x post', post = x :: post' → ii (cadd n pre c) w' →
     wp (inl_add_up_loop (fuel - length pre) from n stop check bar hook x) Q w') →
  wp (inl_add_up_loop fuel from n stop check bar hook a) Q w.
Proof.
  induction pre as [| a' pre IH]; intros fuel a post c w Q I Hup Hs Hb Hf Hr H0 HS.
  { destruct (upto_head _ _ _ _ Hup) as [l El]. simpl in El. subst post. rewrite <- (Nat.sub_0_r fuel).
    eapply HS; [done |]. eapply iinv_ext; [exact I |]. intros h. unfold cadd. rewrite decide_False by apply not_elem_of_nil. lia. }
  destruct (upto_head _ _ _ _ Hup) as [l [= -> _]]. destruct fuel as [| fuel]; [simpl in Hf; lia |].
  apply not_elem_of_cons in Hs as [Hs0 Hs], Hb as [Hb0 Hb].
  pose proof (upto_nodup _ _ _ _ Hup) as Hnd. cbn [app] in Hnd. apply NoDup_cons in Hnd as [Hnotin _].
  assert (a ∉ pre) as Hpre by (intros ?; apply Hnotin, elem_of_app; by left).
  assert (is_Some (N !! a)) as [x Hx] by (eapply upto_dom; [by eapply ii_root_dom | exact Hup | by left]).
  assert (Hext : ∀ w', ii (cadd n pre (cadd n [a] c)) w' → ii (cadd n (a :: pre) c) w').
  { intros w' I'. eapply iinv_ext; [exact I' |]. intros h. by apply cadd_cons. }
  cbn [inl_add_up_loop]. rewrite (proj2 (Z.eqb_neq a stop)), (proj2 (Z.eqb_neq a bar)) by congruence.
  wp_step. apply wp_gets. rewrite (ii_root _ _ _ _ _ _ _ _ _ _ _ I).
  inversion Hup as [E1 E2 | d x' l' Hx' Hne Hup' E1 E2].
  - subst a. rewrite Z.eqb_refl. symmetry in E2. apply app_nil in E2 as [-> ->].
    wp_step. eapply wp_inl_bump; [exact I | by eexists | apply Hr; by left |]. intros w1 I1 _.
    wp_step. eapply wp_when_frozen; [exact I1 |]. intros w2 I2. wp_step. by apply H0.
  - subst d l'. assert (x' = x) as -> by congruence. rewrite (proj2 (Z.eqb_neq a r)) by done.
    wp_step. eapply wp_inl_lock_parent; [exact I | exact Hx |]. intros w1 I1 Hok1.
    wp_step. eapply (wp_run _ _ _ true); [destruct (check && (a =? from)); [eapply ii_alive; [exact I1 | by eexists] | done] |].
    cbn [negb]. wp_step. eapply wp_inl_bump; [exact I1 | by eexists | apply Hr; by left |]. intros w2 I2 Ebw.
    wp_step. eapply wp_ii_unlock; [exact I2 | by rewrite Ebw |]. intros w3 I3.
    wp_step. eapply wp_when_frozen; [exact I3 |]. intros w4 I4.
    eapply IH; [exact I4 | exact Hup' | done | done | simpl in Hf; lia | | |].
    + intros h Hh. unfold cadd. rewrite decide_False; [rewrite Z.add_0_r; apply Hr; by right |].
      rewrite list_elem_of_singleton. by intros ->.
    + intros w' Ep I'. by apply H0, Hext.
    + intros w' y post' Ep I'. simpl in HS. by eapply HS, Hext.
Qed.

Lemma up_nonzero c w a l : ii c w → upto r N a l → 0 ∉ l.
Proof.
  intros I Hl H0. destruct (upto_dom r N a l 0) as [x Hx]; [by eapply ii_root_dom | done | done |].
  by destruct (rep_aligned _ _ _ _ (ii_rep _ _ _ _ _ _ _ _ _ _ _ I) 0 ltac:(by eexists)).
Qed.

Lemma up_fuel c w a l : ii c w → upto r N a l → (2 * length l < add_up_fuel w)%nat.
Proof.
  intros I Hl. pose proof (upto_length r N a l (ii_root_dom _ _ _ _ _ _ _ _ _ _ _ I) Hl).
  assert (size N ≤ size (bw_dent (iw_bw w)))%nat; [| unfold add_up_fuel; lia].
  rewrite <- !size_dom. apply subseteq_size. intros h Hh%elem_of_dom. apply elem_of_dom.
  eapply rep_dom_N; [by eapply ii_rep | done].
Qed.

(** Up to the root. *)
Lemma wp_inl_add_up c w from n check bar hook l (Q : Z → iworld → Prop) :
  ii c w → upto r N from l → bar ∉ l → (∀ h, h ∈ l → - 2 ^ 63 ≤ c h + n < 2 ^ 63) →
  (∀ w', ii (cadd n l c) w' → Q 0 w') → wp (inl_mnt_add_up from n 0 check bar hook) Q w.
Proof.
  intros I Hl Hb Hr HQ. pose proof (up_nonzero c w from l I Hl) as H0. pose proof (up_fuel c w from l I Hl) as Hf.
  unfold inl_mnt_add_up. wp_step. apply wp_gets.
  eapply (wp_add_up_part from n 0 check bar hook l); [exact I | by rewrite app_nil_r | done | done | lia | done | |]; [| done].
  intros w' _ I'. by apply HQ.
Qed.

(** To come to what moves is a cycle: everything is taken back. *)
Lemma wp_inl_add_up_cycle c w from n check bar hook l (Q : Z → iworld → Prop) :
  ii c w → upto r N from l → bar ∈ l → (∀ h, h ∈ l → - 2 ^ 63 ≤ c h + n < 2 ^ 63 ∧ - 2 ^ 63 ≤ c h < 2 ^ 63) →
  (∀ w', ii c w' → Q (- EINVAL) w') → wp (inl_mnt_add_up from n 0 check bar hook) Q w.
Proof.
  intros I Hl Hb Hr HQ. pose proof (up_nonzero c w from l I Hl) as H0. pose proof (up_fuel c w from l I Hl) as Hf.
  pose proof (upto_nodup _ _ _ _ Hl) as Hnd. apply list_elem_of_split in Hb as (pre & post & ->).
  apply NoDup_app in Hnd as (Hnd & Hdis & _). rewrite length_app in Hf. simpl in Hf.
  assert (bar ∉ pre) as Hpre by (intros H; apply (Hdis bar H); by left).
  assert (∀ h, h ∈ pre → - 2 ^ 63 ≤ c h + n < 2 ^ 63 ∧ - 2 ^ 63 ≤ c h < 2 ^ 63) as Hr' by (intros h Hh; apply Hr, elem_of_app; by left).
  rewrite not_elem_of_app, not_elem_of_cons in H0. destruct H0 as (Hz & Hbz & _).
  unfold inl_mnt_add_up. wp_step. apply wp_gets.
  eapply (wp_add_up_part from n 0 check bar hook pre); [exact I | exact Hl | done | done | lia | by apply Hr' | done |].
  intros w1 x post' [= <- <-] I1. destruct (add_up_fuel w - length pre)%nat as [| fuel] eqn:Ef; [lia |]. cbn [inl_add_up_loop].
  rewrite (proj2 (Z.eqb_neq bar 0)), Z.eqb_refl by done. wp_step.
  eapply (wp_add_up_part from (- n) bar false 0 false pre); [exact I1 | exact Hl | done | done | lia | | done |].
  { intros h Hh. pose proof (Hr' h Hh). unfold cadd. rewrite decide_True by done. lia. }
  intros w2 x post' [= <- <-] I2. destruct (fuel - length pre)%nat as [| fuel'] eqn:Ef'; [lia |]. cbn [inl_add_up_loop].
  rewrite Z.eqb_refl. wp_step. wp_step. apply HQ. eapply iinv_ext; [exact I2 |]. intros h. apply cadd_undo.
Qed.
End add_up.
