(* ===== verification/MountInlineOps.v ===== *)
(** Mount, unmount and count of the inline arm: they give what the specification of the
    other arm says, and leave every count exact. *)

From S2P Require Import Prelude Qstr HList Lru World Walk Namespace TreeOps Paths BlChain BlLru BlWorld BlWalk.
From S2P Require Import BlOps BlMove BlInv BlReads BlWalkSpec BlLocks BlRep BlSect Mount MountRep MountSet MountSpec.
From S2P Require Import MountInline MountInlineRep.

(** Between operations: every count exact, a record for every mountpoint. *)
Definition iquiet (k : nat) (w : iworld) (r : Z) (N : nspace) (T : gmap Z Z) (P : gset Z) : Prop :=
  ∃ L, iinv k w r N T [] (mcount r N P) P L (length L) false ∧ L ≡ₚ elements P.

Definition inl_post `{HereMem} (k : nat) (r : Z) (N : nspace) (T : gmap Z Z) (P : gset Z) (spec : Z * gset Z)
    (ret : Z) (w' : iworld) : Prop :=
  (ret = fst spec ∧ iquiet k w' r N T (snd spec)) ∨
  (ret = - ENOMEM ∧ (∃ n, malloc_here n = false) ∧ iquiet k w' r N T P).

Section ops.
Context `{HL : Layout} `{!LayoutOk HL} `{HM : HereMem}.
Variables (r : Z) (N : nspace) (T : gmap Z Z).

Lemma ii_mcount_range k w hs c P L m lk h :
  iinv k w r N T hs c P L m lk → Z.of_nat (size N) < 2 ^ 62 → 0 ≤ mcount r N P h < 2 ^ 62.
Proof.
  intros I Hs. pose proof (mcount_nonneg r N P h).
  pose proof (mcount_size r N P h (ii_points _ _ _ _ _ _ _ _ _ _ _ I)). lia.
Qed.

Lemma wp_here_store k w hs c P L m lk h P' (f : Z → Z) (Q : unit → iworld → Prop) :
  iinv k w r N T hs c P L m lk → is_Some (N !! h) → P' ⊆ dom N → (∀ y, y ≠ h → y ∈ P' ↔ y ∈ P) →
  f (Z.b2z (bool_decide (h ∈ P))) = Z.b2z (bool_decide (h ∈ P')) →
  (∀ w', iinv k w' r N T hs c P' L m lk → Q tt w') → wp (inl_here_store h f) Q w.
Proof.
  intros I Hh HP' Ho Hf HQ. destruct (ii_dent _ _ _ _ _ _ _ _ _ _ _ I h Hh) as [x Hx]. unfold inl_here_store.
  wp_step. eapply wp_run; [exact Hx |]. wp_step. apply HQ. destruct I. split; isimpl; try done.
  intros y. destruct (decide (y = h)) as [-> | Hne].
  - by rewrite lookup_insert_eq, ii_here, Hf.
  - rewrite lookup_insert_ne, ii_here by done. f_equal. symmetry. by apply bool_decide_ext, Ho.
Qed.

Lemma inl_resolve_run k w hs c P L m lk path :
  iinv k w r N T hs c P L m lk → path_wf path →
  ∃ p, on_ibw (mnt_resolve path) w = Ok ((default 0 (nwalk r N r (pnames path)), p), w).
Proof.
  intros I Hp. destruct (bl_mnt_resolve_run _ _ _ _ (ii_rep _ _ _ _ _ _ _ _ _ _ _ I) path Hp) as [p E].
  rewrite (ii_root _ _ _ _ _ _ _ _ _ _ _ I) in E. exists p. by apply on_ibw_run.
Qed.

Lemma inl_known k w hs c P L m lk names h :
  iinv k w r N T hs c P L m lk → nwalk r N r names = Some h → h ≠ 0 ∧ ∃ n, N !! h = Some n.
Proof.
  intros I Hw. assert (is_Some (N !! h)) as Hh by (eapply nwalk_dom; [apply (ii_root_dom _ _ _ _ _ _ _ _ _ _ _ I) | done]).
  split; [by apply (rep_aligned _ _ _ _ (ii_rep _ _ _ _ _ _ _ _ _ _ _ I) h) | done].
Qed.

Lemma wp_inl_lock k w hs c P L m (Q : unit → iworld → Prop) :
  iinv k w r N T hs c P L m false → (∀ w', iinv k w' r N T hs c P L m true → Q tt w') → wp inl_mnt_lock Q w.
Proof. intros I HQ. unfold wp, inl_mnt_lock. rewrite (ii_lock _ _ _ _ _ _ _ _ _ _ _ I). by eapply HQ, iinv_lock. Qed.

Lemma wp_inl_unlock k w hs c P L m lk (Q : unit → iworld → Prop) :
  iinv k w r N T hs c P L m lk → (∀ w', iinv k w' r N T hs c P L m false → Q tt w') → wp inl_mnt_unlock Q w.
Proof. intros I HQ. unfold inl_mnt_unlock. wp_step. by eapply HQ, iinv_lock. Qed.

Lemma wp_here_free k w hs c P L m lk (Q : unit → iworld → Prop) :
  iinv k w r N T hs c P L (S m) lk → (∀ w', iinv k w' r N T hs c P L m lk → Q tt w') → wp inl_here_free Q w.
Proof.
  intros I HQ. unfold inl_here_free. wp_step. rewrite (ii_recs _ _ _ _ _ _ _ _ _ _ _ I). simpl. rewrite Nat.sub_0_r.
  by eapply HQ, iinv_recs.
Qed.

(** *** [dc_mount] *)

Lemma wp_mount_self k w c P L m lk h n t q (Q : option Z → iworld → Prop) :
  iinv k w r N T [] c P L m lk → N !! h = Some n → T !! h = Some t → - 2 ^ 63 ≤ c h + 1 < 2 ^ 63 →
  (∀ w', n_pos n = true → iinv k w' r N T [] (cadd 1 [h] c) P L m lk → Q (Some 0) w') →
  (∀ w', n_pos n = false → iinv k w' r N T [] c P L m lk → Q (Some (- ENOENT)) w') →
  wp (inl_mount_self h (n_parent n) t q) Q w.
Proof.
  intros I Hn Ht Hr HQ HE. unfold inl_mount_self. pose proof (ii_rep _ _ _ _ _ _ _ _ _ _ _ I) as R.
  pose proof (tree_parent _ _ _ _ (ii_tree _ _ _ _ _ _ _ _ _ _ _ I) Hn) as Hpar.
  wp_step. unfold bucket_of. apply wp_zoom. wp_step. rewrite set_ibw_id. wp_step.
  eapply wp_ii_lock_n; [exact I | |].
  { intros x [-> | ->%list_elem_of_singleton]%elem_of_cons; [by eapply heads_bucket | by eapply heads_child]. }
  intros w1 I1 Hok1. pose proof (ii_rep _ _ _ _ _ _ _ _ _ _ _ I1) as R1.
  wp_step. eapply wp_run; [by eapply on_ibw_run, live_run |]. cbn iota.
  destruct (rep_node _ _ _ _ h n R1 Hn) as (x & Hx1 & Hxok & _ & Epos & _).
  wp_step. eapply wp_run; [by eapply on_ibw_run, node_is_positive_run |]. rewrite Epos. cbn [orb].
  destruct (n_pos n) eqn:En; cbn [negb].
  - wp_step. eapply wp_inl_bump; [exact I1 | by eexists | done |]. intros w2 I2 Ebw.
    wp_step. eapply wp_ii_unlock_n; [exact I2 | by rewrite Ebw |]. intros w3 I3. wp_step. by apply HQ.
  - wp_step. eapply wp_ii_unlock_n; [exact I1 | done |]. intros w2 I2. wp_step. by apply HE.
Qed.

(** The code, and the counts when it is 0. *)
Definition mount_ret (P : gset Z) (h : Z) : Z :=
  if decide (h ∈ P) then - EBUSY else if default false (n_pos <$> N !! h) then 0 else - ENOENT.

Lemma wp_inl_mount_round k w P L m lk q h n p :
  iinv k w r N T [] (mcount r N P) P L m lk → N !! h = Some n → n_parent n = p → child r N p (qname q) = Some h →
  qstr_wf q → Z.of_nat (size N) < 2 ^ 62 →
  wp (inl_mount_round q h tt) (λ x w', ∃ parent, x = inr (mount_ret P h, parent) ∧ (mount_ret P h = 0 → parent = p) ∧
    iinv k w' r N T [] (if mount_ret P h =? 0 then cadd 1 [h] (mcount r N P) else mcount r N P) P L m lk) w.
Proof.
  intros I Hn En Hc Hqw Hsz. pose proof (ii_rep _ _ _ _ _ _ _ _ _ _ _ I) as R. pose proof (ii_root _ _ _ _ _ _ _ _ _ _ _ I) as Er.
  destruct (rep_aligned _ _ _ _ R h ltac:(by eexists)) as [_ H0]. subst p.
  unfold inl_mount_round. rewrite (proj2 (Z.eqb_neq h 0) H0). wp_step. eapply wp_run; [by eapply ii_parent |]. wp_step.
  destruct (find_top_cases _ _ _ _ (n_parent n) q R Hqw) as [[Ec _] | (h' & n' & t & Ec & Hn' & Ht & Ht0 & _ & _ & _ & Ef)];
    rewrite Er, Hc in Ec; [done |]. injection Ec as <-. assert (n' = n) as -> by congruence.
  eapply wp_run; [by apply on_ibw_run |]. rewrite (proj2 (Z.eqb_neq t 0) Ht0).
  wp_step. eapply wp_run; [by eapply on_ibw_run, host_of_top |]. rewrite Z.eqb_refl. cbn [orb negb].
  wp_step. eapply wp_run; [eapply inl_here_run; [exact I | by eexists] |]. unfold mount_ret. rewrite Hn.
  cbn [fmap option_fmap option_map default from_option id].
  case_bool_decide as HP.
  { rewrite (decide_True (P := _ ∈ P)) by done. wp_step. by exists 0. }
  rewrite (decide_False (P := _ ∈ P)) by done. wp_step. pose proof (ii_mcount_range _ _ _ _ _ _ _ _ h I Hsz).
  eapply (wp_mount_self k w _ P L m lk h n t q); [exact I | done | done | lia | |]; intros w1 Epos I1; wp_step; rewrite Epos.
  - by exists (n_parent n).
  - exists (n_parent n). by split_and!.
Qed.

Lemma wp_inl_mount_up k w P L m lk h n lp (Q : unit → iworld → Prop) :
  iinv k w r N T [] (cadd 1 [h] (mcount r N P)) P L m lk → N !! h = Some n → h ≠ r → upto r N (n_parent n) lp → h ∉ P →
  Z.of_nat (size N) < 2 ^ 62 →
  (∀ w', iinv k w' r N T [] (mcount r N ({[h]} ∪ P)) ({[h]} ∪ P) (h :: L) m lk → Q tt w') →
  wp (inl_mount_up h (n_parent n)) Q w.
Proof.
  intros I Hn Hr Hlp HhP Hsz HQ. pose proof (ii_tree _ _ _ _ _ _ _ _ _ _ _ I) as Ht.
  assert (upto r N h (h :: lp)) as Hl by (by econstructor).
  assert (h ∉ lp) as Hhl by (pose proof (upto_nodup _ _ _ _ Hl) as Hnd; by apply NoDup_cons in Hnd as [? _]).
  pose proof (ii_points _ _ _ _ _ _ _ _ _ _ _ I) as HP. pose proof (elem_of_dom_2 _ _ _ Hn) as Hd.
  unfold inl_mount_up. wp_step. eapply wp_inl_add_up; [exact I | exact Hlp | by eapply up_nonzero | |].
  { intros y _. unfold cadd. pose proof (ii_mcount_range _ _ _ _ _ _ _ _ y I Hsz). case_decide; lia. }
  intros w1 I1. wp_step. eapply (wp_here_store _ _ _ _ _ _ _ _ h ({[h]} ∪ P)); [exact I1 | by eexists | set_solver | set_solver | |].
  { rewrite bool_decide_eq_false_2, bool_decide_eq_true_2 by set_solver. done. }
  intros w2 I2. wp_step. wp_step. unfold INL_STAT_INC. wp_step. apply HQ. eapply iinv_stat. rewrite (ii_list _ _ _ _ _ _ _ _ _ _ _ I2). eapply iinv_list.
  eapply iinv_ext; [exact I2 |]. intros y. rewrite cadd_cons by done. unfold cadd.
  by rewrite (mcount_add r N Ht P h (h :: lp) y Hl HhP).
Qed.

(** The end of a mount: the lock is dropped, a record that was not used is freed. *)
Lemma wp_mount_out k w c P L m (ret : Z) (Q : Z → iworld → Prop) :
  iinv (S k) w r N T [] c P L (S m) true →
  (∀ w', iinv k w' r N T [] c P L (if ret =? 0 then S m else m) false → Q ret w') →
  wp (on_ibw rcu_read_unlock ;;; inl_mnt_unlock ;;; when (negb (ret =? 0)) inl_here_free ;;; st_ret ret) Q w.
Proof.
  intros I HQ. wp_step. eapply wp_ii_leave; [exact I |]. intros w1 I1. wp_step. eapply wp_inl_unlock; [exact I1 |].
  intros w2 I2. wp_step. destruct (ret =? 0); cbn [negb when].
  - wp_step. wp_step. by apply HQ.
  - eapply wp_here_free; [exact I2 |]. intros w3 I3. wp_step. by apply HQ.
Qed.

Lemma elements_add (P : gset Z) (h : Z) L : h ∉ P → L ≡ₚ elements P → h :: L ≡ₚ elements ({[h]} ∪ P).
Proof. intros Hh Hp. rewrite elements_union_singleton by done. by rewrite Hp. Qed.

Theorem inl_dc_mount_correct k w P path :
  iquiet k w r N T P → path_wf path → Z.of_nat (size N) < 2 ^ 62 →
  wp (inl_dc_mount path) (inl_post k r N T P (mount_spec r N P (pnames path))) w.
Proof.
  intros (L & I & HL') Hp Hsz. unfold inl_dc_mount. wp_step. apply wp_gets. rewrite (ii_recs _ _ _ _ _ _ _ _ _ _ _ I).
  destruct (malloc_here (length L)) eqn:Em.
  2:{ cbn [when]. wp_steps. rewrite orb_true_r. cbn [when]. wp_steps. case_bool_decide as E0.
      - left. pose proof (length_pnames path Hp) as El. rewrite E0 in El. apply nil_length_inv in El.
        unfold mount_spec. rewrite El. split; [done |]. by exists L.
      - right. split_and!; [done | by eexists | by exists L]. }
  cbn [when negb]. rewrite orb_false_r. wp_step. wp_step.
  pose proof (iinv_recs _ _ _ _ _ _ _ _ _ _ _ I (S (length L))) as I0. case_bool_decide as H0.
  { cbn [when]. wp_step. eapply wp_here_free; [exact I0 |]. intros w1 I1. wp_step. left.
    pose proof (length_pnames path Hp) as El. rewrite H0 in El. apply nil_length_inv in El.
    unfold mount_spec. rewrite El. split; [done |]. by exists L. }
  destruct (path_split path Hp H0) as (q & Hcq & Hqw & Hwalk & _). pose proof (pnames_nonempty path Hp H0) as Hne.
  wp_step. eapply wp_run; [by apply on_ibw_run, comp_at_run |]. wp_step. eapply wp_inl_lock; [exact I0 |]. intros w1 I1.
  wp_step. eapply wp_ii_enter; [exact I1 |]. intros w2 I2. wp_step.
  destruct (inl_resolve_run _ _ _ _ _ _ _ _ path I2 Hp) as [p' Ep]. eapply wp_run; [exact Ep |]. cbn [fst].
  specialize (Hwalk r N). unfold mount_spec.
  destruct (pnames path) as [| nm names] eqn:Enm; [done |]. cbn match. apply wp_once.
  destruct (nwalk r N r (nm :: names)) as [h |] eqn:Ew; cbn [default from_option].
  2:{ unfold inl_mount_round. cbn [Z.eqb]. wp_step. eexists. split; [done |]. wp_steps. cbn [when Z.eqb]. wp_steps.
      eapply (wp_mount_out k w2); [exact I2 |]. intros w3 I3. left. split; [done |]. by exists L. }
  change (id h) with h. symmetry in Hwalk. apply bind_Some in Hwalk as (p & Hpw & Hc).
  pose proof Hc as (Hr & n & Hn & En & _)%child_Some_1.
  eapply wp_mono; [by eapply wp_inl_mount_round |]. intros x w3 (parent & -> & Hpar & I3). eexists. split; [done |].
  unfold mount_ret in *. destruct (decide (h ∈ P)) as [HhP | HhP].
  { cbn [when Z.eqb] in *. wp_steps. eapply (wp_mount_out k w3); [exact I3 |]. intros w4 I4. left. split; [done |]. by exists L. }
  destruct (default false _) eqn:Epos; cbn [Z.eqb] in *.
  2:{ cbn [when]. wp_steps. eapply (wp_mount_out k w3); [exact I3 |]. intros w4 I4. left. split; [done |]. by exists L. }
  cbn [when]. rewrite Hpar, <- En by done.
  destruct (t_up _ _ (ii_tree _ _ _ _ _ _ _ _ _ _ _ I3) (n_parent n)) as [lp Hlp];
    [by eapply tree_parent; [apply (ii_tree _ _ _ _ _ _ _ _ _ _ _ I3) |] |].
  wp_step. eapply wp_inl_mount_up; [exact I3 | done | done | done | done | done |]. intros w4 I4.
  eapply (wp_mount_out k w4 _ _ _ _ 0); [exact I4 |]. intros w5 I5. left. split; [done |]. exists (h :: L). split; [done |].
  by apply elements_add.
Qed.

(** *** [dc_umount] *)

Lemma del_last_spec h l : NoDup l → h ∈ l → ∃ l', del_last h l = (l', true) ∧ l ≡ₚ h :: l'.
Proof.
  induction 1 as [| x l Hx Hl IH]; intros Hh; [by apply not_elem_of_nil in Hh |]. cbn [del_last].
  destruct (decide (h ∈ l)) as [Hin | Hin].
  - destruct (IH Hin) as (l' & -> & Hp). exists (x :: l'). split; [done |]. rewrite Hp. apply Permutation_swap.
  - apply elem_of_cons in Hh as [-> | Hh]; [| done].
    assert (∀ y, y ∉ l → del_last y l = (l, false)) as E.
    { clear. intros y. induction l as [| z l IHl]; [done |]. intros [? ?]%not_elem_of_cons. cbn [del_last].
      rewrite IHl by done. by rewrite (proj2 (Z.eqb_neq z y)). }
    rewrite E by done. rewrite Z.eqb_refl. by exists l.
Qed.

Lemma elements_remove (P : gset Z) (h : Z) L L' : h ∈ P → L ≡ₚ elements P → L ≡ₚ h :: L' → L' ≡ₚ elements (P ∖ {[h]}).
Proof.
  intros Hh Hp Hp'. apply (Permutation_cons_inv (a := h)). rewrite <- Hp', Hp.
  rewrite <- (elements_union_singleton (C := gset Z)) by set_solver. f_equiv. rewrite <- union_difference_L; [done | set_solver].
Qed.

Theorem inl_dc_umount_correct k w P path :
  iquiet k w r N T P → path_wf path → Z.of_nat (size N) < 2 ^ 62 →
  wp (inl_dc_umount path) (λ ret w', ret = fst (umount_spec r N P (pnames path)) ∧
    iquiet k w' r N T (snd (umount_spec r N P (pnames path)))) w.
Proof.
  intros (L & I & HL') Hp Hsz. unfold inl_dc_umount. wp_step. eapply wp_inl_lock; [exact I |]. intros w1 I1.
  wp_step. eapply wp_ii_enter; [exact I1 |]. intros w2 I2. wp_step.
  destruct (inl_resolve_run _ _ _ _ _ _ _ _ path I2 Hp) as [p' Ep]. eapply wp_run; [exact Ep |]. cbn [fst].
  assert (Hout : ∀ w3 c P' L' m (ret : Z) (found : bool), iinv (S k) w3 r N T [] c P' L' (if found then S m else m) true →
    (∀ w4, iinv k w4 r N T [] c P' L' m false → ret = fst (umount_spec r N P (pnames path)) ∧
      iquiet k w4 r N T (snd (umount_spec r N P (pnames path)))) →
    wp (on_ibw rcu_read_unlock ;;; inl_mnt_unlock ;;; when found inl_here_free ;;; st_ret ret)
      (λ ret w', ret = fst (umount_spec r N P (pnames path)) ∧ iquiet k w' r N T (snd (umount_spec r N P (pnames path)))) w3).
  { intros w3 c P' L' m ret found I3 HQ. wp_step. eapply wp_ii_leave; [exact I3 |]. intros w4 I4.
    wp_step. eapply wp_inl_unlock; [exact I4 |]. intros w5 I5. wp_step. destruct found; cbn [when].
    - eapply wp_here_free; [exact I5 |]. intros w6 I6. wp_step. by apply HQ.
    - wp_step. wp_step. by apply HQ. }
  unfold umount_spec in *. destruct (nwalk r N r (pnames path)) as [h |] eqn:Ew; cbn [default from_option].
  2:{ cbn [Z.eqb]. wp_step. wp_step. eapply (Hout _ _ _ _ (length L) _ false); [exact I2 |]. intros w3 I3. split; [done |]. by exists L. }
  change (id h) with h. destruct (inl_known _ _ _ _ _ _ _ _ _ h I2 Ew) as (H0 & n & Hn). rewrite (proj2 (Z.eqb_neq h 0) H0).
  wp_step. wp_step. eapply wp_run; [eapply inl_here_run; [exact I2 | by eexists] |]. case_bool_decide as HhP; cbn [negb].
  2:{ rewrite (decide_False (P := h ∈ P)) in * by done. wp_step. eapply (Hout _ _ _ _ (length L) _ false); [exact I2 |]. intros w3 I3. split; [done |]. by exists L. }
  rewrite (decide_True (P := h ∈ P)) in * by done. cbn [fst snd] in *.
  pose proof (ii_tree _ _ _ _ _ _ _ _ _ _ _ I2) as Ht. pose proof (ii_points _ _ _ _ _ _ _ _ _ _ _ I2) as HP.
  destruct (t_up _ _ Ht h ltac:(by eexists)) as [l Hl].
  wp_step. eapply (wp_here_store _ _ _ _ _ _ _ _ h (P ∖ {[h]})); [exact I2 | by eexists | set_solver | set_solver | |].
  { rewrite bool_decide_eq_true_2, bool_decide_eq_false_2 by set_solver. done. }
  intros w3 I3. wp_step. eapply wp_inl_add_up; [exact I3 | exact Hl | by eapply up_nonzero | |].
  { intros y _. pose proof (ii_mcount_range _ _ _ _ _ _ _ _ y I2 Hsz). lia. }
  intros w4 I4. wp_step. apply wp_gets. rewrite (ii_list _ _ _ _ _ _ _ _ _ _ _ I4).
  assert (NoDup L) as Hnd by (rewrite HL'; apply NoDup_elements).
  destruct (del_last_spec h L Hnd) as (L' & -> & Hperm). { rewrite HL'. by apply elem_of_elements. }
  wp_step. wp_step. unfold INL_STAT_INC. wp_step. wp_step. wp_step.
  assert (length L = S (length L')) as Elen by (by rewrite (Permutation_length Hperm)).
  eapply (Hout _ _ _ L' (length L') 0 true); [eapply iinv_stat, iinv_list; rewrite Elen in I4; exact I4 |].
  intros w5 I5. split; [done |]. exists L'. split; [| by eapply elements_remove].
  eapply iinv_ext; [exact I5 |]. intros y. unfold cadd. rewrite (mcount_remove r N Ht P h l y Hl HhP). case_decide; lia.
Qed.

Theorem inl_dc_mount_count_correct k w P path :
  iquiet k w r N T P → path_wf path →
  wp (inl_dc_mount_count path) (λ v w', v = mount_count_spec r N P (pnames path) ∧ iquiet k w' r N T P) w.
Proof.
  intros (L & I & HL') Hp. unfold inl_dc_mount_count. wp_step. eapply wp_ii_enter; [exact I |]. intros w1 I1. wp_step.
  destruct (inl_resolve_run _ _ _ _ _ _ _ _ path I1 Hp) as [p' Ep]. eapply wp_run; [exact Ep |]. cbn [fst]. unfold mount_count_spec.
  wp_step. eapply (wp_run _ _ _ (match nwalk r N r (pnames path) with Some h => mcount r N P h | None => - ENOENT end)).
  2:{ wp_step. eapply wp_ii_leave; [exact I1 |]. intros w2 I2. wp_step. split; [done | by exists L]. }
  destruct (nwalk r N r (pnames path)) as [h |] eqn:Ew; cbn [default from_option]; [| done]. change (id h) with h.
  destruct (inl_known _ _ _ _ _ _ _ _ _ h I1 Ew) as (H0 & n & Hn). rewrite (proj2 (Z.eqb_neq h 0) H0).
  eapply inl_mnt_n_run; [exact I1 | by eexists].
Qed.
End ops.
