(* ===== verification/MountInlineMove.v ===== *)
(** Moves of the inline arm: what is carried is added above the new parent before the
    commit and taken from above the old one after, so that no count is ever short. *)

From S2P Require Import Prelude Qstr HList Lru World Walk Namespace TreeOps Paths BlChain BlLru BlWorld BlWalk.
From S2P Require Import BlOps BlMove BlInv BlReads BlWalkSpec BlLocks BlRep BlSect Mount MountRep MountSet MountSpec.
From S2P Require Import Moves MountChains MountCarry MountSwap.
From S2P Require Import MountInline MountInlineRep MountInlineOps.

Lemma cadd_zero l c h : cadd 0 l c h = c h.
Proof. unfold cadd. case_decide; lia. Qed.

Section shift.
Context `{HL : Layout} `{!LayoutOk HL}.
Variables (k : nat) (r : Z) (N N' : nspace) (T : gmap Z Z) (P : gset Z) (L : list Z) (m : nat).
Variables (from to n : Z) (lf lt : list Z).
Abbreviation c0 := (mcount r N P).
Abbreviation ii c lk w := (iinv k w r N T [] c P L m lk).
Hypothesis Hlf : upto r N from lf.
Hypothesis Hlt : upto r N to lt.
Hypothesis Hlf' : upto r N' from lf.
Hypothesis Hn : 0 ≤ n < 2 ^ 62.
Hypothesis Hsz : Z.of_nat (size N) < 2 ^ 62.
Hypothesis Hdom : ∀ x, is_Some (N' !! x) ↔ is_Some (N !! x).
(** What the move does to the counts. *)
Hypothesis Hcount : ∀ x, mcount r N' P x = c0 x + (if decide (x ∈ lt) then n else 0) - (if decide (x ∈ lf) then n else 0).

(** [s] holds the lock; it has added [n] above [to], unless that is 0. *)
Definition begun (s : inl_shift) : Prop :=
  is_held s = true ∧
  (is_added s = true ∧ is_from s = from ∧ is_to s = to ∧ is_n s = n ∨ is_added s = false ∧ n = 0).

Lemma iinv_moved c w bw T' lk : ii c lk w → sect k bw N' T' ∅ ∅ [] → bw_root bw = r →
  iinv k (set_ibw bw w) r N' T' [] c P L m lk.
Proof.
  intros I S Er. assert (dom N' = dom N) as Ed by (apply set_eq; intros x; by rewrite !elem_of_dom).
  destruct I. split; isimpl; try done; [by rewrite Ed | by rewrite (ctotal_dom N N')].
Qed.

(** The move did not happen. *)
Lemma wp_begun_undo w s (Q : inl_shift → iworld → Prop) :
  ii (cadd n lt c0) true w → begun s →
  (∀ s' w', is_held s' = true → is_added s' = false → ii c0 true w' → Q s' w') → wp (inl_shift_undo s) Q w.
Proof.
  intros I [Hh Ha] HQ. unfold inl_shift_undo. wp_step. destruct Ha as [(-> & _ & -> & ->) | (Ea & E0)].
  - wp_step. eapply wp_inl_add_up; [exact I | exact Hlt | by eapply up_nonzero | |].
    { intros h _. unfold cadd. pose proof (ii_mcount_range _ _ _ _ _ _ _ _ _ _ _ h I Hsz). case_decide; lia. }
    intros w1 I1. wp_steps. apply HQ; [done | done |]. eapply iinv_ext; [exact I1 |]. intros h. apply cadd_undo.
  - rewrite Ea. wp_steps. apply HQ; [done | done |]. eapply iinv_ext; [exact I |]. intros h. rewrite E0. apply cadd_zero.
Qed.

Lemma wp_begun_end w s (Q : inl_shift → iworld → Prop) :
  ii (cadd n lt c0) true w → begun s → (∀ s' w', ii c0 false w' → Q s' w') → wp (inl_shift_end s) Q w.
Proof.
  intros I Hb HQ. unfold inl_shift_end. pose proof Hb as [-> _]. cbn [negb]. wp_step.
  eapply wp_begun_undo; [exact I | exact Hb |]. intros s1 w1 _ _ I1. wp_step. eapply wp_inl_unlock; [exact I1 |].
  intros w2 I2. wp_step. by apply HQ.
Qed.

(** It did. *)
Lemma wp_begun_done w s T' (Q : inl_shift → iworld → Prop) :
  iinv k w r N' T' [] (cadd n lt c0) P L m true → P ⊆ dom N → begun s →
  (∀ s' w', is_held s' = true → is_added s' = false → iinv k w' r N' T' [] (mcount r N' P) P L m true → Q s' w') →
  wp (inl_shift_done s) Q w.
Proof.
  intros I HP [Hh Ha] HQ. unfold inl_shift_done. wp_step. destruct Ha as [(-> & -> & _ & ->) | (Ea & E0)].
  - wp_step. eapply wp_inl_add_up; [exact I | exact Hlf' | by eapply up_nonzero | |].
    { intros h _. unfold cadd. pose proof (mcount_nonneg r N P h). pose proof (mcount_size r N P h HP). case_decide; lia. }
    intros w1 I1. wp_steps. apply HQ; [done | done |]. eapply iinv_ext; [exact I1 |]. intros h. rewrite Hcount. unfold cadd.
    destruct (decide (h ∈ lf)), (decide (h ∈ lt)); lia.
  - rewrite Ea. wp_steps. apply HQ; [done | done |]. eapply iinv_ext; [exact I |]. intros h. rewrite Hcount, E0, cadd_zero.
    destruct (decide (h ∈ lf)), (decide (h ∈ lt)); lia.
Qed.

(** What is added before the commit covers both name spaces. *)
Lemma begun_covers x : c0 x ≤ cadd n lt c0 x ∧ mcount r N' P x ≤ cadd n lt c0 x.
Proof. rewrite Hcount. unfold cadd. destruct (decide (x ∈ lt)), (decide (x ∈ lf)); lia. Qed.

(** The first half of a move. *)
Lemma wp_shift_add w s bar check (Q : Z * inl_shift → iworld → Prop) :
  ii c0 true w → is_held s = true → bar ∉ lt →
  (∀ w' s', begun s' → is_locked s' = is_locked s → is_for_a s' = is_for_a s → is_for_b s' = is_for_b s →
     is_c_a s' = is_c_a s → is_c_b s' = is_c_b s → ii (cadd n lt c0) true w' → Q (0, s') w') →
  wp (inl_shift_add s from to n bar check) Q w.
Proof.
  intros I Hh Hb HQ. unfold inl_shift_add. wp_step. eapply wp_inl_add_up; [exact I | exact Hlt | done | |].
  { intros h _. pose proof (ii_mcount_range _ _ _ _ _ _ _ _ _ _ _ h I Hsz). lia. }
  intros w1 I1. wp_step. cbn [Z.eqb]. by apply HQ; [split; [done | left; done] | ..].
Qed.
End shift.

(** The end of an operation that has nothing added. *)
Lemma wp_shift_end k r N T P L m c s w (Q : inl_shift → iworld → Prop) :
  iinv k w r N T [] c P L m (is_held s) → is_added s = false →
  (∀ s' w', iinv k w' r N T [] c P L m false → Q s' w') → wp (inl_shift_end s) Q w.
Proof.
  intros I Ha HQ. unfold inl_shift_end. destruct (is_held s) eqn:Eh; cbn [negb]; [| wp_step; by apply HQ].
  unfold inl_shift_undo. rewrite Ha. wp_steps. eapply wp_inl_unlock; [exact I |]. intros w1 I1. wp_step. by apply HQ.
Qed.

(** What a move leaves, once its code is known. *)
Definition icarry_post (k : nat) (r : Z) (N N' : nspace) (T : gmap Z Z) (P : gset Z) (mv : bworld → option bworld)
    (ret : Z) (w' : iworld) : Prop :=
  ret = 0 ∧ (∃ T', iquiet k w' r N' T' P) ∨ ret = - ENOMEM ∧ mover_fails k N T mv ∧ iquiet k w' r N T P.

Lemma inl_commit_cases k r N N' T mv w c P L m lk (Q : bool → iworld → Prop) :
  mover_ok k r N N' T mv → iinv k w r N T [] c P L m lk →
  (∀ bw T', sect k bw N' T' ∅ ∅ [] → bw_root bw = r → Q true (set_ibw bw w)) →
  (mover_fails k N T mv → Q false w) → wp (inl_commit mv) Q w.
Proof.
  intros Hmv I HQ HE. unfold wp, inl_commit.
  specialize (Hmv (iw_bw w) (ii_bw _ _ _ _ _ _ _ _ _ _ _ I) (ii_root _ _ _ _ _ _ _ _ _ _ _ I)).
  destruct (mv (iw_bw w)) as [bw |] eqn:E; [destruct Hmv as ((T' & S) & Er); by eapply HQ | apply HE].
  exists (iw_bw w). split; [apply I | done].
Qed.

Lemma wp_stat_moves k r N T P L m c lk b w (Q : unit → iworld → Prop) :
  iinv k w r N T [] c P L m lk → (∀ w', iinv k w' r N T [] c P L m lk → Q tt w') →
  wp (when b (INL_STAT_INC stat_moves)) Q w.
Proof. intros I HQ. apply wp_when; intros _; [| by apply HQ]. unfold INL_STAT_INC. wp_step. by apply HQ, iinv_stat. Qed.

(** ** Rename *)

Section carry.
Context `{HL : Layout} `{!LayoutOk HL}.
Variables (k : nat) (r : Z) (N N' : nspace) (T : gmap Z Z) (P : gset Z) (h from to : Z) (lf lt : list Z).
Variables (mv : bworld → option bworld).
Hypothesis HM : moves r N N' h from to.
Hypothesis HP : P ⊆ dom N.
Hypothesis Hlf : upto r N from lf.
Hypothesis Hlt : upto r N to lt.
Hypothesis Hsz : Z.of_nat (size N) < 2 ^ 62.
Hypothesis Hmv : mover_ok k r N N' T mv.
Abbreviation c := (mcount r N P h).

Lemma icarry_host : ∃ n, N !! h = Some n ∧ n_parent n = from.
Proof. pose proof (mv_old _ _ _ _ _ _ HM). destruct (N !! h) as [n |]; [| done]. simplify_eq/=. eauto. Qed.

Lemma icarry_avoid : h ∉ lf ∧ h ∉ lt.
Proof.
  destruct icarry_host as (n & Hn & En). split.
  - eapply (upto_parent_avoid r N h n); [done | apply HM | by rewrite En].
  - pose proof (mv_cycle _ _ _ _ _ _ HM) as H. rewrite (subdir_spec r N to h _ (mv_tree _ _ _ _ _ _ HM) Hlt) in H.
    by apply bool_decide_eq_false in H.
Qed.

Lemma icarry_dom x : is_Some (N' !! x) ↔ is_Some (N !! x).
Proof.
  destruct (decide (x = h)) as [-> | Hne]; [| by rewrite (mv_same _ _ _ _ _ _ HM)].
  pose proof (mv_old _ _ _ _ _ _ HM). pose proof (mv_new _ _ _ _ _ _ HM).
  destruct (N !! h), (N' !! h); try done; split; by eexists.
Qed.

Lemma icarry_count x :
  mcount r N' P x = mcount r N P x + (if decide (x ∈ lt) then c else 0) - (if decide (x ∈ lf) then c else 0).
Proof.
  destruct icarry_host as (n & Hn & En). pose proof (mv_new _ _ _ _ _ _ HM) as Hn'. destruct icarry_avoid as [_ Hav].
  destruct (N' !! h) as [n' |] eqn:En'; [| done]. simplify_eq/=.
  by rewrite (mcount_moved r N N' P h (n_parent n) (n_parent n') n n' lf lt); try done; try apply HM.
Qed.

Lemma icarry_up : upto r N' from lf.
Proof. destruct icarry_avoid as [Hav _]. eapply (upto_outside r N N' h); [apply HM | exact Hlf | exact Hav]. Qed.

Lemma icarry_range : 0 ≤ c < 2 ^ 62.
Proof. pose proof (mcount_nonneg r N P h). pose proof (mcount_size r N P h HP). lia. Qed.

(** Before the commit. *)
Lemma wp_inl_move_begin w L (Q : Z * inl_shift → iworld → Prop) :
  iinv k w r N T [] (mcount r N P) P L (length L) false → c ≠ 0 →
  (∀ s w', begun from to c s → is_for_a s = h → is_c_a s = c → iinv k w' r N T [] (cadd c lt (mcount r N P)) P L (length L) true →
     Q (0, s) w') →
  wp (inl_move_begin INL_SHIFT_INIT h from to) Q w.
Proof.
  intros I Hc HQ. destruct icarry_host as (n & Hn & En). destruct icarry_avoid as [_ Hav]. pose proof icarry_range as Hr.
  unfold inl_move_begin, inl_shift_hold. cbn [is_held INL_SHIFT_INIT]. wp_step. wp_step. eapply wp_inl_lock; [exact I |].
  intros w1 I1. wp_step. wp_step. unfold inl_shift_undo. cbn [is_added set_iheld INL_SHIFT_INIT]. wp_step. wp_step. wp_step.
  wp_step. eapply wp_run; [eapply inl_mnt_n_run; [exact I1 | by eexists] |]. rewrite (proj2 (Z.eqb_neq c 0) Hc). cbn [negb].
  wp_step. eapply (wp_shift_add k r N T P L (length L) from to c lt Hlt Hr Hsz); [exact I1 | done | exact Hav |].
  intros w2 s2 Hb2 _ _ _ Eca _ I2. wp_step. cbn [Z.eqb]. by apply HQ.
Qed.

(** The commit, and the second half. *)
Lemma wp_inl_carry_locked w L s (Q : Z → iworld → Prop) :
  iinv k w r N T [] (cadd c lt (mcount r N P)) P L (length L) true → L ≡ₚ elements P → c ≠ 0 →
  begun from to c s → is_for_a s = h → is_c_a s = c →
  (∀ ret w', icarry_post k r N N' T P mv ret w' → Q ret w') →
  wp (inl_carry_round h from to mv s) (λ x w', match x with
    | inr (ret, s) => wp (let! _ := inl_shift_end s in st_ret ret) Q w' | inl _ => False end) w.
Proof.
  intros I HL' Hc Hb Ea Eca HQ. destruct icarry_host as (n & Hn & En). destruct icarry_avoid as [_ Hav]. pose proof icarry_range as Hr.
  unfold inl_carry_round. wp_step. eapply wp_run; [eapply inl_counted_run; [exact I | by eexists] |].
  unfold cadd at 1. rewrite decide_False, Z.add_0_r, (proj2 (Z.eqb_neq c 0) Hc) by done. cbn [negb]. rewrite Ea, Z.eqb_refl. cbn [negb].
  unfold inl_shift_lock. wp_step. wp_step. cbn [negb]. wp_step. cbn [is_locked is_c_a is_c_b set_ilocked]. rewrite Eca.
  rewrite (proj2 (Z.eqb_neq c 0) Hc). cbn [negb orb]. eapply inl_commit_cases; [exact Hmv | exact I | |].
  - intros bw T' S Er. cbn [andb]. wp_step. wp_step. wp_step. unfold INL_STAT_INC. wp_step.
    pose proof (iinv_moved k r N N' T P L (length L) icarry_dom _ w bw T' true I S Er) as I1.
    eapply (wp_begun_done k r N N' P L (length L) from to c lf lt icarry_up Hr Hsz icarry_count);
      [by eapply iinv_stat | exact HP | exact Hb |].
    intros s2 w2 Hh2 Ha2 I2. unfold inl_shift_unlock. wp_step. wp_step. wp_step. eapply wp_shift_end; [cbn [is_held set_ilocked]; rewrite Hh2; exact I2 | done |].
    intros s3 w3 I3. wp_step. apply HQ. left. split; [done |]. exists T', L. done.
  - intros Hf. cbn [andb]. wp_step. wp_step. wp_step. unfold inl_shift_unlock. wp_step. wp_step.
    wp_step. eapply (wp_begun_end k r N T P L (length L) from to c lt); try done.
    intros s3 w3 I3. wp_step. apply HQ. right. split_and!; [done | done | by exists L].
Qed.

Lemma wp_inl_carry w : iquiet k w r N T P → wp (inl_carry h from to mv) (icarry_post k r N N' T P mv) w.
Proof.
  intros (L & I & HL'). destruct icarry_host as (n & Hn & En). unfold inl_carry. apply wp_twice.
  destruct (decide (c = 0)) as [Hc | Hc].
  - unfold inl_carry_round at 1. wp_step. eapply wp_run; [eapply inl_counted_run; [exact I | by eexists] |]. rewrite Hc. cbn [Z.eqb negb].
    wp_step. wp_step. cbn [negb]. wp_step. cbn [is_locked INL_SHIFT_INIT]. eapply inl_commit_cases; [exact Hmv | exact I | |].
    + intros bw T' S Er. wp_step. wp_step. wp_step. wp_step. eapply wp_shift_end; [by eapply (iinv_moved k r N N' T P); [apply icarry_dom | ..] | done |].
      intros s1 w1 I1. wp_step. left. split; [done |]. exists T', L. split; [| done]. eapply iinv_ext; [exact I1 |].
      intros x. rewrite icarry_count, Hc. destruct (decide (x ∈ lf)), (decide (x ∈ lt)); lia.
    + intros Hf. wp_step. wp_step. wp_step. wp_step. eapply wp_shift_end; [exact I | done |].
      intros s1 w1 I1. wp_step. right. split_and!; [done | done | by exists L].
  - unfold inl_carry_round at 1. wp_step. eapply wp_run; [eapply inl_counted_run; [exact I | by eexists] |].
    rewrite (proj2 (Z.eqb_neq c 0) Hc). cbn [negb].
    destruct (rep_aligned _ _ _ _ (ii_rep _ _ _ _ _ _ _ _ _ _ _ I) h ltac:(by eexists)) as [_ H0].
    change (is_for_a INL_SHIFT_INIT) with 0. rewrite (proj2 (Z.eqb_neq 0 h)) by done. cbn [negb]. wp_step. wp_step. cbn [negb].
    wp_step. eapply wp_inl_move_begin; [exact I | exact Hc |]. intros s1 w1 Hb1 Ea1 Ec1 I1. cbn [negb Z.eqb]. wp_step.
    eapply wp_mono; [eapply (wp_inl_carry_locked w1 L s1 (icarry_post k r N N' T P mv)); try done; by intros |].
    by intros [s2 | [ret s2]] w2 H.
Qed.
End carry.

(** ** Exchange *)

Section swap.
Context `{HL : Layout} `{!LayoutOk HL}.
Variables (k : nat) (r : Z) (N N' : nspace) (T : gmap Z Z) (P : gset Z) (ha hb : Z) (an bn : node) (la lb : list Z).
Variables (mv : bworld → option bworld).
Hypothesis Ht : tree r N.
Hypothesis Ht' : tree r N'.
Hypothesis HP : P ⊆ dom N.
Hypothesis Hsw : swapped r N N' ha hb an bn.
Hypothesis Hla : upto r N (n_parent an) la.
Hypothesis Hlb : upto r N (n_parent bn) lb.
Hypothesis Hsz : Z.of_nat (size N) < 2 ^ 62.
Hypothesis Hmv : mover_ok k r N N' T mv.
Abbreviation ca := (mcount r N P ha).
Abbreviation cb := (mcount r N P hb).

(** Which way the difference goes. *)
Record plan (from to n : Z) (lf lt : list Z) : Prop := {
  pl_to : upto r N to lt;
  pl_from : upto r N' from lf;
  pl_range : 0 ≤ n < 2 ^ 62;
  pl_avoid : ha ∉ lt ∧ hb ∉ lt;
  pl_count : ∀ x, mcount r N' P x = mcount r N P x + (if decide (x ∈ lt) then n else 0) - (if decide (x ∈ lf) then n else 0);
}.

Lemma swap_up y l : upto r N y l → ha ∉ l → hb ∉ l → upto r N' y l.
Proof.
  intros Hl Ha Hb. eapply upto_frame; [| exact Hl]. intros x Hx _. destruct Hsw as [_ _ _ _ _ _ _ ->].
  rewrite !lookup_insert_ne; [done | by intros -> | by intros ->].
Qed.

Lemma swap_ranges : 0 ≤ ca < 2 ^ 62 ∧ 0 ≤ cb < 2 ^ 62.
Proof.
  pose proof (mcount_nonneg r N P ha). pose proof (mcount_size r N P ha HP).
  pose proof (mcount_nonneg r N P hb). pose proof (mcount_size r N P hb HP). lia.
Qed.

Lemma plan_ab : cb ≤ ca → plan (n_parent an) (n_parent bn) (ca - cb) la lb.
Proof.
  intros Hle. destruct (swap_avoid r N N' ha hb an bn la lb Hsw Hla Hlb) as (? & ? & ? & ?). pose proof swap_ranges.
  split; [done | by apply swap_up | lia | done |]. intros x. by apply (mcount_swapped r N N' P ha hb an bn la lb).
Qed.

Lemma plan_ba : ca < cb → plan (n_parent bn) (n_parent an) (cb - ca) lb la.
Proof.
  intros Hle. destruct (swap_avoid r N N' ha hb an bn la lb Hsw Hla Hlb) as (? & ? & ? & ?). pose proof swap_ranges.
  split; [done | by apply swap_up | lia | done |]. intros x. rewrite (mcount_swapped r N N' P ha hb an bn la lb) by done.
  destruct (decide (x ∈ la)), (decide (x ∈ lb)); lia.
Qed.

Lemma wp_inl_xchg_begin w L (Q : Z * inl_shift → iworld → Prop) :
  iinv k w r N T [] (mcount r N P) P L (length L) false →
  (∀ from to n lf lt s w', plan from to n lf lt → begun from to n s → is_for_a s = ha → is_for_b s = hb →
     is_c_a s = ca → is_c_b s = cb → iinv k w' r N T [] (cadd n lt (mcount r N P)) P L (length L) true → Q (0, s) w') →
  wp (inl_xchg_begin INL_SHIFT_INIT ha hb (n_parent an) (n_parent bn)) Q w.
Proof.
  intros I HQ. pose proof Hsw as [Ha Hb _ _ _ _ _ _].
  destruct (swap_avoid r N N' ha hb an bn la lb Hsw Hla Hlb) as (? & ? & ? & ?). pose proof swap_ranges.
  unfold inl_xchg_begin, inl_shift_hold. cbn [is_held INL_SHIFT_INIT]. wp_step. wp_step. eapply wp_inl_lock; [exact I |].
  intros w1 I1. wp_step. wp_step. unfold inl_shift_undo. cbn [is_added set_iheld INL_SHIFT_INIT]. wp_step. wp_step. wp_step.
  wp_step. eapply wp_run; [eapply inl_mnt_n_run; [exact I1 | by eexists] |].
  wp_step. eapply wp_run; [eapply inl_mnt_n_run; [exact I1 | by eexists] |].
  wp_step. destruct (Z.ltb_spec cb ca) as [Hlt | Hle]; [| destruct (Z.ltb_spec ca cb) as [Hlt | Hge]].
  - eapply (wp_shift_add k r N T P L (length L) (n_parent an) (n_parent bn) (ca - cb) lb Hlb); [lia | done | exact I1 | done | done |].
    intros w2 s2 Hb2 _ _ _ E1 E2 I2. wp_step. cbn [Z.eqb]. eapply HQ; [apply plan_ab; lia | done..].
  - eapply (wp_shift_add k r N T P L (length L) (n_parent bn) (n_parent an) (cb - ca) la Hla); [lia | done | exact I1 | done | done |].
    intros w2 s2 Hb2 _ _ _ E1 E2 I2. wp_step. cbn [Z.eqb]. eapply HQ; [apply plan_ba; lia | done..].
  - wp_step. wp_step. cbn [Z.eqb]. eapply HQ; [apply plan_ab; lia | | done..|].
    + split; [done |]. right. split; [done | lia].
    + eapply iinv_ext; [exact I1 |]. intros x. unfold cadd. case_decide; lia.
Qed.

Lemma wp_inl_swap_locked w L from to n lf lt s (Q : Z → iworld → Prop) :
  iinv k w r N T [] (cadd n lt (mcount r N P)) P L (length L) true → L ≡ₚ elements P → ca ≠ 0 ∨ cb ≠ 0 →
  plan from to n lf lt → begun from to n s → is_for_a s = ha → is_for_b s = hb → is_c_a s = ca → is_c_b s = cb →
  (∀ ret w', icarry_post k r N N' T P mv ret w' → Q ret w') →
  wp (inl_swap_round ha hb (n_parent an) (n_parent bn) mv s) (λ x w', match x with
    | inr (ret, s) => wp (let! _ := inl_shift_end s in st_ret ret) Q w' | inl _ => False end) w.
Proof.
  intros I HL' Hc [Hto Hfrom Hr [Hva Hvb] Hcount] Hb Ea Eb Eca Ecb HQ. pose proof Hsw as [Hna Hnb _ _ _ _ _ _].
  assert (Ena : cadd n lt (mcount r N P) ha = ca) by (unfold cadd; rewrite decide_False by done; lia).
  assert (Enb : cadd n lt (mcount r N P) hb = cb) by (unfold cadd; rewrite decide_False by done; lia).
  unfold inl_swap_round. wp_step. eapply wp_run; [eapply inl_counted_run; [exact I | by eexists] |].
  wp_step. eapply (wp_run _ _ _ true).
  { rewrite Ena. destruct (Z.eqb_spec ca 0); [| done]. cbn [negb]. erewrite inl_counted_run; [| exact I | by eexists].
    rewrite Enb, (proj2 (Z.eqb_neq cb 0)) by naive_solver. done. }
  cbn [negb]. rewrite Ea, Eb, !Z.eqb_refl. cbn [negb andb].
  unfold inl_shift_lock. wp_step. wp_step. cbn [negb]. wp_step. cbn [is_locked is_c_a is_c_b set_ilocked].
  assert (Hdom : ∀ x, is_Some (N' !! x) ↔ is_Some (N !! x)) by (intros x; by eapply swap_dom).
  eapply inl_commit_cases; [exact Hmv | exact I | |].
  - intros bw T' S Er. pose proof (iinv_moved k r N N' T P L (length L) Hdom _ w bw T' true I S Er) as I1.
    wp_step. wp_step. eapply wp_stat_moves; [exact I1 |]. intros w2 I2.
    wp_step. eapply (wp_begun_done k r N N' P L (length L) from to n lf lt Hfrom Hr Hsz Hcount); [exact I2 | exact HP | exact Hb |].
    intros s3 w3 Hh3 Ha3 I3. unfold inl_shift_unlock. wp_step. wp_step. wp_step.
    eapply wp_shift_end; [cbn [is_held set_ilocked]; rewrite Hh3; exact I3 | done |].
    intros s4 w4 I4. wp_step. apply HQ. left. split; [done |]. exists T', L. done.
  - intros Hf. cbn [andb when]. wp_step. wp_step. wp_step. wp_step. wp_step. unfold inl_shift_unlock. wp_step. wp_step.
    wp_step. eapply (wp_begun_end k r N T P L (length L) from to n lt); try done.
    intros s3 w3 I3. wp_step. apply HQ. right. split_and!; [done | done | by exists L].
Qed.

Lemma wp_inl_swap w :
  iquiet k w r N T P → wp (inl_swap ha hb (n_parent an) (n_parent bn) mv) (icarry_post k r N N' T P mv) w.
Proof.
  intros (L & I & HL'). pose proof Hsw as [Hna Hnb _ _ _ _ _ _]. unfold inl_swap. apply wp_twice.
  unfold inl_swap_round at 1. wp_step. eapply wp_run; [eapply inl_counted_run; [exact I | by eexists] |].
  wp_step. eapply (wp_run _ _ _ (negb (ca =? 0) || negb (cb =? 0))).
  { destruct (negb (ca =? 0)); [done |]. eapply inl_counted_run; [exact I | by eexists]. }
  destruct (decide (ca = 0 ∧ cb = 0)) as [[Hca Hcb] | Hc].
  - rewrite Hca, Hcb. cbn [Z.eqb negb orb]. wp_step. wp_step. cbn [negb]. wp_step. cbn [is_locked INL_SHIFT_INIT].
    assert (Hdom : ∀ x, is_Some (N' !! x) ↔ is_Some (N !! x)) by (intros x; by eapply swap_dom).
    eapply inl_commit_cases; [exact Hmv | exact I | |].
    + intros bw T' S Er. wp_step. wp_step. wp_step. wp_step. eapply wp_shift_end; [by eapply (iinv_moved k r N N' T P) | done |].
      intros s1 w1 I1. wp_step. left. split; [done |]. exists T', L. split; [| done]. eapply iinv_ext; [exact I1 |].
      intros x. rewrite (mcount_swapped r N N' P ha hb an bn la lb), Hca, Hcb by done.
      destruct (decide (x ∈ la)), (decide (x ∈ lb)); lia.
    + intros Hf. wp_step. wp_step. wp_step. wp_step. eapply wp_shift_end; [exact I | done |].
      intros s1 w1 I1. wp_step. right. split_and!; [done | done | by exists L].
  - assert (ca ≠ 0 ∨ cb ≠ 0) as Hc' by (destruct (decide (ca = 0)); naive_solver).
    replace (negb (ca =? 0) || negb (cb =? 0)) with true
      by (destruct (Z.eqb_spec ca 0), (Z.eqb_spec cb 0); naive_solver). cbn [negb].
    destruct (rep_aligned _ _ _ _ (ii_rep _ _ _ _ _ _ _ _ _ _ _ I) ha ltac:(by eexists)) as [_ H0].
    change (is_for_a INL_SHIFT_INIT) with 0. rewrite (proj2 (Z.eqb_neq 0 ha)) by done. cbn [negb andb]. wp_step. wp_step. cbn [negb].
    wp_step. eapply wp_inl_xchg_begin; [exact I |]. intros from to n lf lt s1 w1 Hpl Hb1 Ea Eb Eca Ecb I1. cbn [negb Z.eqb]. wp_step.
    eapply wp_mono; [eapply (wp_inl_swap_locked w1 L from to n lf lt s1 (icarry_post k r N N' T P mv)); try done; by intros |].
    by intros [s2 | [ret s2]] w2 H.
Qed.
End swap.
