(* ===== verification/MountInlineRead.v ===== *)
(** What the inline arm reads back.  The audit counts again from the mountpoints up, finds
    every count right and the sum of all counts, and leaves no shadow behind; the search
    finds what the other arm's finds. *)

From S2P Require Import Prelude Qstr HList Lru World Walk Namespace TreeOps Paths BlChain BlLists BlLru BlWorld BlWalk.
From S2P Require Import BlOps BlMove BlInv BlReads BlWalkSpec BlLocks BlRep BlSect BlReadSpec Mount MountRep MountSet MountSpec MountFind.
From S2P Require Import MountInline MountInlineRep MountInlineOps.

(** * The audit *)

Section audit.
Variables (k : nat) (r : Z) (N : nspace) (T : gmap Z Z) (P : gset Z) (L0 : list Z) (m : nat).
Abbreviation c := (mcount r N P).

(** The shadows are [sh], the rest is as between operations. *)
Definition shaded (sh : Z → Z) (w : iworld) : Prop :=
  iinv k (set_ishadow ∅ w) r N T [] c P L0 m true ∧ ∀ h, default 0 (iw_shadow w !! h) = sh h.

Lemma shaded_start w : iinv k w r N T [] c P L0 m true → shaded (λ _, 0) w.
Proof. intros I. split; [| apply I]. destruct I. by split. Qed.

Lemma shaded_end w : shaded (λ _, 0) w → iinv k w r N T [] c P L0 m true.
Proof. intros [[] Hs]. by split. Qed.

Lemma shaded_ext sh sh' w : (∀ h, sh h = sh' h) → shaded sh w → shaded sh' w.
Proof. intros E [I Hs]. split; [done |]. intros h. by rewrite Hs, E. Qed.

Section world.
Variables (sh : Z → Z) (w : iworld).
Hypothesis HS : shaded sh w.

Lemma shaded_rep : rep (iw_bw w) N T ∅.
Proof. destruct HS as [I _]. apply (ii_rep _ _ _ _ _ _ _ _ _ _ _ I). Qed.
Lemma shaded_root : bw_root (iw_bw w) = r.
Proof. destruct HS as [I _]. apply (ii_root _ _ _ _ _ _ _ _ _ _ _ I). Qed.

Lemma shaded_dent a : is_Some (N !! a) → ∃ x, on_ibw (dent_at a) w = Ok (x, w).
Proof.
  intros [n Hn]. destruct (rep_node _ _ _ _ a n shaded_rep Hn) as (x & Hx & _). exists x. by apply on_ibw_run, dent_at_run.
Qed.

Lemma shaded_n a : is_Some (N !! a) → inl_mnt_n a w = Ok (c a, w).
Proof.
  intros [x Hx]%shaded_dent. unfold inl_mnt_n. eapply bind_run; [exact Hx |]. cbn beta. rewrite gets_run.
  destruct HS as [I _]. do 2 f_equal. exact (ii_n _ _ _ _ _ _ _ _ _ _ _ I a).
Qed.

Lemma shaded_parent a n : N !! a = Some n → on_ibw (parent_of_rcu a) w = Ok (n_parent n, w).
Proof.
  intros Hn. destruct (rep_node _ _ _ _ a n shaded_rep Hn) as (x & Hx & Hok & _ & _ & _ & <-).
  by apply on_ibw_run, parent_of_run.
Qed.

Lemma wp_shadow_store a (f : Z → Z) (Q : unit → iworld → Prop) :
  is_Some (N !! a) → (∀ w', shaded (<[a := f (sh a)]> sh) w' → Q tt w') → wp (inl_shadow_store a f) Q w.
Proof.
  intros [x Hx]%shaded_dent HQ. unfold inl_shadow_store. wp_step. eapply wp_run; [exact Hx |]. wp_step. apply HQ.
  destruct HS as [I Hs]. split; [exact I |]. isimpl. intros h. destruct (decide (h = a)) as [-> | Hne].
  - by rewrite lookup_insert_eq, fn_lookup_insert, <- Hs.
  - by rewrite lookup_insert_ne, fn_lookup_insert_ne by done.
Qed.
End world.

(** ** One pass *)

(** What a pass does to the shadow of a dentry and to the faults and the total. *)
Definition pass_f (pass : nat) (z : Z) : Z :=
  match pass with 0%nat => s64 (z + 1) | 1%nat => if 0 <? z then s64 (- z) else z | _ => 0 end.
Definition pass_g (pass : nat) (acc : Z * Z) : Z * Z :=
  match pass with 0%nat => (acc.1, s64 (acc.2 + 1)) | _ => acc end.

(** The second pass compares. *)
Definition agrees (pass : nat) (sh : Z → Z) (a : Z) : Prop := pass = 1%nat → 0 < sh a → sh a = c a.

Lemma wp_check_at pass a acc sh w (Q : Z * Z → iworld → Prop) :
  shaded sh w → is_Some (N !! a) → agrees pass sh a →
  (∀ w', shaded (<[a := pass_f pass (sh a)]> sh) w' → Q (pass_g pass acc) w') → wp (inl_check_at pass a acc) Q w.
Proof.
  intros HS Ha Hg HQ. destruct acc as [bad total]. unfold inl_check_at. destruct (shaded_dent sh w HS a Ha) as [x Hx].
  wp_step. eapply wp_run; [exact Hx |]. wp_step. apply wp_gets. pose proof HS as [_ Hs]. rewrite Hs.
  destruct pass as [| [| pass]]; cbn [pass_f pass_g fst snd] in *.
  - wp_step. eapply wp_shadow_store; [exact HS | done |]. intros w1 H1. wp_step. by apply HQ.
  - destruct (Z.ltb_spec 0 (sh a)) as [Hlt | Hge].
    + wp_step. eapply wp_run; [by eapply shaded_n |]. wp_step. eapply wp_shadow_store; [exact HS | done |].
      intros w1 H1. wp_step. rewrite <- (Hg eq_refl Hlt), Z.eqb_refl. by apply HQ.
    + wp_step. apply HQ. eapply shaded_ext; [| exact HS]. intros h. destruct (decide (h = a)) as [-> |];
        [by rewrite fn_lookup_insert | by rewrite fn_lookup_insert_ne].
  - wp_step. eapply wp_shadow_store; [exact HS | done |]. intros w1 H1. wp_step. by apply HQ.
Qed.

(** From a mountpoint up. *)
Lemma wp_check_climb pass l : ∀ hops a acc sh w (Q : Z * Z → iworld → Prop),
  shaded sh w → upto r N a l → (length l ≤ S hops)%nat → (∀ x, x ∈ l → agrees pass sh x) →
  (∀ w', shaded (λ x, if decide (x ∈ l) then pass_f pass (sh x) else sh x) w' →
     Q (Nat.iter (length l) (pass_g pass) acc) w') →
  wp (inl_check_climb pass hops a acc) Q w.
Proof.
  induction l as [| a' l IH]; intros hops a acc sh w Q HS Hup Hf Hg HQ; [by inversion Hup |].
  destruct (upto_head _ _ _ _ Hup) as [l0 [= -> _]]. pose proof (upto_nodup _ _ _ _ Hup) as [Hal _]%NoDup_cons.
  pose proof HS as [I _]. pose proof (ii_root_dom _ _ _ _ _ _ _ _ _ _ _ I) as Hrd.
  assert (is_Some (N !! a)) as [n Hn] by (eapply upto_dom; [exact Hrd | exact Hup | by left]).
  assert (Hext : ∀ w', shaded (λ x, if decide (x ∈ l) then pass_f pass ((<[a := pass_f pass (sh a)]> sh) x)
      else (<[a := pass_f pass (sh a)]> sh) x) w' →
    shaded (λ x, if decide (x ∈ a :: l) then pass_f pass (sh x) else sh x) w').
  { intros w'. apply shaded_ext. intros x. destruct (decide (x = a)) as [-> | Hne].
    - by rewrite fn_lookup_insert, decide_False, decide_True by (done || by left).
    - rewrite fn_lookup_insert_ne by done. destruct (decide (x ∈ l)); [by rewrite decide_True by (by right) |].
      by rewrite decide_False by (by rewrite elem_of_cons; intros [? | ?]). }
  assert (Hit : Nat.iter (length l) (pass_g pass) (pass_g pass acc) = Nat.iter (length (a :: l)) (pass_g pass) acc).
  { simpl. by rewrite <- Nat.iter_succ_r, Nat.iter_succ. }
  destruct hops as [| hops]; cbn [inl_check_climb]; wp_step;
    (eapply wp_check_at; [exact HS | by eexists | apply Hg; by left |]); intros w1 H1; wp_step; apply wp_gets;
    rewrite ?(shaded_root _ w1 H1); inversion Hup as [E1 E2 | d n' l' Hn' Hne Hup' E1 E2].
  - wp_step. subst l. apply (HQ w1), Hext. eapply shaded_ext; [| exact H1]. intros x. by rewrite decide_False by apply not_elem_of_nil.
  - subst l'. destruct (upto_head _ _ _ _ Hup') as [? ->]. simpl in Hf. lia.
  - subst l a. rewrite Z.eqb_refl. wp_step. apply (HQ w1), Hext. eapply shaded_ext; [| exact H1]. intros x. by rewrite decide_False by apply not_elem_of_nil.
  - subst d l'. assert (n' = n) as -> by congruence. rewrite (proj2 (Z.eqb_neq a r)) by done.
    wp_step. eapply wp_run; [by eapply shaded_parent |].
    eapply IH; [exact H1 | exact Hup' | simpl in Hf; lia | |].
    + intros x Hx E. rewrite fn_lookup_insert_ne by (intros ->; done). apply Hg; [by right | done].
    + intros w2 H2. rewrite Hit. by apply HQ, Hext.
Qed.

(** ** The three passes *)

Hypothesis Hdepth : ∀ p l, p ∈ P → upto r N p l → (length l ≤ S DC_LOOP_MAX)%nat.
Hypothesis Hsz : Z.of_nat (size N) < 2 ^ 62.
Hypothesis HP : P ⊆ dom N.
Hypothesis Ht : tree r N.

Lemma ctotal_cadd_list l c' : NoDup l → (∀ x, x ∈ l → is_Some (N !! x)) →
  ctotal N (cadd 1 l c') = ctotal N c' + Z.of_nat (length l).
Proof.
  intros Hnd. revert c'. induction Hnd as [| a l Ha Hl IH]; intros c' Hd.
  - rewrite (ctotal_ext N _ c'); [simpl; lia |]. intros h. unfold cadd. rewrite decide_False by apply not_elem_of_nil. lia.
  - rewrite <- (ctotal_ext N _ _ (λ h, cadd_cons 1 a l c' h Ha)). rewrite IH by (intros x Hx; apply Hd; by right).
    rewrite ctotal_cadd by (apply Hd; by left). simpl length. lia.
Qed.

Lemma total_iter n b z : Nat.iter n (pass_g 0) (b, s64 z) = (b, s64 (z + Z.of_nat n)).
Proof.
  induction n as [| n IH]; [simpl; by rewrite Z.add_0_r |]. rewrite Nat.iter_succ, IH. cbn [pass_g fst snd].
  rewrite s64_add. do 2 f_equal. lia.
Qed.

Lemma wp_pass_count L : ∀ pre bad w (Q : Z * Z → iworld → Prop),
  shaded (mcount r N (list_to_set pre)) w → NoDup (pre ++ L) → (∀ p, p ∈ pre ++ L → p ∈ P) →
  (∀ w', shaded (mcount r N (list_to_set (pre ++ L))) w' → Q (bad, s64 (ctotal N (mcount r N (list_to_set (pre ++ L))))) w') →
  wp (inl_check_pass 0 L (bad, s64 (ctotal N (mcount r N (list_to_set pre))))) Q w.
Proof.
  induction L as [| p L IH]; intros pre bad w Q HS Hnd HLP HQ; cbn [inl_check_pass].
  { wp_step. rewrite app_nil_r in HQ. by apply HQ. }
  assert (p ∈ P) as Hp by (apply HLP, elem_of_app; right; by left).
  destruct (t_up _ _ Ht p) as [l Hl]; [by apply elem_of_dom, HP |].
  assert (p ∉ pre) as Hpre by (apply NoDup_app in Hnd as (_ & Hd & _); intros H; apply (Hd p H); by left).
  assert (E : (pre ++ p :: L) = (pre ++ [p]) ++ L) by (by rewrite <- app_assoc). rewrite E in *.
  assert (Hc : ∀ x, mcount r N (list_to_set (pre ++ [p])) x = cadd 1 l (mcount r N (list_to_set pre)) x).
  { intros x. replace (list_to_set (pre ++ [p]) : gset Z) with ({[p]} ∪ list_to_set pre : gset Z).
    - rewrite (mcount_add r N Ht _ p l x Hl) by (by rewrite elem_of_list_to_set). done.
    - rewrite list_to_set_app_L. simpl. set_solver. }
  wp_step. eapply wp_check_climb; [exact HS | exact Hl | by eapply Hdepth | done |]. intros w1 H1. rewrite total_iter.
  rewrite <- (ctotal_cadd_list l) by (first [by eapply upto_nodup | intros x Hx; eapply upto_dom; [| exact Hl | exact Hx];
    destruct (t_root _ _ Ht) as (rn & Hrn & _); by eexists]).
  rewrite <- (ctotal_ext N _ _ Hc). apply IH; [| done | done | done].
  eapply shaded_ext; [| exact H1]. intros x. rewrite Hc. unfold cadd. cbn [pass_f].
  assert (0 ≤ mcount r N (list_to_set pre) x < 2 ^ 62) as Hr.
  { pose proof (mcount_nonneg r N (list_to_set pre) x). enough (mcount r N (list_to_set pre) x ≤ Z.of_nat (size N)) by lia.
    apply mcount_size. intros y Hy%elem_of_list_to_set. apply HP, HLP. rewrite <- E. apply elem_of_app. by left. }
  destruct (decide (x ∈ l)); [rewrite s64_id; lia | lia].
Qed.

(** A dentry above one of the mountpoints seen. *)
Definition above_any (pre : list Z) (x : Z) : bool := existsb (λ p, subdir r N p x) pre.

Lemma above_any_snoc pre p x : above_any (pre ++ [p]) x = above_any pre x || subdir r N p x.
Proof. unfold above_any. rewrite existsb_app. simpl. by rewrite orb_false_r. Qed.

Lemma wp_pass_again pass sh L : ∀ pre acc w (Q : Z * Z → iworld → Prop),
  pass ≠ 0%nat → (∀ x, pass_f pass (pass_f pass (sh x)) = pass_f pass (sh x)) →
  (∀ x, agrees pass sh x) → (∀ x, pass = 1%nat → pass_f pass (sh x) ≤ 0) →
  shaded (λ x, if above_any pre x then pass_f pass (sh x) else sh x) w → (∀ p, p ∈ L → p ∈ P) →
  (∀ w', shaded (λ x, if above_any (pre ++ L) x then pass_f pass (sh x) else sh x) w' → Q acc w') →
  wp (inl_check_pass pass L acc) Q w.
Proof.
  induction L as [| p L IH]; intros pre acc w Q Hne Hid Hg Hneg HS HLP HQ; cbn [inl_check_pass].
  { wp_step. rewrite app_nil_r in HQ. by apply HQ. }
  assert (p ∈ P) as Hp by (apply HLP; by left). destruct (t_up _ _ Ht p) as [l Hl]; [by apply elem_of_dom, HP |].
  assert (E : (pre ++ p :: L) = (pre ++ [p]) ++ L) by (by rewrite <- app_assoc). rewrite E in *.
  wp_step. eapply wp_check_climb; [exact HS | exact Hl | by eapply Hdepth | |].
  { intros x _ E1. specialize (Hneg x E1). destruct (above_any pre x); [lia | by apply Hg]. }
  intros w1 H1. assert (Nat.iter (length l) (pass_g pass) acc = acc) as ->.
  { assert (∀ a, pass_g pass a = a) as Ei by (by destruct pass). clear -Ei. induction (length l) as [| n IHn]; [done |].
    by rewrite Nat.iter_succ, IHn. }
  apply (IH (pre ++ [p])); [done | done | done | done | | by intros y ?; apply HLP; right | done].
  eapply shaded_ext; [| exact H1]. intros x. cbn beta. rewrite above_any_snoc.
  rewrite (subdir_spec r N p x l Ht Hl). destruct (decide (x ∈ l)) as [Hx | Hx].
  - rewrite bool_decide_eq_true_2, orb_true_r by done. destruct (above_any pre x); [apply Hid | done].
  - rewrite bool_decide_eq_false_2, orb_false_r by done. done.
Qed.

Lemma above_any_count L x : (∀ p, p ∈ P → p ∈ L) → above_any L x = false → c x = 0.
Proof.
  intros HL Hx. unfold mcount. replace (points_below r N P x) with (∅ : gset Z); [done |]. symmetry. apply set_eq. intros p.
  rewrite points_below_spec. split; [| set_solver]. intros [Hp Hs]. exfalso. unfold above_any in Hx.
  assert (existsb (λ p, subdir r N p x) L = true) as H; [| congruence]. apply existsb_exists. exists p.
  split; [by apply list_elem_of_In, HL | done].
Qed.

Lemma wp_passes L w (Q : Z * Z → iworld → Prop) :
  iinv k w r N T [] c P L0 m true → L ≡ₚ elements P →
  (∀ w', iinv k w' r N T [] c P L0 m true → Q (0, s64 (ctotal N c)) w') →
  wp (let! acc := inl_check_pass 0 L (0, 0) in let! acc := inl_check_pass 1 L acc in inl_check_pass 2 L acc) Q w.
Proof.
  intros I HL HQ. assert (HLP : ∀ p, p ∈ L ↔ p ∈ P) by (intros p; rewrite HL; apply elem_of_elements).
  assert (list_to_set L = P) as EL by (apply set_eq; intros p; by rewrite elem_of_list_to_set, HLP).
  assert (∀ x, mcount r N (list_to_set []) x = 0) as E0.
  { intros x. unfold mcount. replace (points_below r N (list_to_set []) x) with (∅ : gset Z); [done |].
    symmetry. apply set_eq. intros p. rewrite points_below_spec. set_solver. }
  assert (ctotal N (mcount r N (list_to_set [])) = 0) as Et.
  { rewrite (ctotal_ext N _ _ E0). unfold ctotal. induction (elements (dom N)) as [| y l IH]; [done |]. simpl. exact IH. }
  assert (Hr : ∀ x, 0 ≤ c x < 2 ^ 62).
  { intros x. pose proof (mcount_nonneg r N P x). pose proof (mcount_size r N P x HP). lia. }
  wp_step. replace (0, 0) with (0, s64 (ctotal N (mcount r N (list_to_set [])))) by (by rewrite Et).
  eapply (wp_pass_count L []).
  { eapply shaded_ext; [| by apply shaded_start]. intros x. by rewrite E0. }
  { rewrite app_nil_l, HL. apply NoDup_elements. }
  { intros p Hp. by apply HLP. }
  intros w1 H1. rewrite app_nil_l, EL in H1 |- *. wp_step.
  eapply (wp_pass_again 1 c L []); [done | | | | exact H1 | by intros p ?%HLP |].
  { intros x. cbn [pass_f]. pose proof (Hr x). destruct (Z.ltb_spec 0 (c x)); [| by rewrite (proj2 (Z.ltb_ge _ _)) by done].
    rewrite s64_id by lia. by rewrite (proj2 (Z.ltb_ge _ _)) by lia. }
  { done. }
  { intros x _. cbn [pass_f]. pose proof (Hr x). destruct (Z.ltb_spec 0 (c x)); [rewrite s64_id by lia; lia | lia]. }
  intros w2 H2. eapply (wp_pass_again 2 _ L []); [done | done | done | done | exact H2 | by intros p ?%HLP |].
  intros w3 H3. apply HQ, shaded_end. eapply shaded_ext; [| exact H3]. intros x. cbn [pass_f]. rewrite !app_nil_l.
  destruct (above_any L x) eqn:Ea; [done |]. apply (above_any_count L); [by intros p ?%HLP | done].
Qed.
End audit.

Lemma wp_regroup3 {S A B C D} (m1 : ST S A) (m2 : A → ST S B) (m3 : B → ST S C) (f : C → ST S D) (Q : D → S → Prop) s :
  wp (let! a := m1 in let! b := m2 a in m3 b) (λ x s', wp (f x) Q s') s →
  wp (let! a := m1 in let! b := m2 a in let! x := m3 b in f x) Q s.
Proof.
  unfold wp, st_bind. destruct (m1 s) as [[a s1] |]; [| done]. destruct (m2 a s1) as [[b s2] |]; [| done].
  by destruct (m3 b s2) as [[x s3] |].
Qed.

Lemma wp_inl_dc_mount_check k w r N T P :
  iquiet k w r N T P → Z.of_nat (size N) < 2 ^ 62 →
  (∀ p l, p ∈ P → upto r N p l → (length l ≤ S DC_LOOP_MAX)%nat) →
  wp inl_dc_mount_check (λ bad w', bad = 0 ∧ iquiet k w' r N T P) w.
Proof.
  intros (L & I & HL) Hs Hd. unfold inl_dc_mount_check. wp_step. eapply wp_inl_lock; [exact I |]. intros w1 I1.
  wp_step. eapply wp_ii_enter; [exact I1 |]. intros w2 I2. wp_step. apply wp_gets. rewrite (ii_list _ _ _ _ _ _ _ _ _ _ _ I2).
  pose proof (ii_tree _ _ _ _ _ _ _ _ _ _ _ I2) as Ht. pose proof (ii_points _ _ _ _ _ _ _ _ _ _ _ I2) as HP.
  apply wp_regroup3. eapply (wp_passes _ r N T P); [done.. |]. intros w3 I3. cbn beta iota.
  wp_step. apply wp_gets. rewrite (ii_sum _ _ _ _ _ _ _ _ _ _ _ I3), Z.eqb_refl. cbn [negb].
  wp_step. eapply wp_ii_leave; [exact I3 |]. intros w4 I4. wp_step. eapply wp_inl_unlock; [exact I4 |]. intros w5 I5. wp_step.
  split; [done |]. by exists L.
Qed.

(** * The search *)

Section find.
Variables (k : nat) (w : iworld) (r : Z) (N : nspace) (T : gmap Z Z) (P : gset Z) (L : list Z) (m : nat) (lk : bool).
Hypothesis I : iinv k w r N T [] (mcount r N P) P L m lk.
Abbreviation R := (ii_rep _ _ _ _ _ _ _ _ _ _ _ I).
Abbreviation Ht := (ii_tree _ _ _ _ _ _ _ _ _ _ _ I).
Abbreviation HP := (ii_points _ _ _ _ _ _ _ _ _ _ _ I).

Lemma inl_find_kid_run C d ts hs : ∀ ts0 fuel,
  chain_has (bw_sib (iw_bw w)) C → C d = ts0 ++ ts → Forall2 (stands_for T) ts hs → (length ts < fuel)%nat →
  Forall (λ h, is_Some (N !! h)) hs →
  inl_find_kid fuel (hd0 ts) w = Ok (default 0 (snd <$> list_find (λ h, mcount r N P h ≠ 0) hs), w).
Proof.
  intros ts0 fuel HC E Hts. revert ts0 fuel E. induction Hts as [| t h ts hs Htop Hts IH]; intros ts0 fuel E Hf Hh;
    (destruct fuel as [| fuel]; [simpl in Hf; lia |]); [done |].
  apply Forall_cons in Hh as [Hh Hhs].
  assert (t ≠ 0) as H0.
  { intros ->. apply (ci_nonzero _ _ _ _ HC d). rewrite E. apply elem_of_app. right. by left. }
  cbn [inl_find_kid]. unfold hd0. simpl. destruct (Z.eqb_spec t 0); [done |].
  eapply bind_run; [by eapply on_ibw_run, host_of_top; [exact R |] |]. cbn beta.
  eapply bind_run; [by apply (inl_mnt_n_run _ _ _ _ _ _ _ _ _ _ _ I) |]. cbn beta. pose proof (mcount_nonneg r N P h).
  destruct (Z.ltb_spec 0 (mcount r N P h)) as [Ec | Ec].
  - rewrite decide_True by lia. done.
  - rewrite decide_False by lia.
    eapply bind_run; [by eapply on_ibw_run, (next_run _ bw_sib set_sib C d ts0 t ts set_sib_id HC E) |]. cbn beta.
    rewrite (IH (ts0 ++ [t]) fuel); [| by rewrite E, <- app_assoc | simpl in Hf; lia | done].
    by destruct (list_find _ hs) as [[i x] |].
Qed.

Variable depth : nat.
Hypothesis Hdepth : ∀ p l, p ∈ P → upto r N p l → (length l ≤ depth)%nat.

Lemma inl_find_down_run hops : ∀ h l,
  upto r N h l → is_Some (N !! h) → mcount r N P h ≠ 0 → (depth ≤ length l + hops)%nat →
  ∃ p, inl_find_down hops h w = Ok (p, w) ∧ p ∈ points_below r N P h.
Proof.
  induction hops as [| hops IH]; intros h l Hl Hh Hc Hd;
    (destruct (rep_aligned _ _ _ _ R h Hh) as [_ H0]); cbn [inl_find_down]; rewrite (proj2 (Z.eqb_neq h 0) H0);
    (destruct (decide (h ∈ P)) as [HhP | HhP];
      [exists h; split; [eapply bind_run; [by apply (inl_here_run _ _ _ _ _ _ _ _ _ _ _ I) |]; cbn beta; by rewrite bool_decide_eq_true_2
        | apply points_below_spec; split; [done |]; apply (subdir_upto r N Ht h h l Hl);
          destruct (upto_head _ _ _ _ Hl) as [? ->]; by left] |]).
  - exfalso. destruct (counting_child r N P h Ht HP Hc HhP) as (c & n & Hn & Hcr & Hpar & Hcc).
    assert (upto r N c (c :: l)) as Hlc by (econstructor; [exact Hn | done | by rewrite Hpar]).
    pose proof (counting_depth r N P c _ depth Ht HP Hcc Hlc Hdepth). simpl in *. lia.
  - destruct (child_list (iw_bw w) N T ∅ R h Hh) as (C & b & hs & HC & Hb & Hts & Hfuel & Hperm).
    rewrite (ii_root _ _ _ _ _ _ _ _ _ _ _ I) in Hperm.
    destruct (counting_kid r N P h hs Ht HP Hc HhP Hperm) as (i & x & n & Ef & Hn & Hxr & Hnp & Hxc).
    destruct (IH x (x :: l)) as (p & Ep & Hp); [by econstructor; [exact Hn | done | rewrite Hnp] | by eexists | done | simpl; lia |].
    exists p. split; [| rewrite <- Hnp; by eapply points_below_child; [exact Ht | exact HP | ..]].
    eapply bind_run; [by apply (inl_here_run _ _ _ _ _ _ _ _ _ _ _ I) |]. cbn beta. rewrite bool_decide_eq_false_2 by done.
    eapply bind_run; [by eapply on_ibw_run, (first_run _ bw_sib set_sib C h b set_sib_id HC Hb) |]. cbn beta.
    eapply bind_run; [apply gets_run |]. cbn beta.
    eapply bind_run; [eapply (inl_find_kid_run C h (C h) hs []); [done | done | done | done |] |].
    { apply Forall_forall. intros y Hy. rewrite Hperm in Hy. apply elem_of_kids in Hy as (_ & n' & ? & _). by eexists. }
    rewrite Ef. exact Ep.
Qed.

Lemma inl_find_round_run h : is_Some (N !! h) → depth = S DC_MNT_CLIMB_MAX →
  ∃ res, inl_find_round h tt w = Ok (inr res, w) ∧
    if mcount r N P h =? 0 then res = (0, 0)
    else ∃ p n, p ∈ points_below r N P h ∧ N !! p = Some n ∧ res = (1, n_id n).
Proof.
  intros Hh Hd. unfold inl_find_round. destruct (Z.eqb_spec (mcount r N P h) 0) as [Hc | Hc].
  - exists (0, 0). split; [| done]. eapply bind_run; [by apply (inl_mnt_n_run _ _ _ _ _ _ _ _ _ _ _ I) |]. cbn beta.
    by rewrite Hc.
  - destruct (t_up _ _ Ht h Hh) as [l Hl]. destruct (inl_find_down_run DC_LOOP_MAX h l Hl Hh Hc) as (p & Ep & Hp).
    { rewrite Hd. unfold DC_LOOP_MAX, DC_MNT_CLIMB_MAX, DC_PATH_MAX. lia. }
    apply points_below_spec in Hp as Hp'. destruct Hp' as [HpP Hs]. pose proof (HP p HpP) as [n Hn]%elem_of_dom.
    destruct (t_up _ _ Ht p ltac:(by eexists)) as [lp Hlp]. apply (subdir_upto r N Ht p h lp Hlp) in Hs.
    pose proof (Hdepth p lp HpP Hlp) as Hlen. rewrite Hd in Hlen.
    destruct (rep_aligned _ _ _ _ R p ltac:(by eexists)) as [_ Hp0].
    destruct (rep_top _ _ _ _ R p n Hn) as (t & x & tx & _ & En).
    exists (1, n_id n). split; [| by exists p, n].
    eapply bind_run; [by apply (inl_mnt_n_run _ _ _ _ _ _ _ _ _ _ _ I) |]. cbn beta. rewrite (proj2 (Z.eqb_neq _ _) Hc).
    eapply bind_run; [exact Ep |]. cbn beta. rewrite (proj2 (Z.eqb_neq p 0) Hp0).
    eapply bind_run; [apply on_ibw_run, (mnt_below_run (iw_bw w) N T ∅ R h p lp); [| done | done];
      by rewrite (ii_root _ _ _ _ _ _ _ _ _ _ _ I) |]. cbn [negb andb Z.ltb Z.compare].
    eapply bind_run; [apply (inl_here_run _ _ _ _ _ _ _ _ _ _ _ I); by eexists |]. cbn beta. rewrite bool_decide_eq_true_2 by done.
    eapply bind_run; [apply on_ibw_run, dent_at_run, (en_host _ _ _ _ _ _ En) |]. cbn beta. by rewrite (en_id _ _ _ _ _ _ En).
Qed.
End find.

Lemma wp_inl_dc_mount_find k w r N T P path :
  iquiet k w r N T P → path_wf path →
  (∀ p l, p ∈ P → upto r N p l → (length l ≤ S DC_MNT_CLIMB_MAX)%nat) →
  wp (inl_dc_mount_find path) (λ res w', mount_find_spec r N P (pnames path) res ∧ iquiet k w' r N T P) w.
Proof.
  intros (L & I & HL) Hp Hd. unfold inl_dc_mount_find. wp_step. eapply wp_ii_enter; [exact I |]. intros w1 I1. wp_step.
  destruct (inl_resolve_run _ _ _ _ _ _ _ _ _ _ _ path I1 Hp) as [p' Ep]. eapply wp_run; [exact Ep |]. cbn [fst].
  unfold mount_find_spec. destruct (nwalk r N r (pnames path)) as [h |] eqn:Ew; cbn [default from_option].
  - change (id h) with h. destruct (inl_known _ _ _ _ _ _ _ _ _ _ _ _ h I1 Ew) as (H0 & n & Hn). rewrite (proj2 (Z.eqb_neq h 0) H0).
    destruct (inl_find_round_run _ w1 r N T P _ _ _ I1 _ Hd h ltac:(by eexists) eq_refl) as (res & E & Hres).
    apply wp_once. eapply wp_run; [exact E |]. eexists. split; [done |].
    wp_step. eapply wp_ii_leave; [exact I1 |]. intros w2 I2. wp_step. split; [done | by exists L].
  - cbn [Z.eqb]. wp_step. eapply wp_ii_leave; [exact I1 |]. intros w2 I2. wp_step. split; [done | by exists L].
Qed.
