(* ===== verification/MountInlineEngine.v ===== *)
(** The two arms of the mount counts behind one interface, and the inline arm as its users
    see it: both arms give the same answers to the same calls; a move and an exchange
    leave the counts exact, and no count is ever short on the way. *)

From S2P Require Import Prelude Qstr HList Lru World Walk Namespace TreeOps Paths Scene BlChain BlLists BlLru BlWorld BlWalk.
From S2P Require Import BlOps BlMove BlReclaim BlInv BlReads BlWalkSpec BlLocks BlRep BlSect BlOpsSpec BlTxn BlRename BlEngine.
From S2P Require Import Moves Mount MountRep MountSet MountSpec MountClimb MountOps MountChains MountCarry MountSwap MountFind MountCheck.
From S2P Require Import MountEngine MountInline MountInlineRep MountInlineOps MountInlineMove MountInlineRead BlExchange.

(** ** The interface of an arm *)

(** What the build chooses: the operations of dcache_mount.h or of dcache_mount_inline.h,
    and what each keeps between two of them. *)
Class MountArm (W : Type) := {
  arm_mount : dc_path → ST W Z;
  arm_umount : dc_path → ST W Z;
  arm_count : dc_path → ST W Z;
  arm_find : dc_path → ST W (Z * Z);
  arm_check : ST W Z;
  arm_quiet : nat → W → Z → nspace → gmap Z Z → gset Z → Prop;
  arm_nomem : Prop;   (* memory can run out *)
}.

(** No dentry is deeper than a search climbs. *)
Definition shallow (r : Z) (N : nspace) : Prop := ∀ p l, upto r N p l → (length l ≤ S DC_MNT_CLIMB_MAX)%nat.

Definition arm_post `{MountArm W} (k : nat) (r : Z) (N : nspace) (T : gmap Z Z) (P : gset Z) (spec : Z * gset Z)
    (ret : Z) (w' : W) : Prop :=
  (ret = fst spec ∧ arm_quiet k w' r N T (snd spec)) ∨ (ret = - ENOMEM ∧ arm_nomem ∧ arm_quiet k w' r N T P).

Class MountArmOk (W : Type) `{A : MountArm W} := {
  arm_mount_ok k w r N T P path : arm_quiet k w r N T P → path_wf path → Z.of_nat (size N) < 2 ^ 62 →
    wp (arm_mount path) (arm_post k r N T P (mount_spec r N P (pnames path))) w;
  arm_umount_ok k w r N T P path : arm_quiet k w r N T P → path_wf path → Z.of_nat (size N) < 2 ^ 62 →
    wp (arm_umount path) (arm_post k r N T P (umount_spec r N P (pnames path))) w;
  arm_count_ok k w r N T P path : arm_quiet k w r N T P → path_wf path →
    wp (arm_count path) (λ v w', v = mount_count_spec r N P (pnames path) ∧ arm_quiet k w' r N T P) w;
  arm_find_ok k w r N T P path : arm_quiet k w r N T P → path_wf path → shallow r N →
    wp (arm_find path) (λ res w', mount_find_spec r N P (pnames path) res ∧ arm_quiet k w' r N T P) w;
  arm_check_ok k w r N T P : arm_quiet k w r N T P → Z.of_nat (size N) < 2 ^ 62 → shallow r N →
    wp arm_check (λ bad w', bad = 0 ∧ arm_quiet k w' r N T P) w;
}.

#[export] Instance count_arm `{Layout} `{Calloc} `{Realloc} `{MntTxn} : MountArm mworld := {|
  arm_mount := dc_mount; arm_umount := dc_umount; arm_count := dc_mount_count; arm_find := dc_mount_find;
  arm_check := dc_mount_check; arm_quiet := mquiet; arm_nomem := mem_fails |}.

#[export] Instance inline_arm `{Layout} `{HereMem} : MountArm iworld := {|
  arm_mount := inl_dc_mount; arm_umount := inl_dc_umount; arm_count := inl_dc_mount_count; arm_find := inl_dc_mount_find;
  arm_check := inl_dc_mount_check; arm_quiet := iquiet; arm_nomem := ∃ n, malloc_here n = false |}.

Lemma shallow_loop r N : shallow r N → ∀ p l, upto r N p l → (length l ≤ S DC_LOOP_MAX)%nat.
Proof. intros H p l Hl. specialize (H p l Hl). unfold DC_MNT_CLIMB_MAX, DC_PATH_MAX, DC_LOOP_MAX in *. lia. Qed.

#[export] Instance count_arm_ok `{HL : Layout} `{!LayoutOk HL} `{HC : Calloc} `{!CallocOk HC} `{HR : Realloc} `{HT : MntTxn}
  `{!MntTxnOk HT} : MountArmOk mworld.
Proof.
  split; intros *; cbn.
  - apply dc_mount_correct.
  - apply dc_umount_correct.
  - apply dc_mount_count_correct.
  - intros Hq Hp Hd. apply wp_dc_mount_find; [done | done |]. intros p l _. apply Hd.
  - intros Hq Hs Hd. apply wp_dc_mount_check; [done | done |]. intros p l _. by apply shallow_loop.
Qed.

#[export] Instance inline_arm_ok `{HL : Layout} `{!LayoutOk HL} `{HM : HereMem} : MountArmOk iworld.
Proof.
  split; intros *; cbn.
  - apply inl_dc_mount_correct.
  - intros Hq Hp Hs. eapply wp_mono; [by apply inl_dc_umount_correct |]. intros ret w' H. by left.
  - apply inl_dc_mount_count_correct.
  - intros Hq Hp Hd. apply wp_inl_dc_mount_find; [done | done |]. intros p l _. apply Hd.
  - intros Hq Hs Hd. apply wp_inl_dc_mount_check; [done | done |]. intros p l _. by apply shallow_loop.
Qed.

(** ** A client of the interface *)

Inductive mount_op :=
  | OMount (p : dc_path) | OUmount (p : dc_path) | OCount (p : dc_path) | OFind (p : dc_path) | OCheck.

Definition op_wf (o : mount_op) : Prop :=
  match o with OMount p | OUmount p | OCount p | OFind p => path_wf p | OCheck => True end.

(** The code of each operation; which mountpoint a search comes to is left open. *)
Definition op_spec (r : Z) (N : nspace) (o : mount_op) (P : gset Z) : Z * gset Z :=
  match o with
  | OMount p => mount_spec r N P (pnames p)
  | OUmount p => umount_spec r N P (pnames p)
  | OCount p => (mount_count_spec r N P (pnames p), P)
  | OFind p =>
      (match nwalk r N r (pnames p) with
       | None => - ENOENT
       | Some h => if mcount r N P h =? 0 then 0 else 1
       end, P)
  | OCheck => (0, P)
  end.

Fixpoint ops_spec (r : Z) (N : nspace) (os : list mount_op) (P : gset Z) : list Z * gset Z :=
  match os with
  | [] => ([], P)
  | o :: os =>
      let '(z, P) := op_spec r N o P in
      let '(l, P) := ops_spec r N os P in
      (z :: l, P)
  end.

Section client.
Context `{A : MountArm W} `{!MountArmOk W}.

Definition arm_exec (o : mount_op) : ST W Z :=
  match o with
  | OMount p => arm_mount p
  | OUmount p => arm_umount p
  | OCount p => arm_count p
  | OFind p => let! x := arm_find p in st_ret (fst x)
  | OCheck => arm_check
  end.

Fixpoint arm_run (os : list mount_op) : ST W (list Z) :=
  match os with
  | [] => st_ret []
  | o :: os => let! z := arm_exec o in let! l := arm_run os in st_ret (z :: l)
  end.

Context (k : nat) (r : Z) (N : nspace) (T : gmap Z Z).
Hypothesis Hs : Z.of_nat (size N) < 2 ^ 62.
Hypothesis Hd : shallow r N.
Hypothesis Hmem : ¬ arm_nomem.

Lemma wp_arm_exec o P w : arm_quiet k w r N T P → op_wf o →
  wp (arm_exec o) (λ z w', z = fst (op_spec r N o P) ∧ arm_quiet k w' r N T (snd (op_spec r N o P))) w.
Proof.
  intros Hq Ho. destruct o as [p | p | p | p |]; cbn [arm_exec op_spec fst snd].
  - eapply wp_mono; [by apply arm_mount_ok |]. intros ret w' [H | (_ & H & _)]; [exact H | done].
  - eapply wp_mono; [by apply arm_umount_ok |]. intros ret w' [H | (_ & H & _)]; [exact H | done].
  - by apply arm_count_ok.
  - wp_step. eapply wp_mono; [by apply arm_find_ok |]. intros res w' [H Hq']. wp_step. split; [| done].
    unfold mount_find_spec in H. destruct (nwalk _ _ _ _) as [h |]; [| by subst].
    destruct (_ =? 0); [by subst |]. by destruct H as (q & n & _ & _ & ->).
  - by apply arm_check_ok.
Qed.

Lemma wp_arm_run os : ∀ P w, arm_quiet k w r N T P → Forall op_wf os →
  wp (arm_run os) (λ l w', l = fst (ops_spec r N os P) ∧ arm_quiet k w' r N T (snd (ops_spec r N os P))) w.
Proof.
  induction os as [| o os IH]; intros P w Hq Ho; cbn [arm_run ops_spec]; [by wp_step |].
  apply Forall_cons in Ho as [Ho Hos]. wp_step. eapply wp_mono; [by eapply wp_arm_exec |].
  destruct (op_spec r N o P) as [z P1]. intros ? w1 [-> Hq1]. wp_step. eapply wp_mono; [by eapply IH |]. cbn [snd].
  destruct (ops_spec r N os P1) as [l P2]. intros ? w2 [-> Hq2]. by wp_step.
Qed.
End client.

(** ** Theorems *)

Section engine.
Context `{HL : Layout} `{!LayoutOk HL} `{HC : Calloc} `{!CallocOk HC} `{HR : Realloc} `{HT : MntTxn} `{!MntTxnOk HT}.
Context `{HM : HereMem}.

(** C29: the two arms are the same table, while memory lasts and no dentry is deeper than a
    search climbs.  On caches with the same name space and the same mountpoints, where no
    allocation and no commit of either arm fails and every dentry is at most
    DC_MNT_CLIMB_MAX steps below the root, every sequence of mounts, unmounts, counts,
    searches and audits returns in both, with the same codes and counts (which mountpoint
    a search finds is open), and leaves both exact for the same mountpoints. *)
Theorem mount_arms_agree k k' w i r N T T' P os :
  mquiet k w r N T P → iquiet k' i r N T' P → Forall op_wf os → Z.of_nat (size N) < 2 ^ 62 → shallow r N →
  ¬ mem_fails → (∀ n, malloc_here n = true) →
  ∃ l P' w' i', arm_run os w = Ok (l, w') ∧ arm_run os i = Ok (l, i') ∧
    mquiet k w' r N T P' ∧ iquiet k' i' r N T' P'.
Proof.
  intros Hw Hi Ho Hs Hd Hm1 Hm2.
  destruct (wp_inv _ _ _ (wp_arm_run (A := count_arm) k r N T Hs Hd Hm1 os P w Hw Ho)) as (l & w' & E & -> & Hq).
  destruct (wp_inv _ _ _ (wp_arm_run (A := inline_arm) k' r N T' Hs Hd ltac:(intros [n Hn]; by rewrite Hm2 in Hn) os P i Hi Ho))
    as (l' & i' & E' & -> & Hq').
  by exists (fst (ops_spec r N os P)), (snd (ops_spec r N os P)), w', i'.
Qed.
End engine.

Section moves.
Context `{HL : Layout} `{!LayoutOk HL}.

(** C30: a move in the inline arm, which adds what it carries above the new parent, commits,
    and takes it from above the old one, leaves every count exact for the name space after
    the move and lets go of the lock.  A move whose commit fails has taken back what it
    added. *)
Theorem inl_carry_exact k w r N N' T P h from to lf lt mv :
  iquiet k w r N T P → moves r N N' h from to → upto r N from lf → upto r N to lt → Z.of_nat (size N) < 2 ^ 62 →
  mover_ok k r N N' T mv →
  ∃ ret w', inl_carry h from to mv w = Ok (ret, w') ∧
    (ret = 0 ∧ (∃ T', iquiet k w' r N' T' P) ∨ ret = - ENOMEM ∧ mover_fails k N T mv ∧ iquiet k w' r N T P).
Proof.
  intros Hq HM Hf Ht Hs Hmv. apply wp_inv. destruct Hq as (L & I & HL').
  eapply wp_inl_carry; [done | apply (ii_points _ _ _ _ _ _ _ _ _ _ _ I) | done.. | by exists L].
Qed.

(** C31: an exchange in the inline arm, which carries the difference of the two counts to the
    side that had less, leaves every count exact for the name space after it; one whose
    commit fails has changed nothing. *)
Theorem inl_swap_exact k w r N N' T P ha hb an bn la lb mv :
  iquiet k w r N T P → swapped r N N' ha hb an bn → upto r N (n_parent an) la → upto r N (n_parent bn) lb →
  Z.of_nat (size N) < 2 ^ 62 → mover_ok k r N N' T mv →
  ∃ ret w', inl_swap ha hb (n_parent an) (n_parent bn) mv w = Ok (ret, w') ∧
    (ret = 0 ∧ (∃ T', iquiet k w' r N' T' P) ∨ ret = - ENOMEM ∧ mover_fails k N T mv ∧ iquiet k w' r N T P).
Proof.
  intros Hq Hsw Ha Hb Hs Hmv. apply wp_inv. pose proof Hq as (L & I & HL').
  pose proof (ii_tree _ _ _ _ _ _ _ _ _ _ _ I) as Ht.
  eapply wp_inl_swap; try done; [| apply (ii_points _ _ _ _ _ _ _ _ _ _ _ I)].
  pose proof Hsw as [? ? ? ? ? Hab Hba ->]. eapply tree_exchange; eauto.
Qed.

(** What [d_mnt_n] holds. *)
Definition inl_count (w : iworld) (h : Z) : Z := default 0 (iw_n w !! h).

(** A move that carries nothing adds nothing. *)
Lemma wp_begin_none k w r N T P h from to L (Q : Z * inl_shift → iworld → Prop) :
  iinv k w r N T [] (mcount r N P) P L (length L) false → is_Some (N !! h) → mcount r N P h = 0 →
  (∀ s w', iinv k w' r N T [] (mcount r N P) P L (length L) true → Q (0, s) w') →
  wp (inl_move_begin INL_SHIFT_INIT h from to) Q w.
Proof.
  intros I Hh Hc HQ. unfold inl_move_begin, inl_shift_hold. cbn [is_held INL_SHIFT_INIT]. wp_step. wp_step.
  eapply wp_inl_lock; [exact I |]. intros w1 I1. wp_step. wp_step. unfold inl_shift_undo. cbn [is_added set_iheld INL_SHIFT_INIT].
  wp_step. wp_step. wp_step. wp_step. eapply wp_run; [eapply inl_mnt_n_run; [exact I1 | done] |]. rewrite Hc. cbn [Z.eqb negb].
  wp_step. wp_step. wp_step. cbn [Z.eqb]. by apply HQ.
Qed.

(** C32: never short.  Once a move has begun, before its commit, every count is at least the
    number of mountpoints at or below its dentry in the name space as it is, and at least
    the number in the name space after the commit: whichever a reader sees, a count of 0
    says that nothing is mounted there. *)
Theorem inl_move_never_short k w r N N' T P h from to lf lt :
  iquiet k w r N T P → moves r N N' h from to → upto r N from lf → upto r N to lt → Z.of_nat (size N) < 2 ^ 62 →
  ∃ s w', inl_move_begin INL_SHIFT_INIT h from to w = Ok ((0, s), w') ∧
    ∀ x, mcount r N P x ≤ inl_count w' x ∧ mcount r N' P x ≤ inl_count w' x.
Proof.
  intros (L & I & HL') HM Hf Ht Hs. pose proof (ii_points _ _ _ _ _ _ _ _ _ _ _ I) as HP.
  pose proof (icarry_count r N N' P h from to lf lt HM HP Hf Ht) as Hcount. pose proof (mcount_nonneg r N P h) as H0.
  destruct (icarry_host r N N' h from to lf HM Hf) as (n & Hn & _).
  cut (wp (inl_move_begin INL_SHIFT_INIT h from to)
    (λ x w', fst x = 0 ∧ ∀ y, inl_count w' y = cadd (mcount r N P h) lt (mcount r N P) y) w).
  { intros (x & w' & E & H & Hc)%wp_inv. destruct x as [z s]. cbn in H. subst z. exists s, w'. split; [exact E |].
    intros y. rewrite Hc, Hcount. unfold cadd. destruct (decide (y ∈ lt)), (decide (y ∈ lf)); lia. }
  destruct (decide (mcount r N P h = 0)) as [Hc | Hc].
  - eapply wp_begin_none; [exact I | by eexists | exact Hc |]. intros s w' I'. split; [done |]. intros y.
    rewrite Hc, cadd_zero. apply (ii_n _ _ _ _ _ _ _ _ _ _ _ I').
  - eapply wp_inl_move_begin; [exact HM | exact HP | exact Hf | exact Ht | exact Hs | exact I | exact Hc |].
    intros s w' _ _ _ I'. split; [done |]. intros y. apply (ii_n _ _ _ _ _ _ _ _ _ _ _ I').
Qed.

(** A move to below what moves is refused before anything is looked up for it: -EINVAL,
    and what was added on the way up to it has been taken back. *)
Theorem inl_move_refuses_cycle k w r N T P h n from to lt :
  iquiet k w r N T P → N !! h = Some n → mcount r N P h ≠ 0 → upto r N to lt → h ∈ lt → Z.of_nat (size N) < 2 ^ 62 →
  ∃ s w', inl_move_begin INL_SHIFT_INIT h from to w = Ok ((- EINVAL, s), w') ∧ ∀ x, inl_count w' x = mcount r N P x.
Proof.
  intros (L & I & HL') Hn Hc Ht Hh Hs. pose proof (ii_mcount_range _ _ _ _ _ _ _ _ _ _ _ h I Hs) as Hr.
  cut (wp (inl_move_begin INL_SHIFT_INIT h from to) (λ x w', fst x = - EINVAL ∧ ∀ y, inl_count w' y = mcount r N P y) w).
  { intros (x & w' & E & H & Hy)%wp_inv. destruct x as [z s]. cbn in H. subst z. by exists s, w'. }
  unfold inl_move_begin, inl_shift_hold. cbn [is_held INL_SHIFT_INIT]. wp_step. wp_step.
  eapply wp_inl_lock; [exact I |]. intros w1 I1. wp_step. wp_step. unfold inl_shift_undo. cbn [is_added set_iheld INL_SHIFT_INIT].
  wp_step. wp_step. wp_step. wp_step. eapply wp_run; [eapply inl_mnt_n_run; [exact I1 | by eexists] |].
  rewrite (proj2 (Z.eqb_neq _ 0) Hc). cbn [negb]. wp_step. unfold inl_shift_add. wp_step.
  eapply wp_inl_add_up_cycle; [exact I1 | exact Ht | exact Hh | |].
  { intros y _. pose proof (ii_mcount_range _ _ _ _ _ _ _ _ _ _ _ y I Hs). lia. }
  intros w2 I2. wp_step. cbn [Z.eqb Z.opp]. wp_step. split; [done |]. intros y. apply (ii_n _ _ _ _ _ _ _ _ _ _ _ I2).
Qed.
End moves.

(** ** The theorems at work on a small cache *)

#[local] Existing Instance plain_layout.
#[local] Existing Instance roomy_txn.
#[local] Existing Instance plain_calloc.
#[local] Existing Instance plain_calloc_ok.
#[local] Existing Instance plain_realloc.
#[local] Existing Instance plain_mnt_txn.
#[local] Existing Instance plain_mnt_txn_ok.
#[local] Instance plain_here_mem : HereMem := λ _, true.

Definition inl_new (bw : bworld) : iworld := IWorld bw ∅ ∅ ∅ false [] 0 0 (MStat 0 0 0 0 0 0 0 0).
Definition inl_run {A} (m : IM A) (w : iworld) : iworld := match m w with Ok (_, w') => w' | Err _ => w end.
Definition inl_ret {A} (x : res (A * iworld)) : option A := match x with Ok (a, _) => Some a | Err _ => None end.

Lemma mcount_none r N h : mcount r N ∅ h = 0.
Proof.
  unfold mcount. replace (points_below r N ∅ h) with (∅ : gset Z); [done |]. symmetry. apply set_eq. intros p.
  rewrite points_below_spec. set_solver.
Qed.

Lemma zsum_none (c : Z → Z) l : (∀ h, c h = 0) → zsum (c <$> l) = 0.
Proof. intros Hc. induction l as [| h l IH]; [done |]. cbn [fmap list_fmap zsum foldr]. rewrite Hc. exact IH. Qed.

Lemma inl_new_quiet k bw N T : binv k bw N T → iquiet k (inl_new bw) (bw_root bw) N T ∅.
Proof.
  intros Hi. exists []. split; [| done].
  split; unfold inl_new; isimpl; try done.
  - by apply sect_binv.
  - unfold ctotal. by rewrite zsum_none by apply mcount_none.
Qed.

(** A mountpoint at /a/x. *)
Definition i_scene0 : iworld := inl_new bl_scene.
Definition i_scene : iworld := inl_run (inl_dc_mount p_ax) i_scene0.

Lemma i_scene0_quiet : ∃ T, iquiet 0 i_scene0 64 bl_names T ∅.
Proof. destruct bl_scene_inv as [T Hi]. exists T. by apply (inl_new_quiet 0 bl_scene). Qed.

Lemma i_scene_quiet : ∃ T, iquiet 0 i_scene 64 bl_names T {[256]}.
Proof.
  destruct i_scene0_quiet as [T Hq]. exists T.
  destruct (wp_inv _ _ _ (inl_dc_mount_correct 64 bl_names T 0 i_scene0 ∅ p_ax Hq ltac:(path_by_decide) ltac:(done))) as (ret & w' & E & Hp).
  unfold i_scene, inl_run. rewrite E. destruct Hp as [[_ H] | (_ & [n Hn] & _)]; [| done].
  assert (snd (mount_spec 64 bl_names ∅ (pnames p_ax)) = {[256]}) as Es by (by vm_compute). by rewrite Es in H.
Qed.

Lemma bl_names_up : ∀ h l, upto 64 bl_names h l → (length l ≤ 3)%nat.
Proof.
  assert (Hup : upto 64 bl_names 256 [256; 128; 64]).
  { econstructor; [by vm_compute | done |]. econstructor; [by vm_compute | done | constructor]. }
  assert (Hub : upto 64 bl_names 192 [192; 64]) by (econstructor; [by vm_compute | done | constructor]).
  assert (Hua : upto 64 bl_names 128 [128; 64]) by (econstructor; [by vm_compute | done | constructor]).
  assert (Hun : upto 64 bl_names 320 [320; 64]) by (econstructor; [by vm_compute | done | constructor]).
  assert (Hd : dom bl_names ⊆ ({[64; 128; 192; 256; 320]} : gset Z)) by by_decide.
  intros h l Hl. assert (h = 64 ∨ h ∈ dom bl_names) as Hh by (inversion Hl; [by left | right; by apply elem_of_dom]).
  assert (h = 64 ∨ h = 128 ∨ h = 192 ∨ h = 256 ∨ h = 320) as Hh' by set_solver.
  destruct Hh' as [-> | [-> | [-> | [-> | ->]]]].
  - inversion Hl; simpl; [lia | done].
  - rewrite (upto_det _ _ _ _ _ Hl Hua). simpl. lia.
  - rewrite (upto_det _ _ _ _ _ Hl Hub). simpl. lia.
  - rewrite (upto_det _ _ _ _ _ Hl Hup). simpl. lia.
  - rewrite (upto_det _ _ _ _ _ Hl Hun). simpl. lia.
Qed.

(** Mount /a/x, count below /a, find it, audit, unmount, mount /b, unmount /a/x again, count
    below /b. *)
Definition a_tour : list mount_op := [OMount p_ax; OCount p_a; OFind p_a; OCheck; OUmount p_ax; OMount p_b; OUmount p_ax; OCount p_b].

Lemma mount_arms_agree_witness :
  ∃ w' i' T T' P', arm_run a_tour m_scene0 = Ok ([0; 1; 1; 0; 0; 0; - EINVAL; 1], w') ∧
    arm_run a_tour i_scene0 = Ok ([0; 1; 1; 0; 0; 0; - EINVAL; 1], i') ∧
    mquiet 0 w' 64 bl_names T P' ∧ iquiet 0 i' 64 bl_names T' P'.
Proof.
  destruct m_scene0_quiet as [T Hm]. destruct i_scene0_quiet as [T' Hi].
  destruct (mount_arms_agree 0 0 m_scene0 i_scene0 64 bl_names T T' ∅ a_tour Hm Hi) as (l & P' & w' & i' & E & E' & Hq & Hq').
  - unfold a_tour. rewrite !Forall_cons, Forall_nil. cbn [op_wf]. split_and!; try done; path_by_decide.
  - done.
  - intros h l Hl. pose proof (bl_names_up h l Hl). unfold DC_MNT_CLIMB_MAX, DC_PATH_MAX. lia.
  - intros [[live H] | [[n H] | (lr & w & H)]]; [done | done | discriminate H].
  - done.
  - assert (inl_ret (arm_run a_tour i_scene0) = Some [0; 1; 1; 0; 0; 0; - EINVAL; 1]) as Er by (by vm_compute).
    rewrite E' in Er. injection Er as ->. exists w', i', T, T', P'. by split_and!.
Defined.

Lemma inl_carry_exact_witness :
  ∃ w' T', inl_carry 128 64 192 m_mover i_scene = Ok (0, w') ∧ iquiet 0 w' 64 bl_moved_names T' {[256]}.
Proof.
  destruct i_scene_quiet as [T Hq].
  destruct (inl_carry_exact 0 i_scene 64 bl_names bl_moved_names T {[256]} 128 64 192 [64] [192; 64] m_mover Hq m_moves)
    as (ret & w' & E & H); [constructor | | done | apply m_mover_ok |].
  { econstructor; [by vm_compute | done | constructor]. }
  assert (inl_ret (inl_carry 128 64 192 m_mover i_scene) = Some 0) as Er by (by vm_compute). rewrite E in Er. injection Er as ->.
  destruct H as [[_ [T' Hq']] | [H _]]; [| discriminate H]. exists w', T'. split; [exact E | exact Hq'].
Defined.

Lemma inl_swap_exact_witness :
  ∃ w' T', inl_swap 256 192 128 64 m_swapper i_scene = Ok (0, w') ∧ iquiet 0 w' 64 m_swapped_names T' {[256]}.
Proof.
  destruct i_scene_quiet as [T Hq].
  destruct (inl_swap_exact 0 i_scene 64 bl_names m_swapped_names T {[256]} 256 192 _ _ [128; 64] [64] m_swapper Hq m_swapped)
    as (ret & w' & E & H); [| constructor | done | apply m_swapper_ok |].
  { econstructor; [by vm_compute | done | constructor]. }
  cbn [n_parent] in E.
  assert (inl_ret (inl_swap 256 192 128 64 m_swapper i_scene) = Some 0) as Er by (by vm_compute). rewrite E in Er. injection Er as ->.
  destruct H as [[_ [T' Hq']] | [H _]]; [| discriminate H]. exists w', T'. split; [exact E | exact Hq'].
Defined.

Lemma inl_move_never_short_witness :
  ∃ s w', inl_move_begin INL_SHIFT_INIT 128 64 192 i_scene = Ok ((0, s), w') ∧
    ∀ x, mcount 64 bl_names {[256]} x ≤ inl_count w' x ∧ mcount 64 bl_moved_names {[256]} x ≤ inl_count w' x.
Proof.
  destruct i_scene_quiet as [T Hq].
  apply (inl_move_never_short 0 i_scene 64 bl_names bl_moved_names T {[256]} 128 64 192 [64] [192; 64] Hq m_moves);
    [constructor | | done].
  econstructor; [by vm_compute | done | constructor].
Defined.
